(* ===== verification/_CoqProject ===== *)
-Q . S2P
Prelude.v
Prog.v
GoText.v
Utf8.v
GoFormat.v
PersonService.v
Throttle.v
Std.v
NtfyCli.v
Sha256.v
Base64.v
Idents.v
Seal.v
Guard.v
Registry.v
Publisher.v
PublisherProps.v
RegistryStore.v
RegistryService.v
RegistryProps.v
Heartbeat.v
HeartbeatProps.v
Float64.v
Json.v
JsonProps.v
JsonEncode.v
Message.v
MessageValidate.v
Provisioning.v
ProvisioningLocks.v
ProvisioningProps.v
ProvisioningWorld.v
ProvisioningNtfy.v
ProvisioningDemo.v
MessageValidateProps.v
HeartbeatSeal.v
Unmarshal.v
HeartbeatStore.v
HeartbeatInv.v
HeartbeatSteps.v
HeartbeatStoreProps.v
HeartbeatOutbox.v
HeartbeatService.v
HeartbeatProber.v
HeartbeatAlerts.v
HeartbeatServiceProps.v
HeartbeatApps.v
HeartbeatDemo.v
Identity.v
IdentityStore.v
IdentityService.v
IdentityExchange.v
IdentityInv.v
IdentityRun.v
IdentityProps.v
IdentityVerifier.v
IdentityVerifierProps.v
IdentityDemo.v
MessageStore.v
MessageInv.v
MessageSteps.v
MessageReach.v
MessageProps.v
MessageQueueProps.v
MessageRetention.v
MessageService.v
MessageServiceProps.v
MessageRefine.v
MessageDemo.v
Dispatch.v
DispatchWorker.v
MessageRelease.v
DispatchDemo.v
KeyRotation.v
Sinks.v
SinkProps.v
Migrate.v
Http.v
HttpApi.v
HttpProps.v
