(* ===== verification/Prelude.v ===== *)
(** * 4irl-notifs: a verified model of the notification services

    The repository is a notification service.  Applications submit messages to the
    delivery API (Go, under src/delivery-api); it resolves the destinations of a
    message (ntfy topics, Discord or HMAC webhooks), queues one delivery per
    destination in Postgres, and a worker sends them with retries.  Messages may be
    scheduled for later or held; applications and operators manage destinations,
    routes and heartbeat checks.  The provisioning API (Go, under src/provisioning-api)
    gives people their ntfy accounts: it drives the ntfy command line and, behind it, the
    person service, a worker over three tables.  This development models the parts that carry the
    service's own logic as executable definitions and proves what makes them correct.

    ** Parts and files

    Shared vocabulary
    - Prelude.v (this file): Go integers, times, errors, results, operations on
      shared state, tactics.  GoText.v, Utf8.v: Go strings, bytes, runes, regular
      expressions of fixed shape.  Float64.v: float64 as IEEE 754 binary64.
      Sha256.v: SHA-256, HMAC, base32 and hex.  Base64.v: base64url.
      GoFormat.v: strconv.FormatInt, durations and RFC 3339.
      Json.v, JsonProps.v: encoding/json as a scanner to syntax trees; JsonEncode.v: its
      encoder, and that parsing undoes it.  Std.v: the class [Std] of the standard-library functions
      that are not defined here (URL parsing, lower case beyond ASCII, the JSON of
      string maps, RFC 3339), with their documented laws.

    Registry (internal/registry, seal, transport, appid, personhash)
    - Idents.v: app ids, person hashes, topics.  Seal.v: sealing of secrets with a
      current and a previous key.  Guard.v: the address guard against internal hosts.
    - Registry.v: data model, route matching, validators, masking.
      RegistryStore.v: the [Store] interface (class) and the Postgres store with its
      constraints.  RegistryService.v: every method of the service, over any store.
      RegistryProps.v: resolution is exact over the tables and safe over any store,
      app-scoped writes stay within the app, masking reveals nothing, rotation keeps
      secrets readable.

    Heartbeats (internal/heartbeat)
    - Heartbeat.v: model, patches, validators, and the check state machine of
      machine.go.  HeartbeatProps.v: the invariant of the machine over every run,
      alternation of alerts, each transition, probe failure counting, sanitised text.
    - HeartbeatSeal.v: probe_seal.go, an Access token survives sealing under its check
      only.  HeartbeatStore.v: the [Store] interface of store.go, the tables of migrations
      0006, 0007 and 0009 with their constraints, and every operation of pgstore.go and
      probe_store.go.  HeartbeatInv.v: the invariant of the tables; HeartbeatSteps.v:
      every operation keeps it, the step relation (the registry's operations on the shared
      tables included) and its reachable states.
    - HeartbeatStoreProps.v: what the store returns, which checks a tick takes down, which
      probes a claim hands out, that stale results change nothing.  HeartbeatOutbox.v: no
      pending alert is lost.
    - HeartbeatService.v: service.go, app_service.go and checker.go over the interfaces
      [HeartbeatStore] and [HeartbeatMessages].  HeartbeatServiceProps.v: what a tick submits
      and clears.  HeartbeatAlerts.v: every alert in the tables is accepted by the message
      service's validation.  HeartbeatApps.v: an app reaches only its own checks.
    - HeartbeatProber.v: probe_eval.go and prober.go, the verdict of a probe, and the bound
      on the probes in flight.

    Messages (internal/message)
    - Message.v: types.go and the pure functions of pgstore.go, and the text caps.
      MessageValidate.v: validate.go, email.go, equality.go and envint.go;
      MessageValidateProps.v: the scans of the raw payload agree with its syntax tree,
      accepted numbers fit, payload comparison is equality of values.  MessageStore.v: the tables of migrations 0003, 0004, 0005 and 0012
      with their constraints, and every operation of pgstore.go, pgstore_scheduled.go
      and pgstore_held.go as a transaction on them.
    - MessageInv.v: the invariant of the tables (each message is in one phase of its
      life, the attempt log is gap-free) and the kinds of change that keep it.
      MessageSteps.v, MessageReach.v: every operation reduced to its outcomes; the
      step relation of the store and its reachable states.
    - MessageProps.v: how deliveries evolve; refinement of the store to the life cycle
      of a message, a retention statement racing a replay included; the caps.  MessageQueueProps.v: submits, cancels, claims, the attempt log.
      MessageRetention.v, MessageRelease.v: the sweeps and the releaser.
    - MessageService.v: service.go over the [MessageStore] interface of store.go.
      MessageServiceProps.v: what it guarantees over any store (only safe calls, reads
      within the app, Await ends).  MessageRefine.v: over the Postgres store, with other
      transactions between and within its statements, a submit is one atomic step.

    Dispatch and sinks (internal/dispatch, internal/sink, transport/client.go)
    - Dispatch.v: retry policy, worker, releaser, sweeper, backoff bounds and decisions.
      DispatchWorker.v: the worker over the queue, and, on a clock, any number of workers
      and clients: no delivery is being sent twice at once.
    - Sinks.v: the webhook, Discord and ntfy sinks as programs over the clock and the
      requests they make.  SinkProps.v: a receiver verifies what a webhook posts (at the
      Unix time it is stamped with), stored outcomes and their error texts hold no secret,
      requests carry no break a caller chose.

    Publishers and key rotation (internal/publisher, resetlimit, keyrotation)
    - Publisher.v: the publisher service as programs over its store, minter and lookups,
      and the statements of the mint and reset limits.  PublisherProps.v: when a mint for an
      app may reach the minter (a binding of that app, a slot of its limit) and what it
      stores in the app's row, that the token reads back, and the bounds of
      both limits with transactions that wait for their locks.
    - KeyRotation.v: the registry of sealed columns, Rotate and Verify as programs among
      other transactions; no secret is lost, a complete rotation retires the old key.

    Migrations (internal/migrate)
    - Migrate.v: loading, Run as a program over its store, the polled advisory lock, the
      statements; a run applies a prefix of the pending migrations, each once, under the
      lock, and the wait for the lock ends.

    App identity (internal/appidentity)
    - Identity.v: key.go, config.go, admin.go and the claims and bindings of verifier.go
      and store.go.  IdentityStore.v: the interfaces of store.go and admin.go, the tables
      of migration 0008 with their constraints, and every operation of pgstore.go and
      pgstore_admin.go.  IdentityService.v: service.go over those interfaces (an exchange,
      an approval, the resolving of a key) and the sweeps of cleanup.go.
    - IdentityExchange.v: the transaction of an exchange under READ COMMITTED, as a state
      that sees, before each statement, what other transactions committed, the locks it
      holds apart; an exchange is one atomic step.  IdentityInv.v: the invariant of the
      tables, and each operation reduced to its outcomes.  IdentityRun.v: the step
      relation, its traces, and where every key, binding and request comes from.
    - IdentityProps.v: which keys authenticate, that they were authorised, that dead
      keys stay dead and tokens are exchanged once, each case of an exchange,
      approvals and the operator's lists.  IdentityVerifier.v: verifier.go
      over the class [Jose], golang-jwt and the decoding of a key set;
      IdentityVerifierProps.v: with the parser's documented behaviour ([JoseLaws]), only
      RS256 tokens signed by trusted keys are accepted, and keys are fetched once an interval.

    Provisioning (src/provisioning-api/internal, and the worker of src/person-service)
    - Prog.v: programs as trees of calls to an environment, their executions, pools of
      them under locks.  NtfyCli.v: ntfycli/args.go and client.go (commands, retries under
      the mutex, parsers), what a command tries and that listings are read back.  PersonService.v: personsvc/password.go and the statements of the worker, and the
      bound on reset slots.
    - Throttle.v: attemptthrottle.go and keyedlock.go against a reference that
      keeps every grant, and against one lock per key.
    - Provisioning.v: enforcement.go, service.go, appgrant.go, password.go; every method is a
      program over the service's interfaces.  ProvisioningProps.v: what holds whatever ntfy
      and the person service answer (a claim won is recorded or released for the person it
      is of, the grant of the person asked about is seen first, an app reaches only its
      own).  ProvisioningLocks.v: over every interleaving of
      requests, a person is touched by one at a time and none waits for ever.
      ProvisioningWorld.v: over the worker's tables, with calls refused and replies lost, a
      password change is all or nothing but for the failures the service can only log.
      ProvisioningNtfy.v: over a server that does what ntfy documents ([documented]), what a
      provision, a deprovision and the removal of an app leave.

    HTTP API of the delivery API (internal/httpapi)
    - Unmarshal.v: encoding/json into Go structs, by a description of their fields.
    - Http.v: what every endpoint is built from: requests, bodies, path ids, app keys, the
      services an endpoint calls, the views it answers with, and what each service's
      errors become.  HttpApi.v: every handler of the package and its wrappers, and the
      table of routes.
    - HttpProps.v: whatever the services answer, an app-facing route reaches them only as
      the app whose key was presented, and an error response shows fixed messages,
      validation messages, the relayed answer of the provisioning API or the state of the
      schema only.

    MessageDemo.v, DispatchDemo.v, IdentityDemo.v, HeartbeatDemo.v and ProvisioningDemo.v hold
    concrete databases and runs at which the theorems with hypotheses are applied (those of
    the registry, the seal, the guard and the heartbeat machine are in their own files).

    ** How the model corresponds to the code

    An operation on shared state is [M S A]: a state to a result and the state it
    leaves, error or not.  A transaction ([WithTx]) that fails leaves the state it
    began in.  A table is a finite map from its key to a record of its columns; a CHECK,
    UNIQUE or foreign key constraint is a test an insert or update makes before it
    writes.  A request of either API, a mint, a key rotation, a delivery by a
    sink and a migration run are instead programs ([prog]) whose calls are answered by the environment, since they hold no state
    of their own but locks and a throttle, and their theorems quantify over the answers.
    What a statement takes from its surroundings is an argument: the uuid a
    row is given, now(), the rows other transactions hold locked (SKIP LOCKED), and
    for an insert that re-selects the row it conflicts with, whatever other
    transactions commit in between ([gap]).  Every other interleaving is a sequence of
    steps, since each operation is one transaction under row or advisory locks; that
    those locks serialise the transactions is Postgres's part.  The retention statement
    of messages, which takes no lock on what it reads, is two steps: it chooses its
    messages on its snapshot ([choose_expired], kept in the table state as
    [sweeping]) and deletes them later ([delete_chosen]).

    Columns of type timestamptz and jsonb, and the JSON codec of a display, are the
    class [Pg], whose laws ([PgLaws]) are Postgres's documented rounding to
    microseconds; only the theorems on leases use them.  Sealing is over an abstract
    AEAD whose law is that opening undoes sealing.

    Integers are Z; where the code's int or Duration arithmetic could overflow it is
    written with [wrap64], and the theorems show where it cannot.

    ** Bounds and fuel

    [Dispatch.policy.grow] doubles the backoff ceiling with a fuel of 7, which
    [grow_enough] shows equal to any larger fuel.  The batch loops have the code's own
    bounds (200 batches, 50 batches, 2 insert attempts, 3 record attempts) as fuel.
    [Json.json.parse] has twice the length of the document, shown enough by
    [parse_fuel]; the byte scans of payload validation have its length
    ([number_literals_fuel], [unicode_escapes_fuel]).  Waiting for the probes in flight has
    their number ([Wait_drains]); waiting for the migration lock has
    the polls its timeout allows and two more ([Lock_ends]).  Instants are formatted exactly before the year 9000
    ([civil_range]).

    ** Not modelled

    What net/http does (servers, matching a request to a route, timeouts) and what
    encoding/json prints of a response, the HTTP layer of the provisioning API,
    configuration from the environment, logging, the
    network (the HTTP client under the sinks, probes, DNS, the request for
    signing keys), goroutines and timers, RSA and the parsing of tokens (golang-jwt), what
    the SQL of a migration does when it runs (its tables are modelled); ntfy itself; the HTTP between the provisioning API and the person service, and the other
    TypeScript and script parts of the repository.  A lost database connection is not
    modelled either: an operation on the tables fails only where the code or a
    constraint makes it fail; nor are the ids a bigserial column skips when a
    transaction rolls back. *)

From stdpp Require Export gmap strings list sorting pretty.
From coqutil Require Export Datatypes.RecordSetters.
From Stdlib Require Export Ascii ZArith Lia.
Export DoubleBraceUpdate.

#[global] Set Default Goal Selector "!".

Arguments constant {E} _ _ /.
Arguments apply_update {R E} _ _ /.

Open Scope Z_scope.

Create HintDb notifs.
Create Rewrite HintDb notifs.

(** ** Go integers

    [int] and [int64] are 64-bit two's complement on every platform the
    service is built for; [wrap64] is the wrap-around of their arithmetic. *)

Definition int64_min : Z := - 2 ^ 63.
Definition int64_max : Z := 2 ^ 63 - 1.

Definition wrap64 (z : Z) : Z := (z + 2 ^ 63) mod 2 ^ 64 - 2 ^ 63.

#[global] Arguments wrap64 : simpl never.

Definition in_int64 (z : Z) : Prop := int64_min <= z <= int64_max.

Lemma wrap64_small z : in_int64 z -> wrap64 z = z.
Proof.
  unfold in_int64, wrap64, int64_min, int64_max. intros H.
  rewrite Z.mod_small; lia.
Qed.

Lemma wrap64_range z : in_int64 (wrap64 z).
Proof.
  unfold in_int64, wrap64, int64_min, int64_max.
  pose proof (Z.mod_pos_bound (z + 2 ^ 63) (2 ^ 64)). lia.
Qed.

#[export] Hint Resolve wrap64_range : notifs.

(** ** Go times and durations

    A [time.Time] is its instant, in nanoseconds since Go's zero time
    (0001-01-01 00:00:00 UTC); the location is presentation only, so [UTC] is
    the identity.  A [time.Duration] is an [int64] count of nanoseconds. *)

Definition Nanosecond : Z := 1.
Definition Microsecond : Z := 1000.
Definition Millisecond : Z := 1000 * Microsecond.
Definition Second : Z := 1000 * Millisecond.
Definition Minute : Z := 60 * Second.
Definition Hour : Z := 60 * Minute.

Module time.
(** [t.IsZero()] *)
Definition IsZero (t : Z) : bool := t =? 0.
Definition After (t u : Z) : bool := u <? t.
Definition Before (t u : Z) : bool := t <? u.
Definition Equal (t u : Z) : bool := t =? u.
Definition Add (t d : Z) : Z := t + d.
(** [t.Sub(u)] saturates at the extreme durations. *)
Definition Sub (t u : Z) : Z := Z.max int64_min (Z.min int64_max (t - u)).
(** [t.Truncate(d)] rounds down to a multiple of [d] since the zero time. *)
Definition Truncate (t d : Z) : Z := t - t mod d.

Lemma Truncate_le t d : 0 < d -> Truncate t d <= t < Truncate t d + d.
Proof. unfold Truncate. intros H. pose proof (Z.mod_pos_bound t d H). lia. Qed.

Lemma Truncate_mono t u d : 0 < d -> t <= u -> Truncate t d <= Truncate u d.
Proof.
  unfold Truncate. intros Hd H.
  pose proof (Z.div_mod t d ltac:(lia)). pose proof (Z.div_mod u d ltac:(lia)).
  pose proof (Z.div_le_mono t u d Hd H). nia.
Qed.

Lemma Truncate_idemp t d : 0 < d -> Truncate (Truncate t d) d = Truncate t d.
Proof.
  unfold Truncate. intros Hd.
  replace (t - t mod d) with (d * (t / d)) by (pose proof (Z.div_mod t d); lia).
  rewrite (Z.mul_comm d), Z.mod_mul by lia. lia.
Qed.
End time.

(** [time.Duration(n) * unit] *)
Definition Duration_mul (n unit : Z) : Z := wrap64 (wrap64 n * unit).

Lemma Duration_mul_small n unit :
  in_int64 n -> in_int64 (n * unit) -> Duration_mul n unit = n * unit.
Proof. intros H1 H2. unfold Duration_mul. by rewrite (wrap64_small n), wrap64_small. Qed.

(** ** Go errors

    A package-level [errors.New] is a [Sentinel] (the texts are distinct, so a
    sentinel's identity is its text), a request error that is safe to show is a
    [ValidationError], and [fmt.Errorf] / [errors.Join] is a [Wrap] carrying its
    text and what it wraps with [%w]. *)

Inductive error : Type :=
  | Sentinel (text : string)
  | ValidationError (message : string)
  | Wrap (text : string) (inner : list error).

Definition Error (e : error) : string :=
  match e with Sentinel t => t | ValidationError m => m | Wrap t _ => t end.

(** [errors.Is(err, target)] for a sentinel target. *)
Fixpoint errors_Is (err target : error) : bool :=
  match err with
  | Sentinel a => match target with Sentinel b => String.eqb a b | _ => false end
  | ValidationError _ => false
  | Wrap _ inner => existsb (fun e => errors_Is e target) inner
  end.

(** [errors.New] at a call site: an error no code compares against. *)
Definition errors_New (text : string) : error := Wrap text [].

Lemma errors_Is_refl text : errors_Is (Sentinel text) (Sentinel text) = true.
Proof. apply String.eqb_refl. Qed.

#[export] Hint Rewrite errors_Is_refl : notifs.

(** ** Results: a Go [(value, error)] pair *)

Inductive result (A : Type) : Type :=
  | Ok (a : A)
  | Err (e : error).
Arguments Ok {A} a.
Arguments Err {A} e.

#[global] Instance result_ret : MRet result := @Ok.
#[global] Instance result_bind : MBind result := fun A B f m =>
  match m with Ok a => f a | Err e => Err e end.

Definition is_Ok {A} (r : result A) : bool := match r with Ok _ => true | Err _ => false end.

(** [if err := check; err != nil { return err }]: a validator returns [None]
    for a nil error. *)
Definition first_error (checks : list (option error)) : option error :=
  head (omap id checks).

Lemma first_error_None checks : first_error checks = None <-> Forall (fun c => c = None) checks.
Proof.
  unfold first_error. induction checks as [|[e|] checks IH]; csimpl.
  - done.
  - split; [done|]. inversion 1; done.
  - rewrite IH. split; [by constructor|]. by inversion 1.
Qed.

(** ** Operations on shared state

    An operation as its caller sees it: what it returns, and the state it leaves
    whether it succeeds or not. *)
Definition M (S A : Type) : Type := S -> result A * S.

#[global] Instance m_ret {S} : MRet (M S) := fun A a s => (Ok a, s).
#[global] Instance m_bind {S} : MBind (M S) := fun A B f m s =>
  match m s with (Ok a, s') => f a s' | (Err e, s') => (Err e, s') end.

Definition m_fail {S A} (e : error) : M S A := fun s => (Err e, s).
Definition m_lift {S A} (r : result A) : M S A := fun s => (r, s).
(** [if err := check; err != nil { return err }] *)
Definition m_check {S} (e : option error) : M S unit :=
  match e with None => mret tt | Some e => m_fail e end.
(** A read-only query. *)
Definition m_gets {S A} (f : S -> A) : M S A := fun s => (Ok (f s), s).
(** [m] with its error mapped. *)
Definition m_map_err {S A} (f : error -> error) (m : M S A) : M S A := fun s =>
  match m s with (Ok a, s') => (Ok a, s') | (Err e, s') => (Err (f e), s') end.

(** [m], its error handed to the caller beside the state it left. *)
Definition m_try {S A} (m : M S A) : M S (result A) := fun s => let (r, s') := m s in (Ok r, s').
(** An effect that cannot fail. *)
Definition m_do {S} (f : S -> S) : M S unit := fun s => (Ok tt, f s).

(** [pgutil.WithTx]: [body] in a transaction, which an error rolls back. *)
Definition WithTx {S A} (body : M S A) : M S A := fun s =>
  match body s with (Ok a, s') => (Ok a, s') | (Err e, _) => (Err e, s) end.

Lemma WithTx_ind {S A} (P : S -> Prop) (body : M S A) s :
  P s -> (forall a s', body s = (Ok a, s') -> P s') -> P (WithTx body s).2.
Proof. intros Hs H. unfold WithTx. destruct (body s) as [[a|e] s'] eqn:E; [by eapply H|done]. Qed.

Lemma WithTx_ok {S A} (body : M S A) s a s' :
  WithTx body s = (Ok a, s') <-> body s = (Ok a, s').
Proof. unfold WithTx. destruct (body s) as [[]]; split; congruence. Qed.

Lemma WithTx_err {S A} (body : M S A) s e s' : WithTx body s = (Err e, s') -> s' = s.
Proof. unfold WithTx. destruct (body s) as [[]]; congruence. Qed.

(** A transaction commits what its body returns, or fails and changes nothing. *)
Lemma WithTx_cases {S A} (body : M S A) s r s' : WithTx body s = (r, s') ->
  (exists e, r = Err e /\ s' = s) \/ (exists a, r = Ok a /\ body s = (Ok a, s')).
Proof. unfold WithTx. destruct (body s) as [[a|e] s1]; intros [= <- <-]; eauto. Qed.

Lemma m_check_ok {S} e (s : S) u s' : m_check e s = (Ok u, s') -> e = None /\ s' = s.
Proof. destruct e; [done|]. by intros [= _ <-]. Qed.

Lemma m_bind_ok {S A B} (m : M S A) (f : A -> M S B) s b s' :
  (m ≫= f) s = (Ok b, s') <-> exists a s1, m s = (Ok a, s1) /\ f a s1 = (Ok b, s').
Proof.
  unfold mbind, m_bind. destruct (m s) as [[a|e] s1]; split.
  - eauto.
  - by intros (? & ? & [= <- <-] & ?).
  - done.
  - by intros (? & ? & ? & ?).
Qed.

(** ** Lists *)

Lemma take_elem {A} (x : A) n l : x ∈ take n l -> x ∈ l.
Proof. intros (i & Hi & _)%elem_of_take. by eapply list_elem_of_lookup_2. Qed.

Lemma NoDup_take {A} n (l : list A) : NoDup l -> NoDup (take n l).
Proof. intros H. rewrite <- (take_drop n l) in H. by apply NoDup_app in H as (? & _). Qed.

Lemma filter_id {A} (P : A -> Prop) `{forall x, Decision (P x)} l : Forall P l -> filter P l = l.
Proof. induction 1 as [|x l Hx _ IH]; [done|]. rewrite filter_cons_True by done. by rewrite IH. Qed.

(** ** Tactics *)

(** Split boolean connectives and comparisons in the hypotheses. *)
Ltac bool_hyps :=
  repeat match goal with
  | H : _ && _ = true |- _ => apply andb_true_iff in H as [? ?]
  | H : _ || _ = false |- _ => apply orb_false_iff in H as [? ?]
  | H : negb _ = true |- _ => apply negb_true_iff in H
  | H : negb _ = false |- _ => apply negb_false_iff in H
  | H : bool_decide _ = true |- _ => apply bool_decide_eq_true in H
  | H : bool_decide _ = false |- _ => apply bool_decide_eq_false in H
  | H : (_ =? _) = true |- _ => apply Z.eqb_eq in H
  | H : (_ =? _) = false |- _ => apply Z.eqb_neq in H
  | H : (_ <? _) = true |- _ => apply Z.ltb_lt in H
  | H : (_ <? _) = false |- _ => apply Z.ltb_ge in H
  | H : (_ <=? _) = true |- _ => apply Z.leb_le in H
  | H : (_ <=? _) = false |- _ => apply Z.leb_gt in H
  | H : String.eqb _ _ = true |- _ => apply String.eqb_eq in H
  | H : String.eqb _ _ = false |- _ => apply String.eqb_neq in H
  end.

(** Case split on every [match]/[if] of the goal, or of a hypothesis. *)
Ltac cases := repeat (case_match; simplify_eq/=); try done.
