(* ===== verification/Prog.v ===== *)
(** * Prog

    Programs that call their environment: a tree of calls, each continued by its
    reply, so that what a program does is the sequence of calls it makes and of
    replies it is given, whatever the environment answers.  Programs are finite
    (the code's loops run over lists); [exec] is their execution over a world, and
    [wp] the predicate that checks every call against a condition and follows
    every reply the world may give.  Then pools of such programs, whose calls
    interleave in any order, with named locks that a thread waits for: a discipline
    checked on each program alone ([disciplined]) holds of every interleaving
    ([exclusive]) and leaves no thread waiting for ever ([deadlock_free]). *)

From S2P Require Import Prelude.

(** The calls a program may make and the type of the reply to each. *)
Record interface := { op : Type; reply : op -> Type }.

Record event (I : interface) := Event { called : op I; replied : reply I called }.
Arguments Event {I} called replied.
Arguments called {I} e.
Arguments replied {I} e.

Inductive prog (I : interface) (A : Type) : Type :=
  | Ret (a : A)
  | Call (c : op I) (k : reply I c -> prog I A).
Arguments Ret {I A} a.
Arguments Call {I A} c k.

#[global] Instance prog_ret I : MRet (prog I) := fun A => Ret.
#[global] Instance prog_bind I : MBind (prog I) := fun A B f =>
  fix go p := match p with Ret a => f a | Call c k => Call c (fun r => go (k r)) end.

(** A single call, for its reply. *)
Definition call {I} (c : op I) : prog I (reply I c) := Call c Ret.

Lemma bind_ret {I A B} (a : A) (f : A -> prog I B) : (Ret a ≫= f) = f a.
Proof. done. Qed.
Lemma bind_call {I A B} c (k : reply I c -> prog I A) (f : A -> prog I B) :
  (Call c k ≫= f) = Call c (fun r => k r ≫= f).
Proof. done. Qed.

(** ** Execution

    [answers w c r w']: in world [w] the call [c] may be answered [r], leaving
    [w'].  A program is at any time a residual program; [exec] is any number of
    its calls, so its prefixes (a process that stops) are executions too. *)

Definition answering (I : interface) (W : Type) : Type := W -> forall c : op I, reply I c -> W -> Prop.

(** Any reply at all: what holds of every execution under it holds whatever the
    environment does. *)
Definition anything {I W} : answering I W := fun _ _ _ _ => True.

Inductive exec {I W A} (answers : answering I W) :
    prog I A -> W -> list (event I) -> prog I A -> W -> Prop :=
  | exec_nil p w : exec answers p w [] p w
  | exec_call c k w r w1 tr p' w' :
      answers w c r w1 -> exec answers (k r) w1 tr p' w' ->
      exec answers (Call c k) w (Event c r :: tr) p' w'.

(** A program run by a function that answers each call: the trace, the result and
    the world it leaves. *)
Fixpoint run {I W A} (h : W -> forall c : op I, reply I c * W) (p : prog I A) (w : W) :
    list (event I) * A * W :=
  match p with
  | Ret a => ([], a, w)
  | Call c k =>
    let (r, w1) := h w c in
    let '(tr, a, w2) := run h (k r) w1 in (Event c r :: tr, a, w2)
  end.

Lemma run_exec {I W A} (answers : answering I W) (h : W -> forall c : op I, reply I c * W) (p : prog I A) w :
  (forall w c, answers w c (h w c).1 (h w c).2) ->
  exec answers p w (run h p w).1.1 (Ret (run h p w).1.2) (run h p w).2.
Proof.
  intros Hh. revert w. induction p as [a|c k IH]; intros w; simpl; [constructor|].
  pose proof (Hh w c) as Hc. destruct (h w c) as [r w1]. simpl in Hc.
  specialize (IH r w1). destruct (run h (k r) w1) as [[tr a] w2]. by econstructor.
Qed.

(** ** What every execution satisfies *)

Section wp.
Context {I : interface} {W : Type} (pre : W -> op I -> Prop) (answers : answering I W).

Fixpoint wp {A} (p : prog I A) (w : W) (Q : A -> W -> Prop) : Prop :=
  match p with
  | Ret a => Q a w
  | Call c k => pre w c /\ forall r w1, answers w c r w1 -> wp (k r) w1 Q
  end.

Lemma wp_mono {A} (p : prog I A) w (Q Q' : A -> W -> Prop) :
  (forall a w', Q a w' -> Q' a w') -> wp p w Q -> wp p w Q'.
Proof.
  intros HQ. revert w. induction p as [a|c k IH]; intros w; simpl; [apply HQ|].
  intros [Hpre H]. split; [done|]. intros r w1 Hr. by apply IH, H.
Qed.

Lemma wp_bind {A B} (p : prog I A) (f : A -> prog I B) w Q :
  wp p w (fun a w' => wp (f a) w' Q) -> wp (p ≫= f) w Q.
Proof.
  revert w. induction p as [a|c k IH]; intros w; [done|]. rewrite bind_call. simpl.
  intros [Hpre H]. split; [done|]. intros r w1 Hr. by apply IH, H.
Qed.

(** The executions of a program that satisfies [wp]: the calls meet their
    condition, and what is left satisfies [wp] again. *)
Lemma wp_exec {A} (p : prog I A) w tr p' w' Q :
  exec answers p w tr p' w' -> wp p w Q -> wp p' w' Q.
Proof. induction 1 as [|c k w r w1 tr p' w' Hr _ IH]; [done|]. intros [_ H]. eauto. Qed.

Lemma wp_result {A} (p : prog I A) w tr a w' Q :
  exec answers p w tr (Ret a) w' -> wp p w Q -> Q a w'.
Proof. intros He Hp. apply (wp_exec _ _ _ _ _ _ He Hp). Qed.

Lemma exec_last {A} (p : prog I A) w tr e p' w' :
  exec answers p w (tr ++ [e]) p' w' ->
  exists k w1, exec answers p w tr (Call (called e) k) w1 /\ answers w1 (called e) (replied e) w'.
Proof.
  revert p w. induction tr as [|e' tr IH]; intros p w H; inversion H; simplify_eq/=.
  - match goal with H : exec _ _ _ [] _ _ |- _ => inversion H; simplify_eq end.
    exists k, w. split; [constructor|done].
  - match goal with H : exec _ _ _ (_ ++ _) _ _ |- _ => apply IH in H as (k1 & w2 & ? & ?) end.
    exists k1, w2. split; [by econstructor|done].
Qed.
End wp.

Lemma exec_app {I W A} (answers : answering I W) (p : prog I A) w tr1 tr2 p' w' :
  exec answers p w (tr1 ++ tr2) p' w' <->
  exists p1 w1, exec answers p w tr1 p1 w1 /\ exec answers p1 w1 tr2 p' w'.
Proof.
  revert p w. induction tr1 as [|e tr1 IH]; intros p w; simpl.
  - split; [intros H; exists p, w; by split; [constructor|]|].
    intros (p1 & w1 & H1 & H2). by inversion H1; simplify_eq.
  - split.
    + intros H. inversion H; simplify_eq.
      match goal with H : exec _ _ _ (_ ++ _) _ _ |- _ => apply IH in H as (p1 & w2 & ? & ?) end.
      exists p1, w2. split; [by econstructor|done].
    + intros (p1 & w1 & H1 & H2). inversion H1; simplify_eq. econstructor; [done|]. apply IH. eauto.
Qed.

(** An execution over one world is an execution over another that follows it. *)
Lemma exec_follow {I W V A} (answers : answering I W) (follows : answering I V) (p : prog I A) w tr p' w' v :
  exec answers p w tr p' w' ->
  (forall v c r, exists v', follows v c r v') ->
  exists v', exec follows p v tr p' v'.
Proof.
  intros H Hf. revert v. induction H as [|c k w r w1 tr p' w' Hr _ IH]; intros v.
  - exists v. constructor.
  - destruct (Hf v c r) as [v1 Hv]. destruct (IH v1) as [v' ?]. exists v'. by econstructor.
Qed.

(** ** Following an execution with a ghost state

    A ghost state is a function of the trace: [step] moves it at each event. *)

Definition follow {I G} (step : G -> event I -> G) : answering I G := fun g c r g' => g' = step g (Event c r).

Lemma exec_ghost {I W G A} (answers : answering I W) (step : G -> event I -> G) (p : prog I A) w tr p' w' g :
  exec answers p w tr p' w' -> exec (follow step) p g tr p' (fold_left step tr g).
Proof. intros H. revert g. induction H as [|c k w r w1 tr p' w' Hr _ IH]; intros g; econstructor; [done|apply IH]. Qed.

(** No condition on the calls. *)
Definition free {I W} : W -> op I -> Prop := fun _ _ => True.

Lemma ghost_result {I W G A} (answers : answering I W) (step : G -> event I -> G) (p : prog I A) w tr a w' g Q :
  exec answers p w tr (Ret a) w' -> wp free (follow step) p g Q -> Q a (fold_left step tr g).
Proof. intros He Hp. exact (wp_result _ _ _ _ _ _ _ _ (exec_ghost _ step _ _ _ _ _ g He) Hp). Qed.

(** A world followed with a ghost state beside it. *)
Definition alongside {I W G} (answers : answering I W) (step : G -> event I -> G) : answering I (W * G) :=
  fun s c r s' => answers s.1 c r s'.1 /\ s'.2 = step s.2 (Event c r).

Lemma exec_alongside {I W G A} (answers : answering I W) (step : G -> event I -> G) (p : prog I A) w tr p' w' g :
  exec answers p w tr p' w' -> exec (alongside answers step) p (w, g) tr p' (w', fold_left step tr g).
Proof.
  intros H. revert g. induction H as [|c k w r w1 tr p' w' Hr _ IH]; intros g; [constructor|].
  apply (exec_call _ c k (w, g) r (w1, step g (Event c r))); [by split|apply IH].
Qed.

(** A call the ghost state (or the world) answers, and a step of a walk through a
    program: its binds and the branches on replies. *)
Lemma wp_call {I W} (pre : W -> op I -> Prop) (answers : answering I W) c w Q :
  pre w c -> (forall r w', answers w c r w' -> Q r w') -> wp pre answers (call c) w Q.
Proof. done. Qed.

Ltac wp_step :=
  match goal with
  | |- wp _ _ (Ret _) _ _ => cbn [wp]
  | |- wp _ _ (_ ≫= _) _ _ => apply wp_bind
  | |- wp _ _ (match ?x with _ => _ end) _ _ => destruct x eqn:?
  end.

(** ** Pools

    A lock is taken only by a thread that holds none, given back by its holder, and a
    call that touches a resource is made with the lock of that resource held. *)

(** Which calls take and give back a lock, and which touch the resource of one. *)
Class Locking (I : interface) := {
  acquires : op I -> option string;
  releases : op I -> option string;
  touches : op I -> string -> Prop
}.

Section pool.
Context {I : interface} `{!Locking I} {W : Type} (answers : answering I W).

(** The lock a thread holds after a call. *)
Definition held_after (held : option string) (c : op I) : option string :=
  match acquires c with
  | Some h => Some h
  | None => match releases c with Some _ => None | None => held end
  end.

Definition permitted (held : option string) (c : op I) : Prop :=
  (is_Some (acquires c) -> held = None) /\
  (forall h, releases c = Some h -> held = Some h) /\
  (forall h, touches c h -> held = Some h).

Definition disciplined {A} (p : prog I A) (held : option string) : Prop :=
  wp permitted (fun held c _ held' => held' = held_after held c) p held (fun _ held' => held' = None).

(** A pool: its threads, which thread holds each lock, and the world. *)
Record pool := { threads : list (prog I unit); holder : gmap string nat; world : W }.

Definition tagged : Type := nat * event I.

Definition holder_after (holder : gmap string nat) (i : nat) (c : op I) : gmap string nat :=
  match acquires c with
  | Some h => <[h := i]> holder
  | None => match releases c with Some h => delete h holder | None => holder end
  end.

(** A thread of the family [ops] starts, or a thread makes its next call: a lock is
    waited for until it is free, any other call is answered by the world. *)
Inductive pool_step (ops : prog I unit -> Prop) : pool -> list tagged -> pool -> Prop :=
  | pool_spawn s p : ops p ->
    pool_step ops s [] {| threads := threads s ++ [p]; holder := holder s; world := world s |}
  | pool_call s i c k r w' :
    threads s !! i = Some (Call c k) ->
    (forall h, acquires c = Some h -> holder s !! h = None) ->
    answers (world s) c r w' ->
    pool_step ops s [(i, Event c r)]
      {| threads := <[i := k r]> (threads s); holder := holder_after (holder s) i c; world := w' |}.

Inductive pool_steps (ops : prog I unit -> Prop) : pool -> list tagged -> pool -> Prop :=
  | pool_refl s : pool_steps ops s [] s
  | pool_trans s tr s1 e s2 :
    pool_steps ops s tr s1 -> pool_step ops s1 e s2 -> pool_steps ops s (tr ++ e) s2.

Definition empty_pool (w : W) : pool := {| threads := []; holder := ∅; world := w |}.

(** The event is no acquisition, release or touch of [h] by a thread other than [i]. *)
Definition leaves_alone (i : nat) (h : string) (e : tagged) : Prop :=
  e.1 = i \/ (acquires (called e.2) <> Some h /\ releases (called e.2) <> Some h /\ ~ touches (called e.2) h).

(** Since it last took the lock [h], which it still holds, thread [i] has been alone
    with its resource. *)
Definition alone_since (i : nat) (h : string) (tr : list tagged) : Prop :=
  exists before c r after, tr = before ++ (i, Event c r) :: after /\ acquires c = Some h /\
    Forall (leaves_alone i h) after /\
    Forall (fun e : tagged => e.1 = i -> releases (called e.2) <> Some h) after.

(** The invariant: each thread follows the discipline from the lock it holds, and
    the holder of a lock has been alone since it took it. *)
Definition pool_inv (tr : list tagged) (s : pool) : Prop :=
  exists helds : list (option string),
    Forall2 disciplined (threads s) helds /\
    (forall i h, holder s !! h = Some i <-> helds !! i = Some (Some h)) /\
    (forall i h, holder s !! h = Some i -> alone_since i h tr).

Lemma alone_since_app i h tr e :
  alone_since i h tr -> leaves_alone i h e -> (e.1 = i -> releases (called e.2) <> Some h) ->
  alone_since i h (tr ++ [e]).
Proof.
  intros (before & c & r & after & -> & Hc & Ha & Hr) He Hre.
  exists before, c, r, (after ++ [e]). rewrite <- app_assoc. split; [done|]. split; [done|].
  split; apply Forall_app; by split; [|apply Forall_singleton].
Qed.

Lemma spawn_inv ops tr s p :
  (forall p, ops p -> disciplined p None) -> ops p -> pool_inv tr s ->
  pool_inv tr {| threads := threads s ++ [p]; holder := holder s; world := world s |}.
Proof.
  intros Hops Hp (helds & Hd & Hh & Ha). exists (helds ++ [None]). split; [|split; [|done]].
  - apply Forall2_app; [done|]. constructor; [by apply Hops|constructor].
  - simpl. intros i h. rewrite Hh, lookup_app_Some. split; [by left|].
    intros [?|[_ H]]; [done|]. apply list_lookup_singleton_Some in H as [_ H]. done.
Qed.

Lemma call_permitted tr s i c k : pool_inv tr s -> threads s !! i = Some (Call c k) ->
  exists held, permitted held c /\ (forall h, holder s !! h = Some i <-> held = Some h).
Proof.
  intros (helds & Hd & Hh & _) Hi.
  destruct (Forall2_lookup_l _ _ _ _ _ Hd Hi) as (held & Hheld & [Hpre _]).
  exists held. split; [done|]. intros h. rewrite Hh, Hheld. split; [by intros [= ->]|by intros ->].
Qed.

Lemma call_inv tr s i c k r w' :
  pool_inv tr s -> threads s !! i = Some (Call c k) ->
  (forall h, acquires c = Some h -> holder s !! h = None) ->
  pool_inv (tr ++ [(i, Event c r)])
    {| threads := <[i := k r]> (threads s); holder := holder_after (holder s) i c; world := w' |}.
Proof.
  intros Hinv Hi Hfree. destruct (call_permitted _ _ _ _ _ Hinv Hi) as (held & Hp & Hheld).
  destruct Hinv as (helds & Hd & Hh & Ha).
  destruct (Forall2_lookup_l _ _ _ _ _ Hd Hi) as (held' & Hheld' & [Hpre Hk]).
  assert (held' = held) as ->.
  { destruct held' as [h|], held as [h'|]; [|by apply Hh, Hheld in Hheld'| |done].
    - by apply Hh, Hheld in Hheld'.
    - destruct (Hheld h') as [_ Hs]. specialize (Hs eq_refl). apply Hh in Hs. congruence. }
  pose proof (lookup_lt_Some _ _ _ Hheld') as Hlt.
  exists (<[i := held_after held c]> helds). simpl. split; [|split].
  - apply Forall2_insert; [done|]. by apply Hk.
  - intros j h. unfold holder_after, held_after. destruct Hp as (Hacq & Hrel & _).
    destruct (acquires c) as [h1|] eqn:Ec.
    + specialize (Hacq (ex_intro _ h1 eq_refl)) as ->. specialize (Hfree h1 eq_refl).
      rewrite lookup_insert_Some, list_lookup_insert_Some, Hh. split.
      * intros [[-> ->]|[Hne Hj]]; [by left|]. right. split; [|done]. intros <-. congruence.
      * intros [(-> & [= ->] & _)|[Hne Hj]]; [by left|]. right. split; [|done]. intros <-.
        apply Hh in Hj. congruence.
    + destruct (releases c) as [h1|] eqn:Er.
      * rewrite (Hrel h1 eq_refl) in *. rewrite lookup_delete_Some, list_lookup_insert_Some, Hh. split.
        -- intros [Hne Hj]. right. split; [|done]. intros <-. congruence.
        -- intros [(_ & [=] & _)|[Hne Hj]]. split; [|done]. intros <-. apply Hh in Hj.
           assert (holder s !! h1 = Some i) by by apply Hheld. congruence.
      * rewrite list_insert_id by done. apply Hh.
  - intros j h. unfold holder_after. destruct Hp as (Hacq & Hrel & Htouch).
    assert (Hold : holder s !! h = Some j -> acquires c <> Some h -> releases c <> Some h ->
                   alone_since j h (tr ++ [(i, Event c r)])).
    { intros Hj H1 H2. apply alone_since_app; [by apply Ha| |done]. unfold leaves_alone. simpl.
      destruct (decide (i = j)) as [->|Hij]; [by left|right]. split; [done|]. split; [done|].
      intros Ht. apply Htouch, Hheld in Ht. congruence. }
    destruct (acquires c) as [h1|] eqn:Ec.
    + rewrite lookup_insert_Some. intros [[<- <-]|[Hne Hj]].
      * exists tr, c, r, []. by repeat split.
      * apply Hold; [done|congruence|].
        specialize (Hacq (ex_intro _ h1 eq_refl)). intros Hr. apply Hrel in Hr. congruence.
    + destruct (releases c) as [h1|] eqn:Er.
      * rewrite lookup_delete_Some. intros [Hne Hj]. apply Hold; congruence.
      * intros Hj. by apply Hold.
Qed.

Lemma pool_steps_inv ops s tr s' :
  (forall p, ops p -> disciplined p None) -> pool_inv [] s -> pool_steps ops s tr s' -> pool_inv tr s'.
Proof.
  intros Hops Hs H. induction H as [s0|s0 tr s1 e s2 _ IH Hstep]; [done|]. specialize (IH Hs).
  destruct Hstep as [s1 p Hp|s1 i c k r w' Hi Hfree Hr].
  - rewrite app_nil_r. by eapply spawn_inv.
  - by apply call_inv.
Qed.

Lemma empty_pool_inv w : pool_inv [] (empty_pool w).
Proof.
  exists []. split; [constructor|]. split; [|done]. simpl. intros i h. rewrite lookup_empty.
  by rewrite lookup_nil.
Qed.

(** Whoever touches a resource has been alone with it since it took its lock. *)
Lemma exclusive ops w tr s : (forall p, ops p -> disciplined p None) ->
  pool_steps ops (empty_pool w) tr s ->
  forall before i e after h, tr = before ++ (i, e) :: after -> touches (called e) h -> alone_since i h before.
Proof.
  intros Hops Hsteps. remember (empty_pool w) as s0 eqn:Hs0.
  assert (Hinv0 : pool_inv [] s0) by (subst; apply empty_pool_inv). clear Hs0.
  induction Hsteps as [s0|s0 tr s1 e1 s2 Hsteps IH Hstep]; intros before i e after h Htr Ht.
  { by destruct before. }
  pose proof (pool_steps_inv _ _ _ _ Hops Hinv0 Hsteps) as Hinv.
  destruct Hstep as [s1 p Hp|s1 j c k r w' Hi Hfree Hr].
  { rewrite app_nil_r in Htr. by eapply IH. }
  destruct after as [|e' after _] using rev_ind.
  - apply app_inj_tail in Htr as [-> [= -> <-]]. simpl in Ht.
    destruct (call_permitted _ _ _ _ _ Hinv Hi) as (held & (_ & _ & Htouch) & Hheld).
    destruct Hinv as (helds & _ & _ & Ha). apply Ha, Hheld, Htouch, Ht.
  - rewrite app_comm_cons, app_assoc in Htr. apply app_inj_tail in Htr as [-> _]. by eapply IH.
Qed.

(** No deadlock: a thread that holds a lock waits for none, so while a thread has a
    call to make, some thread can. *)
Lemma deadlock_free ops w tr s i c k : (forall p, ops p -> disciplined p None) ->
  (forall w c, exists r w', answers w c r w') ->
  pool_steps ops (empty_pool w) tr s -> threads s !! i = Some (Call c k) ->
  exists e s', pool_step ops s [e] s'.
Proof.
  intros Hops Hlive Hsteps Hi. pose proof (pool_steps_inv _ _ _ _ Hops (empty_pool_inv w) Hsteps) as Hinv.
  assert (Hgo : forall j c k, threads s !! j = Some (Call c k) ->
    (forall h, acquires c = Some h -> holder s !! h = None) -> exists e s', pool_step ops s [e] s').
  { intros j c1 k1 Hj Hfree. destruct (Hlive (world s) c1) as (r & w' & Hr). eexists _, _. by econstructor. }
  destruct (acquires c) as [h|] eqn:Ec; [|apply (Hgo i c k Hi); congruence].
  destruct (holder s !! h) as [j|] eqn:Eh; [|by apply (Hgo i c k Hi); congruence].
  destruct Hinv as (helds & Hd & Hh & _). pose proof (proj1 (Hh j h) Eh) as Hj.
  destruct (Forall2_lookup_r _ _ _ _ _ Hd Hj) as (p & Hp & Hdp).
  destruct p as [a|c' k']; [done|]. destruct Hdp as [(Hacq & _) _].
  apply (Hgo j c' k' Hp). intros h' Hh'. by specialize (Hacq (ex_intro _ h' Hh')).
Qed.

(** ** The discipline of a program from its parts *)

(** [p] follows the discipline from [held] and ends holding the same. *)
Definition keeps {A} (held : option string) (p : prog I A) : Prop :=
  wp permitted (fun held c _ held' => held' = held_after held c) p held (fun _ held' => held' = held).

Lemma keeps_ret {A} held (a : A) : keeps held (Ret a).
Proof. done. Qed.

Lemma keeps_bind {A B} held (p : prog I A) (f : A -> prog I B) :
  keeps held p -> (forall a, keeps held (f a)) -> keeps held (p ≫= f).
Proof. intros Hp Hf. apply wp_bind. eapply wp_mono; [|exact Hp]. intros a held' ->. apply Hf. Qed.

Lemma keeps_call held c : permitted held c -> acquires c = None -> releases c = None -> keeps held (call c).
Proof. intros Hp Ha Hr. split; [done|]. intros r held' ->. unfold held_after. by rewrite Ha, Hr. Qed.

(** A lock around a body. *)
Lemma keeps_lock {A} h (acq rel : op I) (body : prog I A) :
  permitted None acq -> acquires acq = Some h ->
  permitted (Some h) rel -> acquires rel = None -> releases rel = Some h ->
  keeps (Some h) body -> keeps None (_ ← call acq; a ← body; _ ← call rel; Ret a).
Proof.
  intros Hp Hacq Hp' Hrel' Hrel Hb. split; [done|]. intros r held' ->. unfold held_after. rewrite Hacq.
  apply wp_bind. eapply wp_mono; [|exact Hb]. intros a held' ->. split; [done|]. intros r' held' ->.
  unfold held_after. by rewrite Hrel', Hrel.
Qed.
End pool.
