(* ===== verification/GoText.v ===== *)
(** * GoText

    The parts of Go's [strings], [unicode/utf8], [regexp] and [strconv] the
    components use, on byte strings.  A Go string is a sequence of bytes, which
    is what a [string] (a list of 8-bit [ascii]) is; runes are decoded from it. *)

From S2P Require Import Prelude.
Open Scope Z_scope.

(** ** Bytes *)

Definition byte_val (c : ascii) : Z := Z.of_N (N_of_ascii c).
Definition byte_of (b : Z) : ascii := ascii_of_N (Z.to_N b).

(** [[]byte(s)] and [string(b)] *)
Definition bytes (s : string) : list Z := byte_val <$> String.list_ascii_of_string s.
Definition of_bytes (bs : list Z) : string := String.string_of_list_ascii (byte_of <$> bs).

(** [len(s)] *)
Definition len (s : string) : Z := Z.of_nat (String.length s).

Lemma byte_val_range c : 0 <= byte_val c < 256.
Proof. unfold byte_val. pose proof (N_ascii_bounded c). lia. Qed.

Lemma byte_of_val c : byte_of (byte_val c) = c.
Proof. unfold byte_of, byte_val. rewrite N2Z.id. apply ascii_N_embedding. Qed.

Lemma byte_val_of b : 0 <= b < 256 -> byte_val (byte_of b) = b.
Proof. intros H. unfold byte_of, byte_val. rewrite N_ascii_embedding; lia. Qed.

Lemma of_bytes_bytes s : of_bytes (bytes s) = s.
Proof.
  unfold of_bytes, bytes. rewrite <- list_fmap_compose.
  rewrite <- (String.string_of_list_ascii_of_string s) at 2. f_equal.
  induction (String.list_ascii_of_string s); [done|]. csimpl. rewrite byte_of_val. by f_equal.
Qed.

Lemma bytes_of_bytes bs : Forall (fun b => 0 <= b < 256) bs -> bytes (of_bytes bs) = bs.
Proof.
  unfold of_bytes, bytes. rewrite String.list_ascii_of_string_of_list_ascii.
  induction 1; [done|]. csimpl. rewrite byte_val_of by done. by f_equal.
Qed.

Lemma bytes_range s : Forall (fun b => 0 <= b < 256) (bytes s).
Proof. apply Forall_fmap, Forall_true. intros c. apply byte_val_range. Qed.

Lemma len_bytes s : len s = Z.of_nat (length (bytes s)).
Proof.
  unfold len, bytes. rewrite length_fmap. f_equal.
  induction s; [done|]. simpl. lia.
Qed.

Lemma len_of_bytes bs : len (of_bytes bs) = Z.of_nat (length bs).
Proof.
  unfold len, of_bytes. rewrite <- (length_fmap byte_of bs).
  induction (byte_of <$> bs); simpl; lia.
Qed.

Lemma len_nonneg s : 0 <= len s.
Proof. unfold len. lia. Qed.

#[export] Hint Resolve byte_val_range bytes_range len_nonneg : notifs.

(** ** Character classes and anchored patterns *)

Definition in_range (lo hi : ascii) (c : ascii) : bool :=
  (byte_val lo <=? byte_val c) && (byte_val c <=? byte_val hi).

Definition is_lower : ascii -> bool := in_range "a"%char "z"%char.
Definition is_upper : ascii -> bool := in_range "A"%char "Z"%char.
Definition is_digit : ascii -> bool := in_range "0"%char "9"%char.
(** [[a-z0-9]] and [[a-z0-9_]] *)
Definition is_lower_digit (c : ascii) : bool := is_lower c || is_digit c.
Definition is_slug_char (c : ascii) : bool := is_lower_digit c || Ascii.eqb c "_"%char.
(** [[A-Za-z0-9_-]] *)
Definition is_word_dash (c : ascii) : bool :=
  is_lower c || is_upper c || is_digit c || Ascii.eqb c "_"%char || Ascii.eqb c "-"%char.

Fixpoint all_chars (p : ascii -> bool) (s : string) : bool :=
  match s with
  | EmptyString => true
  | String c s => p c && all_chars p s
  end.

(** The pattern [^[p]{lo,hi}$]: every byte in the class, a bounded length. *)
Definition match_repeat (p : ascii -> bool) (lo hi : Z) (s : string) : bool :=
  (lo <=? len s) && (len s <=? hi) && all_chars p s.

(** The pattern [^[a-z0-9][a-z0-9_]{0,n}$] every slug of the service follows. *)
Definition match_slug (n : Z) (s : string) : bool :=
  match s with
  | EmptyString => false
  | String c rest => is_lower_digit c && match_repeat is_slug_char 0 n rest
  end.

(** The lower case of an ASCII byte, and the bytes that are ASCII. *)
Definition lower_byte (b : Z) : Z := if (65 <=? b) && (b <=? 90) then b + 32 else b.
Definition is_ascii (bs : list Z) : Prop := Forall (fun b => 0 <= b < 128) bs.

Lemma len_String c s : len (String c s) = 1 + len s.
Proof. unfold len. simpl. lia. Qed.

Lemma match_slug_spec n s :
  match_slug n s = true -> 1 <= len s <= n + 1 /\ all_chars is_slug_char s = true.
Proof.
  destruct s as [|c s]; [done|]. simpl. unfold match_repeat. intros H. bool_hyps.
  rewrite len_String. pose proof (len_nonneg s). split; [lia|].
  unfold is_slug_char at 1. by rewrite H, H1.
Qed.

Lemma all_chars_of_bytes p bs : all_chars p (of_bytes bs) = forallb (fun b => p (byte_of b)) bs.
Proof. unfold of_bytes. induction bs as [|b bs IH]; [done|]. simpl. by rewrite <- IH. Qed.

(** ** Prefixes, suffixes and searching *)

(** [strings.HasPrefix(s, prefix)] and [strings.CutPrefix] *)
Fixpoint cut_prefix (prefix s : string) : option string :=
  match prefix, s with
  | EmptyString, _ => Some s
  | String a p, String b s => if Ascii.eqb a b then cut_prefix p s else None
  | String _ _, EmptyString => None
  end.
Definition HasPrefix (s prefix : string) : bool :=
  match cut_prefix prefix s with Some _ => true | None => false end.

(** [strings.HasSuffix(s, suffix)] and [strings.CutSuffix(s, suffix)] *)
Fixpoint cut_suffix (s suffix : string) : option string :=
  if String.eqb s suffix then Some EmptyString
  else match s with
       | EmptyString => None
       | String c s => String c <$> cut_suffix s suffix
       end.
Definition HasSuffix (s suffix : string) : bool :=
  match cut_suffix s suffix with Some _ => true | None => false end.
Definition TrimSuffix (s suffix : string) : string := default s (cut_suffix s suffix).

(** [strings.Contains(s, substr)] *)
Fixpoint Contains (s substr : string) : bool :=
  HasPrefix s substr || match s with EmptyString => false | String _ s => Contains s substr end.

Lemma cut_prefix_spec prefix s r : cut_prefix prefix s = Some r <-> s = prefix +:+ r.
Proof.
  revert s. induction prefix as [|a p IH]; intros s; simpl.
  - split; [by intros [= ->]|by intros ->].
  - destruct s as [|b s].
    + split; [done|]. intros H. discriminate H.
    + destruct (Ascii.eqb_spec a b) as [->|Hab].
      * rewrite IH. split.
        -- intros ->. done.
        -- intros H. by injection H as ->.
      * split; [done|]. intros H. injection H as -> _. done.
Qed.

Lemma string_app_nil (s : string) : EmptyString +:+ s = s.
Proof. done. Qed.
Lemma string_app_cons c (s t : string) : String c s +:+ t = String c (s +:+ t).
Proof. done. Qed.

Lemma string_app_length s t : String.length (s +:+ t) = (String.length s + String.length t)%nat.
Proof. induction s as [|c s IH]; [done|]. rewrite string_app_cons. simpl. by rewrite IH. Qed.

Lemma len_app s t : len (s +:+ t) = len s + len t.
Proof. unfold len. rewrite string_app_length. lia. Qed.

Lemma string_app_assoc (s t u : string) : s +:+ (t +:+ u) = (s +:+ t) +:+ u.
Proof. induction s as [|c s IH]; [done|]. by rewrite !string_app_cons, IH. Qed.

Lemma cut_suffix_spec s suffix r : cut_suffix s suffix = Some r <-> s = r +:+ suffix.
Proof.
  assert (Hlong : forall c r' s', ~ s' = String c r' +:+ s').
  { intros c r' s' H. apply (f_equal String.length) in H.
    rewrite string_app_length in H. simpl in H. lia. }
  revert r. induction s as [|c s IH]; intros r; cbn [cut_suffix];
    match goal with |- context [String.eqb ?a ?b] => destruct (String.eqb_spec a b) as [<-|Hne] end.
  - split; [by intros [= <-]|]. destruct r; [done|]. intros H. by apply Hlong in H.
  - split; [done|]. destruct r; [|done]. rewrite string_app_nil. congruence.
  - split; [by intros [= <-]|]. destruct r; [done|]. intros H. by apply Hlong in H.
  - destruct r as [|d r].
    + rewrite string_app_nil. split; [|congruence]. destruct (cut_suffix s suffix); by intros [=].
    + rewrite string_app_cons, fmap_Some. split.
      * intros (x & Hx & [= <- <-]). apply IH in Hx. by rewrite Hx.
      * intros H. injection H as <- H. exists r. split; [by apply IH|done].
Qed.

(** ** Order, sorting *)

(** [strings.Compare(a, b) <= 0]: bytewise lexicographic. *)
Fixpoint str_leb (a b : string) : bool :=
  match a, b with
  | EmptyString, _ => true
  | String _ _, EmptyString => false
  | String x a, String y b =>
    if byte_val x <? byte_val y then true
    else if byte_val y <? byte_val x then false else str_leb a b
  end.
Definition str_le (a b : string) : Prop := str_leb a b = true.

#[global] Instance str_le_dec : RelDecision str_le.
Proof. intros a b. unfold str_le. apply _. Defined.

Lemma byte_val_inj a b : byte_val a = byte_val b -> a = b.
Proof. intros H. rewrite <- (byte_of_val a), <- (byte_of_val b). by rewrite H. Qed.

#[global] Instance str_le_trans : Transitive str_le.
Proof.
  unfold str_le. intros a. induction a as [|x a IH]; intros [|y b] [|z c]; simpl; try done.
  repeat case_match; bool_hyps; try lia; try done. apply IH.
Qed.

#[global] Instance str_le_total : Total str_le.
Proof.
  unfold str_le. intros a. induction a as [|x a IH]; intros [|y b]; simpl; auto.
  repeat case_match; bool_hyps; try lia; auto.
Qed.

#[global] Instance str_le_antisym : AntiSymm (=) str_le.
Proof.
  unfold str_le. intros a. induction a as [|x a IH]; intros [|y b]; simpl; try done.
  repeat case_match; bool_hyps; try lia; try done. intros H1' H2'.
  assert (x = y) as -> by (apply byte_val_inj; lia). by rewrite (IH b).
Qed.

(** [slices.Sort] on strings, and on [int64]s. *)
Definition sort_strings (l : list string) : list string := merge_sort str_le l.
Definition sort_ints (l : list Z) : list Z := merge_sort Z.le l.
