(* ===== verification/Utf8.v ===== *)
(** * Utf8

    [unicode/utf8] on byte lists: decoding, validity, and the cut at a rune
    boundary that every bounded text field of the service uses. *)

From S2P Require Import Prelude GoText.
Open Scope Z_scope.

(** One step of [utf8.DecodeRune]: a code point with its encoding, or a byte
    that starts no valid encoding (Go yields [RuneError] of width 1). *)
Inductive rune : Type :=
  | Rune (code : Z) (enc : list Z)
  | Invalid (b : Z).

Definition rune_enc (r : rune) : list Z := match r with Rune _ enc => enc | Invalid b => [b] end.
Definition rune_valid (r : rune) : bool := match r with Rune _ _ => true | Invalid _ => false end.
(** The value [for _, char := range s] sees. *)
Definition RuneError : Z := 65533.
Definition rune_code (r : rune) : Z := match r with Rune c _ => c | Invalid _ => RuneError end.

Definition cont (b : Z) : bool := (128 <=? b) && (b <=? 191).
(** The range of the second byte, which excludes overlong forms, surrogates and
    code points past U+10FFFF. *)
Definition second3 (b0 b1 : Z) : bool :=
  if b0 =? 224 then (160 <=? b1) && (b1 <=? 191)
  else if b0 =? 237 then (128 <=? b1) && (b1 <=? 159)
  else cont b1.
Definition second4 (b0 b1 : Z) : bool :=
  if b0 =? 240 then (144 <=? b1) && (b1 <=? 191)
  else if b0 =? 244 then (128 <=? b1) && (b1 <=? 143)
  else cont b1.

Fixpoint decode (s : list Z) : list rune :=
  match s with
  | [] => []
  | b0 :: t0 =>
    if b0 <? 128 then Rune b0 [b0] :: decode t0
    else if (194 <=? b0) && (b0 <=? 223) then
      match t0 with
      | b1 :: t1 =>
        if cont b1 then Rune (Z.land b0 31 * 64 + Z.land b1 63) [b0; b1] :: decode t1
        else Invalid b0 :: decode t0
      | [] => Invalid b0 :: decode t0
      end
    else if (224 <=? b0) && (b0 <=? 239) then
      match t0 with
      | b1 :: b2 :: t2 =>
        if second3 b0 b1 && cont b2 then
          Rune (Z.land b0 15 * 4096 + Z.land b1 63 * 64 + Z.land b2 63) [b0; b1; b2] :: decode t2
        else Invalid b0 :: decode t0
      | _ => Invalid b0 :: decode t0
      end
    else if (240 <=? b0) && (b0 <=? 244) then
      match t0 with
      | b1 :: b2 :: b3 :: t3 =>
        if second4 b0 b1 && cont b2 && cont b3 then
          Rune (Z.land b0 7 * 262144 + Z.land b1 63 * 4096 + Z.land b2 63 * 64 + Z.land b3 63)
               [b0; b1; b2; b3] :: decode t3
        else Invalid b0 :: decode t0
      | _ => Invalid b0 :: decode t0
      end
    else Invalid b0 :: decode t0
  end.

Definition encode (rs : list rune) : list Z := rs ≫= rune_enc.

(** [utf8.ValidString(s)] *)
Definition ValidString (s : string) : bool := forallb rune_valid (decode (bytes s)).

(** What Postgres accepts in a [text] column: valid UTF-8 without a NUL. *)
Definition text_ok (s : string) : bool :=
  ValidString s && negb (existsb (Z.eqb 0) (bytes s)).

(** [utf8.RuneCountInString(s)] *)
Definition RuneCountInString (s : string) : Z := Z.of_nat (length (decode (bytes s))).

(** [utf8.RuneStart(b)] *)
Definition RuneStart (b : Z) : bool := negb (Z.land b 192 =? 128).

(** A valid rune's encoding decodes to it whatever follows, and only its first
    byte can start a rune. *)
Definition rune_wf (r : rune) : Prop :=
  rune_enc r <> [] /\
  (rune_valid r = true ->
    Forall (fun b => cont b = true) (tail (rune_enc r)) /\
    forall x, decode (rune_enc r ++ x) = r :: decode x).

Lemma decode_cons b0 t0 : exists r rest,
  decode (b0 :: t0) = r :: decode rest /\ b0 :: t0 = rune_enc r ++ rest /\ rune_wf r.
Proof.
  assert (Hbad : exists r rest, Invalid b0 :: decode t0 = r :: decode rest /\
    b0 :: t0 = rune_enc r ++ rest /\ rune_wf r).
  { exists (Invalid b0), t0. by split_and!. }
  assert (Hsec3 : forall b, second3 b0 b = true -> cont b = true).
  { intros b. unfold second3, cont. cases; intros; bool_hyps; apply andb_true_intro; split; lia. }
  assert (Hsec4 : forall b, second4 b0 b = true -> cont b = true).
  { intros b. unfold second4, cont. cases; intros; bool_hyps; apply andb_true_intro; split; lia. }
  cbn [decode]. repeat case_match; subst; try exact Hbad;
    eexists (Rune _ _), _; (split_and!; [done|done|split; [done|]]); intros _;
    (split; [simpl; bool_hyps; auto 6 using Forall_cons, Forall_nil|]);
    intros x; cbn [decode rune_enc app];
    repeat match goal with H : ?b = _ |- context [?b] => rewrite H end; done.
Qed.

(** Induction over a decoded string, one rune (or invalid byte) at a time. *)
Lemma decode_ind (P : list Z -> list rune -> Prop) :
  P [] [] ->
  (forall r rest, rune_wf r -> P rest (decode rest) -> P (rune_enc r ++ rest) (r :: decode rest)) ->
  forall s, P s (decode s).
Proof.
  intros Hnil Hcons s. remember (length s) as n eqn:Hn. revert s Hn.
  induction n as [n IH] using lt_wf_ind. intros [|b0 t0] Hn; [done|].
  destruct (decode_cons b0 t0) as (r & rest & Hd & Hs & Hwf).
  rewrite Hd, Hs. apply Hcons; [done|]. eapply IH; [|done]. subst n. rewrite Hs, length_app.
  destruct Hwf as [Hne _]. destruct (rune_enc r); [done|]. simpl. lia.
Qed.

(** Decoding loses nothing. *)
Lemma encode_decode s : encode (decode s) = s.
Proof.
  revert s. apply (decode_ind (fun s rs => encode rs = s)); [done|].
  intros r rest _ IH. unfold encode in *. csimpl. by rewrite IH.
Qed.

Lemma length_decode s : (length (decode s) <= length s)%nat.
Proof.
  revert s. apply (decode_ind (fun s rs => (length rs <= length s)%nat)); [done|].
  intros r rest [Hne _] IH. rewrite length_app. destruct (rune_enc r); [done|]. simpl. lia.
Qed.

(** ** Cutting at a rune boundary *)

(** [for cut > 0 && !utf8.RuneStart(s[cut]) { cut-- }] *)
Fixpoint rune_cut (bs : list Z) (cut : nat) : nat :=
  match cut with
  | O => O
  | S c => if RuneStart (nth cut bs 0) then cut else rune_cut bs c
  end.

Lemma rune_cut_le bs cut : (rune_cut bs cut <= cut)%nat.
Proof. induction cut; simpl; [done|]. case_match; lia. Qed.

Lemma rune_cut_boundary bs cut :
  rune_cut bs cut = O \/ RuneStart (nth (rune_cut bs cut) bs 0) = true.
Proof. induction cut as [|c IH]; [by left|]. cbn [rune_cut]. case_match; auto. Qed.

Lemma cont_not_start b : cont b = true -> RuneStart b = false.
Proof.
  unfold cont, RuneStart. intros H. bool_hyps. apply negb_false_iff, Z.eqb_eq.
  assert (Hall : forallb (fun n => Z.land (128 + Z.of_nat n) 192 =? 128) (seq 0 64) = true) by done.
  rewrite forallb_forall in Hall. specialize (Hall (Z.to_nat (b - 128))).
  rewrite Z2Nat.id in Hall by lia. replace (128 + (b - 128)) with b in Hall by lia.
  apply Z.eqb_eq, Hall, in_seq. lia.
Qed.

(** A prefix of valid UTF-8 that ends where a rune starts decodes to a prefix of
    the runes. *)
Lemma take_boundary_decode bs n :
  forallb rune_valid (decode bs) = true ->
  n = O \/ RuneStart (nth n bs 0) = true ->
  decode (take n bs) `prefix_of` decode bs.
Proof.
  revert bs n. apply (decode_ind (fun s rs => forall n, forallb rune_valid rs = true ->
    n = O \/ RuneStart (nth n s 0) = true -> decode (take n s) `prefix_of` rs));
    [by intros [|n]|].
  intros r rest [Hne Hwf] IH n Hv Hn. simpl in Hv. bool_hyps.
  destruct (Hwf H) as [Htail Hdec]. destruct (decide (n = O)) as [->|Hn0]; [apply prefix_nil|].
  destruct Hn as [|Hn]; [done|]. destruct (decide (n < length (rune_enc r))%nat) as [Hlt|Hge].
  - exfalso. rewrite app_nth1 in Hn by done. destruct (rune_enc r) as [|b bs]; [done|].
    destruct n as [|n]; [done|]. simpl in Hn, Hlt, Htail.
    rewrite cont_not_start in Hn; [done|]. rewrite Forall_forall in Htail. apply Htail.
    apply list_elem_of_In, nth_In. lia.
  - rewrite take_app_ge by lia. rewrite Hdec. apply prefix_cons, IH; [done|].
    destruct (decide (n - length (rune_enc r) = 0)%nat) as [->|]; [by left|right].
    by rewrite app_nth2 in Hn by lia.
Qed.

(** [s[:cut]] for the cut found below [limit], when [s] is longer. *)
Definition truncate_runes (limit : nat) (bs : list Z) : list Z :=
  if (length bs <=? limit)%nat then bs else take (rune_cut bs limit) bs.

Lemma truncate_runes_length limit bs : (length (truncate_runes limit bs) <= limit)%nat.
Proof.
  unfold truncate_runes. case_match eqn:H; [by apply Nat.leb_le|].
  rewrite length_take. pose proof (rune_cut_le bs limit). lia.
Qed.

(** What is kept decodes to a prefix of the runes, so any property of every
    rune (valid, not a control character) survives the cut. *)
Lemma truncate_runes_decode limit bs :
  forallb rune_valid (decode bs) = true ->
  decode (truncate_runes limit bs) `prefix_of` decode bs.
Proof.
  intros H. unfold truncate_runes. case_match; [done|].
  apply take_boundary_decode; [done|]. apply rune_cut_boundary.
Qed.

(** The cut only removes a suffix. *)
Lemma truncate_runes_prefix limit bs : truncate_runes limit bs `prefix_of` bs.
Proof.
  unfold truncate_runes. case_match; [done|].
  eexists. symmetry. apply take_drop.
Qed.

(** ** [strings.ToValidUTF8], [strings.Map], [strings.TrimSpace] *)

(** Every rune of a decoded string is well formed, and a list of valid
    well-formed runes is what its encoding decodes to. *)
Lemma decode_wf s : Forall rune_wf (decode s).
Proof. revert s. apply (decode_ind (fun _ rs => Forall rune_wf rs)); auto. Qed.

Lemma decode_encode rs :
  Forall rune_wf rs -> forallb rune_valid rs = true -> decode (encode rs) = rs.
Proof.
  induction 1 as [|r rs [_ Hwf] Hall IH]; [done|]. simpl. intros Hv. bool_hyps.
  destruct (Hwf H) as [_ Hdec]. unfold encode. csimpl. rewrite Hdec. f_equal. by apply IH.
Qed.

Definition replacement : rune := Rune RuneError [239; 191; 189].
Definition space : rune := Rune 32 [32].

Lemma replacement_wf : rune_wf replacement.
Proof. split; [done|]. intros _. split; [by repeat constructor|done]. Qed.
Lemma space_wf : rune_wf space.
Proof. split; [done|]. intros _. split; [by repeat constructor|done]. Qed.

(** Each run of invalid bytes becomes one replacement character. *)
Fixpoint to_valid (in_run : bool) (rs : list rune) : list rune :=
  match rs with
  | [] => []
  | Invalid _ :: rs => if in_run then to_valid true rs else replacement :: to_valid true rs
  | r :: rs => r :: to_valid false rs
  end.
Definition ToValidUTF8 (bs : list Z) : list Z := encode (to_valid false (decode bs)).

Lemma to_valid_spec in_run rs :
  Forall rune_wf rs ->
  Forall rune_wf (to_valid in_run rs) /\ forallb rune_valid (to_valid in_run rs) = true.
Proof.
  intros H. revert in_run. induction H as [|[c enc|b] rs Hr Hrs IH]; intros in_run; [done| |]; simpl.
  - destruct (IH false). by split; [constructor|].
  - destruct in_run; [apply IH|]. destruct (IH true).
    split; [constructor; [apply replacement_wf|done]|done].
Qed.

(** [unicode.IsControl(char)] and [unicode.IsSpace(char)] *)
Definition IsControl (c : Z) : bool := ((0 <=? c) && (c <=? 31)) || ((127 <=? c) && (c <=? 159)).
Definition IsSpace (c : Z) : bool :=
  ((9 <=? c) && (c <=? 13)) || ((8192 <=? c) && (c <=? 8202)) ||
  existsb (Z.eqb c) [32; 133; 160; 5760; 8232; 8233; 8239; 8287; 12288].

Definition drop_while {A} (p : A -> bool) : list A -> list A :=
  fix go l := match l with [] => [] | x :: l' => if p x then go l' else l end.
Definition trim_runes (rs : list rune) : list rune :=
  let sp := fun r => rune_valid r && IsSpace (rune_code r) in
  rev (drop_while sp (rev (drop_while sp rs))).
Definition TrimSpace (bs : list Z) : list Z := encode (trim_runes (decode bs)).

Lemma drop_while_suffix {A} (p : A -> bool) l : exists k, l = k ++ drop_while p l.
Proof.
  induction l as [|x l [k IH]]; [by exists []|]. simpl. destruct (p x).
  - exists (x :: k). simpl. by f_equal.
  - by exists [].
Qed.

Lemma drop_while_Forall {A} (P : A -> Prop) p l : Forall P l -> Forall P (drop_while p l).
Proof.
  intros H. destruct (drop_while_suffix p l) as [k Hk]. rewrite Hk in H.
  apply Forall_app in H. apply H.
Qed.

Lemma trim_runes_Forall P rs : Forall P rs -> Forall P (trim_runes rs).
Proof.
  intros H. unfold trim_runes. cbn zeta.
  apply Forall_rev, drop_while_Forall, Forall_rev, drop_while_Forall, H.
Qed.

Lemma forallb_Forall {A} (p : A -> bool) l : forallb p l = true <-> Forall (fun x => p x = true) l.
Proof.
  induction l as [|x l IH]; simpl; [done|].
  rewrite andb_true_iff, IH, Forall_cons. done.
Qed.
