(* ===== verification/GoFormat.v ===== *)
(** * GoFormat

    How Go writes integers, instants and durations: [strconv.FormatInt],
    [time.Format(time.RFC3339)] of a UTC instant, and [time.Duration.String] of whole
    seconds; with the shape and length of what they write. *)

From S2P Require Import Prelude GoText.
Open Scope Z_scope.

Lemma bytes_app s t : bytes (s +:+ t) = bytes s ++ bytes t.
Proof. induction s as [|c s IH]; [done|]. rewrite string_app_cons. exact (f_equal (cons (byte_val c)) IH). Qed.

Lemma string_app_inj s t u : s +:+ t = s +:+ u -> t = u.
Proof.
  intros H. rewrite <- (of_bytes_bytes t), <- (of_bytes_bytes u). f_equal.
  apply (f_equal bytes) in H. rewrite !bytes_app in H. by apply app_inv_head in H.
Qed.

Lemma all_chars_app p s t : all_chars p (s +:+ t) = all_chars p s && all_chars p t.
Proof. induction s as [|c s IH]; [done|]. rewrite string_app_cons. simpl. by rewrite IH, andb_assoc. Qed.

Lemma all_chars_impl (p q : ascii -> bool) s : (forall c, p c = true -> q c = true) -> all_chars p s = true -> all_chars q s = true.
Proof. intros H. induction s as [|c s IH]; [done|]. simpl. intros Hp. bool_hyps. rewrite (H c), IH by done. done. Qed.

Lemma all_chars_bytes p s : all_chars p s = true -> Forall (fun b => p (byte_of b) = true) (bytes s).
Proof.
  intros H. rewrite <- (of_bytes_bytes s), all_chars_of_bytes in H.
  induction (bytes s); simpl in *; constructor; bool_hyps; auto.
Qed.

(** ** Integers

    [pretty] writes an integer as [strconv.FormatInt] in base 10 does. *)

Definition decimal (s : string) : Prop :=
  all_chars is_digit s = true /\ (s = "0" \/ exists c tl, s = String c tl /\ c <> "0"%char).

Lemma N_char_digit x : is_digit (pretty_N_char x) = true.
Proof. unfold pretty_N_char. repeat case_match; done. Qed.

Lemma N_char_zero x : (0 < x < 10)%N -> pretty_N_char x <> "0"%char.
Proof. intros H He. assert (x = 0)%N; [|lia]. apply pretty_N_char_inj; [lia..|done]. Qed.

Lemma pretty_N_go_spec k : forall x s, (x < 10 ^ N.of_nat k)%N -> exists ds, pretty_N_go x s = ds +:+ s /\
  all_chars is_digit ds = true /\ len ds <= Z.of_nat k /\
  ((0 < x)%N -> exists c tl, ds = String c tl /\ c <> "0"%char) /\ (x = 0%N -> ds = EmptyString).
Proof.
  induction k as [|k IH]; intros x s Hx.
  { simpl in Hx. assert (x = 0)%N as -> by lia. by exists EmptyString. }
  destruct (decide (x = 0)%N) as [->|Hne]; [exists EmptyString; split_and!; try done; unfold len; simpl; lia|].
  rewrite pretty_N_go_step by lia.
  assert (Hdiv : (x `div` 10 < 10 ^ N.of_nat k)%N).
  { apply N.Div0.div_lt_upper_bound. replace (N.of_nat (S k)) with (N.succ (N.of_nat k)) in Hx by lia.
    by rewrite N.pow_succ_r' in Hx. }
  destruct (IH (x `div` 10)%N (String (pretty_N_char (x mod 10)) s) Hdiv) as (ds & -> & Hd & Hl & Hz & H0).
  exists (ds +:+ String (pretty_N_char (x mod 10)) EmptyString). rewrite <- string_app_assoc.
  assert (Hmod : (x mod 10 < 10)%N) by by apply N.mod_lt.
  split_and!; [done| | | |done].
  - rewrite all_chars_app, Hd. simpl. by rewrite N_char_digit.
  - rewrite len_app. unfold len at 2. simpl. lia.
  - intros _. destruct (decide (x `div` 10 = 0)%N) as [Hq|Hq].
    + rewrite (H0 Hq). eexists _, _. split; [done|]. apply N_char_zero.
      pose proof (N.div_mod x 10 ltac:(done)) as Hx'. rewrite Hq in Hx'. lia.
    + destruct Hz as (c & tl & -> & Hc); [by apply N.neq_0_lt_0|]. by eexists _, _.
Qed.

Lemma pretty_nonneg k z : (0 < k)%nat -> 0 <= z < 10 ^ Z.of_nat k -> decimal (pretty z) /\ len (pretty z) <= Z.of_nat k.
Proof.
  intros Hk Hz. destruct z as [|p|p]; [| |lia].
  - split; [by split; [|left]|]. unfold len. simpl. lia.
  - change (pretty (Z.pos p)) with (pretty (N.pos p)). unfold pretty, pretty_N. rewrite decide_False by done.
    destruct (pretty_N_go_spec k (N.pos p) EmptyString) as (ds & -> & Hd & Hl & Hpos & _).
    { apply N2Z.inj_lt. rewrite N2Z.inj_pow, nat_N_Z. simpl. lia. }
    assert (ds +:+ EmptyString = ds) as -> by (clear; induction ds as [|c ds IH]; [done|by rewrite string_app_cons, IH]).
    split; [|done]. split; [done|]. right. by apply Hpos.
Qed.

(** The most an int64 and an int32 take. *)
Lemma pretty_int64 z : 0 <= z <= int64_max -> decimal (pretty z) /\ len (pretty z) <= 19.
Proof. intros Hz. apply (pretty_nonneg 19); [lia|]. unfold int64_max in Hz. split; [lia|]. eapply Z.le_lt_trans; [apply Hz|done]. Qed.

(** *** Padded to a width *)

Fixpoint zeros (n : nat) : string := match n with O => EmptyString | S n => String "0" (zeros n) end.

(** [appendInt(x, width)] for [x >= 0] *)
Definition pad (width : nat) (x : Z) : string := zeros (width - String.length (pretty x)) +:+ pretty x.

Lemma zeros_digits n : all_chars is_digit (zeros n) = true /\ len (zeros n) = Z.of_nat n.
Proof. induction n as [|n [H1 H2]]; [done|]. simpl. rewrite len_String, H1, H2. split; [done|lia]. Qed.

Lemma pad_digits k x : (0 < k)%nat -> 0 <= x < 10 ^ Z.of_nat k ->
  all_chars is_digit (pad k x) = true /\ len (pad k x) = Z.of_nat k.
Proof.
  intros Hk Hx. destruct (pretty_nonneg k x Hk Hx) as [[Hd _] Hl]. unfold pad.
  rewrite all_chars_app, len_app, Hd. destruct (zeros_digits (k - String.length (pretty x))) as [-> ->].
  split; [done|]. unfold len in *. lia.
Qed.

(** ** Durations of whole seconds *)

(** [time.Duration(n) * time.Second] printed: 1h30m0s, 1m0s, 59s, 0s *)
Definition duration_seconds (n : Z) : string :=
  let u := Z.abs n in
  let h := u / 3600 in
  let m := u / 60 mod 60 in
  let s := u mod 60 in
  (if n <? 0 then "-" else EmptyString) +:+
  (if 0 <? h then pretty h +:+ "h" +:+ pretty m +:+ "m"
   else if 0 <? m then pretty m +:+ "m" else EmptyString) +:+ pretty s +:+ "s".

(** ** Instants *)

(** The civil date of a day counted from 1 January of year 1 (proleptic Gregorian
    calendar): year, month and day.  The count is by eras of 400 years that begin in
    March. *)
Definition civil (days : Z) : Z * Z * Z :=
  let z := days + 306 in
  let era := z / 146097 in
  let doe := z mod 146097 in
  let yoe := (doe - doe / 1460 + doe / 36524 - doe / 146096) / 365 in
  let doy := doe - (365 * yoe + yoe / 4 - yoe / 100) in
  let mp := (5 * doy + 2) / 153 in
  let m := if mp <? 10 then mp + 3 else mp - 9 in
  (yoe + era * 400 + (if m <=? 2 then 1 else 0), m, doy - (153 * mp + 2) / 5 + 1).

(** [t.UTC().Format(time.RFC3339)] for a year of four digits or more *)
Definition FormatRFC3339 (t : Z) : string :=
  let secs := t / Second in
  let '(y, m, d) := civil (secs / 86400) in
  let s := secs mod 86400 in
  pad 4 y +:+ "-" +:+ pad 2 m +:+ "-" +:+ pad 2 d +:+ "T" +:+
  pad 2 (s / 3600) +:+ ":" +:+ pad 2 (s / 60 mod 60) +:+ ":" +:+ pad 2 (s mod 60) +:+ "Z".

Definition leap (y : Z) : bool := (y mod 4 =? 0) && (negb (y mod 100 =? 0) || (y mod 400 =? 0)).
Definition month_days (y m : Z) : Z :=
  if m =? 2 then (if leap y then 29 else 28)
  else if (m =? 4) || (m =? 6) || (m =? 9) || (m =? 11) then 30 else 31.

(** The day after a civil date. *)
Definition next_day (d : Z * Z * Z) : Z * Z * Z :=
  let '(y, m, day) := d in
  if day <? month_days y m then (y, m, day + 1)
  else if m <? 12 then (y, m + 1, 1) else (y + 1, 1, 1).

Example civil_first : civil 0 = (1, 1, 1).
Proof. reflexivity. Qed.

Example format_example : FormatRFC3339 (63902822400 * Second) = "2026-01-01T00:00:00Z".
Proof. vm_compute. reflexivity. Qed.

(** [n] days on from a day, each is the next day of the one before. *)
Fixpoint days_follow (n : nat) (days : Z) (expected : Z * Z * Z) : bool :=
  let '(y, m, d) := civil days in
  let '(y', m', d') := expected in
  (y =? y') && (m =? m') && (d =? d') &&
  match n with O => true | S n => days_follow n (days + 1) (next_day expected) end.

(** Through the leap day of 2024, from 1 January 2023; and over the turn of 1900 and of 2000. *)
Example civil_2023 : days_follow 800 738520 (2023, 1, 1) = true.
Proof. vm_compute. reflexivity. Qed.
Example civil_1900 : days_follow 70 693595 (1900, 1, 1) = true.
Proof. vm_compute. reflexivity. Qed.
Example civil_2000 : days_follow 70 730119 (2000, 1, 1) = true.
Proof. vm_compute. reflexivity. Qed.

Lemma div_bounds a b : 0 < b -> b * (a / b) <= a < b * (a / b) + b.
Proof. intros Hb. pose proof (Z.div_mod a b). pose proof (Z.mod_pos_bound a b Hb). lia. Qed.

(** Before the year 9000 a civil date has a year of four digits, a month and a day of two. *)
Lemma civil_range days : 0 <= days < 3287181 -> let '(y, m, d) := civil days in
  0 <= y < 10000 /\ 0 <= m < 100 /\ 0 <= d < 100.
Proof.
  intros Hd. unfold civil. cbv zeta. set (z := days + 306). assert (Hz : 306 <= z < 3287487) by (unfold z; lia).
  set (era := z / 146097). set (doe := z mod 146097).
  assert (Hdoe : 0 <= doe < 146097) by (apply Z.mod_pos_bound; done).
  assert (Hera : 0 <= era <= 22) by (pose proof (div_bounds z 146097 ltac:(done)); unfold era; lia).
  clearbody z era doe.
  pose proof (div_bounds doe 1460 ltac:(done)) as Ha. pose proof (div_bounds doe 36524 ltac:(done)) as Hb.
  pose proof (div_bounds doe 146096 ltac:(done)) as Hc. revert Ha Hb Hc.
  generalize (doe / 1460), (doe / 36524), (doe / 146096). intros a b c Ha Hb Hc.
  pose proof (div_bounds (doe - a + b - c) 365 ltac:(done)) as Hr. revert Hr.
  generalize ((doe - a + b - c) / 365). intros yoe Hr.
  pose proof (div_bounds yoe 4 ltac:(done)) as H4. pose proof (div_bounds yoe 100 ltac:(done)) as H5. revert H4 H5.
  generalize (yoe / 4), (yoe / 100). intros q4 q100 H4 H5.
  assert (Hyoe : 0 <= yoe <= 400) by lia.
  assert (Hdoy : -5 <= doe - (365 * yoe + q4 - q100) <= 371) by lia.
  revert Hdoy. generalize (doe - (365 * yoe + q4 - q100)). intros doy Hdoy.
  pose proof (div_bounds (5 * doy + 2) 153 ltac:(done)) as Hm. revert Hm. generalize ((5 * doy + 2) / 153). intros mp Hm.
  assert (Hmp : -1 <= mp <= 12) by lia.
  pose proof (div_bounds (153 * mp + 2) 5 ltac:(done)) as H6.
  destruct (Z.ltb_spec mp 10); case_match; try lia; split_and!; try lia.
Qed.
