(* ===== verification/PersonService.v ===== *)
(** * PersonService

    The person service as the provisioning API uses it.  [personsvc]
    (src/provisioning-api/internal/personsvc/password.go): claims, their modes and
    stamps, and which errors leave it unknown whether the service committed.
    [worker] (src/person-service/src/index.ts): the tables of its migrations and the
    statements behind each route, a D1 batch being one transaction.  The HTTP
    between the two is not modelled: a caller is answered what the worker returns,
    or an error.  [worker_props]: a claim reports the stamp it replaced and a release
    undoes exactly that claim; the reset slots a person keeps in any rolling hour never
    exceed the limit. *)

From S2P Require Import Prelude GoText Utf8 GoFormat.
Open Scope Z_scope.

Module personsvc.

Definition defaultRetryAfterSeconds : Z := 60.

Inductive ClaimMode := ClaimIfUnset | ClaimAlways | ClaimUpdateOnly.

#[global] Instance ClaimMode_eq_dec : EqDecision ClaimMode.
Proof. solve_decision. Defined.

(** The empty string is NULL. *)
Record PasswordClaim := {
  Claimed : bool;
  RowExists : bool;
  SetAt : string;
  PreviousSetAt : string
}.

#[global] Instance PasswordClaim_eq_dec : EqDecision PasswordClaim.
Proof. solve_decision. Defined.

Definition stringOrEmpty (value : option string) : string := default EmptyString value.

(** [moment.UTC().Format("2006-01-02T15:04:05.000Z")] *)
Definition NewClaimStamp (moment : Z) : string :=
  let '(y, m, d) := civil (moment / (24 * Hour)) in
  let s := moment / Second mod 86400 in
  pad 4 y +:+ "-" +:+ pad 2 m +:+ "-" +:+ pad 2 d +:+ "T" +:+
  pad 2 (s / 3600) +:+ ":" +:+ pad 2 (s / 60 mod 60) +:+ ":" +:+ pad 2 (s mod 60) +:+ "." +:+
  pad 3 (moment / Millisecond mod 1000) +:+ "Z".

(** The errors of the client by their dynamic type: an answer that is not 2xx, a
    reset limit, and any other error (the transport, a body that does not decode). *)
Inductive failure :=
  | StatusError (Status : Z) (Snippet : string)
  | ResetLimitError (RetryAfterSeconds : Z)
  | OtherFailure (err : error).

Definition maxErrorBodySnippetLength : nat := 256.
Definition StatusOK : Z := 200.
Definition StatusMultipleChoices : Z := 300.
Definition StatusInternalServerError : Z := 500.

Definition statusError (status : Z) (body : list Z) : option failure :=
  if (StatusOK <=? status) && (status <? StatusMultipleChoices) then None
  else Some (StatusError status (of_bytes (TrimSpace (take maxErrorBodySnippetLength body)))).

Definition IsAmbiguousFailure (err : option failure) : bool :=
  match err with
  | None => false
  | Some (StatusError status _) => StatusInternalServerError <=? status
  | Some _ => true
  end.

End personsvc.

(** ** The worker *)

Module worker.
Import personsvc.

Record person := { email : string; created_at : string; password_set_at : option string }.
Record password_reset := { person_hash : string; reset_at : Z }.
Record app := { display_name : string; description : option string; app_created_at : string }.

Record tables := {
  persons : gmap string person;
  password_resets : gmap string password_reset;
  apps : gmap string app
}.

Definition no_rows : tables := {| persons := ∅; password_resets := ∅; apps := ∅ |}.

Definition RESET_LIMIT : Z := 5.
Definition RESET_WINDOW_MS : Z := 3600000.

Definition set_persons (f : gmap string person -> gmap string person) (t : tables) : tables :=
  {| persons := f (persons t); password_resets := password_resets t; apps := apps t |}.
Definition set_resets (f : gmap string password_reset -> gmap string password_reset) (t : tables) : tables :=
  {| persons := persons t; password_resets := f (password_resets t); apps := apps t |}.

Definition with_stamp (stamp : option string) (p : person) : person :=
  {| email := email p; created_at := created_at p; password_set_at := stamp |}.

(** [handlePutPerson]: [now] is [new Date().toISOString()]. *)
Definition handlePutPerson (personHash normalizedEmail now : string) (t : tables) : tables :=
  set_persons (fun ps =>
    <[personHash := match ps !! personHash with
                    | None => {| email := normalizedEmail; created_at := now; password_set_at := None |}
                    | Some p => {| email := normalizedEmail; created_at := created_at p; password_set_at := password_set_at p |}
                    end]> ps) t.

(** [handleDeletePerson] *)
Definition handleDeletePerson (personHash : string) (t : tables) : tables :=
  set_resets (filter (fun kv => person_hash kv.2 <> personHash)) (set_persons (delete personHash) t).

(** The write of a claim: an update of the row, or an insert that on a conflict
    sets the stamp (under [if_unset], of a NULL stamp only). *)
Definition claim_write (personHash normalizedEmail now : string) (mode : ClaimMode) (ps : gmap string person) :
    gmap string person :=
  match mode, ps !! personHash with
  | ClaimUpdateOnly, None => ps
  | ClaimUpdateOnly, Some p => <[personHash := with_stamp (Some now) p]> ps
  | _, None =>
    <[personHash := {| email := normalizedEmail; created_at := now; password_set_at := Some now |}]> ps
  | ClaimIfUnset, Some p =>
    if bool_decide (password_set_at p = None) then <[personHash := with_stamp (Some now) p]> ps else ps
  | ClaimAlways, Some p => <[personHash := with_stamp (Some now) p]> ps
  end.

(** [handlePasswordClaim]: the stamp is the client's or the worker's clock ([now]). *)
Definition handlePasswordClaim (personHash normalizedEmail : string) (mode : ClaimMode)
    (clientStamp : option string) (clock : string) (t : tables) : PasswordClaim * tables :=
  let now := default clock clientStamp in
  let previousRow := persons t !! personHash in
  let rowExisted := bool_decide (is_Some previousRow) in
  let previousStamp := previousRow ≫= password_set_at in
  let claimed :=
    match mode with
    | ClaimUpdateOnly => rowExisted
    | ClaimIfUnset => negb (rowExisted && bool_decide (previousStamp <> None))
    | ClaimAlways => true
    end in
  let currentStamp := if claimed then Some now else if rowExisted then previousStamp else None in
  ({| Claimed := claimed;
      RowExists := match mode with ClaimUpdateOnly => rowExisted | _ => true end;
      SetAt := stringOrEmpty currentStamp;
      PreviousSetAt := stringOrEmpty (if claimed then previousStamp else None) |},
   set_persons (claim_write personHash normalizedEmail now mode) t).

(** [handlePasswordClaimRelease] *)
Definition handlePasswordClaimRelease (personHash passwordSetAt : string) (restoreTo : option string) (t : tables) :
    bool * tables :=
  match persons t !! personHash with
  | Some p =>
    if bool_decide (password_set_at p = Some passwordSetAt)
    then (true, set_persons (<[personHash := with_stamp restoreTo p]>) t)
    else (false, t)
  | None => (false, t)
  end.

(** The resets of a person inside the window. *)
Definition counted (personHash : string) (windowStart : Z) (t : tables) : list (string * password_reset) :=
  filter (fun kv => person_hash kv.2 = personHash /\ windowStart < reset_at kv.2) (map_to_list (password_resets t)).

(** Z.ceil *)
Definition ceil_div (a b : Z) : Z := - (- a / b).

Definition oldest (rows : list (string * password_reset)) : option Z :=
  match rows with
  | [] => None
  | kv :: rows => Some (fold_left (fun m kv => Z.min m (reset_at kv.2)) rows (reset_at kv.2))
  end.

(** [handleClaimResetSlot]: the slot, or the seconds to wait. *)
Definition handleClaimResetSlot (personHash resetId : string) (nowMs : Z) (t : tables) : (string + Z) * tables :=
  let windowStart := nowMs - RESET_WINDOW_MS in
  let t := set_resets (filter (fun kv => ~ (person_hash kv.2 = personHash /\ reset_at kv.2 <= windowStart))) t in
  if Z.of_nat (length (counted personHash windowStart t)) <? RESET_LIMIT
  then (inl resetId, set_resets (<[resetId := {| person_hash := personHash; reset_at := nowMs |}]>) t)
  else
    let since := default nowMs (oldest (counted personHash windowStart t)) in
    (inr (Z.max 1 (ceil_div (since + RESET_WINDOW_MS - nowMs) 1000)), t).

(** [handleReleaseResetSlot] *)
Definition handleReleaseResetSlot (personHash resetId : string) (t : tables) : tables :=
  set_resets (filter (fun kv => ~ (kv.1 = resetId /\ person_hash kv.2 = personHash))) t.

(** [handleDeleteApp] *)
Definition handleDeleteApp (appId : string) (t : tables) : tables :=
  {| persons := persons t; password_resets := password_resets t; apps := delete appId (apps t) |}.

End worker.

Module worker_props.
Import personsvc worker.

(** ** Stamps *)

(** The stamp of a person: NULL without a row. *)
Definition stamp (t : tables) (h : string) : option string := persons t !! h ≫= password_set_at.

(** No stored stamp is the empty string: the worker checks a client's stamp and writes
    its own clock otherwise. *)
Definition stamps_wf (t : tables) : Prop := map_Forall (fun _ p => password_set_at p <> Some EmptyString) (persons t).

Definition or_null (s : string) : option string := if bool_decide (s = EmptyString) then None else Some s.

Lemma or_null_stringOrEmpty o : o <> Some EmptyString -> or_null (stringOrEmpty o) = o.
Proof. unfold or_null, stringOrEmpty. destruct o as [s|]; simpl; [|done]. intros Hs. case_bool_decide; congruence. Qed.

(** A release of the stamp a row carries sets the row's stamp. *)
Lemma release_set h p now restoreTo t : persons t !! h = Some (with_stamp (Some now) p) ->
  persons (handlePasswordClaimRelease h now restoreTo t).2 = <[h := with_stamp restoreTo p]> (persons t).
Proof.
  intros Hp. unfold handlePasswordClaimRelease. rewrite Hp. simpl. by rewrite bool_decide_eq_true_2.
Qed.

(** The write of a claim that is won. *)
Lemma claim_won h email mode client clock t claim t1 :
  handlePasswordClaim h email mode client clock t = (claim, t1) -> Claimed claim = true ->
  let now := default clock client in
  SetAt claim = now /\ PreviousSetAt claim = stringOrEmpty (stamp t h) /\
  persons t1 = <[h := match persons t !! h with
                      | Some p => with_stamp (Some now) p
                      | None => {| worker.email := email; created_at := now; password_set_at := Some now |}
                      end]> (persons t).
Proof.
  intros [= <- <-]. cbn [Claimed SetAt PreviousSetAt persons set_persons]. intros Hc. rewrite Hc. cbv zeta.
  split; [done|]. split; [done|]. unfold claim_write. destruct (persons t !! h) as [p|]; destruct mode; try done.
  simpl in Hc. apply negb_true_iff, bool_decide_eq_false in Hc.
  rewrite bool_decide_eq_true_2; [done|]. destruct (password_set_at p); [by destruct Hc|done].
Qed.

(** Released to the stamp it replaced, a claim that was won leaves the row it found; a
    row it made is left with no stamp. *)
Lemma claim_release h email mode client clock t claim t1 :
  stamps_wf t -> handlePasswordClaim h email mode client clock t = (claim, t1) -> Claimed claim = true ->
  persons (handlePasswordClaimRelease h (SetAt claim) (or_null (PreviousSetAt claim)) t1).2 =
    match persons t !! h with
    | Some _ => persons t
    | None =>
      <[h := {| worker.email := email; created_at := default clock client; password_set_at := None |}]> (persons t)
    end.
Proof.
  intros Hwf Hclaim Hc. destruct (claim_won _ _ _ _ _ _ _ _ Hclaim Hc) as (-> & -> & Ht1).
  unfold stamp in *. destruct (persons t !! h) as [p|] eqn:Ep; simpl.
  - rewrite (release_set _ p) by (rewrite Ht1; apply lookup_insert_eq).
    rewrite or_null_stringOrEmpty by exact (Hwf _ _ Ep). rewrite Ht1, insert_insert_eq. apply insert_id.
    rewrite Ep. by destruct p.
  - rewrite (release_set _ {| worker.email := email; created_at := default clock client; password_set_at := None |})
      by (rewrite Ht1; apply lookup_insert_eq).
    by rewrite Ht1, insert_insert_eq.
Qed.

(** ** Reset slots *)

(** What changes the slots, at the worker's clock. *)
Inductive slot_op :=
  | ClaimSlot (h id : string) (nowMs : Z)
  | ReleaseSlot (h id : string)
  | DropPerson (h : string).

Definition slot_step (t : tables) (o : slot_op) : tables :=
  match o with
  | ClaimSlot h id nowMs => (handleClaimResetSlot h id nowMs t).2
  | ReleaseSlot h id => handleReleaseResetSlot h id t
  | DropPerson h => handleDeletePerson h t
  end.

Definition slot_tables (ops : list slot_op) : tables := fold_left slot_step ops no_rows.

(** The slots of [h] granted and not given back, with their times, oldest first. *)
Definition kept_step (h : string) (acc : tables * list (string * Z)) (o : slot_op) : tables * list (string * Z) :=
  let (t, kept) := acc in
  (slot_step t o,
   match o with
   | ClaimSlot h' id nowMs =>
     match (handleClaimResetSlot h' id nowMs t).1 with
     | inl id => if bool_decide (h' = h) then kept ++ [(id, nowMs)] else kept
     | inr _ => kept
     end
   | ReleaseSlot h' id => if bool_decide (h' = h) then filter (fun p => p.1 <> id) kept else kept
   | DropPerson _ => kept
   end).
Definition kept (h : string) (ops : list slot_op) : list (string * Z) := (fold_left (kept_step h) ops (no_rows, [])).2.

Definition op_time (o : slot_op) : option Z := match o with ClaimSlot _ _ now => Some now | _ => None end.
Definition op_id (o : slot_op) : option string := match o with ClaimSlot _ id _ => Some id | _ => None end.

(** The worker's clock does not go back, its uuids are distinct, and the person is not
    deleted (which forgets the person's slots). *)
Definition well_timed (h : string) (ops : list slot_op) : Prop :=
  StronglySorted Z.le (omap op_time ops) /\ NoDup (omap op_id ops) /\ DropPerson h ∉ ops.

(** What the tables know of the slots kept: those inside the window are rows, under
    distinct ids, all claimed by now. *)
Definition knows (h : string) (now : Z) (t : tables) (kept : list (string * Z)) : Prop :=
  NoDup kept.*1 /\ Forall (fun p => p.2 <= now) kept /\
  Forall (fun p => now - RESET_WINDOW_MS < p.2 ->
            password_resets t !! p.1 = Some {| person_hash := h; reset_at := p.2 |}) kept.

Definition within (lo hi : Z) (kept : list (string * Z)) : list (string * Z) := filter (fun p => lo < p.2 <= hi) kept.

Lemma within_counted h now t kept lo : knows h now t kept -> lo < now ->
  (length (within lo (lo + RESET_WINDOW_MS) kept) <= length (counted h (now - RESET_WINDOW_MS) t))%nat \/
  lo + RESET_WINDOW_MS < now.
Proof.
  intros (Hnd & Hle & Hrows) Hlo. destruct (decide (lo + RESET_WINDOW_MS < now)); [by right|left].
  rewrite <- (length_fmap (fun p : string * Z => (p.1, {| person_hash := h; reset_at := p.2 |}))).
  apply submseteq_length, NoDup_submseteq.
  - apply (NoDup_fmap_1 fst). rewrite <- list_fmap_compose. simpl.
    apply (sublist_NoDup _ (kept.*1)); [done|]. apply (fmap_sublist fst). apply sublist_filter.
  - intros [id r] Hin. apply list_elem_of_fmap in Hin as ([id' time] & [= -> ->] & Hin).
    apply list_elem_of_filter in Hin as [Hw Hin]. simpl in *.
    rewrite Forall_forall in Hrows. specialize (Hrows _ Hin). simpl in Hrows.
    apply list_elem_of_filter. split; [split; [done|simpl; lia]|]. apply elem_of_map_to_list, Hrows. lia.
Qed.

(** The rows of the tables are claimed by now. *)
Definition fold_state (h : string) (ops : list slot_op) : tables * list (string * Z) :=
  fold_left (kept_step h) ops (no_rows, []).

Lemma fold_state_tables h ops : (fold_state h ops).1 = slot_tables ops.
Proof.
  unfold fold_state, slot_tables. induction ops as [|o ops IH] using rev_ind; [done|].
  rewrite !fold_left_app. simpl. destruct (fold_left (kept_step h) ops (no_rows, [])) as [t k]. simpl in *. by rewrite IH.
Qed.

Lemma fold_state_snoc h ops o : fold_state h (ops ++ [o]) = kept_step h (fold_state h ops) o.
Proof. unfold fold_state. by rewrite fold_left_app. Qed.

(** A slot claimed: the purge drops rows outside the window only. *)
Lemma claim_slot_rows h id now t : let t' := (handleClaimResetSlot h id now t).2 in
  (forall id' r, id' <> id -> now - RESET_WINDOW_MS < reset_at r \/ person_hash r <> h ->
     password_resets t !! id' = Some r -> password_resets t' !! id' = Some r) /\
  match (handleClaimResetSlot h id now t).1 with
  | inl id' => id' = id /\ password_resets t' !! id = Some {| person_hash := h; reset_at := now |} /\
      Z.of_nat (length (counted h (now - RESET_WINDOW_MS) t)) < RESET_LIMIT
  | inr _ => True
  end.
Proof.
  cbv zeta. unfold handleClaimResetSlot. cbv zeta. set (t1 := set_resets _ t).
  assert (Hrows : forall id' r, now - RESET_WINDOW_MS < reset_at r \/ person_hash r <> h ->
    password_resets t !! id' = Some r -> password_resets t1 !! id' = Some r).
  { intros id' r Hr Hid. subst t1. simpl. apply map_lookup_filter_Some_2; [done|]. simpl. intros [? ?]. destruct Hr; [lia|done]. }
  assert (Hcount : length (counted h (now - RESET_WINDOW_MS) t1) = length (counted h (now - RESET_WINDOW_MS) t)).
  { apply Permutation_length. unfold counted. apply NoDup_Permutation; [apply NoDup_filter, NoDup_map_to_list..|].
    intros [id' r]. rewrite !list_elem_of_filter, !elem_of_map_to_list. split; intros [[? ?] Hid]; (split; [done|]).
    - subst t1. simpl in Hid. by apply map_lookup_filter_Some_1_1 in Hid.
    - apply Hrows; [by left|done]. }
  rewrite Hcount. destruct (Z.ltb_spec (Z.of_nat (length (counted h (now - RESET_WINDOW_MS) t))) RESET_LIMIT).
  - cbn [fst snd]. split; [|split; [done|split; [apply lookup_insert_eq|done]]].
    intros id' r Hne Hr Hid. cbn [password_resets set_resets]. rewrite lookup_insert_ne by done. by apply Hrows.
  - cbn [fst snd]. split; [|done]. intros id' r _ Hr Hid. by apply Hrows.
Qed.

(** What is kept and known, after any operations. *)
Definition slots_inv (h : string) (now : Z) (ids : list string) (st : tables * list (string * Z)) : Prop :=
  knows h now st.1 st.2 /\ (st.2.*1) ⊆ ids /\
  (forall lo, Z.of_nat (length (within lo (lo + RESET_WINDOW_MS) st.2)) <= RESET_LIMIT).

Lemma knows_later h now now' t k : now <= now' -> knows h now t k -> knows h now' t k.
Proof.
  intros Hle (Hnd & Hk & Hr). split; [done|]. split; eapply Forall_impl; [exact Hk| |exact Hr|]; simpl; intros p Hp; [lia|].
  intros Hw. apply Hp. lia.
Qed.

Lemma slots_claim h id now ids st : slots_inv h now ids st -> id ∉ ids ->
  slots_inv h now (id :: ids) (kept_step h st (ClaimSlot h id now)).
Proof.
  destruct st as [t k]. intros (Hkn & Hids & Hb) Hid. unfold slots_inv, kept_step, slot_step.
  destruct (claim_slot_rows h id now t) as [Hrows Hans]. cbn [fst snd] in *.
  destruct Hkn as (Hnd & Hle & Hr).
  assert (Hold : Forall (fun p => now - RESET_WINDOW_MS < p.2 ->
      password_resets (handleClaimResetSlot h id now t).2 !! p.1 = Some {| person_hash := h; reset_at := p.2 |}) k).
  { apply Forall_forall. intros p Hp Hw. apply Hrows; [|by left|].
    - intros Heq. apply Hid. rewrite <- Heq. apply Hids. by apply list_elem_of_fmap_2.
    - rewrite Forall_forall in Hr. by apply Hr. }
  destruct (handleClaimResetSlot h id now t).1 as [id'|] eqn:Ea.
  - destruct Hans as (-> & Hrow & Hroom). rewrite bool_decide_eq_true_2 by done.
    split; [|split].
    + split; [|split].
      * rewrite fmap_app. apply NoDup_app. split; [done|]. split; [|apply NoDup_singleton].
        intros x Hx Hx'. apply list_elem_of_singleton in Hx'. simpl in Hx'. subst. by apply Hid, Hids.
      * apply Forall_app. split; [done|]. constructor; [simpl; lia|done].
      * apply Forall_app. split; [done|]. by constructor.
    + rewrite fmap_app. simpl. set_solver.
    + intros lo. unfold within in *. rewrite filter_app, length_app, filter_cons. specialize (Hb lo).
      case_decide as Hin; simpl in *; [|lia].
      destruct (within_counted h now t k lo) as [?|?]; [by split|lia| |lia]. unfold within in *. lia.
  - split; [|split; [set_solver|done]]. split; [done|]. by split.
Qed.

Lemma sublist_within lo hi k k' : k `sublist_of` k' -> (length (within lo hi k) <= length (within lo hi k'))%nat.
Proof.
  unfold within. induction 1 as [|p k k' _ IH|p k k' _ IH]; [done| |]; rewrite !filter_cons; repeat case_decide; simpl; lia.
Qed.

(** Operations that keep the rows of [h] that are kept. *)
Lemma slots_keep h now ids st t' k' : slots_inv h now ids st -> k' `sublist_of` st.2 ->
  (forall p, p ∈ k' -> password_resets st.1 !! p.1 = Some {| person_hash := h; reset_at := p.2 |} ->
     now - RESET_WINDOW_MS < p.2 -> password_resets t' !! p.1 = Some {| person_hash := h; reset_at := p.2 |}) ->
  slots_inv h now ids (t', k').
Proof.
  intros ((Hnd & Hle & Hr) & Hids & Hb) Hsub Hrows. rewrite Forall_forall in Hle, Hr.
  assert (Hin : forall p, p ∈ k' -> p ∈ st.2) by (intros p Hp; by eapply elem_of_sublist).
  split; [split; [|split]|split]; simpl.
  - by apply (sublist_NoDup _ (st.2.*1)), (fmap_sublist fst).
  - apply Forall_forall. intros p Hp. by apply Hle, Hin.
  - apply Forall_forall. intros p Hp Hw. apply Hrows; [done| |done]. by apply Hr; [apply Hin|].
  - intros x Hx. apply Hids. apply list_elem_of_fmap in Hx as (p & -> & Hp). by apply list_elem_of_fmap_2, Hin.
  - intros lo. specialize (Hb lo). pose proof (sublist_within lo (lo + RESET_WINDOW_MS) _ _ Hsub). lia.
Qed.

Lemma slots_other h h' id now ids st : slots_inv h now ids st -> id ∉ ids -> h' <> h ->
  slots_inv h now (id :: ids) (kept_step h st (ClaimSlot h' id now)).
Proof.
  destruct st as [t k]. intros Hinv Hid Hne. unfold kept_step, slot_step.
  destruct (claim_slot_rows h' id now t) as [Hrows _]. cbv zeta in Hrows.
  assert (Hinv' : slots_inv h now (id :: ids) (t, k)) by (destruct Hinv as (? & ? & ?); split; [done|split; [set_solver|done]]).
  rewrite bool_decide_eq_false_2 by done.
  replace (match (handleClaimResetSlot h' id now t).1 with inl _ => k | inr _ => k end) with k by by case_match.
  eapply slots_keep; [exact Hinv'|done|]. simpl. intros p Hp Hrow Hw. apply Hrows; [|right; simpl; congruence|done].
  intros <-. apply Hid. destruct Hinv as (_ & Hids & _). apply Hids. by apply list_elem_of_fmap_2.
Qed.

Lemma slots_release h h' id now ids st : slots_inv h now ids st -> slots_inv h now ids (kept_step h st (ReleaseSlot h' id)).
Proof.
  destruct st as [t k]. intros Hinv. unfold kept_step, slot_step, handleReleaseResetSlot.
  eapply slots_keep; [exact Hinv| |].
  - case_bool_decide; [apply sublist_filter|done].
  - intros p Hp Hrow _. cbn [password_resets set_resets]. apply map_lookup_filter_Some_2; [done|]. simpl.
    intros [Hid <-]. rewrite bool_decide_eq_true_2 in Hp by done. by apply list_elem_of_filter in Hp as [? _].
Qed.

Lemma slots_drop h h' now ids st : slots_inv h now ids st -> h' <> h -> slots_inv h now ids (kept_step h st (DropPerson h')).
Proof.
  destruct st as [t k]. intros Hinv Hne. unfold kept_step, slot_step, handleDeletePerson.
  eapply slots_keep; [exact Hinv|done|].
  intros p Hp Hrow _. cbn [password_resets set_resets set_persons]. apply map_lookup_filter_Some_2; [done|]. simpl. congruence.
Qed.

Lemma slots_after h ops now : well_timed h ops -> Forall (fun t => t <= now) (omap op_time ops) ->
  slots_inv h now (omap op_id ops) (fold_state h ops).
Proof.
  revert now. induction ops as [|o ops IH] using rev_ind; intros now (Ht & Hid & Hdrop) Hnow.
  { split; [|split; [set_solver|]].
    - split; [constructor|]. by split; constructor.
    - intros lo. simpl. unfold RESET_LIMIT. lia. }
  rewrite fold_state_snoc. rewrite (omap_app op_time) in Ht, Hnow. rewrite (omap_app op_id) in Hid |- *.
  assert (Hdrop' : DropPerson h ∉ ops /\ o <> DropPerson h) by set_solver.
  assert (Hwt : well_timed h ops).
  { split; [|split; [by apply NoDup_app in Hid as (? & _)|tauto]].
    clear -Ht. induction (omap op_time ops) as [|x l IHl]; [constructor|]. inversion Ht; subst.
    constructor; [by apply IHl|]. by apply Forall_app in H2 as [? _]. }
  assert (Hpast : forall n, op_time o = Some n -> Forall (fun t => t <= n) (omap op_time ops)).
  { intros n Hn. clear -Ht Hn. simpl in Ht. rewrite Hn in Ht.
    induction (omap op_time ops) as [|x l IHl]; [constructor|]. inversion Ht; subst.
    constructor; [|by apply IHl]. apply Forall_app in H2 as [_ H2]. by inversion H2. }
  apply Forall_app in Hnow as [Hnow Hno].
  destruct o as [h' id n|h' id|h']; simpl in *.
  - assert (Hn : n <= now) by by inversion Hno.
    specialize (IH n Hwt (Hpast n eq_refl)). apply NoDup_app in Hid as (_ & Hfresh & _).
    assert (Hid : id ∉ omap op_id ops) by (intros Hin; eapply Hfresh; [exact Hin|by left]).
    assert (Hres : slots_inv h n (id :: omap op_id ops) (kept_step h (fold_state h ops) (ClaimSlot h' id n))).
    { destruct (decide (h' = h)) as [->|]; [by apply slots_claim|by apply slots_other]. }
    destruct Hres as (Hk & Hi & Hb). split; [by eapply knows_later|]. split; [set_solver|done].
  - rewrite app_nil_r. apply slots_release. by apply IH.
  - rewrite app_nil_r. apply slots_drop; [by apply IH|]. destruct Hdrop' as [_ Hd]. congruence.
Qed.

(** Over any sequence of claims, releases and deletions of persons, with a clock
    that does not go back, the reset slots a person is granted in any rolling hour and
    does not give back never exceed five, unless the person's row is deleted (which
    forgets them): purging, counting and inserting in one statement admits no more. *)
Theorem reset_slots_bounded h ops lo : well_timed h ops ->
  Z.of_nat (length (within lo (lo + RESET_WINDOW_MS) (kept h ops))) <= RESET_LIMIT.
Proof.
  intros Hwt. set (now := fold_right Z.max 0 (omap op_time ops)).
  destruct (slots_after h ops now Hwt) as (_ & _ & Hb); [|apply Hb].
  subst now. clear. induction (omap op_time ops) as [|x l IH]; [constructor|]. simpl.
  constructor; [lia|]. eapply Forall_impl; [exact IH|]. simpl. lia.
Qed.
End worker_props.
