(* ===== verification/Throttle.v ===== *)
(** * Throttle

    The two in-memory guards of provisioning.

    Module [throttle]: the attempt throttle of attemptthrottle.go: a sliding window of granted attempts
    per key, with a sweep that bounds its memory.  It answers as the reference that
    keeps every grant for ever ([allow_reference]), so no window holds more grants
    than the limit ([window_bounded]).

    Module [keyedlock]: the per-key locks of keyedlock.go: a map of mutexes made on
    demand and dropped when nobody holds or waits for them.  Goroutines interleave at
    the sections under the guard and at the mutex itself.  Every run implements one
    lock per key ([refines_lock]) and keeps no entry that is not in use. *)

From S2P Require Import Prelude.
Open Scope Z_scope.

Module throttle.

Definition attemptThrottleWindow : Z := Hour.
Definition attemptThrottleSweepThreshold : Z := 1024.
Definition attemptThrottleSweepInterval : Z := Minute.

(** The zero value is ready to use: no attempts, the zero time. *)
Record attemptThrottle := { attempts : gmap string (list Z); lastSweep : Z; sweeps : Z }.
Definition zero : attemptThrottle := {| attempts := ∅; lastSweep := 0; sweeps := 0 |}.

(** [sweep]: a key whose last attempt has left the window is dropped. *)
Definition expired (windowStart : Z) (attemptTimes : list Z) : bool :=
  match last attemptTimes with None => true | Some t => negb (time.After t windowStart) end.
Definition sweep (windowStart : Z) (th : attemptThrottle) : attemptThrottle :=
  {| attempts := filter (fun kv => expired windowStart kv.2 = false) (attempts th);
     lastSweep := lastSweep th; sweeps := sweeps th + 1 |}.

Definition set_attempts (key : string) (times : list Z) (th : attemptThrottle) : attemptThrottle :=
  {| attempts := <[key := times]> (attempts th); lastSweep := lastSweep th; sweeps := sweeps th |}.

(** Whether a new key may sweep first. *)
Definition sweep_due (key : string) (now : Z) (th : attemptThrottle) : bool :=
  bool_decide (attempts th !! key = None) &&
  (attemptThrottleSweepThreshold <=? Z.of_nat (size (attempts th))) &&
  (attemptThrottleSweepInterval <=? time.Sub now (lastSweep th)).

(** The attempts inside the window that ends now. *)
Definition recent_of (windowStart : Z) (times : list Z) : list Z := filter (fun t => time.After t windowStart = true) times.

(** [allow], under the guard.  The code filters a key's slice in place: it writes each
    kept attempt at or before the place it reads.  A limit of zero would index an
    empty slice; the service's is 20. *)
Definition allow (key : string) (limit now : Z) (th : attemptThrottle) : (bool * Z) * attemptThrottle :=
  let windowStart := now - attemptThrottleWindow in
  let recent := recent_of windowStart (default [] (attempts th !! key)) in
  if limit <=? Z.of_nat (length recent)
  then ((false, time.Sub (time.Add (nth 0 recent 0) attemptThrottleWindow) now), set_attempts key recent th)
  else
    let th :=
      if sweep_due key now th
      then let swept := sweep windowStart th in
           {| attempts := attempts swept; lastSweep := now; sweeps := sweeps swept |}
      else th in
    ((true, 0), set_attempts key (recent ++ [now]) th).

(** ** The reference: every grant ever made, in order *)

Abbreviation granted := (list (string * Z)).
Definition times_of (key : string) (g : granted) : list Z := snd <$> filter (fun p => p.1 = key) g.

Definition allow_reference (key : string) (limit now : Z) (g : granted) : (bool * Z) * granted :=
  let recent := recent_of (now - attemptThrottleWindow) (times_of key g) in
  if limit <=? Z.of_nat (length recent)
  then ((false, time.Sub (time.Add (nth 0 recent 0) attemptThrottleWindow) now), g)
  else ((true, 0), g ++ [(key, now)]).

(** A run: a key, a limit and the time of each attempt, in order. *)
Definition attempt : Type := string * Z * Z.

Definition step {T} (f : string -> Z -> Z -> T -> (bool * Z) * T) (acc : list (bool * Z) * T) (a : attempt) :
    list (bool * Z) * T :=
  let '(key, limit, now) := a in
  let (answer, th) := f key limit now acc.2 in (acc.1 ++ [answer], th).

Definition run {T} (f : string -> Z -> Z -> T -> (bool * Z) * T) (th : T) (calls : list attempt) : list (bool * Z) * T :=
  fold_left (step f) calls ([], th).

Definition at_time (a : attempt) : Z := a.2.

(** What relates the two at a time: the same attempts inside the window, and attempts
    kept in order, none later than now. *)
Definition agree (now : Z) (th : attemptThrottle) (g : granted) : Prop :=
  (forall key, recent_of (now - attemptThrottleWindow) (default [] (attempts th !! key)) =
               recent_of (now - attemptThrottleWindow) (times_of key g)) /\
  (forall key times, attempts th !! key = Some times -> Sorted Z.le times /\ Forall (fun t => t <= now) times).

Lemma recent_later s s' times : s <= s' -> recent_of s' (recent_of s times) = recent_of s' times.
Proof.
  intros Hs. unfold recent_of, time.After. induction times as [|t times IH]; [done|].
  rewrite !filter_cons. repeat case_decide; rewrite ?filter_cons, ?IH; repeat case_decide; try done;
    rewrite ?Z.ltb_lt in *; lia.
Qed.

Lemma recent_app s a b : recent_of s (a ++ b) = recent_of s a ++ recent_of s b.
Proof. apply filter_app. Qed.

Lemma recent_Forall (P : Z -> Prop) s times : Forall P times -> Forall P (recent_of s times).
Proof. rewrite !Forall_forall. intros H t Ht. apply H. by apply list_elem_of_filter in Ht as [_ ?]. Qed.

Lemma recent_sorted s times : Sorted Z.le times -> Sorted Z.le (recent_of s times).
Proof.
  intros H. apply Sorted_StronglySorted in H; [|exact Z.le_trans]. apply StronglySorted_Sorted.
  induction H as [|t times _ IH Ht]; [constructor|]. unfold recent_of. rewrite filter_cons.
  case_decide; [|done]. constructor; [done|]. by apply recent_Forall.
Qed.

Lemma sorted_snoc times now : Sorted Z.le times -> Forall (fun t => t <= now) times -> Sorted Z.le (times ++ [now]).
Proof.
  intros H Hle. apply Sorted_StronglySorted in H; [|exact Z.le_trans]. apply StronglySorted_Sorted.
  induction H as [|t times _ IH Ht]; simpl; [by repeat constructor|]. inversion Hle; subst.
  constructor; [by apply IH|]. apply Forall_app. split; [done|by constructor].
Qed.

(** An expired key has nothing left in the window. *)
Lemma expired_recent s times : Sorted Z.le times -> expired s times = true -> recent_of s times = [].
Proof.
  intros Hs He. destruct times as [|t times] using rev_ind; [done|]. unfold expired in He.
  rewrite last_snoc in He. unfold time.After in He. apply negb_true_iff, Z.ltb_ge in He.
  destruct (recent_of s (times ++ [t])) as [|u rest] eqn:E; [done|].
  assert (Hu : u ∈ recent_of s (times ++ [t])) by (rewrite E; left).
  apply list_elem_of_filter in Hu as [Hafter Hu]. unfold time.After in Hafter. apply Z.ltb_lt in Hafter.
  apply Sorted_StronglySorted in Hs; [|exact Z.le_trans].
  apply elem_of_app in Hu as [Hu|Hu%list_elem_of_singleton]; [|lia].
  assert (u <= t); [|lia]. clear -Hs Hu. induction times as [|x times IH]; [by apply not_elem_of_nil in Hu|].
  inversion Hs as [|? ? Hs' Hx]; subst. apply elem_of_cons in Hu as [->|Hu]; [|by apply IH].
  rewrite Forall_forall in Hx. apply Hx, elem_of_app. right. by left.
Qed.

Lemma agree_later now now' th g : now <= now' -> agree now th g -> agree now' th g.
Proof.
  intros Hle [Hr Hs]. split.
  - intros key. rewrite <- (recent_later (now - attemptThrottleWindow)), Hr, recent_later; [done|lia|lia].
  - intros key times Hk. destruct (Hs key times Hk) as [? Hf]. split; [done|]. eapply Forall_impl; [exact Hf|]. simpl. lia.
Qed.

Lemma agree_sweep now th g : agree now th g ->
  agree now {| attempts := attempts (sweep (now - attemptThrottleWindow) th); lastSweep := now; sweeps := sweeps th + 1 |} g.
Proof.
  intros [Hr Hs]. split; simpl.
  - intros key. rewrite <- Hr. destruct (attempts th !! key) as [times|] eqn:Ek.
    + destruct (expired (now - attemptThrottleWindow) times) eqn:Ee.
      * rewrite (map_lookup_filter_None_2 _ (attempts th) key); [|right; intros t Ht; simplify_map_eq; by rewrite Ee].
        simpl. symmetry. apply expired_recent; [by eapply Hs|done].
      * by rewrite (map_lookup_filter_Some_2 _ (attempts th) key times).
    + by rewrite (map_lookup_filter_None_2 _ (attempts th) key) by by left.
  - intros key times Hk%map_lookup_filter_Some_1_1. by eapply Hs.
Qed.

Lemma times_of_snoc key g key' now :
  times_of key (g ++ [(key', now)]) = times_of key g ++ (if bool_decide (key' = key) then [now] else []).
Proof.
  unfold times_of. rewrite filter_app, fmap_app. f_equal. rewrite filter_cons. simpl.
  case_decide; case_bool_decide; done.
Qed.

Lemma agree_grant key now th g : agree now th g ->
  agree now (set_attempts key (recent_of (now - attemptThrottleWindow) (default [] (attempts th !! key)) ++ [now]) th)
    (g ++ [(key, now)]).
Proof.
  intros [Hr Hs]. split; simpl.
  - intros key'. rewrite times_of_snoc. destruct (decide (key = key')) as [<-|Hne].
    + rewrite lookup_insert_eq, bool_decide_eq_true_2 by done. simpl.
      by rewrite !recent_app, recent_later, Hr by lia.
    + rewrite lookup_insert_ne, bool_decide_eq_false_2 by done. rewrite app_nil_r. apply Hr.
  - intros key' times. rewrite lookup_insert_Some. intros [[<- <-]|[_ Hk]]; [|by eapply Hs].
    assert (Hd : Sorted Z.le (default [] (attempts th !! key)) /\ Forall (fun t => t <= now) (default [] (attempts th !! key))).
    { destruct (attempts th !! key) eqn:Ek; [by eapply Hs|]. by split; constructor. }
    destruct Hd as [Hd1 Hd2]. split.
    + apply sorted_snoc; [by apply recent_sorted|by apply recent_Forall].
    + apply Forall_app. split; [by apply recent_Forall|]. constructor; [simpl; lia|done].
Qed.

Lemma agree_refuse key now th g : agree now th g ->
  agree now (set_attempts key (recent_of (now - attemptThrottleWindow) (default [] (attempts th !! key))) th) g.
Proof.
  intros [Hr Hs]. split; simpl.
  - intros key'. destruct (decide (key = key')) as [<-|Hne].
    + rewrite lookup_insert_eq. simpl. by rewrite recent_later by lia.
    + by rewrite lookup_insert_ne.
  - intros key' times. rewrite lookup_insert_Some. intros [[<- <-]|[_ Hk]]; [|by eapply Hs].
    destruct (attempts th !! key) eqn:Ek; simpl; [|by split; constructor].
    destruct (Hs _ _ Ek). split; [by apply recent_sorted|by apply recent_Forall].
Qed.

Lemma sweep_due_key key now th : sweep_due key now th = true -> attempts th !! key = None.
Proof. unfold sweep_due. intros H. by bool_hyps. Qed.

(** One attempt keeps the agreement and is answered the same. *)
Lemma allow_agree key limit now th g : agree now th g ->
  (allow key limit now th).1 = (allow_reference key limit now g).1 /\
  agree now (allow key limit now th).2 (allow_reference key limit now g).2.
Proof.
  intros Ha. pose proof (proj1 Ha key) as Hk. unfold allow, allow_reference. cbv zeta. rewrite <- Hk.
  destruct (limit <=? _); simpl; [by split; [|by apply agree_refuse]|]. split; [done|].
  destruct (sweep_due key now th) eqn:Ed; [|by apply agree_grant].
  pose proof (agree_sweep _ _ _ Ha) as Hsw. pose proof (sweep_due_key _ _ _ Ed) as Hn.
  apply (agree_grant key) in Hsw. revert Hsw. simpl.
  rewrite (map_lookup_filter_None_2 _ (attempts th) key) by by left. by rewrite Hn.
Qed.

Lemma agree_zero now : agree now zero [].
Proof. split; [done|]. simpl. intros key times. by rewrite lookup_empty. Qed.

Lemma run_app {T} (f : string -> Z -> Z -> T -> (bool * Z) * T) th calls a :
  run f th (calls ++ [a]) = step f (run f th calls) a.
Proof. unfold run. by rewrite fold_left_app. Qed.

(** The clock does not go back. *)
Definition monotone (calls : list attempt) : Prop := StronglySorted Z.le (at_time <$> calls).

Lemma monotone_snoc calls a : monotone (calls ++ [a]) ->
  monotone calls /\ Forall (fun b => at_time b <= at_time a) calls.
Proof.
  unfold monotone. rewrite fmap_app. simpl. induction calls as [|b calls IH]; simpl.
  - by split; constructor.
  - intros H. inversion H as [|? ? Hs Hf]; subst. destruct (IH Hs) as [H1 H2].
    apply Forall_app in Hf as [Hf Ha]. inversion Ha; subst. split; by constructor.
Qed.

Lemma run_agree calls now : monotone calls -> Forall (fun a => at_time a <= now) calls ->
  (run allow zero calls).1 = (run allow_reference [] calls).1 /\
  agree now (run allow zero calls).2 (run allow_reference [] calls).2.
Proof.
  revert now. induction calls as [|[[key limit] t] calls IH] using rev_ind; intros now Hm Hle.
  { split; [done|apply agree_zero]. }
  apply monotone_snoc in Hm as [Hm Hbefore]. apply Forall_app in Hle as [_ Ht]. inversion Ht; subst.
  destruct (IH t Hm Hbefore) as [Hans Hagree]. rewrite !run_app. unfold step.
  destruct (allow_agree key limit t _ _ Hagree) as [Ha Hb].
  destruct (allow key limit t _) as [ans th'], (allow_reference key limit t _) as [ans' g']. simpl in *. subst ans'.
  split; [by rewrite Hans|]. by eapply agree_later.
Qed.

(** Over any sequence of attempts whose times do not go back, for any keys and
    limits, the throttle answers each (granted or not, and the wait) exactly as the
    reference that keeps every grant ever made: filtering a key's attempts in place
    and sweeping expired keys never show. *)
Theorem throttle_reference calls :
  monotone calls -> (run allow zero calls).1 = (run allow_reference [] calls).1.
Proof.
  intros Hm. destruct calls as [|a calls _] using rev_ind; [done|].
  apply (run_agree (calls ++ [a]) (at_time a)); [done|]. apply monotone_snoc in Hm as [_ Hb].
  apply Forall_app. split; [done|]. constructor; [lia|done].
Qed.

(** ** The bound *)

(** The times at which attempts of a key were granted. *)
Definition grants (key : string) (calls : list attempt) (answers : list (bool * Z)) : list Z :=
  omap (fun p : attempt * (bool * Z) => if bool_decide (p.1.1.1 = key) && p.2.1 then Some (at_time p.1) else None) (zip calls answers).

Definition between (lo hi : Z) (times : list Z) : list Z := filter (fun t => lo < t <= hi) times.

Lemma run_length {T} (f : string -> Z -> Z -> T -> (bool * Z) * T) th calls : length (run f th calls).1 = length calls.
Proof.
  induction calls as [|[[key limit] t] calls IH] using rev_ind; [done|]. rewrite run_app. unfold step.
  destruct (f key limit t _). simpl. by rewrite !length_app, IH.
Qed.

(** The grants the reference keeps are those it answered. *)
Lemma reference_grants key calls :
  times_of key (run allow_reference [] calls).2 = grants key calls (run allow_reference [] calls).1.
Proof.
  induction calls as [|[[k limit] t] calls IH] using rev_ind; [done|].
  pose proof (run_length allow_reference [] calls) as Hlen.
  rewrite run_app. unfold step, grants in *. set (r := run allow_reference [] calls) in *.
  assert (Hsnoc : forall ans, omap (fun p : attempt * (bool * Z) => if bool_decide (p.1.1.1 = key) && p.2.1 then Some (at_time p.1) else None)
      (zip (calls ++ [(k, limit, t)]) (r.1 ++ [ans])) =
    times_of key r.2 ++ (if bool_decide (k = key) && ans.1 then [t] else [])).
  { intros ans. rewrite zip_with_app by done. rewrite omap_app, IH. simpl. by destruct (_ && _). }
  unfold allow_reference. cbv zeta. destruct (limit <=? _); cbn [fst snd]; rewrite Hsnoc; simpl;
    rewrite ?andb_false_r, ?andb_true_r; [by rewrite app_nil_r|]. by rewrite times_of_snoc.
Qed.

Lemma grants_le key calls a : monotone (calls ++ [a]) -> forall answers, Forall (fun t => t <= at_time a) (grants key calls answers).
Proof.
  intros [_ Hb]%monotone_snoc answers. unfold grants. apply Forall_forall. intros t Ht.
  apply list_elem_of_omap in Ht as ([b ans] & Hin & Hb'). apply elem_of_zip_l in Hin.
  rewrite Forall_forall in Hb. specialize (Hb b Hin). simpl in Hb'. destruct (_ && _); by simplify_eq.
Qed.

Lemma between_recent lo hi times now : now <= hi -> hi - lo <= attemptThrottleWindow -> Forall (fun t => t <= now) times ->
  (length (between lo hi times) <= length (recent_of (now - attemptThrottleWindow) times))%nat \/ now <= lo.
Proof.
  intros Hnow Hw Hle. destruct (decide (now <= lo)); [by right|left].
  induction Hle as [|t times Ht _ IH]; [done|]. unfold between, recent_of in *. rewrite !filter_cons.
  repeat case_decide; simpl; try lia. exfalso. unfold time.After in *. 
  match goal with H : ~ _ |- _ => apply H end. apply Z.ltb_lt. lia.
Qed.

(** In any window as long as the throttle's, whatever else is attempted, a key is
    granted at most the limit: 20 resets an hour for a person and app. *)
Theorem window_bounded calls key limit lo :
  monotone calls -> 0 < limit -> Forall (fun a : attempt => a.1.1 = key -> a.1.2 = limit) calls ->
  Z.of_nat (length (between lo (lo + attemptThrottleWindow) (grants key calls (run allow zero calls).1))) <= limit.
Proof.
  intros Hm Hpos Hlimit.
  assert (Hrun : (run allow zero calls).1 = (run allow_reference [] calls).1).
  { destruct calls as [|a calls' _] using rev_ind; [done|]. apply (run_agree _ (at_time a)); [done|].
    apply monotone_snoc in Hm as [_ Hb]. apply Forall_app. split; [done|]. by constructor. }
  rewrite Hrun. clear Hrun. rewrite <- reference_grants.
  induction calls as [|[[k l] t] calls IH] using rev_ind; [simpl; lia|].
  pose proof (grants_le key _ _ Hm (run allow_reference [] calls).1) as Hle. rewrite <- reference_grants in Hle.
  apply monotone_snoc in Hm as [Hm Hb]. apply Forall_app in Hlimit as [Hlimit Hl]. inversion Hl as [|? ? Hl' _]; subst.
  specialize (IH Hm Hlimit). simpl in Hl'. rewrite run_app. unfold step, allow_reference at 1. cbv zeta.
  destruct (Z.leb_spec l (Z.of_nat (length (recent_of (t - attemptThrottleWindow) (times_of k (run allow_reference [] calls).2))))) as [?|Hroom];
    simpl; [done|].
  rewrite times_of_snoc. unfold between in *. rewrite filter_app, length_app. case_bool_decide as Hk; [|simpl; lia].
  subst k. rewrite (Hl' eq_refl) in Hroom. rewrite filter_cons. case_decide as Hin; simpl; [|lia].
  destruct (between_recent lo (lo + attemptThrottleWindow) (times_of key (run allow_reference [] calls).2) t) as [?|?];
    [lia|lia|done| |lia]. unfold between in *. lia.
Qed.
End throttle.

Module keyedlock.

(** An entry: who holds its mutex, and how many hold or wait for it.  [entries] are
    pointers into the heap of entries ever made. *)
Record keyedLockEntry := { mutex : option nat; waiters : Z }.

(** Where a goroutine is in [lock] and in the function it returned. *)
Inductive phase :=
  | Waiting (key : string) (entry : nat)      (* before [entry.mutex.Lock()] *)
  | Holding (key : string) (entry : nat)      (* [lock] returned *)
  | Unlocked (key : string) (entry : nat).    (* after [entry.mutex.Unlock()] *)

Definition key_of (p : phase) : string :=
  match p with Waiting k _ | Holding k _ | Unlocked k _ => k end.
Definition entry_of (p : phase) : nat :=
  match p with Waiting _ e | Holding _ e | Unlocked _ e => e end.

Record state := {
  entries : gmap string nat;
  heap : gmap nat keyedLockEntry;
  goroutines : gmap nat phase
}.

Definition initial : state := {| entries := ∅; heap := ∅; goroutines := ∅ |}.

(** [lock] up to [entry.mutex.Lock()]: the section under the guard. *)
Definition enter (t : nat) (key : string) (s : state) : option state :=
  match goroutines s !! t with
  | Some _ => None
  | None =>
    match entries s !! key with
    | Some e =>
      entry ← heap s !! e;
      Some {| entries := entries s;
              heap := <[e := {| mutex := mutex entry; waiters := waiters entry + 1 |}]> (heap s);
              goroutines := <[t := Waiting key e]> (goroutines s) |}
    | None =>
      let e := fresh (dom (heap s)) in
      Some {| entries := <[key := e]> (entries s);
              heap := <[e := {| mutex := None; waiters := 1 |}]> (heap s);
              goroutines := <[t := Waiting key e]> (goroutines s) |}
    end
  end.

(** [entry.mutex.Lock()], which blocks while the mutex is held. *)
Definition acquire (t : nat) (s : state) : option state :=
  match goroutines s !! t with
  | Some (Waiting key e) =>
    entry ← heap s !! e;
    match mutex entry with
    | Some _ => None
    | None =>
      Some {| entries := entries s;
              heap := <[e := {| mutex := Some t; waiters := waiters entry |}]> (heap s);
              goroutines := <[t := Holding key e]> (goroutines s) |}
    end
  | _ => None
  end.

(** [entry.mutex.Unlock()] *)
Definition release (t : nat) (s : state) : option state :=
  match goroutines s !! t with
  | Some (Holding key e) =>
    entry ← heap s !! e;
    Some {| entries := entries s;
            heap := <[e := {| mutex := None; waiters := waiters entry |}]> (heap s);
            goroutines := <[t := Unlocked key e]> (goroutines s) |}
  | _ => None
  end.

(** The section under the guard that ends the returned function. *)
Definition leave (t : nat) (s : state) : option state :=
  match goroutines s !! t with
  | Some (Unlocked key e) =>
    entry ← heap s !! e;
    let waiters := waiters entry - 1 in
    Some {| entries := if waiters =? 0 then delete key (entries s) else entries s;
            heap := <[e := {| mutex := mutex entry; waiters := waiters |}]> (heap s);
            goroutines := delete t (goroutines s) |}
  | _ => None
  end.

Inductive action := Enter (key : string) | Acquire | Release | Leave.

Definition act (t : nat) (a : action) (s : state) : option state :=
  match a with Enter key => enter t key s | Acquire => acquire t s | Release => release t s | Leave => leave t s end.

Inductive run : state -> list (nat * action) -> state -> Prop :=
  | run_nil s : run s [] s
  | run_snoc s tr s1 t a s2 : run s tr s1 -> act t a s1 = Some s2 -> run s (tr ++ [(t, a)]) s2.

(** ** The invariant *)

(** The goroutines that hold or wait for an entry. *)
Definition users (e : nat) (g : gmap nat phase) : gmap nat phase := filter (fun p => entry_of p.2 = e) g.

Definition inv (s : state) : Prop :=
  (forall t p, goroutines s !! t = Some p -> entries s !! key_of p = Some (entry_of p)) /\
  (forall key key' e, entries s !! key = Some e -> entries s !! key' = Some e -> key = key') /\
  (forall key e, entries s !! key = Some e -> exists entry, heap s !! e = Some entry /\ 0 < waiters entry) /\
  (forall e entry, heap s !! e = Some entry -> waiters entry = Z.of_nat (size (users e (goroutines s)))) /\
  (forall e entry t, heap s !! e = Some entry ->
     (mutex entry = Some t <-> exists key, goroutines s !! t = Some (Holding key e))).

Lemma users_insert_new t p e g : g !! t = None ->
  size (users e (<[t := p]> g)) = (size (users e g) + if bool_decide (entry_of p = e) then 1 else 0)%nat.
Proof.
  intros Hn. unfold users. case_bool_decide as He.
  - rewrite map_filter_insert_True by done. rewrite map_size_insert_None; [lia|].
    apply map_lookup_filter_None_2. by left.
  - rewrite map_filter_insert_False by done. rewrite delete_id by done. lia.
Qed.

Lemma users_replace t p p' e g : g !! t = Some p -> entry_of p = entry_of p' ->
  size (users e (<[t := p']> g)) = size (users e g).
Proof.
  intros Hp Heq. rewrite <- (insert_delete_id g t p Hp) at 2. rewrite <- (insert_delete_eq g t p').
  rewrite !users_insert_new by apply lookup_delete_eq. by rewrite Heq.
Qed.

Lemma users_delete t p e g : g !! t = Some p ->
  size (users e g) = (size (users e (delete t g)) + if bool_decide (entry_of p = e) then 1 else 0)%nat.
Proof. intros Hp. rewrite <- (insert_delete_id g t p Hp) at 1. apply users_insert_new, lookup_delete_eq. Qed.

Lemma initial_inv : inv initial.
Proof. repeat split; simpl; intros *; rewrite lookup_empty; try done. Qed.

(** What one goroutine's entry looks like. *)
Lemma inv_entry s t p : inv s -> goroutines s !! t = Some p ->
  exists entry, heap s !! entry_of p = Some entry /\ 0 < waiters entry.
Proof. intros (H1 & _ & H2 & _) Hp. by eapply H2, H1. Qed.

(** A goroutine that does not hold before or after changes no holder. *)
Lemma holding_insert t p t' e (g : gmap nat phase) :
  (forall k e', p <> Holding k e') -> (forall k e', g !! t <> Some (Holding k e')) ->
  (exists k, <[t := p]> g !! t' = Some (Holding k e)) <-> exists k, g !! t' = Some (Holding k e).
Proof.
  intros Hp Hg. destruct (decide (t = t')) as [<-|Hne].
  - rewrite lookup_insert_eq. split; intros [k Hk]; [|by apply Hg in Hk]. injection Hk as ->. by destruct (Hp k e).
  - by setoid_rewrite lookup_insert_ne.
Qed.

Ltac inv_split := unfold inv; cbn [entries heap goroutines]; split; [|split; [|split; [|split]]].

Lemma enter_existing t key e entry s : inv s -> goroutines s !! t = None -> entries s !! key = Some e ->
  heap s !! e = Some entry ->
  inv {| entries := entries s;
         heap := <[e := {| mutex := mutex entry; waiters := waiters entry + 1 |}]> (heap s);
         goroutines := <[t := Waiting key e]> (goroutines s) |}.
Proof.
  intros (H1 & Hinj & H2 & H3 & H4) Et Ek Eh. inv_split.
  - intros t' p. rewrite lookup_insert_Some. intros [[<- <-]|[_ Hp]]; [done|by eapply H1].
  - done.
  - intros k e' Hk. destruct (H2 _ _ Hk) as (entry' & He' & Hw). destruct (decide (e = e')) as [<-|Hne].
    + eexists. rewrite lookup_insert_eq. split; [done|]. simpl. simplify_eq. lia.
    + exists entry'. by rewrite lookup_insert_ne.
  - intros e' entry'. rewrite users_insert_new, lookup_insert_Some by done. simpl.
    intros [[<- <-]|[Hne He']].
    + rewrite bool_decide_eq_true_2 by done. simpl. rewrite (H3 _ _ Eh). lia.
    + rewrite bool_decide_eq_false_2 by done. rewrite (H3 _ _ He'). lia.
  - intros e' entry' t' He'. rewrite holding_insert; [|done|intros ? ?; by rewrite Et].
    apply lookup_insert_Some in He' as [[<- <-]|[_ He']]; [by apply (H4 _ _ _ Eh)|by apply H4].
Qed.

Lemma enter_new t key e s : inv s -> goroutines s !! t = None -> entries s !! key = None -> heap s !! e = None ->
  inv {| entries := <[key := e]> (entries s);
         heap := <[e := {| mutex := None; waiters := 1 |}]> (heap s);
         goroutines := <[t := Waiting key e]> (goroutines s) |}.
Proof.
  intros (H1 & Hinj & H2 & H3 & H4) Et Ek He.
  assert (Hnone : forall k, entries s !! k <> Some e).
  { intros k Hk. destruct (H2 _ _ Hk) as (? & ? & _). congruence. }
  assert (Husers : users e (goroutines s) = ∅).
  { apply map_empty. intros t'. apply map_lookup_filter_None_2. right. intros p Hp Heq. simpl in Heq. apply H1 in Hp. rewrite Heq in Hp. by eapply Hnone. }
  inv_split.
  - intros t' p. rewrite (lookup_insert_Some (goroutines s)). intros [[<- <-]|[_ Hp]]; simpl; [apply lookup_insert_eq|].
    rewrite lookup_insert_ne; [by eapply H1|]. intros ->. apply H1 in Hp. congruence.
  - intros k k' e'. rewrite !lookup_insert_Some.
    intros [[<- <-]|[? ?]] [[<- Heq]|[? ?]]; try done; [by exfalso; eapply Hnone|subst; by exfalso; eapply Hnone|by eapply Hinj].
  - intros k e'. rewrite lookup_insert_Some. intros [[<- <-]|[? Hk]].
    + eexists. rewrite lookup_insert_eq. by split.
    + destruct (H2 _ _ Hk) as (entry & Hentry & ?). exists entry. rewrite lookup_insert_ne; [done|]. congruence.
  - intros e' entry'. rewrite users_insert_new, lookup_insert_Some by done. simpl. intros [[<- <-]|[Hne He']].
    + by rewrite bool_decide_eq_true_2, Husers by done.
    + rewrite bool_decide_eq_false_2 by done. rewrite (H3 _ _ He'). lia.
  - intros e' entry' t' He'. rewrite holding_insert; [|done|intros ? ?; by rewrite Et].
    apply lookup_insert_Some in He' as [[<- <-]|[_ He']]; [|by apply H4].
    split; [done|]. intros [k Hk]. apply H1 in Hk. simpl in Hk. by exfalso; eapply Hnone.
Qed.

Lemma enter_inv t key s s' : inv s -> enter t key s = Some s' -> inv s'.
Proof.
  intros Hinv. unfold enter. destruct (goroutines s !! t) eqn:Et; [done|].
  destruct (entries s !! key) as [e|] eqn:Ek.
  - destruct (heap s !! e) as [entry|] eqn:Eh; [|done]. intros [= <-]. by apply enter_existing.
  - intros [= <-]. apply enter_new; [done..|]. apply not_elem_of_dom, is_fresh.
Qed.

(** Taking or giving back the mutex of one's own entry. *)
Lemma mutex_inv t key e entry m p p' s :
  inv s -> goroutines s !! t = Some p -> heap s !! e = Some entry ->
  key_of p = key -> entry_of p = e -> key_of p' = key -> entry_of p' = e ->
  (forall t', m = Some t' <-> exists k, <[t := p']> (goroutines s) !! t' = Some (Holding k e)) ->
  (forall k e', p = Holding k e' -> e' = e) -> (forall k e', p' = Holding k e' -> e' = e) ->
  inv {| entries := entries s;
         heap := <[e := {| mutex := m; waiters := waiters entry |}]> (heap s);
         goroutines := <[t := p']> (goroutines s) |}.
Proof.
  intros (H1 & Hinj & H2 & H3 & H4) Ht Eh Hk He Hk' He' Hm Hhp Hhp'. inv_split.
  - intros t' q. rewrite lookup_insert_Some. intros [[<- <-]|[_ Hq]]; [|by eapply H1].
    rewrite Hk', He', <- Hk, <- He. by eapply H1.
  - done.
  - intros k e' Hk1. destruct (H2 _ _ Hk1) as (entry' & Hentry & ?). destruct (decide (e = e')) as [<-|].
    + simplify_eq. eexists. rewrite lookup_insert_eq. by split.
    + exists entry'. by rewrite lookup_insert_ne.
  - intros e' entry'. rewrite (users_replace t p) by congruence. rewrite lookup_insert_Some.
    intros [[<- <-]|[_ ?]]; [apply (H3 _ _ Eh)|by apply H3].
  - intros e' entry' t'. rewrite lookup_insert_Some. intros [[<- <-]|[Hne Hentry]]; [apply Hm|].
    rewrite (H4 _ _ _ Hentry). destruct (decide (t = t')) as [<-|Hnt].
    + rewrite lookup_insert_eq. split; intros [k Hk1]; exfalso.
      * rewrite Ht in Hk1. injection Hk1 as ->. by rewrite (Hhp _ _ eq_refl) in Hne.
      * injection Hk1 as ->. by rewrite (Hhp' _ _ eq_refl) in Hne.
    + by setoid_rewrite lookup_insert_ne.
Qed.

Lemma acquire_inv t s s' : inv s -> acquire t s = Some s' -> inv s'.
Proof.
  intros Hinv. unfold acquire. destruct (goroutines s !! t) as [[key e| |]|] eqn:Et; try done.
  destruct (heap s !! e) as [entry|] eqn:Eh; [|done]. simpl. destruct (mutex entry) eqn:Em; [done|]. intros [= <-].
  eapply mutex_inv; try done; [|by intros k e' [= -> ->]].
  destruct Hinv as (_ & _ & _ & _ & H4). intros t'. destruct (decide (t = t')) as [<-|Hne].
  - rewrite lookup_insert_eq. split; [eauto|done].
  - setoid_rewrite lookup_insert_ne; [|done..]. rewrite <- (H4 _ _ _ Eh), Em. split; congruence.
Qed.

Lemma release_inv t s s' : inv s -> release t s = Some s' -> inv s'.
Proof.
  intros Hinv. unfold release. destruct (goroutines s !! t) as [[|key e|]|] eqn:Et; try done.
  destruct (heap s !! e) as [entry|] eqn:Eh; [|done]. intros [= <-].
  eapply mutex_inv; try done; [|by intros k e' [= -> ->]].
  destruct Hinv as (_ & _ & _ & _ & H4). intros t'. split; [done|]. intros [k Hk]. exfalso.
  apply lookup_insert_Some in Hk as [[? ?]|[Hne Hk]]; [done|].
  pose proof (proj2 (H4 _ _ t Eh) ltac:(eauto)). pose proof (proj2 (H4 _ _ t' Eh) ltac:(eauto)). congruence.
Qed.

Lemma leave_inv t s s' : inv s -> leave t s = Some s' -> inv s'.
Proof.
  intros (H1 & Hinj & H2 & H3 & H4). unfold leave. destruct (goroutines s !! t) as [[| |key e]|] eqn:Et; try done.
  destruct (heap s !! e) as [entry|] eqn:Eh; [|done]. intros [= <-].
  pose proof (H1 _ _ Et) as Hkey. simpl in Hkey. pose proof (H3 _ _ Eh) as Hw.
  rewrite (users_delete t (Unlocked key e)), bool_decide_eq_true_2 in Hw by done.
  assert (Hent : forall k e', (if waiters entry - 1 =? 0 then delete key (entries s) else entries s) !! k = Some e' ->
    entries s !! k = Some e' /\ (waiters entry - 1 = 0 -> k <> key)).
  { intros k e'. destruct (Z.eqb_spec (waiters entry - 1) 0) as [H0|H0]; [|done].
    rewrite lookup_delete_Some. intros [Hne ?]. split; [done|congruence]. }
  inv_split.
  - intros t' p. rewrite lookup_delete_Some. intros [Hne Hp]. pose proof (H1 _ _ Hp) as Hp'.
    destruct (Z.eqb_spec (waiters entry - 1) 0) as [H0|H0]; [|done]. rewrite lookup_delete_ne; [done|]. intros Heq.
    rewrite <- Heq, Hkey in Hp'. injection Hp' as He.
    assert (size (users e (delete t (goroutines s))) = 0%nat) as Hz by lia. apply map_size_empty_iff in Hz.
    eapply (map_filter_empty_not_lookup _ _ t' p Hz); [done|]. by rewrite lookup_delete_ne.
  - intros k k' e' Hk Hk'. apply Hent in Hk as [Hk _], Hk' as [Hk' _]. by eapply Hinj.
  - intros k e' Hk. apply Hent in Hk as [Hk Hne]. destruct (H2 _ _ Hk) as (entry' & Hentry & ?).
    destruct (decide (e = e')) as [<-|].
    + eexists. rewrite lookup_insert_eq. split; [done|]. simpl. simplify_eq.
      assert (waiters entry - 1 <> 0); [|lia]. intros H0. apply (Hne H0). by eapply Hinj.
    + exists entry'. by rewrite lookup_insert_ne.
  - intros e' entry'. rewrite lookup_insert_Some. intros [[<- <-]|[Hne He']]; simpl; [lia|].
    rewrite (H3 _ _ He'), (users_delete t (Unlocked key e)), bool_decide_eq_false_2 by done. lia.
  - intros e' entry' t' He'.
    assert (Hold : (exists k, delete t (goroutines s) !! t' = Some (Holding k e')) <->
                   exists k, goroutines s !! t' = Some (Holding k e')).
    { destruct (decide (t = t')) as [<-|]; [|by setoid_rewrite lookup_delete_ne].
      rewrite lookup_delete_eq, Et. split; by intros [? ?]. }
    rewrite Hold. apply lookup_insert_Some in He' as [[<- <-]|[_ He']]; [by apply (H4 _ _ _ Eh)|by apply H4].
Qed.

Lemma run_inv tr s : run initial tr s -> inv s.
Proof.
  remember initial as s0 eqn:E. induction 1 as [s|s tr s1 t a s2 _ IH Ha]; [subst; apply initial_inv|].
  specialize (IH E). destruct a; simpl in Ha.
  - by eapply enter_inv.
  - by eapply acquire_inv.
  - by eapply release_inv.
  - by eapply leave_inv.
Qed.

(** ** One lock per key *)

(** The specification: who holds each key.  Entering and leaving do not show. *)
Inductive lock_step : gmap string nat -> nat * action -> gmap string nat -> Prop :=
  | lock_take h key t : h !! key = None -> lock_step h (t, Acquire) (<[key := t]> h)
  | lock_give h key t : h !! key = Some t -> lock_step h (t, Release) (delete key h)
  | lock_enter h key t : lock_step h (t, Enter key) h
  | lock_leave h t : lock_step h (t, Leave) h.

Inductive lock_run : gmap string nat -> list (nat * action) -> gmap string nat -> Prop :=
  | lock_run_nil h : lock_run h [] h
  | lock_run_snoc h tr h1 a h2 : lock_run h tr h1 -> lock_step h1 a h2 -> lock_run h (tr ++ [a]) h2.

Definition implements (s : state) (h : gmap string nat) : Prop :=
  forall key t, h !! key = Some t <-> exists e, goroutines s !! t = Some (Holding key e).

(** Whoever holds a key holds the mutex of the key's entry. *)
Lemma holding_mutex s t key e : inv s -> goroutines s !! t = Some (Holding key e) ->
  exists entry, entries s !! key = Some e /\ heap s !! e = Some entry /\ mutex entry = Some t.
Proof.
  intros Hinv Ht. destruct (inv_entry _ _ _ Hinv Ht) as (entry & He & _).
  destruct Hinv as (H1 & _ & _ & _ & H4). exists entry. split; [by apply (H1 _ _ Ht)|]. split; [done|].
  apply (H4 _ _ t He). eauto.
Qed.

Lemma implements_insert s s' h t p :
  implements s h -> goroutines s' = <[t := p]> (goroutines s) ->
  (forall k e, p <> Holding k e) -> (forall k e, goroutines s !! t <> Some (Holding k e)) -> implements s' h.
Proof.
  unfold implements. intros Himp Hg Hp Ht key t'. rewrite Himp, Hg. destruct (decide (t = t')) as [<-|Hne].
  - rewrite lookup_insert_eq. split; intros [e He]; [by apply Ht in He|]. injection He as ->. by destruct (Hp key e).
  - by setoid_rewrite lookup_insert_ne.
Qed.

Lemma acquire_implements s s' h t : inv s -> implements s h -> acquire t s = Some s' ->
  exists key, h !! key = None /\ implements s' (<[key := t]> h).
Proof.
  unfold implements. intros Hinv Himp. unfold acquire. destruct (goroutines s !! t) as [[key e| |]|] eqn:Et; try done.
  destruct (heap s !! e) as [entry|] eqn:Eh; [|done]. simpl. destruct (mutex entry) eqn:Em; [done|]. intros [= <-].
  exists key. split.
  - destruct (h !! key) as [t'|] eqn:Ek; [|done]. apply Himp in Ek as [e' Ht'].
    destruct (holding_mutex _ _ _ _ Hinv Ht') as (entry' & Hk & He' & Hm).
    pose proof (proj1 Hinv _ _ Et) as Hkey. simpl in Hkey. congruence.
  - intros key' t'. simpl. rewrite lookup_insert_Some, (Himp key' t'). destruct (decide (t = t')) as [<-|Hne].
    + rewrite lookup_insert_eq. split.
      * intros [[<- _]|[_ [e' He']]]; [eauto|congruence].
      * intros [e' [= -> _]]. by left.
    + setoid_rewrite lookup_insert_ne; [|done]. split; [by intros [[_ ?]|[_ ?]]|].
      intros [e' He']. right. split; [|by eauto]. intros <-.
      destruct (holding_mutex _ _ _ _ Hinv He') as (entry' & Hk & Hentry & Hm).
      pose proof (proj1 Hinv _ _ Et) as Hkey. simpl in Hkey. congruence.
Qed.

Lemma release_implements s s' h t : implements s h -> release t s = Some s' ->
  exists key, h !! key = Some t /\ implements s' (delete key h).
Proof.
  unfold implements. intros Himp. unfold release. destruct (goroutines s !! t) as [[|key e|]|] eqn:Et; try done.
  destruct (heap s !! e) as [entry|] eqn:Eh; [|done]. intros [= <-].
  assert (Hkey : h !! key = Some t) by (apply Himp; eauto). exists key. split; [done|].
  intros key' t'. simpl. rewrite lookup_delete_Some, (Himp key' t'). destruct (decide (t = t')) as [<-|Hne].
  - rewrite lookup_insert_eq. split; [|by intros [? ?]]. intros [? [e' He']]. congruence.
  - setoid_rewrite lookup_insert_ne; [|done]. split; [by intros [_ ?]|]. intros Hh. split; [|done].
    intros <-. apply Himp in Hh. congruence.
Qed.

Lemma run_implements tr s : run initial tr s -> exists h, lock_run ∅ tr h /\ implements s h.
Proof.
  intros Hrun. remember initial as s0 eqn:E. induction Hrun as [s|s tr s1 t a s2 Hrun IH Ha]; subst.
  - exists ∅. split; [constructor|]. intros key t. simpl. rewrite !lookup_empty. split; [done|by intros [? ?]].
  - destruct (IH eq_refl) as (h & Hlock & Himp). pose proof (run_inv _ _ Hrun) as Hinv. destruct a as [key| | |]; simpl in Ha.
    + exists h. split; [by econstructor; [|constructor]|]. unfold enter in Ha. destruct (goroutines s1 !! t) eqn:Et; [done|].
      assert (exists e, goroutines s2 = <[t := Waiting key e]> (goroutines s1)) as [e Hg].
      { destruct (entries s1 !! key) as [e|]; [destruct (heap s1 !! e); [|done]|]; injection Ha as <-; by eexists. }
      apply (implements_insert _ _ _ _ _ Himp Hg); [done|]. intros ? ?. by rewrite Et.
    + destruct (acquire_implements _ _ _ _ Hinv Himp Ha) as (key & Hfree & Himp').
      exists (<[key := t]> h). split; [by econstructor; [|constructor]|done].
    + destruct (release_implements _ _ _ _ Himp Ha) as (key & Hheld & Himp').
      exists (delete key h). split; [by econstructor; [|constructor]|done].
    + exists h. split; [by econstructor; [|constructor]|]. unfold leave in Ha.
      destruct (goroutines s1 !! t) as [[| |key e]|] eqn:Et; try done.
      destruct (heap s1 !! e) as [entry|]; [|done]. injection Ha as <-.
      unfold implements in *. intros key' t'. rewrite Himp. simpl. destruct (decide (t = t')) as [<-|]; [|by setoid_rewrite lookup_delete_ne].
      rewrite lookup_delete_eq, Et. split; by intros [? ?].
Qed.

(** C21: the keyed lock implements one lock per key.  Every run of it, whatever the
    interleaving of its goroutines, is a run of the specification in which a key is
    taken only while nobody holds it and given back only by its holder; a goroutine
    waiting for a key can take it exactly when the key is free; and the map keeps an
    entry exactly for the keys somebody holds, waits for or is giving back. *)
Theorem refines_lock tr s : run initial tr s ->
  exists h, lock_run ∅ tr h /\ implements s h /\
    (forall t key e, goroutines s !! t = Some (Waiting key e) -> is_Some (acquire t s) <-> h !! key = None) /\
    (forall key, is_Some (entries s !! key) <-> exists t p, goroutines s !! t = Some p /\ key_of p = key).
Proof.
  intros Hrun. destruct (run_implements _ _ Hrun) as (h & Hlock & Himp). pose proof (run_inv _ _ Hrun) as Hinv.
  exists h. split; [done|]. split; [done|]. split.
  - intros t key e Ht. split; [intros [s' Ha]|intros Hfree].
    + unfold acquire in Ha. rewrite Ht in Ha. destruct (heap s !! e) as [entry|] eqn:Eh; [|done]. simpl in Ha.
      destruct (h !! key) as [t'|] eqn:Ek; [|done]. apply Himp in Ek as [e' Ht'].
      destruct (holding_mutex _ _ _ _ Hinv Ht') as (entry' & Hk & He' & Hm).
      pose proof (proj1 Hinv _ _ Ht) as Hkey. simpl in Hkey. simplify_eq. by rewrite Hm in Ha.
    + destruct (inv_entry _ _ _ Hinv Ht) as (entry & He & _). simpl in He. unfold acquire. rewrite Ht, He. simpl.
      destruct (mutex entry) as [t'|] eqn:Em; [|by eexists]. destruct Hinv as (H1 & Hinj & _ & _ & H4).
      apply (H4 _ _ _ He) in Em as [k Hk]. pose proof (H1 _ _ Hk) as E1. pose proof (H1 _ _ Ht) as E2. simpl in E1, E2.
      assert (h !! key = Some t') by (apply Himp; exists e; by rewrite <- (Hinj _ _ _ E1 E2)). congruence.
  - intros key. destruct Hinv as (H1 & Hinj & H2 & H3 & _). split.
    + intros [e He]. destruct (H2 _ _ He) as (entry & Hentry & Hw). rewrite (H3 _ _ Hentry) in Hw.
      destruct (map_choose (users e (goroutines s))) as (t & p & Hp).
      { intros Hnone. rewrite Hnone, map_size_empty in Hw. lia. }
      apply map_lookup_filter_Some in Hp as [Hp He']. simpl in He'. exists t, p. split; [done|].
      pose proof (H1 _ _ Hp) as Hkp. rewrite He' in Hkp. by eapply Hinj.
    + intros (t & p & Hp & <-). eexists. by apply (H1 t).
Qed.
End keyedlock.
