(* ===== verification/Std.v ===== *)
(** * Std

    The functions of Go's standard library whose definitions are not the
    service's: URL parsing, Unicode lower-casing, address and time syntax, JSON
    of a string map.  They are parameters of every definition that uses them;
    [StdLaws] states the documented behaviour the proofs rely on. *)

From S2P Require Import Prelude GoText Utf8.
Open Scope Z_scope.

(** The fields of [*url.URL] the service reads; [EscapedPath] and [Hostname] are
    its methods, [User] is whether there is userinfo. *)
Record URL := {
  Scheme : string;
  User : bool;
  Host : string;
  Hostname : string;
  EscapedPath : string;
  Fragment : string
}.

Class Std := {
  (** [url.Parse] *)
  url_Parse : string -> option URL;
  (** [strings.ToLower] *)
  strings_ToLower : string -> string;
  (** [netip.ParseAddr] succeeds *)
  netip_ParseAddr_ok : string -> bool;
  (** [time.Format(time.RFC3339)] and whether [time.Parse(time.RFC3339, s)] succeeds *)
  rfc3339_Format : Z -> string;
  rfc3339_Parse : string -> option Z;
  (** [json.Marshal] of a map of strings, and [json.Unmarshal] into one *)
  json_marshal_map : gmap string string -> list Z;
  json_unmarshal_map : list Z -> option (gmap string string)
}.

Definition map_valid_utf8 (m : gmap string string) : Prop :=
  map_Forall (fun k v => ValidString k = true /\ ValidString v = true) m.

(** [encoding/json]: a map of valid UTF-8 strings survives a round trip;
    [time]: formatting a UTC instant of whole seconds and parsing it back;
    [strings.ToLower] of ASCII text. *)
Class StdLaws `(Std) : Prop := {
  json_map_roundtrip m :
    map_valid_utf8 m -> json_unmarshal_map (json_marshal_map m) = Some m;
  ToLower_ascii bs : is_ascii bs -> strings_ToLower (of_bytes bs) = of_bytes (lower_byte <$> bs);
  json_unmarshal_valid bs m : json_unmarshal_map bs = Some m -> map_valid_utf8 m;
  rfc3339_roundtrip t :
    0 <= t < 9999 * 365 * 24 * Hour -> rfc3339_Parse (rfc3339_Format t) = Some (time.Truncate t Second)
}.

(** A string of printable ASCII is valid UTF-8. *)
Lemma decode_ascii bs : Forall (fun b => 0 <= b < 128) bs -> decode bs = (fun b => Rune b [b]) <$> bs.
Proof.
  induction 1 as [|b bs Hb Hbs IH]; [done|].
  cbn [decode]. destruct (Z.ltb_spec b 128); [|lia]. csimpl. by rewrite IH.
Qed.

Lemma ValidString_ascii s : Forall (fun b => 0 <= b < 128) (bytes s) -> ValidString s = true.
Proof.
  intros H. unfold ValidString. rewrite decode_ascii by done.
  induction (bytes s); [done|]. simpl. apply IHl. by inversion H.
Qed.

(** ** A small standard library, for concrete runs

    URLs of the form https://host/path, JSON as stdpp's encoding of a map, times
    in unary seconds. *)

Fixpoint until_slash (s : string) : string * string :=
  match s with
  | EmptyString => (EmptyString, EmptyString)
  | String c rest =>
    if Ascii.eqb c "/"%char then (EmptyString, s)
    else let p := until_slash rest in (String c p.1, p.2)
  end.

Fixpoint unary (n : nat) : string := match n with O => EmptyString | S n => String "s"%char (unary n) end.

#[global] Instance map_valid_utf8_dec m : Decision (map_valid_utf8 m).
Proof. unfold map_valid_utf8. apply _. Defined.

Definition toy_std : Std := {|
  url_Parse s :=
    match cut_prefix "https://" s with
    | None => None
    | Some rest =>
      let p := until_slash rest in
      Some {| Scheme := "https"; User := false; Host := p.1; Hostname := p.1; EscapedPath := p.2;
              Fragment := EmptyString |}
    end;
  strings_ToLower s := of_bytes (lower_byte <$> bytes s);
  netip_ParseAddr_ok _ := false;
  rfc3339_Format t := unary (Z.to_nat (t / Second));
  rfc3339_Parse s := Some (len s * Second);
  json_marshal_map m := [Z.pos (countable.encode m)];
  json_unmarshal_map bs :=
    match bs with
    | [Z.pos p] => m ← countable.decode p; if decide (map_valid_utf8 m) then Some m else None
    | _ => None
    end
|}.

Lemma len_unary n : len (unary n) = Z.of_nat n.
Proof. unfold len. f_equal. induction n; simpl; congruence. Qed.

Lemma toy_std_laws : @StdLaws toy_std.
Proof.
  split.
  - intros m Hm. simpl. rewrite countable.decode_encode. simpl. by rewrite decide_True.
  - intros bs Hbs. simpl. rewrite bytes_of_bytes; [done|]. eapply Forall_impl; [exact Hbs|]. simpl. lia.
  - intros bs m. simpl. repeat case_match; try done. destruct (countable.decode p) as [m'|]; simpl; [|done].
    case_decide; [|done]. by intros [= <-].
  - intros t Ht. simpl. rewrite len_unary, Z2Nat.id by (apply Z.div_pos; unfold Second, Millisecond, Microsecond; lia).
    f_equal. unfold time.Truncate. rewrite (Z.div_mod t Second) at 2 by done. lia.
Qed.
