(* ===== verification/NtfyCli.v ===== *)
(** * NtfyCli

    The ntfy command line (src/provisioning-api/internal/ntfycli): the arguments of
    each command, the client that runs them one at a time with retries, and the
    parsers of their output.  The process that runs a command is a call ([Run]),
    answered by the environment.  Module [ntfycli_props]: a command is retried only
    while the database is busy ([run_attempts]), and the parsers read back what ntfy
    prints ([parse_print]). *)

From S2P Require Import Prelude Prog GoText Utf8 GoFormat Std.
Open Scope Z_scope.

(** ** strings *)

(** The longest prefix in a class, and the rest. *)
Fixpoint span_chars (p : ascii -> bool) (s : string) : string * string :=
  match s with
  | String c s' => if p c then let (a, b) := span_chars p s' in (String c a, b) else (EmptyString, s)
  | EmptyString => (EmptyString, EmptyString)
  end.

(** [strings.Split(s, sep)] for a separator of one byte. *)
Fixpoint split_on (sep : ascii) (s : string) : list string :=
  match s with
  | EmptyString => [EmptyString]
  | String c s' =>
    if Ascii.eqb c sep then EmptyString :: split_on sep s'
    else match split_on sep s' with
         | line :: lines => String c line :: lines
         | [] => [String c EmptyString]
         end
  end.

Definition newline : ascii := "010"%char.
Definition trim (s : string) : string := of_bytes (TrimSpace (bytes s)).
Definition nonempty (s : string) : bool := negb (String.eqb s EmptyString).

(** The classes [\S], [[A-Za-z0-9_]] and [[a-z-]] of the patterns. *)
Definition is_nonspace (c : ascii) : bool := negb (existsb (Z.eqb (byte_val c)) [9; 10; 12; 13; 32]).
Definition is_word (c : ascii) : bool := is_lower c || is_upper c || is_digit c || Ascii.eqb c "_"%char.
Definition is_kind (c : ascii) : bool := is_lower c || Ascii.eqb c "-"%char.

Module ntfycli.

(** ** args.go *)

Definition TopicPattern (appID personHash : string) : string := appID +:+ "-" +:+ personHash +:+ "-*".
Definition PersonChannelTopic (appID personHash channel : string) : string :=
  appID +:+ "-" +:+ personHash +:+ "-" +:+ channel.

Inductive Permission := PermissionReadOnly | PermissionWriteOnly.
Definition Permission_string (p : Permission) : string :=
  match p with PermissionReadOnly => "ro" | PermissionWriteOnly => "wo" end.

Definition PublisherTopicPattern (appID : string) : string := appID +:+ "-*".
Definition BroadcastTopicPattern (appID : string) : string := appID +:+ "-broadcast".
Definition PublisherUserID (appID : string) : string := appID +:+ "-publisher".
Definition PublisherTokenLabel : string := "publisher".
Definition TestNotifyTokenLabel : string := "test-notify".

Definition UserAddArgs (userID : string) : list string := ["user"; "add"; userID].
Definition UserChangePassArgs (userID : string) : list string := ["user"; "change-pass"; userID].
Definition UserDeleteArgs (userID : string) : list string := ["user"; "del"; userID].
Definition UserListArgs : list string := ["user"; "list"].
Definition UserAccessArgs (userID : string) : list string := ["access"; userID].
Definition AccessGrantArgs (userID topicPattern : string) (permission : Permission) : list string :=
  ["access"; userID; topicPattern; Permission_string permission].
Definition AccessResetArgs (userID topicPattern : string) : list string :=
  ["access"; "--reset"; userID; topicPattern].
Definition TokenAddArgs (userID label : string) : list string := ["token"; "add"; "--label"; label; userID].
Definition TokenListArgs (userID : string) : list string := ["token"; "list"; userID].
Definition TokenRemoveArgs (userID token : string) : list string := ["token"; "remove"; userID; token].

(** ** client.go: errors *)

Definition ErrAlreadyExists : error := Sentinel "ntfy resource already exists".
Definition ErrNotFound : error := Sentinel "ntfy resource does not exist".

Definition defaultMaxAttempts : Z := 5.
Definition defaultBaseBackoff : Z := 50 * Millisecond.

Definition busyMarkers : list string := ["database is locked"; "database locked"; "SQLITE_BUSY"].
Definition isBusyStderr (stderr : string) : bool := existsb (Contains stderr) busyMarkers.

Definition classifyStderr (stderr : string) : option error :=
  if Contains stderr "already exists" then Some ErrAlreadyExists
  else if Contains stderr "does not exist" then Some ErrNotFound
  else None.

(** ** client.go: running a command

    The subprocess boundary [Runner], the injected [Sleep], and the client's mutex. *)
Inductive runner_op :=
  | Run (args extraEnv : list string)
  | Sleep (duration : Z)
  | MutexLock
  | MutexUnlock.

(** What a command leaves: its standard output, its standard error, and the error
    of the process, if any. *)
Definition completed : Type := string * string * option error.

Definition runner_reply (c : runner_op) : Type :=
  match c with Run _ _ => completed | _ => unit end.

Definition runner : interface := {| op := runner_op; reply := runner_reply |}.

(** The loop [for attempt := 1; attempt <= defaultMaxAttempts; attempt++], from the
    attempt [attempt] with [remaining] attempts to go; [last] is what the attempt before
    left in [stdout], [stderr] and [runErr]. *)
Fixpoint attempt_loop (remaining : nat) (attempt backoff : Z) (last : completed) (args extraEnv : list string) :
    prog runner completed :=
  match remaining with
  | O => Ret last
  | S remaining =>
    done ← @call runner (Run args extraEnv) : prog runner completed;
    let '(stdout, stderr, runErr) := done in
    match runErr with
    | None => Ret done
    | Some _ =>
      if negb (isBusyStderr stderr) then Ret done
      else if attempt <? defaultMaxAttempts then
        _ ← @call runner (Sleep backoff) : prog runner unit;
        attempt_loop remaining (attempt + 1) (backoff * 2) done args extraEnv
      else attempt_loop remaining (attempt + 1) backoff done args extraEnv
    end
  end.

Definition command (args : list string) : string := default EmptyString (head args).

(** [client.run], under the client's mutex. *)
Definition run (args extraEnv : list string) : prog runner (result string) :=
  _ ← @call runner MutexLock : prog runner unit;
  done ← attempt_loop (Z.to_nat defaultMaxAttempts) 1 defaultBaseBackoff (EmptyString, EmptyString, None) args extraEnv;
  _ ← @call runner MutexUnlock : prog runner unit;
  let '(stdout, stderr, runErr) := done in
  Ret (match runErr with
       | None => Ok stdout
       | Some runErr =>
         let cause := default runErr (classifyStderr stderr) in
         Err (Wrap ("ntfy " +:+ command args +:+ ": " +:+ Error cause +:+ ": " +:+ stderr) [cause])
       end).

(** A command whose output is not read. *)
Definition run_ (args extraEnv : list string) : prog runner (result unit) :=
  r ← run args extraEnv; Ret (r ≫= fun _ => Ok tt).

Definition password_env (password : string) : list string := ["NTFY_PASSWORD=" +:+ password].

Definition AddUser (userID password : string) : prog runner (result unit) :=
  run_ (UserAddArgs userID) (password_env password).
Definition ChangePassword (userID password : string) : prog runner (result unit) :=
  run_ (UserChangePassArgs userID) (password_env password).
Definition DeleteUser (userID : string) : prog runner (result unit) := run_ (UserDeleteArgs userID) [].
Definition GrantAccess (userID topicPattern : string) (permission : Permission) : prog runner (result unit) :=
  run_ (AccessGrantArgs userID topicPattern permission) [].
Definition ResetAccess (userID topicPattern : string) : prog runner (result unit) :=
  run_ (AccessResetArgs userID topicPattern) [].
Definition RemoveToken (userID token : string) : prog runner (result unit) :=
  run_ (TokenRemoveArgs userID token) [].

(** ** client.go: parsing *)

Record User := { Name : string; TopicPatterns : list string }.
Record Token := { Value : string; Label : string }.

(** [^user (\S+) \(role: ([a-z]+)]: the class [\S] stops at the first white space,
    so the name is the longest run; its first group is returned. *)
Definition userListHeaderPattern (line : string) : option string :=
  rest ← cut_prefix "user " line;
  let (name, rest) := span_chars is_nonspace rest in
  after ← cut_prefix " (role: " rest;
  match after with
  | String c _ => if nonempty name && is_lower c then Some name else None
  | EmptyString => None
  end.

(** [^- [a-z-]+ access to topic (\S+)$] *)
Definition userListAccessPattern (line : string) : option string :=
  rest ← cut_prefix "- " line;
  let (kind, rest) := span_chars is_kind rest in
  topic ← cut_prefix " access to topic " rest;
  if nonempty kind && nonempty topic && all_chars is_nonspace topic then Some topic else None.

Definition anonymousUserName : string := "*".

(** One line of [parseUserBlocks]: the users so far (in order), and the current one. *)
Definition parse_line (st : list User * option User) (line : string) : list User * option User :=
  let '(users, currentUser) := st in
  let trimmedLine := trim line in
  match userListHeaderPattern trimmedLine with
  | Some name =>
    let users := match currentUser with Some u => users ++ [u] | None => users end in
    if String.eqb name anonymousUserName then (users, None)
    else (users, Some {| Name := name; TopicPatterns := [] |})
  | None =>
    match currentUser with
    | None => (users, None)
    | Some u =>
      match userListAccessPattern trimmedLine with
      | Some topic => (users, Some {| Name := Name u; TopicPatterns := TopicPatterns u ++ [topic] |})
      | None => (users, Some u)
      end
    end
  end.

Definition parseUserBlocks (stdout : string) : list User :=
  let '(users, currentUser) := fold_left parse_line (split_on newline stdout) ([], None) in
  match currentUser with Some u => users ++ [u] | None => users end.

Definition ListUsers : prog runner (result (list User)) :=
  r ← run UserListArgs []; Ret (r ≫= fun stdout => Ok (parseUserBlocks stdout)).

(** [strconv.Quote], which only the texts of errors use. *)
Class Quoting := strconv_Quote : string -> string.

Definition GetUser `{Quoting} (userID : string) : prog runner (result User) :=
  r ← run (UserAccessArgs userID) [];
  Ret (r ≫= fun stdout =>
    match head (filter (fun user => Name user = userID) (parseUserBlocks stdout)) with
    | Some user => Ok user
    | None =>
      Err (Wrap ("ntfy access: " +:+ Error ErrNotFound +:+ ": no user block for " +:+ strconv_Quote userID +:+ " in output")
        [ErrNotFound])
    end).

(** [tk_[A-Za-z0-9_]+] at the start of [s], and the rest: no separator that may
    follow is in the class, so the token is the longest run. *)
Definition scan_token (s : string) : option (string * string) :=
  rest ← cut_prefix "tk_" s;
  let (word, rest) := span_chars is_word rest in
  if nonempty word then Some ("tk_" +:+ word, rest) else None.

(** [tokenListLinePattern]: a dash, a token, a label in parentheses if there is one
    (the class of its bytes is all but the closing parenthesis), a comma. *)
Definition tokenListLinePattern (line : string) : option Token :=
  rest ← cut_prefix "- " line;
  p ← scan_token rest;
  let '(value, rest) := p in
  match cut_prefix " (" rest with
  | Some rest =>
    let (label, rest) := span_chars (fun c => negb (Ascii.eqb c ")"%char)) rest in
    _ ← cut_prefix ")," rest;
    Some {| Value := value; Label := label |}
  | None =>
    _ ← cut_prefix "," rest;
    Some {| Value := value; Label := EmptyString |}
  end.

Definition parseTokens (stdout : string) : list Token :=
  omap (fun line => tokenListLinePattern (trim line)) (split_on newline stdout).

Definition ListTokens (userID : string) : prog runner (result (list Token)) :=
  r ← run (TokenListArgs userID) []; Ret (r ≫= fun stdout => Ok (parseTokens stdout)).

(** [\btoken (tk_[A-Za-z0-9_]+) created for user ], the leftmost match; [boundary]
    tells whether the byte before [s] is not a word character. *)
Definition token_created (s : string) : option string :=
  rest ← cut_prefix "token " s;
  p ← scan_token rest;
  _ ← cut_prefix " created for user " p.2;
  Some p.1.

Fixpoint tokenStdoutPattern (boundary : bool) (s : string) : option string :=
  match (if boundary then token_created s else None) with
  | Some token => Some token
  | None =>
    match s with EmptyString => None | String c s' => tokenStdoutPattern (negb (is_word c)) s' end
  end.

Definition AddToken `{Quoting} (userID label : string) : prog runner (result string) :=
  r ← run (TokenAddArgs userID label) [];
  Ret (r ≫= fun stdout =>
    match tokenStdoutPattern true stdout with
    | Some token => Ok token
    | None => Err (errors_New ("ntfy token: could not parse token from output " +:+ strconv_Quote stdout))
    end).

End ntfycli.

Module ntfycli_props.
Import ntfycli.

(** ** Attempts *)

(** What a command's execution showed: how each attempt ended, and the waits. *)
Record attempts := { ended : list completed; waits : list Z }.
Definition no_attempts : attempts := {| ended := []; waits := [] |}.

Definition attempt_step (g : attempts) (e : event runner) : attempts :=
  match e with
  | Event (Run _ _) r => {| ended := ended g ++ [r]; waits := waits g |}
  | Event (Sleep d) _ => {| ended := ended g; waits := waits g ++ [d] |}
  | _ => g
  end.
Definition attempts_of (tr : list (event runner)) : attempts := fold_left attempt_step tr no_attempts.

(** A failure the client retries: the process failed with the database busy. *)
Definition busy (c : completed) : bool :=
  let '(stdout, stderr, runErr) := c in bool_decide (runErr <> None) && isBusyStderr stderr.

Inductive retried : nat -> Z -> list completed -> list Z -> Prop :=
  | retried_last n b c : (0 < n)%nat -> busy c = false \/ n = 1%nat -> retried n b [c] []
  | retried_again n b c cs ws : busy c = true -> retried n (b * 2) cs ws -> retried (S n) b (c :: cs) (b :: ws).

Lemma busy_true stdout stderr (e : error) : busy (stdout, stderr, Some e) = isBusyStderr stderr.
Proof. done. Qed.

Lemma wp_attempts n attempt backoff last args env g (Q : completed -> attempts -> Prop) :
  (0 < n)%nat -> attempt + Z.of_nat n = defaultMaxAttempts + 1 ->
  (forall cs ws c, retried n backoff (cs ++ [c]) ws -> Q c {| ended := ended g ++ cs ++ [c]; waits := waits g ++ ws |}) ->
  wp free (follow attempt_step) (attempt_loop n attempt backoff last args env) g Q.
Proof.
  revert attempt backoff last g. induction n as [|n IH]; intros attempt backoff last g Hn Hsum HQ; [lia|]. cbn [attempt_loop].
  apply wp_bind, wp_call; [done|]. intros c g' ->. destruct c as [[stdout stderr] [e|]].
  - assert (Hstop : busy (stdout, stderr, Some e) = false \/ S n = 1%nat ->
      Q (stdout, stderr, Some e) {| ended := ended g ++ [(stdout, stderr, Some e)]; waits := waits g |}).
    { intros Hb. specialize (HQ [] [] (stdout, stderr, Some e)). cbn [app] in HQ. rewrite app_nil_r in HQ. apply HQ. constructor; [lia|done]. }
    destruct (isBusyStderr stderr) eqn:Eb; cbn [negb]; [|apply Hstop; by left].
    destruct (Z.ltb_spec attempt defaultMaxAttempts) as [Hlt|Hge].
    + apply wp_bind, wp_call; [done|]. intros ? g' ->. cbn [attempt_step ended waits].
      apply IH; [lia|lia|]. intros cs ws c Hr. cbn [ended waits]. rewrite <- !app_assoc.
      apply (HQ ((stdout, stderr, Some e) :: cs) (backoff :: ws) c). by apply retried_again.
    + destruct n; [|unfold defaultMaxAttempts in *; lia]. cbn [attempt_loop wp]. apply Hstop. by right.
  - cbn [wp]. specialize (HQ [] [] (stdout, stderr, None)). cbn [app] in HQ. rewrite app_nil_r in HQ. apply HQ. constructor; [lia|by left].
Qed.

(** The waits double from 50 ms. *)
Fixpoint doublings (n : nat) (b : Z) : list Z := match n with O => [] | S n => b :: doublings n (b * 2) end.

Lemma retried_spec n b cs ws c : retried n b (cs ++ [c]) ws ->
  (length cs < n)%nat /\ Forall (fun c => busy c = true) cs /\ ws = doublings (length cs) b /\
  (busy c = false \/ S (length cs) = n).
Proof.
  remember (cs ++ [c]) as l eqn:El. intros H. revert cs El.
  induction H as [n b d Hn Hb|n b d ds ws Hb Hr IH]; intros cs El.
  - destruct cs as [|x cs]; [|by destruct cs]. injection El as ->. cbn [length doublings].
    split; [lia|]. split; [constructor|]. split; [done|]. destruct Hb as [?|?]; [by left|by right].
  - destruct cs as [|x cs]; injection El as -> El; [subst ds; inversion Hr|].
    destruct (IH cs El) as (Hlen & Hbusy & -> & Hlast). cbn [length doublings].
    split; [lia|]. split; [by constructor|]. split; [done|]. destruct Hlast as [?|?]; [by left|right; lia].
Qed.

(** What the outcome of the last attempt means. *)
Definition verdict (r : result string) (c : completed) : Prop :=
  let '(stdout, stderr, runErr) := c in
  match runErr with
  | None => r = Ok stdout
  | Some runErr =>
    exists text, r = Err (Wrap text [default runErr (classifyStderr stderr)])
  end.

(** A command is attempted at most five times, and again only after an attempt that
    failed with the auth database busy, after waits of 50, 100, 200 and 400 ms; it is
    given up on at the first other outcome or the fifth attempt.  The result is the last
    attempt's: its output if the process succeeded, and an error that is
    [ErrAlreadyExists] or [ErrNotFound] when standard error says so, whatever the
    process error was. *)
Theorem run_attempts {W} (answers : answering runner W) w tr r w' args env :
  exec answers (run args env) w tr (Ret r) w' ->
  exists cs c, ended (attempts_of tr) = cs ++ [c] /\ (length cs <= 4)%nat /\
    Forall (fun c => busy c = true) cs /\ (busy c = false \/ length cs = 4%nat) /\
    waits (attempts_of tr) = take (length cs) [50 * Millisecond; 100 * Millisecond; 200 * Millisecond; 400 * Millisecond] /\
    verdict r c.
Proof.
  intros He. apply (exec_ghost _ attempt_step _ _ _ _ _ no_attempts) in He.
  refine (wp_result free (follow attempt_step) _ _ _ _ _ (fun r g => exists cs c, ended g = cs ++ [c] /\ (length cs <= 4)%nat /\
    Forall (fun c => busy c = true) cs /\ (busy c = false \/ length cs = 4%nat) /\
    waits g = take (length cs) [50 * Millisecond; 100 * Millisecond; 200 * Millisecond; 400 * Millisecond] /\ verdict r c) He _).
  unfold run. apply wp_bind, wp_call; [done|]. intros [] g ->. apply wp_bind.
  apply wp_attempts; [vm_compute; lia|done|]. intros cs ws c Hr. apply retried_spec in Hr as (Hlen & Hbusy & -> & Hlast).
  change (Z.to_nat defaultMaxAttempts) with 5%nat in *.
  apply wp_bind, wp_call; [done|]. intros [] g ->. destruct c as [[stdout stderr] runErr]. cbn [wp attempt_step ended waits].
  exists cs, (stdout, stderr, runErr). split; [done|]. split; [lia|]. split; [done|]. split; [destruct Hlast; [by left|right; lia]|].
  split; [|destruct runErr; [by eexists|done]].
  do 5 (destruct cs as [|? cs]; [done|]). simpl in Hlen. lia.
Qed.

(** ** Reading a listing back *)

(** A listing: blocks of a header and its lines, as ntfy prints them. *)
Inductive listing_line :=
  | Access (kind topic : string)
  | Note (text : string).

Record block := { block_name : string; block_role : string; block_rest : string; block_lines : list listing_line }.

Definition print_line (l : listing_line) : string :=
  match l with Access kind topic => "- " +:+ kind +:+ " access to topic " +:+ topic | Note text => text end.
Definition print_header (b : block) : string :=
  "user " +:+ block_name b +:+ " (role: " +:+ block_role b +:+ block_rest b +:+ ")".
Definition block_text (b : block) : list string := print_header b :: (print_line <$> block_lines b).
Definition print (bs : list block) : string :=
  foldr (fun line text => line +:+ String newline text) EmptyString (bs ≫= block_text).

(** Printable ASCII, with and without the space. *)
Definition is_print : ascii -> bool := in_range " "%char "~"%char.
Definition is_graph : ascii -> bool := in_range "!"%char "~"%char.

Definition word_ok (p : ascii -> bool) (s : string) : Prop := nonempty s = true /\ all_chars p s = true.

Definition line_ok (l : listing_line) : Prop :=
  match l with
  | Access kind topic => word_ok is_kind kind /\ word_ok is_graph topic
  | Note text =>
    all_chars is_print text = true /\ userListHeaderPattern (trim text) = None /\ userListAccessPattern (trim text) = None
  end.

Definition block_ok (b : block) : Prop :=
  word_ok is_graph (block_name b) /\ word_ok is_lower (block_role b) /\ all_chars is_print (block_rest b) = true /\
  Forall line_ok (block_lines b).

Definition topics (ls : list listing_line) : list string :=
  omap (fun l => match l with Access _ topic => Some topic | Note _ => None end) ls.

Definition user_of (b : block) : User := {| Name := block_name b; TopicPatterns := topics (block_lines b) |}.

Lemma split_line line rest : all_chars is_print line = true ->
  split_on newline (line +:+ String newline rest) = line :: split_on newline rest.
Proof.
  induction line as [|c line IH]; intros Hl.
  - rewrite string_app_nil. cbn [split_on]. by rewrite Ascii.eqb_refl.
  - rewrite string_app_cons. simpl in Hl. bool_hyps. cbn [split_on].
    destruct (Ascii.eqb_spec c newline) as [->|]; [done|]. by rewrite IH.
Qed.

Lemma split_print lines : Forall (fun l => all_chars is_print l = true) lines ->
  split_on newline (foldr (fun line text => line +:+ String newline text) EmptyString lines) = lines ++ [EmptyString].
Proof. induction 1 as [|l lines Hl _ IH]; [done|]. simpl. by rewrite split_line, IH. Qed.

(** Trimming printable text that neither begins nor ends with a space. *)
Lemma all_chars_Forall p s : all_chars p s = true <-> Forall (fun c => p c = true) (String.list_ascii_of_string s).
Proof.
  induction s as [|c s IH]; simpl; [done|]. rewrite andb_true_iff, IH, Forall_cons. done.
Qed.

Lemma graph_not_space c : is_graph c = true -> IsSpace (byte_val c) = false.
Proof.
  unfold is_graph, in_range. change (byte_val "!") with 33. change (byte_val "~") with 126. intros H. bool_hyps.
  unfold IsSpace. apply orb_false_iff. split; [apply orb_false_iff; split; apply andb_false_iff; rewrite !Z.leb_gt; lia|].
  apply not_true_is_false. rewrite existsb_exists. intros (x & Hx & Heq). apply Z.eqb_eq in Heq. subst x.
  simpl in Hx. lia.
Qed.

Lemma drop_while_keep {A} (p : A -> bool) x l : p x = false -> drop_while p (x :: l) = x :: l.
Proof. simpl. by intros ->. Qed.

Lemma encode_ascii bs : encode ((fun b => Rune b [b]) <$> bs) = bs.
Proof. unfold encode. induction bs as [|b bs IH]; [done|]. rewrite fmap_cons, bind_cons, IH. done. Qed.

Lemma trim_id c s d t : s = String c t -> (exists t', s = t' +:+ String d EmptyString) ->
  all_chars is_print s = true -> is_graph c = true -> is_graph d = true -> trim s = s.
Proof.
  intros Hs [t' Ht'] Hp Hc Hd. unfold trim, TrimSpace.
  assert (Hascii : Forall (fun b => 0 <= b < 128) (bytes s)).
  { unfold bytes. apply Forall_fmap. apply all_chars_Forall in Hp. eapply Forall_impl; [exact Hp|]. intros x Hx.
    unfold is_print, in_range in Hx. change (byte_val " ") with 32 in Hx. change (byte_val "~") with 126 in Hx. bool_hyps. simpl. lia. }
  rewrite (decode_ascii _ Hascii). unfold trim_runes. cbv zeta.
  assert (Hhead : exists l, bytes s = byte_val c :: l) by (rewrite Hs; by eexists).
  assert (Hlast : exists l, bytes s = l ++ [byte_val d]).
  { rewrite Ht', bytes_app. by eexists. }
  destruct Hhead as [l Hl], Hlast as [l' Hl']. rewrite Hl at 1. rewrite fmap_cons, drop_while_keep.
  2: { cbn [rune_valid rune_code]. by apply graph_not_space. }
  change (Rune (byte_val c) [byte_val c] :: ((fun b => Rune b [b]) <$> l)) with ((fun b => Rune b [b]) <$> (byte_val c :: l)).
  rewrite <- Hl, Hl', fmap_app, rev_app_distr. cbn [fmap list_fmap rev app]. rewrite drop_while_keep.
  2: { cbn [rune_valid rune_code]. by apply graph_not_space. }
  change (Rune (byte_val d) [byte_val d] :: rev ((fun b => Rune b [b]) <$> l'))
    with ([Rune (byte_val d) [byte_val d]] ++ rev ((fun b => Rune b [b]) <$> l')).
  rewrite rev_app_distr, rev_involutive. simpl rev.
  change [Rune (byte_val d) [byte_val d]] with ((fun b => Rune b [b]) <$> [byte_val d]). rewrite <- fmap_app, <- Hl'.
  rewrite encode_ascii. apply of_bytes_bytes.
Qed.

Lemma span_stop p a c b : all_chars p a = true -> p c = false -> span_chars p (a +:+ String c b) = (a, String c b).
Proof.
  induction a as [|x a IH]; intros Ha Hc; [by rewrite string_app_nil; simpl; rewrite Hc|].
  rewrite string_app_cons. simpl in Ha |- *. bool_hyps. by rewrite H, IH.
Qed.

Lemma cut_prefix_app a b : cut_prefix a (a +:+ b) = Some b.
Proof. by apply cut_prefix_spec. Qed.

(** The last byte of a text. *)
Lemma last_byte s : nonempty s = true -> exists t d, s = t +:+ String d EmptyString.
Proof.
  induction s as [|c s IH]; [done|]. intros _. destruct s as [|x s]; [by exists EmptyString, c|].
  destruct IH as (t & d & ->); [done|]. by exists (String c t), d.
Qed.

(** ** One line *)

Lemma graph_nonspace c : is_graph c = true -> is_nonspace c = true.
Proof.
  unfold is_graph, in_range, is_nonspace. change (byte_val "!") with 33. intros H. bool_hyps.
  apply negb_true_iff, not_true_is_false. rewrite existsb_exists. intros (x & Hx & Heq). apply Z.eqb_eq in Heq. subst x.
  simpl in Hx. lia.
Qed.

Lemma graph_print c : is_graph c = true -> is_print c = true.
Proof.
  unfold is_graph, is_print, in_range. change (byte_val "!") with 33. change (byte_val " ") with 32.
  rewrite !andb_true_iff, !Z.leb_le. lia.
Qed.

Lemma lower_graph c : is_lower c = true -> is_graph c = true.
Proof.
  unfold is_graph, is_lower, in_range. change (byte_val "!") with 33. change (byte_val "a") with 97.
  change (byte_val "z") with 122. change (byte_val "~") with 126. rewrite !andb_true_iff, !Z.leb_le. lia.
Qed.

Lemma kind_graph c : is_kind c = true -> is_graph c = true.
Proof. unfold is_kind. intros H. apply orb_true_iff in H as [H|H]; [by apply lower_graph|]. by apply Ascii.eqb_eq in H as ->. Qed.

Lemma print_app a b : all_chars is_print (a +:+ b) = all_chars is_print a && all_chars is_print b.
Proof. apply all_chars_app. Qed.

Lemma graph_all s : all_chars is_graph s = true -> all_chars is_print s = true.
Proof. apply all_chars_impl, graph_print. Qed.

(** A header reads back as its name. *)
Lemma read_header b : block_ok b -> userListHeaderPattern (trim (print_header b)) = Some (block_name b).
Proof.
  intros ([Hn Hname] & [Hr Hrole] & Hrest & _). unfold print_header.
  assert (Hprint : all_chars is_print ("user " +:+ block_name b +:+ " (role: " +:+ block_role b +:+ block_rest b +:+ ")") = true).
  { rewrite !print_app, Hrest, (graph_all _ Hname). rewrite (graph_all (block_role b)); [done|].
    eapply all_chars_impl; [exact lower_graph|done]. }
  match goal with |- context [trim ?x] => rewrite (trim_id "u" x ")" _ eq_refl) end; [| |done..].
  2: { rewrite !string_app_assoc. by eexists. }
  unfold userListHeaderPattern. rewrite cut_prefix_app. cbn [mbind option_bind].
  rewrite (span_stop is_nonspace (block_name b) " " ("(role: " +:+ block_role b +:+ block_rest b +:+ ")")
    (all_chars_impl _ _ _ graph_nonspace Hname) eq_refl
    : span_chars is_nonspace (block_name b +:+ " (role: " +:+ block_role b +:+ block_rest b +:+ ")") =
      (block_name b, " (role: " +:+ block_role b +:+ block_rest b +:+ ")")).
  rewrite cut_prefix_app. cbn [mbind option_bind]. destruct (block_role b) as [|c role]; [done|].
  rewrite string_app_cons. simpl in Hrole. bool_hyps. by rewrite Hn, H.
Qed.

(** An access line reads back as its topic, and is no header. *)
Lemma read_access kind topic : line_ok (Access kind topic) ->
  userListHeaderPattern (trim (print_line (Access kind topic))) = None /\
  userListAccessPattern (trim (print_line (Access kind topic))) = Some topic.
Proof.
  intros ([Hk Hkind] & [Ht Htopic]). unfold print_line.
  assert (Hprint : all_chars is_print ("- " +:+ kind +:+ " access to topic " +:+ topic) = true).
  { rewrite !print_app, (graph_all _ Htopic). rewrite (graph_all kind); [done|].
    eapply all_chars_impl; [exact kind_graph|done]. }
  destruct (last_byte topic Ht) as (t & d & Hd).
  assert (Hdg : is_graph d = true).
  { rewrite Hd, all_chars_app in Htopic. bool_hyps. simpl in *. by bool_hyps. }
  match goal with |- context [trim ?x] => rewrite (trim_id "-" x d _ eq_refl) end; [| |done..].
  2: { rewrite Hd, !string_app_assoc. by eexists. }
  split; [done|]. unfold userListAccessPattern. rewrite cut_prefix_app. cbn [mbind option_bind].
  rewrite (span_stop is_kind kind " " ("access to topic " +:+ topic) Hkind eq_refl
    : span_chars is_kind (kind +:+ " access to topic " +:+ topic) = (kind, " access to topic " +:+ topic)).
  rewrite cut_prefix_app. cbn [mbind option_bind]. rewrite Hk, Ht. cbn [andb].
  by rewrite (all_chars_impl is_graph is_nonspace topic graph_nonspace Htopic).
Qed.

(** ** A listing *)

(** The topics a line adds. *)
Definition adds (l : listing_line) : list string := match l with Access _ topic => [topic] | Note _ => [] end.

Lemma parse_one users current l : line_ok l ->
  parse_line (users, current) (print_line l) =
    (users, (fun u => {| Name := Name u; TopicPatterns := TopicPatterns u ++ adds l |}) <$> current).
Proof.
  intros Hl. unfold parse_line. destruct l as [kind topic|text].
  - destruct (read_access kind topic Hl) as [-> ->]. by destruct current.
  - destruct Hl as (_ & Hh & Ha). cbn [print_line adds]. rewrite Hh, Ha. destruct current as [[name ps]|]; [|done].
    simpl. by rewrite app_nil_r.
Qed.

Lemma parse_lines users current ls : Forall line_ok ls ->
  fold_left parse_line (print_line <$> ls) (users, current) =
    (users, (fun u => {| Name := Name u; TopicPatterns := TopicPatterns u ++ topics ls |}) <$> current).
Proof.
  intros H. revert current. induction H as [|l ls Hl _ IH]; intros current.
  - destruct current as [[name ps]|]; [|done]. simpl. by rewrite app_nil_r.
  - rewrite fmap_cons. cbn [fold_left]. rewrite parse_one, IH by done. destruct current as [[name ps]|]; [|done].
    simpl. rewrite <- app_assoc. by destruct l.
Qed.

Lemma parse_header users current b : block_ok b ->
  parse_line (users, current) (print_header b) =
    (match current with Some u => users ++ [u] | None => users end,
     if String.eqb (block_name b) anonymousUserName then None else Some {| Name := block_name b; TopicPatterns := [] |}).
Proof. intros Hb. unfold parse_line. rewrite (read_header b Hb). by destruct (String.eqb _ _). Qed.

Definition real (b : block) : Prop := block_name b <> anonymousUserName.
#[local] Instance real_dec b : Decision (real b) := ltac:(unfold real; apply _).

Definition flush (st : list User * option User) : list User :=
  match st.2 with Some u => st.1 ++ [u] | None => st.1 end.

Lemma parse_blocks bs st : Forall block_ok bs ->
  flush (fold_left parse_line (bs ≫= block_text) st) = flush st ++ (user_of <$> filter real bs).
Proof.
  intros H. revert st. induction H as [|b bs Hb _ IH]; intros [users current]; [by rewrite app_nil_r|].
  rewrite bind_cons, fold_left_app. unfold block_text at 2. cbn [fold_left]. rewrite (parse_header _ _ _ Hb).
  destruct Hb as (_ & _ & _ & Hlines). rewrite parse_lines, IH by done. rewrite filter_cons.
  destruct (String.eqb_spec (block_name b) anonymousUserName) as [Hanon|Hreal].
  - rewrite decide_False; [by destruct current|]. intros Hr. by apply Hr.
  - rewrite decide_True by done. unfold flush. destruct current; simpl; by rewrite <- ?app_assoc.
Qed.

(** C30: the parser reads back the users of any listing ntfy prints: one user per block,
    in order, with the topics of its access lines in order, whatever the permission
    shown and whatever other lines the block has; the anonymous user's block, and its
    lines, are skipped. *)
Theorem parse_print bs : Forall block_ok bs -> parseUserBlocks (print bs) = user_of <$> filter real bs.
Proof.
  intros H. unfold parseUserBlocks, print. rewrite split_print.
  - rewrite fold_left_app. pose proof (parse_blocks bs ([], None) H) as Hp.
    destruct (fold_left parse_line (bs ≫= block_text) ([], None)) as [users current]. cbn [fold_left].
    assert (parse_line (users, current) "" = (users, current)) as -> by by destruct current. exact Hp.
  - apply Forall_bind. eapply Forall_impl; [exact H|]. intros b ([_ Hname] & [_ Hrole] & Hrest & Hlines). constructor.
    + unfold print_header. rewrite !print_app, Hrest, (graph_all _ Hname). rewrite (graph_all (block_role b)); [done|].
      eapply all_chars_impl; [exact lower_graph|done].
    + apply Forall_fmap. eapply Forall_impl; [exact Hlines|]. intros [kind topic|text]; simpl; [|by intros (? & _)].
      intros ([_ Hkind] & [_ Htopic]). rewrite !print_app, (graph_all _ Htopic). rewrite (graph_all kind); [done|].
      eapply all_chars_impl; [exact kind_graph|done].
Qed.
End ntfycli_props.
