(* ===== verification/Sha256.v ===== *)
(** * Sha256

    crypto/sha256 (FIPS 180-4), crypto/hmac over it, and the text encodings of their
    digests: encoding/base32 and encoding/hex. *)

From S2P Require Import Prelude GoText.
Open Scope Z_scope.

Module sha256.
Definition modulus : Z := 2 ^ 32.

Definition add (x y : Z) : Z := (x + y) mod modulus.
Definition rotr (n x : Z) : Z := Z.lor (Z.shiftr x n) (Z.shiftl x (32 - n) mod modulus).
Definition not32 (x : Z) : Z := modulus - 1 - x.

Definition Ch (x y z : Z) : Z := Z.lxor (Z.land x y) (Z.land (not32 x) z).
Definition Maj (x y z : Z) : Z := Z.lxor (Z.lxor (Z.land x y) (Z.land x z)) (Z.land y z).
Definition Sigma0 (x : Z) : Z := Z.lxor (Z.lxor (rotr 2 x) (rotr 13 x)) (rotr 22 x).
Definition Sigma1 (x : Z) : Z := Z.lxor (Z.lxor (rotr 6 x) (rotr 11 x)) (rotr 25 x).
Definition sigma0 (x : Z) : Z := Z.lxor (Z.lxor (rotr 7 x) (rotr 18 x)) (Z.shiftr x 3).
Definition sigma1 (x : Z) : Z := Z.lxor (Z.lxor (rotr 17 x) (rotr 19 x)) (Z.shiftr x 10).

Definition K : list Z := [
  1116352408; 1899447441; 3049323471; 3921009573; 961987163; 1508970993; 2453635748; 2870763221;
  3624381080; 310598401; 607225278; 1426881987; 1925078388; 2162078206; 2614888103; 3248222580;
  3835390401; 4022224774; 264347078; 604807628; 770255983; 1249150122; 1555081692; 1996064986;
  2554220882; 2821834349; 2952996808; 3210313671; 3336571891; 3584528711; 113926993; 338241895;
  666307205; 773529912; 1294757372; 1396182291; 1695183700; 1986661051; 2177026350; 2456956037;
  2730485921; 2820302411; 3259730800; 3345764771; 3516065817; 3600352804; 4094571909; 275423344;
  430227734; 506948616; 659060556; 883997877; 958139571; 1322822218; 1537002063; 1747873779;
  1955562222; 2024104815; 2227730452; 2361852424; 2428436474; 2756734187; 3204031479; 3329325298].

Definition H0 : list Z := [
  1779033703; 3144134277; 1013904242; 2773480762; 1359893119; 2600822924; 528734635; 1541459225].

(** The message padded to blocks of 64 bytes: a one bit, zeros, the length in bits. *)
Definition be_bytes (n : nat) (x : Z) : list Z := (fun i => Z.shiftr x (8 * Z.of_nat i) mod 256) <$> rev (seq 0 n).

Definition pad (msg : list Z) : list Z :=
  let n := Z.of_nat (length msg) in
  msg ++ [128] ++ replicate (Z.to_nat ((55 - n) mod 64)) 0 ++ be_bytes 8 (8 * n).

Definition be_word (bs : list Z) : Z := foldl (fun acc b => acc * 256 + b) 0 bs.

Fixpoint chunks {A} (fuel n : nat) (l : list A) : list (list A) :=
  match fuel, l with
  | S fuel, _ :: _ => take n l :: chunks fuel n (drop n l)
  | _, _ => []
  end.

(** The words of the schedule, last first: [extend n] appends [n] of them. *)
Fixpoint extend (n : nat) (ws : list Z) : list Z :=
  match n with
  | O => ws
  | S n =>
    let w i := nth i ws 0 in
    extend n (add (add (sigma1 (w 1%nat)) (w 6%nat)) (add (sigma0 (w 14%nat)) (w 15%nat)) :: ws)
  end.

Definition schedule (block : list Z) : list Z := rev (extend 48 (rev (be_word <$> chunks 16 4 block))).

Record vars := { va : Z; vb : Z; vc : Z; vd : Z; ve : Z; vf : Z; vg : Z; vh : Z }.

Definition round (v : vars) (kw : Z * Z) : vars :=
  let t1 := add (add (add (vh v) (Sigma1 (ve v))) (Ch (ve v) (vf v) (vg v))) (add kw.1 kw.2) in
  let t2 := add (Sigma0 (va v)) (Maj (va v) (vb v) (vc v)) in
  {| va := add t1 t2; vb := va v; vc := vb v; vd := vc v; ve := add (vd v) t1; vf := ve v; vg := vf v; vh := vg v |}.

Definition to_vars (h : list Z) : vars :=
  let w i := nth i h 0 in
  {| va := w 0%nat; vb := w 1%nat; vc := w 2%nat; vd := w 3%nat; ve := w 4%nat; vf := w 5%nat; vg := w 6%nat; vh := w 7%nat |}.
Definition of_vars (v : vars) : list Z := [va v; vb v; vc v; vd v; ve v; vf v; vg v; vh v].

Definition block_step (h : list Z) (block : list Z) : list Z :=
  zip_with add h (of_vars (foldl round (to_vars h) (zip K (schedule block)))).

Definition blocks (msg : list Z) : list (list Z) := let p := pad msg in chunks (length p) 64 p.

(** [sha256.Sum256] *)
Definition Sum256 (msg : list Z) : list Z := foldl block_step H0 (blocks msg) ≫= be_bytes 4.
End sha256.

(** [hmac.New(sha256.New, key)] summed over a message *)
Module hmac.
Definition block_key (key : list Z) : list Z :=
  let k := if (64 <? length key)%nat then sha256.Sum256 key else key in
  k ++ replicate (64 - length k) 0.

Definition Sum (key msg : list Z) : list Z :=
  let k := block_key key in
  sha256.Sum256 ((Z.lxor 92 <$> k) ++ sha256.Sum256 ((Z.lxor 54 <$> k) ++ msg)).
End hmac.

(** [hex.EncodeToString] *)
Module hex.
Definition digit (n : Z) : Z := if n <? 10 then 48 + n else 87 + n.
Definition EncodeToString (bs : list Z) : string := of_bytes (bs ≫= (fun b => [digit (b / 16); digit (b mod 16)])).
End hex.

(** [base32.StdEncoding.EncodeToString]: five bits to a character of A-Z2-7, from the
    most significant; the last character is completed with zero bits and the text
    with = to a multiple of eight characters. *)
Module base32.
Definition char (n : Z) : Z := if n <? 26 then 65 + n else 24 + n.

Definition bits (n : nat) (b : Z) : list bool := (fun i => Z.testbit b (Z.of_nat i)) <$> rev (seq 0 n).
Definition of_bits (bs : list bool) : Z := foldl (fun acc b => 2 * acc + Z.b2z b) 0 bs.

Definition EncodeToString (bs : list Z) : string :=
  let stream := bs ≫= bits 8 in
  let groups := sha256.chunks (length stream) 5 stream in
  let chars := (fun g => char (of_bits (g ++ replicate (5 - length g) false))) <$> groups in
  of_bytes (chars ++ replicate ((8 - length chars mod 8) mod 8) 61).
End base32.

(** ** The shape of a digest and of its encoding *)

Lemma be_bytes_spec n x : length (sha256.be_bytes n x) = n /\ Forall (fun b => 0 <= b < 256) (sha256.be_bytes n x).
Proof.
  unfold sha256.be_bytes. rewrite length_fmap, length_rev, length_seq. split; [done|].
  apply Forall_fmap, Forall_true. intros i. apply Z.mod_pos_bound. lia.
Qed.

Lemma digest_words bs h : length h = 8%nat -> length (foldl sha256.block_step h bs) = 8%nat.
Proof. revert h. induction bs as [|b bs IH]; intros h Hh; simpl; [done|]. apply IH.
  unfold sha256.block_step. by rewrite length_zip_with, Hh. Qed.

(** A digest is 32 bytes. *)
Lemma Sum256_length msg : length (sha256.Sum256 msg) = 32%nat.
Proof.
  unfold sha256.Sum256. pose proof (digest_words (sha256.blocks msg) sha256.H0 eq_refl) as H.
  destruct (foldl _ _ _) as [|a [|b [|c [|d [|e [|f [|g [|h [|]]]]]]]]]; try done.
Qed.

Lemma Sum256_bytes msg : Forall (fun b => 0 <= b < 256) (sha256.Sum256 msg).
Proof.
  unfold sha256.Sum256. induction (foldl _ _ _) as [|w ws IH]; [constructor|].
  rewrite bind_cons. apply Forall_app. split; [apply be_bytes_spec|done].
Qed.

(** The chunks of a list long enough. *)
Lemma chunks_long {A} n (l : list A) k fuel : (0 < n)%nat -> (k * n <= length l)%nat -> (k <= fuel)%nat ->
  (k <= length (sha256.chunks fuel n l))%nat.
Proof.
  intros Hn. revert fuel l. induction k as [|k IH]; intros fuel l Hl Hf; [lia|].
  destruct fuel as [|fuel]; [lia|]. destruct l as [|a l]; [simpl in Hl; lia|]. cbn [sha256.chunks length].
  specialize (IH fuel (drop n (a :: l))). rewrite length_drop in IH. lia.
Qed.

Lemma chunks_short {A} n (l : list A) fuel : Forall (fun c => length c <= n)%nat (sha256.chunks fuel n l).
Proof.
  revert l. induction fuel as [|fuel IH]; intros [|a l]; simpl; constructor; [|done].
  rewrite length_take. lia.
Qed.

Lemma of_bits_bound bs : 0 <= base32.of_bits bs < 2 ^ Z.of_nat (length bs).
Proof.
  unfold base32.of_bits.
  enough (H : forall acc, acc * 2 ^ Z.of_nat (length bs) <= foldl (fun acc b => 2 * acc + Z.b2z b) acc bs
                        < (acc + 1) * 2 ^ Z.of_nat (length bs)).
  { specialize (H 0). lia. }
  induction bs as [|b bs IH]; intros acc; [simpl; lia|]. cbn [foldl length].
  specialize (IH (2 * acc + Z.b2z b)). rewrite Nat2Z.inj_succ, Z.pow_succ_r by lia.
  assert (0 <= Z.b2z b <= 1) by (destruct b; simpl; lia). nia.
Qed.

Lemma bits_length bs : length (bs ≫= base32.bits 8) = (8 * length bs)%nat.
Proof.
  induction bs as [|b bs IH]; [done|]. rewrite bind_cons, length_app, IH.
  unfold base32.bits. rewrite length_fmap, length_rev, length_seq. simpl. lia.
Qed.

(** Every character of the encoding but the padding is one of A-Z and 2-7, and a digest
    has sixteen of them. *)
Definition base32_byte (b : Z) : Prop := 65 <= b <= 90 \/ 50 <= b <= 55.

Lemma base32_prefix msg : exists cs, length cs = 16%nat /\ Forall base32_byte cs /\
  take 16 (bytes (base32.EncodeToString (sha256.Sum256 msg))) = cs.
Proof.
  unfold base32.EncodeToString. set (stream := sha256.Sum256 msg ≫= base32.bits 8).
  assert (Hlen : (16 * 5 <= length stream)%nat).
  { unfold stream. rewrite bits_length, Sum256_length. lia. }
  cbv zeta. set (chars := _ <$> sha256.chunks (length stream) 5 stream).
  assert (Hchars : Forall base32_byte chars /\ (16 <= length chars)%nat).
  { unfold chars. rewrite length_fmap. split; [|apply chunks_long; lia].
    apply Forall_fmap. eapply Forall_impl; [apply chunks_short|]. intros g Hg. simpl.
    pose proof (of_bits_bound (g ++ replicate (5 - length g) false)) as Hb.
    rewrite length_app, length_replicate in Hb. replace (length g + (5 - length g))%nat with 5%nat in Hb by (simpl in Hg; lia).
    change (2 ^ Z.of_nat 5) with 32 in Hb. unfold base32_byte, base32.char.
    destruct (Z.ltb_spec (base32.of_bits (g ++ replicate (5 - length g) false)) 26); lia. }
  destruct Hchars as [Hall H16]. exists (take 16 chars). split_and!.
  - rewrite length_take. lia.
  - by apply Forall_take.
  - rewrite bytes_of_bytes; [by rewrite take_app_le|]. apply Forall_app. split.
    + eapply Forall_impl; [exact Hall|]. unfold base32_byte. simpl. lia.
    + apply Forall_replicate. lia.
Qed.

(** The digests of the standard's examples. *)
Example Sum256_abc : hex.EncodeToString (sha256.Sum256 (bytes "abc")) =
  "ba7816bf8f01cfea414140de5dae2223b00361a396177a9cb410ff61f20015ad".
Proof. vm_compute. reflexivity. Qed.

Example Sum256_two_blocks :
  hex.EncodeToString (sha256.Sum256 (bytes "abcdbcdecdefdefgefghfghighijhijkijkljklmklmnlmnomnopnopq")) =
  "248d6a61d20638b8e5c026930c3e6039a33ce45964ff2167f6ecedd419db06c1".
Proof. vm_compute. reflexivity. Qed.

Example hmac_rfc4231 : hex.EncodeToString (hmac.Sum (bytes "Jefe") (bytes "what do ya want for nothing?")) =
  "5bdcc146bf60754e6a042426089575c75a003f089d2739839dec58b964ec3843".
Proof. vm_compute. reflexivity. Qed.

Example base32_foobar : base32.EncodeToString (bytes "fooba") = "MZXW6YTB" /\ base32.EncodeToString (bytes "foo") = "MZXW6===".
Proof. vm_compute. done. Qed.
