(* ===== verification/Base64.v ===== *)
(** * Base64

    encoding/base64's [RawURLEncoding]: six bits to a character of A-Za-z0-9 and the
    dash and underscore, from the most significant, without padding. *)

From S2P Require Import Prelude GoText Sha256.
Open Scope Z_scope.

Module base64url.
Definition char (n : Z) : Z :=
  if n <? 26 then 65 + n else if n <? 52 then 71 + n else if n <? 62 then n - 4
  else if n =? 62 then 45 else 95.

Definition char_val (b : Z) : option Z :=
  if (65 <=? b) && (b <=? 90) then Some (b - 65)
  else if (97 <=? b) && (b <=? 122) then Some (b - 71)
  else if (48 <=? b) && (b <=? 57) then Some (b + 4)
  else if b =? 45 then Some 62 else if b =? 95 then Some 63 else None.

(** A group of bits completed on the right with zeros to [n] of them. *)
Definition complete (n : nat) (g : list bool) : list bool := g ++ replicate (n - length g) false.

(** [RawURLEncoding.EncodeToString] *)
Definition EncodeToString (bs : list Z) : string :=
  let stream := bs ≫= base32.bits 8 in
  of_bytes ((fun g => char (base32.of_bits (complete 6 g))) <$> sha256.chunks (length stream) 6 stream).

(** The whole bytes of a stream of bits; what is left over is not looked at. *)
Fixpoint whole_bytes (fuel : nat) (stream : list bool) : list Z :=
  match fuel with
  | S fuel => if (length stream <? 8)%nat then [] else base32.of_bits (take 8 stream) :: whole_bytes fuel (drop 8 stream)
  | O => []
  end.

(** [RawURLEncoding.DecodeString]: line breaks are skipped, any other character outside
    the alphabet and a lone last character are errors. *)
Definition DecodeString (s : string) : option (list Z) :=
  let cs := filter (fun b => b <> 10 /\ b <> 13) (bytes s) in
  if (length cs mod 4 =? 1)%nat then None
  else
    vs ← mapM char_val cs;
    let stream := vs ≫= base32.bits 6 in
    Some (whole_bytes (length stream) stream).

(** ** Bits *)

Lemma char_val_char n : 0 <= n < 64 -> char_val (char n) = Some n.
Proof.
  unfold char, char_val. intros H.
  repeat match goal with |- context [Z.ltb ?a ?b] => destruct (Z.ltb_spec a b) | |- context [Z.eqb ?a ?b] => destruct (Z.eqb_spec a b)
    | |- context [Z.leb ?a ?b] => destruct (Z.leb_spec a b) end; simpl; try lia; f_equal; lia.
Qed.

Definition char_byte (b : Z) : Prop := 65 <= b <= 90 \/ 97 <= b <= 122 \/ 48 <= b <= 57 \/ b = 45 \/ b = 95.

Lemma char_shape n : 0 <= n < 64 -> char_byte (char n).
Proof.
  unfold char, char_byte. intros H.
  repeat match goal with |- context [Z.ltb ?a ?b] => destruct (Z.ltb_spec a b) | |- context [Z.eqb ?a ?b] => destruct (Z.eqb_spec a b) end; lia.
Qed.

Lemma bits_S n b : base32.bits (S n) b = Z.testbit b (Z.of_nat n) :: base32.bits n b.
Proof. unfold base32.bits. rewrite seq_S, rev_app_distr. done. Qed.

Lemma bits_shift n a b : 0 <= b < 2 ^ Z.of_nat n -> base32.bits n (a * 2 ^ Z.of_nat n + b) = base32.bits n b.
Proof.
  intros Hb. unfold base32.bits. apply list_fmap_ext. intros i k Hk.
  apply list_elem_of_lookup_2, list_elem_of_In, in_rev, in_seq in Hk.
  rewrite <- (Z.mod_pow2_bits_low _ (Z.of_nat n)) by lia.
  rewrite Z.add_comm, Z.mod_add by lia. rewrite Z.mod_small by done. done.
Qed.

Lemma of_bits_cons b bs : base32.of_bits (b :: bs) = Z.b2z b * 2 ^ Z.of_nat (length bs) + base32.of_bits bs.
Proof.
  unfold base32.of_bits. cbn [foldl].
  enough (H : forall acc, foldl (fun acc b => 2 * acc + Z.b2z b) acc bs
    = acc * 2 ^ Z.of_nat (length bs) + foldl (fun acc b => 2 * acc + Z.b2z b) 0 bs) by (rewrite H; f_equal; lia).
  induction bs as [|c bs IH]; intros acc; [simpl; lia|]. cbn [foldl length].
  rewrite IH, (IH (2 * 0 + Z.b2z c)), Nat2Z.inj_succ, Z.pow_succ_r by lia. lia.
Qed.

(** Reading back the bits of a number, and the number of some bits. *)
Lemma bits_of_bits bs : base32.bits (length bs) (base32.of_bits bs) = bs.
Proof.
  induction bs as [|b bs IH]; [done|]. cbn [length]. rewrite bits_S, of_bits_cons.
  pose proof (of_bits_bound bs) as Hb. rewrite bits_shift, IH by done. f_equal.
  apply Z.b2z_inj. rewrite Z.testbit_spec', Z.div_add_l, Z.div_small by lia. by destruct b.
Qed.

Lemma bits_length1 n b : length (base32.bits n b) = n.
Proof. unfold base32.bits. by rewrite length_fmap, length_rev, length_seq. Qed.

Lemma of_bits_bits n b : 0 <= b < 2 ^ Z.of_nat n -> base32.of_bits (base32.bits n b) = b.
Proof.
  revert b. induction n as [|n IH]; intros b Hb.
  { change (2 ^ Z.of_nat 0) with 1 in Hb. change (0 = b). lia. }
  rewrite bits_S, of_bits_cons, bits_length1.
  rewrite Nat2Z.inj_succ, Z.pow_succ_r in Hb by lia.
  set (p := 2 ^ Z.of_nat n) in *. assert (Hp : 0 < p) by (unfold p; apply Z.pow_pos_nonneg; lia).
  pose proof (Z.div_mod b p ltac:(lia)) as Hdm. pose proof (Z.mod_pos_bound b p Hp).
  assert (Hq : b / p = 0 \/ b / p = 1) by nia.
  assert (Hbit : Z.b2z (Z.testbit b (Z.of_nat n)) = b / p).
  { rewrite Z.testbit_spec' by lia. fold p. destruct Hq as [-> | ->]; done. }
  rewrite Hbit. replace (base32.bits n b) with (base32.bits n (b mod p)).
  - rewrite IH by done. lia.
  - rewrite Hdm at 2. rewrite (Z.mul_comm p). by rewrite bits_shift.
Qed.

Lemma of_bits_pad k bs : base32.of_bits (bs ++ replicate k false) = base32.of_bits bs * 2 ^ Z.of_nat k.
Proof.
  induction bs as [|b bs IH]; cbn [app].
  - induction k as [|k IH]; [done|]. cbn [replicate]. by rewrite of_bits_cons, IH.
  - rewrite !of_bits_cons, IH, length_app, length_replicate, Nat2Z.inj_add, Z.pow_add_r by lia. lia.
Qed.

(** ** Groups *)

(** Splitting a stream into groups and completing the last one appends zeros. *)
Lemma chunks_complete fuel (stream : list bool) : (length stream <= fuel)%nat ->
  exists k, (sha256.chunks fuel 6 stream ≫= complete 6) = stream ++ replicate k false /\
    (k = (6 - length stream mod 6) mod 6)%nat.
Proof.
  revert stream. induction fuel as [|fuel IH]; intros stream Hf.
  { destruct stream; [|simpl in Hf; lia]. by exists 0%nat. }
  destruct stream as [|b stream]; [by exists 0%nat|]. cbn [sha256.chunks].
  change (take 6 (b :: stream) :: ?l) with ([take 6 (b :: stream)] ++ l).
  remember (b :: stream) as bs eqn:Ebs. assert (Hne : (0 < length bs)%nat) by (subst; simpl; lia). clear b stream Ebs.
  rewrite bind_app, bind_cons. change ([] ≫= complete 6) with (@nil bool). rewrite app_nil_r. unfold complete at 1. rewrite length_take.
  destruct (decide (6 <= length bs)%nat) as [Hlong|Hshort].
  - assert (Hm : (length (drop 6 bs) mod 6 = length bs mod 6)%nat).
    { rewrite length_drop. replace (length bs) with (length bs - 6 + 1 * 6)%nat at 2 by lia. by rewrite Nat.Div0.mod_add. }
    destruct (IH (drop 6 bs)) as (k & -> & ->); [rewrite length_drop; lia|]. rewrite Hm. eexists. split; [|done].
    rewrite Nat.min_l, Nat.sub_diag by done. simpl. by rewrite app_nil_r, app_assoc, take_drop.
  - rewrite drop_ge by lia. assert (sha256.chunks fuel 6 (@nil bool) = []) as -> by by destruct fuel.
    change ([] ≫= complete 6) with (@nil bool). rewrite app_nil_r, Nat.min_r, take_ge by lia. eexists. split; [done|].
    rewrite (Nat.mod_small (length bs)), Nat.mod_small by lia. done.
Qed.

Lemma chunks_len fuel stream : Forall (fun g : list bool => length (complete 6 g) = 6%nat) (sha256.chunks fuel 6 stream).
Proof.
  eapply Forall_impl; [apply chunks_short|]. intros g Hg. unfold complete. rewrite length_app, length_replicate. simpl in *. lia.
Qed.

(** The whole bytes of the bits of some bytes, with less than a byte after them. *)
Lemma whole_bytes_stream fuel bs rest : Forall (fun b => 0 <= b < 256) bs -> (length rest < 8)%nat ->
  (length bs <= fuel)%nat -> whole_bytes fuel ((bs ≫= base32.bits 8) ++ rest) = bs.
Proof.
  intros Hbs Hr. revert fuel. induction Hbs as [|b bs Hb _ IH]; intros fuel Hf.
  - simpl. destruct fuel; [done|]. cbn [whole_bytes]. destruct (Nat.ltb_spec (length rest) 8); [done|lia].
  - destruct fuel as [|fuel]; [simpl in Hf; lia|]. rewrite bind_cons, <- app_assoc. cbn [whole_bytes].
    rewrite length_app, bits_length1. destruct (Nat.ltb_spec (8 + length ((bs ≫= base32.bits 8) ++ rest)) 8); [lia|].
    rewrite take_app_length', drop_app_length' by (symmetry; apply bits_length1).
    rewrite of_bits_bits by done. f_equal. apply IH. simpl in Hf. lia.
Qed.

(** ** The encoding of some bytes *)

Lemma group_range g : length (complete 6 g) = 6%nat -> 0 <= base32.of_bits (complete 6 g) < 64.
Proof. intros H. pose proof (of_bits_bound (complete 6 g)) as Hb. by rewrite H in Hb. Qed.

Lemma encoded_bytes bs : bytes (EncodeToString bs) =
  (fun g => char (base32.of_bits (complete 6 g))) <$> sha256.chunks (length (bs ≫= base32.bits 8)) 6 (bs ≫= base32.bits 8).
Proof.
  unfold EncodeToString. apply bytes_of_bytes, Forall_fmap. eapply Forall_impl; [apply chunks_len|].
  intros g Hg%group_range. apply char_shape in Hg. unfold char_byte in Hg. simpl. lia.
Qed.

Lemma Encode_shape bs : Forall char_byte (bytes (EncodeToString bs)) /\
  (6 * length (bytes (EncodeToString bs)) = 8 * length bs + (6 - 8 * length bs mod 6) mod 6)%nat.
Proof.
  rewrite encoded_bytes. set (stream := bs ≫= base32.bits 8). split.
  - apply Forall_fmap. eapply Forall_impl; [apply chunks_len|]. intros g Hg%group_range. by apply char_shape.
  - destruct (chunks_complete (length stream) stream) as (k & Heq & Hk); [done|].
    rewrite length_fmap. assert (Hl : length (sha256.chunks (length stream) 6 stream ≫= complete 6) = (length stream + k)%nat)
      by by rewrite Heq, length_app, length_replicate.
    pose proof (chunks_len (length stream) stream) as Hc. revert Hl. subst k. unfold stream at 3 4. rewrite bits_length.
    intros <-. clear Heq. induction Hc as [|g gs Hg _ IH]; [done|]. rewrite bind_cons, length_app, <- IH, Hg. simpl. lia.
Qed.

(** Decoding an encoding gives the bytes back. *)
Lemma Decode_Encode bs : Forall (fun b => 0 <= b < 256) bs -> DecodeString (EncodeToString bs) = Some bs.
Proof.
  intros Hbs. destruct (Encode_shape bs) as [Hch Hlen]. unfold DecodeString. rewrite filter_id.
  2:{ eapply Forall_impl; [exact Hch|]. unfold char_byte. intros; lia. }
  destruct (Nat.eqb_spec (length (bytes (EncodeToString bs)) mod 4) 1) as [Hm|_].
  { exfalso. pose proof (Nat.div_mod_eq (length (bytes (EncodeToString bs))) 4).
    pose proof (Nat.mod_upper_bound (8 * length bs) 6). pose proof (Nat.mod_upper_bound (6 - 8 * length bs mod 6) 6). lia. }
  rewrite encoded_bytes. set (stream := bs ≫= base32.bits 8).
  set (gs := sha256.chunks (length stream) 6 stream). pose proof (chunks_len (length stream) stream) as Hgs. fold gs in Hgs.
  assert (Hvs : mapM char_val ((fun g => char (base32.of_bits (complete 6 g))) <$> gs)
    = Some ((fun g => base32.of_bits (complete 6 g)) <$> gs)).
  { apply mapM_Some, Forall2_fmap, Forall_Forall2_diag. eapply Forall_impl; [exact Hgs|].
    intros g Hg%group_range. by apply char_val_char. }
  rewrite Hvs. csimpl. clear Hvs.
  assert ((((fun g => base32.of_bits (complete 6 g)) <$> gs) ≫= base32.bits 6) = (gs ≫= complete 6)) as ->.
  { clear -Hgs. induction Hgs as [|g gs Hg _ IH]; [done|]. rewrite fmap_cons, !bind_cons, IH. f_equal.
    pose proof (bits_of_bits (complete 6 g)) as Hb. by rewrite Hg in Hb. }
  destruct (chunks_complete (length stream) stream) as (k & Heq & Hk); [done|]. fold gs in Heq. rewrite Heq. f_equal.
  apply whole_bytes_stream; [done| |]; rewrite ?length_app, ?length_replicate.
  - pose proof (Nat.mod_upper_bound (6 - length stream mod 6) 6). lia.
  - unfold stream. rewrite bits_length. lia.
Qed.
End base64url.

Example base64url_vectors : base64url.EncodeToString [251; 255; 191] = "-_-_" /\
  base64url.EncodeToString (bytes "fooba") = "Zm9vYmE" /\ base64url.DecodeString "Zm9v" = Some (bytes "foo").
Proof. vm_compute. done. Qed.
