(* ===== verification/Idents.v ===== *)
(** * Idents

    The identifiers every component shares: the app_id slug (package [appid]) and
    the person hash with the topic and username derived from it (package
    [personhash]). *)

From S2P Require Import Prelude GoText Utf8 Std Sha256.
Open Scope Z_scope.

Module appid.
Definition ErrInvalid : error := Sentinel "invalid app_id".

(** [^[a-z0-9][a-z0-9_]{0,62}$] *)
Definition Valid (appID : string) : bool := match_slug 62 appID.

Definition ValidateAppID (appID : string) : option error :=
  if negb (Valid appID) then Some ErrInvalid else None.

Lemma Valid_bounds appID : Valid appID = true -> 1 <= len appID <= 63.
Proof. intros H. by apply match_slug_spec in H as [? _]. Qed.
End appid.

Module personhash.
(** [[a-z2-7]] *)
Definition is_hash_char (c : ascii) : bool := is_lower c || in_range "2"%char "7"%char c.

Definition hashLength : Z := 16.
Definition ntfyUserPrefix : string := "u_".

Definition IsHash (value : string) : bool := match_repeat is_hash_char hashLength hashLength value.

Definition PersonChannelTopic (appID hash channel : string) : string :=
  appID +:+ "-" +:+ hash +:+ "-" +:+ channel.

Definition NtfyUserFromHash (hash : string) : string := ntfyUserPrefix +:+ hash.

Section hash.
Context `{Std}.

Definition Normalize (email : string) : string := strings_ToLower (of_bytes (TrimSpace (bytes email))).

(** [encoded[:hashLength]] does not panic: the encoding of a digest is longer. *)
Definition Hash (email : string) : string :=
  let digest := sha256.Sum256 (bytes (Normalize email)) in
  let encoded := base32.EncodeToString digest in
  strings_ToLower (of_bytes (take (Z.to_nat hashLength) (bytes encoded))).

Definition NtfyUser (email : string) : string := NtfyUserFromHash (Hash email).

Lemma Hash_shape {Hstd : StdLaws _} email : IsHash (Hash email) = true.
Proof.
  unfold Hash, IsHash, match_repeat. cbv zeta. change (Z.to_nat hashLength) with 16%nat.
  destruct (base32_prefix (bytes (Normalize email))) as (cs & Hlen & Hcs & ->).
  rewrite ToLower_ascii by (eapply Forall_impl; [exact Hcs|]; unfold base32_byte; simpl; lia).
  rewrite len_of_bytes, length_fmap, Hlen, all_chars_of_bytes. apply andb_true_iff. split; [done|].
  apply forallb_Forall, Forall_fmap. eapply Forall_impl; [exact Hcs|]. intros b Hb. simpl.
  unfold is_hash_char, is_lower, in_range, lower_byte.
  destruct Hb; destruct (Z.leb_spec 65 b), (Z.leb_spec b 90); simpl; try lia; rewrite !byte_val_of by lia;
    change (byte_val "a") with 97; change (byte_val "z") with 122; change (byte_val "2") with 50;
    change (byte_val "7") with 55; apply orb_true_iff; rewrite !andb_true_iff, !Z.leb_le; lia.
Qed.
End hash.
End personhash.

(** The golden vector of personhash_test.go and person-service. *)
Example Hash_golden : @personhash.Hash toy_std "  Alice@Example.COM " = "76gzqgp4byjl6dje".
Proof. vm_compute. reflexivity. Qed.

(** The dash separates: it is outside every slug, so the parts of a topic can be
    read back. *)
Lemma split_at_sep (p : ascii -> bool) c a a' b b' :
  p c = false -> all_chars p a = true -> all_chars p a' = true ->
  a +:+ String c b = a' +:+ String c b' -> a = a' /\ b = b'.
Proof.
  intros Hc. revert a'. induction a as [|x a IH]; intros [|x' a'] Ha Ha' H;
    rewrite ?string_app_nil, ?string_app_cons in H.
  - by injection H as ->.
  - injection H as <- _. simpl in Ha'. by rewrite Hc in Ha'.
  - injection H as -> _. simpl in Ha. by rewrite Hc in Ha.
  - injection H as <- H. simpl in Ha, Ha'. bool_hyps. destruct (IH a') as [-> ->]; done.
Qed.
