(* ===== verification/Seal.v ===== *)
(** * Seal

    Package [seal]: secrets sealed under a master key and bound to a context
    (AAD), with an optional previous key during a rotation window.  The AEAD
    (AES-256-GCM) is a parameter: a [cipher.AEAD] built from a key. *)

From S2P Require Import Prelude GoText.
Open Scope Z_scope.

Module seal.
Definition KeySize : Z := 32.
Definition formatVersion : Z := 1.
Definition nonceSize : nat := 12.
Definition tagSize : nat := 16.

Definition ErrMalformed : error := Sentinel "sealed value is malformed".
Definition ErrUnsupportedVersion : error := Sentinel "sealed value has an unsupported version".
Definition ErrDecrypt : error := Sentinel "sealed value could not be decrypted".
Definition errPreviousEqualsPrimary : error :=
  Sentinel "previous seal key must differ from the primary key".

Inductive KeyUsed : Type := KeyNone | KeyPrimary | KeyPrevious.

(** [cipher.AEAD] *)
Record AEAD := {
  aead_seal : list Z -> list Z -> list Z -> list Z;       (* nonce, plaintext, aad *)
  aead_open : list Z -> list Z -> list Z -> option (list Z) (* nonce, body, aad *)
}.

(** The documented contract of [cipher.NewGCM]: opening what was sealed with the
    same nonce and data gives the plaintext back, and sealing adds the tag. *)
Record AEAD_laws (a : AEAD) : Prop := {
  aead_roundtrip : forall nonce pt aad, aead_open a nonce (aead_seal a nonce pt aad) aad = Some pt;
  aead_overhead : forall nonce pt aad, length (aead_seal a nonce pt aad) = (length pt + tagSize)%nat
}.

Record Sealer := { aead : AEAD; previousAEAD : option AEAD }.

Section keys.
(** AES-256-GCM, keyed. *)
Context (gcm : list Z -> AEAD).

Definition newAEAD (key : list Z) : result AEAD :=
  if negb (Z.of_nat (length key) =? KeySize) then Err (errors_New "seal key must be 32 bytes")
  else Ok (gcm key).

Definition New (key : list Z) : result Sealer :=
  a ← newAEAD key; mret {| aead := a; previousAEAD := None |}.

Definition NewWithPrevious (primary previous : list Z) : result Sealer :=
  if (Z.of_nat (length primary) =? KeySize) && bool_decide (primary = previous)
  then Err errPreviousEqualsPrimary
  else
    sealer ← New primary;
    match newAEAD previous with
    | Ok p => mret {| aead := aead sealer; previousAEAD := Some p |}
    | Err e => Err (Wrap ("previous key: " +:+ Error e) [e])
    end.
End keys.

Definition HasPrevious (s : Sealer) : bool :=
  match previousAEAD s with Some _ => true | None => false end.
Definition PrimaryOnly (s : Sealer) : Sealer := {| aead := aead s; previousAEAD := None |}.

(** [nonce] is what the random source yields, or [None] when it fails. *)
Definition Seal (s : Sealer) (nonce : option (list Z)) (plaintext aad : list Z) : result (list Z) :=
  match nonce with
  | None => Err (errors_New "generate nonce")
  | Some nonce => Ok (formatVersion :: nonce ++ aead_seal (aead s) nonce plaintext aad)
  end.

Definition OpenReportingKey (s : Sealer) (sealed aad : list Z) : result (list Z) * KeyUsed :=
  if (length sealed <? 1 + nonceSize + tagSize)%nat then (Err ErrMalformed, KeyNone)
  else if negb (nth 0 sealed 0 =? formatVersion) then (Err ErrUnsupportedVersion, KeyNone)
  else
    let nonce := take nonceSize (drop 1 sealed) in
    let body := drop (1 + nonceSize) sealed in
    match aead_open (aead s) nonce body aad with
    | Some plaintext => (Ok plaintext, KeyPrimary)
    | None =>
      match previousAEAD s with
      | Some previous =>
        match aead_open previous nonce body aad with
        | Some plaintext => (Ok plaintext, KeyPrevious)
        | None => (Err ErrDecrypt, KeyNone)
        end
      | None => (Err ErrDecrypt, KeyNone)
      end
    end.

Definition Open (s : Sealer) (sealed aad : list Z) : result (list Z) :=
  (OpenReportingKey s sealed aad).1.

(** The parts of a sealed blob, read back. *)
Lemma OpenReportingKey_sealed s nonce body aad :
  length nonce = nonceSize -> (tagSize <= length body)%nat ->
  OpenReportingKey s (formatVersion :: nonce ++ body) aad =
    match aead_open (aead s) nonce body aad with
    | Some pt => (Ok pt, KeyPrimary)
    | None =>
      match previousAEAD s with
      | Some p => match aead_open p nonce body aad with
                  | Some pt => (Ok pt, KeyPrevious)
                  | None => (Err ErrDecrypt, KeyNone)
                  end
      | None => (Err ErrDecrypt, KeyNone)
      end
    end.
Proof.
  intros Hn Hb. unfold OpenReportingKey.
  destruct (Nat.ltb_spec (length (formatVersion :: nonce ++ body)) (1 + nonceSize + tagSize)) as [H|_].
  { cbn [length] in H. rewrite length_app, Hn in H. lia. }
  change (nth 0 (formatVersion :: nonce ++ body) 0 =? formatVersion) with true.
  cbn [negb]. cbv iota.
  change (drop 1 (formatVersion :: nonce ++ body)) with (nonce ++ body).
  change (drop (1 + nonceSize) (formatVersion :: nonce ++ body)) with (drop nonceSize (nonce ++ body)).
  rewrite (take_app_length' nonce body nonceSize) by done.
  rewrite (drop_app_length' nonce body nonceSize) by done.
  reflexivity.
Qed.

Lemma Seal_opens s nonce plaintext aad sealed : AEAD_laws (aead s) -> length nonce = nonceSize ->
  Seal s (Some nonce) plaintext aad = Ok sealed -> OpenReportingKey s sealed aad = (Ok plaintext, KeyPrimary).
Proof.
  intros Hlaws Hn [= <-]. rewrite OpenReportingKey_sealed; [by rewrite aead_roundtrip|done|].
  rewrite aead_overhead by done. lia.
Qed.

(** A failed open reports no key, and a successful one never does. *)
Lemma OpenReportingKey_key s sealed aad :
  (OpenReportingKey s sealed aad).2 = KeyNone <-> is_Ok (OpenReportingKey s sealed aad).1 = false.
Proof. unfold OpenReportingKey. repeat case_match; simpl; split; done. Qed.

(** ** Properties *)

(** Key rotation keeps every secret readable and lets the old key be retired.
    With [new] the sealer of the rotation window (its previous key is the key of
    [old]): a blob sealed by [old], which the new key does not authenticate, opens
    to its plaintext and is reported as the previous key's; resealed by [new] it
    opens with the primary key alone, while the old blob then no longer opens. *)
Theorem rotation_readable (old new : Sealer) nonce nonce' plaintext aad sealed resealed :
  AEAD_laws (aead old) -> AEAD_laws (aead new) ->
  length nonce = nonceSize -> length nonce' = nonceSize ->
  previousAEAD new = Some (aead old) ->
  aead_open (aead new) nonce (aead_seal (aead old) nonce plaintext aad) aad = None ->
  Seal old (Some nonce) plaintext aad = Ok sealed ->
  Seal new (Some nonce') plaintext aad = Ok resealed ->
  OpenReportingKey new sealed aad = (Ok plaintext, KeyPrevious) /\
  OpenReportingKey new resealed aad = (Ok plaintext, KeyPrimary) /\
  OpenReportingKey (PrimaryOnly new) resealed aad = (Ok plaintext, KeyPrimary) /\
  OpenReportingKey (PrimaryOnly new) sealed aad = (Err ErrDecrypt, KeyNone).
Proof.
  intros Hold Hnew Hlen Hlen' Hprev Hrej [= <-] [= <-].
  pose proof (aead_overhead _ Hold nonce plaintext aad).
  pose proof (aead_overhead _ Hnew nonce' plaintext aad).
  rewrite !OpenReportingKey_sealed by (done || lia). simpl.
  rewrite Hrej, Hprev, (aead_roundtrip _ Hold), (aead_roundtrip _ Hnew). done.
Qed.

(** A keyed checksum with the laws of an AEAD, for concrete runs. *)
Definition toy_aead (key : Z) : AEAD := {|
  aead_seal _ pt aad := pt ++ replicate tagSize (key + foldr Z.add 0 aad);
  aead_open _ body aad :=
    let n := (length body - tagSize)%nat in
    if bool_decide (body = take n body ++ replicate tagSize (key + foldr Z.add 0 aad))
    then Some (take n body) else None
|}.

Lemma toy_aead_laws key : AEAD_laws (toy_aead key).
Proof.
  split; intros; cbn [aead_open aead_seal toy_aead]; rewrite length_app, length_replicate; [|done].
  rewrite Nat.add_sub, take_app_length, bool_decide_eq_true_2 by done. done.
Qed.

Lemma rotation_readable_witness :
  let nonce := repeat 0 12 in
  let new := {| aead := toy_aead 7; previousAEAD := Some (toy_aead 1) |} in
  OpenReportingKey new (1 :: nonce ++ aead_seal (toy_aead 1) nonce [10; 20] [3]) [3] =
    (Ok [10; 20], KeyPrevious).
Proof.
  intros nonce new.
  refine (proj1 (rotation_readable {| aead := toy_aead 1; previousAEAD := None |} new
    nonce nonce [10; 20] [3] _ _ _ _ _ _ _ _ _ _)); try reflexivity; apply toy_aead_laws.
Defined.
End seal.
