(* ===== verification/Guard.v ===== *)
(** * Guard

    Package [transport], guard.go: which addresses an outbound request may dial. *)

From S2P Require Import Prelude GoText.
Open Scope Z_scope.

Module transport.
Definition ErrBlockedAddress : error := Sentinel "destination address is not allowed".
Definition ErrNotHTTPS : error := Sentinel "destination URL must use https".

(** [netip.Addr]: invalid (the zero value), IPv4, or IPv6 with a zone; the
    address is its big-endian value. *)
Inductive Addr : Type :=
  | AddrInvalid
  | Addr4 (v : Z)
  | Addr6 (v : Z) (zone : string).

Definition wf (a : Addr) : Prop :=
  match a with
  | AddrInvalid => True
  | Addr4 v => 0 <= v < 2 ^ 32
  | Addr6 v _ => 0 <= v < 2 ^ 128
  end.

Definition IsValid (a : Addr) : bool := match a with AddrInvalid => false | _ => true end.

(** [addr.Unmap()]: ::ffff:a.b.c.d is a.b.c.d. *)
Definition Unmap (a : Addr) : Addr :=
  match a with
  | Addr6 v _ => if Z.shiftr v 32 =? 65535 then Addr4 (Z.land v (2 ^ 32 - 1)) else a
  | _ => a
  end.
Definition WithZone (a : Addr) (z : string) : Addr :=
  match a with Addr6 v _ => Addr6 v z | _ => a end.

(** A prefix: its family, address and length. *)
Inductive Prefix : Type :=
  | Prefix4 (addr bits : Z)
  | Prefix6 (addr bits : Z).

(** [prefix.Contains(addr)]: same family, no zone, equal leading bits. *)
Definition Contains (p : Prefix) (a : Addr) : bool :=
  match p, a with
  | Prefix4 pa bits, Addr4 v => Z.shiftr v (32 - bits) =? Z.shiftr pa (32 - bits)
  | Prefix6 pa bits, Addr6 v zone =>
      String.eqb zone "" && (Z.shiftr v (128 - bits) =? Z.shiftr pa (128 - bits))
  | _, _ => false
  end.

Definition ip4 (a b c d : Z) : Z := a * 2 ^ 24 + b * 2 ^ 16 + c * 2 ^ 8 + d.
(** An IPv6 address from its leading 16-bit groups. *)
Definition ip6 (groups : list Z) : Z :=
  foldl (fun acc g => acc * 2 ^ 16 + g) 0 groups * 2 ^ (16 * (8 - Z.of_nat (length groups))).

Definition deniedPrefixes : list Prefix :=
  [ Prefix4 (ip4 0 0 0 0) 8;        (* "this network" *)
    Prefix4 (ip4 100 64 0 0) 10;    (* CGNAT *)
    Prefix4 (ip4 192 0 0 0) 24;     (* IETF protocol assignments *)
    Prefix4 (ip4 192 0 2 0) 24;     (* TEST-NET-1 *)
    Prefix4 (ip4 198 18 0 0) 15;    (* benchmarking *)
    Prefix4 (ip4 198 51 100 0) 24;  (* TEST-NET-2 *)
    Prefix4 (ip4 203 0 113 0) 24;   (* TEST-NET-3 *)
    Prefix4 (ip4 240 0 0 0) 4;      (* reserved *)
    Prefix6 (ip6 [0]) 96;           (* IPv4-compatible *)
    Prefix6 (ip6 [100; 65435]) 96;  (* NAT64 64:ff9b::/96 *)
    Prefix6 (ip6 [100; 65435; 1]) 48;  (* NAT64 local use 64:ff9b:1::/48 *)
    Prefix6 (ip6 [256]) 64;         (* discard-only 100::/64 *)
    Prefix6 (ip6 [8193; 0]) 32;     (* Teredo 2001::/32 *)
    Prefix6 (ip6 [8193; 3512]) 32;  (* documentation 2001:db8::/32 *)
    Prefix6 (ip6 [8194]) 16;        (* 6to4 2002::/16 *)
    Prefix6 (ip6 [16383]) 20;       (* documentation 3fff::/20 *)
    Prefix6 (ip6 [64512]) 7;        (* unique local fc00::/7 *)
    Prefix6 (ip6 [65216]) 10 ].     (* site-local fec0::/10 *)

(** The [netip.Addr] predicates of the standard library (on an unmapped,
    zoneless address). *)
Definition v6u16 (v : Z) : Z := Z.shiftr v 112.
Definition v4 (i : Z) (v : Z) : Z := Z.land (Z.shiftr v (24 - 8 * i)) 255.

Definition IsLoopback (a : Addr) : bool :=
  match a with Addr4 v => v4 0 v =? 127 | Addr6 v _ => v =? 1 | _ => false end.
Definition IsPrivate (a : Addr) : bool :=
  match a with
  | Addr4 v => (v4 0 v =? 10) || ((v4 0 v =? 172) && (Z.land (v4 1 v) 240 =? 16)) ||
               ((v4 0 v =? 192) && (v4 1 v =? 168))
  | Addr6 v _ => Z.land (v6u16 v) 65024 =? 64512
  | _ => false
  end.
Definition IsLinkLocalUnicast (a : Addr) : bool :=
  match a with
  | Addr4 v => (v4 0 v =? 169) && (v4 1 v =? 254)
  | Addr6 v _ => Z.land (v6u16 v) 65472 =? 65152
  | _ => false
  end.
Definition IsLinkLocalMulticast (a : Addr) : bool :=
  match a with
  | Addr4 v => (v4 0 v =? 224) && (v4 1 v =? 0) && (v4 2 v =? 0)
  | Addr6 v _ => Z.land (v6u16 v) 65295 =? 65282
  | _ => false
  end.
Definition IsInterfaceLocalMulticast (a : Addr) : bool :=
  match a with Addr6 v _ => Z.land (v6u16 v) 65295 =? 65281 | _ => false end.
Definition IsMulticast (a : Addr) : bool :=
  match a with
  | Addr4 v => Z.land (v4 0 v) 240 =? 224
  | Addr6 v _ => Z.land (v6u16 v) 65280 =? 65280
  | _ => false
  end.
Definition IsUnspecified (a : Addr) : bool :=
  match a with Addr4 v => v =? 0 | Addr6 v z => (v =? 0) && String.eqb z "" | _ => false end.

Definition IsPublicAddr (addr : Addr) : bool :=
  if negb (IsValid addr) then false
  else
    let addr := WithZone (Unmap addr) "" in
    if IsLoopback addr || IsPrivate addr || IsLinkLocalUnicast addr ||
       IsLinkLocalMulticast addr || IsInterfaceLocalMulticast addr || IsMulticast addr ||
       IsUnspecified addr
    then false
    else negb (existsb (fun p => Contains p addr) deniedPrefixes).

(** ** Properties *)

Lemma IsPublicAddr_denied addr p :
  In p deniedPrefixes -> Contains p (WithZone (Unmap addr) "") = true -> IsPublicAddr addr = false.
Proof.
  intros Hin Hc. unfold IsPublicAddr. repeat case_match; try done.
  apply negb_false_iff, existsb_exists. by exists p.
Qed.

(** The 32-bit address [a] written as an IPv6 one under a 96-bit prefix. *)
Lemma shiftr_embed p a : 0 <= a < 2 ^ 32 -> Z.shiftr (p * 2 ^ 32 + a) 32 = p.
Proof.
  intros H. rewrite Z.shiftr_div_pow2 by lia.
  rewrite Z.div_add_l by lia. rewrite Z.div_small by lia. lia.
Qed.
Lemma land_embed p a : 0 <= a < 2 ^ 32 -> Z.land (p * 2 ^ 32 + a) (2 ^ 32 - 1) = a.
Proof.
  intros H. change (2 ^ 32 - 1) with (Z.ones 32). rewrite Z.land_ones by lia.
  rewrite Z.add_comm, Z.mod_add by lia. by apply Z.mod_small.
Qed.

(** No IPv6 spelling of an IPv4 address escapes the guard.  For every IPv4
    address [a] and zone: the IPv4-mapped form ::ffff:a is public exactly when [a]
    itself is, the IPv4-compatible form ::a and the NAT64 form 64:ff9b::a are never
    public, and neither is any address of the 6to4 block of [a]. *)
Theorem IsPublicAddr_embedded_v4 a low zone :
  0 <= a < 2 ^ 32 -> 0 <= low < 2 ^ 80 ->
  IsPublicAddr (Addr6 (65535 * 2 ^ 32 + a) zone) = IsPublicAddr (Addr4 a) /\
  IsPublicAddr (Addr6 a zone) = false /\
  IsPublicAddr (Addr6 (ip6 [100; 65435] + a) zone) = false /\
  IsPublicAddr (Addr6 ((8194 * 2 ^ 32 + a) * 2 ^ 80 + low) zone) = false.
Proof.
  intros Ha Hlow.
  assert (H0 : Z.shiftr a 32 = 0) by (rewrite Z.shiftr_div_pow2 by lia; apply Z.div_small; lia).
  split_and!.
  - unfold IsPublicAddr at 1, Unmap. rewrite shiftr_embed, land_embed by done. done.
  - apply (IsPublicAddr_denied _ (Prefix6 (ip6 [0]) 96)); [simpl; tauto|].
    unfold Unmap. rewrite H0. cbn [WithZone]. change (_ =? 65535) with false. cbv iota.
    cbn [WithZone Contains]. change (128 - 96) with 32. rewrite H0. reflexivity.
  - apply (IsPublicAddr_denied _ (Prefix6 (ip6 [100; 65435]) 96)); [simpl; tauto|].
    assert (H1 : Z.shiftr (ip6 [100; 65435] + a) 32 = (100 * 2 ^ 16 + 65435) * 2 ^ 64)
      by exact (shiftr_embed ((100 * 2 ^ 16 + 65435) * 2 ^ 64) a Ha).
    unfold Unmap. rewrite H1. cbn [WithZone]. change (_ =? 65535) with false. cbv iota.
    cbn [WithZone Contains]. change (128 - 96) with 32. rewrite H1. reflexivity.
  - apply (IsPublicAddr_denied _ (Prefix6 (ip6 [8194]) 16)); [simpl; tauto|].
    assert (H1 : Z.shiftr ((8194 * 2 ^ 32 + a) * 2 ^ 80 + low) 112 = 8194).
    { rewrite Z.shiftr_div_pow2 by lia. symmetry.
      apply (Z.div_unique _ _ _ (a * 2 ^ 80 + low)); lia. }
    unfold Unmap. rewrite (proj2 (Z.eqb_neq _ 65535)).
    + cbn [WithZone Contains]. change (128 - 16) with 112. by rewrite H1.
    + rewrite Z.shiftr_div_pow2 by lia. intros H.
      assert (((8194 * 2 ^ 32 + a) * 2 ^ 80 + low) < 65536 * 2 ^ 32); [|lia].
      pose proof (Z.mul_div_le ((8194 * 2 ^ 32 + a) * 2 ^ 80 + low) (2 ^ 32)).
      pose proof (Z.mod_pos_bound ((8194 * 2 ^ 32 + a) * 2 ^ 80 + low) (2 ^ 32)).
      pose proof (Z.div_mod ((8194 * 2 ^ 32 + a) * 2 ^ 80 + low) (2 ^ 32)). lia.
Qed.

Lemma IsPublicAddr_embedded_v4_witness :
  IsPublicAddr (Addr6 (65535 * 2 ^ 32 + ip4 8 8 8 8) "eth0") = true.
Proof.
  rewrite (proj1 (IsPublicAddr_embedded_v4 (ip4 8 8 8 8) 0 "eth0"
    ltac:(vm_compute; split; congruence) ltac:(lia))).
  reflexivity.
Defined.
End transport.
