(* ===== verification/Registry.v ===== *)
(** * Registry

    Package [registry], its pure part: destinations, routes and their owners
    (types.go), route matching and destination use (match.go), validation
    (validate.go), masking (mask.go) and the registration-time URL check
    (ssrf.go). *)

From S2P Require Import Prelude GoText Utf8 Idents Std Guard.
Open Scope Z_scope.

Module registry.
Definition TypeNtfy : string := "ntfy".
Definition TypeDiscord : string := "discord".
Definition TypeWebhook : string := "webhook".

Definition OwnerOperator : string := "operator".
Definition OwnerApp : string := "app".

Definition RecipientDestinationName : string := "@recipient".

Definition ErrDestinationNotFound : error := Sentinel "destination not found".
Definition ErrDestinationExists : error := Sentinel "destination already exists".
Definition ErrDestinationInUse : error := Sentinel "destination is in use".
Definition ErrDestinationDisabled : error := Sentinel "destination is disabled".
Definition ErrUnknownDestination : error := Sentinel "unknown destination".
Definition ErrRotationUnsupported : error := Sentinel "destination type does not support rotation".
Definition ErrRouteNotFound : error := Sentinel "route not found".
Definition ErrRouteExists : error := Sentinel "route already exists".
Definition ErrNoPublisher : error := Sentinel "app has no ntfy publisher".
Definition ErrCheckViolation : error := Sentinel "request violates a data constraint".
Definition ErrURLCheckUnavailable : error := Sentinel "destination url check unavailable".

Record StoredDestination := {
  ID : Z;
  Name : string;
  Type_ : string;
  Config : gmap string string;
  SealedSecrets : list Z;
  Enabled : bool;
  DisabledReason : option string;
  OwnerKind : string;
  OwnerAppID : option string;
  CreatedAt : Z;
  UpdatedAt : Z
}.

Record StoredRoute := {
  Route_ID : Z;
  AppPattern : string;
  ChannelPattern : string;
  DestinationIDs : list Z;
  DestinationNames : list string;
  Route_Enabled : bool;
  Route_OwnerKind : string;
  Route_OwnerAppID : option string;
  Route_CreatedAt : Z;
  Route_UpdatedAt : Z
}.

Record DestinationView := {
  View_Name : string;
  View_Type : string;
  View_Enabled : bool;
  View_DisabledReason : option string;
  View_Config : gmap string string;
  View_Secrets : gmap string string;
  View_OwnerKind : string;
  View_OwnerAppID : option string;
  View_CreatedAt : Z;
  View_UpdatedAt : Z
}.

Record RouteView := {
  RouteView_ID : Z;
  RouteView_AppPattern : string;
  RouteView_ChannelPattern : string;
  RouteView_Destinations : list string;
  RouteView_Enabled : bool;
  RouteView_OwnerKind : string;
  RouteView_OwnerAppID : option string;
  RouteView_CreatedAt : Z;
  RouteView_UpdatedAt : Z
}.

Record ResolvedDestination := {
  Resolved_ID : Z;
  Resolved_Name : string;
  Resolved_Type : string;
  Resolved_Config : gmap string string;
  Resolved_Secrets : gmap string string
}.

(** ** match.go *)

Definition wildcardPattern : string := "*".

Definition MatchPattern (pattern value : string) : bool :=
  if String.eqb pattern wildcardPattern then true
  else match cut_suffix pattern wildcardPattern with
       | Some prefix => HasPrefix value prefix
       | None => String.eqb pattern value
       end.

Record DestinationMatch := { DestinationID : Z; RouteIDs : list Z }.

(** One destination id of a matching route: the route is added unless listed. *)
Definition add_match (routeID : Z) (acc : gmap Z (list Z)) (destinationID : Z) : gmap Z (list Z) :=
  let ids := default [] (acc !! destinationID) in
  if bool_decide (routeID ∈ ids) then acc else <[destinationID := ids ++ [routeID]]> acc.

Definition match_route (appID channel : string) (acc : gmap Z (list Z)) (route : StoredRoute)
    : gmap Z (list Z) :=
  if negb (Route_Enabled route) || negb (MatchPattern (AppPattern route) appID) ||
     negb (MatchPattern (ChannelPattern route) channel)
  then acc
  else foldl (add_match (Route_ID route)) acc (DestinationIDs route).

Definition match_le (left right : DestinationMatch) : Prop := DestinationID left <= DestinationID right.
#[global] Instance match_le_dec : RelDecision match_le.
Proof. intros a b. unfold match_le. apply _. Defined.

Definition MatchRoutes (routes : list StoredRoute) (appID channel : string) : list DestinationMatch :=
  let routeIDsByDestination := foldl (match_route appID channel) ∅ routes in
  merge_sort match_le
    ((fun p => {| DestinationID := p.1; RouteIDs := p.2 |}) <$> map_to_list routeIDsByDestination).

Definition DestinationUsableBy (ownerKind : string) (ownerAppID : option string) (appID : string) : bool :=
  if String.eqb ownerKind OwnerOperator then
    match ownerAppID with None => true | Some _ => false end
  else if String.eqb ownerKind OwnerApp then
    match ownerAppID with
    | Some owner => negb (String.eqb owner "") && String.eqb owner appID
    | None => false
    end
  else false.

Definition UsableBy (d : StoredDestination) (appID : string) : bool :=
  DestinationUsableBy (OwnerKind d) (OwnerAppID d) appID.

(** ** validate.go *)

Definition channelExact (s : string) : bool := match_slug 31 s.
Definition destinationName (s : string) : bool := match_slug 62 s.
(** [^[a-z0-9][a-z0-9_]{0,30}\*$] *)
Definition channelPrefix (s : string) : bool :=
  match cut_suffix s wildcardPattern with Some head => match_slug 30 head | None => false end.
Definition ntfyTopic (s : string) : bool := match_repeat is_word_dash 1 64 s.
(** [^tk_[a-z0-9]{29}$] *)
Definition ntfyAccessToken (s : string) : bool :=
  match cut_prefix "tk_" s with Some rest => match_repeat is_lower_digit 29 29 rest | None => false end.
(** [^/api/webhooks/[0-9]+/[A-Za-z0-9_-]+$] *)
Fixpoint digits_slash_token (seen : bool) (s : string) : bool :=
  match s with
  | EmptyString => false
  | String c rest =>
    if is_digit c then digits_slash_token true rest
    else seen && Ascii.eqb c "/"%char && (1 <=? len rest) && all_chars is_word_dash rest
  end.
Definition discordWebhookPath (s : string) : bool :=
  match cut_prefix "/api/webhooks/" s with Some rest => digits_slash_token false rest | None => false end.

Definition reservedEveryone : string := "everyone".
Definition maxURLLength : Z := 2048.
Definition httpsScheme : string := "https".
Definition minSigningSecretLength : Z := 32.
Definition maxSigningSecretLength : Z := 256.
Definition minRouteDestinations : Z := 1.
Definition maxRouteDestinations : Z := 20.
Definition maxReportedKeyLength : nat := 64.
Definition discordHosts : list string :=
  ["discord.com"; "discordapp.com"; "ptb.discord.com"; "canary.discord.com"].

Definition ValidateDestinationName (name : string) : option error :=
  if negb (destinationName name) then Some (ValidationError "invalid name") else None.

Definition ValidateDestinationType (destinationType : string) : option error :=
  if String.eqb destinationType TypeNtfy || String.eqb destinationType TypeDiscord ||
     String.eqb destinationType TypeWebhook
  then None else Some (ValidationError "invalid type").

Definition ValidateAppPattern (pattern : string) : option error :=
  if String.eqb pattern wildcardPattern then None
  else if String.eqb pattern reservedEveryone || negb (appid.Valid pattern)
  then Some (ValidationError "invalid app_pattern") else None.

Definition ValidateChannelPattern (pattern : string) : option error :=
  if String.eqb pattern wildcardPattern || channelExact pattern || channelPrefix pattern
  then None else Some (ValidationError "invalid channel_pattern").

(** [for _, name := range names { if !valid(name) || seen[name] ... }] *)
Fixpoint distinct_names (valid : string -> bool) (seen : gset string) (names : list string) : bool :=
  match names with
  | [] => true
  | name :: rest =>
    if negb (valid name) || bool_decide (name ∈ seen) then false
    else distinct_names valid ({[name]} ∪ seen) rest
  end.

Definition ValidateRouteDestinations (names : list string) : option error :=
  let n := Z.of_nat (length names) in
  if (n <? minRouteDestinations) || (maxRouteDestinations <? n)
  then Some (ValidationError "invalid destinations")
  else if distinct_names destinationName ∅ names then None
  else Some (ValidationError "invalid destinations").

(** [[^A-Za-z0-9_.-]] per character of the string: an unsafe rune, or an invalid
    byte, becomes one question mark. *)
Definition reported_rune (r : rune) : list Z :=
  match r with
  | Rune c enc =>
    if (c <? 128) && (is_word_dash (byte_of c) || (c =? 46)) then enc else [63]
  | Invalid _ => [63]
  end.
Definition reportableKey (key : string) : string :=
  let sanitized := decode (bytes key) ≫= reported_rune in
  of_bytes (take maxReportedKeyLength sanitized).

Definition rejectUnknownKeys (section : string) (fields : gmap string string) (allowed : list string)
    : option error :=
  let unknown := filter (fun key => key ∉ allowed) (elements (dom fields)) in
  match sort_strings unknown with
  | [] => None
  | first :: _ => Some (ValidationError ("unknown field " +:+ section +:+ "." +:+ reportableKey first))
  end.

(** [fields[key]]: the zero value when absent. *)
Definition field (fields : gmap string string) (key : string) : string := default EmptyString (fields !! key).

Definition validSigningSecret (secret : string) : bool :=
  if (len secret <? minSigningSecretLength) || (maxSigningSecretLength <? len secret) then false
  else all_chars (fun c => (32 <=? byte_val c) && (byte_val c <=? 126)) secret.

Section std.
Context `{Std}.

Definition parseHTTPSURL (rawURL : string) : option URL :=
  if maxURLLength <? len rawURL then None
  else match url_Parse rawURL with
       | None => None
       | Some parsed =>
         if negb (String.eqb (Scheme parsed) httpsScheme) || String.eqb (Hostname parsed) "" || User parsed
         then None else Some parsed
       end.

Definition validateNtfyFields (config secrets : gmap string string) : option error :=
  first_error
    [ rejectUnknownKeys "config" config ["topic"];
      rejectUnknownKeys "secrets" secrets ["access_token"];
      (if negb (ntfyTopic (field config "topic"))
       then Some (ValidationError "invalid config.topic") else None);
      match secrets !! "access_token" with
      | Some token => if negb (ntfyAccessToken token)
                      then Some (ValidationError "invalid secrets.access_token") else None
      | None => None
      end ].

Definition validateDiscordFields (config secrets : gmap string string) : option error :=
  first_error
    [ rejectUnknownKeys "config" config [];
      rejectUnknownKeys "secrets" secrets ["webhook_url"];
      match parseHTTPSURL (field secrets "webhook_url") with
      | Some parsed =>
        if negb (bool_decide (strings_ToLower (Host parsed) ∈ discordHosts)) ||
           negb (discordWebhookPath (EscapedPath parsed))
        then Some (ValidationError "invalid secrets.webhook_url") else None
      | None => Some (ValidationError "invalid secrets.webhook_url")
      end ].

Definition validateRotationFields (config secrets : gmap string string) : option error :=
  let previousSecret := secrets !! "signing_secret_previous" in
  let expiresAt := config !! "previous_secret_expires_at" in
  let hasPrevious := bool_decide (is_Some previousSecret) in
  let hasExpiry := bool_decide (is_Some expiresAt) in
  if hasPrevious && negb (validSigningSecret (default EmptyString previousSecret))
  then Some (ValidationError "invalid secrets.signing_secret_previous")
  else if negb (Bool.eqb hasPrevious hasExpiry)
  then Some (ValidationError
    "secrets.signing_secret_previous and config.previous_secret_expires_at must be set together")
  else match expiresAt with
       | Some expiry =>
         match rfc3339_Parse expiry with
         | None => Some (ValidationError "invalid config.previous_secret_expires_at")
         | Some _ => None
         end
       | None => None
       end.

Definition validateWebhookFields (config secrets : gmap string string) : option error :=
  first_error
    [ rejectUnknownKeys "config" config ["previous_secret_expires_at"];
      rejectUnknownKeys "secrets" secrets ["url"; "signing_secret"; "signing_secret_previous"];
      match parseHTTPSURL (field secrets "url") with
      | None => Some (ValidationError "invalid secrets.url") | Some _ => None end;
      (if negb (validSigningSecret (field secrets "signing_secret"))
       then Some (ValidationError "invalid secrets.signing_secret") else None);
      validateRotationFields config secrets ].

Definition ValidateDestinationFields (destinationType : string) (config secrets : gmap string string)
    : option error :=
  if String.eqb destinationType TypeNtfy then validateNtfyFields config secrets
  else if String.eqb destinationType TypeDiscord then validateDiscordFields config secrets
  else if String.eqb destinationType TypeWebhook then validateWebhookFields config secrets
  else Some (ValidationError "invalid type").

(** ** mask.go *)

Definition maskedValue : string := "****".
Definition maskedURLSuffix : string := "/****".
Definition maskKeepsHost (key : string) : bool :=
  String.eqb key "webhook_url" || String.eqb key "url".

Definition maskURL (rawURL : string) : string :=
  match url_Parse rawURL with
  | None => maskedValue
  | Some parsed =>
    if String.eqb (Host parsed) "" then maskedValue
    else "https://" +:+ Host parsed +:+ maskedURLSuffix
  end.

Definition MaskSecrets (secrets : gmap string string) : gmap string string :=
  map_imap (fun key value => Some (if maskKeepsHost key then maskURL value else maskedValue)) secrets.
End std.

(** ** Properties of matching *)

(** The route fires for the message and names the destination. *)
Definition fires (appID channel : string) (d : Z) (route : StoredRoute) : Prop :=
  Route_Enabled route = true /\ MatchPattern (AppPattern route) appID = true /\
  MatchPattern (ChannelPattern route) channel = true /\ d ∈ DestinationIDs route.

(** A pattern is a wildcard, a prefix or an exact value. *)
Lemma MatchPattern_spec pattern value :
  MatchPattern pattern value = true <->
    (exists prefix rest, pattern = prefix +:+ "*" /\ value = prefix +:+ rest) \/ pattern = value.
Proof.
  unfold MatchPattern. destruct (String.eqb_spec pattern wildcardPattern) as [->|Hne].
  { split; [|done]. intros _. left. by exists EmptyString, value. }
  unfold HasPrefix. destruct (cut_suffix pattern wildcardPattern) as [prefix|] eqn:E.
  - apply cut_suffix_spec in E. destruct (cut_prefix prefix value) as [rest|] eqn:E2.
    + apply cut_prefix_spec in E2. split; [|done]. intros _. left. by exists prefix, rest.
    + split; [done|]. intros [(p & rest & Hp & Hv)|Heq].
      * assert (cut_suffix pattern wildcardPattern = Some p) as Hc by by apply cut_suffix_spec.
        assert (cut_suffix pattern wildcardPattern = Some prefix) as Hc2 by by apply cut_suffix_spec.
        rewrite Hc in Hc2. injection Hc2 as ->.
        apply (proj2 (cut_prefix_spec prefix value rest)) in Hv. congruence.
      * subst value. rewrite (proj2 (cut_prefix_spec prefix pattern wildcardPattern)) in E2; done.
  - rewrite String.eqb_eq. split; [by right|]. intros [(p & rest & Hp & _)|]; [|done].
    apply (proj2 (cut_suffix_spec pattern wildcardPattern p)) in Hp. congruence.
Qed.

Lemma lookup_add_matches r ds (acc : gmap Z (list Z)) d :
  foldl (add_match r) acc ds !! d =
    if decide (d ∈ ds)
    then Some (let ids := default [] (acc !! d) in if decide (r ∈ ids) then ids else ids ++ [r])
    else acc !! d.
Proof.
  revert acc. induction ds as [|x ds IH]; intros acc.
  { destruct (decide (d ∈ [])) as [H|]; [by apply not_elem_of_nil in H|done]. }
  simpl. rewrite IH.
  assert (Hx : add_match r acc x !! d =
    if decide (d = x) then
      Some (let ids := default [] (acc !! d) in if decide (r ∈ ids) then ids else ids ++ [r])
    else acc !! d).
  { unfold add_match. destruct (decide (d = x)) as [->|Hne].
    - case_bool_decide as Hin; rewrite ?(decide_True _ _ Hin), ?(decide_False _ _ Hin).
      + destruct (acc !! x); [done|]. by apply not_elem_of_nil in Hin.
      + by rewrite lookup_insert_eq.
    - case_bool_decide; [done|]. by rewrite lookup_insert_ne. }
  rewrite Hx. destruct (decide (d = x)) as [->|Hne].
  - rewrite (decide_True (P := x ∈ x :: ds)) by set_solver. cbn [default].
    destruct (decide (x ∈ ds)); [|done]. f_equal. simpl.
    destruct (decide (r ∈ default [] (acc !! x))) as [Hin|Hin]; simpl.
    + by rewrite (decide_True _ _ Hin).
    + rewrite decide_True; [done|set_solver].
  - destruct (decide (d ∈ ds)) as [Hin|Hin].
    + by rewrite (decide_True (P := d ∈ x :: ds)) by set_solver.
    + by rewrite (decide_False (P := d ∈ x :: ds)) by set_solver.
Qed.

(** What the accumulator holds for a destination after some routes. *)
Definition matched (appID channel : string) (seen : list StoredRoute) (d : Z) (ids : list Z) : Prop :=
  NoDup ids /\ ids `sublist_of` (Route_ID <$> seen) /\
  forall r, r ∈ ids <-> exists route, route ∈ seen /\ Route_ID route = r /\ fires appID channel d route.

Lemma match_route_matched appID channel seen acc route d :
  matched appID channel seen d (default [] (acc !! d)) ->
  matched appID channel (seen ++ [route]) d
    (default [] (match_route appID channel acc route !! d)).
Proof.
  intros (Hnd & Hsub & Hin). unfold match_route.
  assert (Hskip : ~ fires appID channel d route ->
    matched appID channel (seen ++ [route]) d (default [] (acc !! d))).
  { intros Hno. split_and!; [done| |].
    - rewrite fmap_app. by apply sublist_inserts_r.
    - intros r. rewrite Hin. split.
      + intros (rt & ? & ? & ?). exists rt. set_solver.
      + intros (rt & Hrt & ? & ?). exists rt. apply elem_of_app in Hrt as [?|Hrt]; [done|].
        apply list_elem_of_singleton in Hrt as ->. done. }
  destruct (negb _ || _ || _) eqn:Hc.
  { apply Hskip. intros (He & Ha & Hch & _). rewrite He, Ha, Hch in Hc. done. }
  bool_hyps. rewrite lookup_add_matches. destruct (decide (d ∈ DestinationIDs route)) as [Hd|Hd].
  2:{ apply Hskip. intros (_ & _ & _ & ?). done. }
  set (ids := default [] (acc !! d)) in *. simpl.
  assert (Hf : fires appID channel d route) by done.
  split_and!.
  - destruct (decide _) as [|Hr]; [done|]. apply NoDup_app. split_and!; [done| |apply NoDup_singleton].
    intros x Hx Hx'. apply list_elem_of_singleton in Hx' as ->. done.
  - rewrite fmap_app. destruct (decide _); [by apply sublist_inserts_r|].
    by apply sublist_app.
  - intros r. assert (Hr : r ∈ (if decide (Route_ID route ∈ ids) then ids else ids ++ [Route_ID route])
      <-> r ∈ ids \/ r = Route_ID route).
    { destruct (decide _) as [Hi|Hi].
      - split; [by left|]. by intros [? | ->].
      - by rewrite elem_of_app, list_elem_of_singleton. }
    rewrite Hr, Hin. split.
    + intros [(rt & ? & ? & ?)| ->]; [exists rt|exists route]; set_solver.
    + intros (rt & Hrt & Hid & ?). apply elem_of_app in Hrt as [?|Hrt]; [left; by exists rt|].
      apply list_elem_of_singleton in Hrt as ->. by right.
Qed.

Lemma foldl_match_route_matched appID channel routes d :
  matched appID channel routes d
    (default [] (foldl (match_route appID channel) ∅ routes !! d)).
Proof.
  induction routes as [|route routes IH] using rev_ind.
  - cbn [foldl]; rewrite lookup_empty. split_and!; [constructor|done|].
    intros r. simpl. split; [by intros ?%not_elem_of_nil|].
    intros (rt & Hrt & _). by apply not_elem_of_nil in Hrt.
  - rewrite foldl_app. by apply match_route_matched.
Qed.

(** An entry is never made without a route. *)
Lemma foldl_match_route_nonempty appID channel routes d ids :
  foldl (match_route appID channel) ∅ routes !! d = Some ids -> ids <> [].
Proof.
  revert ids. induction routes as [|route routes IH] using rev_ind; intros ids; [done|].
  rewrite foldl_app. simpl. unfold match_route at 1. case_match; [apply IH|].
  rewrite lookup_add_matches. case_decide; [|apply IH].
  intros [= <-]. simpl. case_decide as Hi; [intros Hn; rewrite Hn in Hi; by apply not_elem_of_nil in Hi|].
  intros Hn. by apply app_nil in Hn as [_ ?].
Qed.

#[global] Instance match_le_total : Total match_le.
Proof. intros a b. unfold match_le. lia. Qed.
#[global] Instance match_le_trans : Transitive match_le.
Proof. intros a b c. unfold match_le. lia. Qed.

Lemma elem_of_MatchRoutes routes appID channel m :
  m ∈ MatchRoutes routes appID channel <->
  foldl (match_route appID channel) ∅ routes !! DestinationID m = Some (RouteIDs m).
Proof.
  unfold MatchRoutes. rewrite merge_sort_Permutation, list_elem_of_fmap.
  split.
  - intros ([d ids] & -> & Hin). by apply elem_of_map_to_list in Hin.
  - intros H. exists (DestinationID m, RouteIDs m). split; [by destruct m|].
    by apply elem_of_map_to_list.
Qed.

Lemma MatchRoutes_ids_NoDup routes appID channel :
  NoDup (DestinationID <$> MatchRoutes routes appID channel).
Proof.
  unfold MatchRoutes. rewrite merge_sort_Permutation, <- list_fmap_compose.
  apply NoDup_fst_map_to_list.
Qed.

Lemma StronglySorted_lt (l : list DestinationMatch) :
  StronglySorted match_le l -> NoDup (DestinationID <$> l) ->
  StronglySorted Z.lt (DestinationID <$> l).
Proof.
  induction 1 as [|m l Hs IH Hall]; [constructor|]. csimpl.
  intros [Hnot Hnd]%NoDup_cons. constructor; [by apply IH|].
  apply Forall_fmap. rewrite Forall_forall in Hall |- *. intros m' Hm'.
  pose proof (Hall m' Hm'). unfold match_le in *. simpl.
  destruct (decide (DestinationID m = DestinationID m')) as [He|]; [|lia].
  exfalso. apply Hnot. rewrite He. by apply list_elem_of_fmap_2.
Qed.

Lemma MatchRoutes_spec routes appID channel :
  StronglySorted Z.lt (DestinationID <$> MatchRoutes routes appID channel) /\
  (forall d, d ∈ DestinationID <$> MatchRoutes routes appID channel <->
     exists route, route ∈ routes /\ fires appID channel d route) /\
  Forall (fun m => matched appID channel routes (DestinationID m) (RouteIDs m))
    (MatchRoutes routes appID channel).
Proof.
  assert (Hm : forall m, m ∈ MatchRoutes routes appID channel ->
    matched appID channel routes (DestinationID m) (RouteIDs m) /\ RouteIDs m <> []).
  { intros m Hm. apply elem_of_MatchRoutes in Hm.
    pose proof (foldl_match_route_matched appID channel routes (DestinationID m)) as H.
    rewrite Hm in H. split; [done|]. by eapply foldl_match_route_nonempty. }
  split_and!.
  - apply StronglySorted_lt; [|apply MatchRoutes_ids_NoDup].
    apply StronglySorted_merge_sort; apply _.
  - intros d. rewrite list_elem_of_fmap. split.
    + intros (m & -> & Hin). destruct (Hm m Hin) as [(_ & _ & Hids) Hne].
      destruct (RouteIDs m) as [|r ids]; [done|].
      destruct (proj1 (Hids r)) as (route & ? & _ & ?); [by left|]. by exists route.
    + intros (route & Hin & Hf).
      pose proof (foldl_match_route_matched appID channel routes d) as (_ & _ & Hids).
      assert (Hr : Route_ID route ∈ default [] (foldl (match_route appID channel) ∅ routes !! d))
        by (apply Hids; by exists route).
      destruct (foldl _ _ _ !! d) as [ids|] eqn:E; [|by apply not_elem_of_nil in Hr].
      exists {| DestinationID := d; RouteIDs := ids |}. split; [done|].
      by apply elem_of_MatchRoutes.
  - apply Forall_forall. intros m Hin. by apply Hm.
Qed.

(** Route matching is exact.  The matches are in strictly ascending destination
    id order (so a destination fires at most once); a destination is among them
    exactly when some enabled route whose app and channel patterns both match names
    it; and each match carries exactly the ids of those routes, without repeats, in
    route order. *)
Theorem MatchRoutes_exact routes appID channel :
  StronglySorted Z.lt (DestinationID <$> MatchRoutes routes appID channel) /\
  (forall d, d ∈ DestinationID <$> MatchRoutes routes appID channel <->
     exists route, route ∈ routes /\ fires appID channel d route) /\
  Forall (fun m => matched appID channel routes (DestinationID m) (RouteIDs m))
    (MatchRoutes routes appID channel).
Proof. exact (MatchRoutes_spec routes appID channel). Qed.
End registry.
