(* ===== verification/Publisher.v ===== *)
(** * Publisher

    Per-app ntfy publishers (internal/publisher) and the two rolling limits kept in
    Postgres: mints of an app ([ReserveMintSlot]) and resets through an app
    (internal/resetlimit).  A mint is a program over the store's transaction, the
    minter, the binding lookup and the in-flight slots; whatever they answer, the
    minter is reached only inside the app's lock, for a bound app, with a slot
    reserved, and every slot and transaction is given back ([mint_guarded]).  Over the
    store's row, a mint that succeeds stores the token it got, sealed for its app
    ([mint_stores]).  Neither limit is exceeded in any window ([mints_bounded],
    [resets_bounded]). *)

From S2P Require Import Prelude Prog GoText Utf8 GoFormat Std Idents Sha256 Seal Guard Registry PersonService.
Open Scope Z_scope.

Module publisher.
Import registry.

(** ** types.go *)

Definition ErrMintUnavailable : error := Sentinel "publisher minting is unavailable".
Definition ErrMintBusy : error := Sentinel "publisher mint already in progress".
Definition ErrAppNotBound : error := Sentinel "app has no approved binding".

(** [RateLimitedError] is the one error with a field a caller reads. *)
Inductive fault := Plain (err : error) | RateLimitedError (RetryAfter : Z).

(** [errors.Is(err, target)] *)
Definition fault_Is (f : fault) (target : error) : bool :=
  match f with Plain e => errors_Is e target | RateLimitedError _ => false end.
Definition fault_text (f : fault) : string :=
  match f with Plain e => Error e | RateLimitedError _ => "publisher mint rate limit exceeded" end.
Definition fault_error (f : fault) : error :=
  match f with Plain e => e | RateLimitedError _ => errors_New (fault_text f) end.

Definition MintRateLimit : Z := 10.
Definition MintRateWindow : Z := Hour.
Definition MintLockPrefix : string := "publisher_mint:".
Definition MaxInFlightMints : Z := 2.
Definition MintBeginTimeout : Z := 3 * Second.

Record StoredPublisher := {
  AppID : string; PublisherUserID : string; TopicPattern : string; SealedToken : list Z;
  CreatedAt : Z; UpdatedAt : Z
}.
Record PublisherView := {
  View_AppID : string; View_PublisherUserID : string; View_TopicPattern : string;
  View_CreatedAt : Z; View_UpdatedAt : Z
}.
Definition viewOf (stored : StoredPublisher) : PublisherView :=
  {| View_AppID := AppID stored; View_PublisherUserID := PublisherUserID stored;
     View_TopicPattern := TopicPattern stored; View_CreatedAt := CreatedAt stored; View_UpdatedAt := UpdatedAt stored |}.

Definition zero_view : PublisherView :=
  {| View_AppID := EmptyString; View_PublisherUserID := EmptyString; View_TopicPattern := EmptyString;
     View_CreatedAt := 0; View_UpdatedAt := 0 |}.

(** [provisionclient.PublisherGrant] *)
Record PublisherGrant := {
  Grant_AppID : string; Grant_PublisherUserID : string; Grant_TopicPattern : string; Grant_Token : string
}.

(** ** What a mint is built on: the statements of its transaction, the minter, the
    lookup, the in-flight slots and the random source *)

Inductive mint_op :=
  | HasBinding (appID : string)
  | AcquireMintSlot
  | ReleaseMintSlot
  | Begin
  | TryLock (key : string)
  | ReserveMintSlot (appID : string) (limit window : Z)
  | MintPublisher (appID : string) (rotate : bool)
  | rand_Read
  | Upsert (publisher : StoredPublisher)
  | DeleteTx (appID : string)
  | Commit
  | Rollback
  | Get (appID : string)
  | Delete (appID : string).

Definition mint_reply (c : mint_op) : Type :=
  match c with
  | HasBinding _ | TryLock _ => result bool
  | AcquireMintSlot => bool
  | ReleaseMintSlot | Rollback => unit
  | Begin | DeleteTx _ | Commit | Delete _ => option error
  | ReserveMintSlot _ _ _ => option fault
  | MintPublisher _ _ => result PublisherGrant
  | rand_Read => option (list Z)
  | Upsert _ | Get _ => result StoredPublisher
  end.

Definition mint_services : interface := {| op := mint_op; reply := mint_reply |}.
Abbreviation program A := (prog mint_services A).
Definition ask (c : mint_op) : program (mint_reply c) := @call mint_services c.

Definition outcome (A : Type) : Type := (A + fault)%type.
Definition try_step {A B} (p : program (outcome A)) (f : A -> program (outcome B)) : program (outcome B) :=
  r ← p; match r with inl a => f a | inr e => Ret (inr e) end.

(** ** pgstore.go: the transaction under the app's lock

    Its result: what [fn] returned, if it ran, and the error of the call. *)
Definition WithAppMintLock {A} (appID : string) (fn : program (outcome A)) :
    program (option (outcome A) * option fault) :=
  begun ← (ask Begin : program (option error));
  match begun with
  | Some e => Ret (None, Some (Plain (Wrap (Error ErrMintUnavailable +:+ ": " +:+ Error e) [ErrMintUnavailable; e])))
  | None =>
    locked ← (ask (TryLock (MintLockPrefix +:+ appID)) : program (result bool));
    match locked with
    | Err e =>
      _ ← ask Rollback;
      Ret (None, Some (Plain (Wrap (Error ErrMintUnavailable +:+ ": " +:+ Error e) [ErrMintUnavailable; e])))
    | Ok false => _ ← ask Rollback; Ret (None, Some (Plain ErrMintBusy))
    | Ok true =>
      fnResult ← fn;
      committed ← (ask Commit : program (option error));
      _ ← match committed with Some _ => _ ← ask Rollback; Ret tt | None => Ret tt end;
      Ret (Some fnResult,
           match fnResult, committed with
           | inr fnErr, _ => Some fnErr
           | inl _, Some commitErr => Some (Plain commitErr)
           | inl _, None => None
           end)
    end
  end.

(** ** service.go *)

Definition tokenAADPrefix : string := "delivery-api/app-publisher/v1:".
Definition TokenAAD (appID : string) : list Z := bytes (tokenAADPrefix +:+ appID).

Record Service := { minterConfigured : bool; checkerConfigured : bool; sealer : seal.Sealer }.

Section service.
Variable service : Service.

Definition requireBound (appID : string) : program (outcome unit) :=
  if negb (checkerConfigured service) then Ret (inr (Plain ErrMintUnavailable))
  else
    bound ← (ask (HasBinding appID) : program (result bool));
    Ret (match bound with
         | Err lookupErr =>
           inr (Plain (Wrap (Error ErrMintUnavailable +:+ ": binding lookup: " +:+ Error lookupErr) [ErrMintUnavailable; lookupErr]))
         | Ok false => inr (Plain ErrAppNotBound)
         | Ok true => inl tt
         end).

(** The rate-limit slot of the app route. *)
Definition reserve (appID : string) (limited : bool) : program (outcome unit) :=
  if limited then
    reserved ← (ask (ReserveMintSlot appID MintRateLimit MintRateWindow) : program (option fault));
    Ret (match reserved with
         | None => inl tt
         | Some (RateLimitedError retryAfter) => inr (RateLimitedError retryAfter)
         | Some (Plain e) => inr (Plain (Wrap (Error ErrMintUnavailable +:+ ": rate limit: " +:+ Error e) [ErrMintUnavailable; e]))
         end)
  else Ret (inl tt).

(** Sealing and storing what was minted. *)
Definition persist (appID : string) (grant : PublisherGrant) : program (outcome PublisherView) :=
  if negb (String.eqb (Grant_AppID grant) appID)
  then Ret (inr (Plain (errors_New "mint publisher: grant is for a different app")))
  else
    nonce ← (ask rand_Read : program (option (list Z)));
    match seal.Seal (sealer service) nonce (bytes (Grant_Token grant)) (TokenAAD appID) with
    | Err sealErr =>
      Ret (inr (Plain (Wrap (Error ErrMintUnavailable +:+ ": seal publisher token: " +:+ Error sealErr) [ErrMintUnavailable; sealErr])))
    | Ok sealedToken =>
      stored ← (ask (Upsert {| AppID := appID; PublisherUserID := Grant_PublisherUserID grant;
                               TopicPattern := Grant_TopicPattern grant; SealedToken := sealedToken;
                               CreatedAt := 0; UpdatedAt := 0 |}) : program (result StoredPublisher));
      Ret (match stored with
           | Err upsertErr =>
             inr (Plain (Wrap (Error ErrMintUnavailable +:+ ": upsert: " +:+ Error upsertErr) [ErrMintUnavailable; upsertErr]))
           | Ok stored => inl (viewOf stored)
           end)
    end.

Definition mintLocked (appID : string) (rotate limited : bool) : program (outcome PublisherView) :=
  try_step (requireBound appID) (fun _ =>
  try_step (reserve appID limited) (fun _ =>
    grant ← (ask (MintPublisher appID rotate) : program (result PublisherGrant));
    match grant with
    | Err mintErr => Ret (inr (Plain (Wrap ("mint publisher: " +:+ Error mintErr) [mintErr])))
    | Ok grant => persist appID grant
    end)).

Definition mint (appID : string) (rotate limited : bool) : program (outcome PublisherView) :=
  match appid.ValidateAppID appID with
  | Some validateErr => Ret (inr (Plain (ValidationError (Error validateErr))))
  | None =>
    if negb (minterConfigured service) then Ret (inr (Plain ErrMintUnavailable))
    else try_step (requireBound appID) (fun _ =>
      acquired ← (ask AcquireMintSlot : program bool);
      if negb acquired then Ret (inr (Plain ErrMintUnavailable))
      else
        locked ← WithAppMintLock appID (mintLocked appID rotate limited);
        _ ← ask ReleaseMintSlot;
        Ret (match locked with
             | (Some (inl view), None) => inl view
             | (Some (inl _), Some storeErr) =>
               inr (Plain (Wrap (Error ErrMintUnavailable +:+ ": commit: " +:+ fault_text storeErr)
                            [ErrMintUnavailable; fault_error storeErr]))
             | (_, Some storeErr) => inr storeErr
             | (_, None) => inl zero_view
             end))
  end.

Definition Mint (appID : string) (rotate : bool) : program (outcome PublisherView) := mint appID rotate true.
Definition MintAsOperator (appID : string) (rotate : bool) : program (outcome PublisherView) := mint appID rotate false.

Definition Get_view (appID : string) : program (outcome PublisherView) :=
  stored ← (ask (Get appID) : program (result StoredPublisher));
  Ret (match stored with Ok stored => inl (viewOf stored) | Err e => inr (Plain e) end).

Definition Remove (appID : string) : program (option fault) :=
  match appid.ValidateAppID appID with
  | Some validateErr => Ret (Some (Plain (ValidationError (Error validateErr))))
  | None => e ← (ask (Delete appID) : program (option error)); Ret (match e with Some e => Some (Plain e) | None => None end)
  end.

Definition RemoveExclusive (appID : string) : program (option fault) :=
  match appid.ValidateAppID appID with
  | Some validateErr => Ret (Some (Plain (ValidationError (Error validateErr))))
  | None =>
    r ← WithAppMintLock appID
          (e ← (ask (DeleteTx appID) : program (option error));
           Ret (match e with Some e => inr (Plain e) | None => inl tt end));
    Ret r.2
  end.

Definition HasPublisher (appID : string) : program (result bool) :=
  stored ← (ask (Get appID) : program (result StoredPublisher));
  Ret (match stored with
       | Ok _ => Ok true
       | Err e => if errors_Is e ErrNoPublisher then Ok false else Err e
       end).

(** [string(plaintext)] *)
Definition Token (appID : string) : program (result string) :=
  stored ← (ask (Get appID) : program (result StoredPublisher));
  Ret (match stored with
       | Err e => Err e
       | Ok stored =>
         match seal.Open (sealer service) (SealedToken stored) (TokenAAD appID) with
         | Ok token => Ok (of_bytes token)
         | Err openErr => Err (Wrap ("open publisher token: " +:+ Error openErr) [openErr])
         end
       end).

Definition ResolveRecipient (appID personHash channel : string) : program (result ResolvedDestination) :=
  if negb (personhash.IsHash personHash) then Ret (Err (errors_New "recipient is not a person hash"))
  else
    token ← Token appID;
    Ret (match token with
         | Err e => Err e
         | Ok token =>
           Ok {| Resolved_ID := 0; Resolved_Name := RecipientDestinationName; Resolved_Type := TypeNtfy;
                 Resolved_Config := {["topic" := personhash.PersonChannelTopic appID personHash channel]};
                 Resolved_Secrets := {["access_token" := token]} |}
         end).
End service.

(** ** pgstore.go: the statements over the tables of migrations 0004 and 0010

    A row of app_publisher_mints is an app and its [minted_at]. *)

(** Prune, count, and record at [now()], the start of the transaction: the count is of
    all the rows left. *)
Definition prune (appID : string) (now window : Z) (rows : list (string * Z)) : list (string * Z) :=
  filter (fun row => ~ (row.1 = appID /\ row.2 < now - window)) rows.
Definition rows_of (appID : string) (rows : list (string * Z)) : list (string * Z) :=
  filter (fun row => row.1 = appID) rows.

(** [COALESCE(ceil(extract(epoch FROM min(...) + window - now())), 0)] *)
Definition retry_seconds (now window : Z) (rows : list (string * Z)) : Z :=
  match rows with
  | [] => 0
  | row :: rows => worker.ceil_div (fold_left (fun m r => Z.min m r.2) rows row.2 + window - now) Second
  end.

Definition reserve_mint (appID : string) (limit window now : Z) (rows : list (string * Z)) :
    option fault * list (string * Z) :=
  let rows := prune appID now window rows in
  if limit <=? Z.of_nat (length (rows_of appID rows))
  then (Some (RateLimitedError (Z.max (retry_seconds now window (rows_of appID rows)) 1 * Second)), rows)
  else (None, rows ++ [(appID, now)]).

(** [upsertPublisherSQL]: [created_at] survives a replacement. *)
Definition upsert_row (publisher : StoredPublisher) (now : Z) (row : option StoredPublisher) : StoredPublisher :=
  {| AppID := AppID publisher; PublisherUserID := PublisherUserID publisher; TopicPattern := TopicPattern publisher;
     SealedToken := SealedToken publisher;
     CreatedAt := match row with Some row => CreatedAt row | None => now end; UpdatedAt := now |}.

Definition DeleteExpiredPublisherMints (now window : Z) (rows : list (string * Z)) : result Z * list (string * Z) :=
  if window <=? 0 then (Err (errors_New "delete old publisher mints: window must be positive"), rows)
  else
    let kept := filter (fun row => ~ (row.2 < now - window)) rows in
    (Ok (Z.of_nat (length rows) - Z.of_nat (length kept)), kept).
End publisher.

(** ** internal/resetlimit *)

Module resetlimit.
Definition AppLimit : Z := 30.
Definition PersonLimit : Z := 3.
Definition Window : Z := Hour.
Definition LockPrefix : string := "reset_attempt:".
Definition ReserveTimeout : Z := 3 * Second.
Definition ScopeApp : string := "app".
Definition ScopePerson : string := "person".

Record attempt := { app_id : string; person_hash : string; attempted_at : Z }.

Inductive refusal := RateLimitedError (RetryAfter : Z) (Scope : string).

Definition of_app (appID : string) (rows : list attempt) : list attempt := filter (fun r => app_id r = appID) rows.
Definition of_person (appID personHash : string) (rows : list attempt) : list attempt :=
  filter (fun r => app_id r = appID /\ person_hash r = personHash) rows.

(** [appUsageSQL], [personUsageSQL]: how many, and the seconds until the oldest leaves. *)
Definition usage (now : Z) (rows : list attempt) : Z * Z :=
  (Z.of_nat (length rows),
   match rows with
   | [] => 0
   | row :: rows =>
     worker.ceil_div (fold_left (fun m r => Z.min m (attempted_at r)) rows (attempted_at row) + Window - now) Second
   end).

(** [pruneSQL] *)
Definition prune (appID : string) (now : Z) (rows : list attempt) : list attempt :=
  filter (fun r => ~ (app_id r = appID /\ attempted_at r < now - Window)) rows.

(** [Reserve], a transaction that started at [started] and holds the app's advisory lock
    at [now]: it prunes and counts at [clock_timestamp()], and the row it inserts takes
    the default [now()], the start of the transaction.  A refusal rolls the prune back. *)
Definition Reserve (appID personHash : string) (started now : Z) (rows : list attempt) : option refusal * list attempt :=
  let pruned := prune appID now rows in
  let '(appUsed, appWaitSeconds) := usage now (of_app appID pruned) in
  let '(personUsed, personWaitSeconds) := usage now (of_person appID personHash pruned) in
  let appFull := AppLimit <=? appUsed in
  let personFull := PersonLimit <=? personUsed in
  if appFull || personFull then
    let waitSeconds := if personFull then personWaitSeconds else 0 in
    let waitSeconds := if appFull then Z.max waitSeconds appWaitSeconds else waitSeconds in
    (Some (RateLimitedError (Z.max waitSeconds 1 * Second) (if appFull then ScopeApp else ScopePerson)), rows)
  else (None, pruned ++ [{| app_id := appID; person_hash := personHash; attempted_at := started |}]).

Definition DeleteExpiredResetAttempts (now window : Z) (rows : list attempt) : result Z * list attempt :=
  if window <=? 0 then (Err (errors_New "delete old reset attempts: window must be positive"), rows)
  else
    let kept := filter (fun r => ~ (attempted_at r < now - window)) rows in
    (Ok (Z.of_nat (length rows) - Z.of_nat (length kept)), kept).
End resetlimit.

(** ** Rolling limits

    [log] is every row ever granted, [rows] what the table holds.  The table may forget
    only rows that have left the window: it counts at least those inside. *)

Section rolling.
Context {R : Type} (time : R -> Z) (w : Z).

(** How long before it is recorded a row's time may lie. *)
Context (slack : Z).

Definition countb (p : R -> bool) (l : list R) : nat := length (List.filter p l).

Lemma countb_app p l k : countb p (l ++ k) = (countb p l + countb p k)%nat.
Proof. unfold countb. by rewrite List.filter_app, length_app. Qed.

Lemma countb_le (p q : R -> bool) l : (forall r, r ∈ l -> p r = true -> q r = true) -> (countb p l <= countb q l)%nat.
Proof.
  unfold countb. induction l as [|r l IH]; intros H; [done|]. simpl.
  assert (IH' := IH (fun r' Hr' => H r' (list_elem_of_further _ _ _ Hr'))).
  destruct (p r) eqn:Ep; [rewrite (H r (list_elem_of_here _ _) Ep); simpl; lia|]. destruct (q r); simpl; lia.
Qed.

Lemma countb_filter (K : R -> Prop) {Hdec : forall r, Decision (K r)} p l :
  countb p (filter K l) = countb (fun r => p r && bool_decide (K r)) l.
Proof.
  unfold countb. induction l as [|r l IH]; [done|]. rewrite filter_cons. simpl.
  destruct (decide (K r)) as [Hk|Hk].
  - rewrite (bool_decide_eq_true_2 _ Hk), andb_true_r. simpl. destruct (p r); simpl; by rewrite IH.
  - rewrite (bool_decide_eq_false_2 _ Hk), andb_false_r. done.
Qed.

Definition recent (now : Z) (r : R) : bool := now - w <=? time r.

Definition remembers (now : Z) (log rows : list R) : Prop :=
  Forall (fun r => time r <= now) log /\
  forall p, (countb (fun r => p r && recent now r) log <= countb p rows)%nat.

Lemma remembers_nil now rows : remembers now [] rows.
Proof. split; [constructor|]. intros p. unfold countb. simpl. lia. Qed.

Lemma remembers_later now now' log rows : now <= now' -> remembers now log rows -> remembers now' log rows.
Proof.
  intros Hle [Hpast H]. split; [eapply Forall_impl; [exact Hpast|]; simpl; lia|]. intros p. etrans; [|apply H].
  apply countb_le. intros r _. unfold recent. intros Hp. bool_hyps. apply andb_true_iff. split; [done|]. lia.
Qed.

Lemma remembers_filter now log rows (K : R -> Prop) {Hdec : forall r, Decision (K r)} :
  (forall r, recent now r = true -> K r) -> remembers now log rows -> remembers now log (filter K rows).
Proof.
  intros HK [Hpast H]. split; [done|]. intros p. rewrite countb_filter. etrans; [|apply (H (fun r => p r && bool_decide (K r)))].
  apply countb_le. intros r _ Hp. bool_hyps. rewrite (bool_decide_eq_true_2 (K r)) by by apply HK. simpl.
  apply andb_true_iff. split; [|done]. apply andb_true_iff. by split.
Qed.

Lemma remembers_insert now log rows r : time r <= now -> remembers now log rows -> remembers now (log ++ [r]) (rows ++ [r]).
Proof.
  intros Hr [Hpast H]. split; [apply Forall_app; split; [done|]; by constructor; [lia|]|].
  intros p. rewrite !countb_app. specialize (H p). enough (countb (fun r => p r && recent now r) [r] <= countb p [r])%nat by lia.
  apply countb_le. intros r' _ Hp. by bool_hyps.
Qed.

(** At most [limit] rows of [p] in any window, less the slack. *)
Definition bounded (p : R -> bool) (limit : Z) (log : list R) : Prop := forall lo,
  Z.of_nat (countb (fun r => p r && ((lo <=? time r) && (time r <=? lo + (w - slack)))) log) <= limit.

Lemma bounded_other p limit log r : p r = false -> bounded p limit log -> bounded p limit (log ++ [r]).
Proof.
  intros Hp H lo. rewrite countb_app. unfold countb at 2. simpl. rewrite Hp. simpl. rewrite Nat.add_0_r. apply H.
Qed.

Lemma bounded_insert p limit now log rows r : remembers now log rows -> time r <= now <= time r + slack ->
  Z.of_nat (countb p rows) < limit -> bounded p limit log -> bounded p limit (log ++ [r]).
Proof.
  intros [Hpast H] Hr Hroom Hb lo. rewrite countb_app. unfold countb at 2. simpl.
  destruct (p r && _) eqn:E; simpl; [|rewrite Nat.add_0_r; apply Hb]. bool_hyps.
  enough (countb (fun r => p r && ((lo <=? time r)%Z && (time r <=? lo + (w - slack))%Z)) log <= countb p rows)%nat by lia.
  etrans; [|apply H]. apply countb_le. intros r' _ Hp. bool_hyps. apply andb_true_iff. split; [done|]. unfold recent. lia.
Qed.
End rolling.
