(* ===== verification/PublisherProps.v ===== *)
(** * PublisherProps

    The limits of mints and resets over any sequence of requests and sweeps, what a mint
    does whatever its surroundings answer, and the token it leaves in the store. *)

From S2P Require Import Prelude Prog GoText Utf8 GoFormat Std Idents Sha256 Seal Guard Registry PersonService Publisher.
Open Scope Z_scope.

(** ** Mints *)

Module publisher_limits.
Import publisher.

(** A mint whose transaction started at [started] and took the app's lock at [at_]
    reserves a slot, or the sweeper runs. *)
Inductive mint_event := Reserved (appID : string) (started at_ : Z) | Swept (now window : Z).
Definition event_time (e : mint_event) : Z := match e with Reserved _ _ at_ => at_ | Swept now _ => now end.

(** The rows of the table, and every row ever granted. *)
Definition mint_step (s : list (string * Z) * list (string * Z)) (e : mint_event) : list (string * Z) * list (string * Z) :=
  let '(rows, log) := s in
  match e with
  | Reserved appID started _ =>
    let '(refused, rows) := reserve_mint appID MintRateLimit MintRateWindow started rows in
    (rows, match refused with None => log ++ [(appID, started)] | Some _ => log end)
  | Swept now window => ((DeleteExpiredPublisherMints now window rows).2, log)
  end.
Definition mint_run (events : list mint_event) : list (string * Z) * list (string * Z) := fold_left mint_step events ([], []).

(** The events are in the order of their times, a lock is taken within [MintBeginTimeout]
    of the start of its transaction, and a sweep keeps at least a window. *)
Definition timed (e : mint_event) : Prop :=
  match e with
  | Reserved _ started at_ => started <= at_ <= started + MintBeginTimeout
  | Swept _ window => MintRateWindow <= window
  end.
Definition well_timed (events : list mint_event) : Prop :=
  StronglySorted Z.le (event_time <$> events) /\ Forall timed events.

Definition of_app (appID : string) (row : string * Z) : bool := String.eqb row.1 appID.

(** The rows granted to an app in a window. *)
Definition mints_within (appID : string) (lo hi : Z) (log : list (string * Z)) : list (string * Z) :=
  List.filter (fun row => of_app appID row && ((lo <=? row.2) && (row.2 <=? hi))) log.

Lemma of_app_rows appID rows : countb (of_app appID) rows = length (rows_of appID rows).
Proof.
  unfold countb, rows_of. induction rows as [|row rows IH]; [done|]. rewrite filter_cons. simpl. unfold of_app at 1.
  destruct (String.eqb_spec row.1 appID) as [->|Hne].
  - rewrite decide_True by done. simpl. by rewrite IH.
  - by rewrite decide_False.
Qed.

Lemma events_snoc {A} (f : A -> Z) l a : StronglySorted Z.le (f <$> (l ++ [a])) ->
  StronglySorted Z.le (f <$> l) /\ Forall (fun x => f x <= f a) l.
Proof.
  rewrite fmap_app. simpl. induction l as [|x l IH]; simpl; intros H; [split; constructor|].
  inversion H as [|? ? Hs Hf]; subst. apply IH in Hs as [Hs Hl]. apply Forall_app in Hf as [Hf Ha].
  inversion Ha; subst. split; by constructor.
Qed.

Lemma mint_run_inv appID events now : well_timed events -> Forall (fun e => event_time e <= now) events ->
  remembers snd MintRateWindow now (mint_run events).2 (mint_run events).1 /\
  bounded snd MintRateWindow MintBeginTimeout (of_app appID) MintRateLimit (mint_run events).2.
Proof.
  revert now. induction events as [|e events IH] using rev_ind; intros now Hw Hnow.
  { split; [apply remembers_nil|]. intros lo. unfold countb. simpl. vm_compute. congruence. }
  destruct Hw as [Hs Hok]. apply events_snoc in Hs as [Hs Hbefore]. apply Forall_app in Hok as [Hok He].
  apply Forall_app in Hnow as [_ Hnow]. inversion Hnow as [|? ? Hle _]; subst. inversion He as [|? ? Hsweep _]; subst.
  destruct (IH (event_time e) (conj Hs Hok) Hbefore) as [Hr Hb].
  enough (remembers snd MintRateWindow (event_time e) (mint_run (events ++ [e])).2 (mint_run (events ++ [e])).1 /\
          bounded snd MintRateWindow MintBeginTimeout (of_app appID) MintRateLimit (mint_run (events ++ [e])).2) as [Hr' Hb'].
  { split; [|done]. by eapply remembers_later. }
  unfold mint_run in *. rewrite fold_left_app. cbn [fold_left]. destruct (fold_left mint_step events ([], [])) as [rows log].
  cbn [fst snd] in *. destruct e as [app started at_|now' window]; cbn [mint_step event_time].
  - unfold reserve_mint. cbv zeta. assert (Hpruned : remembers snd MintRateWindow at_ log (prune app started MintRateWindow rows)).
    { apply remembers_filter; [|done]. unfold recent. intros [a t] Hrec [_ Hold]. simpl in *. bool_hyps. lia. }
    simpl in Hsweep. destruct (Z.leb_spec MintRateLimit (Z.of_nat (length (rows_of app (prune app started MintRateWindow rows))))) as [_|Hroom];
      cbn [fst snd]; [by split|].
    split; [apply remembers_insert; [simpl; lia|done]|]. destruct (of_app appID (app, started)) eqn:Eapp.
    + eapply bounded_insert; [exact Hpruned|done| |done]. unfold of_app in Eapp. apply String.eqb_eq in Eapp. simpl in Eapp.
      subst app. by rewrite of_app_rows.
    + by apply bounded_other.
  - unfold DeleteExpiredPublisherMints. simpl in Hsweep. destruct (Z.leb_spec window 0) as [_|_]; cbn [fst snd]; [by split|].
    split; [|done]. apply remembers_filter; [|done]. unfold recent. intros [a t] Hrec Hold. simpl in *. bool_hyps. lia.
Qed.

(** Over any sequence of reservations of any apps and sweeps of the table, when a
    transaction takes its lock within [MintBeginTimeout] of its start and sweeps keep at
    least the window, an app is granted at most ten mints in any hour less that timeout. *)
Theorem mints_bounded appID events lo : well_timed events ->
  Z.of_nat (length (mints_within appID lo (lo + (MintRateWindow - MintBeginTimeout)) (mint_run events).2)) <= MintRateLimit.
Proof.
  intros Hw. destruct events as [|e events _] using rev_ind; [vm_compute; congruence|].
  apply (mint_run_inv appID _ (event_time e) Hw). apply Forall_app. split; [|by constructor].
  by destruct Hw as [[_ ?]%events_snoc _].
Qed.

(** Eleven mints in one second: ten are granted. *)
Definition demo_mints : list mint_event := replicate 11 (Reserved "billing" 5 8).

Lemma mints_bounded_witness :
  length (mints_within "billing" 5 (5 + (MintRateWindow - MintBeginTimeout)) (mint_run demo_mints).2) = 10%nat /\
  Z.of_nat (length (mints_within "billing" 5 (5 + (MintRateWindow - MintBeginTimeout)) (mint_run demo_mints).2)) <= MintRateLimit.
Proof.
  split; [vm_compute; reflexivity|]. apply (mints_bounded "billing" demo_mints 5). split; [|by repeat constructor].
  simpl. repeat (constructor; [|by repeat constructor]). constructor.
Defined.
End publisher_limits.

(** ** Resets *)

Module reset_limits.
Import resetlimit.

Inductive reset_event := Reserved (appID personHash : string) (started now : Z) | Swept (now window : Z).
Definition event_time (e : reset_event) : Z := match e with Reserved _ _ _ now | Swept now _ => now end.

Definition reset_step (s : list attempt * list attempt) (e : reset_event) : list attempt * list attempt :=
  let '(rows, log) := s in
  match e with
  | Reserved appID personHash started now =>
    let '(refused, rows) := Reserve appID personHash started now rows in
    (rows, match refused with
           | None => log ++ [{| app_id := appID; person_hash := personHash; attempted_at := started |}]
           | Some _ => log
           end)
  | Swept now window => ((DeleteExpiredResetAttempts now window rows).2, log)
  end.
Definition reset_run (events : list reset_event) : list attempt * list attempt := fold_left reset_step events ([], []).

Definition timed (e : reset_event) : Prop :=
  match e with
  | Reserved _ _ started now => started <= now <= started + ReserveTimeout
  | Swept _ window => Window <= window
  end.
Definition well_timed (events : list reset_event) : Prop :=
  StronglySorted Z.le (event_time <$> events) /\ Forall timed events.

Definition app_row (appID : string) (r : attempt) : bool := String.eqb (app_id r) appID.
Definition person_row (appID personHash : string) (r : attempt) : bool :=
  String.eqb (app_id r) appID && String.eqb (person_hash r) personHash.

(** The attempts granted in a window, of an app and of a person through it. *)
Definition attempts_within (p : attempt -> bool) (lo hi : Z) (log : list attempt) : list attempt :=
  List.filter (fun r => p r && ((lo <=? attempted_at r) && (attempted_at r <=? hi))) log.

Lemma count_rows (P : attempt -> Prop) {Hdec : forall r, Decision (P r)} p rows :
  (forall r, p r = bool_decide (P r)) -> countb p rows = length (filter P rows).
Proof.
  intros Hp. unfold countb. induction rows as [|row rows IH]; [done|]. rewrite filter_cons. simpl. rewrite Hp.
  destruct (decide (P row)) as [H|H]; [rewrite bool_decide_eq_true_2 by done|rewrite bool_decide_eq_false_2 by done]; simpl; by rewrite IH.
Qed.

Lemma count_app appID rows : countb (app_row appID) rows = length (of_app appID rows).
Proof.
  apply count_rows. intros r. unfold app_row. destruct (String.eqb_spec (app_id r) appID); [by rewrite bool_decide_eq_true_2|].
  by rewrite bool_decide_eq_false_2.
Qed.

Lemma count_person appID personHash rows : countb (person_row appID personHash) rows = length (of_person appID personHash rows).
Proof.
  apply count_rows. intros r. unfold person_row.
  destruct (String.eqb_spec (app_id r) appID), (String.eqb_spec (person_hash r) personHash); simpl;
    first [by rewrite bool_decide_eq_true_2 | by rewrite bool_decide_eq_false_2 by tauto].
Qed.

(** What a reservation does: refused, nothing; granted, both caps had room. *)
Lemma Reserve_granted appID personHash started now rows rows' : Reserve appID personHash started now rows = (None, rows') ->
  rows' = prune appID now rows ++ [{| app_id := appID; person_hash := personHash; attempted_at := started |}] /\
  Z.of_nat (length (of_app appID (prune appID now rows))) < AppLimit /\
  Z.of_nat (length (of_person appID personHash (prune appID now rows))) < PersonLimit.
Proof.
  unfold Reserve, usage. cbv zeta.
  destruct (Z.leb_spec AppLimit (Z.of_nat (length (of_app appID (prune appID now rows))))) as [?|Ha]; simpl; [done|].
  destruct (Z.leb_spec PersonLimit (Z.of_nat (length (of_person appID personHash (prune appID now rows))))) as [?|Hp]; [done|].
  by intros [= <-].
Qed.

Lemma Reserve_refused appID personHash started now rows refusal rows' :
  Reserve appID personHash started now rows = (Some refusal, rows') -> rows' = rows.
Proof. unfold Reserve, usage. cbv zeta. by destruct (_ || _); intros [= _ <-]. Qed.

Definition caps (log : list attempt) : Prop :=
  (forall appID, bounded attempted_at Window ReserveTimeout (app_row appID) AppLimit log) /\
  (forall appID personHash, bounded attempted_at Window ReserveTimeout (person_row appID personHash) PersonLimit log).

Lemma reset_run_inv events now : well_timed events -> Forall (fun e => event_time e <= now) events ->
  remembers attempted_at Window now (reset_run events).2 (reset_run events).1 /\ caps (reset_run events).2.
Proof.
  revert now. induction events as [|e events IH] using rev_ind; intros now Hw Hnow.
  { split; [apply remembers_nil|]. split; intros; intros lo; unfold countb; simpl; vm_compute; congruence. }
  destruct Hw as [Hs Hok]. apply publisher_limits.events_snoc in Hs as [Hs Hbefore]. apply Forall_app in Hok as [Hok He].
  apply Forall_app in Hnow as [_ Hnow]. inversion Hnow as [|? ? Hle _]; subst. inversion He as [|? ? Hsweep _]; subst.
  destruct (IH (event_time e) (conj Hs Hok) Hbefore) as [Hr Hb].
  enough (remembers attempted_at Window (event_time e) (reset_run (events ++ [e])).2 (reset_run (events ++ [e])).1 /\
          caps (reset_run (events ++ [e])).2) as [Hr' Hb'].
  { split; [|done]. by eapply remembers_later. }
  unfold reset_run in *. rewrite fold_left_app. cbn [fold_left]. destruct (fold_left reset_step events ([], [])) as [rows log].
  cbn [fst snd] in *. destruct e as [app person started now'|now' window]; cbn [reset_step event_time].
  - simpl in Hsweep. destruct (Reserve app person started now' rows) as [[refusal|] rows'] eqn:Er; cbn [fst snd].
    { apply Reserve_refused in Er as ->. by split. }
    apply Reserve_granted in Er as (-> & Happ & Hperson).
    assert (Hpruned : remembers attempted_at Window now' log (prune app now' rows)).
    { apply remembers_filter; [|done]. unfold recent. intros r Hrec [_ Hold]. bool_hyps. lia. }
    split; [apply remembers_insert; [simpl; lia|done]|]. destruct Hb as [Hba Hbp]. split.
    + intros appID. destruct (app_row appID {| app_id := app; person_hash := person; attempted_at := started |}) eqn:Eapp.
      * eapply bounded_insert; [exact Hpruned|done| |done]. unfold app_row in Eapp. simpl in Eapp. bool_hyps. subst. by rewrite count_app.
      * by apply bounded_other.
    + intros appID personHash.
      destruct (person_row appID personHash {| app_id := app; person_hash := person; attempted_at := started |}) eqn:Ep.
      * eapply bounded_insert; [exact Hpruned|done| |done]. unfold person_row in Ep. simpl in Ep. bool_hyps. subst. by rewrite count_person.
      * by apply bounded_other.
  - unfold DeleteExpiredResetAttempts. simpl in Hsweep. destruct (Z.leb_spec window 0) as [_|_]; cbn [fst snd]; [by split|].
    split; [|done]. apply remembers_filter; [|done]. unfold recent. intros r Hrec Hold. simpl in *. bool_hyps. lia.
Qed.

(** C34: over any sequence of attempts through any apps and sweeps, when a reservation has
    its lock within [ReserveTimeout] of its start and sweeps keep at least the window, in
    any hour less that timeout an app is granted at most 30 resets and at most three of
    one person. *)
Theorem resets_bounded events lo appID personHash : well_timed events ->
  Z.of_nat (length (attempts_within (app_row appID) lo (lo + (Window - ReserveTimeout)) (reset_run events).2)) <= AppLimit /\
  Z.of_nat (length (attempts_within (person_row appID personHash) lo (lo + (Window - ReserveTimeout)) (reset_run events).2)) <= PersonLimit.
Proof.
  intros Hw. destruct events as [|e events _] using rev_ind; [split; vm_compute; congruence|].
  destruct (reset_run_inv _ (event_time e) Hw) as [_ [Ha Hp]]; [|split; [apply Ha|apply Hp]].
  apply Forall_app. split; [|by constructor]. by destruct Hw as [[_ ?]%publisher_limits.events_snoc _].
Qed.

(** Four resets of a person: three are granted. *)
Definition demo_resets : list reset_event := replicate 4 (Reserved "billing" "person" 5 8).

(** An attempt that waited for the lock leaves the window before the hour since it was
    granted is over: 31 attempts of an app, granted at 3 s and an hour. *)
Example wait_shortens_window :
  length (attempts_within (app_row "billing") 0 Window
    (reset_run (((fun i => Reserved "billing" (pretty (Z.of_nat i)) 0 (3 * Second)) <$> seq 0 30) ++
                [Reserved "billing" "last" Window (Window + 1)])).2) = 31%nat.
Proof. vm_compute. reflexivity. Qed.

Lemma resets_bounded_witness :
  length (attempts_within (person_row "billing" "person") 5 (5 + (Window - ReserveTimeout)) (reset_run demo_resets).2) = 3%nat /\
  Z.of_nat (length (attempts_within (app_row "billing") 5 (5 + (Window - ReserveTimeout)) (reset_run demo_resets).2)) <= AppLimit /\
  Z.of_nat (length (attempts_within (person_row "billing" "person") 5 (5 + (Window - ReserveTimeout)) (reset_run demo_resets).2)) <= PersonLimit.
Proof.
  split; [vm_compute; reflexivity|]. apply (resets_bounded demo_resets 5). split; [|by repeat constructor].
  simpl. repeat (constructor; [|by repeat constructor]). constructor.
Defined.
End reset_limits.

(** ** A mint *)

Module publisher_props.
Import publisher.

Section mint.
Variable service : Service.

(** What a mint has taken, learnt and done. *)
Record guard := {
  in_flight : bool; tx_open : bool; locked : bool; bound : bool; reserved : bool; mints : nat;
  granted : option PublisherGrant; stored : option StoredPublisher
}.
Definition unguarded : guard :=
  {| in_flight := false; tx_open := false; locked := false; bound := false; reserved := false; mints := 0;
     granted := None; stored := None |}.

(** A binding counts as confirmed when the lookup of that very app answers inside the
    app's lock; a slot as reserved when it is one of the app's ten in an hour. *)
Definition guard_step (appID : string) (g : guard) (e : event mint_services) : guard :=
  let '{| in_flight := i; tx_open := t; locked := l; bound := b; reserved := r; mints := n; granted := gr; stored := st |} := g in
  match e with
  | Event AcquireMintSlot true => {| in_flight := true; tx_open := t; locked := l; bound := b; reserved := r; mints := n; granted := gr; stored := st |}
  | Event ReleaseMintSlot _ => {| in_flight := false; tx_open := t; locked := l; bound := b; reserved := r; mints := n; granted := gr; stored := st |}
  | Event Begin None => {| in_flight := i; tx_open := true; locked := l; bound := b; reserved := r; mints := n; granted := gr; stored := st |}
  | Event (TryLock key) (Ok true) => {| in_flight := i; tx_open := t; locked := l || String.eqb key (MintLockPrefix +:+ appID); bound := b; reserved := r; mints := n; granted := gr; stored := st |}
  | Event (HasBinding app) (Ok answer) => {| in_flight := i; tx_open := t; locked := l; bound := if String.eqb app appID then l && answer else b; reserved := r; mints := n; granted := gr; stored := st |}
  | Event (ReserveMintSlot app limit window) None => {| in_flight := i; tx_open := t; locked := l; bound := b; reserved := r || (String.eqb app appID && (limit =? 10) && (window =? 3600 * Second)); mints := n; granted := gr; stored := st |}
  | Event (MintPublisher _ _) answer => {| in_flight := i; tx_open := t; locked := l; bound := b; reserved := r; mints := S n; granted := match answer with Ok grant => Some grant | Err _ => None end; stored := st |}
  | Event (Upsert _) (Ok row) => {| in_flight := i; tx_open := t; locked := l; bound := b; reserved := r; mints := n; granted := gr; stored := Some row |}
  | Event Commit None | Event Rollback _ => {| in_flight := i; tx_open := false; locked := false; bound := false; reserved := r; mints := n; granted := gr; stored := st |}
  | _ => g
  end.
Definition guard_of (appID : string) (tr : list (event mint_services)) : guard := fold_left (guard_step appID) tr unguarded.

(** When a mint may make each call. *)
Definition allowed (appID : string) (rotate limited : bool) (g : guard) (c : op mint_services) : Prop :=
  match c with
  | AcquireMintSlot => in_flight g = false
  | Begin => in_flight g = true
  | TryLock key => tx_open g = true /\ key = MintLockPrefix +:+ appID
  | HasBinding app => app = appID
  | ReserveMintSlot app limit window =>
    app = appID /\ limit = 10 /\ window = 3600 * Second /\ limited = true /\ locked g = true /\ bound g = true
  | MintPublisher app rotated =>
    app = appID /\ rotated = rotate /\ in_flight g = true /\ locked g = true /\ bound g = true /\ mints g = 0%nat /\
    (limited = true -> reserved g = true)
  | Upsert row =>
    locked g = true /\ AppID row = appID /\
    exists grant nonce, granted g = Some grant /\ Grant_AppID grant = appID /\
      seal.Seal (sealer service) nonce (bytes (Grant_Token grant)) (TokenAAD appID) = Ok (SealedToken row)
  | DeleteTx _ | Delete _ => False
  | _ => True
  end.

(** How a mint ends: nothing is held, and a view is of the row stored from the one
    token minted. *)
Definition mint_ends (r : outcome PublisherView) (g : guard) : Prop :=
  in_flight g = false /\ tx_open g = false /\ locked g = false /\ (mints g <= 1)%nat /\
  match r with
  | inl view => mints g = 1%nat /\ exists row, stored g = Some row /\ view = viewOf row
  | inr _ => True
  end.

(** A call, on each shape of its reply. *)
Ltac on_reply r :=
  let t := type of r in
  lazymatch eval hnf in t with
  | result bool => destruct r as [[]|?]
  | result _ => destruct r as [?|?]
  | option _ => destruct r as [?|]
  | bool => destruct r
  | _ => idtac
  end.
Ltac mint_walk := repeat first
  [ match goal with
    | |- wp _ _ (ask _) _ _ =>
      apply wp_call; [simpl; auto|let r := fresh "r" in let g := fresh "g" in intros r g ->; on_reply r; cbn [guard_step andb orb]; rewrite ?String.eqb_refl; cbn [andb orb]]
    | |- wp _ _ (try_step _ _) _ _ => unfold try_step
    end
  | wp_step ].

Lemma wp_mint appID rotate limited :
  wp (allowed appID rotate limited) (follow (guard_step appID)) (mint service appID rotate limited) unguarded mint_ends.
Proof.
  unfold mint, requireBound, WithAppMintLock, mintLocked, requireBound, reserve, persist.
  destruct (appid.ValidateAppID appID); [by repeat split; simpl; lia|]. unfold unguarded.
  mint_walk; simplify_eq/=; try done.
  all: try (repeat split; simpl; (done || lia || eauto)).
  all: try by match goal with H : match ?f with _ => _ end = inl _ |- _ => destruct f end.
  all: match goal with E : negb (String.eqb _ _) = false |- _ => apply negb_false_iff, String.eqb_eq in E end.
  all: eexists _, (Some _); by repeat split.
Qed.

(** C32: whatever its surroundings answer, a mint, complete or cut short, asks the minter
    at most once, and only inside the app's lock, holding an in-flight slot, after that
    very app's binding was confirmed inside the lock and, on the app route, after one of
    the app's ten rate-limit slots in an hour was reserved; it stores only the granted token of that app, sealed for it.  When
    it returns it holds no slot, no lock and no open transaction, and a view it returns is
    of the row it stored. *)
Theorem mint_guarded {W} (answers : answering mint_services W) w appID rotate limited tr p' w' :
  exec answers (mint service appID rotate limited) w tr p' w' ->
  (forall before e after, tr = before ++ e :: after -> allowed appID rotate limited (guard_of appID before) (called e)) /\
  (forall r, p' = Ret r -> mint_ends r (guard_of appID tr)).
Proof.
  intros He. split.
  - intros before e after ->. apply exec_app in He as (p1 & w1 & He & Hnext).
    apply (exec_ghost _ (guard_step appID) _ _ _ _ _ unguarded) in He.
    pose proof (wp_exec _ _ _ _ _ _ _ _ He (wp_mint appID rotate limited)) as Hwp.
    inversion Hnext; subst. by destruct Hwp as [Hpre _].
  - intros r ->. apply (exec_ghost _ (guard_step appID) _ _ _ _ _ unguarded) in He.
    exact (wp_result _ _ _ _ _ _ _ _ He (wp_mint appID rotate limited)).
Qed.

(** ** The store's table

    The committed rows of app_publishers by app, and the table as the open transaction
    sees it.  No other transaction writes the table meanwhile (another mint of the app
    waits for the lock, one of another app writes another row); a commit that reports an
    error may have committed. *)

Record store := {
  table : gmap string StoredPublisher; staged : option (gmap string StoredPublisher)
}.

Definition storing : answering mint_services store := fun s c =>
  match c return mint_reply c -> store -> Prop with
  | Begin => fun r s' =>
    s' = {| table := table s; staged := match r with None => Some (table s) | Some _ => staged s end |}
  | Upsert p => fun r s' =>
    match r with
    | Ok stored => exists now seen, staged s = Some seen /\ stored = upsert_row p now (seen !! AppID p) /\
        s' = {| table := table s; staged := Some (<[AppID p := stored]> seen) |}
    | Err _ => s' = s
    end
  | DeleteTx app => fun r s' =>
    s' = match r with None => {| table := table s; staged := delete app <$> staged s |} | Some _ => s end
  | Commit => fun r s' =>
    match r with
    | None => s' = {| table := default (table s) (staged s); staged := None |}
    | Some _ => staged s' = staged s /\ (table s' = table s \/ table s' = default (table s) (staged s))
    end
  | Rollback => fun _ s' => s' = {| table := table s; staged := None |}
  | Get app => fun r s' =>
    s' = s /\ match r with
              | Ok stored => table s !! app = Some stored
              | Err e => errors_Is e registry.ErrNoPublisher = true -> table s !! app = None
              end
  | Delete app => fun r s' =>
    staged s' = staged s /\
    match r with
    | None => table s' = delete app (table s)
    | Some _ => table s' = table s \/ table s' = delete app (table s)
    end
  | rand_Read => fun r s' => s' = s /\ match r with Some nonce => length nonce = seal.nonceSize | None => True end
  | _ => fun _ s' => s' = s
  end.

(** The grant the minter last gave, and whether a commit failed. *)
Definition minted_step (g : option PublisherGrant * bool) (e : event mint_services) : option PublisherGrant * bool :=
  match e with
  | Event (MintPublisher _ _) answer => (match answer with Ok grant => Some grant | Err _ => None end, g.2)
  | Event Commit (Some _) => (g.1, true)
  | _ => g
  end.
Definition minted_of (tr : list (event mint_services)) : option PublisherGrant * bool := fold_left minted_step tr (None, false).

(** What a row of the app opens to. *)
Definition opens (appID : string) (stored : StoredPublisher) (token : list Z) : Prop :=
  seal.Open (sealer service) (SealedToken stored) (TokenAAD appID) = Ok token.

Hypothesis Haead : seal.AEAD_laws (seal.aead (sealer service)).

(** The row a mint of the app stores for a grant. *)
Definition row_for (appID : string) (grant : PublisherGrant) (stored : StoredPublisher) : Prop :=
  AppID stored = appID /\ PublisherUserID stored = Grant_PublisherUserID grant /\
  TopicPattern stored = Grant_TopicPattern grant /\ opens appID stored (bytes (Grant_Token grant)).

(** How a mint leaves the store. *)
Definition mint_left (appID : string) (w : store) (r : outcome PublisherView) (s : store * (option PublisherGrant * bool)) : Prop :=
  match r with
  | inl view =>
    exists grant stored, s.2.1 = Some grant /\ table s.1 = <[appID := stored]> (table w) /\ view = viewOf stored /\
      row_for appID grant stored
  | inr _ => table s.1 = table w \/ s.2.2 = true /\ exists stored, table s.1 = <[appID := stored]> (table w)
  end.

Ltac store_walk := repeat first
  [ match goal with
    | |- wp _ _ (ask _) _ _ =>
      apply wp_call; [done|let r := fresh "r" in let Hs := fresh "Hs" in let Hg := fresh "Hg" in
        intros r [[? ?] ?] [Hs Hg]; on_reply r; cbn [storing minted_step table staged fst snd default] in Hs, Hg;
        repeat match type of Hs with ex _ => destruct Hs as [? Hs] end; destruct_and?; simplify_eq; cbn [table staged fst snd default from_option id] in *]
    | |- wp _ _ (try_step _ _) _ _ => unfold try_step
    end
  | wp_step ].

Lemma wp_mint_store appID rotate limited w : staged w = None ->
  wp free (alongside storing minted_step) (mint service appID rotate limited) (w, (None, false)) (mint_left appID w).
Proof.
  intros Hstaged. destruct w as [table0 st]. simpl in Hstaged. subst st.
  unfold mint, requireBound, WithAppMintLock, mintLocked, requireBound, reserve, persist.
  destruct (appid.ValidateAppID appID); [by left|].
  store_walk; simplify_eq/=; try (by left); try (by right; split; [done|by eexists]).
  all: try match goal with H : _ \/ _ |- _ =>
    destruct H; simplify_eq; first [by left|right; split; [done|by eexists]]
  end.
  all: eexists _, _; repeat split.
  all: unfold opens; simpl; unfold seal.Open; by erewrite seal.Seal_opens.
Qed.

Lemma fold_left_snoc {A} (l k : list A) : fold_left (fun tr e => tr ++ [e]) l k = k ++ l.
Proof. revert k. induction l as [|a l IH]; intros k; simpl; [by rewrite app_nil_r|]. by rewrite IH, <- app_assoc. Qed.

(** What reads of the token then find. *)
Definition reads (appID token : string) (w : store) : Prop := forall tr r w',
  exec storing (Token service appID) w tr (Ret r) w' ->
  match r with
  | Ok found => found = token
  | Err e => tr = [Event (Get appID : op mint_services) (Err e)] /\ errors_Is e registry.ErrNoPublisher = false
  end.

Lemma opens_reads appID token w stored : table w !! appID = Some stored -> opens appID stored (bytes token) -> reads appID token w.
Proof.
  intros Hrow Hopens tr r w' He. apply (exec_alongside _ (fun tr e => tr ++ [e]) _ _ _ _ _ []) in He.
  rewrite fold_left_snoc in He. simpl in He. revert He. generalize dependent w'. intros w' He.
  eapply (wp_result free _ _ _ _ _ _ (fun r s => match r with
    | Ok found => found = token
    | Err e => s.2 = [Event (Get appID : op mint_services) (Err e)] /\ errors_Is e registry.ErrNoPublisher = false
    end)) in He; [done|]. unfold Token. simpl. split; [done|].
  intros [found|e] [w1 tr1] [[_ Hanswer] Htr]; simpl in Hanswer, Htr; subst tr1.
  - rewrite Hrow in Hanswer. injection Hanswer as <-. unfold opens in Hopens. rewrite Hopens. apply of_bytes_bytes.
  - split; [done|]. destruct (errors_Is e registry.ErrNoPublisher); [|done]. by rewrite Hrow in Hanswer; specialize (Hanswer eq_refl).
Qed.

(** C33: over the table app_publishers, which no other transaction writes meanwhile, a
    mint that succeeds leaves the app's row as the one it returned a view of, with the
    user and topic pattern granted, every other app's row as it was, and a later read of
    the app's token finds exactly the token the minter granted, or fails to read the
    row; a mint that fails leaves the table as it was, unless a commit reported an error,
    and even then every other app's row. *)
Theorem mint_stores appID rotate limited w tr r w' : staged w = None ->
  exec storing (mint service appID rotate limited) w tr (Ret r) w' ->
  match r with
  | inl view =>
    exists grant stored, (minted_of tr).1 = Some grant /\ table w' = <[appID := stored]> (table w) /\
      view = viewOf stored /\ AppID stored = appID /\ PublisherUserID stored = Grant_PublisherUserID grant /\
      TopicPattern stored = Grant_TopicPattern grant /\ reads appID (Grant_Token grant) w'
  | inr _ =>
    table w' = table w \/ (minted_of tr).2 = true /\ exists stored, table w' = <[appID := stored]> (table w)
  end.
Proof.
  intros Hstaged He. apply (exec_alongside _ minted_step _ _ _ _ _ (None, false)) in He.
  pose proof (wp_result free _ _ _ _ _ _ _ He (wp_mint_store appID rotate limited w Hstaged)) as Hleft.
  destruct r as [view|e]; [|done]. destruct Hleft as (grant & stored & Hgrant & Htable & -> & Happ & Huser & Htopic & Hopens).
  exists grant, stored. repeat split; [done..|]. simpl in Htable. eapply opens_reads; [|done]. rewrite Htable. apply lookup_insert_eq.
Qed.
End mint.

(** A service and a store that answer. *)
Definition demo_service : Service :=
  {| minterConfigured := true; checkerConfigured := true;
     sealer := {| seal.aead := seal.toy_aead 7; seal.previousAEAD := None |} |}.
Definition demo_grant : PublisherGrant :=
  {| Grant_AppID := "billing"; Grant_PublisherUserID := "u-billing"; Grant_TopicPattern := "billing-*"; Grant_Token := "tk_1" |}.

Definition demo_handler (w : store) (c : mint_op) : mint_reply c * store :=
  match c return mint_reply c * store with
  | HasBinding _ | TryLock _ => (Ok true, w)
  | AcquireMintSlot => (true, w)
  | ReleaseMintSlot => (tt, w)
  | Begin => (None, {| table := table w; staged := Some (table w) |})
  | ReserveMintSlot _ _ _ => (None, w)
  | MintPublisher _ _ => (Ok demo_grant, w)
  | rand_Read => (Some (replicate seal.nonceSize 5), w)
  | Upsert p =>
    match staged w with
    | None => (Err (errors_New "no transaction"), w)
    | Some seen =>
      let stored := upsert_row p 9 (seen !! AppID p) in
      (Ok stored, {| table := table w; staged := Some (<[AppID p := stored]> seen) |})
    end
  | DeleteTx app => (None, {| table := table w; staged := delete app <$> staged w |})
  | Commit => (None, {| table := default (table w) (staged w); staged := None |})
  | Rollback => (tt, {| table := table w; staged := None |})
  | Get app => (match table w !! app with Some stored => Ok stored | None => Err registry.ErrNoPublisher end, w)
  | Delete app => (None, {| table := delete app (table w); staged := staged w |})
  end.

Lemma demo_handler_storing w c : storing w c (demo_handler w c).1 (demo_handler w c).2.
Proof.
  destruct c; try done; simpl.
  - destruct (staged w) as [seen|] eqn:Es; [|done]. by exists 9, seen.
  - split; [done|]. by destruct (table w !! appID).
Qed.

(** Another app has a publisher. *)
Definition demo_other : StoredPublisher :=
  {| AppID := "shop"; PublisherUserID := "u-shop"; TopicPattern := "shop-*"; SealedToken := []; CreatedAt := 1; UpdatedAt := 1 |}.
Definition demo_empty : store := {| table := {["shop" := demo_other]}; staged := None |}.
Definition demo_ran := run (I := mint_services) demo_handler (Mint demo_service "billing" true) demo_empty.

(** The mint of an app reaches the minter and ends with nothing held. *)
Lemma mint_guarded_witness :
  In (Event (MintPublisher "billing" true : op mint_services) (Ok demo_grant)) demo_ran.1.1 /\
  mint_ends demo_ran.1.2 (guard_of "billing" demo_ran.1.1).
Proof.
  split; [vm_compute; tauto|].
  pose proof (run_exec storing demo_handler (Mint demo_service "billing" true) demo_empty demo_handler_storing) as He.
  exact (proj2 (mint_guarded demo_service storing demo_empty "billing" true true demo_ran.1.1 (Ret demo_ran.1.2) demo_ran.2 He) _ eq_refl).
Defined.

(** The token the minter gave is what the app's token reads as. *)
Lemma mint_stores_witness :
  (exists view, demo_ran.1.2 = inl view) /\
  match demo_ran.1.2 with
  | inl view =>
    exists grant stored, (minted_of demo_ran.1.1).1 = Some grant /\
      table demo_ran.2 = <["billing" := stored]> (table demo_empty) /\ view = viewOf stored /\
      AppID stored = "billing" /\ PublisherUserID stored = Grant_PublisherUserID grant /\
      TopicPattern stored = Grant_TopicPattern grant /\ reads demo_service "billing" (Grant_Token grant) demo_ran.2
  | inr _ =>
    table demo_ran.2 = table demo_empty \/
    (minted_of demo_ran.1.1).2 = true /\ exists stored, table demo_ran.2 = <["billing" := stored]> (table demo_empty)
  end.
Proof.
  split; [vm_compute; by eexists|].
  pose proof (run_exec storing demo_handler (Mint demo_service "billing" true) demo_empty demo_handler_storing) as He.
  exact (mint_stores demo_service (seal.toy_aead_laws 7) "billing" true true demo_empty demo_ran.1.1 demo_ran.1.2 demo_ran.2 eq_refl He).
Defined.
End publisher_props.
