(* ===== verification/RegistryStore.v ===== *)
(** * RegistryStore

    The Postgres store of package [registry] (pgstore.go) over the tables of
    migrations 0002 and 0007, and the interface [Store] it implements (store.go). *)

From S2P Require Import Prelude GoText Idents Registry.
Open Scope Z_scope.
Import registry.

(** [Store]: the interface the service is written against.  A mutate callback may
    hand a value out beside the new row, as the Go closures do by assignment. *)
Class Store (S : Type) := {
  InsertDestination : StoredDestination -> M S StoredDestination;
  ListDestinations : M S (list StoredDestination);
  GetDestination : string -> M S StoredDestination;
  GetDestinationsByID : list Z -> M S (list StoredDestination);
  UpdateDestination {A} : string -> (StoredDestination -> result (StoredDestination * A)) ->
    M S (StoredDestination * A);
  DeleteDestination : string -> M S bool;
  ListDestinationsByOwner : string -> M S (list StoredDestination);
  DeleteDestinationOwnedBy : string -> string -> M S bool;
  InsertRoute : StoredRoute -> M S StoredRoute;
  ListRoutes : M S (list StoredRoute);
  GetRoute : Z -> M S StoredRoute;
  UpdateRoute : Z -> (StoredRoute -> result StoredRoute) -> M S StoredRoute;
  DeleteRoute : Z -> M S bool;
  ListEnabledRoutes : M S (list StoredRoute);
  ListRoutesByOwner : string -> M S (list StoredRoute);
  DeleteRouteOwnedBy : Z -> string -> M S bool
}.

Module registry_pg.
(** A [routes] row; the [StoredRoute] adds its joined destinations. *)
Record RouteRow := {
  rr_app_pattern : string;
  rr_channel_pattern : string;
  rr_enabled : bool;
  rr_owner_kind : string;
  rr_owner_app_id : option string;
  rr_created_at : Z;
  rr_updated_at : Z
}.

(** The tables.  [destinations] is keyed by its UNIQUE name, [routes] by id;
    [check_destinations] are the destination ids heartbeat checks reference;
    [now] is the statement's [now()]. *)
Record DB := {
  destinations : gmap string StoredDestination;
  routes : gmap Z RouteRow;
  route_destinations : gset (Z * Z);
  check_destinations : gset Z;
  next_destination_id : Z;
  next_route_id : Z;
  now : Z
}.

Definition CheckViolationError (operation : string) : error :=
  Wrap (operation +:+ ": request violates a data constraint") [ErrCheckViolation].

Definition ownerKindOrOperator (ownerKind : string) : string :=
  if String.eqb ownerKind EmptyString then OwnerOperator else ownerKind.

(** The owner CHECKs shared by both tables: a known kind, an owner id exactly for
    an app, in the slug format. *)
Definition owner_check (kind : string) (owner : option string) : bool :=
  (String.eqb kind OwnerOperator || String.eqb kind OwnerApp) &&
  Bool.eqb (String.eqb kind OwnerApp) (bool_decide (is_Some owner)) &&
  match owner with Some o => appid.Valid o | None => true end.

(** The CHECK constraints of [destinations]. *)
Definition destination_check (d : StoredDestination) : bool :=
  destinationName (Name d) &&
  (String.eqb (Type_ d) TypeNtfy || String.eqb (Type_ d) TypeDiscord || String.eqb (Type_ d) TypeWebhook) &&
  owner_check (OwnerKind d) (OwnerAppID d) &&
  match OwnerAppID d with Some o => HasPrefix (Name d) (o +:+ "_") | None => true end.

(** The CHECK constraints of [routes]. *)
Definition route_check (r : RouteRow) : bool :=
  (String.eqb (rr_app_pattern r) wildcardPattern || appid.Valid (rr_app_pattern r)) &&
  (String.eqb (rr_channel_pattern r) wildcardPattern || channelExact (rr_channel_pattern r) ||
   channelPrefix (rr_channel_pattern r)) &&
  owner_check (rr_owner_kind r) (rr_owner_app_id r) &&
  match rr_owner_app_id r with Some o => String.eqb (rr_app_pattern r) o | None => true end.

(** [UNIQUE (app_pattern, channel_pattern)], for a row other than [id]. *)
Definition route_conflict (db : DB) (id : Z) (r : RouteRow) : bool :=
  bool_decide (map_Exists (fun id' r' => id' <> id /\ rr_app_pattern r' = rr_app_pattern r /\
    rr_channel_pattern r' = rr_channel_pattern r) (routes db)).

(** ORDER BY name COLLATE "C" *)
Definition name_le (a b : StoredDestination) : Prop := str_le (Name a) (Name b).
#[global] Instance name_le_dec : RelDecision name_le.
Proof. intros a b. unfold name_le. apply _. Defined.

Definition select_destinations (db : DB) (where_ : StoredDestination -> bool) : list StoredDestination :=
  merge_sort name_le (filter (fun d => where_ d = true) ((map_to_list (destinations db)).*2)).

Definition owned_app (kind : string) (owner : option string) (appID : string) : bool :=
  String.eqb kind OwnerApp && match owner with Some o => String.eqb o appID | None => false end.

Definition pg_InsertDestination (d : StoredDestination) : M DB StoredDestination := fun db =>
  let row := d {{ ID := next_destination_id db; OwnerKind := ownerKindOrOperator (OwnerKind d);
                  CreatedAt := now db; UpdatedAt := now db }} in
  if negb (destination_check row) then (Err (CheckViolationError "insert destination"), db)
  else if bool_decide (is_Some (destinations db !! Name row)) then (Err ErrDestinationExists, db)
  else (Ok row, db {{ destinations := <[Name row := row]> (destinations db);
                      next_destination_id := next_destination_id db + 1 }}).

Definition pg_ListDestinations : M DB (list StoredDestination) :=
  m_gets (fun db => select_destinations db (fun _ => true)).

Definition pg_GetDestination (name : string) : M DB StoredDestination := fun db =>
  match destinations db !! name with
  | Some d => (Ok d, db)
  | None => (Err ErrDestinationNotFound, db)
  end.

Definition pg_GetDestinationsByID (ids : list Z) : M DB (list StoredDestination) :=
  m_gets (fun db => select_destinations db (fun d => bool_decide (ID d ∈ ids))).

Definition pg_UpdateDestination {A} (name : string)
    (mutate : StoredDestination -> result (StoredDestination * A)) : M DB (StoredDestination * A) :=
  fun db =>
    match destinations db !! name with
    | None => (Err ErrDestinationNotFound, db)
    | Some current =>
      match mutate current with
      | Err e => (Err e, db)
      | Ok (mutated, a) =>
        let saved := current {{ Config := Config mutated; SealedSecrets := SealedSecrets mutated;
                                Enabled := Enabled mutated; DisabledReason := DisabledReason mutated;
                                UpdatedAt := now db }} in
        if negb (destination_check saved) then (Err (CheckViolationError "update destination"), db)
        else (Ok (saved, a), db {{ destinations := <[name := saved]> (destinations db) }})
      end
    end.

(** ON DELETE RESTRICT: a route or a heartbeat check references the row. *)
Definition referenced (db : DB) (id : Z) : bool :=
  bool_decide (id ∈ check_destinations db) ||
  bool_decide (set_Exists (fun p => p.2 = id) (route_destinations db)).

Definition delete_destination_where (where_ : StoredDestination -> bool) (name : string) : M DB bool :=
  fun db =>
    match destinations db !! name with
    | Some d =>
      if negb (where_ d) then (Ok false, db)
      else if referenced db (ID d) then (Err ErrDestinationInUse, db)
      else (Ok true, db {{ destinations := delete name (destinations db) }})
    | None => (Ok false, db)
    end.

Definition pg_DeleteDestination (name : string) : M DB bool :=
  delete_destination_where (fun _ => true) name.

Definition pg_ListDestinationsByOwner (appID : string) : M DB (list StoredDestination) :=
  m_gets (fun db => select_destinations db (fun d => owned_app (OwnerKind d) (OwnerAppID d) appID)).

Definition pg_DeleteDestinationOwnedBy (name appID : string) : M DB bool :=
  delete_destination_where (fun d => owned_app (OwnerKind d) (OwnerAppID d) appID) name.

(** [pgutil.Distinct] *)
Fixpoint Distinct_from (seen : gset string) (names : list string) : list string :=
  match names with
  | [] => []
  | name :: rest =>
    if bool_decide (name ∈ seen) then Distinct_from seen rest
    else name :: Distinct_from ({[name]} ∪ seen) rest
  end.
Definition Distinct (names : list string) : list string := Distinct_from ∅ names.

Definition resolveDestinationIDs (names : list string) (appPattern : string) : M DB (list Z) := fun db =>
  let distinctNames := Distinct names in
  let rows := select_destinations db (fun d =>
    bool_decide (Name d ∈ distinctNames) &&
    (String.eqb (OwnerKind d) OwnerOperator || bool_decide (OwnerAppID d = Some appPattern))) in
  let unusable := existsb (fun d => negb (UsableBy d appPattern)) rows in
  if unusable || negb (Z.of_nat (length rows) =? Z.of_nat (length distinctNames))
  then (Err ErrUnknownDestination, db)
  else (Ok (ID <$> rows), db).

Definition linkDestinations (routeID : Z) (ids : list Z) : M DB unit := fun db =>
  (Ok tt, db {{ route_destinations := list_to_set ((fun d => (routeID, d)) <$> ids) ∪ route_destinations db }}).

(** [routeSelect]: the row with its destinations aggregated in name order. *)
Definition join_route (db : DB) (id : Z) (r : RouteRow) : StoredRoute :=
  let ds := select_destinations db (fun d => bool_decide ((id, ID d) ∈ route_destinations db)) in
  {| Route_ID := id; AppPattern := rr_app_pattern r; ChannelPattern := rr_channel_pattern r;
     DestinationIDs := ID <$> ds; DestinationNames := Name <$> ds; Route_Enabled := rr_enabled r;
     Route_OwnerKind := rr_owner_kind r; Route_OwnerAppID := rr_owner_app_id r;
     Route_CreatedAt := rr_created_at r; Route_UpdatedAt := rr_updated_at r |}.

Definition queryRoute (id : Z) : M DB StoredRoute := fun db =>
  match routes db !! id with
  | Some r => (Ok (join_route db id r), db)
  | None => (Err ErrRouteNotFound, db)
  end.

Definition id_le (a b : Z * RouteRow) : Prop := a.1 <= b.1.
#[global] Instance id_le_dec : RelDecision id_le.
Proof. intros a b. unfold id_le. apply _. Defined.

Definition queryRoutes (where_ : RouteRow -> bool) : M DB (list StoredRoute) :=
  m_gets (fun db => (fun p => join_route db p.1 p.2) <$>
    merge_sort id_le (filter (fun p => where_ p.2 = true) (map_to_list (routes db)))).

Definition pg_InsertRoute (route : StoredRoute) : M DB StoredRoute :=
  WithTx (
    destinationIDs ← resolveDestinationIDs (DestinationNames route) (AppPattern route);
    routeID ← (fun db =>
      let row := {| rr_app_pattern := AppPattern route; rr_channel_pattern := ChannelPattern route;
                    rr_enabled := Route_Enabled route;
                    rr_owner_kind := ownerKindOrOperator (Route_OwnerKind route);
                    rr_owner_app_id := Route_OwnerAppID route;
                    rr_created_at := now db; rr_updated_at := now db |} in
      if negb (route_check row) then (Err (CheckViolationError "insert route"), db)
      else if route_conflict db (next_route_id db) row then (Err ErrRouteExists, db)
      else (Ok (next_route_id db),
            db {{ routes := <[next_route_id db := row]> (routes db);
                  next_route_id := next_route_id db + 1 }}));
    _ ← linkDestinations routeID destinationIDs;
    queryRoute routeID).

Definition pg_UpdateRoute (id : Z) (mutate : StoredRoute -> result StoredRoute) : M DB StoredRoute :=
  WithTx (
    current ← queryRoute id;
    mutated ← m_lift (mutate current);
    destinationIDs ← resolveDestinationIDs (DestinationNames mutated) (AppPattern mutated);
    _ ← (fun db =>
      match routes db !! id with
      | None => (Ok tt, db)
      | Some r =>
        let row := r {{ rr_app_pattern := AppPattern mutated; rr_channel_pattern := ChannelPattern mutated;
                        rr_enabled := Route_Enabled mutated; rr_updated_at := now db }} in
        if negb (route_check row) then (Err (CheckViolationError "update route"), db)
        else if route_conflict db id row then (Err ErrRouteExists, db)
        else (Ok tt, db {{ routes := <[id := row]> (routes db) }})
      end);
    _ ← (fun db => (Ok tt, db {{ route_destinations := filter (fun p => p.1 <> id) (route_destinations db) }}));
    _ ← linkDestinations id destinationIDs;
    queryRoute id).

Definition delete_route_where (where_ : RouteRow -> bool) (id : Z) : M DB bool := fun db =>
  match routes db !! id with
  | Some r =>
    if where_ r then
      (Ok true, db {{ routes := delete id (routes db);
                      route_destinations := filter (fun p => p.1 <> id) (route_destinations db) }})
    else (Ok false, db)
  | None => (Ok false, db)
  end.

Definition pg_DeleteRoute (id : Z) : M DB bool := delete_route_where (fun _ => true) id.
Definition pg_DeleteRouteOwnedBy (id : Z) (appID : string) : M DB bool :=
  delete_route_where (fun r => owned_app (rr_owner_kind r) (rr_owner_app_id r) appID) id.

#[export] Instance PGStore : Store DB := {
  InsertDestination := pg_InsertDestination;
  ListDestinations := pg_ListDestinations;
  GetDestination := pg_GetDestination;
  GetDestinationsByID := pg_GetDestinationsByID;
  UpdateDestination A := pg_UpdateDestination;
  DeleteDestination := pg_DeleteDestination;
  ListDestinationsByOwner := pg_ListDestinationsByOwner;
  DeleteDestinationOwnedBy := pg_DeleteDestinationOwnedBy;
  InsertRoute := pg_InsertRoute;
  ListRoutes := queryRoutes (fun _ => true);
  GetRoute := queryRoute;
  UpdateRoute := pg_UpdateRoute;
  DeleteRoute := pg_DeleteRoute;
  ListEnabledRoutes := queryRoutes rr_enabled;
  ListRoutesByOwner appID := queryRoutes (fun r => owned_app (rr_owner_kind r) (rr_owner_app_id r) appID);
  DeleteRouteOwnedBy := pg_DeleteRouteOwnedBy
}.

(** ** The invariant of the tables *)

Definition has_destination (db : DB) (d : StoredDestination) : Prop := destinations db !! Name d = Some d.

Record wf (db : DB) : Prop := {
  wf_destination n d : destinations db !! n = Some d ->
    Name d = n /\ destination_check d = true /\ ID d < next_destination_id db;
  wf_ids d1 d2 : has_destination db d1 -> has_destination db d2 -> ID d1 = ID d2 -> d1 = d2;
  wf_route id r : routes db !! id = Some r -> route_check r = true /\ id < next_route_id db;
  (** every link joins a route to a destination its app pattern may use *)
  wf_link rid did : (rid, did) ∈ route_destinations db ->
    exists r d, routes db !! rid = Some r /\ has_destination db d /\ ID d = did /\
      UsableBy d (rr_app_pattern r) = true
}.

Lemma elem_of_select db w d :
  wf db -> d ∈ select_destinations db w <-> has_destination db d /\ w d = true.
Proof.
  intros Hwf. unfold select_destinations, has_destination.
  rewrite merge_sort_Permutation, list_elem_of_filter, list_elem_of_fmap. split.
  - intros (Hw & [n d'] & -> & Hin). apply elem_of_map_to_list in Hin. simpl in *.
    split; [|done]. by rewrite (proj1 (wf_destination _ Hwf _ _ Hin)).
  - intros [Hd Hw]. split; [done|]. exists (Name d, d). split; [done|]. by apply elem_of_map_to_list.
Qed.

(** What a successful resolve promises the link that follows it. *)
Lemma resolve_usable names pat db ids db' :
  wf db -> resolveDestinationIDs names pat db = (Ok ids, db') ->
  db' = db /\ forall i, i ∈ ids -> exists d, has_destination db d /\ ID d = i /\ UsableBy d pat = true.
Proof.
  intros Hwf. unfold resolveDestinationIDs. cbn zeta. destruct (_ || _) eqn:Hc; [done|].
  intros [= <- <-]. bool_hyps. split; [done|]. intros i Hi.
  apply list_elem_of_fmap in Hi as (d & -> & Hd). exists d.
  pose proof Hd as Hsel. apply elem_of_select in Hd as [? _]; [|done]. split_and!; try done.
  rewrite <- not_true_iff_false in H. destruct (UsableBy d pat) eqn:Hu; [done|].
  exfalso. apply H, existsb_exists. exists d. rewrite Hu. split; [|done]. by apply list_elem_of_In.
Qed.

(** A state that keeps every destination row's identity and owner keeps the
    links' meaning. *)
Definition same_identity (d d' : StoredDestination) : Prop :=
  ID d' = ID d /\ Name d' = Name d /\ OwnerKind d' = OwnerKind d /\ OwnerAppID d' = OwnerAppID d.

Lemma UsableBy_same d d' pat : same_identity d d' -> UsableBy d' pat = UsableBy d pat.
Proof. intros (_ & _ & Hk & Ho). unfold UsableBy. by rewrite Hk, Ho. Qed.

Lemma pg_InsertDestination_wf d db : wf db -> wf (pg_InsertDestination d db).2.
Proof.
  intros Hwf. unfold pg_InsertDestination. cbv zeta.
  set (row := d {{ ID := _; OwnerKind := _; CreatedAt := _; UpdatedAt := _ }}).
  assert (Hidrow : ID row = next_destination_id db) by done. clearbody row.
  case_match eqn:Hck; [done|]. case_match eqn:Hex; [done|]. bool_hyps. simpl.
  assert (Hnone : destinations db !! Name row = None) by by apply eq_None_not_Some.
  assert (Hold : forall d', destinations db !! Name d' = Some d' -> Name d' <> Name row /\ ID d' <> ID row).
  { intros d' Hd'. destruct (wf_destination _ Hwf _ _ Hd') as (_ & _ & Hid). split.
    - intros He. rewrite He in Hd'. congruence.
    - lia. }
  split; simpl.
  - intros n d'. rewrite lookup_insert_Some. intros [[<- <-]|[_ Hd']].
    + split_and!; [done|done|lia].
    + destruct (wf_destination _ Hwf _ _ Hd') as (? & ? & ?). split_and!; [done..|lia].
  - unfold has_destination. simpl. intros d1 d2. rewrite !lookup_insert_Some.
    intros [[_ <-]|[_ H1']] [[_ <-]|[_ H2']]; [done| | |by apply (wf_ids _ Hwf)]; intros He.
    + destruct (Hold _ H2'). congruence.
    + destruct (Hold _ H1'). congruence.
  - apply (wf_route _ Hwf).
  - intros rid did Hl. destruct (wf_link _ Hwf _ _ Hl) as (r & d' & Hr & Hd' & ? & ?).
    exists r, d'. split_and!; try done. unfold has_destination. simpl.
    rewrite lookup_insert_ne; [done|]. destruct (Hold _ Hd'). congruence.
Qed.

Lemma pg_UpdateDestination_wf {A} name (mutate : _ -> result (_ * A)) db :
  wf db -> wf (pg_UpdateDestination name mutate db).2.
Proof.
  intros Hwf. unfold pg_UpdateDestination. destruct (destinations db !! name) as [cur|] eqn:Hcur; [|done].
  destruct (mutate cur) as [[m a]|e]; [|done]. cbv zeta.
  set (saved := cur {{ Config := _; SealedSecrets := _; Enabled := _; DisabledReason := _; UpdatedAt := _ }}).
  destruct (wf_destination _ Hwf _ _ Hcur) as (Hn & _ & Hid).
  assert (Hsame : same_identity cur saved) by done. clearbody saved.
  pose proof Hsame as (Hsid & Hsn & Hsk & Hso).
  case_match eqn:Hck; [done|]. bool_hyps.
  assert (Hlook : forall d, has_destination (db {{ destinations := <[name:=saved]> (destinations db) }}) d <->
    (d = saved \/ has_destination db d /\ Name d <> name)).
  { intros d. unfold has_destination. simpl. rewrite lookup_insert_Some. split.
    - intros [[? ?]|[? ?]]; [by left|by right].
    - intros [-> | [? ?]]; [left; by rewrite Hsn, Hn|right; by split]. }
  assert (Hcurd : has_destination db cur) by (unfold has_destination; by rewrite Hn).
  split.
  - intros n d'. simpl. rewrite lookup_insert_Some. intros [[<- <-]|[_ Hd']].
    { rewrite Hsn, Hsid. by split_and!. }
    apply (wf_destination _ Hwf _ _ Hd').
  - intros d1 d2 [-> | [H1 Hn1]]%Hlook [-> | [H2 Hn2]]%Hlook He; [done| | |by apply (wf_ids _ Hwf)].
    + destruct Hn2. rewrite Hsid in He. by rewrite <- (wf_ids _ Hwf _ _ Hcurd H2 He).
    + destruct Hn1. rewrite Hsid in He. by rewrite (wf_ids _ Hwf _ _ H1 Hcurd He).
  - apply (wf_route _ Hwf).
  - intros rid did Hl. simpl in Hl. destruct (wf_link _ Hwf _ _ Hl) as (r & d & Hr & Hd & <- & Hu).
    destruct (decide (Name d = name)) as [He|Hne].
    + assert (d = cur) as -> by (unfold has_destination in Hd; rewrite He in Hd; congruence).
      exists r, saved. split_and!; [done| |done|by rewrite (UsableBy_same cur)]. apply Hlook. by left.
    + exists r, d. split_and!; [done| |done|done]. apply Hlook. by right.
Qed.

Lemma delete_destination_where_wf w name db : wf db -> wf (delete_destination_where w name db).2.
Proof.
  intros Hwf. unfold delete_destination_where. destruct (destinations db !! name) as [cur|] eqn:Hcur; [|done].
  case_match; [done|]. case_match eqn:Href; [done|]. unfold referenced in Href. bool_hyps. simpl.
  split; unfold has_destination; simpl.
  - intros n d [_ Hd]%lookup_delete_Some. apply (wf_destination _ Hwf _ _ Hd).
  - intros d1 d2 [_ Hd1]%lookup_delete_Some [_ Hd2]%lookup_delete_Some. by apply (wf_ids _ Hwf).
  - apply (wf_route _ Hwf).
  - intros rid did Hl. destruct (wf_link _ Hwf _ _ Hl) as (r & d & Hr & Hd & <- & Hu).
    exists r, d. split_and!; try done. rewrite lookup_delete_ne; [done|]. intros He.
    unfold has_destination in Hd. rewrite <- He, Hcur in Hd. injection Hd as ->.
    match goal with H : ~ set_Exists _ _ |- _ => apply H end. by exists (rid, ID d).
Qed.

(** A route row written, and links rewritten for that route only. *)
Lemma wf_set_route db db' id r (links : list Z) :
  wf db ->
  destinations db' = destinations db -> next_destination_id db' = next_destination_id db ->
  routes db' = <[id := r]> (routes db) -> next_route_id db <= next_route_id db' ->
  id < next_route_id db' -> route_check r = true ->
  (forall rid did, (rid, did) ∈ route_destinations db' ->
     (rid = id /\ did ∈ links) \/ (rid <> id /\ (rid, did) ∈ route_destinations db)) ->
  (forall did, did ∈ links ->
     exists d, has_destination db d /\ ID d = did /\ UsableBy d (rr_app_pattern r) = true) ->
  wf db'.
Proof.
  intros Hwf Hd Hnd Hr Hnext Hid Hck Hl Hlinks.
  split; unfold has_destination; rewrite ?Hd, ?Hnd, ?Hr.
  - apply (wf_destination _ Hwf).
  - apply (wf_ids _ Hwf).
  - intros id' r'. rewrite lookup_insert_Some. intros [[<- <-]|[_ Hr']]; [done|].
    destruct (wf_route _ Hwf _ _ Hr'). split; [done|lia].
  - intros rid did [[-> Hin]|[Hne Hin]]%Hl.
    + destruct (Hlinks _ Hin) as (d & ? & ? & ?). exists r, d. by rewrite lookup_insert_eq.
    + destruct (wf_link _ Hwf _ _ Hin) as (r' & d & Hr' & ? & ? & ?). exists r', d.
      by rewrite lookup_insert_ne.
Qed.

Lemma queryRoute_ok id db r db' : queryRoute id db = (Ok r, db') ->
  db' = db /\ exists row, routes db !! id = Some row /\ r = join_route db id row.
Proof. unfold queryRoute. case_match; intros [= <- <-]. split; [done|]. by eexists. Qed.

Lemma elem_of_links (id : Z) (ids : list Z) (l : gset (Z * Z)) (rid did : Z) :
  (rid, did) ∈ list_to_set ((fun d => (id, d)) <$> ids) ∪ l ->
  (rid = id /\ did ∈ ids) \/ (rid, did) ∈ l.
Proof.
  rewrite elem_of_union, elem_of_list_to_set. intros [Hin|Hin]; [left|by right].
  by apply list_elem_of_fmap in Hin as (x & [= -> ->] & Hx).
Qed.

Lemma pg_InsertRoute_wf route db : wf db -> wf (pg_InsertRoute route db).2.
Proof.
  intros Hwf. apply (WithTx_ind wf); [done|]. intros a db' Hrun.
  apply m_bind_ok in Hrun as (ids & db1 & Hres & Hrun).
  apply (resolve_usable _ _ _ _ _ Hwf) in Hres as [-> Hids].
  apply m_bind_ok in Hrun as (rid & db2 & Hins & Hrun). cbv zeta in Hins.
  destruct (negb _) eqn:Hck in Hins; [done|]. destruct (route_conflict _ _ _) in Hins; [done|].
  injection Hins as <- <-. apply negb_false_iff in Hck.
  apply m_bind_ok in Hrun as ([] & db3 & [= <-] & Hrun). apply queryRoute_ok in Hrun as [-> _].
  eapply (wf_set_route db _ (next_route_id db) _ ids); try done; simpl; [lia..|].
  intros rid did [[-> Hin]|Hin]%elem_of_links; [by left|right]. split; [|done].
  destruct (wf_link _ Hwf _ _ Hin) as (r & _ & Hr & _). apply (wf_route _ Hwf) in Hr. lia.
Qed.

Lemma pg_UpdateRoute_wf id mutate db : wf db -> wf (pg_UpdateRoute id mutate db).2.
Proof.
  intros Hwf. apply (WithTx_ind wf); [done|]. intros a db' Hrun.
  apply m_bind_ok in Hrun as (cur & db1 & Hq & Hrun).
  apply queryRoute_ok in Hq as (-> & row0 & Hrow0 & ->).
  apply m_bind_ok in Hrun as (mutated & db1 & Hm & Hrun). injection Hm as Hm <-.
  apply m_bind_ok in Hrun as (ids & db1 & Hres & Hrun).
  apply (resolve_usable _ _ _ _ _ Hwf) in Hres as [-> Hids].
  apply m_bind_ok in Hrun as ([] & db2 & Hupd & Hrun). rewrite Hrow0 in Hupd. cbv zeta in Hupd.
  destruct (negb _) eqn:Hck in Hupd; [done|]. destruct (route_conflict _ _ _) in Hupd; [done|].
  injection Hupd as <-. apply negb_false_iff in Hck.
  apply m_bind_ok in Hrun as ([] & db3 & [= <-] & Hrun).
  apply m_bind_ok in Hrun as ([] & db4 & [= <-] & Hrun). apply queryRoute_ok in Hrun as [-> _].
  eapply (wf_set_route db _ id _ ids); try done; simpl; [exact (proj2 (wf_route _ Hwf _ _ Hrow0))|].
  intros rid did [[-> Hin]|Hin]%elem_of_links; [by left|right].
  by apply elem_of_filter in Hin.
Qed.

Lemma delete_route_where_wf w id db : wf db -> wf (delete_route_where w id db).2.
Proof.
  intros Hwf. unfold delete_route_where. repeat case_match; try done. simpl.
  split; unfold has_destination; simpl.
  - apply (wf_destination _ Hwf).
  - apply (wf_ids _ Hwf).
  - intros id' r' [_ Hr]%lookup_delete_Some. apply (wf_route _ Hwf _ _ Hr).
  - intros rid did [Hne Hin]%elem_of_filter. simpl in Hne.
    destruct (wf_link _ Hwf _ _ Hin) as (r' & d & Hr' & ? & ? & ?). exists r', d.
    by rewrite lookup_delete_ne.
Qed.

(** ** Reachable tables *)

Inductive step (db : DB) : DB -> Prop :=
  | step_insert_destination d : step db (pg_InsertDestination d db).2
  | step_update_destination A name mutate : step db (pg_UpdateDestination (A := A) name mutate db).2
  | step_delete_destination name : step db (pg_DeleteDestination name db).2
  | step_delete_destination_owned name appID : step db (pg_DeleteDestinationOwnedBy name appID db).2
  | step_insert_route route : step db (pg_InsertRoute route db).2
  | step_update_route id mutate : step db (pg_UpdateRoute id mutate db).2
  | step_delete_route id : step db (pg_DeleteRoute id db).2
  | step_delete_route_owned id appID : step db (pg_DeleteRouteOwnedBy id appID db).2
  (** time passes, and heartbeat checks are linked and unlinked *)
  | step_environment t refs : step db (db {{ now := t; check_destinations := refs }}).

Definition empty_db : DB :=
  {| destinations := ∅; routes := ∅; route_destinations := ∅; check_destinations := ∅;
     next_destination_id := 1; next_route_id := 1; now := 0 |}.

Definition reachable (db : DB) : Prop := rtc step empty_db db.

Lemma step_wf db db' : step db db' -> wf db -> wf db'.
Proof.
  intros [] Hwf; eauto using pg_InsertDestination_wf, pg_UpdateDestination_wf,
    delete_destination_where_wf, pg_InsertRoute_wf, pg_UpdateRoute_wf, delete_route_where_wf.
  by destruct Hwf.
Qed.

Lemma tables_wf db : reachable db -> wf db.
Proof.
  intros H. assert (Hwf : wf empty_db); [by split|].
  revert Hwf. induction H; eauto using step_wf.
Qed.
End registry_pg.
