(* ===== verification/RegistryService.v ===== *)
(** * RegistryService

    The service of package [registry] (service.go, app_service.go,
    app_service_routes.go) and the registration-time URL check (ssrf.go), written
    against the [Store] interface.  Logging has no effect on the state or the
    result and is left out. *)

From S2P Require Import Prelude GoText Utf8 Idents Std Guard Seal Registry RegistryStore.
Open Scope Z_scope.
Import registry.

Module registry_service.
Definition secretsAADPrefix : string := "delivery-api/destination/v1:".
Definition secretsErrorKey : string := "error".
Definition errMalformedSecrets : error :=
  Sentinel "sealed secrets are not a JSON object of strings".

Record DestinationInput := {
  Input_Name : string;
  Input_Type : string;
  Input_Enabled : option bool;
  Input_Config : option (gmap string string);
  Input_Secrets : option (gmap string string)
}.
(** A nil map is [None]. *)
Record DestinationPatch := {
  Patch_Enabled : option bool;
  Patch_Config : option (gmap string string);
  Patch_Secrets : option (gmap string string)
}.
Record RouteInput := {
  RouteInput_AppPattern : string;
  RouteInput_ChannelPattern : string;
  RouteInput_Destinations : list string;
  RouteInput_Enabled : option bool
}.
Record RoutePatch := {
  RoutePatch_AppPattern : option string;
  RoutePatch_ChannelPattern : option string;
  RoutePatch_Destinations : option (list string);
  RoutePatch_Enabled : option bool
}.

(** [cloneMap], also of a nil map. *)
Definition cloneMap (values : option (gmap string string)) : gmap string string := default ∅ values.

(** [maps.Copy(dst, src)] *)
Definition maps_Copy (dst : gmap string string) (src : option (gmap string string)) : gmap string string :=
  default ∅ src ∪ dst.

Definition DestinationSecretsAAD (name : string) : list Z := bytes (secretsAADPrefix +:+ name).

(** ** ssrf.go *)

Section ssrf.
Context `{Std}.
(** The resolver: the addresses of a host, or nothing on an error; and the
    literal address a host spells, if it does. *)
Context (LookupNetIP : string -> option (list transport.Addr)).
Context (ParseAddr : string -> option transport.Addr).

Definition checkURL (fieldName rawURL : string) : option error :=
  match parseHTTPSURL rawURL with
  | None => Some (ValidationError ("invalid " +:+ fieldName))
  | Some parsed =>
    let host := Hostname parsed in
    match ParseAddr host with
    | Some literal =>
      if negb (transport.IsPublicAddr literal)
      then Some (ValidationError (fieldName +:+ " must resolve to public addresses")) else None
    | None =>
      match LookupNetIP host with
      | None | Some [] => Some (ValidationError (fieldName +:+ " host could not be resolved"))
      | Some addrs =>
        if existsb (fun addr => negb (transport.IsPublicAddr addr)) addrs
        then Some (ValidationError (fieldName +:+ " must resolve to public addresses")) else None
      end
    end
  end.

Definition CheckDestinationSecrets (destinationType : string) (secrets : gmap string string) : option error :=
  if String.eqb destinationType TypeNtfy then None
  else if String.eqb destinationType TypeWebhook then checkURL "secrets.url" (field secrets "url")
  else if String.eqb destinationType TypeDiscord then checkURL "secrets.webhook_url" (field secrets "webhook_url")
  else Some (ValidationError "invalid type").
End ssrf.

Definition destinationURLSecretKey (destinationType : string) : string :=
  if String.eqb destinationType TypeWebhook then "url"
  else if String.eqb destinationType TypeDiscord then "webhook_url"
  else EmptyString.

(** ** Secrets *)

(** [base64.RawURLEncoding.EncodeToString] *)
Definition base64url_char (n : Z) : ascii :=
  let n := Z.land n 63 in
  if n <? 26 then byte_of (n + 65) else if n <? 52 then byte_of (n + 71)
  else if n <? 62 then byte_of (n - 4) else if n =? 62 then "-"%char else "_"%char.
Fixpoint base64url (bs : list Z) : string :=
  match bs with
  | a :: b :: c :: rest =>
    let val := Z.lor (Z.lor (Z.shiftl a 16) (Z.shiftl b 8)) c in
    String (base64url_char (Z.shiftr val 18)) (String (base64url_char (Z.shiftr val 12))
    (String (base64url_char (Z.shiftr val 6)) (String (base64url_char val) (base64url rest))))
  | [a; b] =>
    let val := Z.lor (Z.shiftl a 16) (Z.shiftl b 8) in
    String (base64url_char (Z.shiftr val 18)) (String (base64url_char (Z.shiftr val 12))
    (String (base64url_char (Z.shiftr val 6)) EmptyString))
  | [a] =>
    let val := Z.shiftl a 16 in
    String (base64url_char (Z.shiftr val 18)) (String (base64url_char (Z.shiftr val 12)) EmptyString)
  | [] => EmptyString
  end.

(** [random] is what the random source yields, [None] when it fails. *)
Definition generateSigningSecret (random : option (list Z)) : result string :=
  match random with
  | None => Err (errors_New "generate signing secret")
  | Some bytes => Ok (base64url bytes)
  end.

Section secrets.
Context `{Std} (sealer : seal.Sealer).

(** [json.Marshal] of a map of strings does not fail. *)
Definition sealSecrets (nonce : option (list Z)) (name : string) (secrets : gmap string string)
    : result (list Z) :=
  match seal.Seal sealer nonce (json_marshal_map secrets) (DestinationSecretsAAD name) with
  | Ok sealed => Ok sealed
  | Err e => Err (Wrap ("seal secrets of destination " +:+ name) [e])
  end.

Definition openSecrets (name : string) (sealed : list Z) : result (gmap string string) :=
  match seal.Open sealer sealed (DestinationSecretsAAD name) with
  | Err e => Err (Wrap ("open secrets of destination " +:+ name) [e])
  | Ok plaintext =>
    match json_unmarshal_map plaintext with
    | None => Err (Wrap ("open secrets of destination " +:+ name) [errMalformedSecrets])
    | Some secrets => Ok secrets
    end
  end.

Definition unseal (stored : StoredDestination) : result ResolvedDestination :=
  secrets ← openSecrets (Name stored) (SealedSecrets stored);
  mret {| Resolved_ID := ID stored; Resolved_Name := Name stored; Resolved_Type := Type_ stored;
          Resolved_Config := Config stored; Resolved_Secrets := secrets |}.

Definition destinationView (stored : StoredDestination) : DestinationView :=
  let maskedSecrets :=
    match openSecrets (Name stored) (SealedSecrets stored) with
    | Err _ => {[ secretsErrorKey := maskedValue ]}
    | Ok secrets => MaskSecrets secrets
    end in
  {| View_Name := Name stored; View_Type := Type_ stored; View_Enabled := Enabled stored;
     View_DisabledReason := DisabledReason stored; View_Config := Config stored;
     View_Secrets := maskedSecrets; View_OwnerKind := OwnerKind stored;
     View_OwnerAppID := OwnerAppID stored; View_CreatedAt := CreatedAt stored;
     View_UpdatedAt := UpdatedAt stored |}.

(** The mutate steps that run inside the store's row lock. *)
Definition rotateSecret (nonce random : option (list Z)) (now : Z) (current : StoredDestination)
    (overlapHours : Z) : result (StoredDestination * string) :=
  if negb (String.eqb (Type_ current) TypeWebhook) then Err ErrRotationUnsupported
  else
    secrets ← openSecrets (Name current) (SealedSecrets current);
    newSecret ← generateSigningSecret random;
    let secrets' := <["signing_secret" := newSecret]>
      (<["signing_secret_previous" := field secrets "signing_secret"]> secrets) in
    let expiresAt := time.Add now (Duration_mul overlapHours Hour) in
    let config := <["previous_secret_expires_at" := rfc3339_Format expiresAt]> (Config current) in
    match ValidateDestinationFields (Type_ current) config secrets' with
    | Some e => Err e
    | None =>
      sealed ← sealSecrets nonce (Name current) secrets';
      mret (current {{ Config := config; SealedSecrets := sealed }}, newSecret)
    end.

Definition applyDestinationPatch (nonce : option (list Z)) (current : StoredDestination)
    (patch : DestinationPatch) : result StoredDestination :=
  let current :=
    match Patch_Enabled patch with
    | Some true => current {{ Enabled := true; DisabledReason := None }}
    | Some false => current {{ Enabled := false }}
    | None => current
    end in
  match Patch_Config patch, Patch_Secrets patch with
  | None, None => Ok current
  | _, _ =>
    secrets ← openSecrets (Name current) (SealedSecrets current);
    let config := maps_Copy (Config current) (Patch_Config patch) in
    let secrets := maps_Copy secrets (Patch_Secrets patch) in
    match ValidateDestinationFields (Type_ current) config secrets with
    | Some e => Err e
    | None =>
      let current := current {{ Config := config }} in
      if bool_decide (default ∅ (Patch_Secrets patch) = ∅) then Ok current
      else
        sealed ← sealSecrets nonce (Name current) secrets;
        mret (current {{ SealedSecrets := sealed }})
    end
  end.
End secrets.

Definition routeView (stored : StoredRoute) : RouteView :=
  {| RouteView_ID := Route_ID stored; RouteView_AppPattern := AppPattern stored;
     RouteView_ChannelPattern := ChannelPattern stored;
     RouteView_Destinations := DestinationNames stored; RouteView_Enabled := Route_Enabled stored;
     RouteView_OwnerKind := Route_OwnerKind stored; RouteView_OwnerAppID := Route_OwnerAppID stored;
     RouteView_CreatedAt := Route_CreatedAt stored; RouteView_UpdatedAt := Route_UpdatedAt stored |}.

Definition validateRoutePatch (patch : RoutePatch) : option error :=
  first_error
    [ RoutePatch_AppPattern patch ≫= ValidateAppPattern;
      RoutePatch_ChannelPattern patch ≫= ValidateChannelPattern;
      RoutePatch_Destinations patch ≫= ValidateRouteDestinations ].

Definition applyRoutePatch (current : StoredRoute) (patch : RoutePatch) : StoredRoute :=
  current {{ AppPattern := default (AppPattern current) (RoutePatch_AppPattern patch);
             ChannelPattern := default (ChannelPattern current) (RoutePatch_ChannelPattern patch);
             DestinationNames := default (DestinationNames current) (RoutePatch_Destinations patch);
             Route_Enabled := default (Route_Enabled current) (RoutePatch_Enabled patch) }}.

(** ** Ownership (app_service.go) *)

Definition ownedByApp (d : StoredDestination) (appID : string) : bool :=
  negb (String.eqb appID EmptyString) && String.eqb (OwnerKind d) OwnerApp &&
  match OwnerAppID d with Some o => String.eqb o appID | None => false end.

Definition sameOwnedRow (locked current : StoredDestination) (appID : string) : bool :=
  ownedByApp locked appID && (ID locked =? ID current) && String.eqb (Type_ locked) (Type_ current).

Definition routeOwnedByApp (route : StoredRoute) (appID : string) : bool :=
  negb (String.eqb appID EmptyString) && String.eqb (Route_OwnerKind route) OwnerApp &&
  match Route_OwnerAppID route with Some o => String.eqb o appID | None => false end.

Definition validateOwnerAppID (appID : string) : option error :=
  match appid.ValidateAppID appID with
  | Some e => Some (ValidationError (Error e))
  | None => None
  end.

Definition validateAppDestinationName (appID name : string) : option error :=
  let prefix := appID +:+ "_" in
  if negb (HasPrefix name prefix) || (len name =? len prefix)
  then Some (ValidationError ("name must start with " +:+ prefix)) else None.

Definition validateAppTopic (appID destinationType : string) (config : gmap string string) : option error :=
  if negb (String.eqb destinationType TypeNtfy) then None
  else
    let prefix := appID +:+ "-" in
    let topic := field config "topic" in
    if negb (HasPrefix topic prefix) || (len topic =? len prefix)
    then Some (ValidationError ("config.topic must start with " +:+ prefix)) else None.

(** ** The service *)

(** The fields of [Service]: the store is the [Store] instance, the clock the
    [now] argument of the one method that reads it. *)
Record Service := {
  sealer : seal.Sealer;
  urlChecker : option (string -> gmap string string -> option error)
}.

Section service.
Context `{Std} {S : Type} `{!Store S} (service : Service).

(** *** Destinations *)

Definition enabledInput (e : option bool) : bool := default true e.

Definition insert_new (nonce : option (list Z)) (input : DestinationInput)
    (config secrets : gmap string string) (kind : string) (owner : option string) : M S DestinationView :=
  sealed ← m_lift (sealSecrets (sealer service) nonce (Input_Name input) secrets);
  stored ← InsertDestination
    {| ID := 0; Name := Input_Name input; Type_ := Input_Type input; Config := config;
       SealedSecrets := sealed; Enabled := enabledInput (Input_Enabled input);
       DisabledReason := None; OwnerKind := kind; OwnerAppID := owner;
       CreatedAt := 0; UpdatedAt := 0 |};
  mret (destinationView (sealer service) stored).

Definition CreateDestination (nonce : option (list Z)) (input : DestinationInput) : M S DestinationView :=
  let config := cloneMap (Input_Config input) in
  let secrets := cloneMap (Input_Secrets input) in
  _ ← m_check (first_error
        [ ValidateDestinationName (Input_Name input); ValidateDestinationType (Input_Type input);
          ValidateDestinationFields (Input_Type input) config secrets ]);
  insert_new nonce input config secrets OwnerOperator None.

Definition svc_ListDestinations : M S (list DestinationView) :=
  stored ← ListDestinations; mret (destinationView (sealer service) <$> stored).

Definition svc_GetDestination (name : string) : M S DestinationView :=
  stored ← GetDestination name; mret (destinationView (sealer service) stored).

Definition svc_UpdateDestination (nonce : option (list Z)) (name : string) (patch : DestinationPatch)
    : M S DestinationView :=
  stored ← UpdateDestination name (fun current =>
    updated ← applyDestinationPatch (sealer service) nonce current patch; mret (updated, tt));
  mret (destinationView (sealer service) stored.1).

Definition RotateWebhookSecret (nonce random : option (list Z)) (now : Z) (name : string) (overlapHours : Z)
    : M S (DestinationView * string) :=
  stored ← UpdateDestination name (fun current =>
    rotateSecret (sealer service) nonce random now current overlapHours);
  mret (destinationView (sealer service) stored.1, stored.2).

Definition DisableDestination (name : string) (destinationID : Z) (reason : string) : M S unit :=
  _ ← UpdateDestination name (fun current =>
    if negb (ID current =? destinationID) then Err ErrDestinationNotFound
    else Ok (current {{ Enabled := false; DisabledReason := Some reason }}, tt));
  mret tt.

Definition svc_DeleteDestination (name : string) : M S bool := DeleteDestination name.

(** *** Routes *)

Definition CreateRoute (input : RouteInput) : M S RouteView :=
  _ ← m_check (first_error
        [ ValidateAppPattern (RouteInput_AppPattern input);
          ValidateChannelPattern (RouteInput_ChannelPattern input);
          ValidateRouteDestinations (RouteInput_Destinations input) ]);
  stored ← InsertRoute
    {| Route_ID := 0; AppPattern := RouteInput_AppPattern input;
       ChannelPattern := RouteInput_ChannelPattern input; DestinationIDs := [];
       DestinationNames := RouteInput_Destinations input;
       Route_Enabled := enabledInput (RouteInput_Enabled input); Route_OwnerKind := OwnerOperator;
       Route_OwnerAppID := None; Route_CreatedAt := 0; Route_UpdatedAt := 0 |};
  mret (routeView stored).

Definition svc_ListRoutes : M S (list RouteView) := stored ← ListRoutes; mret (routeView <$> stored).
Definition svc_GetRoute (id : Z) : M S RouteView := stored ← GetRoute id; mret (routeView stored).
Definition svc_UpdateRoute (id : Z) (patch : RoutePatch) : M S RouteView :=
  _ ← m_check (validateRoutePatch patch);
  stored ← UpdateRoute id (fun current => Ok (applyRoutePatch current patch));
  mret (routeView stored).
Definition svc_DeleteRoute (id : Z) : M S bool := DeleteRoute id.

(** *** Resolve *)

Definition resolveNamed (appID name : string) : M S (list ResolvedDestination) :=
  stored ← m_map_err (fun storeErr =>
      if errors_Is storeErr ErrDestinationNotFound then ErrUnknownDestination else storeErr)
    (GetDestination name);
  if negb (UsableBy stored appID) then m_fail ErrUnknownDestination
  else if negb (Enabled stored) then m_fail ErrDestinationDisabled
  else resolved ← m_lift (unseal (sealer service) stored); mret [resolved].

(** The loop over the matched rows, in name order. *)
Fixpoint resolve_rows (appID : string) (stored : list StoredDestination)
    : result (list ResolvedDestination) :=
  match stored with
  | [] => Ok []
  | destination :: rest =>
    if negb (UsableBy destination appID) then resolve_rows appID rest
    else if negb (Enabled destination) then resolve_rows appID rest
    else
      resolvedDestination ← unseal (sealer service) destination;
      resolved ← resolve_rows appID rest;
      mret (resolvedDestination :: resolved)
  end.

(** [slices.SortStableFunc] by name *)
Definition sort_by_name (l : list StoredDestination) : list StoredDestination :=
  merge_sort registry_pg.name_le l.

Definition Resolve (appID destinationName channel : string) : M S (list ResolvedDestination) :=
  if negb (String.eqb destinationName EmptyString) then resolveNamed appID destinationName
  else
    routes ← ListEnabledRoutes;
    let matches := MatchRoutes routes appID channel in
    match matches with
    | [] => mret []
    | _ =>
      stored ← GetDestinationsByID (DestinationID <$> matches);
      m_lift (resolve_rows appID (sort_by_name stored))
    end.

(** *** App-scoped destinations *)

Definition checkAppDestinationURL (destinationType : string) (secrets : gmap string string)
    : option error :=
  if String.eqb (destinationURLSecretKey destinationType) EmptyString then None
  else match urlChecker service with
       | None => Some ErrURLCheckUnavailable
       | Some check => check destinationType secrets
       end.

Definition CreateAppDestination (nonce : option (list Z)) (appID : string) (input : DestinationInput)
    : M S DestinationView :=
  let config := cloneMap (Input_Config input) in
  let secrets := cloneMap (Input_Secrets input) in
  _ ← m_check (first_error
        [ validateOwnerAppID appID; ValidateDestinationName (Input_Name input);
          ValidateDestinationType (Input_Type input);
          validateAppDestinationName appID (Input_Name input);
          ValidateDestinationFields (Input_Type input) config secrets;
          validateAppTopic appID (Input_Type input) config;
          checkAppDestinationURL (Input_Type input) secrets ]);
  insert_new nonce input config secrets OwnerApp (Some appID).

Definition ListAppDestinations (appID : string) : M S (list DestinationView) :=
  _ ← m_check (validateOwnerAppID appID);
  stored ← ListDestinationsByOwner appID;
  mret (destinationView (sealer service) <$> filter (fun d => ownedByApp d appID = true) stored).

Definition getOwnedDestination (appID name : string) : M S StoredDestination :=
  _ ← m_check (validateOwnerAppID appID);
  stored ← GetDestination name;
  if negb (ownedByApp stored appID) then m_fail ErrDestinationNotFound else mret stored.

Definition GetAppDestination (appID name : string) : M S DestinationView :=
  stored ← getOwnedDestination appID name; mret (destinationView (sealer service) stored).

Definition checkPatchedURL (current : StoredDestination) (patch : DestinationPatch) : option error :=
  let urlKey := destinationURLSecretKey (Type_ current) in
  if String.eqb urlKey EmptyString then None
  else match cloneMap (Patch_Secrets patch) !! urlKey with
       | None => None
       | Some newURL =>
         match openSecrets (sealer service) (Name current) (SealedSecrets current) with
         | Err e => Some e
         | Ok secrets =>
           if String.eqb (field secrets urlKey) newURL then None
           else
             let config := maps_Copy (Config current) (Patch_Config patch) in
             let secrets := maps_Copy secrets (Patch_Secrets patch) in
             match ValidateDestinationFields (Type_ current) config secrets with
             | Some e => Some e
             | None => checkAppDestinationURL (Type_ current) secrets
             end
         end
       end.

Definition UpdateAppDestination (nonce : option (list Z)) (appID name : string) (patch : DestinationPatch)
    : M S DestinationView :=
  current ← getOwnedDestination appID name;
  _ ← m_check (checkPatchedURL current patch);
  stored ← UpdateDestination name (fun locked =>
    if negb (sameOwnedRow locked current appID) then Err ErrDestinationNotFound
    else
      match
        match cloneMap (Patch_Config patch) !! "topic" with
        | Some _ => validateAppTopic appID (Type_ locked) (cloneMap (Patch_Config patch))
        | None => None
        end
      with
      | Some e => Err e
      | None =>
        updated ← applyDestinationPatch (sealer service) nonce locked patch; mret (updated, tt)
      end);
  mret (destinationView (sealer service) stored.1).

Definition DeleteAppDestination (appID name : string) : M S unit :=
  _ ← m_check (validateOwnerAppID appID);
  deleted ← DeleteDestinationOwnedBy name appID;
  if negb deleted then m_fail ErrDestinationNotFound else mret tt.

Definition RotateAppWebhookSecret (nonce random : option (list Z)) (now : Z) (appID name : string)
    (overlapHours : Z) : M S (DestinationView * string) :=
  current ← getOwnedDestination appID name;
  _ ← m_check (
    if String.eqb (Type_ current) TypeWebhook then
      match openSecrets (sealer service) (Name current) (SealedSecrets current) with
      | Err e => Some e
      | Ok secrets => checkAppDestinationURL (Type_ current) secrets
      end
    else None);
  stored ← UpdateDestination name (fun locked =>
    if negb (sameOwnedRow locked current appID) then Err ErrDestinationNotFound
    else rotateSecret (sealer service) nonce random now locked overlapHours);
  mret (destinationView (sealer service) stored.1, stored.2).

(** *** App-scoped routes *)

Definition errMsgAppPatternNotOwn : string := "app_pattern must be the app's own id".

Definition CreateAppRoute (appID : string) (input : RouteInput) : M S RouteView :=
  _ ← m_check (first_error
        [ validateOwnerAppID appID;
          (if negb (String.eqb (RouteInput_AppPattern input) EmptyString) &&
              negb (String.eqb (RouteInput_AppPattern input) appID)
           then Some (ValidationError errMsgAppPatternNotOwn) else None);
          ValidateAppPattern appID;
          ValidateChannelPattern (RouteInput_ChannelPattern input);
          ValidateRouteDestinations (RouteInput_Destinations input) ]);
  stored ← InsertRoute
    {| Route_ID := 0; AppPattern := appID; ChannelPattern := RouteInput_ChannelPattern input;
       DestinationIDs := []; DestinationNames := RouteInput_Destinations input;
       Route_Enabled := enabledInput (RouteInput_Enabled input); Route_OwnerKind := OwnerApp;
       Route_OwnerAppID := Some appID; Route_CreatedAt := 0; Route_UpdatedAt := 0 |};
  mret (routeView stored).

Definition ListAppRoutes (appID : string) : M S (list RouteView) :=
  _ ← m_check (validateOwnerAppID appID);
  stored ← ListRoutesByOwner appID;
  mret (routeView <$> filter (fun r => routeOwnedByApp r appID = true) stored).

Definition GetAppRoute (appID : string) (id : Z) : M S RouteView :=
  _ ← m_check (validateOwnerAppID appID);
  stored ← GetRoute id;
  if negb (routeOwnedByApp stored appID) then m_fail ErrRouteNotFound else mret (routeView stored).

Definition UpdateAppRoute (appID : string) (id : Z) (patch : RoutePatch) : M S RouteView :=
  _ ← m_check (first_error
        [ validateOwnerAppID appID;
          match RoutePatch_AppPattern patch with
          | Some p => if negb (String.eqb p appID) then Some (ValidationError errMsgAppPatternNotOwn) else None
          | None => None
          end;
          validateRoutePatch patch ]);
  stored ← UpdateRoute id (fun locked =>
    if negb (routeOwnedByApp locked appID) then Err ErrRouteNotFound
    else Ok (applyRoutePatch locked patch));
  mret (routeView stored).

Definition DeleteAppRoute (appID : string) (id : Z) : M S unit :=
  _ ← m_check (validateOwnerAppID appID);
  deleted ← DeleteRouteOwnedBy id appID;
  if negb deleted then m_fail ErrRouteNotFound else mret tt.
End service.
End registry_service.
