(* ===== verification/RegistryProps.v ===== *)
(** * RegistryProps

    What the registry promises: resolution returns only usable, enabled
    destinations and, over the Postgres tables, exactly those the matching routes
    link; app-scoped calls never touch another owner's rows; masking hides every
    secret; rotation keeps the old secret for the overlap. *)

From S2P Require Import Prelude GoText Utf8 GoFormat Idents Std Guard Seal Registry RegistryStore RegistryService.
Open Scope Z_scope.
Import registry registry_pg registry_service.

(** ** Resolution, over any store *)

Section resolve.
Context `{Std} {S : Type} `{!Store S} (service : Service).

(** A destination the message of [appID] may fire, and what the sink gets. *)
Definition deliverable (appID : string) (r : ResolvedDestination) : Prop :=
  exists d, UsableBy d appID = true /\ Enabled d = true /\ unseal (sealer service) d = Ok r.

Lemma resolve_rows_spec appID stored rs :
  resolve_rows service appID stored = Ok rs ->
  Forall2 (fun d r => unseal (sealer service) d = Ok r)
    (filter (fun d => UsableBy d appID = true /\ Enabled d = true) stored) rs.
Proof.
  revert rs. induction stored as [|d stored IH]; intros rs; simpl; [intros [= <-]; constructor|].
  destruct (UsableBy d appID) eqn:Hu; simpl.
  2:{ rewrite filter_cons_False by (rewrite Hu; by intros []). apply IH. }
  destruct (Enabled d) eqn:He; simpl.
  2:{ rewrite filter_cons_False by (rewrite He; by intros []). apply IH. }
  rewrite filter_cons_True by done.
  destruct (unseal (sealer service) d) as [r|] eqn:Hr; [|done].
  destruct (resolve_rows service appID stored) as [rs'|] eqn:Hrs; [|done].
  intros [= <-]. constructor; [done|]. by apply IH.
Qed.

(** Resolution never hands a sink a destination the message's app may not use,
    or a disabled one, whatever the store returns: every resolved destination is the
    unsealing of a row that is usable by the app and enabled.  A destination named
    explicitly that is absent and one owned by another app are the same error. *)
Theorem Resolve_safe appID name channel s :
  (forall rs s', Resolve service appID name channel s = (Ok rs, s') -> Forall (deliverable appID) rs) /\
  (forall d s', name <> EmptyString -> GetDestination name s = (Ok d, s') -> UsableBy d appID = false ->
     Resolve service appID name channel s = (Err ErrUnknownDestination, s')) /\
  (forall s', name <> EmptyString -> GetDestination name s = (Err ErrDestinationNotFound, s') ->
     Resolve service appID name channel s = (Err ErrUnknownDestination, s')).
Proof.
  unfold Resolve, resolveNamed. destruct (String.eqb_spec name EmptyString) as [->|Hne]; simpl.
  - split_and!; [|done..]. intros rs s' Hrun. apply m_bind_ok in Hrun as (routes & s1 & _ & Hrun).
    destruct (MatchRoutes _ _ _); [injection Hrun as <- <-; constructor|].
    apply m_bind_ok in Hrun as (stored & s2 & _ & Hrun). injection Hrun as Hrun _.
    apply resolve_rows_spec in Hrun. clear -Hrun. remember (filter _ _) as l eqn:Hl.
    assert (Hall : Forall (fun d => UsableBy d appID = true /\ Enabled d = true) l).
    { subst l. apply Forall_forall. intros d Hd. apply list_elem_of_filter in Hd as [Hd _]. exact Hd. }
    clear Hl. induction Hrun as [|d r l rs Hr _ IH]; [constructor|].
    apply Forall_cons in Hall as [[? ?] ?]. constructor; [by exists d|by apply IH].
  - unfold mbind, m_bind, m_map_err. split_and!.
    + intros rs s'. destruct (GetDestination name s) as [[d|e] s1]; [|done].
      destruct (UsableBy d appID) eqn:Hu; [|done]. destruct (Enabled d) eqn:He; [|done]. simpl.
      unfold m_lift. destruct (unseal _ d) as [r|] eqn:Hr; [|done]. intros [= <- _].
      constructor; [by exists d|constructor].
    + intros d s' _ -> Hu. by rewrite Hu.
    + intros s' _ ->. done.
Qed.
End resolve.

(** ** Resolution over the tables *)

(** An exact app pattern holds no wildcard. *)
Lemma MatchPattern_exact P value : appid.Valid P = true -> MatchPattern P value = true -> P = value.
Proof.
  intros HP Hm. apply MatchPattern_spec in Hm as [(p & r & -> & _)|]; [|done].
  apply match_slug_spec in HP as [_ HP]. rewrite all_chars_app in HP. simpl in HP. bool_hyps. done.
Qed.

Lemma usable_by_matching_app db r d appID :
  wf db -> has_destination db d -> route_check r = true ->
  UsableBy d (rr_app_pattern r) = true -> MatchPattern (rr_app_pattern r) appID = true ->
  UsableBy d appID = true.
Proof.
  intros Hwf Hd Hr Hu Hm. unfold route_check in Hr. bool_hyps.
  match goal with H : _ || appid.Valid _ = true |- _ => apply orb_true_iff in H as [Hp|Hp] end.
  2:{ by rewrite <- (MatchPattern_exact _ _ Hp Hm). }
  bool_hyps. rewrite Hp in Hu. destruct (wf_destination _ Hwf _ _ Hd) as (_ & Hck & _).
  unfold destination_check, owner_check in Hck. bool_hyps.
  unfold UsableBy, DestinationUsableBy in *. repeat case_match; try done; bool_hyps; simplify_eq/=.
Qed.

(** The destinations a message of [appID] on [channel] reaches, read off the tables. *)
Definition linked (db : DB) (appID channel : string) (d : StoredDestination) : Prop :=
  exists rid r, routes db !! rid = Some r /\ rr_enabled r = true /\
    MatchPattern (rr_app_pattern r) appID = true /\ MatchPattern (rr_channel_pattern r) channel = true /\
    (rid, ID d) ∈ route_destinations db.

#[global] Instance str_le_po : PartialOrder str_le.
Proof. split; [split; [|apply _]|apply _]. intros a. destruct (total str_le a a); done. Qed.

Section resolve_pg.
Context `{Std} (service : Service).

Lemma enabled_routes_spec db route :
  (exists rs, queryRoutes rr_enabled db = (Ok rs, db) /\ route ∈ rs) <->
  exists rid r, routes db !! rid = Some r /\ rr_enabled r = true /\ route = join_route db rid r.
Proof.
  unfold queryRoutes, m_gets. split.
  - intros (rs & [= <-] & Hin). apply list_elem_of_fmap in Hin as ([rid r] & -> & Hin).
    rewrite merge_sort_Permutation, list_elem_of_filter in Hin. destruct Hin as [He Hin].
    apply elem_of_map_to_list in Hin. by exists rid, r.
  - intros (rid & r & Hr & He & ->). eexists. split; [done|]. apply list_elem_of_fmap.
    exists (rid, r). split; [done|]. rewrite merge_sort_Permutation, list_elem_of_filter.
    split; [done|]. by apply elem_of_map_to_list.
Qed.

Lemma matches_linked db appID channel d rs :
  wf db -> has_destination db d -> queryRoutes rr_enabled db = (Ok rs, db) ->
  ID d ∈ DestinationID <$> MatchRoutes rs appID channel <-> linked db appID channel d.
Proof.
  intros Hwf Hd Hrs. destruct (MatchRoutes_spec rs appID channel) as (_ & Hin & _). rewrite Hin.
  assert (Hroute : forall route, route ∈ rs <->
    exists rid r, routes db !! rid = Some r /\ rr_enabled r = true /\ route = join_route db rid r).
  { intros route. rewrite <- enabled_routes_spec. rewrite Hrs. split.
    - intros ?. by exists rs.
    - by intros (? & [= <-] & ?). }
  assert (Hids : forall rid r, ID d ∈ DestinationIDs (join_route db rid r) <->
    (rid, ID d) ∈ route_destinations db).
  { intros rid r. simpl. rewrite list_elem_of_fmap. setoid_rewrite elem_of_select; [|done]. split.
    - intros (d' & He & Hd' & Hb). bool_hyps. by rewrite He.
    - intros Hl. exists d. split_and!; [done..|by apply bool_decide_eq_true]. }
  split.
  - intros (route & Hr & _ & Ha & Hc & Hi). apply Hroute in Hr as (rid & r & Hr & He & ->).
    exists rid, r. split_and!; [done..|by apply (Hids rid r)].
  - intros (rid & r & Hr & He & Ha & Hc & Hl). exists (join_route db rid r).
    split; [apply Hroute; by exists rid, r|]. split_and!; [done..|by apply Hids].
Qed.

Lemma linked_usable db appID channel d :
  wf db -> has_destination db d -> linked db appID channel d -> UsableBy d appID = true.
Proof.
  intros Hwf Hd (rid & r & Hr & _ & Ha & _ & Hl).
  destruct (wf_link _ Hwf _ _ Hl) as (r' & d' & Hr' & Hd' & Hid & Hu).
  rewrite Hr in Hr'. injection Hr' as <-. assert (d' = d) as -> by by apply (wf_ids _ Hwf).
  eapply usable_by_matching_app; try done. apply (wf_route _ Hwf _ _ Hr).
Qed.

Lemma sort_by_name_sorted l : Sorted str_le (Name <$> sort_by_name l).
Proof.
  assert (Hs : Sorted name_le (sort_by_name l)).
  { apply Sorted_merge_sort. intros a b. unfold name_le. apply str_le_total. }
  induction Hs as [|d l' _ IH Hhd]; [constructor|]. csimpl. constructor; [done|].
  inversion Hhd; constructor; done.
Qed.
End resolve_pg.

(** The message's destinations: the enabled, linked rows in name order. *)
Definition reached (db : DB) (appID channel : string) (ds : list StoredDestination) : Prop :=
  Sorted str_le (Name <$> ds) /\ NoDup ds /\
  forall d, d ∈ ds <-> has_destination db d /\ Enabled d = true /\ linked db appID channel d.

Lemma Sorted_filter_names (P : StoredDestination -> Prop) `{!forall d, Decision (P d)} l :
  Sorted str_le (Name <$> l) -> Sorted str_le (Name <$> filter P l).
Proof.
  intros Hs. apply Sorted_StronglySorted in Hs; [|apply _]. apply StronglySorted_Sorted.
  induction l as [|d l IH]; [constructor|]. csimpl in *. apply StronglySorted_inv in Hs as [Hs Hall].
  destruct (decide (P d)).
  - rewrite filter_cons_True by done. csimpl. constructor; [by apply IH|].
    rewrite Forall_fmap, Forall_forall in Hall |- *. intros d' Hd'. apply Hall.
    by apply list_elem_of_filter in Hd' as [_ ?].
  - rewrite filter_cons_False by done. by apply IH.
Qed.

Section resolve_exact.
Context `{Std} (service : Service).

(** C24: Resolution is exact over every reachable state of the tables.  A successful
    unnamed resolution returns, in name order and without repeats, the unsealing of
    exactly the enabled destinations some enabled route matching (app, channel)
    links; every linked destination is usable by the app, so the defensive drop in
    the loop never loses one; and the tables are unchanged. *)
Theorem Resolve_exact db appID channel rs db' :
  reachable db ->
  Resolve service appID EmptyString channel db = (Ok rs, db') ->
  db' = db /\
  (forall d, has_destination db d -> linked db appID channel d -> UsableBy d appID = true) /\
  exists ds, reached db appID channel ds /\
    Forall2 (fun d r => unseal (sealer service) d = Ok r) ds rs.
Proof.
  intros Hwf%tables_wf Hrun. unfold Resolve in Hrun. simpl in Hrun.
  apply m_bind_ok in Hrun as (routes & db1 & Hroutes & Hrun).
  assert (db1 = db) as -> by by injection Hroutes.
  assert (Hmatch := fun d Hd => matches_linked db appID channel d routes Hwf Hd Hroutes).
  assert (Husable := fun d => linked_usable db appID channel d Hwf).
  destruct (MatchRoutes routes appID channel) as [|m ms] eqn:Hms.
  { injection Hrun as <- <-. split_and!; [done..|]. exists []. split; [|constructor].
    split_and!; [constructor|constructor|]. intros d. split; [by intros ?%not_elem_of_nil|].
    intros (Hd & _ & Hl%Hmatch); [|done]. by apply not_elem_of_nil in Hl. }
  apply m_bind_ok in Hrun as (stored & db2 & Hget & Hrun). injection Hrun as Hrows ->.
  injection Hget as <- <-. split_and!; [done..|].
  eexists. split; [|by apply resolve_rows_spec in Hrows].
  assert (Hstored : forall d, d ∈ sort_by_name (select_destinations db
      (fun d => bool_decide (ID d ∈ DestinationID <$> m :: ms))) <->
    has_destination db d /\ linked db appID channel d).
  { intros d. unfold sort_by_name. rewrite merge_sort_Permutation, elem_of_select by done. split.
    - intros [Hd Hb]. split; [done|]. bool_hyps. by apply Hmatch.
    - intros [Hd Hl]. split; [done|]. apply bool_decide_eq_true. by apply Hmatch. }
  split_and!.
  - apply Sorted_filter_names, sort_by_name_sorted.
  - apply NoDup_filter. unfold sort_by_name, select_destinations. rewrite !merge_sort_Permutation.
    apply NoDup_filter, NoDup_fmap_2_strong; [|apply NoDup_map_to_list].
    intros [n1 d1] [n2 d2] H1%elem_of_map_to_list H2%elem_of_map_to_list. simpl. intros ->.
    apply (wf_destination _ Hwf) in H1 as [<- _]. by apply (wf_destination _ Hwf) in H2 as [<- _].
  - intros d. rewrite list_elem_of_filter, Hstored. split.
    + intros ([Hu He] & Hd & Hl). done.
    + intros (Hd & He & Hl). split_and!; try done. by apply Husable.
Qed.
End resolve_exact.

(** ** Isolation of apps *)

Section isolation.
Context `{Std} (service : Service) (appID : string).

Definition owns (d : StoredDestination) : Prop := owned_app (OwnerKind d) (OwnerAppID d) appID = true.
Definition owns_route (r : RouteRow) : Prop := owned_app (rr_owner_kind r) (rr_owner_app_id r) appID = true.

(** Nothing but rows of [appID] differs, and every row it has gained is its own. *)
Definition confined (db db' : DB) : Prop :=
  (forall n, destinations db' !! n <> destinations db !! n ->
     (forall d, destinations db !! n = Some d -> owns d) /\
     (forall d, destinations db' !! n = Some d -> owns d)) /\
  (forall id, routes db' !! id <> routes db !! id \/
      (exists did, ~ ((id, did) ∈ route_destinations db' <-> (id, did) ∈ route_destinations db)) ->
     (forall r, routes db !! id = Some r -> owns_route r) /\
     (forall r, routes db' !! id = Some r -> owns_route r)).

(** The app-scoped writes. *)
Inductive app_write : (DB -> DB) -> Prop :=
  | app_create nonce input : app_write (fun db => (CreateAppDestination service nonce appID input db).2)
  | app_update nonce name patch : app_write (fun db => (UpdateAppDestination service nonce appID name patch db).2)
  | app_delete name : app_write (fun db => (DeleteAppDestination appID name db).2)
  | app_rotate nonce random t name hours :
      app_write (fun db => (RotateAppWebhookSecret service nonce random t appID name hours db).2)
  | app_create_route input : app_write (fun db => (CreateAppRoute appID input db).2)
  | app_update_route id patch : app_write (fun db => (UpdateAppRoute appID id patch db).2)
  | app_delete_route id : app_write (fun db => (DeleteAppRoute appID id db).2).

Lemma confined_refl db : confined db db.
Proof. split; [done|]. intros id [?|[did Hd]]; [done|]. destruct Hd. done. Qed.

(** The effect of a bind is that of its first half, or of its second from there. *)
Lemma bind_effect {A B} (P : DB -> Prop) (m : M DB A) (f : A -> M DB B) db :
  (forall e db', m db = (Err e, db') -> P db') ->
  (forall a db', m db = (Ok a, db') -> P (f a db').2) -> P ((m ≫= f) db).2.
Proof. intros He Ha. unfold mbind, m_bind. destruct (m db) as [[a|e] db'] eqn:E; simpl; eauto. Qed.

Lemma check_effect {B} (P : DB -> Prop) e (f : unit -> M DB B) db :
  P db -> (e = None -> P (f tt db).2) -> P ((m_check e ≫= f) db).2.
Proof. intros H0 H1. destruct e; [done|]. by apply H1. Qed.

Lemma ownedByApp_owns d : ownedByApp d appID = true -> owns d.
Proof. unfold ownedByApp, owns, owned_app. intros Ho. bool_hyps. by rewrite H2, H1. Qed.

Lemma insert_confined d db :
  owned_app (ownerKindOrOperator (OwnerKind d)) (OwnerAppID d) appID = true ->
  confined db (pg_InsertDestination d db).2.
Proof.
  intros Ho. unfold pg_InsertDestination. cbv zeta. case_match; [apply confined_refl|].
  case_match eqn:Hex; [apply confined_refl|]. bool_hyps. split; simpl.
  - intros n. destruct (decide (n = Name d)) as [->|Hn]; [|by rewrite lookup_insert_ne].
    intros _. rewrite lookup_insert_eq. split; [|by intros ? [= <-]].
    intros d' Hd'. by destruct Hex.
  - intros id [?|[did Hd]]; [done|]. by destruct Hd.
Qed.

Lemma update_confined {A} name (mutate : StoredDestination -> result (StoredDestination * A)) db :
  (forall cur m, mutate cur = Ok m -> owns cur) ->
  confined db (pg_UpdateDestination name mutate db).2.
Proof.
  intros Ho. unfold pg_UpdateDestination. destruct (destinations db !! name) as [cur|] eqn:Hcur; [|apply confined_refl].
  destruct (mutate cur) as [[m a]|e] eqn:Hm; [|apply confined_refl]. cbv zeta.
  apply Ho in Hm. case_match; [apply confined_refl|]. split; simpl.
  - intros n. destruct (decide (n = name)) as [->|Hn]; [|by rewrite lookup_insert_ne].
    intros _. rewrite lookup_insert_eq, Hcur. split; by intros ? [= <-].
  - intros id [?|[did Hd]]; [done|]. by destruct Hd.
Qed.

Lemma delete_confined name db :
  confined db (pg_DeleteDestinationOwnedBy name appID db).2.
Proof.
  unfold pg_DeleteDestinationOwnedBy, delete_destination_where.
  destruct (destinations db !! name) as [cur|] eqn:Hcur; [|apply confined_refl].
  case_match eqn:Ho; [apply confined_refl|]. case_match; [apply confined_refl|]. bool_hyps.
  split; simpl; [|intros id [?|[did Hd]]; [done|by destruct Hd]].
  intros n. destruct (decide (n = name)) as [->|Hn]; [|by rewrite lookup_delete_ne].
  intros _. rewrite lookup_delete_eq, Hcur. split; [by intros ? [= <-]|done].
Qed.

Lemma pg_InsertRoute_confined route db :
  wf db -> owned_app (ownerKindOrOperator (Route_OwnerKind route)) (Route_OwnerAppID route) appID = true ->
  confined db (pg_InsertRoute route db).2.
Proof.
  intros Hwf Ho. unfold pg_InsertRoute, WithTx.
  match goal with |- context [?m db] => destruct (m db) as [[a|e] db'] eqn:Hrun end; [|apply confined_refl].
  apply m_bind_ok in Hrun as (ids & db1 & Hres & Hrun).
  apply (resolve_usable _ _ _ _ _ Hwf) in Hres as [-> _].
  apply m_bind_ok in Hrun as (rid & db2 & Hins & Hrun). cbv zeta in Hins.
  destruct (negb _) in Hins; [done|]. destruct (route_conflict _ _ _) in Hins; [done|].
  injection Hins as <- <-. apply m_bind_ok in Hrun as ([] & db3 & [= <-] & Hrun).
  apply queryRoute_ok in Hrun as [-> _]. split; simpl; [done|].
  assert (Hfresh : routes db !! next_route_id db = None).
  { destruct (routes db !! next_route_id db) eqn:E; [|done]. apply (wf_route _ Hwf) in E. lia. }
  intros id Hch. assert (id = next_route_id db) as ->.
  { destruct (decide (id = next_route_id db)) as [|Hne]; [done|exfalso].
    destruct Hch as [Hr|[did Hl]]; [by rewrite lookup_insert_ne in Hr|].
    apply Hl. split; [|set_solver]. by intros [[? _]|?]%elem_of_links. }
  rewrite lookup_insert_eq, Hfresh. split; [done|]. by intros r [= <-].
Qed.

Lemma pg_UpdateRoute_confined id mutate db :
  wf db ->
  (forall cur m, mutate cur = Ok m -> owned_app (Route_OwnerKind cur) (Route_OwnerAppID cur) appID = true) ->
  confined db (pg_UpdateRoute id mutate db).2.
Proof.
  intros Hwf Ho. unfold pg_UpdateRoute, WithTx.
  match goal with |- context [?m db] => destruct (m db) as [[a|e] db'] eqn:Hrun end; [|apply confined_refl].
  apply m_bind_ok in Hrun as (cur & db1 & Hq & Hrun).
  apply queryRoute_ok in Hq as (-> & row0 & Hrow0 & ->).
  apply m_bind_ok in Hrun as (mutated & db1 & Hm & Hrun). injection Hm as Hm <-. apply Ho in Hm.
  apply m_bind_ok in Hrun as (ids & db1 & Hres & Hrun).
  apply (resolve_usable _ _ _ _ _ Hwf) in Hres as [-> _].
  apply m_bind_ok in Hrun as ([] & db2 & Hupd & Hrun). rewrite Hrow0 in Hupd. cbv zeta in Hupd.
  destruct (negb _) in Hupd; [done|]. destruct (route_conflict _ _ _) in Hupd; [done|].
  injection Hupd as <-. apply m_bind_ok in Hrun as ([] & db3 & [= <-] & Hrun).
  apply m_bind_ok in Hrun as ([] & db4 & [= <-] & Hrun). apply queryRoute_ok in Hrun as [-> _].
  split; simpl; [done|]. intros id' Hch. assert (id' = id) as ->.
  { destruct (decide (id' = id)) as [|Hne]; [done|exfalso].
    destruct Hch as [Hr|[did Hl]]; [by rewrite lookup_insert_ne in Hr|]. apply Hl. split.
    - intros [[? _]|Hin]%elem_of_links; [done|]. by apply elem_of_filter in Hin as [_ ?].
    - intros Hin. apply elem_of_union_r, elem_of_filter. done. }
  rewrite lookup_insert_eq, Hrow0. by split; intros r [= <-].
Qed.

Lemma delete_route_confined id db : confined db (pg_DeleteRouteOwnedBy id appID db).2.
Proof.
  unfold pg_DeleteRouteOwnedBy, delete_route_where.
  destruct (routes db !! id) as [r|] eqn:Hr; [|apply confined_refl].
  case_match eqn:Ho; [|apply confined_refl]. split; simpl; [done|].
  intros id' Hch. assert (id' = id) as ->.
  { destruct (decide (id' = id)) as [|Hne]; [done|exfalso].
    destruct Hch as [Hch|[did Hl]]; [by rewrite lookup_delete_ne in Hch|]. apply Hl. split.
    - by intros [_ ?]%elem_of_filter.
    - intros Hin. by apply elem_of_filter. }
  rewrite lookup_delete_eq, Hr. split; [by intros ? [= <-]|done].
Qed.

Lemma getOwned_state name db r db' : getOwnedDestination appID name db = (r, db') ->
  db' = db /\ forall d, r = Ok d -> ownedByApp d appID = true.
Proof.
  unfold getOwnedDestination, mbind, m_bind, m_check. destruct (validateOwnerAppID appID); simpl.
  { intros [= <- <-]. done. }
  unfold pg_GetDestination. destruct (destinations db !! name) as [d|]; [|by intros [= <- <-]].
  destruct (ownedByApp d appID) eqn:Ho; intros [= <- <-]; [|done]. split; [done|].
  by intros d' [= <-].
Qed.

(** What follows a locked update, or any query: it leaves the state alone. *)
Lemma view_effect {A B} (P : DB -> Prop) (m : M DB A) (g : A -> B) db :
  P (m db).2 -> P ((m ≫= (fun a => mret (g a))) db).2.
Proof. intros HP. apply bind_effect; intros ? ? Hm; by rewrite Hm in HP. Qed.

Lemma sameOwned_owns locked current : sameOwnedRow locked current appID = true -> owns locked.
Proof. intros Hs. unfold sameOwnedRow in Hs. bool_hyps. by apply ownedByApp_owns. Qed.

Lemma routeOwned_owned r : routeOwnedByApp r appID = true ->
  owned_app (Route_OwnerKind r) (Route_OwnerAppID r) appID = true.
Proof. unfold routeOwnedByApp, owned_app. intros Ho. bool_hyps. by rewrite H2, H1. Qed.

Lemma owned_new : owned_app (ownerKindOrOperator OwnerApp) (Some appID) appID = true.
Proof. exact (String.eqb_refl appID). Qed.

(** A deletion whose row count decides the answer. *)
Lemma deleted_effect (P : DB -> Prop) (m : M DB bool) (e : error) db :
  P (m db).2 -> P ((m ≫= (fun deleted => if negb deleted then m_fail e else mret tt)) db).2.
Proof.
  intros HP. apply bind_effect; intros [] ? Hm; rewrite Hm in HP; done.
Qed.

(** Apps are isolated from each other and from the operator.  Whatever an app
    asks of the app-scoped API (create, update, rotate or delete a destination;
    create, update or delete a route), with whatever input, every destination row,
    route row and route link that differs afterwards belongs to that app before and
    after: no foreign row is changed, removed, re-owned or linked, and no row it
    creates has another owner. *)
Theorem app_writes_confined f db :
  app_write f -> reachable db -> confined db (f db).
Proof.
  intros Hf Hwf%tables_wf. destruct Hf.
  - unfold CreateAppDestination. cbv zeta. apply check_effect; [apply confined_refl|intros _].
    unfold insert_new. apply bind_effect; [by intros e db' [= _ <-]; apply confined_refl|].
    intros sealed db' [= _ <-]. apply view_effect, insert_confined, owned_new.
  - unfold UpdateAppDestination. apply bind_effect; intros cur db' [-> _]%getOwned_state; [apply confined_refl|].
    apply check_effect; [apply confined_refl|intros _]. apply view_effect, update_confined.
    intros locked m Hm. destruct (sameOwnedRow locked cur appID) eqn:Hs; [|done]. by apply sameOwned_owns in Hs.
  - unfold DeleteAppDestination. apply check_effect; [apply confined_refl|intros _].
    apply deleted_effect, delete_confined.
  - unfold RotateAppWebhookSecret. apply bind_effect; intros cur db' [-> _]%getOwned_state; [apply confined_refl|].
    apply check_effect; [apply confined_refl|intros _]. apply view_effect, update_confined.
    intros locked m Hm. destruct (sameOwnedRow locked cur appID) eqn:Hs; [|done]. by apply sameOwned_owns in Hs.
  - unfold CreateAppRoute. apply check_effect; [apply confined_refl|intros _].
    apply view_effect, pg_InsertRoute_confined; [done|apply owned_new].
  - unfold UpdateAppRoute. apply check_effect; [apply confined_refl|intros _].
    apply view_effect, pg_UpdateRoute_confined; [done|]. intros cur m Hm.
    destruct (routeOwnedByApp cur appID) eqn:Hs; [|done]. by apply routeOwned_owned.
  - unfold DeleteAppRoute. apply check_effect; [apply confined_refl|intros _].
    apply deleted_effect, delete_route_confined.
Qed.
End isolation.

(** ** Masking and rotation *)

Section masking.
Context `{Std}.

Definition url_host (v : string) : option string := Host <$> url_Parse v.

(** A masked view leaks nothing of a secret but the host of a URL: two secret
    maps with the same keys, whose values may differ in every way except the host
    of the URL-valued keys, have the same mask; and a mask names every key. *)
Theorem MaskSecrets_noninterference (s1 s2 : gmap string string) :
  dom s1 = dom s2 ->
  (forall k v1 v2, s1 !! k = Some v1 -> s2 !! k = Some v2 -> maskKeepsHost k = true ->
     url_host v1 = url_host v2) ->
  MaskSecrets s1 = MaskSecrets s2 /\ dom (MaskSecrets s1) = dom s1.
Proof.
  intros Hdom Hhost. unfold MaskSecrets. split.
  - apply map_eq. intros k. rewrite !map_lookup_imap.
    destruct (s1 !! k) as [v1|] eqn:E1, (s2 !! k) as [v2|] eqn:E2; simpl; try done.
    + destruct (maskKeepsHost k) eqn:Hk; [|done]. specialize (Hhost k v1 v2 E1 E2 Hk).
      unfold url_host, maskURL in *. destruct (url_Parse v1), (url_Parse v2); simplify_eq/=; try done. by rewrite Hhost.
    + apply not_elem_of_dom in E2. rewrite <- Hdom in E2. by apply not_elem_of_dom in E2 as E3; simplify_eq.
    + apply not_elem_of_dom in E1. rewrite Hdom in E1. by apply not_elem_of_dom in E1 as E3; simplify_eq.
  - apply set_eq. intros k. rewrite !elem_of_dom, map_lookup_imap. by destruct (s1 !! k).
Qed.
End masking.

(** *** A generated secret is valid *)

Definition base64url_ok (c : ascii) : bool := (32 <=? byte_val c) && (byte_val c <=? 126).

Lemma base64url_char_ok n : base64url_ok (base64url_char n) = true.
Proof.
  unfold base64url_char. change 63 with (Z.ones 6). rewrite (Z.land_ones n 6) by lia.
  pose proof (Z.mod_pos_bound n (2 ^ 6) ltac:(lia)) as Hb.
  generalize dependent (n mod 2 ^ 6). intros m Hm. clear n.
  assert (Hall : forallb (fun k => let n := Z.of_nat k in base64url_ok
    (if n <? 26 then byte_of (n + 65) else if n <? 52 then byte_of (n + 71)
     else if n <? 62 then byte_of (n - 4) else if n =? 62 then "-"%char else "_"%char)) (seq 0 64) = true)
    by by vm_compute.
  rewrite forallb_forall in Hall. specialize (Hall (Z.to_nat m)). cbv zeta in Hall.
  rewrite Z2Nat.id in Hall by lia. apply Hall, in_seq. lia.
Qed.

(** Three bytes become four characters: the length is 4/3, rounded up. *)
Lemma base64url_shape k bs :
  (length bs < k)%nat ->
  all_chars base64url_ok (base64url bs) = true /\
  4 * Z.of_nat (length bs) <= 3 * len (base64url bs) <= 4 * Z.of_nat (length bs) + 2.
Proof.
  revert bs. induction k as [|k IH]; [lia|]. intros [|a [|b [|c rest]]] Hk; simpl length;
    [by vm_compute|cbn [base64url all_chars]; rewrite !base64url_char_ok; by split..|].
  destruct (IH rest) as [Hok Hlen]; [simpl in Hk; lia|].
  cbn [base64url all_chars]. rewrite !base64url_char_ok, Hok. split; [done|].
  rewrite !len_String. lia.
Qed.

Lemma generated_secret_valid bs : length bs = 32%nat -> validSigningSecret (base64url bs) = true.
Proof.
  intros Hl. destruct (base64url_shape 33 bs) as [Hok Hlen]; [lia|]. rewrite Hl in Hlen.
  change (Z.of_nat 32) with 32 in Hlen.
  unfold validSigningSecret.
  destruct (_ || _) eqn:Hb; [|exact Hok]. apply orb_true_iff in Hb as [Hb|Hb]; bool_hyps;
    unfold minSigningSecretLength, maxSigningSecretLength in *; lia.
Qed.

Lemma printable_valid_utf8 s : all_chars base64url_ok s = true -> ValidString s = true.
Proof.
  intros Hall. apply ValidString_ascii. unfold bytes.
  induction s as [|c s IH]; [constructor|]. simpl in Hall. bool_hyps. csimpl.
  unfold base64url_ok in *. bool_hyps. constructor; [lia|by apply IH].
Qed.

Lemma rejectUnknownKeys_None section fields allowed :
  rejectUnknownKeys section fields allowed = None <-> forall k, k ∈ dom fields -> k ∈ allowed.
Proof.
  unfold rejectUnknownKeys, sort_strings.
  assert (Hin : forall k,
    (k ∈ merge_sort str_le (filter (fun key => key ∉ allowed) (elements (dom fields)))) <->
    (k ∉ allowed /\ k ∈ dom fields)).
  { intros k. by rewrite merge_sort_Permutation, list_elem_of_filter, elem_of_elements. }
  destruct (merge_sort _ _) as [|first rest].
  - split; [|done]. intros _ k Hk. destruct (decide (k ∈ allowed)) as [|Hn]; [done|].
    assert (k ∈ []) as Hnil by by apply Hin. by apply not_elem_of_nil in Hnil.
  - split; [done|]. intros Hall. destruct (proj1 (Hin first)) as [Hn Hd]; [left|]. by apply Hall in Hd.
Qed.

Section rotation.
Context `{StdLaws}.

(** Opening what was sealed for the same destination. *)
Lemma open_sealSecrets sealer nonce name secrets sealed :
  seal.AEAD_laws (seal.aead sealer) -> length nonce = seal.nonceSize -> map_valid_utf8 secrets ->
  sealSecrets sealer (Some nonce) name secrets = Ok sealed ->
  openSecrets sealer name sealed = Ok secrets.
Proof.
  intros Hlaws Hn Hv. unfold sealSecrets, openSecrets, seal.Open. simpl. intros [= <-].
  rewrite seal.OpenReportingKey_sealed; [|done|rewrite (seal.aead_overhead _ Hlaws); lia].
  rewrite (seal.aead_roundtrip _ Hlaws). simpl. by rewrite json_map_roundtrip.
Qed.

Lemma openSecrets_valid sealer name sealed secrets :
  openSecrets sealer name sealed = Ok secrets -> map_valid_utf8 secrets.
Proof.
  unfold openSecrets. destruct (seal.Open _ _ _); [|done]. case_match eqn:Hj; [|done].
  intros [= <-]. by eapply json_unmarshal_valid.
Qed.

(** The maps of a rotated webhook still validate. *)
Lemma rotated_fields_valid config secrets newSecret expiry :
  ValidateDestinationFields TypeWebhook config secrets = None ->
  validSigningSecret newSecret = true -> is_Some (rfc3339_Parse expiry) ->
  ValidateDestinationFields TypeWebhook (<["previous_secret_expires_at" := expiry]> config)
    (<["signing_secret" := newSecret]>
      (<["signing_secret_previous" := field secrets "signing_secret"]> secrets)) = None.
Proof.
  intros Hval Hnew [t Ht]. unfold ValidateDestinationFields in *. simpl in *.
  unfold validateWebhookFields in *. apply first_error_None in Hval. apply first_error_None.
  repeat (apply Forall_cons in Hval as [? Hval]). clear Hval.
  repeat constructor.
  - apply rejectUnknownKeys_None. intros k Hk. rewrite dom_insert in Hk.
    apply elem_of_union in Hk as [->%elem_of_singleton|Hk]; [left|].
    by eapply rejectUnknownKeys_None.
  - apply rejectUnknownKeys_None. intros k Hk. rewrite !dom_insert in Hk.
    apply elem_of_union in Hk as [->%elem_of_singleton|Hk]; [set_solver|].
    apply elem_of_union in Hk as [->%elem_of_singleton|Hk]; [set_solver|].
    by eapply rejectUnknownKeys_None.
  - unfold field in *. by rewrite !lookup_insert_ne.
  - unfold field. rewrite lookup_insert_eq. simpl. by rewrite Hnew.
  - unfold validateRotationFields. cbv zeta. rewrite lookup_insert_ne, lookup_insert_eq, lookup_insert_eq by done.
    simpl. rewrite Ht. destruct (validSigningSecret (field secrets "signing_secret")); [|done]. simpl.
    by repeat case_bool_decide.
Qed.

(** Rotating a webhook's signing secret always succeeds on a valid destination
    and keeps the old secret for the overlap: with 32 random bytes the new secret is
    their base64url text, the resealed secrets open to the old map with
    signing_secret replaced and signing_secret_previous set to the old secret, the
    expiry is now plus the overlap, and the destination's identity, owner, type and
    enabled flag are untouched. *)
Theorem rotateSecret_correct sealer nonce random now cur hours secrets :
  seal.AEAD_laws (seal.aead sealer) -> length nonce = seal.nonceSize -> length random = 32%nat ->
  Type_ cur = TypeWebhook -> openSecrets sealer (Name cur) (SealedSecrets cur) = Ok secrets ->
  ValidateDestinationFields TypeWebhook (Config cur) secrets = None ->
  0 <= now -> 0 <= hours <= 10000 -> now + hours * Hour < 9999 * 365 * 24 * Hour ->
  exists cur',
    rotateSecret sealer (Some nonce) (Some random) now cur hours = Ok (cur', base64url random) /\
    openSecrets sealer (Name cur') (SealedSecrets cur') =
      Ok (<["signing_secret" := base64url random]>
            (<["signing_secret_previous" := field secrets "signing_secret"]> secrets)) /\
    Config cur' = <["previous_secret_expires_at" := rfc3339_Format (now + hours * Hour)]> (Config cur) /\
    same_identity cur cur' /\ Type_ cur' = Type_ cur /\ Enabled cur' = Enabled cur.
Proof.
  intros Hlaws Hn Hr Ht Hopen Hval Hnow Hh Hyear. unfold rotateSecret. rewrite Ht, Hopen. simpl.
  unfold time.Add. rewrite Duration_mul_small; [|unfold in_int64, int64_min, int64_max; lia|
    unfold in_int64, int64_min, int64_max, Hour, Minute, Second, Millisecond, Microsecond; lia].
  set (secrets' := <["signing_secret" := base64url random]> _).
  pose proof (rotated_fields_valid (Config cur) secrets (base64url random)
    (rfc3339_Format (now + hours * Hour)) Hval (generated_secret_valid _ Hr)) as Hval'.
  rewrite rfc3339_roundtrip in Hval' by (unfold Hour, Minute, Second, Millisecond, Microsecond in *; lia).
  fold secrets' in Hval'. rewrite Hval' by done.
  assert (Hv : map_valid_utf8 secrets').
  { apply openSecrets_valid in Hopen. apply map_Forall_insert_2; [split; [done|]|].
    - apply printable_valid_utf8. apply (base64url_shape 33). rewrite Hr. lia.
    - apply map_Forall_insert_2; [|done]. split; [done|]. unfold field.
      destruct (secrets !! "signing_secret") eqn:E; [|done]. by apply Hopen in E as [_ ?]. }
  destruct (sealSecrets sealer (Some nonce) (Name cur) secrets') as [sealed|e] eqn:Hs; [|done].
  simpl. eexists. split; [done|]. split_and!; try done. simpl. by eapply open_sealSecrets.
Qed.
End rotation.

(** ** Concrete runs *)

Module registry_demo.
#[local] Existing Instance toy_std.

Definition demo_service : Service :=
  {| sealer := {| seal.aead := seal.toy_aead 5; seal.previousAEAD := None |}; urlChecker := None |}.
Definition demo_nonce : list Z := repeat 0 12.

Definition demo_destination : StoredDestination :=
  {| ID := 0; Name := "phone"; Type_ := TypeNtfy; Config := {["topic" := "alerts"]};
     SealedSecrets := seal.formatVersion :: demo_nonce ++
       seal.aead_seal (seal.toy_aead 5) demo_nonce (json_marshal_map ∅) (DestinationSecretsAAD "phone");
     Enabled := true; DisabledReason := None; OwnerKind := EmptyString; OwnerAppID := None;
     CreatedAt := 0; UpdatedAt := 0 |}.
Definition demo_route : StoredRoute :=
  {| Route_ID := 0; AppPattern := "*"; ChannelPattern := "ops*"; DestinationIDs := [];
     DestinationNames := ["phone"]; Route_Enabled := true; Route_OwnerKind := OwnerOperator;
     Route_OwnerAppID := None; Route_CreatedAt := 0; Route_UpdatedAt := 0 |}.

Definition demo_db1 : DB := (pg_InsertDestination demo_destination empty_db).2.
Definition demo_db : DB := (pg_InsertRoute demo_route demo_db1).2.

Lemma demo_reachable : reachable demo_db.
Proof.
  eapply rtc_l; [apply (step_insert_destination _ demo_destination)|].
  apply rtc_once, (step_insert_route demo_db1 demo_route).
Qed.

Lemma Resolve_exact_witness :
  exists ds, reached demo_db "chores" "ops_night" ds /\ length ds = 1%nat.
Proof.
  destruct (Resolve_exact demo_service demo_db "chores" "ops_night"
    match (Resolve demo_service "chores" EmptyString "ops_night" demo_db).1 with Ok rs => rs | Err _ => [] end
    demo_db demo_reachable) as (_ & _ & ds & Hds & Hl).
  - vm_compute. reflexivity.
  - exists ds. split; [exact Hds|]. apply Forall2_length in Hl. rewrite Hl. vm_compute. reflexivity.
Defined.

Lemma Resolve_safe_witness :
  Resolve demo_service "chores" "missing" "ops" demo_db = (Err ErrUnknownDestination, demo_db).
Proof.
  refine (proj2 (proj2 (Resolve_safe demo_service "chores" "missing" "ops" demo_db)) demo_db _ _).
  - discriminate.
  - vm_compute. reflexivity.
Defined.

Lemma app_writes_confined_witness :
  confined "chores" demo_db (DeleteAppDestination "chores" "phone" demo_db).2.
Proof.
  exact (app_writes_confined demo_service "chores" _ demo_db (app_delete _ _ "phone") demo_reachable).
Defined.

Lemma MaskSecrets_noninterference_witness :
  MaskSecrets {["url" := "https://example.com/a/token"; "signing_secret" := "one"]} =
  MaskSecrets {["url" := "https://example.com/b"; "signing_secret" := "two"]}.
Proof.
  refine (proj1 (MaskSecrets_noninterference _ _ _ _)); [vm_compute; reflexivity|].
  intros k v1 v2 H1 H2 Hk. unfold maskKeepsHost in Hk. apply orb_true_iff in Hk as [Hk|Hk];
    apply String.eqb_eq in Hk; subst k; vm_compute in H1, H2; [discriminate H1|].
  injection H1 as <-. injection H2 as <-. vm_compute. reflexivity.
Defined.

Definition demo_secrets : gmap string string :=
  {["url" := "https://example.com/hook"; "signing_secret" := unary 40]}.
Definition demo_webhook : StoredDestination :=
  {| ID := 3; Name := "hook"; Type_ := TypeWebhook; Config := ∅;
     SealedSecrets := seal.formatVersion :: demo_nonce ++
       seal.aead_seal (seal.toy_aead 5) demo_nonce (json_marshal_map demo_secrets) (DestinationSecretsAAD "hook");
     Enabled := true; DisabledReason := None; OwnerKind := OwnerOperator; OwnerAppID := None;
     CreatedAt := 0; UpdatedAt := 0 |}.

Lemma rotateSecret_correct_witness :
  exists cur', rotateSecret (sealer demo_service) (Some demo_nonce) (Some (repeat 7 32)) 0 demo_webhook 1 =
    Ok (cur', base64url (repeat 7 32)).
Proof.
  assert (Hopen : openSecrets (sealer demo_service) (Name demo_webhook) (SealedSecrets demo_webhook) =
    Ok demo_secrets).
  { apply (open_sealSecrets (H0 := toy_std_laws) _ demo_nonce); [apply seal.toy_aead_laws|done| |done].
    apply map_Forall_insert_2; [done|]. apply map_Forall_insert_2; [done|]. apply map_Forall_empty. }
  destruct (rotateSecret_correct (H0 := toy_std_laws) (sealer demo_service) demo_nonce (repeat 7 32) 0 demo_webhook 1
    demo_secrets (seal.toy_aead_laws 5) eq_refl eq_refl eq_refl Hopen) as (cur' & Hr & _).
  - vm_compute. reflexivity.
  - lia.
  - lia.
  - vm_compute. reflexivity.
  - exists cur'. exact Hr.
Defined.
End registry_demo.
