(* ===== verification/Heartbeat.v ===== *)
(** * Heartbeat

    Package [heartbeat], its pure part: the data model and patches (types.go), the
    validators and the probe detail sanitiser (validate.go) and the state machine
    (machine.go).  Every function takes the instant it runs at; nothing here reads
    a clock or a database. *)

From S2P Require Import Prelude GoText Utf8 Idents Std Registry.
Open Scope Z_scope.

Module heartbeat.
(** ** types.go *)

Definition StateNew : string := "new".
Definition StateUp : string := "up".
Definition StateDown : string := "down".
Definition StateLate : string := "late".

Definition PingSuccess : string := "success".
Definition PingFail : string := "fail".

Definition ReasonMissed : string := "missed".
Definition ReasonFail : string := "fail".
Definition ReasonHTTPStatus : string := "http_status".
Definition ReasonTimeout : string := "timeout".
Definition ReasonBodyMismatch : string := "body_mismatch".
Definition ReasonBlocked : string := "blocked".
Definition ReasonTLS : string := "tls".
Definition ReasonScheme : string := "scheme".
Definition ReasonNetwork : string := "network".
Definition ReasonConfig : string := "config".

Definition KnownDownReasons : list string :=
  [ReasonMissed; ReasonFail; ReasonHTTPStatus; ReasonTimeout; ReasonBodyMismatch; ReasonBlocked;
   ReasonTLS; ReasonScheme; ReasonNetwork; ReasonConfig].

Definition IsProbeResultReason (reason : string) : bool :=
  bool_decide (reason ∈ [ReasonHTTPStatus; ReasonTimeout; ReasonBodyMismatch; ReasonBlocked;
                         ReasonTLS; ReasonScheme; ReasonNetwork; ReasonConfig]).

Definition IsKnownDownReason (reason : string) : bool := bool_decide (reason ∈ KnownDownReasons).

Definition KindPush : string := "push".
Definition KindProbe : string := "probe".

Definition ProbeFailureThreshold : Z := 3.
Definition MinProbeIntervalSeconds : Z := 60.
Definition MaxProbeIntervalSeconds : Z := 86400.
Definition MinProbeTimeoutSeconds : Z := 1.
Definition MaxProbeTimeoutSeconds : Z := 8.
Definition MaxProbeURLBytes : Z := 2048.
Definition MaxExpectedStatuses : Z := 10.
Definition MaxBodyMatchBytes : Z := 256.
Definition MaxAccessCredentialBytes : Z := 256.
Definition MaxProbeDetailBytes : nat := 256.

Definition AlertDown : string := "down".
Definition AlertRecovered : string := "recovered".

Definition ErrCheckNotFound : error := Sentinel "heartbeat check not found".
Definition ErrCheckExists : error := Sentinel "heartbeat check already exists".
Definition ErrProbeCheckPing : error := Sentinel "heartbeat: push ping on a probe check".

Record DestinationRef := { Ref_Name : string; Ref_Type : string; Ref_Enabled : bool }.

(** A nil status list is [None] in a patch; a config's list is never nil once
    stored, and a nil one has length 0. *)
Record ProbeConfig := {
  URL : string;
  ExpectedStatuses : list Z;
  BodyMatch : option string;
  TimeoutSeconds : Z;
  IntervalSeconds : Z
}.

Record AccessToken := { ClientID : string; ClientSecret : string }.

Record ProbeResultRecord := {
  At : Z;
  Record_Status : option Z;
  Record_Reason : option string;
  Record_Detail : option string
}.

Record ProbeState := {
  Probe_Config : ProbeConfig;
  HasAccessToken : bool;
  SealedAccessToken : option (list Z);
  ConsecutiveFailures : Z;
  NextProbeAt : Z;
  ConfigVersion : Z;
  LastResult : option ProbeResultRecord;
  DownDetail : option string
}.

Record ProbeResult := {
  Result_Status : option Z;
  Result_Reason : option string;
  Result_Detail : string
}.

Record StoredCheck := {
  ID : Z;
  AppID : string;
  Name : string;
  PeriodSeconds : Z;
  GraceSeconds : Z;
  State : string;
  Paused : bool;
  AnchorAt : Z;
  LastPingAt : option Z;
  LastPingKind : option string;
  DownSince : option Z;
  DownReason : option string;
  AlertSeq : Z;
  PendingAlert : option string;
  Destinations : list DestinationRef;
  OwnerKind : string;
  OwnerAppID : option string;
  CreatedAt : Z;
  UpdatedAt : Z;
  Probe : option ProbeState
}.

Definition Kind (check : StoredCheck) : string :=
  match Probe check with Some _ => KindProbe | None => KindPush end.

Record NewCheck := {
  New_AppID : string;
  New_Name : string;
  New_PeriodSeconds : Z;
  New_GraceSeconds : Z;
  New_DestinationNames : list string;
  New_OwnerKind : string;
  New_OwnerAppID : option string;
  New_Probe : option ProbeConfig;
  New_AccessToken : option AccessToken;
  ScheduleSupplied : bool
}.

(** [AccessTokenAction], an int: any value but the three constants is invalid. *)
Inductive AccessTokenAction : Type :=
  | AccessTokenUnchanged
  | AccessTokenReplace
  | AccessTokenClear
  | AccessTokenInvalid (n : Z).

Record AccessTokenPatch := { Action : AccessTokenAction; Token : AccessToken }.

Record CheckUpdate := {
  Update_PeriodSeconds : Z;
  Update_GraceSeconds : Z;
  Update_DestinationNames : list string;
  Update_Probe : option ProbeConfig;
  Update_AccessToken : AccessTokenPatch
}.

Record ProbePatch := {
  PP_URL : option string;
  PP_ExpectedStatuses : option (list Z);
  PP_BodyMatch : option string;
  ClearBodyMatch : bool;
  PP_TimeoutSeconds : option Z;
  PP_IntervalSeconds : option Z
}.

Record CheckPatch := {
  CP_PeriodSeconds : option Z;
  CP_GraceSeconds : option Z;
  CP_DestinationNames : option (list string);
  CP_Probe : option ProbePatch;
  CP_AccessToken : AccessTokenPatch
}.

Definition is_unchanged (a : AccessTokenAction) : bool :=
  match a with AccessTokenUnchanged => true | _ => false end.

Definition IsEmpty (patch : CheckPatch) : bool :=
  bool_decide (CP_PeriodSeconds patch = None) && bool_decide (CP_GraceSeconds patch = None) &&
  bool_decide (CP_DestinationNames patch = None) &&
  match CP_Probe patch with None => true | Some _ => false end &&
  is_unchanged (Action (CP_AccessToken patch)).

Definition NormalizeStatuses (statuses : list Z) : list Z := sort_ints statuses.

Definition mergeProbeConfig (current : ProbeConfig) (patch : option ProbePatch) : ProbeConfig :=
  let merged := current {{ ExpectedStatuses := NormalizeStatuses (ExpectedStatuses current) }} in
  match patch with
  | None => merged
  | Some patch =>
    merged {{ URL := default (URL merged) (PP_URL patch);
              ExpectedStatuses := match PP_ExpectedStatuses patch with
                                  | Some statuses => NormalizeStatuses statuses
                                  | None => ExpectedStatuses merged
                                  end;
              BodyMatch := if ClearBodyMatch patch then None
                           else match PP_BodyMatch patch with
                                | Some b => Some b | None => BodyMatch merged end;
              TimeoutSeconds := default (TimeoutSeconds merged) (PP_TimeoutSeconds patch);
              IntervalSeconds := default (IntervalSeconds merged) (PP_IntervalSeconds patch) }}
  end.

(** period = interval, grace = interval * (threshold + 1), on 64-bit ints *)
Definition DerivedSchedule (intervalSeconds : Z) : Z * Z :=
  (intervalSeconds, wrap64 (intervalSeconds * (ProbeFailureThreshold + 1))).

Definition ApplyPatch (current : StoredCheck) (patch : CheckPatch) : CheckUpdate :=
  let update :=
    {| Update_PeriodSeconds := default (PeriodSeconds current) (CP_PeriodSeconds patch);
       Update_GraceSeconds := default (GraceSeconds current) (CP_GraceSeconds patch);
       Update_DestinationNames := default (Ref_Name <$> Destinations current) (CP_DestinationNames patch);
       Update_Probe := None;
       Update_AccessToken := CP_AccessToken patch |} in
  match Probe current with
  | None => update
  | Some probe =>
    let merged := mergeProbeConfig (Probe_Config probe) (CP_Probe patch) in
    let schedule := DerivedSchedule (IntervalSeconds merged) in
    update {{ Update_Probe := Some merged; Update_PeriodSeconds := schedule.1;
              Update_GraceSeconds := schedule.2 }}
  end.

Definition ProbeConfigChanged (current merged : ProbeConfig) (token : AccessTokenPatch) : bool :=
  match Action token with
  | AccessTokenReplace | AccessTokenClear => true
  | _ =>
    if negb (String.eqb (URL current) (URL merged)) ||
       negb (TimeoutSeconds current =? TimeoutSeconds merged) ||
       negb (IntervalSeconds current =? IntervalSeconds merged) then true
    else if negb (bool_decide (NormalizeStatuses (ExpectedStatuses current) =
                               NormalizeStatuses (ExpectedStatuses merged))) then true
    else match BodyMatch current, BodyMatch merged with
         | None, None => false
         | Some a, Some b => negb (String.eqb a b)
         | _, _ => true
         end
  end.

(** ** validate.go *)

Definition messageInvalidAccessToken : string := "invalid probe.access_token".
Definition messageProbeOnPush : string := "probe config is not allowed on a push check".
Definition messageDerivedSchedule : string :=
  "period_seconds and grace_seconds are derived for probe checks".
Definition MessageProbeOnAppOwned : string := "probe config is not allowed on an app-owned check".

(** [namePattern] and [destinationNamePattern] *)
Definition namePattern (s : string) : bool := match_slug 62 s.
Definition destinationNamePattern (s : string) : bool := match_slug 62 s.

Definition MinPeriodSeconds : Z := 60.
Definition MaxPeriodSeconds : Z := 2678400.
Definition MinGraceSeconds : Z := 60.
Definition MaxGraceSeconds : Z := 604800.
Definition MinDestinations : Z := 1.
Definition MaxDestinations : Z := 20.

Definition ValidateAppID (appID : string) : option error :=
  match appid.ValidateAppID appID with
  | Some e => Some (ValidationError (Error e))
  | None => None
  end.

Definition ValidateName (name : string) : option error :=
  if negb (namePattern name) then Some (ValidationError "invalid name") else None.

Definition ValidatePeriodSeconds (periodSeconds : Z) : option error :=
  if (periodSeconds <? MinPeriodSeconds) || (MaxPeriodSeconds <? periodSeconds)
  then Some (ValidationError "invalid period_seconds") else None.

Definition ValidateGraceSeconds (graceSeconds : Z) : option error :=
  if (graceSeconds <? MinGraceSeconds) || (MaxGraceSeconds <? graceSeconds)
  then Some (ValidationError "invalid grace_seconds") else None.

Definition ValidateDestinations (names : list string) : option error :=
  let n := Z.of_nat (length names) in
  if (n <? MinDestinations) || (MaxDestinations <? n) then Some (ValidationError "invalid destinations")
  else if registry.distinct_names destinationNamePattern ∅ names then None
  else Some (ValidationError "invalid destinations").

Definition ValidatePingKind (kind : string) : option error :=
  if String.eqb kind PingSuccess || String.eqb kind PingFail then None
  else Some (ValidationError "invalid kind").

Definition ValidateSchedule (periodSeconds graceSeconds : Z) (destinationNames : list string)
    : option error :=
  first_error [ ValidatePeriodSeconds periodSeconds; ValidateGraceSeconds graceSeconds;
                ValidateDestinations destinationNames ].

Definition validAccessCredential (value : string) : bool :=
  if (len value <? 1) || (MaxAccessCredentialBytes <? len value) then false
  else all_chars (fun c => (33 <=? byte_val c) && (byte_val c <=? 126)) value.

Definition ValidateAccessToken (token : AccessToken) : option error :=
  if negb (validAccessCredential (ClientID token)) || negb (validAccessCredential (ClientSecret token))
  then Some (ValidationError messageInvalidAccessToken) else None.

Definition validBodyMatch (value : string) : bool :=
  (1 <=? len value) && (len value <=? MaxBodyMatchBytes) && ValidString value &&
  negb (bool_decide (0 ∈ bytes value)).

(** [for _, status := range statuses { if out of range || seen ... }] *)
Fixpoint distinct_statuses (seen : gset Z) (statuses : list Z) : bool :=
  match statuses with
  | [] => true
  | status :: rest =>
    if (status <? 100) || (599 <? status) || bool_decide (status ∈ seen) then false
    else distinct_statuses ({[status]} ∪ seen) rest
  end.
Definition validExpectedStatuses (statuses : list Z) : bool :=
  let n := Z.of_nat (length statuses) in
  if (n <? 1) || (MaxExpectedStatuses <? n) then false else distinct_statuses ∅ statuses.

Section std.
Context `{Std}.

Definition validProbeURL (raw : string) : bool :=
  if (MaxProbeURLBytes <? len raw) || negb (HasPrefix raw "https://") || Contains raw "#" then false
  else
    match url_Parse raw with
    | None => false
    | Some parsed =>
      if negb (String.eqb (Scheme parsed) "https") || User parsed ||
         negb (String.eqb (Fragment parsed) EmptyString) then false
      else
        let host := strings_ToLower (TrimSuffix (Hostname parsed) ".") in
        if String.eqb host EmptyString || String.eqb host "localhost" || HasSuffix host ".localhost"
        then false
        else negb (netip_ParseAddr_ok host)
    end.

Definition ValidateProbeConfig (config : ProbeConfig) : option error :=
  if negb (validProbeURL (URL config)) then Some (ValidationError "invalid probe.url")
  else if negb (validExpectedStatuses (ExpectedStatuses config))
  then Some (ValidationError "invalid probe.expected_statuses")
  else if match BodyMatch config with Some b => negb (validBodyMatch b) | None => false end
  then Some (ValidationError "invalid probe.body_match")
  else if (IntervalSeconds config <? MinProbeIntervalSeconds) ||
          (MaxProbeIntervalSeconds <? IntervalSeconds config)
  then Some (ValidationError "invalid probe.interval_seconds")
  else if (TimeoutSeconds config <? MinProbeTimeoutSeconds) ||
          (MaxProbeTimeoutSeconds <? TimeoutSeconds config) ||
          (IntervalSeconds config <=? TimeoutSeconds config)
  then Some (ValidationError "invalid probe.timeout_seconds")
  else None.

Definition ValidateNewCheck (check : NewCheck) : option error :=
  first_error
    [ ValidateAppID (New_AppID check);
      ValidateName (New_Name check);
      (if (bool_decide (is_Some (New_Probe check)) || bool_decide (is_Some (New_AccessToken check))) &&
          negb (String.eqb (New_OwnerKind check) EmptyString) &&
          negb (String.eqb (New_OwnerKind check) registry.OwnerOperator)
       then Some (ValidationError MessageProbeOnAppOwned) else None);
      match New_Probe check with
      | None =>
        match New_AccessToken check with
        | Some _ => Some (ValidationError messageInvalidAccessToken)
        | None => ValidateSchedule (New_PeriodSeconds check) (New_GraceSeconds check)
                    (New_DestinationNames check)
        end
      | Some probe =>
        first_error
          [ (if ScheduleSupplied check || negb (New_PeriodSeconds check =? 0) ||
                negb (New_GraceSeconds check =? 0)
             then Some (ValidationError messageDerivedSchedule) else None);
            ValidateProbeConfig probe;
            New_AccessToken check ≫= ValidateAccessToken;
            let schedule := DerivedSchedule (IntervalSeconds probe) in
            ValidateSchedule schedule.1 schedule.2 (New_DestinationNames check) ]
      end ].

Definition ValidateCheckUpdate (update : CheckUpdate) : option error :=
  first_error
    [ Update_Probe update ≫= ValidateProbeConfig;
      match Action (Update_AccessToken update) with
      | AccessTokenUnchanged | AccessTokenClear => None
      | AccessTokenReplace => ValidateAccessToken (Token (Update_AccessToken update))
      | AccessTokenInvalid _ => Some (ValidationError messageInvalidAccessToken)
      end;
      ValidateSchedule (Update_PeriodSeconds update) (Update_GraceSeconds update)
        (Update_DestinationNames update) ].
End std.

Definition ValidateCheckPatchForKind (current : StoredCheck) (patch : CheckPatch) : option error :=
  if String.eqb (Kind current) KindProbe then
    if bool_decide (is_Some (CP_PeriodSeconds patch)) || bool_decide (is_Some (CP_GraceSeconds patch))
    then Some (ValidationError messageDerivedSchedule) else None
  else if match CP_Probe patch with Some _ => true | None => false end ||
          negb (is_unchanged (Action (CP_AccessToken patch)))
  then Some (ValidationError messageProbeOnPush) else None.

(** *** The detail sanitiser *)

(** [(?i)https?://]: under case folding, the long s also matches s. *)
Definition is_code (codes : list Z) (r : rune) : bool := existsb (Z.eqb (rune_code r)) codes.
Definition match_separator (matched rs : list rune) : option (list rune * list rune) :=
  match rs with
  | c :: s1 :: s2 :: rest =>
    if is_code [58] c && is_code [47] s1 && is_code [47] s2 then Some (matched ++ [c; s1; s2], rest)
    else None
  | _ => None
  end.
Definition match_scheme (rs : list rune) : option (list rune * list rune) :=
  match rs with
  | h :: t1 :: t2 :: p :: rest =>
    if is_code [104; 72] h && is_code [116; 84] t1 && is_code [116; 84] t2 && is_code [112; 80] p then
      match rest with
      | s :: rest' =>
        if is_code [115; 83; 383] s then match_separator [h; t1; t2; p; s] rest'
        else match_separator [h; t1; t2; p] rest
      | [] => None
      end
    else None
  | _ => None
  end.

(** The class of a URL's characters: not white space (tab, newline, form feed,
    carriage return, space), a quote, a double quote or an angle bracket. *)
Definition url_rune (r : rune) : bool := negb (is_code [9; 10; 12; 13; 32; 34; 39; 60; 62] r).
Fixpoint span_url (rs : list rune) : list rune * list rune :=
  match rs with
  | r :: rest => if url_rune r then let p := span_url rest in (r :: p.1, p.2) else ([], rs)
  | [] => ([], [])
  end.

(** The bytes up to and including the first colon-slash-slash, and the rest. *)
Fixpoint split_scheme (raw : list Z) : list Z * list Z :=
  match raw with
  | 58 :: 47 :: 47 :: rest => ([58; 47; 47], rest)
  | b :: rest => let p := split_scheme rest in (b :: p.1, p.2)
  | [] => ([], [])
  end.
Fixpoint before_any (stops raw : list Z) : list Z :=
  match raw with
  | b :: rest => if existsb (Z.eqb b) stops then [] else b :: before_any stops rest
  | [] => []
  end.
(** What follows the last at sign, or everything. *)
Definition after_last_at (raw : list Z) : list Z := rev (before_any [64] (rev raw)).

Definition redactURL (raw : list Z) : list Z :=
  let p := split_scheme raw in
  let authority := before_any [47; 63; 35] p.2 in
  p.1 ++ after_last_at authority.

(** [probeDetailURLPattern.ReplaceAllStringFunc(detail, redactURL)]; the fuel is
    the number of runes. *)
Fixpoint redact_urls (fuel : nat) (rs : list rune) : list Z :=
  match fuel, rs with
  | O, _ => encode rs
  | S _, [] => []
  | S n, r :: rest =>
    match match_scheme rs with
    | Some (scheme, tail) =>
      let p := span_url tail in redactURL (encode (scheme ++ p.1)) ++ redact_urls n p.2
    | None => rune_enc r ++ redact_urls n rest
    end
  end.

Definition control_to_space (r : rune) : rune := if IsControl (rune_code r) then space else r.

Definition SanitizeProbeDetail (detail : string) : string :=
  let rs := decode (bytes detail) in
  let redacted := ToValidUTF8 (redact_urls (length rs) rs) in
  let redacted := encode (control_to_space <$> decode redacted) in
  of_bytes (truncate_runes MaxProbeDetailBytes (TrimSpace redacted)).

#[global] Arguments SanitizeProbeDetail : simpl never.

(** ** machine.go *)

Definition Deadline (check : StoredCheck) : Z :=
  time.Add (AnchorAt check) (Duration_mul (wrap64 (PeriodSeconds check + GraceSeconds check)) Second).

Definition DerivedState (check : StoredCheck) (now : Z) : string :=
  match Probe check with
  | Some _ => State check
  | None =>
    if String.eqb (State check) StateUp &&
       time.After now (time.Add (AnchorAt check) (Duration_mul (PeriodSeconds check) Second))
    then StateLate else State check
  end.

Definition ActiveDownSince (check : StoredCheck) : option Z :=
  if negb (String.eqb (State check) StateDown) then None else DownSince check.

Definition emitAlert (check : StoredCheck) (kind : string) : StoredCheck :=
  check {{ AlertSeq := wrap64 (AlertSeq check + 1); PendingAlert := Some kind }}.

(** The switch of [ApplyPing]: the state after the ping, or [None] for a kind or
    state the machine does not know. *)
Definition ping_transition (check : StoredCheck) (kind : string) (now : Z) : option StoredCheck :=
  if String.eqb kind PingSuccess then
    if String.eqb (State check) StateNew then Some (check {{ State := StateUp }})
    else if String.eqb (State check) StateUp then Some check
    else if String.eqb (State check) StateDown then Some (check {{ State := StateUp; DownReason := None }})
    else None
  else if String.eqb kind PingFail then
    if String.eqb (State check) StateNew || String.eqb (State check) StateUp then
      Some (check {{ State := StateDown; DownSince := Some now; DownReason := Some ReasonFail }})
    else if String.eqb (State check) StateDown then Some check
    else None
  else None.

Definition ApplyPing (check : StoredCheck) (kind : string) (now : Z) : StoredCheck * bool :=
  match Probe check with
  | Some _ => (check, false)
  | None =>
    match ping_transition check kind now with
    | None => (check, false)
    | Some next =>
      let next := next {{ LastPingAt := Some now; LastPingKind := Some kind; AnchorAt := now }} in
      if String.eqb (State next) (State check) then (next, false)
      else if Paused check then (next {{ PendingAlert := None }}, false)
      else if String.eqb (State next) StateDown then (emitAlert next AlertDown, true)
      else if String.eqb (State check) StateDown then (emitAlert next AlertRecovered, true)
      else (next, false)
    end
  end.

(** [cloneProbe] copies; a value shares nothing. *)
Definition cloneProbe (state : ProbeState) : ProbeState := state.

Definition AdvanceTick (check : StoredCheck) (now : Z) : StoredCheck * bool :=
  if Paused check || (negb (String.eqb (State check) StateNew) && negb (String.eqb (State check) StateUp))
  then (check, false)
  else if negb (time.After now (Deadline check)) then (check, false)
  else
    let next := check {{ State := StateDown; DownSince := Some now; DownReason := Some ReasonMissed }} in
    let next := next {{ Probe := (fun p => (cloneProbe p) {{ DownDetail := None }}) <$> Probe check }} in
    (emitAlert next AlertDown, true).

Definition ApplyPause (check : StoredCheck) : StoredCheck :=
  let next :=
    if Paused check then check
    else check {{ Probe := (fun p => (cloneProbe p) {{ ConfigVersion := wrap64 (ConfigVersion p + 1) }})
                             <$> Probe check }} in
  next {{ Paused := true; PendingAlert := None }}.

Definition ApplyProbeReset (check : StoredCheck) (now : Z) : StoredCheck :=
  match Probe check with
  | None => check
  | Some p =>
    check {{ Probe := Some ((cloneProbe p) {{
               ConsecutiveFailures := 0;
               LastResult := None;
               ConfigVersion := wrap64 (ConfigVersion p + 1);
               NextProbeAt := time.Add now (Duration_mul (IntervalSeconds (Probe_Config p)) Second) }});
             AnchorAt := now }}
  end.

Definition ApplyResume (check : StoredCheck) (now : Z) : StoredCheck :=
  if negb (Paused check) then check
  else
    let next := check {{ Paused := false; AnchorAt := now }} in
    match Probe check with
    | Some _ => ApplyProbeReset next now
    | None => next
    end.

Definition storableProbeStatus (status : option Z) : option Z :=
  match status with
  | None => None
  | Some s => if (s <? 100) || (599 <? s) then None else Some s
  end.

Definition ApplyProbeResult (check : StoredCheck) (result : ProbeResult) (now holdOffUntil : Z)
    : StoredCheck * bool * bool :=
  match Probe check with
  | None => (check, false, false)
  | Some probe =>
    if Paused check then (check, false, false)
    else if negb (String.eqb (State check) StateNew) && negb (String.eqb (State check) StateUp) &&
            negb (String.eqb (State check) StateDown) then (check, false, false)
    else
      let detail :=
        let sanitised := SanitizeProbeDetail (Result_Detail result) in
        if String.eqb sanitised EmptyString then None else Some sanitised in
      let probe := (cloneProbe probe) {{ LastResult := Some
        {| At := now; Record_Status := storableProbeStatus (Result_Status result);
           Record_Reason := Result_Reason result; Record_Detail := detail |} }} in
      let next := check {{ AnchorAt := now }} in
      match Result_Reason result with
      | None =>
        let probe := probe {{ ConsecutiveFailures := 0 }} in
        let next := next {{ LastPingAt := Some now; LastPingKind := Some PingSuccess }} in
        if String.eqb (State check) StateDown then
          (emitAlert (next {{ State := StateUp; DownReason := None;
                              Probe := Some (probe {{ DownDetail := None }}) }}) AlertRecovered, true, true)
        else (next {{ State := StateUp; Probe := Some probe }}, true, false)
      | Some reason =>
        if negb (IsProbeResultReason reason) then (check, false, false)
        else
          let failures := wrap64 (ConsecutiveFailures probe + 1) in
          let probe := probe {{ ConsecutiveFailures := failures }} in
          if String.eqb (State check) StateDown then
            if bool_decide (DownReason check = Some ReasonMissed) then
              (next {{ DownReason := Some reason; Probe := Some (probe {{ DownDetail := detail }}) }},
               true, false)
            else (next {{ Probe := Some probe }}, true, false)
          else if (failures <? ProbeFailureThreshold) || time.Before now holdOffUntil
          then (next {{ Probe := Some probe }}, true, false)
          else
            (emitAlert (next {{ State := StateDown; DownSince := Some now; DownReason := Some reason;
                                Probe := Some (probe {{ DownDetail := detail }}) }}) AlertDown, true, true)
      end
  end.
End heartbeat.
