(* ===== verification/HeartbeatProps.v ===== *)
(** * HeartbeatProps

    What the check state machine promises: its invariant over every run, that
    alerts alternate, exact branch behaviour of pings, ticks and probe results, the
    bounds of what it stores, and that patches merge field by field. *)

From S2P Require Import Prelude GoText Utf8 Idents Std Registry Heartbeat.
Open Scope Z_scope.
Import heartbeat.

(** ** The sanitiser *)

Lemma control_to_space_ok r :
  rune_wf r -> rune_valid r = true ->
  rune_wf (control_to_space r) /\ rune_valid (control_to_space r) = true /\
  IsControl (rune_code (control_to_space r)) = false.
Proof. intros Hw Hv. unfold control_to_space. case_match; [split_and!; [apply space_wf|done|done]|done]. Qed.

(** A run of the pipeline leaves runes that are valid and printable. *)
Definition clean (r : rune) : Prop :=
  rune_wf r /\ rune_valid r = true /\ IsControl (rune_code r) = false.

Lemma clean_decode rs : Forall clean rs -> decode (encode rs) = rs.
Proof.
  intros H. apply decode_encode.
  - eapply Forall_impl; [exact H|]. by intros r [? _].
  - apply forallb_Forall. eapply Forall_impl; [exact H|]. by intros r (_ & ? & _).
Qed.

Lemma clean_bytes bs : Forall clean (decode bs) -> Forall (fun b => 0 <= b < 256) bs ->
  ValidString (of_bytes bs) = true.
Proof.
  intros H Hb. unfold ValidString. rewrite bytes_of_bytes by done. apply forallb_Forall.
  eapply Forall_impl; [exact H|]. by intros r (_ & ? & _).
Qed.

Lemma Forall_encode (P : Z -> Prop) rs : Forall P (encode rs) <-> Forall (fun r => Forall P (rune_enc r)) rs.
Proof. induction rs; csimpl; [done|]. by rewrite Forall_app, Forall_cons, IHrs. Qed.

Lemma redact_bytes fuel rs : Forall (fun b => 0 <= b < 256) (encode rs) ->
  Forall (fun b => 0 <= b < 256) (redact_urls fuel rs).
Proof.
  set (P := fun b => 0 <= b < 256).
  assert (Hsplit : forall raw, Forall P raw -> Forall P (split_scheme raw).1 /\ Forall P (split_scheme raw).2).
  { induction raw as [|b raw IH]; [done|]. intros [Hb Hraw]%Forall_cons.
    destruct (IH Hraw). cbn [split_scheme].
    repeat case_match; subst; repeat (apply Forall_cons in Hraw as [? Hraw]); simpl; auto. }
  assert (Hbefore : forall stops raw, Forall P raw -> Forall P (before_any stops raw)).
  { induction 1; simpl; [done|]. case_match; auto. }
  assert (Hsep : forall m rs' x y, match_separator m rs' = Some (x, y) ->
    encode (m ++ rs') = encode (x ++ y)).
  { intros m rs' x y. unfold match_separator. repeat case_match; intros [= <- <-]. by rewrite <- app_assoc. }
  assert (Hscheme : forall rs' x y, match_scheme rs' = Some (x, y) -> encode rs' = encode (x ++ y)).
  { intros rs' x y. unfold match_scheme. repeat case_match; try done; intros H'; apply Hsep in H'; done. }
  assert (Hspan : forall rs', rs' = (span_url rs').1 ++ (span_url rs').2).
  { induction rs' as [|r rs' IH]; [done|]. simpl. case_match; [simpl; by f_equal|done]. }
  revert rs. induction fuel as [|n IH]; intros rs Hrs; [done|]. destruct rs as [|r rest]; [constructor|].
  cbn [redact_urls]. destruct (match_scheme (r :: rest)) as [[scheme tail]|] eqn:E.
  - apply Hscheme in E. rewrite E in Hrs. cbv zeta. rewrite (Hspan tail) in Hrs.
    unfold encode in Hrs. rewrite !bind_app, !Forall_app in Hrs. destruct Hrs as (H1 & H2 & H3).
    apply Forall_app. split; [|by apply IH]. unfold redactURL. cbv zeta.
    destruct (Hsplit (encode (scheme ++ (span_url tail).1))) as [Ha Hb].
    { unfold encode. rewrite bind_app. by apply Forall_app. }
    apply Forall_app. split; [done|]. unfold after_last_at. by apply Forall_rev, Hbefore, Forall_rev, Hbefore.
  - unfold encode in Hrs. csimpl in Hrs. apply Forall_app in Hrs as [? ?]. apply Forall_app.
    split; [done|by apply IH].
Qed.

Lemma SanitizeProbeDetail_ok detail :
  len (SanitizeProbeDetail detail) <= 256 /\
  ValidString (SanitizeProbeDetail detail) = true /\
  Forall (fun r => IsControl (rune_code r) = false) (decode (bytes (SanitizeProbeDetail detail))).
Proof.
  unfold SanitizeProbeDetail. cbv zeta. set (raw := redact_urls _ _).
  set (P := fun b => 0 <= b < 256).
  assert (Hraw : Forall P raw).
  { apply redact_bytes. rewrite encode_decode. apply bytes_range. }
  assert (Hval : forall in_run rs, Forall P (encode rs) -> Forall P (encode (to_valid in_run rs))).
  { intros in_run rs. rewrite !Forall_encode. intros H. revert in_run.
    induction H as [|[c enc|b] rs Hr Hrs IH]; intros in_run; simpl; [done|by constructor|].
    destruct in_run; [apply IH|]. constructor; [|apply IH]. repeat constructor; lia. }
  assert (Hutf : Forall (fun r => rune_wf r /\ rune_valid r = true) (decode (ToValidUTF8 raw))).
  { unfold ToValidUTF8. destruct (to_valid_spec false (decode raw) (decode_wf raw)) as [H1 H2].
    rewrite decode_encode by done. apply forallb_Forall in H2. apply Forall_and. by split. }
  set (mapped := control_to_space <$> decode (ToValidUTF8 raw)).
  assert (Hclean : Forall clean mapped).
  { apply Forall_fmap. eapply Forall_impl; [exact Hutf|]. intros r [? ?]. by apply control_to_space_ok. }
  assert (Hbytes : Forall P (encode mapped)).
  { apply Forall_encode, Forall_fmap. specialize (Hval false (decode raw)).
    rewrite encode_decode in Hval. specialize (Hval Hraw).
    rewrite <- (encode_decode (encode _)), Forall_encode in Hval. eapply Forall_impl; [exact Hval|].
    intros r Hr. simpl. unfold control_to_space. case_match; [repeat constructor; lia|done]. }
  assert (Htrim : Forall clean (decode (TrimSpace (encode mapped)))).
  { unfold TrimSpace. rewrite (clean_decode mapped) by done. rewrite clean_decode; by apply trim_runes_Forall. }
  assert (Htb : Forall P (TrimSpace (encode mapped))).
  { unfold TrimSpace. rewrite (clean_decode mapped) by done. apply Forall_encode, trim_runes_Forall.
    by apply Forall_encode. }
  destruct (truncate_runes_decode MaxProbeDetailBytes (TrimSpace (encode mapped))) as [suffix Hsuf].
  { apply forallb_Forall. eapply Forall_impl; [exact Htrim|]. by intros r (_ & ? & _). }
  rewrite Hsuf in Htrim. apply Forall_app in Htrim as [Hcut _].
  destruct (truncate_runes_prefix MaxProbeDetailBytes (TrimSpace (encode mapped))) as [k Hk].
  assert (Hcb : Forall P (truncate_runes MaxProbeDetailBytes (TrimSpace (encode mapped)))).
  { rewrite Hk in Htb. by apply Forall_app in Htb as [? _]. }
  split_and!.
  - rewrite len_of_bytes. pose proof (truncate_runes_length MaxProbeDetailBytes (TrimSpace (encode mapped))).
    unfold MaxProbeDetailBytes in *. lia.
  - by apply clean_bytes.
  - rewrite bytes_of_bytes by done. eapply Forall_impl; [exact Hcut|]. by intros r (_ & _ & ?).
Qed.

(** Whatever a probe failure carries, what is stored as its detail is at most
    256 bytes of valid UTF-8 without a control character. *)
Theorem SanitizeProbeDetail_safe detail :
  len (SanitizeProbeDetail detail) <= 256 /\
  ValidString (SanitizeProbeDetail detail) = true /\
  Forall (fun r => IsControl (rune_code r) = false) (decode (bytes (SanitizeProbeDetail detail))).
Proof. exact (SanitizeProbeDetail_ok detail). Qed.

(** ** The machine's events and runs *)

Inductive event : Type :=
  | EvPing (kind : string) (now : Z)
  | EvTick (now : Z)
  | EvPause
  | EvResume (now : Z)
  | EvReset (now : Z)
  | EvResult (result : ProbeResult) (now holdOffUntil : Z)
  (** the outbox: a delivered alert is cleared *)
  | EvFlush.

Definition apply_event (check : StoredCheck) (e : event) : StoredCheck * bool :=
  match e with
  | EvPing kind now => ApplyPing check kind now
  | EvTick now => AdvanceTick check now
  | EvPause => (ApplyPause check, false)
  | EvResume now => (ApplyResume check now, false)
  | EvReset now => (ApplyProbeReset check now, false)
  | EvResult result now hold => let r := ApplyProbeResult check result now hold in (r.1.1, r.2)
  | EvFlush => (check {{ PendingAlert := None }}, false)
  end.

(** A run: the final check, and the alerts emitted on the way, oldest first. *)
Fixpoint run (check : StoredCheck) (es : list event) : StoredCheck * list string :=
  match es with
  | [] => (check, [])
  | e :: es =>
    let r := apply_event check e in
    let rest := run r.1 es in
    (rest.1, (if r.2 then option_list (PendingAlert r.1) else []) ++ rest.2)
  end.

(** A check as [Create] stores it. *)
Definition fresh_check (now : Z) (probe : option ProbeState) : StoredCheck :=
  {| ID := 1; AppID := "app"; Name := "job"; PeriodSeconds := 60; GraceSeconds := 60; State := StateNew;
     Paused := false; AnchorAt := now; LastPingAt := None; LastPingKind := None; DownSince := None;
     DownReason := None; AlertSeq := 0; PendingAlert := None; Destinations := []; OwnerKind := "operator";
     OwnerAppID := None; CreatedAt := now; UpdatedAt := now; Probe := probe |}.

(** *** Well-formed checks: what the tables' CHECKs demand, and more *)

Definition known_state (s : string) : Prop := s = StateNew \/ s = StateUp \/ s = StateDown.

Definition detail_ok (d : option string) : Prop := forall x, d = Some x -> len x <= 256.

Record probe_wf (n : Z) (state : string) (p : ProbeState) : Prop := {
  pw_failures : 0 <= ConsecutiveFailures p <= n;
  pw_down_detail : detail_ok (DownDetail p) /\ (state <> StateDown -> DownDetail p = None);
  pw_last : forall r, LastResult p = Some r ->
    (forall s, Record_Status r = Some s -> 100 <= s <= 599) /\
    (forall s, Record_Reason r = Some s -> IsProbeResultReason s = true) /\ detail_ok (Record_Detail r)
}.

Definition ping_ok (at_ : option Z) (kind : option string) : Prop :=
  (at_ = None <-> kind = None) /\ forall k, kind = Some k -> k = PingSuccess \/ k = PingFail.

(** What holds in every state; [n] bounds the counters. *)
Record common_wf (n : Z) (c : StoredCheck) : Prop := {
  cw_ping : ping_ok (LastPingAt c) (LastPingKind c);
  cw_seq : 0 <= AlertSeq c <= n;
  cw_probe : forall p, Probe c = Some p -> probe_wf n (State c) p
}.

(** A down check knows since when and why, and its only unflushed alert is that it
    is down; another is new or up, has no reason, and its only unflushed alert is
    that it recovered.  A paused check has none. *)
Inductive check_wf (n : Z) (c : StoredCheck) : Prop :=
  | wf_down r :
      State c = StateDown -> is_Some (DownSince c) -> DownReason c = Some r -> IsKnownDownReason r = true ->
      PendingAlert c = None \/ PendingAlert c = Some AlertDown /\ Paused c = false ->
      common_wf n c -> check_wf n c
  | wf_up :
      State c = StateNew \/ State c = StateUp -> DownReason c = None ->
      PendingAlert c = None \/ PendingAlert c = Some AlertRecovered /\ State c = StateUp /\
        is_Some (DownSince c) /\ Paused c = false ->
      common_wf n c -> check_wf n c.

Lemma probe_reason_known r : IsProbeResultReason r = true -> IsKnownDownReason r = true.
Proof.
  unfold IsProbeResultReason, IsKnownDownReason, KnownDownReasons. rewrite !bool_decide_eq_true. set_solver.
Qed.

Lemma sanitised_ok d x :
  (if String.eqb (SanitizeProbeDetail d) EmptyString then None else Some (SanitizeProbeDetail d)) = Some x ->
  len x <= 256.
Proof. case_match; intros [= <-]. apply SanitizeProbeDetail_ok. Qed.

Lemma storable_ok s x : storableProbeStatus s = Some x -> 100 <= x <= 599.
Proof. unfold storableProbeStatus. repeat case_match; intros [= <-]. bool_hyps. lia. Qed.

(** More room for the counters does no harm. *)
Lemma common_wf_mono n m c : n <= m -> common_wf n c -> common_wf m c.
Proof.
  intros Hnm [? ? Hp]. split; [done|lia|]. intros p Hpr. destruct (Hp p Hpr). split; [lia|done..].
Qed.

Lemma check_wf_mono n m c : n <= m -> check_wf n c -> check_wf m c.
Proof.
  intros Hnm [r ? ? ? ? ? ?%(common_wf_mono n m)|? ? ? ?%(common_wf_mono n m)]; [|done| |done];
    [by eapply wf_down|by eapply wf_up].
Qed.

Lemma wrap64_succ n x : 0 <= x <= n -> n < int64_max -> wrap64 (x + 1) = x + 1.
Proof. intros H1 H2. apply wrap64_small. unfold in_int64, int64_min, int64_max in *. lia. Qed.

Lemma ping_ok_some t k : k = PingSuccess \/ k = PingFail -> ping_ok (Some t) (Some k).
Proof. intros H. split; [done|]. by intros k' [= <-]. Qed.

Lemma ApplyPing_wf n c kind now :
  check_wf n c -> n < int64_max -> check_wf (n + 1) (ApplyPing c kind now).1.
Proof.
  intros Hwf Hn. assert (Hmono : check_wf (n + 1) c) by (by apply (check_wf_mono n); [lia|]).
  unfold ApplyPing, ping_transition. destruct c. simpl in *. destruct Probe0 as [p|]; [done|].
  assert (Hc : forall c', Probe c' = None -> 0 <= AlertSeq c' <= n + 1 ->
    ping_ok (LastPingAt c') (LastPingKind c') -> common_wf (n + 1) c') by (intros c' Hp ??; split; [done..|by rewrite Hp]).
  assert (Hseq : 0 <= AlertSeq0 <= n) by (by destruct Hwf as [? _ _ _ _ _ []|_ _ _ []]).
  pose proof (wrap64_succ n AlertSeq0 Hseq Hn) as Hsucc.
  destruct (String.eqb_spec kind PingSuccess) as [->|_];
    [|destruct (String.eqb_spec kind PingFail) as [->|_]; [|done]];
  destruct Hwf as [r Hs Hd Hr Hk Ha _|Hs Hr Ha _]; simpl in *; [|destruct Hs as [Hs|Hs]| |destruct Hs as [Hs|Hs]];
  subst State0; simpl; destruct Paused0; simpl;
  first [ by (eapply wf_down; simpl; try done; auto; apply Hc; simpl; [done|lia|apply ping_ok_some; auto])
        | by (apply wf_up; simpl; try done; auto; apply Hc; simpl; [done|lia|apply ping_ok_some; auto])
        | by (apply wf_up; simpl; [auto|done|naive_solver|apply Hc; simpl; [done|lia|apply ping_ok_some; auto]]) ].
Qed.

Lemma AdvanceTick_wf n c now :
  check_wf n c -> n < int64_max -> check_wf (n + 1) (AdvanceTick c now).1.
Proof.
  intros Hwf Hn. assert (Hmono : check_wf (n + 1) c) by (by apply (check_wf_mono n); [lia|]).
  unfold AdvanceTick. destruct (Paused c || _) eqn:Hg; [done|]. destruct (negb (time.After _ _)); [done|]. bool_hyps.
  assert (Hcw : common_wf n c) by by destruct Hwf. destruct Hcw as [Hp Hs Hpr].
  pose proof (wrap64_succ n (AlertSeq c) Hs Hn) as Hsucc. destruct c. simpl in *. subst Paused0.
  eapply wf_down; simpl; try done; [by right|]. split; simpl; [done|lia|].
  intros p Hpp. apply fmap_Some in Hpp as (p0 & -> & ->). destruct (Hpr p0 eq_refl). destruct p0. simpl in *.
  split; simpl; [lia|done|done].
Qed.

Lemma ApplyPause_wf n c : check_wf n c -> check_wf n (ApplyPause c).
Proof.
  intros Hwf. unfold ApplyPause. destruct c. simpl in *.
  assert (Hc : forall c', State c' = State0 -> LastPingAt c' = LastPingAt0 -> LastPingKind c' = LastPingKind0 ->
    AlertSeq c' = AlertSeq0 -> (forall p, Probe c' = Some p -> exists p', Probe0 = Some p' /\
      ConsecutiveFailures p = ConsecutiveFailures p' /\ LastResult p = LastResult p' /\ DownDetail p = DownDetail p') ->
    common_wf n c').
  { intros c' H1 H2 H3 H4 H5. assert (Hcw : common_wf n _) by (destruct Hwf as [? _ _ _ _ _ Hw|_ _ _ Hw]; exact Hw).
    destruct Hcw as [Hp Hs Hpr]. simpl in *. split; [by rewrite H2, H3|by rewrite H4|].
    rewrite H1. intros p (p' & Hp' & Hf & Hl & Hd)%H5. destruct (Hpr _ Hp'). by split; rewrite ?Hf, ?Hl, ?Hd. }
  destruct Paused0; simpl; destruct Hwf as [r Hs Hd Hr Hk Ha _|Hs Hr Ha _]; simpl in *;
    (eapply wf_down; simpl; try done; [by left|apply Hc; simpl; try done]) ||
    (apply wf_up; simpl; try done; [by left|apply Hc; simpl; try done]);
    intros p Hpp; [by eauto 6|by eauto 6|..]; apply fmap_Some in Hpp as (p0 & -> & ->); destruct p0; eauto 6.
Qed.

(** A check whose counters only shrink, and whose pending alert and states stay. *)
Lemma ApplyProbeReset_wf n c now : 0 <= n -> check_wf n c -> check_wf n (ApplyProbeReset c now).
Proof.
  intros Hn Hwf. unfold ApplyProbeReset. destruct (Probe c) as [p|] eqn:Hp; [|done].
  assert (Hcw : common_wf n c) by by destruct Hwf. destruct Hcw as [Hpi Hs Hpr]. destruct (Hpr p Hp) as [? [Hd Hdn] ?].
  assert (Hc : forall c', State c' = State c -> LastPingAt c' = LastPingAt c -> LastPingKind c' = LastPingKind c ->
    AlertSeq c' = AlertSeq c -> (forall q, Probe c' = Some q -> ConsecutiveFailures q = 0 /\ LastResult q = None /\
      DownDetail q = DownDetail p) -> common_wf n c').
  { intros c' H1 H2 H3 H4 H5. split; [by rewrite H2, H3|by rewrite H4|]. intros q (Hf & Hl & Hdd)%H5.
    split; rewrite ?Hf, ?Hl, ?Hdd, ?H1; [lia|done|done]. }
  destruct c, p. simpl in *. destruct Hwf as [r ? ? ? ? ? _|? ? ? _]; simpl in *;
    [eapply wf_down|apply wf_up]; simpl; try done; apply Hc; simpl; try done; by intros q [= <-].
Qed.

Lemma ApplyResume_wf n c now : 0 <= n -> check_wf n c -> check_wf n (ApplyResume c now).
Proof.
  intros Hn Hwf. unfold ApplyResume. destruct (Paused c) eqn:Hpa; [|done]. simpl.
  assert (Hnext : check_wf n (c {{ Paused := false; AnchorAt := now }})).
  { destruct c. simpl in *. subst Paused0.
    destruct Hwf as [r ? ? ? ? Ha [? ? ?]|? ? Ha [? ? ?]]; simpl in *;
      [eapply wf_down|apply wf_up]; simpl; try done; destruct Ha as [|Ha]; try (by left);
      [by destruct Ha|by destruct Ha as (_ & _ & _ & ?)]. }
  destruct (Probe c); [by apply ApplyProbeReset_wf|done].
Qed.

Lemma ApplyProbeResult_wf n c r now hold :
  check_wf n c -> n < int64_max -> check_wf (n + 1) (ApplyProbeResult c r now hold).1.1.
Proof.
  intros Hwf Hn. assert (Hmono : check_wf (n + 1) c) by (by apply (check_wf_mono n); [lia|]).
  unfold ApplyProbeResult. destruct (Probe c) as [p|] eqn:Hp; [|done].
  destruct (Paused c) eqn:Hpa; [done|]. destruct (_ && _ && _) eqn:Hst; [done|]. cbv zeta.
  assert (Hcw : common_wf n c) by by destruct Hwf. destruct Hcw as [Hpi Hs Hpr]. destruct (Hpr p Hp) as [Hcf [Hd Hdn] Hl].
  pose proof (wrap64_succ n (AlertSeq c) Hs Hn) as Hsucc. pose proof (wrap64_succ n _ Hcf Hn) as Hsucc'.
  set (detail := if String.eqb (SanitizeProbeDetail _) EmptyString then None else _).
  assert (Hdet : detail_ok detail) by (intros x Hx; by eapply sanitised_ok).
  clearbody detail. destruct r as [st rs rd]. simpl in *.
  assert (Hrec : forall q, IsProbeResultReason <$> rs <> Some false -> forall state,
    LastResult q = Some {| At := now; Record_Status := storableProbeStatus st; Record_Reason := rs; Record_Detail := detail |} ->
    0 <= ConsecutiveFailures q <= n + 1 -> detail_ok (DownDetail q) -> (state <> StateDown -> DownDetail q = None) ->
    probe_wf (n + 1) state q).
  { intros q Hrs state Hq Hf Hd1 Hd2. split; [done|by split|]. rewrite Hq. intros x [= <-]. simpl.
    split_and!; [intros s; apply storable_ok| |done]. intros s ->. simpl in Hrs. by destruct (IsProbeResultReason s). }
  clear Hmono Hpr. destruct c, p. simpl in *. subst Probe0 Paused0.
  destruct rs as [reason|].
  - destruct (IsProbeResultReason reason) eqn:Hreason; simpl; [|by apply (check_wf_mono n); [lia|]].
    pose proof (probe_reason_known _ Hreason) as Hk. simpl in Hrec. rewrite Hreason in Hrec.
    specialize (fun q => Hrec q ltac:(done)).
    destruct Hwf as [r0 Hs0 Hds Hr0 Hk0 Ha _|Hs0 Hr0 Ha _]; simpl in *.
    + subst State0. simpl. case_match; (eapply wf_down; simpl; try done); (split; simpl; [done|lia|]);
        intros q [= <-]; apply Hrec; simpl; try done; lia.
    + assert (Hne : String.eqb State0 StateDown = false) by (by destruct Hs0 as [-> | ->]). rewrite Hne.
      assert (Hnd : State0 <> StateDown) by (by apply String.eqb_neq).
      case_match; simpl.
      * apply wf_up; simpl; try done. split; simpl; [done|lia|]. intros q [= <-]. apply Hrec; simpl; try done. lia.
      * eapply wf_down; simpl; try done; [by right|]. split; simpl; [done|lia|]. intros q [= <-].
        apply Hrec; simpl; try done; lia.
  - simpl in Hrec. specialize (fun q => Hrec q ltac:(done)).
    assert (Hpo : ping_ok (Some now) (Some PingSuccess)) by (apply ping_ok_some; by left).
    destruct Hwf as [r0 Hs0 Hds Hr0 Hk0 Ha _|Hs0 Hr0 Ha _]; simpl in *.
    + subst State0. simpl. apply wf_up; simpl; [by right|done|by right|]. split; simpl; [done|lia|].
      intros q [= <-]. apply Hrec; simpl; try done; lia.
    + assert (Hne : String.eqb State0 StateDown = false) by (by destruct Hs0 as [-> | ->]). rewrite Hne. simpl.
      apply wf_up; simpl; [by right|done|naive_solver|]. split; simpl; [done|lia|].
      intros q [= <-]. apply Hrec; simpl; try done; [lia|].
      intros _. apply Hdn. by destruct Hs0 as [-> | ->].
Qed.

Lemma flush_wf n c : check_wf n c -> check_wf n (c {{ PendingAlert := None }}).
Proof.
  destruct c. intros [r ? ? ? ? ? [? ? ?]|? ? ? [? ? ?]]; simpl in *;
    [eapply wf_down|apply wf_up]; simpl; try done; by left.
Qed.

Lemma apply_event_wf n c e :
  0 <= n -> check_wf n c -> n < int64_max -> check_wf (n + 1) (apply_event c e).1.
Proof.
  intros H0 Hwf Hn. destruct e; simpl.
  - by apply ApplyPing_wf.
  - by apply AdvanceTick_wf.
  - apply (check_wf_mono n); [lia|by apply ApplyPause_wf].
  - apply (check_wf_mono n); [lia|by apply ApplyResume_wf].
  - apply (check_wf_mono n); [lia|by apply ApplyProbeReset_wf].
  - by apply ApplyProbeResult_wf.
  - apply (check_wf_mono n); [lia|by apply flush_wf].
Qed.

(** The check machine keeps its invariant over every run.  From a well-formed
    check, after any sequence of pings, ticks, pauses, resumes, resets, probe results
    and flushes, in any order, with any kinds, reasons and details (fewer events than
    64-bit counters can count): the state is new, up or down; a down check has its
    down-since instant and a known reason, another has none; the unflushed alert fits
    the state and a paused check has none; ping instant and kind are set together; and
    every stored probe result has a status in 100..599, a probe reason and a bounded
    detail. These are the tables' CHECK constraints. *)
Theorem machine_invariant n c es :
  0 <= n -> check_wf n c -> n + Z.of_nat (length es) <= int64_max ->
  check_wf (n + Z.of_nat (length es)) (run c es).1.
Proof.
  intros H0. revert n c H0. induction es as [|e es IH]; intros n c H0 Hwf Hlen; simpl in *.
  { by rewrite Z.add_0_r. }
  replace (n + Z.of_nat (S (length es))) with (n + 1 + Z.of_nat (length es)) by lia.
  apply IH; [lia| |lia]. apply apply_event_wf; [done..|lia].
Qed.

(** *** Alerts *)

(** The alert that can follow: after a down one a recovery, and conversely. *)
Fixpoint alternating (next : string) (alerts : list string) : Prop :=
  match alerts with
  | [] => True
  | a :: rest => a = next /\ alternating (if String.eqb a AlertDown then AlertRecovered else AlertDown) rest
  end.

Definition is_down (c : StoredCheck) : bool := String.eqb (State c) StateDown.
Definition next_alert (c : StoredCheck) : string := if is_down c then AlertRecovered else AlertDown.

(** One event of an unpaused check: it emits exactly on crossing into or out of down. *)
Definition event_alerts (c : StoredCheck) (r : StoredCheck * bool) : Prop :=
  Paused r.1 = false /\ r.2 = negb (Bool.eqb (is_down c) (is_down r.1)) /\
  AlertSeq r.1 = (if r.2 then wrap64 (AlertSeq c + 1) else AlertSeq c) /\
  (r.2 = true -> PendingAlert r.1 = Some (next_alert c)).

Lemma same_alerts c : Paused c = false -> event_alerts c (c, false).
Proof. intros Hp. split_and!; try done. simpl. by destruct (is_down c). Qed.

Lemma ApplyPing_alerts n c kind now :
  check_wf n c -> Paused c = false -> event_alerts c (ApplyPing c kind now).
Proof.
  intros Hwf Hp. unfold ApplyPing, ping_transition. destruct (Probe c); [by apply same_alerts|].
  pose proof (same_alerts c Hp) as Hsame. unfold event_alerts, next_alert, is_down in *.
  assert (Hs : known_state (State c)) by (destruct Hwf as [|? Hs]; unfold known_state; naive_solver).
  destruct c. simpl in *. subst Paused0.
  destruct (String.eqb kind PingSuccess); [|destruct (String.eqb kind PingFail); [|done]];
    destruct Hs as [-> |[-> | ->]]; simpl; done.
Qed.

Lemma AdvanceTick_alerts c now : Paused c = false -> event_alerts c (AdvanceTick c now).
Proof.
  intros Hp. pose proof (same_alerts c Hp) as Hsame. unfold AdvanceTick.
  destruct (Paused c || _) eqn:Hg; [done|]. destruct (negb (time.After _ _)); [done|]. bool_hyps.
  unfold event_alerts, next_alert, is_down in *. destruct c. simpl in *. subst.
  apply andb_false_iff in H0 as [Hs|Hs]; apply negb_false_iff, String.eqb_eq in Hs; subst; done.
Qed.

Lemma ApplyProbeResult_alerts n c r now hold :
  check_wf n c -> Paused c = false ->
  event_alerts c (let x := ApplyProbeResult c r now hold in (x.1.1, x.2)).
Proof.
  intros Hwf Hp. pose proof (same_alerts c Hp) as Hsame. unfold ApplyProbeResult.
  destruct (Probe c) as [p|]; [|done]. rewrite Hp. cbv zeta. destruct (_ && _ && _); [done|].
  assert (Hs : known_state (State c)) by (destruct Hwf as [|? Hs]; unfold known_state; naive_solver).
  generalize (SanitizeProbeDetail (Result_Detail r)). intros d. generalize (storableProbeStatus (Result_Status r)). intros st.
  destruct (Result_Reason r) as [reason|]; [destruct (negb (IsProbeResultReason reason)); [done|]|]; clear Hwf Hsame;
    unfold event_alerts, next_alert, is_down; destruct c; simpl in Hs, Hp; subst Paused0;
    destruct Hs as [-> |[-> | ->]]; simpl; repeat case_match; done.
Qed.

Lemma apply_event_alerts n c e :
  check_wf n c -> Paused c = false -> e <> EvPause -> event_alerts c (apply_event c e).
Proof.
  intros Hwf Hp He. pose proof (same_alerts c Hp) as Hsame. destruct e; simpl; try done.
  - by eapply ApplyPing_alerts.
  - by apply AdvanceTick_alerts.
  - unfold ApplyResume. by rewrite Hp.
  - unfold ApplyProbeReset. destruct (Probe c); [|done]. clear Hwf Hsame. unfold event_alerts, next_alert, is_down in *.
    destruct c. simpl in *.
    split_and!; try done. by destruct (String.eqb _ _).
  - by eapply ApplyProbeResult_alerts.
  - clear Hwf Hsame. unfold event_alerts, next_alert, is_down in *. destruct c. simpl in *.
    split_and!; try done. by destruct (String.eqb _ _).
Qed.

Lemma wrap64_add_1 x k : wrap64 (wrap64 (x + 1) + k) = wrap64 (x + (k + 1)).
Proof.
  unfold wrap64. f_equal. replace ((x + 1 + 2 ^ 63) mod 2 ^ 64 - 2 ^ 63 + k + 2 ^ 63)
    with ((x + 1 + 2 ^ 63) mod 2 ^ 64 + k) by lia.
  rewrite Z.add_mod_idemp_l by lia. f_equal. lia.
Qed.

(** Announcements alternate.  Over any run of an unpaused check with no pause in
    it, whatever the pings, ticks, results, resets and flushes: the alerts emitted are
    down, recovered, down, ... in strict alternation, starting with recovered exactly
    when the check is down; and the check's alert sequence number has advanced by
    exactly the number of alerts, so each has its own. *)
Theorem alerts_alternate n c es :
  0 <= n -> check_wf n c -> n + Z.of_nat (length es) <= int64_max -> Paused c = false ->
  Forall (fun e => e <> EvPause) es ->
  alternating (next_alert c) (run c es).2 /\
  AlertSeq (run c es).1 = AlertSeq c + Z.of_nat (length (run c es).2).
Proof.
  intros H0. revert n c H0. induction es as [|e es IH]; intros n c H0 Hwf Hlen Hp Hes; simpl in *.
  { split; [done|lia]. }
  apply Forall_cons in Hes as [He Hes].
  destruct (apply_event_alerts n c e Hwf Hp He) as (Hp' & Hem & Hseq & Hal).
  assert (Hwf' : check_wf (n + 1) (apply_event c e).1) by (apply apply_event_wf; [done..|lia]).
  assert (Hcw : 0 <= AlertSeq c <= n) by (by destruct Hwf as [? _ _ _ _ _ []|_ _ _ []]).
  destruct (IH (n + 1) _ ltac:(lia) Hwf' ltac:(lia) Hp' Hes) as [Halt Hcnt].
  rewrite Hcnt, Hseq. destruct (apply_event c e).2.
  - rewrite (Hal eq_refl). simpl. rewrite (wrap64_succ n) by (done || lia). split; [|lia].
    unfold next_alert in *. symmetry in Hem. apply negb_true_iff, eqb_false_iff in Hem.
    destruct (is_down c), (is_down (apply_event c e).1); done.
  - simpl. split; [|lia]. unfold next_alert in *. symmetry in Hem. apply negb_false_iff, eqb_prop in Hem.
    by rewrite Hem.
Qed.

(** ** Branch behaviour *)

(** The fields a ping, tick or probe result never touches. *)
Definition same_config (c c' : StoredCheck) : Prop :=
  ID c' = ID c /\ AppID c' = AppID c /\ Name c' = Name c /\ PeriodSeconds c' = PeriodSeconds c /\
  GraceSeconds c' = GraceSeconds c /\ Paused c' = Paused c /\ Destinations c' = Destinations c /\
  OwnerKind c' = OwnerKind c /\ OwnerAppID c' = OwnerAppID c /\ CreatedAt c' = CreatedAt c.

(** A ping on a push check does exactly this: the state becomes up for a success
    and down for a failure; the ping is recorded and the deadline clock restarts; a
    crossing into down stamps the instant and the reason, a crossing out clears the
    reason and keeps the instant for the recovery alert; and an alert is emitted, with
    the next sequence number and over any unflushed one, exactly on a crossing of an
    unpaused check, while a paused check drops it. *)
Theorem ApplyPing_spec n c kind now :
  check_wf n c -> Probe c = None -> kind = PingSuccess \/ kind = PingFail ->
  let r := ApplyPing c kind now in
  let fails := String.eqb kind PingFail in
  let crossing := negb (Bool.eqb (is_down c) fails) in
  let emits := crossing && negb (Paused c) in
  r.2 = emits /\
  State r.1 = (if fails then StateDown else StateUp) /\
  LastPingAt r.1 = Some now /\ LastPingKind r.1 = Some kind /\ AnchorAt r.1 = now /\
  DownSince r.1 = (if crossing && fails then Some now else DownSince c) /\
  DownReason r.1 = (if fails then (if crossing then Some ReasonFail else DownReason c) else None) /\
  AlertSeq r.1 = (if emits then wrap64 (AlertSeq c + 1) else AlertSeq c) /\
  PendingAlert r.1 = (if emits then Some (if fails then AlertDown else AlertRecovered) else PendingAlert c) /\
  same_config c r.1 /\ Probe r.1 = None.
Proof.
  intros Hwf Hp Hk. cbv zeta. unfold ApplyPing, ping_transition, is_down, same_config. destruct c. simpl in *. subst Probe0.
  assert (Hpend : Paused0 = true -> PendingAlert0 = None).
  { intros ->. destruct Hwf as [? _ _ _ _ Ha _|_ _ Ha _]; simpl in Ha; naive_solver. }
  destruct Hwf as [r0 Hs Hds Hr _ _ _|Hs Hr _ _]; simpl in *; [|destruct Hs as [Hs|Hs]]; subst;
    destruct Hk as [-> | ->]; simpl; destruct Paused0; simpl; rewrite ?Hpend by done; done.
Qed.

(** The checker's tick takes down exactly the checks that are due: a tick changes
    a check and emits its down alert if and only if the check is unpaused, new or up
    and strictly past anchor + period + grace; it is then down since the tick with
    reason missed and cannot be taken down again, at any later tick, until something
    else happens to it; and the schedule bounds make the deadline exact (no overflow). *)
Theorem AdvanceTick_spec n c now later :
  check_wf n c -> ValidatePeriodSeconds (PeriodSeconds c) = None -> ValidateGraceSeconds (GraceSeconds c) = None ->
  let r := AdvanceTick c now in
  Deadline c = AnchorAt c + (PeriodSeconds c + GraceSeconds c) * Second /\
  (r.2 = true <-> Paused c = false /\ is_down c = false /\
     AnchorAt c + (PeriodSeconds c + GraceSeconds c) * Second < now) /\
  (r.2 = false -> r.1 = c) /\
  (r.2 = true -> State r.1 = StateDown /\ DownSince r.1 = Some now /\ DownReason r.1 = Some ReasonMissed /\
     PendingAlert r.1 = Some AlertDown /\ same_config c r.1 /\ AnchorAt r.1 = AnchorAt c /\
     AdvanceTick r.1 later = (r.1, false)).
Proof.
  intros Hwf Hper Hgr. cbv zeta.
  assert (Hdl : Deadline c = AnchorAt c + (PeriodSeconds c + GraceSeconds c) * Second).
  { unfold ValidatePeriodSeconds, ValidateGraceSeconds in *. destruct (_ || _) eqn:H1 in Hper; [done|].
    destruct (_ || _) eqn:H2 in Hgr; [done|]. bool_hyps.
    unfold MinPeriodSeconds, MaxPeriodSeconds, MinGraceSeconds, MaxGraceSeconds in *.
    unfold Deadline, time.Add. rewrite wrap64_small by (unfold in_int64, int64_min, int64_max; lia).
    by rewrite Duration_mul_small by (unfold in_int64, int64_min, int64_max, Second, Millisecond, Microsecond; lia). }
  split; [done|]. unfold AdvanceTick, time.After, same_config, is_down. rewrite Hdl.
  assert (Hs : known_state (State c)) by (destruct Hwf as [|? Hs]; unfold known_state; naive_solver).
  clear Hdl Hwf Hper Hgr. destruct c. simpl in *. destruct Hs as [-> |[-> | ->]]; simpl;
    destruct Paused0; simpl; try (split_and!; [split; [done|naive_solver]|done..]);
    destruct (Z.ltb_spec (AnchorAt0 + (PeriodSeconds0 + GraceSeconds0) * Second) now); simpl;
    (split_and!; [split; [done || lia|done || lia]|done|done]) || (split_and!; [split; [done|lia]|done..]).
Qed.

(** *** Probe results *)

(** A failing result that counts: a probe reason, past the hold-off. *)
Definition failing (e : event) : Prop :=
  exists r now hold reason, e = EvResult r now hold /\ Result_Reason r = Some reason /\
    IsProbeResultReason reason = true /\ hold <= now.

Definition failures (c : StoredCheck) : Z :=
  match Probe c with Some p => ConsecutiveFailures p | None => 0 end.

Lemma failing_step n c e :
  check_wf n c -> n < int64_max -> is_Some (Probe c) -> Paused c = false -> failing e ->
  let r := apply_event c e in
  let down := ProbeFailureThreshold <=? failures c + 1 in
  is_Some (Probe r.1) /\ Paused r.1 = false /\ failures r.1 = failures c + 1 /\
  is_down r.1 = is_down c || down /\ r.2 = negb (is_down c) && down /\
  (r.2 = true -> PendingAlert r.1 = Some AlertDown).
Proof.
  intros Hwf Hn [p Hp] Hpa (r & now & hold & reason & -> & Hr & Hk & Hhold). cbv zeta. simpl.
  assert (Hs : known_state (State c)) by (destruct Hwf as [|? Hs]; unfold known_state; naive_solver).
  assert (Hcf : 0 <= ConsecutiveFailures p <= n).
  { destruct Hwf as [? _ _ _ _ _ [_ _ Hpr]|_ _ _ [_ _ Hpr]]; by destruct (Hpr p Hp). }
  pose proof (wrap64_succ n _ Hcf Hn) as Hsucc. clear Hwf.
  unfold ApplyProbeResult, failures, is_down. rewrite Hp, Hpa, Hr, Hk. cbv zeta.
  generalize (SanitizeProbeDetail (Result_Detail r)). intros d.
  generalize (storableProbeStatus (Result_Status r)). intros st.
  assert (Hh : time.Before now hold = false) by by apply Z.ltb_ge.
  destruct c, p. simpl in Hs, Hp, Hpa, Hcf, Hsucc. subst Paused0 Probe0.
  destruct Hs as [-> |[-> | ->]]; simpl; unfold ProbeFailureThreshold; rewrite ?Hh, ?orb_false_r, ?Hsucc;
    try (case_bool_decide; simpl; by rewrite ?Hsucc);
    rewrite Z.leb_antisym; destruct (ConsecutiveFailures0 + 1 <? 3); simpl; by rewrite ?Hsucc.
Qed.

(** A probe check goes down on exactly the third consecutive failure past the
    hold-off, and says so once: over a run of counting failures from a check that is
    up (or new) with no failures, nothing is announced and the state is kept while
    there are fewer than three, and from the third on the check is down and exactly one
    down alert has been emitted; a success in between puts the counter back to zero
    and a non-down check up. *)
Theorem probe_three_failures n c es :
  0 <= n -> check_wf n c -> n + Z.of_nat (length es) <= int64_max ->
  is_Some (Probe c) -> Paused c = false -> is_down c = false -> failures c = 0 -> Forall failing es ->
  failures (run c es).1 = Z.of_nat (length es) /\
  is_down (run c es).1 = (ProbeFailureThreshold <=? Z.of_nat (length es)) /\
  (run c es).2 = (if ProbeFailureThreshold <=? Z.of_nat (length es) then [AlertDown] else []) /\
  (forall r now hold, Result_Reason r = None ->
     failures (apply_event c (EvResult r now hold)).1 = 0 /\
     is_down (apply_event c (EvResult r now hold)).1 = false).
Proof.
  intros H0 Hwf Hlen Hp Hpa Hd Hf Hes.
  assert (Hgen : forall es n c, 0 <= n -> check_wf n c -> n + Z.of_nat (length es) <= int64_max ->
    is_Some (Probe c) -> Paused c = false -> (is_down c = false -> 0 <= failures c < 3) -> Forall failing es ->
    failures (run c es).1 = failures c + Z.of_nat (length es) /\
    is_down (run c es).1 = is_down c || (ProbeFailureThreshold <=? failures c + Z.of_nat (length es)) /\
    (run c es).2 = (if negb (is_down c) && (ProbeFailureThreshold <=? failures c + Z.of_nat (length es))
                    then [AlertDown] else [])).
  { clear. unfold ProbeFailureThreshold. induction es as [|e es IH]; intros n c H0 Hwf Hlen Hp Hpa Hd Hes; simpl in *.
    { split; [lia|]. destruct (is_down c); [done|]. specialize (Hd eq_refl). simpl.
      destruct (Z.leb_spec 3 (failures c + Z.of_nat 0)); [lia|done]. }
    apply Forall_cons in Hes as [He Hes].
    destruct (failing_step n c e Hwf ltac:(lia) Hp Hpa He) as (Hp' & Hpa' & Hf' & Hd' & Hem & Hal).
    unfold ProbeFailureThreshold in *.
    destruct (IH (n + 1) (apply_event c e).1) as (IHf & IHd & IHa); try done; [lia|by apply apply_event_wf; (done || lia)|lia| |].
    { rewrite Hd', Hf'. intros Hdn. apply orb_false_iff in Hdn as [Hdn1 Hdn2]. apply Z.leb_gt in Hdn2.
      destruct (Hd Hdn1). lia. }
    rewrite IHf, IHd, IHa, Hd', Hf', Hem.
    replace (failures c + 1 + Z.of_nat (length es)) with (failures c + Z.of_nat (S (length es))) by lia.
    assert (Hmono : (3 <=? failures c + 1) = true -> (3 <=? failures c + Z.of_nat (S (length es))) = true)
      by (rewrite !Z.leb_le; lia).
    destruct (is_down c), (3 <=? failures c + 1); simpl; try done; rewrite ?Hmono by done; try done.
    split_and!; [done|done|]. by rewrite (Hal Hem). }
  destruct (Hgen es n c) as (Hf' & Hd' & Ha'); try done; [rewrite Hf; lia|].
  rewrite Hf, Hd in *. simpl in *. split_and!; [lia|done|done|].
  intros r now hold Hr. simpl. unfold ApplyProbeResult, failures, is_down in *. destruct Hp as [p Hp].
  rewrite Hp, Hpa, Hr, Hd. cbv zeta.
  assert (Hs : known_state (State c)) by (destruct Hwf as [|? Hs]; unfold known_state; naive_solver).
  destruct (negb _ && _ && _) eqn:Hst; [|by destruct c].
  simpl. rewrite Hp. split; [|done]. rewrite Hp in Hf. exact Hf.
Qed.

(** ** Patches *)

Definition no_change : AccessTokenPatch :=
  {| Action := AccessTokenUnchanged; Token := {| ClientID := EmptyString; ClientSecret := EmptyString |} |}.

(** Two patches name no field in common. *)
Definition disjoint_opt {A} (a b : option A) : Prop := a = None \/ b = None.
Definition disjoint_patches (p q : ProbePatch) : Prop :=
  disjoint_opt (PP_URL p) (PP_URL q) /\ disjoint_opt (PP_ExpectedStatuses p) (PP_ExpectedStatuses q) /\
  ((PP_BodyMatch p = None /\ ClearBodyMatch p = false) \/ (PP_BodyMatch q = None /\ ClearBodyMatch q = false)) /\
  disjoint_opt (PP_TimeoutSeconds p) (PP_TimeoutSeconds q) /\
  disjoint_opt (PP_IntervalSeconds p) (PP_IntervalSeconds q).

Lemma sort_ints_idemp l : sort_ints (sort_ints l) = sort_ints l.
Proof.
  apply (Sorted_unique Z.le); [apply Sorted_merge_sort, _..|apply merge_sort_Permutation].
Qed.

(** Concurrent edits of a probe check's configuration cannot revert each other:
    two patches naming different fields merge to the same configuration in either
    order; a patch naming no field changes nothing the change detector sees, so it
    neither bumps the config version nor restarts the probe; and the schedule a merged
    update stores is always the one derived from its own interval. *)
Theorem mergeProbeConfig_commutes config p q :
  (disjoint_patches p q ->
     mergeProbeConfig (mergeProbeConfig config (Some p)) (Some q) =
     mergeProbeConfig (mergeProbeConfig config (Some q)) (Some p)) /\
  ProbeConfigChanged config (mergeProbeConfig config None) no_change = false /\
  (forall check patch probe, Probe check = Some probe ->
     let update := ApplyPatch check patch in
     let merged := mergeProbeConfig (Probe_Config probe) (CP_Probe patch) in
     Update_Probe update = Some merged /\
     (Update_PeriodSeconds update, Update_GraceSeconds update) = DerivedSchedule (IntervalSeconds merged)).
Proof.
  split_and!.
  - intros (H1 & H2 & H3 & H4 & H5). destruct config, p, q. unfold mergeProbeConfig, NormalizeStatuses. simpl in *.
    f_equal.
    + by destruct H1 as [-> | ->].
    + destruct H2 as [-> | ->]; case_match; by rewrite ?sort_ints_idemp.
    + destruct H3 as [[-> ->]|[-> ->]]; simpl; repeat case_match; done.
    + by destruct H4 as [-> | ->].
    + by destruct H5 as [-> | ->].
  - unfold ProbeConfigChanged, mergeProbeConfig, NormalizeStatuses. simpl. destruct config. simpl.
    rewrite !String.eqb_refl, !Z.eqb_refl, sort_ints_idemp. simpl. rewrite bool_decide_eq_true_2 by done. simpl.
    destruct BodyMatch0; [by rewrite String.eqb_refl|done].
  - intros check patch probe Hp. unfold ApplyPatch. rewrite Hp. cbv zeta. by split.
Qed.

(** ** Concrete runs *)

Lemma fresh_wf now probe :
  (forall p, probe = Some p -> ConsecutiveFailures p = 0 /\ LastResult p = None /\ DownDetail p = None) ->
  check_wf 0 (fresh_check now probe).
Proof.
  intros Hp. apply wf_up; simpl; [by left|done|by left|]. split; simpl; [by split|lia|].
  intros p (Hf & Hl & Hd)%Hp. split; rewrite ?Hf, ?Hl, ?Hd; done || lia.
Qed.

Definition demo_probe : ProbeState :=
  {| Probe_Config := {| URL := "https://example.com/health"; ExpectedStatuses := [200]; BodyMatch := None;
                        TimeoutSeconds := 5; IntervalSeconds := 60 |};
     HasAccessToken := false; SealedAccessToken := None; ConsecutiveFailures := 0; NextProbeAt := 0;
     ConfigVersion := 1; LastResult := None; DownDetail := None |}.

Definition demo_failure (now : Z) : event :=
  EvResult {| Result_Status := Some 500; Result_Reason := Some ReasonHTTPStatus; Result_Detail := "HTTP 500" |} now 0.

Lemma machine_invariant_witness :
  check_wf 3 (run (fresh_check 0 None) [EvPing "fail" 5; EvPause; EvPing "success" 9]).1.
Proof.
  refine (machine_invariant 0 (fresh_check 0 None) [EvPing "fail" 5; EvPause; EvPing "success" 9] _ _ _).
  - lia.
  - by apply fresh_wf.
  - vm_compute. discriminate.
Defined.

Lemma alerts_alternate_witness :
  (run (fresh_check 0 None) [EvPing "fail" 5; EvPing "success" 9; EvTick (Hour * 24)]).2 =
    ["down"; "recovered"; "down"] /\
  alternating "down" (run (fresh_check 0 None) [EvPing "fail" 5; EvPing "success" 9; EvTick (Hour * 24)]).2.
Proof.
  split; [vm_compute; reflexivity|].
  refine (proj1 (alerts_alternate 0 (fresh_check 0 None) _ _ _ _ _ _)).
  - lia.
  - by apply fresh_wf.
  - vm_compute. discriminate.
  - reflexivity.
  - repeat constructor; discriminate.
Defined.

Lemma ApplyPing_spec_witness : (ApplyPing (fresh_check 0 None) PingFail 7).2 = true.
Proof.
  exact (proj1 (ApplyPing_spec 0 (fresh_check 0 None) PingFail 7 (fresh_wf 0 None ltac:(done)) eq_refl
    (or_intror eq_refl))).
Defined.

Lemma AdvanceTick_spec_witness : (AdvanceTick (fresh_check 0 None) (121 * Second)).2 = true.
Proof.
  apply (proj1 (proj2 (AdvanceTick_spec 0 (fresh_check 0 None) (121 * Second) 0 (fresh_wf 0 None ltac:(done))
    eq_refl eq_refl))).
  vm_compute. auto.
Defined.

Lemma probe_three_failures_witness :
  (run (fresh_check 0 (Some demo_probe)) [demo_failure 1; demo_failure 2; demo_failure 3; demo_failure 4]).2 =
    [AlertDown].
Proof.
  refine (proj1 (proj2 (proj2 (probe_three_failures 0 (fresh_check 0 (Some demo_probe))
    [demo_failure 1; demo_failure 2; demo_failure 3; demo_failure 4] _ _ _ _ _ _ _ _)))).
  - lia.
  - apply fresh_wf. by intros p [= <-].
  - vm_compute. discriminate.
  - by eexists.
  - reflexivity.
  - reflexivity.
  - reflexivity.
  - repeat constructor; eexists _, _, _, _; (split_and!; [reflexivity|reflexivity|reflexivity|lia]).
Defined.
