(* ===== verification/Float64.v ===== *)
(** * Float64

    Go's float64 arithmetic as the IEEE 754 specification of the Standard Library
    (binary64 with rounding to nearest even), with conversion from and to integers. *)

From Stdlib Require Export Floats.SpecFloat.
From S2P Require Import Prelude.
Open Scope Z_scope.

Module float64.
Definition t : Type := spec_float.

Definition prec : Z := 53.
Definition emax : Z := 1024.

Definition mul (x y : t) : t := SFmul prec emax x y.
Definition ltb (x y : t) : bool := SFltb x y.
Definition IsNaN (x : t) : bool := match x with S754_nan => true | _ => false end.

(** [float64(z)] *)
Definition of_Z (z : Z) : t := binary_normalize prec emax z 0 false.

(** Conversion to an integer type truncates towards zero (of a value in range; of
    any other the language leaves the result open, and 0 stands for it here). *)
Definition to_Z (x : t) : Z :=
  match x with
  | S754_finite s m e => (if s then Z.opp else id) (Z.shiftl (Z.pos m) e)
  | _ => 0
  end.

Definition one : t := of_Z 1.

(** A value a float64 variable can hold. *)
Definition valid (x : t) : Prop := valid_binary prec emax x = true.

(** [min] of two float64 values that are not NaN. *)
Definition min (x y : t) : t := if ltb x y then x else y.
End float64.
Import float64.

(** ** Shifting with a sticky bit *)

Definition inexact (r : shr_record) : bool := shr_r r || shr_s r.

(** [r] holds the floor of [m / 2 ^ k], and is inexact exactly if that rounds. *)
Definition shifted (m k : Z) (r : shr_record) : Prop :=
  shr_m r = m / 2 ^ k /\ (inexact r = true -> (m / 2 ^ k) * 2 ^ k < m).

Lemma shr_1_m r : 0 <= shr_m r -> shr_m (shr_1 r) = shr_m r / 2.
Proof.
  destruct r as [m rr s]. simpl. intros Hm. rewrite <- Z.div2_div. destruct m as [|p|p]; [done| |lia].
  by destruct p.
Qed.

Lemma shr_1_inexact r : 0 <= shr_m r ->
  inexact (shr_1 r) = true -> inexact r = true \/ 2 * (shr_m r / 2) < shr_m r.
Proof.
  destruct r as [m rr s]. unfold inexact. simpl. intros Hm. rewrite <- Z.div2_div.
  destruct m as [|[p|p|]|p]; simpl; intros H; try lia; by left.
Qed.

Lemma shifted_1 m k r : 0 <= m -> 0 <= k -> shifted m k r -> shifted m (k + 1) (shr_1 r).
Proof.
  intros Hm Hk [Hr Hi]. pose proof (Z.pow_pos_nonneg 2 k ltac:(lia) Hk) as Hp.
  assert (H0 : 0 <= m / 2 ^ k) by (apply Z.div_pos; lia).
  assert (Hd : m / 2 ^ (k + 1) = m / 2 ^ k / 2)
    by (rewrite Z.pow_add_r, Z.div_div by lia; by f_equal; lia).
  split; [rewrite shr_1_m, Hr; lia|]. intros [H|H]%shr_1_inexact; [| |lia].
  - specialize (Hi H). rewrite Hd, Z.pow_add_r by lia. pose proof (Z.mul_div_le (m / 2 ^ k) 2). nia.
  - rewrite Hr in H. rewrite Hd, Z.pow_add_r by lia. pose proof (Z.mul_div_le m (2 ^ k) Hp). nia.
Qed.

Lemma shifted_iter m p k r : 0 <= m -> 0 <= k -> shifted m k r -> shifted m (k + Z.pos p) (SpecFloat.iter_pos shr_1 p r).
Proof.
  intros Hm. revert k r. induction p as [p IH|p IH|]; intros k r Hk H; simpl.
  - replace (k + Z.pos p~1) with ((k + 1) + Z.pos p + Z.pos p) by lia. apply IH; [lia|]. apply IH; [lia|].
    by apply shifted_1.
  - replace (k + Z.pos p~0) with (k + Z.pos p + Z.pos p) by lia. apply IH; [lia|]. by apply IH.
  - by apply shifted_1.
Qed.

Lemma round_shifted m k r b : 0 <= k -> shifted m k r -> m <= b * 2 ^ k ->
  round_nearest_even (shr_m r) (loc_of_shr_record r) <= b /\ shr_m r <= b.
Proof.
  intros Hk [Hr Hi] Hb. pose proof (Z.pow_pos_nonneg 2 k ltac:(lia) Hk) as Hp.
  assert (Hle : shr_m r <= b) by (rewrite Hr; apply Z.div_le_upper_bound; lia).
  split; [|done]. unfold inexact in Hi. destruct r as [q [] []]; simpl in *; subst q; [| |done..].
  - specialize (Hi eq_refl). nia.
  - specialize (Hi eq_refl). case_match; nia.
Qed.

(** ** Digits *)

Lemma digits2_pos_bounds p : 2 ^ (Z.pos (digits2_pos p) - 1) <= Z.pos p < 2 ^ Z.pos (digits2_pos p).
Proof.
  induction p as [p IH|p IH|]; cbn [digits2_pos]; [..|done];
    rewrite Pos2Z.inj_succ; replace (Z.succ (Z.pos (digits2_pos p)) - 1) with (Z.succ (Z.pos (digits2_pos p) - 1)) by lia;
    rewrite !Z.pow_succ_r by lia; lia.
Qed.

Lemma Zdigits2_le m k : 0 < m -> 0 <= k -> m < 2 ^ k -> Zdigits2 m <= k.
Proof.
  destruct m as [|p|p]; [lia| |lia]. intros _ Hk H. simpl. pose proof (digits2_pos_bounds p) as [Hd _].
  destruct (Z.le_gt_cases (Z.pos (digits2_pos p)) k) as [|Hgt]; [done|].
  pose proof (Z.pow_le_mono_r 2 k (Z.pos (digits2_pos p) - 1)). lia.
Qed.

(** ** A product of a fraction stays below the integer it scales *)

(** One alignment: the exponent stays at most 0 and the mantissa below [h]. *)
Lemma shr_fexp_bound m e h r e' : 0 <= m -> e <= 0 -> 0 < h < 2 ^ 53 -> m <= h * 2 ^ (- e) ->
  shr_fexp prec emax m e loc_Exact = (r, e') ->
  e' <= 0 /\ 0 <= shr_m r /\ shr_m r <= h * 2 ^ (- e') /\
  0 <= round_nearest_even (shr_m r) (loc_of_shr_record r) <= h * 2 ^ (- e').
Proof.
  intros Hm He Hh Hle. unfold shr_fexp. destruct (fexp prec emax (Zdigits2 m + e) - e) as [|p|p] eqn:En; simpl.
  { intros [= <- <-]. simpl. lia. }
  2: { intros [= <- <-]. simpl. lia. }
  intros [= <- <-].
  assert (He' : e + Z.pos p <= 0).
  { destruct (Z.eq_dec m 0) as [->|].
    { unfold fexp, emin, prec, emax in En. simpl in En. lia. }
    assert (Hd : Zdigits2 m <= 53 - e).
    { apply Zdigits2_le; [lia..|]. replace (53 - e) with (53 + - e) by lia. rewrite Z.pow_add_r by lia.
      pose proof (Z.pow_pos_nonneg 2 (- e)). nia. }
    unfold fexp, emin, prec, emax in En. lia. }
  assert (Hs : shifted m (0 + Z.pos p) (SpecFloat.iter_pos shr_1 p {| shr_m := m; shr_r := false; shr_s := false |})).
  { apply shifted_iter; [lia..|]. split; simpl; [by rewrite Z.div_1_r|done]. }
  rewrite Z.add_0_l in Hs.
  assert (Hb : m <= h * 2 ^ (- (e + Z.pos p)) * 2 ^ Z.pos p).
  { rewrite <- Z.mul_assoc, <- Z.pow_add_r by lia. by replace (- (e + Z.pos p) + Z.pos p) with (- e) by lia. }
  destruct (round_shifted m (Z.pos p) _ _ ltac:(lia) Hs Hb) as [H1 H2].
  assert (H0 : 0 <= shr_m (SpecFloat.iter_pos shr_1 p {| shr_m := m; shr_r := false; shr_s := false |})).
  { destruct Hs as [-> _]. apply Z.div_pos; lia. }
  split_and!; try done. destruct (SpecFloat.iter_pos _ _ _) as [q [] []]; simpl in *; repeat case_match; lia.
Qed.

Lemma binary_round_aux_bound m e h : 0 < m -> e <= 0 -> 0 < h < 2 ^ 53 -> m <= h * 2 ^ (- e) ->
  0 <= to_Z (binary_round_aux prec emax false m e loc_Exact) <= h.
Proof.
  intros Hm He Hh Hle. unfold binary_round_aux.
  destruct (shr_fexp prec emax m e loc_Exact) as [r1 e1] eqn:E1.
  destruct (shr_fexp_bound m e h r1 e1) as (He1 & _ & _ & Hr1); [by apply Z.lt_le_incl|done..|].
  destruct (shr_fexp prec emax (round_nearest_even _ _) e1 loc_Exact) as [r2 e2] eqn:E2.
  destruct (shr_fexp_bound _ e1 h r2 e2 (proj1 Hr1) He1 Hh (proj2 Hr1) E2) as (He2 & H0 & Hr2 & _).
  destruct (shr_m r2) as [|q|q] eqn:Eq; [simpl; lia| |lia].
  destruct (Z.leb_spec e2 (emax - prec)) as [_|Hx]; [|unfold emax, prec in Hx; lia].
  simpl. unfold id. pose proof (Z.opp_nonneg_nonpos e2) as _.
  replace e2 with (- - e2) by lia. rewrite Z.shiftl_opp_r, Z.shiftr_div_pow2 by lia.
  pose proof (Z.pow_pos_nonneg 2 (- e2) ltac:(lia) ltac:(lia)). split; [apply Z.div_pos; lia|].
  apply Z.div_le_upper_bound; lia.
Qed.

(** An integer below 2^53 is itself in binary64, with an exponent at most 0. *)
Lemma of_Z_exact h : 0 < h < 2 ^ 53 -> exists m e, of_Z h = S754_finite false m e /\ e <= 0 /\ Z.pos m = h * 2 ^ (- e).
Proof.
  intros Hh. destruct h as [|p|p]; [lia| |lia].
  assert (Hd : Z.pos (digits2_pos p) <= 53) by (apply (Zdigits2_le (Z.pos p)); lia).
  unfold of_Z, binary_normalize, binary_round.
  assert (Hf : forall q e, fexp prec emax (Z.pos (digits2_pos q) + e) = e -> e <= 0 ->
    binary_round_aux prec emax false (Z.pos q) e loc_Exact = S754_finite false q e).
  { intros q e Hq He. assert (Hs : shr_fexp prec emax (Z.pos q) e loc_Exact =
      ({| shr_m := Z.pos q; shr_r := false; shr_s := false |}, e)).
    { unfold shr_fexp. cbn [Zdigits2]. by rewrite Hq, Z.sub_diag. }
    unfold binary_round_aux. rewrite Hs. simpl. rewrite Hs. simpl.
    destruct (Z.leb_spec e (emax - prec)) as [_|Hx]; [done|unfold emax, prec in Hx; lia]. }
  assert (Hfe : fexp prec emax (Z.pos (digits2_pos p) + 0) = Z.pos (digits2_pos p) - 53)
    by (unfold fexp, emin, prec, emax; lia).
  rewrite Hfe. unfold shl_align. destruct (Z.pos (digits2_pos p) - 53 - 0) as [|d|d] eqn:Ed; [|lia|].
  - rewrite Hf; [|rewrite Hfe; lia|lia]. exists p, 0. split_and!; [done|lia|simpl; lia].
  - assert (Hit : Z.pos (Pos.iter xO p d) = Z.pos p * 2 ^ Z.pos d /\
      Z.pos (digits2_pos (Pos.iter xO p d)) = Z.pos (digits2_pos p) + Z.pos d).
    { clear. induction d as [|d [IH1 IH2]] using Pos.peano_ind; [simpl; lia|].
      rewrite Pos.iter_succ. cbn [digits2_pos]. rewrite Pos2Z.inj_xO, !Pos2Z.inj_succ, IH1, IH2, Z.pow_succ_r by lia. lia. }
    destruct Hit as [Hv Hdig]. rewrite Hf; [|rewrite Hdig; unfold fexp, emin, prec, emax; lia|lia].
    exists (Pos.iter xO p d), (Z.pos (digits2_pos p) - 53). split_and!; [done|lia|].
    rewrite Hv. by replace (- (Z.pos (digits2_pos p) - 53)) with (Z.pos d) by lia.
Qed.

(** A fraction: a float64 between 0 (of either sign) and 1. *)
Definition fraction (x : t) : Prop := valid x /\ ltb x (S754_zero false) = false /\ ltb one x = false /\ IsNaN x = false.

(** ... is at most 1 as a number, too. *)
Lemma fraction_finite s m e : fraction (S754_finite s m e) -> s = false /\ e < 0 /\ Z.pos m <= 2 ^ (- e).
Proof.
  intros (Hv & H0 & H1 & _). destruct s; [done|]. split; [done|].
  unfold valid, valid_binary, bounded, canonical_mantissa in Hv. bool_hyps.
  assert (Hd : Z.pos (digits2_pos m) <= 53).
  { unfold fexp, emin, prec, emax in *. lia. }
  pose proof (digits2_pos_bounds m) as [_ Hm].
  assert (Hm53 : Z.pos m < 2 ^ 53) by (pose proof (Z.pow_le_mono_r 2 (Z.pos (digits2_pos m)) 53); lia).
  unfold ltb, SFltb, one in H1. change (of_Z 1) with (S754_finite false 4503599627370496 (-52)) in H1.
  cbn [SFcompare] in H1. destruct (Z.compare_spec (-52) e) as [<-|Hlt|Hgt]; [|done|].
  - split; [lia|]. change (2 ^ (- -52)) with (Z.pos 4503599627370496). apply Z.nlt_ge. intros Hlt.
    change (Z.pos 4503599627370496 < Z.pos m) with ((4503599627370496 ?= m)%positive = Lt) in Hlt.
    by rewrite (Hlt : PosDef.Pos.compare_cont Eq 4503599627370496 m = Lt) in H1.
  - split; [lia|]. pose proof (Z.pow_le_mono_r 2 53 (- e)). lia.
Qed.

(** Scaling an integer by a number at most [b] and truncating never exceeds the product. *)
Lemma mul_finite_bounds m e b h : e <= 0 -> Z.pos m <= b * 2 ^ (- e) -> 0 < h < 2 ^ 53 -> 0 < b * h < 2 ^ 53 ->
  0 <= to_Z (mul (S754_finite false m e) (of_Z h)) <= b * h.
Proof.
  intros He Hm Hh Hb. destruct (of_Z_exact h Hh) as (my & ey & -> & Hey & Hmy). unfold mul. cbn [SFmul xorb].
  apply binary_round_aux_bound; [lia..|]. rewrite Pos2Z.inj_mul, Hmy.
  replace (- (e + ey)) with (- e + - ey) by lia. rewrite Z.pow_add_r by lia.
  pose proof (Z.pow_pos_nonneg 2 (- ey)). pose proof (Z.pow_pos_nonneg 2 (- e)). nia.
Qed.

(** Scaling an integer by a fraction and truncating never exceeds the integer. *)
Lemma mul_fraction_bounds x h : fraction x -> 0 < h < 2 ^ 53 -> 0 <= to_Z (mul x (of_Z h)) <= h.
Proof.
  intros Hx Hh. destruct x as [s|s| |s m e].
  - destruct (of_Z_exact h Hh) as (my & ey & -> & _). simpl. lia.
  - destruct Hx as (_ & H0 & H1 & _). destruct s; [vm_compute in H0; discriminate H0|vm_compute in H1; discriminate H1].
  - by destruct Hx as (_ & _ & _ & H).
  - apply fraction_finite in Hx as (-> & He & Hm). pose proof (mul_finite_bounds m e 1 h). lia.
Qed.
