(* ===== verification/Json.v ===== *)
(** * Json

    encoding/json as the message package uses it: [Valid], and [Decoder] with
    [UseNumber] and [More].  A document is parsed once into its syntax tree (strings
    kept as their spelled items, numbers as their literals); [Valid] asks whether
    that succeeds, and decoding interprets the tree. *)

From S2P Require Import Prelude GoText Utf8.
Open Scope Z_scope.

Module json.
(** The byte of an ASCII character. *)
Definition ch (c : ascii) : Z := byte_val c.

Definition quote : Z := 34.
Definition backslash : Z := 92.

Definition is_space (b : Z) : bool := (b =? 32) || (b =? 9) || (b =? 10) || (b =? 13).
Definition is_digit (b : Z) : bool := (48 <=? b) && (b <=? 57).
Definition hex_val (b : Z) : option Z :=
  if is_digit b then Some (b - 48)
  else if (97 <=? b) && (b <=? 102) then Some (b - 87)
  else if (65 <=? b) && (b <=? 70) then Some (b - 55)
  else None.

(** ** The syntax tree *)

(** What a string spells: a byte, a one-character escape, or a \u escape by its four
    hexadecimal digits. *)
Inductive item : Type :=
  | Raw (b : Z)
  | Esc (c : Z)
  | Uni (h1 h2 h3 h4 : Z).

Inductive tree : Type :=
  | JNull
  | JBool (b : bool)
  | JNumber (literal : list Z)
  | JString (items : list item)
  | JArray (elements : list tree)
  | JObject (members : list (list item * tree)).

(** The bytes an item is spelled with. *)
Definition item_bytes (i : item) : list Z :=
  match i with
  | Raw b => [b]
  | Esc c => [backslash; c]
  | Uni h1 h2 h3 h4 => [backslash; ch "u"; h1; h2; h3; h4]
  end.

(** ** The scanner *)

Definition skip_space (s : list Z) : list Z := drop_while is_space s.

Fixpoint span (p : Z -> bool) (s : list Z) : list Z * list Z :=
  match s with
  | [] => ([], [])
  | b :: rest => if p b then (b :: (span p rest).1, (span p rest).2) else ([], s)
  end.

Definition expect (b : Z) (s : list Z) : option (list Z) :=
  match s with
  | c :: rest => if c =? b then Some rest else None
  | [] => None
  end.

Fixpoint expect_all (bs s : list Z) : option (list Z) :=
  match bs with
  | [] => Some s
  | b :: bs => s ← expect b s; expect_all bs s
  end.

Definition simple_escape (c : Z) : bool :=
  existsb (Z.eqb c) [ch "b"; ch "f"; ch "n"; ch "r"; ch "t"; backslash; ch "/"; quote].

Definition is_hex (b : Z) : bool := bool_decide (is_Some (hex_val b)).

(** After the opening quote: the items, and what follows the closing one. *)
Fixpoint scan_string (s : list Z) : option (list item * list Z) :=
  match s with
  | [] => None
  | b :: s =>
    if b =? quote then Some ([], s)
    else if b =? backslash then
      match s with
      | c :: s =>
        if c =? ch "u" then
          match s with
          | h1 :: h2 :: h3 :: h4 :: s =>
            if is_hex h1 && is_hex h2 && is_hex h3 && is_hex h4 then
              '(items, rest) ← scan_string s; Some (Uni h1 h2 h3 h4 :: items, rest)
            else None
          | _ => None
          end
        else if simple_escape c then '(items, rest) ← scan_string s; Some (Esc c :: items, rest)
        else None
      | [] => None
      end
    else if b <? 32 then None
    else '(items, rest) ← scan_string s; Some (Raw b :: items, rest)
  end.

(** The digits after a point or an exponent: at least one. *)
Definition scan_digits (s : list Z) : option (list Z * list Z) :=
  let (ds, rest) := span is_digit s in
  match ds with [] => None | _ => Some (ds, rest) end.

Definition scan_sign (s : list Z) : list Z * list Z :=
  match s with
  | b :: rest => if (b =? ch "+") || (b =? ch "-") then ([b], rest) else ([], s)
  | [] => ([], [])
  end.

(** 0, or digits that do not begin with 0. *)
Definition scan_int (s : list Z) : option (list Z * list Z) :=
  match s with
  | b :: rest =>
    if b =? 48 then Some ([b], rest)
    else if is_digit b then Some (span is_digit s) else None
  | [] => None
  end.

Definition scan_frac (s : list Z) : option (list Z * list Z) :=
  match s with
  | b :: rest => if b =? ch "." then '(ds, rest) ← scan_digits rest; Some (b :: ds, rest) else Some ([], s)
  | [] => Some ([], [])
  end.

Definition scan_exp (s : list Z) : option (list Z * list Z) :=
  match s with
  | b :: rest =>
    if (b =? ch "e") || (b =? ch "E") then
      let (sign, rest) := scan_sign rest in
      '(ds, rest) ← scan_digits rest; Some (b :: sign ++ ds, rest)
    else Some ([], s)
  | [] => Some ([], [])
  end.

Definition scan_minus (s : list Z) : list Z * list Z :=
  match s with
  | b :: rest => if b =? ch "-" then ([b], rest) else ([], s)
  | [] => ([], [])
  end.

Definition scan_number (s : list Z) : option (list Z * list Z) :=
  let (minus, s) := scan_minus s in
  '(int, s) ← scan_int s;
  '(frac, s) ← scan_frac s;
  '(exp, s) ← scan_exp s;
  Some (minus ++ int ++ frac ++ exp, s).

Definition maxNestingDepth : Z := 10000.

(** A value, the members of an object and the elements of an array, each from its
    first byte; the fuel bounds the recursion and [parse_fuel] shows it is enough. *)
Fixpoint scan_value (fuel : nat) (depth : Z) (s : list Z) : option (tree * list Z) :=
  match fuel, s with
  | S fuel, b :: rest =>
    if b =? quote then '(items, rest) ← scan_string rest; Some (JString items, rest)
    else if b =? ch "{" then
      if maxNestingDepth <=? depth then None
      else match expect (ch "}") (skip_space rest) with
      | Some rest => Some (JObject [], rest)
      | None => '(members, rest) ← scan_members fuel (depth + 1) (skip_space rest); Some (JObject members, rest)
      end
    else if b =? ch "[" then
      if maxNestingDepth <=? depth then None
      else match expect (ch "]") (skip_space rest) with
      | Some rest => Some (JArray [], rest)
      | None => '(elements, rest) ← scan_elements fuel (depth + 1) (skip_space rest); Some (JArray elements, rest)
      end
    else if b =? ch "t" then rest ← expect_all (bytes "rue") rest; Some (JBool true, rest)
    else if b =? ch "f" then rest ← expect_all (bytes "alse") rest; Some (JBool false, rest)
    else if b =? ch "n" then rest ← expect_all (bytes "ull") rest; Some (JNull, rest)
    else '(literal, rest) ← scan_number s; Some (JNumber literal, rest)
  | _, _ => None
  end
with scan_members (fuel : nat) (depth : Z) (s : list Z) : option (list (list item * tree) * list Z) :=
  match fuel with
  | S fuel =>
    s ← expect quote s;
    '(key, s) ← scan_string s;
    s ← expect (ch ":") (skip_space s);
    '(value, s) ← scan_value fuel depth (skip_space s);
    match expect (ch "}") (skip_space s) with
    | Some rest => Some ([(key, value)], rest)
    | None =>
      s ← expect (ch ",") (skip_space s);
      '(members, rest) ← scan_members fuel depth (skip_space s);
      Some ((key, value) :: members, rest)
    end
  | O => None
  end
with scan_elements (fuel : nat) (depth : Z) (s : list Z) : option (list tree * list Z) :=
  match fuel with
  | S fuel =>
    '(value, s) ← scan_value fuel depth s;
    match expect (ch "]") (skip_space s) with
    | Some rest => Some ([value], rest)
    | None =>
      s ← expect (ch ",") (skip_space s);
      '(elements, rest) ← scan_elements fuel depth (skip_space s);
      Some (value :: elements, rest)
    end
  | O => None
  end.

(** The first value of a document and what follows it. *)
Definition parse (document : list Z) : option (tree * list Z) :=
  let s := skip_space document in scan_value (S (2 * length s)) 0 s.

(** [json.Valid] *)
Definition Valid (document : list Z) : bool :=
  match parse document with Some (_, rest) => bool_decide (skip_space rest = []) | None => false end.

(** ** Decoding *)

(** A decoded value: strings as bytes, numbers as literals, and of an object's
    members the last with each key. *)
Inductive value : Type :=
  | VNull
  | VBool (b : bool)
  | VNumber (literal : list Z)
  | VString (text : list Z)
  | VArray (elements : list value)
  | VObject (members : list (list Z * value)).

Fixpoint assoc {A} (key : list Z) (members : list (list Z * A)) : option A :=
  match members with
  | [] => None
  | (k, v) :: members => if bool_decide (k = key) then Some v else assoc key members
  end.

(** [m[key] = v] *)
Fixpoint assign {A} (key : list Z) (v : A) (members : list (list Z * A)) : list (list Z * A) :=
  match members with
  | [] => [(key, v)]
  | (k, w) :: members => if bool_decide (k = key) then (k, v) :: members else (k, w) :: assign key v members
  end.

Definition code_unit (h1 h2 h3 h4 : Z) : Z :=
  let d h := default 0 (hex_val h) in ((d h1 * 16 + d h2) * 16 + d h3) * 16 + d h4.

Definition is_high (u : Z) : bool := (55296 <=? u) && (u <=? 56319).
Definition is_low (u : Z) : bool := (56320 <=? u) && (u <=? 57343).

(** [utf8.AppendRune] *)
Definition encode_rune (r : Z) : list Z :=
  if r <? 128 then [r]
  else if r <? 2048 then [192 + r / 64; 128 + r mod 64]
  else if r <? 65536 then [224 + r / 4096; 128 + r / 64 mod 64; 128 + r mod 64]
  else [240 + r / 262144; 128 + r / 4096 mod 64; 128 + r / 64 mod 64; 128 + r mod 64].

Definition escaped (c : Z) : Z :=
  if c =? ch "b" then 8 else if c =? ch "f" then 12 else if c =? ch "n" then 10
  else if c =? ch "r" then 13 else if c =? ch "t" then 9 else c.

(** Bytes as they are, but with each that is not part of a rune replaced. *)
Definition repair (bs : list Z) : list Z :=
  decode bs ≫= (fun r => match r with Rune _ enc => enc | Invalid _ => rune_enc replacement end).

(** [unquote]; [raw] collects, last first, the bytes since the last escape. *)
Fixpoint unquote_from (raw : list Z) (items : list item) : list Z :=
  match items with
  | [] => repair (rev raw)
  | Raw b :: items => unquote_from (b :: raw) items
  | Esc c :: items => repair (rev raw) ++ escaped c :: unquote_from [] items
  | Uni h1 h2 h3 h4 :: items =>
    let u := code_unit h1 h2 h3 h4 in
    repair (rev raw) ++
    match items with
    | Uni l1 l2 l3 l4 :: rest =>
      let l := code_unit l1 l2 l3 l4 in
      if is_high u && is_low l
      then encode_rune (65536 + (u - 55296) * 1024 + (l - 56320)) ++ unquote_from [] rest
      else encode_rune (if is_high u || is_low u then RuneError else u) ++ unquote_from [] items
    | _ => encode_rune (if is_high u || is_low u then RuneError else u) ++ unquote_from [] items
    end
  end.
Definition unquote (items : list item) : list Z := unquote_from [] items.

Fixpoint interpret (t : tree) : value :=
  match t with
  | JNull => VNull
  | JBool b => VBool b
  | JNumber literal => VNumber literal
  | JString items => VString (unquote items)
  | JArray elements => VArray (map interpret elements)
  | JObject members =>
    VObject (fold_left (fun m p => assign (unquote p.1) p.2 m)
      (map (fun '(k, t) => (k, interpret t)) members) [])
  end.

(** [decoder.Decode] of the first value, then [decoder.More]: whether something
    follows that does not close an array or object. *)
Definition More (rest : list Z) : bool :=
  match skip_space rest with
  | [] => false
  | b :: _ => negb (b =? ch "]") && negb (b =? ch "}")
  end.
End json.
