(* ===== verification/JsonProps.v ===== *)
(** * JsonProps

    What the scanner of Json.v consumes, that its fuel is enough, and how scans of the
    raw bytes relate to the tree they spell. *)

From S2P Require Import Prelude GoText Utf8 Json.
Open Scope Z_scope.
Import json.

(** ** What the scanners consume *)

Lemma skip_space_suffix s : exists ws, s = ws ++ skip_space s /\ Forall (fun b => is_space b = true) ws.
Proof.
  unfold skip_space. induction s as [|b s (ws & Heq & Hws)]; [by exists []|]. simpl.
  destruct (is_space b) eqn:Hb; [|by exists []]. exists (b :: ws). split; [by rewrite Heq at 1|by constructor].
Qed.

Lemma skip_space_length s : (length (skip_space s) <= length s)%nat.
Proof. destruct (skip_space_suffix s) as (ws & Heq & _). rewrite Heq at 2. rewrite length_app. lia. Qed.

Lemma expect_Some b s rest : expect b s = Some rest -> s = b :: rest.
Proof. destruct s as [|c s]; simpl; [done|]. destruct (Z.eqb_spec c b) as [->|]; [by intros [= ->]|done]. Qed.

Lemma expect_all_Some bs s rest : expect_all bs s = Some rest -> s = bs ++ rest.
Proof.
  revert s. induction bs as [|b bs IH]; intros s; simpl; [by intros [= ->]|].
  destruct (expect b s) as [s1|] eqn:E; simpl; [|done]. intros ->%IH. by apply expect_Some in E.
Qed.

Lemma span_spec p s : s = (span p s).1 ++ (span p s).2 /\ Forall (fun b => p b = true) (span p s).1.
Proof.
  induction s as [|b s [IH1 IH2]]; simpl; [done|]. destruct (p b) eqn:Hb; simpl; [|done].
  split; [by rewrite <- IH1|by constructor].
Qed.

Definition item_ok (i : item) : Prop :=
  match i with
  | Raw b => b <> quote /\ b <> backslash
  | Esc c => c <> ch "u"
  | Uni h1 h2 h3 h4 => is_hex h1 = true /\ is_hex h2 = true /\ is_hex h3 = true /\ is_hex h4 = true
  end.

(** Induction over a string by its items. *)
Lemma scan_string_spec n s items rest : (length s <= n)%nat -> scan_string s = Some (items, rest) ->
  s = (items ≫= item_bytes) ++ quote :: rest /\ Forall item_ok items.
Proof.
  revert s items. induction n as [|n IH]; intros [|b s] items Hn; cbn [scan_string length] in *; try done; [lia|].
  destruct (Z.eqb_spec b quote) as [->|Hq]; [by intros [= <- <-]|].
  destruct (Z.eqb_spec b backslash) as [->|Hb].
  - destruct s as [|c s]; [done|]. destruct (Z.eqb_spec c (ch "u")) as [->|Hu].
    + destruct s as [|h1 [|h2 [|h3 [|h4 s]]]]; try done. destruct (is_hex h1 && _ && _ && _) eqn:Hhex; [|done].
      destruct (scan_string s) as [[items' rest']|] eqn:E; simpl; [|done]. intros [= <- <-]. bool_hyps.
      apply IH in E as [-> Hok]; [|simpl in Hn; lia]. split; [done|]. by constructor.
    + destruct (simple_escape c); [|done].
      destruct (scan_string s) as [[items' rest']|] eqn:E; simpl; [|done]. intros [= <- <-].
      apply IH in E as [-> Hok]; [|simpl in Hn; lia]. split; [done|]. by constructor.
  - destruct (b <? 32); [done|].
    destruct (scan_string s) as [[items' rest']|] eqn:E; simpl; [|done]. intros [= <- <-].
    apply IH in E as [-> Hok]; [|lia]. split; [done|]. by constructor.
Qed.

(** *** Numbers *)

Definition number_byte (b : Z) : bool :=
  is_digit b || (b =? ch "-") || (b =? ch "+") || (b =? ch ".") || (b =? ch "e") || (b =? ch "E").

Lemma digits_number bs : Forall (fun b => is_digit b = true) bs -> Forall (fun b => number_byte b = true) bs.
Proof. intros H. eapply Forall_impl; [exact H|]. intros b Hb. unfold number_byte. simpl in Hb. by rewrite Hb. Qed.

Lemma scan_digits_spec s ds rest : scan_digits s = Some (ds, rest) ->
  s = ds ++ rest /\ Forall (fun b => number_byte b = true) ds.
Proof.
  unfold scan_digits. pose proof (span_spec is_digit s) as [Hs Hd]. destruct (span is_digit s) as [ds' rest'].
  simpl in *. destruct ds' as [|d ds']; [done|]. intros [= <- <-]. split; [done|by apply digits_number].
Qed.

Lemma scan_int_spec s int rest : scan_int s = Some (int, rest) ->
  s = int ++ rest /\ Forall (fun b => number_byte b = true) int /\ exists d tl, int = d :: tl /\ is_digit d = true.
Proof.
  unfold scan_int. destruct s as [|b s]; [done|]. destruct (Z.eqb_spec b 48) as [->|_].
  { intros [= <- <-]. split_and!; [done|by repeat constructor|by eexists _, _]. }
  destruct (is_digit b) eqn:Hb; [|done]. pose proof (span_spec is_digit (b :: s)) as [Hs Hd].
  assert (Hhd : (span is_digit (b :: s)).1 = b :: (span is_digit s).1) by (simpl; by rewrite Hb).
  destruct (span is_digit (b :: s)) as [ds r]. simpl in Hs, Hd, Hhd. intros [= <- <-].
  split_and!; [done|by apply digits_number|by eexists _, _].
Qed.

Lemma scan_frac_spec s frac rest : scan_frac s = Some (frac, rest) ->
  s = frac ++ rest /\ Forall (fun b => number_byte b = true) frac.
Proof.
  unfold scan_frac. destruct s as [|b s]; [by intros [= <- <-]|].
  destruct (Z.eqb_spec b (ch ".")) as [->|_]; [|by intros [= <- <-]].
  destruct (scan_digits s) as [[ds r]|] eqn:E; simpl; [|done]. intros [= <- <-].
  apply scan_digits_spec in E as [-> Hd]. split; [done|]. by constructor.
Qed.

Lemma scan_exp_spec s exp rest : scan_exp s = Some (exp, rest) ->
  s = exp ++ rest /\ Forall (fun b => number_byte b = true) exp.
Proof.
  unfold scan_exp. destruct s as [|b s]; [by intros [= <- <-]|].
  destruct ((b =? ch "e") || (b =? ch "E")) eqn:Hb; [|by intros [= <- <-]].
  assert (Hs : s = (scan_sign s).1 ++ (scan_sign s).2 /\ Forall (fun b => number_byte b = true) (scan_sign s).1).
  { unfold scan_sign. destruct s as [|c s]; [done|]. destruct ((c =? ch "+") || (c =? ch "-")) eqn:Hc; [|done].
    split; [done|]. constructor; [|done]. apply orb_true_iff in Hc as [->%Z.eqb_eq | ->%Z.eqb_eq]; done. }
  destruct (scan_sign s) as [sign s']. simpl in Hs. destruct Hs as [-> Hsign].
  destruct (scan_digits s') as [[ds r]|] eqn:E; simpl; [|done]. intros [= <- <-].
  apply scan_digits_spec in E as [-> Hd]. split; [simpl; by rewrite <- app_assoc|]. constructor; [|by apply Forall_app].
  by apply orb_true_iff in Hb as [->%Z.eqb_eq | ->%Z.eqb_eq].
Qed.

(** A literal is made of number bytes, and begins with a minus or a digit. *)
Lemma scan_number_spec s literal rest : scan_number s = Some (literal, rest) ->
  s = literal ++ rest /\ Forall (fun b => number_byte b = true) literal /\
  exists b tl, literal = b :: tl /\ (b = ch "-" \/ is_digit b = true).
Proof.
  unfold scan_number.
  assert (Hm : s = (scan_minus s).1 ++ (scan_minus s).2 /\ ((scan_minus s).1 = [] \/ (scan_minus s).1 = [ch "-"])).
  { unfold scan_minus. destruct s as [|b s]; [by split; [|left]|].
    destruct (Z.eqb_spec b (ch "-")) as [->|]; by split; [|tauto]. }
  destruct (scan_minus s) as [minus s1]. simpl in Hm. destruct Hm as [-> Hm].
  destruct (scan_int s1) as [[int s2]|] eqn:E1; simpl; [|done].
  destruct (scan_frac s2) as [[frac s3]|] eqn:E2; simpl; [|done].
  destruct (scan_exp s3) as [[exp s4]|] eqn:E3; simpl; [|done]. intros [= <- <-].
  apply scan_int_spec in E1 as (-> & H1 & d & tl & -> & Hd).
  apply scan_frac_spec in E2 as [-> H2]. apply scan_exp_spec in E3 as [-> H3].
  split_and!; [by rewrite <- !app_assoc| |].
  - rewrite !Forall_app. split_and!; try done. destruct Hm as [-> | ->]; [done|by constructor].
  - destruct Hm as [-> | ->]; eexists _, _; (split; [reflexivity|]); [by right|by left].
Qed.

(** *** Progress *)

Lemma string_shorter s items rest : scan_string s = Some (items, rest) -> (length rest < length s)%nat.
Proof. intros [-> _]%(scan_string_spec (length s)); [|done]. rewrite length_app. simpl. lia. Qed.

Lemma expect_shorter b s rest : expect b (skip_space s) = Some rest -> (length rest < length s)%nat.
Proof. intros H%expect_Some. pose proof (skip_space_length s). rewrite H in *. simpl in *. lia. Qed.

Lemma scan_shorter fuel :
  (forall d s t rest, scan_value fuel d s = Some (t, rest) -> (length rest < length s)%nat) /\
  (forall d s ms rest, scan_members fuel d s = Some (ms, rest) -> (length rest < length s)%nat) /\
  (forall d s es rest, scan_elements fuel d s = Some (es, rest) -> (length rest < length s)%nat).
Proof.
  induction fuel as [|fuel (IHv & IHm & IHe)]; [done|]. split_and!; intros d s x rest H.
  - destruct s as [|b s]; [done|]. cbn [scan_value] in H.
    assert (Hlit : forall bs t, (r ← expect_all bs s; Some (t, r)) = Some (x, rest) -> (length rest <= length s)%nat).
    { intros bs t (r & ->%expect_all_Some & [= <- <-])%bind_Some. rewrite length_app. lia. }
    simpl length. pose proof (skip_space_length s).
    destruct (b =? quote).
    { apply bind_Some in H as ([items r] & ?%string_shorter & [= <- <-]). lia. }
    destruct (b =? ch "{").
    { destruct (maxNestingDepth <=? d); [done|]. destruct (expect (ch "}") (skip_space s)) as [r|] eqn:E.
      - injection H as <- <-. apply expect_shorter in E. lia.
      - apply bind_Some in H as ([ms r] & ?%IHm & [= <- <-]). lia. }
    destruct (b =? ch "[").
    { destruct (maxNestingDepth <=? d); [done|]. destruct (expect (ch "]") (skip_space s)) as [r|] eqn:E.
      - injection H as <- <-. apply expect_shorter in E. lia.
      - apply bind_Some in H as ([es r] & ?%IHe & [= <- <-]). lia. }
    destruct (b =? ch "t"); [apply Hlit in H; lia|]. destruct (b =? ch "f"); [apply Hlit in H; lia|].
    destruct (b =? ch "n"); [apply Hlit in H; lia|].
    apply bind_Some in H as ([lit r] & (Hs & _ & c & tl & -> & _)%scan_number_spec & [= <- <-]).
    simpl in Hs. injection Hs as _ ->. rewrite length_app. lia.
  - cbn [scan_members] in H. apply bind_Some in H as (s1 & ->%expect_Some & H). simpl length.
    apply bind_Some in H as ([key s2] & ?%string_shorter & H). apply bind_Some in H as (s3 & ?%expect_shorter & H).
    apply bind_Some in H as ([v s4] & ?%IHv & H). pose proof (skip_space_length s3).
    destruct (expect (ch "}") (skip_space s4)) as [r|] eqn:E.
    + injection H as <- <-. apply expect_shorter in E. lia.
    + apply bind_Some in H as (s5 & ?%expect_shorter & H). apply bind_Some in H as ([ms r] & ?%IHm & [= <- <-]).
      pose proof (skip_space_length s5). lia.
  - cbn [scan_elements] in H. apply bind_Some in H as ([v s1] & ?%IHv & H).
    destruct (expect (ch "]") (skip_space s1)) as [r|] eqn:E.
    + injection H as <- <-. apply expect_shorter in E. lia.
    + apply bind_Some in H as (s2 & ?%expect_shorter & H). apply bind_Some in H as ([es r] & ?%IHe & [= <- <-]).
      pose proof (skip_space_length s2). lia.
Qed.

Lemma option_bind_ext {A B} (m : option A) (f g : A -> option B) : (forall a, m = Some a -> f a = g a) -> m ≫= f = m ≫= g.
Proof. destruct m; simpl; auto. Qed.

(** Fuel of twice the length is enough: any more gives the same. *)
Lemma scan_fuel n : forall s d f1 f2, (length s <= n)%nat ->
  ((2 * n < f1)%nat -> (2 * n < f2)%nat -> scan_value f1 d s = scan_value f2 d s) /\
  ((2 * n + 1 < f1)%nat -> (2 * n + 1 < f2)%nat -> scan_members f1 d s = scan_members f2 d s /\
     scan_elements f1 d s = scan_elements f2 d s).
Proof.
  induction n as [|n IH]; intros s d f1 f2 Hn.
  { destruct s; [|simpl in Hn; lia]. split; [by destruct f1, f2|]. intros H1 H2.
    destruct f1 as [|[|f1]], f2 as [|[|f2]]; try lia. done. }
  assert (Hv : forall g1 g2, (2 * S n < g1)%nat -> (2 * S n < g2)%nat -> scan_value g1 d s = scan_value g2 d s).
  { intros g1 g2 H1 H2. destruct g1 as [|g1], g2 as [|g2]; try lia. destruct s as [|b s]; [done|]. cbn [scan_value].
    pose proof (skip_space_length s). simpl in Hn.
    destruct (IH (skip_space s) (d + 1) g1 g2) as [_ Hme]; [lia|]. destruct Hme as [Hm He]; [lia..|].
    by rewrite Hm, He. }
  split; [by apply Hv|]. intros H1 H2. destruct f1 as [|f1], f2 as [|f2]; try lia. split.
  - cbn [scan_members]. apply option_bind_ext. intros s1 ->%expect_Some. simpl in Hn.
    apply option_bind_ext. intros [key s2] Hk%string_shorter. apply option_bind_ext. intros s3 H3%expect_shorter.
    pose proof (skip_space_length s3).
    rewrite (proj1 (IH (skip_space s3) d f1 f2 ltac:(lia))) by lia. apply option_bind_ext.
    intros [v s4] H4%(proj1 (scan_shorter _)). destruct (expect (ch "}") (skip_space s4)); [done|].
    apply option_bind_ext. intros s5 H5%expect_shorter. pose proof (skip_space_length s5).
    by rewrite (proj1 (proj2 (IH (skip_space s5) d f1 f2 ltac:(lia)) ltac:(lia) ltac:(lia))).
  - cbn [scan_elements]. rewrite (Hv f1 f2) by lia. apply option_bind_ext.
    intros [v s1] H3%(proj1 (scan_shorter _)). destruct (expect (ch "]") (skip_space s1)); [done|].
    apply option_bind_ext. intros s2 H4%expect_shorter. pose proof (skip_space_length s2).
    by rewrite (proj2 (proj2 (IH (skip_space s2) d f1 f2 ltac:(lia)) ltac:(lia) ltac:(lia))).
Qed.

(** [parse] computes what any larger fuel does: it never runs out. *)
Lemma parse_fuel document fuel : (2 * length document < fuel)%nat ->
  parse document = scan_value fuel 0 (skip_space document).
Proof.
  intros Hf. unfold parse. pose proof (skip_space_length document).
  apply (scan_fuel (length (skip_space document))); lia.
Qed.

(** ** Scans of the raw document

    A function over the rest of a document that skips plain bytes, and accounts for
    strings and numbers as they come, accounts for exactly those of the tree. *)

Fixpoint tree_forall (str : list item -> bool) (num : list Z -> bool) (t : tree) : bool :=
  match t with
  | JNull | JBool _ => true
  | JNumber literal => num literal
  | JString items => str items
  | JArray elements => forallb (tree_forall str num) elements
  | JObject members => forallb (fun '(key, value) => str key && tree_forall str num value) members
  end.

(** A byte outside strings and numbers. *)
Definition plain (b : Z) : bool :=
  negb (b =? quote) && negb (b =? backslash) && negb (b =? ch "-") && negb (is_digit b).

(** A number ends here. *)
Definition stops (s : list Z) : Prop := match s with b :: _ => number_byte b = false | [] => True end.

Section raw_scan.
Variable F : list Z -> bool.
Variable str : list item -> bool.
Variable num : list Z -> bool.
Hypothesis F_plain : forall b s, plain b = true -> F (b :: s) = F s.
Hypothesis F_string : forall s items rest, scan_string s = Some (items, rest) -> F (quote :: s) = str items && F rest.
Hypothesis F_number : forall s literal rest, scan_number s = Some (literal, rest) -> stops rest ->
  F s = num literal && F rest.

Lemma F_plains bs s : forallb plain bs = true -> F (bs ++ s) = F s.
Proof. induction bs as [|b bs IH]; simpl; [done|]. intros H. bool_hyps. by rewrite F_plain, IH. Qed.

Lemma space_plain b : is_space b = true -> plain b = true /\ number_byte b = false.
Proof.
  unfold is_space. rewrite !orb_true_iff, !Z.eqb_eq. intros H. by destruct_or?; subst.
Qed.

Lemma F_skip s : F s = F (skip_space s).
Proof.
  destruct (skip_space_suffix s) as (ws & Heq & Hws). rewrite Heq at 1. apply F_plains, forallb_Forall.
  eapply Forall_impl; [exact Hws|]. intros b Hb. by apply space_plain.
Qed.

(** What closes a value ends a number. *)
Lemma expect_stops b s rest : expect b (skip_space s) = Some rest -> plain b = true -> number_byte b = false ->
  stops s /\ F s = F rest.
Proof.
  intros H%expect_Some Hp Hn. split.
  - destruct (skip_space_suffix s) as (ws & Heq & Hws). rewrite Heq, H.
    destruct ws as [|w ws]; [done|]. simpl. apply space_plain. by inversion Hws.
  - by rewrite F_skip, H, F_plain.
Qed.

Lemma F_expect_all bs s rest : expect_all bs s = Some rest -> forallb plain bs = true -> F s = F rest.
Proof. intros ->%expect_all_Some H. by apply F_plains. Qed.

Lemma raw_scan fuel :
  (forall d s t rest, scan_value fuel d s = Some (t, rest) -> stops rest -> F s = tree_forall str num t && F rest) /\
  (forall d s ms rest, scan_members fuel d s = Some (ms, rest) -> F s = tree_forall str num (JObject ms) && F rest) /\
  (forall d s es rest, scan_elements fuel d s = Some (es, rest) -> F s = tree_forall str num (JArray es) && F rest).
Proof.
  induction fuel as [|fuel (IHv & IHm & IHe)]; [done|]. split_and!.
  - intros d [|b s] t rest H Hstop; [done|]. cbn [scan_value] in H.
    destruct (Z.eqb_spec b quote) as [->|_].
    { apply bind_Some in H as ([items r] & Hs & [= <- <-]). by apply F_string. }
    destruct (Z.eqb_spec b (ch "{")) as [->|_].
    { destruct (maxNestingDepth <=? d); [done|]. rewrite F_plain by done.
      destruct (expect (ch "}") (skip_space s)) as [r|] eqn:E.
      - injection H as <- <-. by apply expect_stops in E as [_ ->].
      - apply bind_Some in H as ([ms r] & Hm & [= <- <-]). rewrite F_skip. eauto. }
    destruct (Z.eqb_spec b (ch "[")) as [->|_].
    { destruct (maxNestingDepth <=? d); [done|]. rewrite F_plain by done.
      destruct (expect (ch "]") (skip_space s)) as [r|] eqn:E.
      - injection H as <- <-. by apply expect_stops in E as [_ ->].
      - apply bind_Some in H as ([es r] & He & [= <- <-]). rewrite F_skip. eauto. }
    destruct (Z.eqb_spec b (ch "t")) as [->|_].
    { apply bind_Some in H as (r & Hr & [= <- <-]). rewrite F_plain by done. by eapply F_expect_all. }
    destruct (Z.eqb_spec b (ch "f")) as [->|_].
    { apply bind_Some in H as (r & Hr & [= <- <-]). rewrite F_plain by done. by eapply F_expect_all. }
    destruct (Z.eqb_spec b (ch "n")) as [->|_].
    { apply bind_Some in H as (r & Hr & [= <- <-]). rewrite F_plain by done. by eapply F_expect_all. }
    apply bind_Some in H as ([lit r] & Hl & [= <- <-]). by apply F_number.
  - intros d s ms rest H. cbn [scan_members] in H. apply bind_Some in H as (s1 & ->%expect_Some & H).
    apply bind_Some in H as ([key s2] & Hk%F_string & H). apply bind_Some in H as (s3 & H3 & H).
    apply expect_stops in H3 as [_ H3]; [|done..].
    apply bind_Some in H as ([v s4] & Hv & H). rewrite Hk, H3, F_skip.
    destruct (expect (ch "}") (skip_space s4)) as [r|] eqn:E.
    + injection H as <- <-. apply expect_stops in E as [Hst E]; [|done..].
      rewrite (IHv _ _ _ _ Hv Hst), E. simpl. by rewrite andb_true_r, !andb_assoc.
    + apply bind_Some in H as (s5 & H5 & H). apply expect_stops in H5 as [Hst H5]; [|done..].
      apply bind_Some in H as ([ms' r] & Hm%IHm & [= <- <-]).
      rewrite (IHv _ _ _ _ Hv Hst), H5, F_skip, Hm. simpl. by rewrite !andb_assoc.
  - intros d s es rest H. cbn [scan_elements] in H. apply bind_Some in H as ([v s1] & Hv & H).
    destruct (expect (ch "]") (skip_space s1)) as [r|] eqn:E.
    + injection H as <- <-. apply expect_stops in E as [Hst E]; [|done..].
      rewrite (IHv _ _ _ _ Hv Hst), E. simpl. by rewrite andb_true_r.
    + apply bind_Some in H as (s2 & H2 & H). apply expect_stops in H2 as [Hst H2]; [|done..].
      apply bind_Some in H as ([es' r] & Hm%IHe & [= <- <-]).
      rewrite (IHv _ _ _ _ Hv Hst), H2, F_skip, Hm. simpl. by rewrite !andb_assoc.
Qed.

(** Of a whole document: what the scan finds is what the tree holds. *)
Lemma raw_scan_document document t rest : F [] = true -> parse document = Some (t, rest) -> skip_space rest = [] ->
  F document = tree_forall str num t.
Proof.
  intros Hnil H Hrest. unfold parse in H. rewrite F_skip.
  rewrite (proj1 (raw_scan _) _ _ _ _ H).
  - by rewrite (F_skip rest), Hrest, Hnil, andb_true_r.
  - destruct rest as [|b rest]; [done|]. simpl in *. destruct (is_space b) eqn:Hb; [by apply space_plain|done].
Qed.
End raw_scan.

(** ** The shape of a number *)

Definition all_digits (ds : list Z) : Prop := Forall (fun b => is_digit b = true) ds.

Definition exp_shape (exp : list Z) : Prop :=
  exp = [] \/ exists e sign ds, exp = e :: sign ++ ds /\ (e = ch "e" \/ e = ch "E") /\
    (sign = [] \/ sign = [ch "+"] \/ sign = [ch "-"]) /\ ds <> [] /\ all_digits ds.

Inductive literal_shape : list Z -> list Z -> list Z -> list Z -> Prop :=
  literal_shape_intro minus int frac exp :
    minus = [] \/ minus = [ch "-"] ->
    int <> [] -> all_digits int ->
    frac = [] \/ (exists ds, frac = ch "." :: ds /\ all_digits ds) ->
    exp_shape exp ->
    literal_shape minus int frac exp.

Lemma scan_digits_shape s ds rest : scan_digits s = Some (ds, rest) -> ds <> [] /\ all_digits ds.
Proof.
  unfold scan_digits. pose proof (span_spec is_digit s) as [_ Hd]. destruct (span is_digit s) as [[|d ds'] r]; [done|].
  by intros [= <- <-].
Qed.

Lemma scan_exp_shape s exp rest : scan_exp s = Some (exp, rest) ->
  exp_shape exp.
Proof.
  unfold scan_exp. destruct s as [|b s]; [intros [= <- <-]; by left|].
  destruct ((b =? ch "e") || (b =? ch "E")) eqn:Hb; [|intros [= <- <-]; by left].
  assert (Hs : (scan_sign s).1 = [] \/ (scan_sign s).1 = [ch "+"] \/ (scan_sign s).1 = [ch "-"]).
  { destruct s as [|c s]; [by left|]. simpl. destruct ((c =? ch "+") || (c =? ch "-")) eqn:Hc; [|by left].
    right. by apply orb_true_iff in Hc as [->%Z.eqb_eq | ->%Z.eqb_eq]; [left|right]. }
  destruct (scan_sign s) as [sign s']. simpl in Hs.
  destruct (scan_digits s') as [[ds r]|] eqn:E; simpl; [|done]. intros [= <- <-]. apply scan_digits_shape in E as [? ?].
  right. exists b, sign, ds. split_and!; try done. by apply orb_true_iff in Hb as [->%Z.eqb_eq | ->%Z.eqb_eq]; [left|right].
Qed.

Lemma scan_number_shape s literal rest : scan_number s = Some (literal, rest) ->
  exists minus int frac exp, literal = minus ++ int ++ frac ++ exp /\ literal_shape minus int frac exp.
Proof.
  unfold scan_number.
  assert (Hm : (scan_minus s).1 = [] \/ (scan_minus s).1 = [ch "-"]).
  { destruct s as [|b s]; [by left|]. simpl. destruct (Z.eqb_spec b (ch "-")) as [->|]; [by right|by left]. }
  destruct (scan_minus s) as [minus s1]. simpl in Hm.
  destruct (scan_int s1) as [[int s2]|] eqn:E1; simpl; [|done].
  destruct (scan_frac s2) as [[frac s3]|] eqn:E2; simpl; [|done].
  destruct (scan_exp s3) as [[exp s4]|] eqn:E3; simpl; [|done]. intros [= <- <-].
  exists minus, int, frac, exp. split; [done|]. constructor; [done|..].
  - by apply scan_int_spec in E1 as (_ & _ & d & tl & -> & _).
  - unfold scan_int in E1. destruct s1 as [|b s1]; [done|]. destruct (Z.eqb_spec b 48) as [->|_].
    + injection E1 as <- <-. by constructor.
    + destruct (is_digit b); [|done]. pose proof (span_spec is_digit (b :: s1)) as [_ Hd].
      destruct (span is_digit (b :: s1)) as [ds r]. by injection E1 as <- _.
  - unfold scan_frac in E2. destruct s2 as [|b s2]; [injection E2 as <- _; by left|].
    destruct (Z.eqb_spec b (ch ".")) as [->|_]; [|injection E2 as <- _; by left].
    destruct (scan_digits s2) as [[ds r]|] eqn:E; simpl in E2; [|done]. injection E2 as <- _. right.
    exists ds. by apply scan_digits_shape in E as [_ ?].
  - by apply scan_exp_shape in E3.
Qed.

(** ** Induction over trees and values *)

Section tree_induction.
Variable P : tree -> Prop.
Hypothesis P_null : P JNull.
Hypothesis P_bool : forall b, P (JBool b).
Hypothesis P_number : forall l, P (JNumber l).
Hypothesis P_string : forall items, P (JString items).
Hypothesis P_array : forall es, Forall P es -> P (JArray es).
Hypothesis P_object : forall ms, Forall (fun m => P m.2) ms -> P (JObject ms).

Definition tree_ind' : forall t, P t :=
  fix go t := match t with
  | JNull => P_null
  | JBool b => P_bool b
  | JNumber l => P_number l
  | JString items => P_string items
  | JArray es => P_array es ((fix gos es : Forall P es :=
      match es with [] => List.Forall_nil _ | e :: es => @List.Forall_cons _ _ e es (go e) (gos es) end) es)
  | JObject ms => P_object ms ((fix gos ms : Forall (fun m => P m.2) ms :=
      match ms with [] => List.Forall_nil _ | m :: ms => @List.Forall_cons _ _ m ms (go m.2) (gos ms) end) ms)
  end.
End tree_induction.

Section value_induction.
Variable P : value -> Prop.
Hypothesis P_null : P VNull.
Hypothesis P_bool : forall b, P (VBool b).
Hypothesis P_number : forall l, P (VNumber l).
Hypothesis P_string : forall text, P (VString text).
Hypothesis P_array : forall es, Forall P es -> P (VArray es).
Hypothesis P_object : forall ms, Forall (fun m => P m.2) ms -> P (VObject ms).

Definition value_ind' : forall v, P v :=
  fix go v := match v with
  | VNull => P_null
  | VBool b => P_bool b
  | VNumber l => P_number l
  | VString text => P_string text
  | VArray es => P_array es ((fix gos es : Forall P es :=
      match es with [] => List.Forall_nil _ | e :: es => @List.Forall_cons _ _ e es (go e) (gos es) end) es)
  | VObject ms => P_object ms ((fix gos ms : Forall (fun m => P m.2) ms :=
      match ms with [] => List.Forall_nil _ | m :: ms => @List.Forall_cons _ _ m ms (go m.2) (gos ms) end) ms)
  end.
End value_induction.

(** ** Objects as association lists *)

Lemma assoc_Some {A} key (v : A) ms : NoDup ms.*1 -> assoc key ms = Some v <-> (key, v) ∈ ms.
Proof.
  induction ms as [|[k w] ms IH]; simpl; [by split; [|intros ?%elem_of_nil]|]. intros [Hk Hnd]%NoDup_cons.
  rewrite elem_of_cons. case_bool_decide as E; subst.
  - split; [intros [= ->]; by left|]. intros [[= ->]|Hin]; [done|]. destruct Hk. apply list_elem_of_fmap. by exists (key, v).
  - rewrite IH by done. split; [by right|]. by intros [[= <- <-]|?].
Qed.

Lemma assoc_None {A} key (ms : list (list Z * A)) : assoc key ms = None <-> key ∉ ms.*1.
Proof.
  induction ms as [|[k w] ms IH]; simpl; [split; [intros _ []%elem_of_nil|done]|]. rewrite not_elem_of_cons.
  case_bool_decide; [by split; [|intros [? _]]|]. rewrite IH. split; [by split|by intros [_ ?]].
Qed.

Lemma assign_keys {A} key (v : A) ms k : k ∈ (assign key v ms).*1 <-> k = key \/ k ∈ ms.*1.
Proof.
  induction ms as [|[k' w] ms IH]; simpl.
  - rewrite list_elem_of_singleton, elem_of_nil. tauto.
  - case_bool_decide; subst; simpl; rewrite !elem_of_cons; [tauto|]. rewrite IH. tauto.
Qed.

Lemma assign_NoDup {A} key (v : A) ms : NoDup ms.*1 -> NoDup (assign key v ms).*1.
Proof.
  induction ms as [|[k' w] ms IH]; simpl; [intros; apply NoDup_singleton|]. intros [Hk Hnd]%NoDup_cons.
  case_bool_decide; simpl; apply NoDup_cons; [done|]. split; [|by apply IH].
  rewrite assign_keys. by intros [?|?].
Qed.

Lemma assign_elem {A} key (v : A) ms p : p ∈ assign key v ms -> p = (key, v) \/ p ∈ ms.
Proof.
  induction ms as [|[k' w] ms IH]; simpl; [rewrite list_elem_of_singleton; tauto|].
  case_bool_decide; subst; rewrite !elem_of_cons; tauto.
Qed.

(** Every object of a value has each key once. *)
Fixpoint value_ok (v : value) : Prop :=
  match v with
  | VArray es => fold_right (fun e P => value_ok e /\ P) True es
  | VObject ms => NoDup ms.*1 /\ fold_right (fun m P => value_ok m.2 /\ P) True ms
  | _ => True
  end.

Lemma fold_and_Forall {A} (P : A -> Prop) l : fold_right (fun x Q => P x /\ Q) True l <-> Forall P l.
Proof. induction l; simpl; [done|]. by rewrite Forall_cons, IHl. Qed.

Lemma interpret_ok t : value_ok (interpret t).
Proof.
  induction t as [| | | |es IH|ms IH] using tree_ind'; simpl; try done.
  - apply fold_and_Forall. apply Forall_map. exact IH.
  - assert (Hms : Forall (fun m => value_ok m.2) (map (fun '(k, t) => (k, interpret t)) ms)).
    { apply Forall_map. eapply Forall_impl; [exact IH|]. by intros []. }
    assert (Hgen : forall (l : list (list item * value)) m, NoDup m.*1 -> Forall (fun m => value_ok m.2) m ->
      Forall (fun m => value_ok m.2) l ->
      NoDup (fold_left (fun m p => assign (unquote p.1) p.2 m) l m).*1 /\
      Forall (fun m => value_ok m.2) (fold_left (fun m p => assign (unquote p.1) p.2 m) l m)).
    { induction l as [|[k v] l IHl]; intros m Hnd Hm Hl; simpl; [done|]. apply Forall_cons in Hl as [Hv Hl].
      apply IHl; [by apply assign_NoDup| |done]. apply Forall_forall. intros p [->|Hp]%assign_elem; [done|].
      by eapply Forall_forall in Hm. }
    rewrite fold_and_Forall. apply Hgen; [constructor|done|done].
Qed.
