(* ===== verification/JsonEncode.v ===== *)
(** * JsonEncode

    [json.Marshal] as the services use it, on strings, integers and structs: a value is
    encoded as a syntax tree of Json.v, spelled without spaces.  What is spelled parses
    back to the tree, and an encoded string decodes to the text it was. *)

From S2P Require Import Prelude GoText Utf8 Json JsonProps.
Open Scope Z_scope.
Import json.

Module json_encode.

Definition hex_digit (n : Z) : Z := if n <? 10 then 48 + n else 87 + n.

(** [\u] and the four lower-case digits of a code point below 65536 *)
Definition uni (u : Z) : item :=
  Uni (hex_digit (u / 4096 mod 16)) (hex_digit (u / 256 mod 16)) (hex_digit (u / 16 mod 16)) (hex_digit (u mod 16)).

(** [appendString] with HTML escaping, one rune. *)
Definition rune_items (r : rune) : list item :=
  match r with
  | Invalid _ => [uni RuneError]
  | Rune c enc =>
    if c <? 128 then
      if (c =? quote) || (c =? backslash) then [Esc c]
      else if c =? 8 then [Esc (ch "b")]
      else if c =? 12 then [Esc (ch "f")]
      else if c =? 10 then [Esc (ch "n")]
      else if c =? 13 then [Esc (ch "r")]
      else if c =? 9 then [Esc (ch "t")]
      else if (c <? 32) || (c =? ch "<") || (c =? ch ">") || (c =? ch "&") then [uni c]
      else [Raw c]
    else if (c =? 8232) || (c =? 8233) then [uni c]
    else Raw <$> enc
  end.

Definition string_items (s : string) : list item := decode (bytes s) ≫= rune_items.

Definition of_string (s : string) : tree := JString (string_items s).
(** A pointer to a string: null when it is nil. *)
Definition of_string_opt (s : option string) : tree := match s with Some s => of_string s | None => JNull end.
Definition of_int (z : Z) : tree := JNumber (bytes (pretty z)).
(** A struct: its fields in their order. *)
Definition of_struct (fields : list (string * tree)) : tree := JObject ((fun p => (string_items p.1, p.2)) <$> fields).

Definition spell_string (items : list item) : list Z := quote :: (items ≫= item_bytes) ++ [quote].

(** The elements with commas between them. *)
Fixpoint commas (parts : list (list Z)) : list Z :=
  match parts with
  | [] => []
  | [p] => p
  | p :: parts => p ++ ch "," :: commas parts
  end.

Fixpoint spell (t : tree) : list Z :=
  match t with
  | JNull => bytes "null"
  | JBool true => bytes "true"
  | JBool false => bytes "false"
  | JNumber literal => literal
  | JString items => spell_string items
  | JArray elements => ch "[" :: commas (map spell elements) ++ [ch "]"]
  | JObject members => ch "{" :: commas (map (fun '(key, value) => spell_string key ++ ch ":" :: spell value) members) ++ [ch "}"]
  end.

(** [json.Marshal] *)
Definition Marshal (t : tree) : list Z := spell t.

(** ** What is spelled parses back *)

Definition item_valid (i : item) : Prop :=
  match i with
  | Raw b => b <> quote /\ b <> backslash /\ 32 <= b
  | Esc c => simple_escape c = true
  | Uni h1 h2 h3 h4 => is_hex h1 && is_hex h2 && is_hex h3 && is_hex h4 = true
  end.

Definition literal_valid (literal : list Z) : Prop :=
  forall rest, stops rest -> scan_number (literal ++ rest) = Some (literal, rest).

Inductive tree_valid : Z -> tree -> Prop :=
  | valid_null n : tree_valid n JNull
  | valid_bool n b : tree_valid n (JBool b)
  | valid_number n literal : literal_valid literal -> tree_valid n (JNumber literal)
  | valid_string n items : Forall item_valid items -> tree_valid n (JString items)
  | valid_array n elements : 0 < n -> Forall (tree_valid (n - 1)) elements -> tree_valid n (JArray elements)
  | valid_object n members : 0 < n ->
      Forall (fun m : list item * tree => Forall item_valid m.1 /\ tree_valid (n - 1) m.2) members -> tree_valid n (JObject members).

Lemma scan_spelled items rest : Forall item_valid items ->
  scan_string ((items ≫= item_bytes) ++ quote :: rest) = Some (items, rest).
Proof.
  induction 1 as [|i items Hi _ IH]; [done|]. csimpl. rewrite <- app_assoc. destruct i as [b|c|h1 h2 h3 h4]; simpl in Hi |- *.
  - destruct Hi as (H1 & H2 & H3). cbn [scan_string]. rewrite (proj2 (Z.eqb_neq _ _) H1), (proj2 (Z.eqb_neq _ _) H2).
    destruct (Z.ltb_spec b 32); [lia|]. by rewrite IH.
  - cbn [scan_string]. cbn [Z.eqb]. change (backslash =? quote) with false. change (backslash =? backslash) with true. cbv iota.
    destruct (Z.eqb_spec c (ch "u")) as [->|_]; [done|]. by rewrite Hi, IH.
  - cbn [scan_string]. change (backslash =? quote) with false. change (backslash =? backslash) with true.
    change (ch "u" =? ch "u") with true. cbv iota. by rewrite Hi, IH.
Qed.

Lemma literal_start literal : literal_valid literal -> exists b tl, literal = b :: tl /\ (b = ch "-" \/ is_digit b = true).
Proof.
  intros H. specialize (H [] I). rewrite app_nil_r in H. apply scan_number_spec in H as (_ & _ & Hb). exact Hb.
Qed.

Lemma spell_start n t : tree_valid n t ->
  exists b tl, spell t = b :: tl /\ is_space b = false /\ b <> ch "]" /\ b <> ch "}".
Proof.
  destruct 1 as [n|n b|n lit Hl|n items _|n es _ _|n ms _ _]; simpl.
  - by eexists _, _.
  - destruct b; by eexists _, _.
  - destruct (literal_start lit Hl) as (b & tl & -> & Hb). exists b, tl. split; [done|].
    destruct Hb as [->|Hb]; [done|]. unfold is_digit in Hb. bool_hyps. unfold is_space.
    change (ch "]") with 93. change (ch "}") with 125. split_and!; [|lia..].
    rewrite !orb_false_iff, !Z.eqb_neq. lia.
  - by eexists _, _.
  - by eexists _, _.
  - by eexists _, _.
Qed.

Lemma skip_start b s : is_space b = false -> skip_space (b :: s) = b :: s.
Proof. intros H. unfold skip_space. simpl. by rewrite H. Qed.

Lemma skip_spelled n t rest : tree_valid n t -> skip_space (spell t ++ rest) = spell t ++ rest.
Proof. intros (b & tl & -> & Hb & _)%spell_start. by apply skip_start. Qed.

(** A value that the scanner reads back, given fuel, at any depth that leaves room. *)
Definition scans (n : Z) (t : tree) : Prop := exists F, forall fuel d rest,
  (F <= fuel)%nat -> d + n <= maxNestingDepth -> stops rest -> scan_value fuel d (spell t ++ rest) = Some (t, rest).

Lemma scans_elements n es : es <> [] -> Forall (fun e => tree_valid n e /\ scans n e) es ->
  exists F, forall fuel d rest, (F <= fuel)%nat -> d + n <= maxNestingDepth ->
    scan_elements fuel d (commas (map spell es) ++ ch "]" :: rest) = Some (es, rest).
Proof.
  induction es as [|e es IH]; [done|]. intros _ [[Hv [F1 H1]] Hes]%Forall_cons. destruct es as [|e' es].
  - exists (S F1). intros [|fuel] d rest Hf Hd; [lia|]. cbn [map commas scan_elements].
    rewrite H1 by (lia || done). cbn [mbind option_bind]. by rewrite skip_start.
  - destruct IH as [F2 H2]; [done..|]. exists (S (F1 + F2)). intros [|fuel] d rest Hf Hd; [lia|].
    cbn [map commas scan_elements]. rewrite <- app_assoc, H1 by (lia || done). cbn [mbind option_bind app].
    rewrite skip_start by done. cbn [expect]. change (ch "," =? ch "]") with false. cbv iota.
    rewrite Z.eqb_refl. cbn [mbind option_bind]. apply Forall_cons in Hes as Hes'. destruct Hes' as [[Hv' _] _].
    assert (Hs : skip_space (commas (map spell (e' :: es)) ++ ch "]" :: rest) = commas (map spell (e' :: es)) ++ ch "]" :: rest).
    { destruct (spell_start n e' Hv') as (b & tl & Hb & Hsp & _). cbn [map]. destruct es; cbn [map commas]; rewrite Hb; by apply skip_start. }
    cbn [map commas] in Hs |- *. rewrite Hs. specialize (H2 fuel d rest ltac:(lia) Hd). cbn [map commas] in H2. by rewrite H2.
Qed.

Definition spell_member (m : list item * tree) : list Z := let '(key, value) := m in spell_string key ++ ch ":" :: spell value.

Lemma scans_members n ms : ms <> [] ->
  Forall (fun m : list item * tree => Forall item_valid m.1 /\ tree_valid n m.2 /\ scans n m.2) ms ->
  exists F, forall fuel d rest, (F <= fuel)%nat -> d + n <= maxNestingDepth ->
    scan_members fuel d (commas (map spell_member ms) ++ ch "}" :: rest) = Some (ms, rest).
Proof.
  induction ms as [|[key v] ms IH]; [done|]. intros _ [(Hk & Hv & Hs) Hms]%Forall_cons. simpl in Hk, Hv, Hs.
  destruct Hs as [F1 H1].
  assert (Hm : forall fuel d tail, (F1 <= fuel)%nat -> d + n <= maxNestingDepth -> stops tail ->
    scan_members (S fuel) d (spell_member (key, v) ++ tail) =
    match expect (ch "}") (skip_space tail) with
    | Some rest => Some ([(key, v)], rest)
    | None =>
      s ← expect (ch ",") (skip_space tail);
      '(members, rest) ← scan_members fuel d (skip_space s);
      Some ((key, v) :: members, rest)
    end).
  { intros fuel d tail Hf Hd Hst. unfold spell_member, spell_string. rewrite <- !app_assoc. cbn [app scan_members expect].
    rewrite Z.eqb_refl. cbn [mbind option_bind]. rewrite <- app_assoc. cbn [app]. rewrite scan_spelled by done.
    cbn [mbind option_bind]. rewrite skip_start by done. cbn [expect]. rewrite Z.eqb_refl. cbn [mbind option_bind].
    rewrite (skip_spelled n) by done. by rewrite H1. }
  destruct ms as [|m' ms].
  - exists (S F1). intros [|fuel] d rest Hf Hd; [lia|]. cbn [map commas]. rewrite Hm by (lia || done). by rewrite skip_start.
  - destruct IH as [F2 H2]; [done..|]. exists (S (F1 + F2)). intros [|fuel] d rest Hf Hd; [lia|].
    change (commas (map spell_member ((key, v) :: m' :: ms))) with (spell_member (key, v) ++ ch "," :: commas (map spell_member (m' :: ms))).
    rewrite <- app_assoc. cbn [app]. rewrite Hm by (lia || done). rewrite skip_start by done. cbn [expect].
    change (ch "," =? ch "}") with false. cbv iota. rewrite Z.eqb_refl. cbn [mbind option_bind].
    assert (Hs : skip_space (commas (map spell_member (m' :: ms)) ++ ch "}" :: rest) = commas (map spell_member (m' :: ms)) ++ ch "}" :: rest).
    { destruct m' as [key' v']. cbn [map]. destruct ms; cbn [map commas]; by apply skip_start. }
    rewrite Hs, H2 by lia. done.
Qed.

Lemma scan_spell t : forall n, tree_valid n t -> scans n t.
Proof.
  induction t as [|b|lit|items|es IH|ms IH] using tree_ind'; intros n Hv.
  - exists 1%nat. intros [|fuel] d rest Hf _ _; [lia|]. done.
  - exists 1%nat. intros [|fuel] d rest Hf _ _; [lia|]. by destruct b.
  - exists 1%nat. inversion Hv as [| |? ? Hl| | |]; subst. intros [|fuel] d rest Hf _ Hst; [lia|].
    pose proof (Hl rest Hst) as Hn. destruct (literal_start lit Hl) as (b & tl & -> & Hb). cbn [spell].
    cbn [app scan_value]. assert (Hne : b <> quote /\ b <> ch "{" /\ b <> ch "[" /\ b <> ch "t" /\ b <> ch "f" /\ b <> ch "n").
    { change (ch "{") with 123. change (ch "[") with 91. change (ch "t") with 116. change (ch "f") with 102.
      change (ch "n") with 110. unfold quote. destruct Hb as [->|Hb]; [done|]. unfold is_digit in Hb. bool_hyps. lia. }
    destruct Hne as (H1 & H2 & H3 & H4 & H5 & H6). apply Z.eqb_neq in H1, H2, H3, H4, H5, H6.
    rewrite H1, H2, H3, H4, H5, H6. cbn [app] in Hn. by rewrite Hn.
  - inversion Hv as [| | |? ? Hi| |]; subst. exists 1%nat. intros [|fuel] d rest Hf _ _; [lia|]. cbn [spell]. unfold spell_string.
    cbn [app scan_value]. rewrite Z.eqb_refl, <- app_assoc. cbn [app]. by rewrite scan_spelled.
  - inversion Hv as [| | | |? ? Hn Hes|]; subst. destruct es as [|e es].
    { exists 1%nat. intros [|fuel] d rest Hf Hd _; [lia|]. cbn [spell map commas app scan_value].
      change (ch "[" =? quote) with false. change (ch "[" =? ch "{") with false. change (ch "[" =? ch "[") with true. cbv iota.
      destruct (Z.leb_spec maxNestingDepth d); [lia|]. by rewrite skip_start. }
    destruct (scans_elements (n - 1) (e :: es)) as [F HF]; [done| |].
    { apply Forall_forall. intros x Hx. rewrite Forall_forall in IH, Hes. split; [by apply Hes|]. apply IH; [done|by apply Hes]. }
    exists (S F). intros [|fuel] d rest Hf Hd Hst; [lia|]. cbn [spell]. cbn [app scan_value].
    change (ch "[" =? quote) with false. change (ch "[" =? ch "{") with false. change (ch "[" =? ch "[") with true. cbv iota.
    destruct (Z.leb_spec maxNestingDepth d); [lia|]. rewrite <- app_assoc. cbn [app].
    apply Forall_cons in Hes as [He _]. destruct (spell_start _ _ He) as (b & tl & Hb & Hsp & Hne & _).
    specialize (HF fuel (d + 1) rest ltac:(lia) ltac:(lia)). cbn [map] in HF |- *.
    assert (Hc : exists tl', commas (spell e :: map spell es) ++ ch "]" :: rest = b :: tl').
    { rewrite Hb. destruct (map spell es); cbn [commas app]; by eexists. }
    destruct Hc as [tl' Hc]. rewrite Hc in HF |- *. rewrite skip_start by done. cbn [expect].
    rewrite (proj2 (Z.eqb_neq _ _) Hne). by rewrite HF.
  - inversion Hv as [| | | | |? ? Hn Hms]; subst. destruct ms as [|m ms].
    { exists 1%nat. intros [|fuel] d rest Hf Hd _; [lia|]. cbn [spell map commas app scan_value].
      change (ch "{" =? quote) with false. change (ch "{" =? ch "{") with true. cbv iota.
      destruct (Z.leb_spec maxNestingDepth d); [lia|]. by rewrite skip_start. }
    destruct (scans_members (n - 1) (m :: ms)) as [F HF]; [done| |].
    { apply Forall_forall. intros x Hx. rewrite Forall_forall in IH, Hms. destruct (Hms x Hx) as [? ?].
      split_and!; [done..|]. by apply IH. }
    exists (S F). intros [|fuel] d rest Hf Hd Hst; [lia|]. cbn [spell]. cbn [app scan_value].
    change (ch "{" =? quote) with false. change (ch "{" =? ch "{") with true. cbv iota.
    destruct (Z.leb_spec maxNestingDepth d); [lia|]. rewrite <- app_assoc. cbn [app].
    specialize (HF fuel (d + 1) rest ltac:(lia) ltac:(lia)). change (fun '(key, value) => spell_string key ++ ch ":" :: spell value) with spell_member.
    assert (Hc : exists tl', commas (map spell_member (m :: ms)) ++ ch "}" :: rest = quote :: tl').
    { destruct m as [key v]. destruct ms; cbn [map commas]; by eexists. }
    cbn [map] in HF, Hc |- *. destruct Hc as [tl' Hc]. rewrite Hc in HF |- *. rewrite skip_start by done. cbn [expect].
    change (quote =? ch "}") with false. cbv iota. by rewrite HF.
Qed.

(** Spelling a tree and parsing it gives the tree back, and nothing is left. *)
Lemma parse_spell t : tree_valid maxNestingDepth t -> parse (spell t) = Some (t, []).
Proof.
  intros Hv. destruct (scan_spell t _ Hv) as [F HF].
  rewrite (parse_fuel (spell t) (F + S (2 * length (spell t)))) by lia.
  rewrite <- (app_nil_r (spell t)), (skip_spelled _ _ _ Hv). apply HF; [lia|done|done].
Qed.

(** ** Encoded strings *)

(** A decoded rune is spelled the one way UTF-8 spells its code point. *)
Definition canonical (r : rune) : Prop :=
  match r with Rune c enc => encode_rune c = enc /\ 0 <= c < 1114112 | Invalid _ => True end.

(** The low bits of a byte. *)
Lemma land63 b : Z.land b 63 = b mod 64. Proof. exact (Z.land_ones b 6 ltac:(done)). Qed.
Lemma land31 b : Z.land b 31 = b mod 32. Proof. exact (Z.land_ones b 5 ltac:(done)). Qed.
Lemma land15 b : Z.land b 15 = b mod 16. Proof. exact (Z.land_ones b 4 ltac:(done)). Qed.
Lemma land7 b : Z.land b 7 = b mod 8. Proof. exact (Z.land_ones b 3 ltac:(done)). Qed.

Lemma land_cont b : cont b = true -> exists y, b = 128 + y /\ Z.land b 63 = y /\ 0 <= y < 64.
Proof.
  unfold cont. intros H. bool_hyps. exists (b - 128). rewrite land63.
  Z.to_euclidean_division_equations; lia.
Qed.

Lemma canonical2 b0 b1 : 194 <= b0 <= 223 -> cont b1 = true ->
  canonical (Rune (Z.land b0 31 * 64 + Z.land b1 63) [b0; b1]).
Proof.
  intros H0 (y & -> & -> & Hy)%land_cont. rewrite land31.
  assert (exists x, b0 = 192 + x /\ b0 mod 32 = x /\ 2 <= x < 32) as (x & -> & -> & Hx)
    by (exists (b0 - 192); Z.to_euclidean_division_equations; lia).
  unfold canonical, encode_rune. destruct (Z.ltb_spec (x * 64 + y) 128); [lia|].
  destruct (Z.ltb_spec (x * 64 + y) 2048); [|lia]. split; [|lia].
  f_equal; [|f_equal]; Z.to_euclidean_division_equations; lia.
Qed.

Lemma canonical3 b0 b1 b2 : 224 <= b0 <= 239 -> second3 b0 b1 = true -> cont b2 = true ->
  canonical (Rune (Z.land b0 15 * 4096 + Z.land b1 63 * 64 + Z.land b2 63) [b0; b1; b2]).
Proof.
  intros H0 H1 (z & -> & -> & Hz)%land_cont. rewrite land15.
  assert (exists x, b0 = 224 + x /\ b0 mod 16 = x /\ 0 <= x < 16) as (x & -> & -> & Hx)
    by (exists (b0 - 224); Z.to_euclidean_division_equations; lia).
  assert (Hc : cont b1 = true /\ (x = 0 -> 160 <= b1)).
  { unfold second3, cont in *. destruct (Z.eqb_spec (224 + x) 224); [bool_hyps; split; [apply andb_true_iff; lia|lia]|].
    destruct (Z.eqb_spec (224 + x) 237); [bool_hyps; split; [apply andb_true_iff; lia|lia]|]. split; [done|lia]. }
  destruct Hc as [(y & -> & -> & Hy)%land_cont Hlow].
  unfold canonical, encode_rune. set (c := x * 4096 + y * 64 + z).
  assert (Hc : 2048 <= c < 65536) by (unfold c; lia).
  destruct (Z.ltb_spec c 128); [lia|]. destruct (Z.ltb_spec c 2048); [lia|]. destruct (Z.ltb_spec c 65536); [|lia].
  split; [|lia]. assert (c / 4096 = x) as -> by (unfold c; Z.to_euclidean_division_equations; lia).
  assert (c / 64 = x * 64 + y) as -> by (unfold c; Z.to_euclidean_division_equations; lia).
  assert (c mod 64 = z) as -> by (unfold c; Z.to_euclidean_division_equations; lia).
  assert ((x * 64 + y) mod 64 = y) as -> by (Z.to_euclidean_division_equations; lia). done.
Qed.

Lemma canonical4 b0 b1 b2 b3 : 240 <= b0 <= 244 -> second4 b0 b1 = true -> cont b2 = true -> cont b3 = true ->
  canonical (Rune (Z.land b0 7 * 262144 + Z.land b1 63 * 4096 + Z.land b2 63 * 64 + Z.land b3 63) [b0; b1; b2; b3]).
Proof.
  intros H0 H1 (z & -> & -> & Hz)%land_cont (w & -> & -> & Hw)%land_cont. rewrite land7.
  assert (exists x, b0 = 240 + x /\ b0 mod 8 = x /\ 0 <= x < 5) as (x & -> & -> & Hx)
    by (exists (b0 - 240); Z.to_euclidean_division_equations; lia).
  assert (Hc : cont b1 = true /\ (x = 0 -> 144 <= b1) /\ (x = 4 -> b1 <= 143)).
  { unfold second4, cont in *. destruct (Z.eqb_spec (240 + x) 240); [bool_hyps; split; [apply andb_true_iff; lia|lia]|].
    destruct (Z.eqb_spec (240 + x) 244); [bool_hyps; split; [apply andb_true_iff; lia|lia]|]. split; [done|lia]. }
  destruct Hc as [(y & -> & -> & Hy)%land_cont Hlow].
  unfold canonical, encode_rune. set (c := x * 262144 + y * 4096 + z * 64 + w).
  assert (Hc : 65536 <= c < 1114112) by (unfold c; lia).
  destruct (Z.ltb_spec c 128); [lia|]. destruct (Z.ltb_spec c 2048); [lia|]. destruct (Z.ltb_spec c 65536); [lia|].
  split; [|lia]. assert (c / 262144 = x) as -> by (unfold c; Z.to_euclidean_division_equations; lia).
  assert (c / 4096 = x * 64 + y) as -> by (unfold c; Z.to_euclidean_division_equations; lia).
  assert (c / 64 = (x * 64 + y) * 64 + z) as -> by (unfold c; Z.to_euclidean_division_equations; lia).
  assert (c mod 64 = w) as -> by (unfold c; Z.to_euclidean_division_equations; lia).
  assert ((x * 64 + y) mod 64 = y) as -> by (Z.to_euclidean_division_equations; lia).
  assert (((x * 64 + y) * 64 + z) mod 64 = z) as -> by (Z.to_euclidean_division_equations; lia). done.
Qed.

Lemma canonical_decode s : Forall (fun b => 0 <= b < 256) s -> Forall canonical (decode s).
Proof.
  remember (length s) as n eqn:Hn. revert s Hn. induction n as [n IH] using lt_wf_ind. intros [|b0 t0] Hn Hs; [constructor|].
  apply Forall_cons in Hs as [H0 Hs].
  assert (Hrec : forall t, (length t < n)%nat -> Forall (fun b => 0 <= b < 256) t -> Forall canonical (decode t))
    by (intros t Ht Hf; by eapply IH).
  simpl in Hn. cbn [decode]. destruct (Z.ltb_spec b0 128).
  { constructor; [|apply Hrec; [lia|done]]. split; [|lia]. unfold encode_rune. destruct (Z.ltb_spec b0 128); [done|lia]. }
  assert (Hbad : Forall canonical (Invalid b0 :: decode t0)) by (constructor; [done|apply Hrec; [lia|done]]).
  destruct ((194 <=? b0) && (b0 <=? 223)) eqn:E2; [|destruct ((224 <=? b0) && (b0 <=? 239)) eqn:E3;
    [|destruct ((240 <=? b0) && (b0 <=? 244)) eqn:E4; [|done]]].
  - destruct t0 as [|b1 t1]; [done|]. destruct (cont b1) eqn:E; [|done]. bool_hyps.
    apply Forall_cons in Hs as [_ Hs]. constructor; [by apply canonical2; [lia|]|apply Hrec; [simpl in Hn; lia|done]].
  - destruct t0 as [|b1 [|b2 t2]]; [done..|]. destruct (second3 b0 b1 && cont b2) eqn:E; [|done]. bool_hyps.
    do 2 apply Forall_cons in Hs as [_ Hs]. constructor; [by apply canonical3; [lia|..]|apply Hrec; [simpl in Hn; lia|done]].
  - destruct t0 as [|b1 [|b2 [|b3 t3]]]; [done..|]. destruct (second4 b0 b1 && cont b2 && cont b3) eqn:E; [|done]. bool_hyps.
    do 3 apply Forall_cons in Hs as [_ Hs]. constructor; [by apply canonical4; [lia|..]|apply Hrec; [simpl in Hn; lia|done]].
Qed.

Lemma hex_digit_val n : 0 <= n < 16 -> hex_val (hex_digit n) = Some n.
Proof.
  intros H. unfold hex_digit, hex_val, is_digit. destruct (Z.ltb_spec n 10).
  - destruct (Z.leb_spec 48 (48 + n)); [|lia]. destruct (Z.leb_spec (48 + n) 57); [|lia]. simpl. f_equal. lia.
  - destruct (Z.leb_spec 48 (87 + n)); [|lia]. destruct (Z.leb_spec (87 + n) 57); [lia|]. simpl.
    destruct (Z.leb_spec 97 (87 + n)); [|lia]. destruct (Z.leb_spec (87 + n) 102); [|lia]. simpl. f_equal. lia.
Qed.

Lemma uni_valid u : item_valid (uni u).
Proof.
  unfold uni, item_valid, is_hex. rewrite !hex_digit_val by (apply Z.mod_pos_bound; done). done.
Qed.

Lemma uni_code u : 0 <= u < 65536 -> match uni u with Uni h1 h2 h3 h4 => code_unit h1 h2 h3 h4 = u | _ => False end.
Proof.
  intros Hu. unfold uni, code_unit. rewrite !hex_digit_val by (apply Z.mod_pos_bound; done). simpl.
  Z.to_euclidean_division_equations; lia.
Qed.

Lemma encode_rune_high c : 128 <= c -> Forall (fun b => 128 <= b) (encode_rune c).
Proof.
  intros Hc. unfold encode_rune. destruct (Z.ltb_spec c 128); [lia|].
  pose proof (fun x => Z.mod_pos_bound x 64 ltac:(done)) as Hm.
  pose proof (fun k Hk => Z.div_pos c k ltac:(lia) Hk) as Hd.
  pose proof (Hd 64 ltac:(done)). pose proof (Hd 4096 ltac:(done)). pose proof (Hd 262144 ltac:(done)).
  pose proof (Hm c). pose proof (Hm (c / 64)). pose proof (Hm (c / 4096)).
  destruct (c <? 2048); [|destruct (c <? 65536)]; repeat constructor; lia.
Qed.

Lemma rune_items_valid r : canonical r -> Forall item_valid (rune_items r).
Proof.
  destruct r as [c enc|b]; [|intros _; constructor; [apply uni_valid|done]]. intros [<- Hc]. unfold rune_items.
  destruct (Z.ltb_spec c 128).
  - destruct ((c =? quote) || (c =? backslash)) eqn:Hq.
    { constructor; [|done]. by apply orb_true_iff in Hq as [->%Z.eqb_eq | ->%Z.eqb_eq]. }
    do 5 (case_match; [by repeat constructor|]). apply orb_false_iff in Hq as [Hq1 Hq2]; apply Z.eqb_neq in Hq1, Hq2; destruct ((c <? 32) || _ || _ || _) eqn:Hu; [constructor; [apply uni_valid|done]|].
    bool_hyps. constructor; [simpl; unfold quote, backslash in *; lia|done].
  - destruct (_ || _); [constructor; [apply uni_valid|done]|]. apply Forall_fmap.
    eapply Forall_impl; [by apply encode_rune_high|]. intros b Hb. simpl in *. unfold quote, backslash. lia.
Qed.

Lemma string_items_valid s : Forall item_valid (string_items s).
Proof.
  unfold string_items. apply Forall_bind. eapply Forall_impl; [apply canonical_decode, bytes_range|]. apply rune_items_valid.
Qed.

(** Integers are spelled as numbers. *)
Lemma span_app p ds rest : Forall (fun b => p b = true) ds -> match rest with b :: _ => p b = false | [] => True end ->
  span p (ds ++ rest) = (ds, rest).
Proof.
  intros Hds Hrest. induction Hds as [|d ds Hd _ IH]; simpl.
  - destruct rest as [|b rest]; [done|]. simpl. by rewrite Hrest.
  - by rewrite Hd, IH.
Qed.

(** *** Decoding what was encoded *)

Lemma repair_valid rs : Forall rune_wf rs -> forallb rune_valid rs = true -> repair (encode rs) = encode rs.
Proof.
  intros Hw Hv. unfold repair. rewrite decode_encode by done. clear Hw. unfold encode.
  induction rs as [|r rs IH]; [done|]. simpl in Hv. bool_hyps. csimpl. f_equal; [by destruct r|by apply IH].
Qed.

Lemma unquote_raw raw bs items : unquote_from raw ((Raw <$> bs) ++ items) = unquote_from (rev bs ++ raw) items.
Proof. revert raw. induction bs as [|b bs IH]; intros raw; [done|]. csimpl. rewrite IH. by rewrite <- app_assoc. Qed.

(** A \u escape of a code point that is no surrogate. *)
Lemma unquote_uni raw u items : 0 <= u < 65536 -> is_high u = false -> is_low u = false ->
  unquote_from raw (uni u :: items) = repair (rev raw) ++ encode_rune u ++ unquote_from [] items.
Proof.
  intros Hu Hh Hl. pose proof (uni_code u Hu) as Hc. unfold uni in *. cbn [unquote_from]. rewrite Hc, Hh, Hl.
  cbn [orb]. f_equal. destruct items as [|[]]; done.
Qed.

Lemma canonical_ascii c enc : canonical (Rune c enc) -> c < 128 -> enc = [c].
Proof. intros [<- _] Hc. unfold encode_rune. destruct (Z.ltb_spec c 128); [done|lia]. Qed.

Lemma unquote_items rs : Forall canonical rs -> Forall rune_wf rs -> forallb rune_valid rs = true ->
  forall raw rs0, rev raw = encode rs0 -> Forall rune_wf rs0 -> forallb rune_valid rs0 = true ->
  unquote_from raw (rs ≫= rune_items) = encode rs0 ++ encode rs.
Proof.
  intros Hc Hw Hv. induction rs as [|r rs IH]; intros raw rs0 Hraw Hw0 Hv0.
  { csimpl. rewrite Hraw, repair_valid by done. by rewrite app_nil_r. }
  apply Forall_cons in Hc as [Hc Hcs]. apply Forall_cons in Hw as [Hwr Hws]. simpl in Hv. bool_hyps. rename H into Hvr, H0 into Hvs.
  assert (IH' : forall raw rs0, rev raw = encode rs0 -> Forall rune_wf rs0 -> forallb rune_valid rs0 = true ->
    unquote_from raw (rs ≫= rune_items) = encode rs0 ++ encode rs) by (intros; by apply IH).
  assert (Hnil : unquote_from [] (rs ≫= rune_items) = encode rs) by by apply (IH' [] []).
  assert (Hraws : unquote_from raw ((Raw <$> rune_enc r) ++ rs ≫= rune_items) = encode rs0 ++ encode (r :: rs)).
  { rewrite unquote_raw. rewrite (IH' _ (rs0 ++ [r])).
    - unfold encode. rewrite bind_app. csimpl. rewrite app_nil_r. by rewrite <- app_assoc.
    - rewrite rev_app_distr, rev_involutive, Hraw. unfold encode. rewrite bind_app. csimpl. by rewrite app_nil_r.
    - apply Forall_app; split; [done|by apply Forall_singleton].
    - rewrite forallb_app, Hv0. simpl. by rewrite Hvr. }
  destruct r as [c enc|b]; [|done]. csimpl. unfold rune_items at 1.
  assert (Huni : forall u, enc = encode_rune u -> 0 <= u < 65536 -> is_high u = false -> is_low u = false ->
    unquote_from raw ([uni u] ++ rs ≫= rune_items) = encode rs0 ++ encode (Rune c enc :: rs)).
  { intros u -> Hu Hh Hl. cbn [app]. rewrite unquote_uni by done. rewrite Hraw, repair_valid, Hnil by done. done. }
  destruct (Z.ltb_spec c 128).
  - pose proof (canonical_ascii c enc Hc H) as ->.
    assert (Hesc : forall k, escaped k = c -> unquote_from raw ([Esc k] ++ rs ≫= rune_items) = encode rs0 ++ encode (Rune c [c] :: rs)).
    { intros k Hk. cbn [app unquote_from]. rewrite Hraw, repair_valid, Hnil, Hk by done. done. }
    destruct ((c =? quote) || (c =? backslash)) eqn:Hq.
    { apply Hesc. by apply orb_true_iff in Hq as [->%Z.eqb_eq | ->%Z.eqb_eq]. }
    do 5 (case_match; [apply Hesc; by bool_hyps; subst|]). destruct Hc as [_ Hc].
    destruct ((c <? 32) || _ || _ || _) eqn:Hu; [|exact Hraws]. apply Huni.
    + unfold encode_rune. destruct (Z.ltb_spec c 128); [done|lia].
    + lia.
    + unfold is_high. destruct (Z.leb_spec 55296 c); [lia|done].
    + unfold is_low. destruct (Z.leb_spec 56320 c); [lia|done].
  - destruct Hc as [Henc Hc]. destruct (_ || _) eqn:Hu; [|exact Hraws].
    apply Huni; [done|..]; by apply orb_true_iff in Hu as [->%Z.eqb_eq | ->%Z.eqb_eq].
Qed.

(** A valid UTF-8 string is decoded from its encoding. *)
Lemma unquote_string s : ValidString s = true -> unquote (string_items s) = bytes s.
Proof.
  intros Hs. unfold unquote, string_items.
  rewrite (unquote_items _ (canonical_decode _ (bytes_range s)) (decode_wf _) Hs [] []) by done. by rewrite encode_decode.
Qed.

(** *** Numbers *)

Definition digits_literal (ds : list Z) : Prop := ds = [48] \/ exists d tl, ds = d :: tl /\ d <> 48 /\ all_digits ds.

Lemma digits_literal_valid minus ds : minus = [] \/ minus = [ch "-"] -> digits_literal ds -> literal_valid (minus ++ ds).
Proof.
  intros Hm Hd rest Hrest. unfold scan_number.
  assert (Hstop : match rest with b :: _ => is_digit b = false /\ (b =? ch ".") = false /\ ((b =? ch "e") || (b =? ch "E")) = false | [] => True end).
  { destruct rest as [|b rest]; [done|]. simpl in Hrest. unfold number_byte in Hrest. bool_hyps. split_and!; [done| |].
    - apply Z.eqb_neq. done.
    - apply orb_false_iff. split; by apply Z.eqb_neq. }
  assert (Hint : scan_int (ds ++ rest) = Some (ds, rest) /\ scan_minus (ds ++ rest) = ([], ds ++ rest)).
  { destruct Hd as [->|(d & tl & -> & Hd & Hall)]; [done|]. apply Forall_cons in Hall as Hall'. destruct Hall' as [Hdig _].
    split.
    - unfold scan_int. cbn [app]. rewrite (proj2 (Z.eqb_neq _ _) Hd), Hdig. f_equal.
      change (d :: tl ++ rest) with ((d :: tl) ++ rest). apply span_app; [done|]. by destruct rest as [|b rest]; [|destruct Hstop].
    - unfold scan_minus. cbn [app]. destruct (Z.eqb_spec d (ch "-")) as [->|]; [done|done]. }
  assert (Hsm : scan_minus ((minus ++ ds) ++ rest) = (minus, ds ++ rest)).
  { destruct Hm as [-> | ->]; [apply Hint|]. done. }
  rewrite Hsm, (proj1 Hint). cbn [mbind option_bind].
  assert (scan_frac rest = Some ([], rest)) as ->.
  { destruct rest as [|b rest]; [done|]. simpl. by destruct Hstop as (_ & -> & _). }
  cbn [mbind option_bind]. assert (scan_exp rest = Some ([], rest)) as ->.
  { destruct rest as [|b rest]; [done|]. simpl. by destruct Hstop as (_ & _ & ->). }
  cbn [mbind option_bind]. by rewrite !app_nil_r.
Qed.
End json_encode.
