(* ===== verification/Message.v ===== *)
(** * Message

    The pure half of package [message]: the envelope and queue types (types.go),
    the derived message status, the content equality of retries (equality.go),
    and the attempt checks and text caps of pgstore.go. *)

From S2P Require Import Prelude GoText Utf8.
Open Scope Z_scope.

Module message.
(** ** Delivery states, message statuses, dead reasons, attempt outcomes *)

Definition StatePending : string := "pending".
Definition StateDelivered : string := "delivered".
Definition StateDead : string := "dead".
Definition StateScheduled : string := "scheduled".
Definition StateCancelled : string := "cancelled".

Definition StatusPending : string := "pending".
Definition StatusDelivered : string := "delivered".
Definition StatusDead : string := "dead".
Definition StatusPartial : string := "partial".
Definition StatusScheduled : string := "scheduled".
Definition StatusCancelled : string := "cancelled".
Definition StatusUnrouted : string := "unrouted".
Definition StatusReleaseFailed : string := "release_failed".
Definition StatusNotFound : string := "not_found".

Definition DeadReasonTerminalStatus : string := "terminal_status".
Definition DeadReasonGone : string := "gone".
Definition DeadReasonBudgetExhausted : string := "budget_exhausted".
Definition DeadReasonDestinationDisabled : string := "destination_disabled".
Definition DeadReasonDestinationDeleted : string := "destination_deleted".
Definition DeadReasonBlockedAddress : string := "blocked_address".
Definition DeadReasonUnsupportedType : string := "unsupported_type".
Definition DeadReasonNoPublisher : string := "no_publisher".

Definition OutcomeSuccess : string := "success".
Definition OutcomeRetryable : string := "retryable".
Definition OutcomeTerminal : string := "terminal".
Definition OutcomeGone : string := "gone".
Definition OutcomeBlocked : string := "blocked".

Definition MaxPayloadBytes : Z := 128 * 1024.

Definition ErrMessageNotFound : error := Sentinel "message not found".
Definition ErrDeliveryNotFound : error := Sentinel "delivery not found".
Definition ErrDeliveryNotDead : error := Sentinel "delivery not dead".
Definition ErrNoDestinationMatched : error := Sentinel "no destination matched".
Definition ErrUnsupportedDestinationType : error := Sentinel "destination type not yet supported".
Definition ErrTooManyScheduled : error := Sentinel "too many scheduled messages".
Definition ErrScheduledCapacityReached : error := Sentinel "scheduled message capacity reached".
Definition ErrTooManyHeld : error := Sentinel "too many held messages".
Definition ErrHeldCapacityReached : error := Sentinel "held message capacity reached".

(** ** Data *)

Record Display := { Title : string; Body : string; Display_URL : string; Priority : string }.
#[global] Instance Display_eq_dec : EqDecision Display.
Proof. solve_decision. Defined.

(** Go's zero [Display]. *)
Definition zero_display : Display :=
  {| Title := EmptyString; Body := EmptyString; Display_URL := EmptyString; Priority := EmptyString |}.

Definition blank (s : string) : bool := bool_decide (TrimSpace (bytes s) = []).

Definition HasRenderableText (display : option Display) : bool :=
  match display with
  | None => false
  | Some d => negb (blank (Title d)) || negb (blank (Body d))
  end.

Record Envelope := {
  AppID : string;
  Channel : string;
  IdempotencyKey : string;
  ToDestination : string;
  ToRecipient : string;
  DeliverAt : option Z;
  Critical : bool;
  Payload : string;
  Display_ : option Display;
  Hold : bool
}.

Record DeliveryTarget := {
  Target_DestinationID : option Z;
  Target_DestinationName : string;
  Target_DestinationType : string
}.

Record Delivery := {
  ID : Z;
  MessageID : string;
  DestinationID : option Z;
  DestinationName : string;
  DestinationType : string;
  State : string;
  DeadReason : option string;
  AttemptCount : Z;
  BudgetAttempts : Z;
  BudgetStartedAt : Z;
  NextAttemptAt : Z;
  LastStatusCode : option Z;
  DeliveredAt : option Z;
  CreatedAt : Z;
  UpdatedAt : Z
}.

Record AdminDelivery := { Admin_Delivery : Delivery; Admin_AppID : string; Admin_Channel : string }.

Record StoredMessage := {
  Message_ID : string;
  Message_Envelope : Envelope;
  Message_CreatedAt : Z;
  CancelledAt : option Z;
  HeldAt : option Z;
  ReleasedAt : option Z;
  HeldCancelledAt : option Z;
  ReleaseFailedAt : option Z;
  ReleaseFailedReason : string;
  Deliveries : list Delivery
}.

Record MessageState := {
  State_HeldAt : option Z;
  State_CancelledAt : option Z;
  State_ReleaseFailedAt : option Z
}.

(** [stored.State()] *)
Definition StoredMessage_State (stored : StoredMessage) : MessageState :=
  {| State_HeldAt := HeldAt stored; State_CancelledAt := CancelledAt stored;
     State_ReleaseFailedAt := ReleaseFailedAt stored |}.

Record ScheduledDestination := { Scheduled_Name : string; Scheduled_Type : string }.

Record ScheduledMessage := {
  Scheduled_MessageID : string;
  Scheduled_AppID : string;
  Scheduled_Channel : string;
  Scheduled_IdempotencyKey : string;
  Scheduled_DeliverAt : Z;
  Scheduled_CreatedAt : Z;
  Recipient : bool;
  Destinations : list ScheduledDestination
}.

Record SubmitOutcome := { Duplicate : bool; Replaced : bool; Scheduled : bool; Held : bool }.

Record CancelOutcome := {
  Cancel_MessageID : string;
  Status : string;
  Cancelled : bool;
  Transitioned : bool;
  Found : bool
}.

(** The zero [CancelOutcome]: nothing matched. *)
Definition no_cancel : CancelOutcome :=
  {| Cancel_MessageID := EmptyString; Status := EmptyString; Cancelled := false;
     Transitioned := false; Found := false |}.

Record Claim := { Claim_Delivery : Delivery; Claim_Message : StoredMessage }.

Record AttemptRecord := {
  DeliveryID : Z;
  Outcome : string;
  StatusCode : option Z;
  LatencyMS : Z;
  Attempt_Error : option string;
  ResponseSnippet : option string;
  StartedAt : Z
}.

Record AttemptResult := {
  Result_Record : AttemptRecord;
  NextState : string;
  Result_DeadReason : option string;
  Result_NextAttemptAt : Z
}.

Record Attempt := { Attempt_ID : Z; AttemptNumber : Z; Attempt_Record : AttemptRecord }.

Record ScheduledCaps := { PerApp : Z; Total : Z }.
Record HeldCaps := { Held_PerApp : Z; Held_Total : Z }.

(** ** The derived status *)

Record Tally := { delivered : Z; dead : Z; scheduled : Z; cancelled : Z }.

(** The counting loop; [None] is the early [return StatusPending] of its default
    branch. *)
Fixpoint tally (deliveries : list Delivery) (acc : Tally) : option Tally :=
  match deliveries with
  | [] => Some acc
  | d :: rest =>
    if String.eqb (State d) StateDelivered then tally rest (acc {{ delivered := delivered acc + 1 }})
    else if String.eqb (State d) StateDead then tally rest (acc {{ dead := dead acc + 1 }})
    else if String.eqb (State d) StateScheduled then tally rest (acc {{ scheduled := scheduled acc + 1 }})
    else if String.eqb (State d) StateCancelled then tally rest (acc {{ cancelled := cancelled acc + 1 }})
    else None
  end.

Definition DeriveStatus (deliveries : list Delivery) (state : MessageState) : string :=
  if bool_decide (is_Some (State_CancelledAt state)) then StatusCancelled
  else if bool_decide (is_Some (State_HeldAt state)) then StatusUnrouted
  else if bool_decide (is_Some (State_ReleaseFailedAt state)) then StatusReleaseFailed
  else
    let n := Z.of_nat (length deliveries) in
    if n =? 0 then StatusPending
    else match tally deliveries {| delivered := 0; dead := 0; scheduled := 0; cancelled := 0 |} with
    | None => StatusPending
    | Some t =>
      if scheduled t =? n then StatusScheduled
      else if cancelled t =? n then StatusCancelled
      else if (0 <? scheduled t) || (0 <? cancelled t) then StatusPending
      else if dead t =? 0 then StatusDelivered
      else if delivered t =? 0 then StatusDead
      else StatusPartial
    end.

(** ** Content equality of a retried submit *)

Definition sameDeliverAt (stored submitted : option Z) : bool :=
  match stored, submitted with
  | Some s, Some t => time.Equal (time.Truncate s Microsecond) (time.Truncate t Microsecond)
  | None, None => true
  | _, _ => false
  end.

Definition sameDisplay (stored submitted : option Display) : bool :=
  bool_decide (default zero_display stored = default zero_display submitted).

(** ** Attempt results *)

Definition validateAttemptResult (result : AttemptResult) : option error :=
  if negb (Bool.eqb (String.eqb (Outcome (Result_Record result)) OutcomeSuccess)
                    (String.eqb (NextState result) StateDelivered)) then
    Some (errors_New "record attempt: outcome success must pair with state delivered, and no other outcome may")
  else if String.eqb (NextState result) StatePending then
    if time.IsZero (Result_NextAttemptAt result) then
      Some (errors_New "record attempt: pending result needs next_attempt_at")
    else if bool_decide (is_Some (Result_DeadReason result)) then
      Some (errors_New "record attempt: dead_reason set on a non-dead result")
    else None
  else if String.eqb (NextState result) StateDelivered then
    if bool_decide (is_Some (Result_DeadReason result)) then
      Some (errors_New "record attempt: dead_reason set on a non-dead result")
    else None
  else if String.eqb (NextState result) StateDead then
    match Result_DeadReason result with
    | None => Some (errors_New "record attempt: dead result needs dead_reason")
    | Some reason =>
      if String.eqb reason EmptyString then Some (errors_New "record attempt: dead result needs dead_reason")
      else None
    end
  else Some (errors_New "record attempt: unknown next state").

Definition isDeliveryState (state : string) : bool :=
  String.eqb state StatePending || String.eqb state StateDelivered || String.eqb state StateDead.

(** ** Storing untrusted remote text *)

Definition maxAttemptErrorRunes : Z := 500.
Definition maxResponseSnippetBytes : Z := 1024.

(** [for index := range text]: the index the [limit]-th iteration sees. *)
Fixpoint rune_index (limit count index : Z) (rs : list rune) : option Z :=
  match rs with
  | [] => None
  | r :: rs =>
    if count =? limit then Some index
    else rune_index limit (count + 1) (index + Z.of_nat (length (rune_enc r))) rs
  end.

Definition truncateRunes (text : list Z) (limit : Z) : list Z :=
  if limit <=? 0 then []
  else match rune_index limit 0 0 (decode text) with
  | Some index => take (Z.to_nat index) text
  | None => text
  end.

Definition truncateBytes (text : list Z) (limit : Z) : list Z :=
  if limit <=? 0 then []
  else if Z.of_nat (length text) <=? limit then text
  else take (rune_cut text (Z.to_nat limit)) text.

Definition cleanOptionalText (text : option string) (limit : Z)
    (truncate : list Z -> Z -> list Z) : option string :=
  match text with
  | None => None
  | Some text =>
    let cleaned := ToValidUTF8 (bytes text) in
    let cleaned := filter (fun b => b <> 0) cleaned in
    Some (of_bytes (truncate cleaned limit))
  end.
End message.

(** ** Remote text

    Text of any bytes is stored: what [cleanOptionalText] keeps of it is valid UTF-8
    without a NUL, within the length constraints of the attempt log. *)

Module message_text.
Import message.

(** A rune Postgres stores as it is. *)
Definition storable (r : rune) : Prop :=
  rune_wf r /\ rune_valid r = true /\ Forall (fun b => 0 <= b < 256) (rune_enc r) /\ 0 ∉ rune_enc r.

Lemma encode_cons r rs : encode (r :: rs) = rune_enc r ++ encode rs.
Proof. done. Qed.

Lemma encode_app rs rs' : encode (rs ++ rs') = encode rs ++ encode rs'.
Proof. apply bind_app. Qed.

Lemma Forall_encode_iff (P : Z -> Prop) rs : Forall P (encode rs) <-> Forall (fun r => Forall P (rune_enc r)) rs.
Proof. induction rs as [|r rs IH]; [done|]. by rewrite encode_cons, Forall_app, Forall_cons, IH. Qed.

(** A zero byte is a rune of its own. *)
Lemma rune_zero r : rune_wf r -> rune_valid r = true -> rune_enc r = [0] \/ 0 ∉ rune_enc r.
Proof.
  intros [Hne Hwf] Hv. destruct (Hwf Hv) as [Htail Hdec]. destruct (rune_enc r) as [|b t] eqn:E; [done|].
  destruct (decide (b = 0)) as [->|Hb].
  - left. specialize (Hdec []). cbn [app decode] in Hdec. rewrite app_nil_r in Hdec. injection Hdec as <- _.
    by injection E as <-.
  - right. rewrite not_elem_of_cons. split; [done|]. intros Hin. simpl in Htail. rewrite Forall_forall in Htail.
    by specialize (Htail _ Hin).
Qed.

Lemma drop_zeros rs :
  Forall (fun r => rune_wf r /\ rune_valid r = true /\ Forall (fun b => 0 <= b < 256) (rune_enc r)) rs ->
  exists rs', filter (fun b => b <> 0) (encode rs) = encode rs' /\ Forall storable rs'.
Proof.
  induction 1 as [|r rs (Hwf & Hv & Hb) _ (rs' & He & Hs)]; [by exists []|].
  rewrite encode_cons, filter_app, He. destruct (rune_zero r Hwf Hv) as [Hz|Hz].
  - rewrite Hz. by exists rs'.
  - exists (r :: rs'). split; [|by constructor]. rewrite encode_cons. f_equal. apply filter_id.
    apply Forall_forall. intros b Hin ->. done.
Qed.

Lemma to_valid_bytes in_run rs : Forall (fun r => Forall (fun b => 0 <= b < 256) (rune_enc r)) rs ->
  Forall (fun r => Forall (fun b => 0 <= b < 256) (rune_enc r)) (to_valid in_run rs).
Proof.
  intros H. revert in_run. induction H as [|[c enc|b] rs Hr _ IH]; intros in_run; simpl; [done| |].
  - by constructor.
  - destruct in_run; [done|]. constructor; [|done]. simpl. by repeat constructor.
Qed.

(** The cut after [limit] runes. *)
Lemma rune_index_spec limit count index rs : 0 <= count <= limit ->
  rune_index limit count index rs =
    if limit - count <? Z.of_nat (length rs) then
      Some (index + Z.of_nat (length (encode (take (Z.to_nat (limit - count)) rs))))
    else None.
Proof.
  revert count index. induction rs as [|r rs IH]; intros count index Hc; cbn [rune_index].
  { destruct (Z.ltb_spec (limit - count) (Z.of_nat (length (@nil rune)))); [simpl in *; lia|done]. }
  destruct (Z.eqb_spec count limit) as [->|Hne].
  - rewrite Z.sub_diag. simpl. f_equal. lia.
  - rewrite IH by lia. replace (Z.to_nat (limit - count)) with (S (Z.to_nat (limit - (count + 1)))) by lia.
    cbn [take length]. rewrite encode_cons, length_app.
    destruct (Z.ltb_spec (limit - (count + 1)) (Z.of_nat (length rs))), (Z.ltb_spec (limit - count) (Z.of_nat (S (length rs)))); try lia;
      [f_equal; lia|done].
Qed.

Lemma storable_decode rs : Forall storable rs -> decode (encode rs) = rs.
Proof.
  intros H. apply decode_encode; [eapply Forall_impl; [exact H|]; by intros r [? _]|].
  apply forallb_Forall. eapply Forall_impl; [exact H|]. by intros r (_ & ? & _).
Qed.

Lemma truncateRunes_spec limit rs : 0 < limit -> Forall storable rs ->
  truncateRunes (encode rs) limit = encode (take (Z.to_nat limit) rs).
Proof.
  intros Hl H. unfold truncateRunes. destruct (Z.leb_spec limit 0); [lia|].
  rewrite storable_decode by done. rewrite rune_index_spec by lia. rewrite Z.sub_0_r.
  destruct (Z.ltb_spec limit (Z.of_nat (length rs))).
  - rewrite Z.add_0_l, Nat2Z.id. rewrite <- (take_drop (Z.to_nat limit) rs) at 2. rewrite encode_app.
    by rewrite take_app_length.
  - by rewrite take_ge by lia.
Qed.

Lemma truncateBytes_spec limit rs : 0 < limit -> Forall storable rs ->
  exists rs', truncateBytes (encode rs) limit = encode rs' /\ Forall storable rs' /\
    Z.of_nat (length (encode rs')) <= limit.
Proof.
  intros Hl H. unfold truncateBytes. destruct (Z.leb_spec limit 0); [lia|].
  destruct (Z.leb_spec (Z.of_nat (length (encode rs))) limit); [by exists rs|].
  pose proof (take_boundary_decode (encode rs) (rune_cut (encode rs) (Z.to_nat limit))) as Hpre.
  rewrite storable_decode in Hpre by done.
  destruct Hpre as [k Hk].
  - apply forallb_Forall. eapply Forall_impl; [exact H|]. by intros r (_ & ? & _).
  - apply rune_cut_boundary.
  - eexists. split; [symmetry; apply encode_decode|]. split.
    + rewrite Hk in H. by apply Forall_app in H as [? _].
    + rewrite encode_decode, length_take. pose proof (rune_cut_le (encode rs) (Z.to_nat limit)). lia.
Qed.

Lemma storable_text rs : Forall storable rs ->
  text_ok (of_bytes (encode rs)) = true /\ RuneCountInString (of_bytes (encode rs)) = Z.of_nat (length rs) /\
  len (of_bytes (encode rs)) = Z.of_nat (length (encode rs)).
Proof.
  intros H.
  assert (Hb : bytes (of_bytes (encode rs)) = encode rs).
  { apply bytes_of_bytes, Forall_encode_iff. eapply Forall_impl; [exact H|]. by intros r (_ & _ & ? & _). }
  split_and!; [|unfold RuneCountInString; by rewrite Hb, storable_decode|apply len_of_bytes].
  unfold text_ok, ValidString. rewrite Hb, storable_decode by done. apply andb_true_iff. split.
  - apply forallb_Forall. eapply Forall_impl; [exact H|]. by intros r (_ & ? & _).
  - apply negb_true_iff, not_true_iff_false. intros (b & Hin & Hz)%existsb_exists.
    apply Z.eqb_eq in Hz. subst b. apply list_elem_of_In in Hin.
    assert (Hall : Forall (fun b => b <> 0) (encode rs)).
    { apply Forall_encode_iff. eapply Forall_impl; [exact H|]. intros r (_ & _ & _ & Hno).
      apply Forall_forall. intros b Hb' ->. done. }
    rewrite Forall_forall in Hall. by apply (Hall 0).
Qed.

(** What cleaning makes of any text: valid runes without NUL. *)
Lemma cleaned_runes text : exists rs, Forall storable rs /\
  filter (fun b => b <> 0) (ToValidUTF8 (bytes text)) = encode rs.
Proof.
  assert (Hraw : Forall (fun r => Forall (fun b => 0 <= b < 256) (rune_enc r)) (decode (bytes text))).
  { apply Forall_encode_iff. rewrite encode_decode. apply bytes_range. }
  destruct (to_valid_spec false (decode (bytes text)) (decode_wf _)) as [Hwf Hv].
  destruct (drop_zeros (to_valid false (decode (bytes text)))) as (rs & He & Hs).
  { pose proof (to_valid_bytes false _ Hraw) as Hb. apply forallb_Forall in Hv.
    rewrite Forall_forall in *. naive_solver. }
  exists rs. split; [done|]. unfold ToValidUTF8. by rewrite He.
Qed.

Lemma cleaned_error text : exists s, cleanOptionalText (Some text) maxAttemptErrorRunes truncateRunes = Some s /\
  text_ok s = true /\ RuneCountInString s <= 500.
Proof.
  destruct (cleaned_runes text) as (rs & Hs & He). unfold cleanOptionalText. rewrite He.
  eexists. split; [reflexivity|]. rewrite truncateRunes_spec by done.
  destruct (storable_text (take (Z.to_nat maxAttemptErrorRunes) rs)) as (? & -> & _); [by apply Forall_take|].
  split; [done|]. rewrite length_take. unfold maxAttemptErrorRunes. lia.
Qed.

Lemma cleaned_snippet text : exists s, cleanOptionalText (Some text) maxResponseSnippetBytes truncateBytes = Some s /\
  text_ok s = true /\ len s <= 1024.
Proof.
  destruct (cleaned_runes text) as (rs & Hs & He). unfold cleanOptionalText. rewrite He.
  eexists. split; [reflexivity|].
  destruct (truncateBytes_spec maxResponseSnippetBytes rs) as (rs' & -> & Hs' & Hlen); [done..|].
  destruct (storable_text rs' Hs') as (? & _ & ->). done.
Qed.

(** Whatever bytes a remote end answers with, what the attempt log stores of an
    error is valid UTF-8 without NUL of at most 500 characters, and of a response
    snippet of at most 1024 bytes: the column constraints never refuse it. *)
Theorem remote_text_storable text :
  (exists s, cleanOptionalText (Some text) maxAttemptErrorRunes truncateRunes = Some s /\
     text_ok s = true /\ RuneCountInString s <= 500) /\
  (exists s, cleanOptionalText (Some text) maxResponseSnippetBytes truncateBytes = Some s /\
     text_ok s = true /\ len s <= 1024).
Proof. split; [apply cleaned_error|apply cleaned_snippet]. Qed.
End message_text.
