(* ===== verification/MessageValidate.v ===== *)
(** * MessageValidate

    Validation of a submitted envelope (validate.go, email.go) and the comparison of
    payloads as JSON values (equality.go).  The scans of the raw payload, index loops
    in the code, are over the rest of the document from the index on; their fuel is
    its length. *)

From S2P Require Import Prelude GoText Utf8 Std Idents Registry Json Message.
Open Scope Z_scope.

Module validate.
Import message.

Section envelope.
Context `{Std}.

Definition maxEmailLength : Z := 254.

(** [strings.IndexFunc(s, unicode.IsSpace) != -1] *)
Definition has_space (s : string) : bool := existsb (fun r => IsSpace (rune_code r)) (decode (bytes s)).

Definition at_sign : Z := 64.

Definition isValidEmail (email : string) : bool :=
  let normalized := strings_ToLower (of_bytes (TrimSpace (bytes email))) in
  if String.eqb normalized EmptyString || (maxEmailLength <? len normalized) then false
  else if has_space normalized then false
  else if negb (Z.of_nat (length (filter (fun b => b = at_sign) (bytes normalized))) =? 1) then false
  else
    let (localPart, after) := json.span (fun b => negb (b =? at_sign)) (bytes normalized) in
    let domainPart := tail after in
    negb (bool_decide (localPart = [])) && negb (bool_decide (domainPart = [])).

Definition channelPattern (s : string) : bool := match_slug 31 s.
Definition is_key_char : ascii -> bool := in_range "!"%char "~"%char.
Definition idempotencyKeyPattern (s : string) : bool := match_repeat is_key_char 1 200 s.

Definition maxDisplayTitleBytes : Z := 250.
Definition maxDisplayBodyBytes : Z := 4096.
Definition maxDisplayURLBytes : Z := 2048.
Definition httpsScheme : string := "https".

Definition ValidateAppID (appID : string) : option error :=
  match appid.ValidateAppID appID with
  | Some validateErr => Some (ValidationError (Error validateErr))
  | None => None
  end.

Definition ValidateChannel (channel : string) : option error :=
  if negb (channelPattern channel) then Some (ValidationError "invalid channel") else None.

Definition ValidateIdempotencyKey (idempotencyKey : string) : option error :=
  if negb (idempotencyKeyPattern idempotencyKey) then Some (ValidationError "invalid idempotency_key") else None.

Definition empty (s : string) : bool := String.eqb s EmptyString.

Definition ValidateTo (toDestination toRecipient : string) : option error :=
  if negb (empty toDestination) && negb (empty toRecipient) then
    Some (ValidationError "to.destination and to.recipient cannot both be set")
  else if negb (empty toRecipient) then
    if negb (personhash.IsHash toRecipient) && negb (isValidEmail toRecipient) then
      Some (ValidationError "to.recipient must be an email or person_hash")
    else None
  else if negb (empty toDestination) && bool_decide (is_Some (registry.ValidateDestinationName toDestination)) then
    Some (ValidationError "invalid to.destination")
  else None.

(** Days of the proleptic Gregorian calendar before year [y], counted from year 1. *)
Definition days_before_year (y : Z) : Z := 365 * (y - 1) + (y - 1) / 4 - (y - 1) / 100 + (y - 1) / 400.

(** [time.Date(9999, time.December, 31, 23, 59, 59, 0, time.UTC)] *)
Definition maxDeliverAt : Z := days_before_year 10000 * (24 * Hour) - Second.

(** An instant before Go's zero time is in a year before 1. *)
Definition before_year_1 (t : Z) : bool := t <? 0.

Definition ValidateDeliverAt (deliverAt : option Z) : option error :=
  match deliverAt with
  | None => None
  | Some t =>
    if time.IsZero t || before_year_1 t || time.After t maxDeliverAt
    then Some (ValidationError "invalid deliver_at") else None
  end.

(** ** The payload *)

Definition numericMaxIntegerDigits : Z := 131072.
Definition numericMaxScale : Z := 16383.
Definition maxExponentDigits : Z := 7.

Definition isNumberLiteralByte (char : Z) : bool :=
  json.is_digit char || (char =? json.ch "-") || (char =? json.ch "+") || (char =? json.ch ".") ||
  (char =? json.ch "e") || (char =? json.ch "E").

(** What follows the closing quote of the string whose opening quote precedes
    [document]. *)
Fixpoint endOfJSONString (document : list Z) : list Z :=
  match document with
  | [] => []
  | b :: document =>
    if b =? json.backslash then match document with _ :: document => endOfJSONString document | [] => [] end
    else if b =? json.quote then document
    else endOfJSONString document
  end.

(** [strings.ToLower] of bytes that are all ASCII, as those of a literal are *)
Definition lower (bs : list Z) : list Z := lower_byte <$> bs.

(** [strings.Cut] at a byte: before, after, and whether it occurs *)
Definition Cut (sep : Z) (bs : list Z) : list Z * list Z * bool :=
  match json.span (fun b => negb (b =? sep)) bs with
  | (before, _ :: after) => (before, after, true)
  | (before, []) => (before, [], false)
  end.

(** The value of a string of digits. *)
Definition digits_val (ds : list Z) : Z := fold_left (fun acc d => acc * 10 + (d - 48)) ds 0.

(** [strconv.Atoi] of at most seven bytes: an optional sign and one digit or more *)
Definition Atoi (s : list Z) : option Z :=
  let (sign, ds) := json.scan_sign s in
  if bool_decide (ds = []) || negb (forallb json.is_digit ds) then None
  else Some (if bool_decide (sign = [json.ch "-"]) then - digits_val ds else digits_val ds).

Definition is_sign (b : Z) : bool := (b =? json.ch "+") || (b =? json.ch "-").
Definition starts_minus (bs : list Z) : bool := match bs with b :: _ => b =? json.ch "-" | [] => false end.
Definition trim_minus (bs : list Z) : list Z := if starts_minus bs then tail bs else bs.

(** The exponent of a literal, [None] where the code refuses it. *)
Definition literal_exponent (exponentText : list Z) (hasExponent : bool) : option Z :=
  if hasExponent then
    let negative := starts_minus exponentText in
    let digits := drop_while (Z.eqb 48) (drop_while is_sign exponentText) in
    if maxExponentDigits <? Z.of_nat (length digits) then None
    else
      exponent ← if bool_decide (digits = []) then Some 0 else Atoi digits;
      Some (if negative then - exponent else exponent)
  else Some 0.

Definition numberLiteralStorable (literal : list Z) : bool :=
  let '(mantissa, exponentText, hasExponent) := Cut (json.ch "e") (lower literal) in
  match literal_exponent exponentText hasExponent with
  | None => false
  | Some exponent =>
    let '(integerPart, fractionPart, _) := Cut (json.ch ".") (trim_minus mantissa) in
    let integerDigits := Z.of_nat (length (drop_while (Z.eqb 48) integerPart)) in
    let scale := Z.of_nat (length fractionPart) in
    let integerDigits := if 0 <? exponent then integerDigits + exponent else integerDigits in
    let scale := scale - exponent in
    (integerDigits <=? numericMaxIntegerDigits) && (scale <=? numericMaxScale)
  end.

Fixpoint number_literals (fuel : nat) (document : list Z) : bool :=
  match fuel, document with
  | _, [] => true
  | O, _ => false
  | S fuel, char :: rest =>
    if char =? json.quote then number_literals fuel (endOfJSONString rest)
    else if (char =? json.ch "-") || json.is_digit char then
      let (literal, rest) := json.span isNumberLiteralByte document in
      numberLiteralStorable literal && number_literals fuel rest
    else number_literals fuel rest
  end.

Definition numberLiteralsStorable (document : list Z) : bool := number_literals (length document) document.

Definition highSurrogateStart : Z := 55296.
Definition highSurrogateEnd : Z := 56319.
Definition lowSurrogateStart : Z := 56320.
Definition lowSurrogateEnd : Z := 57343.

(** The code unit of the escape [document] begins with, and what follows it. *)
Definition parseUnicodeEscape (document : list Z) : option (Z * list Z) :=
  match document with
  | b :: u :: h1 :: h2 :: h3 :: h4 :: rest =>
    if (b =? json.backslash) && (u =? json.ch "u") &&
       json.is_hex h1 && json.is_hex h2 && json.is_hex h3 && json.is_hex h4
    then Some (json.code_unit h1 h2 h3 h4, rest) else None
  | _ => None
  end.

Fixpoint unicode_escapes (fuel : nat) (document : list Z) : bool :=
  match fuel, document with
  | _, [] => true
  | O, _ => false
  | S fuel, b :: rest =>
    if negb (b =? json.backslash) then unicode_escapes fuel rest
    else match rest with
    | c :: rest =>
      if negb (c =? json.ch "u") then unicode_escapes fuel rest
      else match parseUnicodeEscape document with
      | None => false
      | Some (codeUnit, rest) =>
        if codeUnit =? 0 then false
        else if (highSurrogateStart <=? codeUnit) && (codeUnit <=? highSurrogateEnd) then
          match parseUnicodeEscape rest with
          | None => false
          | Some (lowUnit, rest) =>
            if (lowUnit <? lowSurrogateStart) || (lowSurrogateEnd <? lowUnit) then false
            else unicode_escapes fuel rest
          end
        else if (lowSurrogateStart <=? codeUnit) && (codeUnit <=? lowSurrogateEnd) then false
        else unicode_escapes fuel rest
      end
    | [] => false
    end
  end.

Definition unicodeEscapesStorable (document : list Z) : bool := unicode_escapes (length document) document.

(** [utf8.Valid] *)
Definition utf8_Valid (bs : list Z) : bool := forallb rune_valid (decode bs).

Definition starts_object (bs : list Z) : bool := match bs with b :: _ => b =? json.ch "{" | [] => false end.

Definition ValidatePayload (payload : list Z) : option error :=
  if MaxPayloadBytes <? Z.of_nat (length payload) then Some (ValidationError "payload too large")
  else
    let trimmed := TrimSpace payload in
    if negb (starts_object trimmed) || negb (json.Valid trimmed) then Some (ValidationError "invalid payload")
    else if negb (utf8_Valid trimmed) || negb (unicodeEscapesStorable trimmed) ||
            negb (numberLiteralsStorable trimmed)
    then Some (ValidationError "invalid payload")
    else None.

(** ** The display *)

Definition displayPriorities : list string := ["min"; "low"; "default"; "high"; "urgent"].

Definition validDisplayText (text : string) (allowLineBreaks : bool) : bool :=
  ValidString text &&
  forallb (fun r =>
    let char := rune_code r in
    negb (IsControl char) || (allowLineBreaks && ((char =? 9) || (char =? 10) || (char =? 13))))
    (decode (bytes text)).

Definition validDisplayURL (rawURL : string) : bool :=
  if maxDisplayURLBytes <? len rawURL then false
  else match url_Parse rawURL with
  | None => false
  | Some parsed => String.eqb (Scheme parsed) httpsScheme && negb (empty (Hostname parsed)) && negb (User parsed)
  end.

Definition ValidateDisplay (display : option Display) : option error :=
  match display with
  | None => None
  | Some d =>
    if (maxDisplayTitleBytes <? len (Title d)) || negb (validDisplayText (Title d) false) then
      Some (ValidationError "invalid display.title")
    else if (maxDisplayBodyBytes <? len (Body d)) || negb (validDisplayText (Body d) true) then
      Some (ValidationError "invalid display.body")
    else if negb (empty (Display_URL d)) && negb (validDisplayURL (Display_URL d)) then
      Some (ValidationError "invalid display.url")
    else if negb (empty (Priority d)) && negb (existsb (String.eqb (Priority d)) displayPriorities) then
      Some (ValidationError "invalid display.priority")
    else None
  end.

Definition ValidateEnvelope (envelope : Envelope) : option error :=
  first_error [
    ValidateAppID (AppID envelope);
    ValidateChannel (Channel envelope);
    ValidateIdempotencyKey (IdempotencyKey envelope);
    ValidateTo (ToDestination envelope) (ToRecipient envelope);
    ValidateDeliverAt (DeliverAt envelope);
    ValidatePayload (bytes (Payload envelope));
    ValidateDisplay (Display_ envelope)].
End envelope.

(** ** Payloads as values *)

(** [new(big.Rat).SetString] of a number literal: m and e with value m * 10^e.  It
    fails where the exponent is no int64, or exceeds a million once the fraction's
    digits are counted (zero is special-cased before). *)
Definition maxRatExponent : Z := 1000000.

(** The parts of a literal: sign, digits before and after the point, exponent. *)
Definition literal_parts (literal : list Z) : list Z * list Z * list Z * Z :=
  let (minus, s) := json.scan_minus literal in
  let (int, s) := json.span json.is_digit s in
  let (frac, s) :=
    match s with
    | b :: rest => if b =? json.ch "." then json.span json.is_digit rest else ([], s)
    | [] => ([], [])
    end in
  let exp :=
    match s with
    | [] => 0
    | _ :: s =>
      let (sign, ds) := json.scan_sign s in
      if bool_decide (sign = [json.ch "-"]) then - digits_val ds else digits_val ds
    end in
  (minus, int, frac, exp).

Definition rat_SetString (literal : list Z) : option (Z * Z) :=
  let '(minus, int, frac, exp) := literal_parts literal in
  if (exp <? int64_min) || (int64_max <? exp) then None
  else
    let m := digits_val (int ++ frac) in
    if m =? 0 then Some (0, 0)
    else
      let exp10 := exp - Z.of_nat (length frac) in
      if maxRatExponent <? Z.abs exp10 then None
      else Some (if bool_decide (minus = []) then m else - m, exp10).

(** [left.Cmp(right) == 0] *)
Definition rat_eq (l r : Z * Z) : bool :=
  let e := Z.min l.2 r.2 in
  l.1 * 10 ^ (l.2 - e) =? r.1 * 10 ^ (r.2 - e).

Definition sameJSONNumber (left right : list Z) : bool :=
  bool_decide (left = right) ||
  match rat_SetString left, rat_SetString right with
  | Some l, Some r => rat_eq l r
  | _, _ => false
  end.

Fixpoint sameJSONValue (left right : json.value) : bool :=
  match left, right with
  | json.VObject l, json.VObject r =>
    bool_decide (length l = length r) &&
    forallb (fun '(key, leftItem) =>
      match json.assoc key r with Some rightItem => sameJSONValue leftItem rightItem | None => false end) l
  | json.VArray l, json.VArray r =>
    bool_decide (length l = length r) &&
    (fix items (l r : list json.value) : bool :=
       match l, r with
       | x :: l, y :: r => sameJSONValue x y && items l r
       | _, _ => true
       end) l r
  | json.VNumber l, json.VNumber r => sameJSONNumber l r
  | json.VString l, json.VString r => bool_decide (l = r)
  | json.VBool l, json.VBool r => Bool.eqb l r
  | json.VNull, json.VNull => true
  | _, _ => false
  end.

Definition decodeJSONValue (document : list Z) : option json.value :=
  match json.parse document with
  | None => None
  | Some (t, rest) => if json.More rest then None else Some (json.interpret t)
  end.

Definition samePayload (stored submitted : list Z) : bool :=
  match decodeJSONValue stored, decodeJSONValue submitted with
  | Some storedValue, Some submittedValue => sameJSONValue storedValue submittedValue
  | _, _ => false
  end.

Definition sameContent (stored submitted : Envelope) : bool :=
  String.eqb (Channel stored) (Channel submitted) &&
  String.eqb (ToDestination stored) (ToDestination submitted) &&
  String.eqb (ToRecipient stored) (ToRecipient submitted) &&
  Bool.eqb (Critical stored) (Critical submitted) &&
  sameDeliverAt (DeliverAt stored) (DeliverAt submitted) &&
  samePayload (bytes (Payload stored)) (bytes (Payload submitted)) &&
  sameDisplay (Display_ stored) (Display_ submitted).
End validate.

(** ** Integers from the environment: [strconv.Atoi] and package [envint] *)

Module envint.
(** An optional sign and digits, whatever their value. *)
Definition int_value (s : string) : option Z :=
  let (sign, ds) := Json.json.scan_sign (bytes s) in
  if bool_decide (ds = []) || negb (forallb Json.json.is_digit ds) then None
  else Some (if bool_decide (sign = [45]) then - validate.digits_val ds else validate.digits_val ds).

(** [strconv.Atoi]: such a numeral in the range of an int *)
Definition Atoi (s : string) : option Z :=
  z ← int_value s; if (int64_min <=? z) && (z <=? int64_max) then Some z else None.

Definition Bounded (getenv : string -> string) (name : string) (fallback limit : Z) : result Z :=
  let raw := getenv name in
  if String.eqb raw EmptyString then Ok fallback
  else match Atoi raw with
  | None => Err (errors_New ("invalid " +:+ name))
  | Some value =>
    if (value <? 1) || (limit <? value) then Err (errors_New ("invalid " +:+ name)) else Ok value
  end.
End envint.
