(* ===== verification/Provisioning.v ===== *)
(** * Provisioning

    The provisioning service (src/provisioning-api/internal/provisioning, enforcement
    and validation): every method of service.go, the grant check of appgrant.go and the
    generated passwords, as programs over the interfaces the service is built on:
    [NtfyClient], [PersonServiceClient], [NotificationPublisher], the password
    generators, the clock, the locks of keyedlock.go and the throttle of
    attemptthrottle.go.  Logging is left out; a context that is cancelled shows as
    the error of the call it cancels. *)

From S2P Require Import Prelude GoText Utf8 Std Idents MessageValidate Prog NtfyCli PersonService.
Open Scope Z_scope.

Module enforcement.
(** [Mode] is an int; its zero value enforces. *)
Definition Enforce : Z := 0.
Definition LogOnly : Z := 1.

Definition Parse (value : string) : option Z :=
  if String.eqb value EmptyString || String.eqb value "enforce" then Some Enforce
  else if String.eqb value "log-only" then Some LogOnly
  else None.

Definition Mode_String (mode : Z) : string := if mode =? LogOnly then "log-only" else "enforce".
End enforcement.

Module provisioning.
Export personsvc.

(** ** The interfaces of the service *)

Module client.
Record Message := {
  Topic : string; MessageToken : string; Body : string; Title : string
}.

Inductive service_op :=
  (** [NtfyClient] *)
  | AddUser (userID password : string)
  | ChangePassword (userID password : string)
  | DeleteUser (userID : string)
  | GrantAccess (userID topicPattern : string) (permission : ntfycli.Permission)
  | ResetAccess (userID topicPattern : string)
  | AddToken (userID label : string)
  | ListTokens (userID : string)
  | RemoveToken (userID token : string)
  | ListUsers
  | GetUser (userID : string)
  (** [PersonServiceClient] *)
  | UpsertPerson (personHash email : string)
  | DeletePerson (personHash : string)
  | DeleteApp (appID : string)
  | ClaimPasswordWithStamp (personHash email : string) (mode : ClaimMode) (stamp : string)
  | ReleasePasswordClaim (personHash : string) (claim : PasswordClaim) (restoreTo : string)
  | ClaimResetSlot (personHash : string)
  | ReleaseResetSlot (personHash resetID : string)
  (** [NotificationPublisher] *)
  | Publish (message : Message)
  (** the configured password generators and the clock *)
  | generatePassword
  | generateSubscriberPassword
  | time_Now
  (** [personLocks] and [resetAttempts] *)
  | lock (key : string)
  | unlock (key : string)
  | allow (key : string) (limit : Z).

Definition service_reply (c : service_op) : Type :=
  match c with
  | AddUser _ _ | ChangePassword _ _ | DeleteUser _ | GrantAccess _ _ _ | ResetAccess _ _ | RemoveToken _ _ =>
    result unit
  | AddToken _ _ | Publish _ | generatePassword | generateSubscriberPassword => result string
  | ListTokens _ => result (list ntfycli.Token)
  | ListUsers => result (list ntfycli.User)
  | GetUser _ => result ntfycli.User
  | UpsertPerson _ _ | DeletePerson _ | DeleteApp _ | ReleasePasswordClaim _ _ _ | ReleaseResetSlot _ _ =>
    option failure
  | ClaimPasswordWithStamp _ _ _ _ => (PasswordClaim + failure)%type
  | ClaimResetSlot _ => (string + failure)%type
  | time_Now => Z
  | lock _ | unlock _ => unit
  | allow _ _ => (bool * Z)%type
  end.

Definition services : interface := {| op := service_op; reply := service_reply |}.
End client.
Import client.

Abbreviation program A := (prog services A).

(** A call, at the type of its reply. *)
Definition ask (c : service_op) : program (service_reply c) := @call services c.

(** [ClaimPassword]: the worker stamps with its own clock. *)
Definition ClaimPassword (personHash email : string) (mode : ClaimMode) : service_op :=
  ClaimPasswordWithStamp personHash email mode EmptyString.

(** ** Errors *)

Inductive fault :=
  | Plain (err : error)
  | PersonFailure (err : failure)
  | ErrPersonNotInApp
  | ErrPersonStoreUnavailable
  | TooManyPasswordChangesError (RetryAfterSeconds : Z).

(** [errors.Is(err, ntfycli.ErrNotFound)] and [errors.Is(err, ErrTooManyPasswordChanges)] *)
Definition is_not_found (err : fault) : bool :=
  match err with
  | Plain e => errors_Is e ntfycli.ErrNotFound
  | ErrPersonNotInApp => true
  | _ => false
  end.
Definition is_too_many (err : fault) : bool :=
  match err with TooManyPasswordChangesError _ => true | _ => false end.

Definition outcome (A : Type) : Type := (A + fault)%type.

(** [if err != nil { return err }] after a call of the ntfy client, a step of the
    service, or a call of the person service. *)
Definition try_ntfy {A B} (p : program (result A)) (f : A -> program (outcome B)) : program (outcome B) :=
  r ← p; match r with Ok a => f a | Err e => Ret (inr (Plain e)) end.
Definition try_step {A B} (p : program (outcome A)) (f : A -> program (outcome B)) : program (outcome B) :=
  r ← p; match r with inl a => f a | inr e => Ret (inr e) end.

Definition DefaultRetryAfterSeconds : Z := 60.

(** ** Configuration *)

Record Service := {
  personStoreConfigured : bool;
  publisherConfigured : bool;
  appGrantMode : Z
}.

(** ** Generated passwords (password.go), from the bytes [rand.Read] gives *)

Definition passwordEntropyBytes : Z := 32.
Definition subscriberPasswordAlphabet : list Z := bytes "abcdefghijkmnpqrstuvwxyz23456789".
Definition subscriberPasswordSymbols : Z := 16.
Definition subscriberPasswordGroupSize : Z := 4.

Definition password_byte (index entropyByte : Z) : list Z :=
  (if (0 <? index) && (index mod subscriberPasswordGroupSize =? 0) then [45] else []) ++
  [nth (Z.to_nat (Z.land entropyByte 31)) subscriberPasswordAlphabet 0].

Definition GenerateSubscriberPassword (entropy : list Z) : string :=
  of_bytes (concat (imap (fun index entropyByte => password_byte (Z.of_nat index) entropyByte) entropy)).

(** ** Topic patterns *)

Definition wildcardSuffix : string := "-*".
Definition broadcastSuffix : string := "-broadcast".

(** [^([a-z0-9_]+)-([a-z2-7]{16})-\*$], its first group: the class of the app id has
    no dash, so the first dash ends it. *)
Definition scopedTopicPattern (topicPattern : string) : option string :=
  let (appID, rest) := span_chars is_slug_char topicPattern in
  rest ← cut_prefix "-" rest;
  hash ← cut_suffix rest wildcardSuffix;
  if nonempty appID && personhash.IsHash hash then Some appID else None.

Definition personHashPattern (recipient : string) : bool := personhash.IsHash recipient.

Definition appFromTopicPattern (topicPattern : string) : option string :=
  match scopedTopicPattern topicPattern with
  | Some appID => Some appID
  | None =>
    match cut_suffix topicPattern broadcastSuffix with
    | Some appID => Some appID
    | None => cut_suffix topicPattern wildcardSuffix
    end
  end.

Definition userHasScopedAppGrant (user : ntfycli.User) (appID : string) : bool :=
  existsb (fun topicPattern => bool_decide (scopedTopicPattern topicPattern = Some appID)) (ntfycli.TopicPatterns user).

Definition userHasAppGrant (user : ntfycli.User) (appID : string) : bool :=
  userHasScopedAppGrant user appID ||
  existsb (fun topicPattern => String.eqb topicPattern (ntfycli.BroadcastTopicPattern appID)) (ntfycli.TopicPatterns user).

Definition ntfyUserPrefix : string := "u_".
(** [strings.TrimPrefix(userID, "u_")] *)
Definition trim_user_prefix (userID : string) : string := default userID (cut_prefix ntfyUserPrefix userID).

Definition personHashFromUserID (userID : string) : option string :=
  personHash ← cut_prefix ntfyUserPrefix userID;
  if personHashPattern personHash then Some personHash else None.

(** ** Best-effort writes and releases *)

(** [unlock := personLocks.lock(personHash); defer unlock()] around the rest of a method. *)
Definition with_person_lock {A} (personHash : string) (body : program A) : program A :=
  _ ← ask (lock personHash);
  a ← body;
  _ ← ask (unlock personHash);
  Ret a.

Definition releasePasswordClaim (personHash : string) (claim : PasswordClaim) (restoreTo : string) : program unit :=
  _ ← ask (ReleasePasswordClaim personHash claim restoreTo); Ret tt.
Definition releaseResetSlot (personHash slotID : string) : program unit :=
  _ ← ask (ReleaseResetSlot personHash slotID); Ret tt.

Section methods.
Context `{Std}.
Variable service : Service.

Definition when (b : bool) (p : program unit) : program unit := if b then p else Ret tt.

Definition dualWritePerson (personHash email : string) : program unit :=
  when (personStoreConfigured service)
    (_ ← ask (UpsertPerson personHash (personhash.Normalize email)); Ret tt).
Definition dualDeletePerson (personHash : string) : program unit :=
  when (personStoreConfigured service) (_ ← ask (DeletePerson personHash); Ret tt).
Definition dualDeleteApp (appID : string) : program unit :=
  when (personStoreConfigured service) (_ ← ask (DeleteApp appID); Ret tt).
Definition recordStampAfterChange (personHash email : string) : program unit :=
  _ ← ask (ClaimPassword personHash email ClaimAlways); Ret tt.

(** [for _, existingToken := range existingTokens { if Label == label { RemoveToken } }] *)
Fixpoint remove_labelled (userID label : string) (existingTokens : list ntfycli.Token) : program (outcome unit) :=
  match existingTokens with
  | [] => Ret (inl tt)
  | existingToken :: rest =>
    if String.eqb (ntfycli.Label existingToken) label
    then try_ntfy (ask (RemoveToken userID (ntfycli.Value existingToken)) : program (result unit))
           (fun _ => remove_labelled userID label rest)
    else remove_labelled userID label rest
  end.

(** ** Provision *)

Record ProvisionRequest := { ProvisionAppID : string; ProvisionEmail : string }.

Record ProvisionResult := {
  UserID : string; AppID : string; PersonHash : string; TopicPattern : string;
  BroadcastTopic : string; Token : string; Password : string
}.

(** [healStaleStamp]: what it returns, and the claim it leaves in [heldClaim]. *)
Definition healStaleStamp (personHash email ntfyUserID : string) : program (outcome string * option PasswordClaim) :=
  generated ← (ask generateSubscriberPassword : program (result string));
  match generated with
  | Err generateErr => Ret (inr (Plain generateErr), None)
  | Ok subscriberPassword =>
    claimed ← (ask (ClaimPassword personHash email ClaimAlways) : program (PasswordClaim + failure));
    match claimed with
    | inr _ => Ret (inl EmptyString, None)
    | inl claim =>
      changed ← (ask (ChangePassword ntfyUserID subscriberPassword) : program (result unit));
      match changed with
      | Err changeErr => Ret (inr (Plain changeErr), Some claim)
      | Ok _ => Ret (inl subscriberPassword, Some claim)
      end
    end
  end.

(** The claim [applySubscriberPassword] begins with: whether the store is available,
    and the claim. *)
Definition claim_if_unset (personHash email : string) : program (option PasswordClaim) :=
  if personStoreConfigured service then
    now ← (ask time_Now : program Z);
    let claimStamp := NewClaimStamp now in
    claimed ← (ask (ClaimPasswordWithStamp personHash email ClaimIfUnset claimStamp) : program (PasswordClaim + failure));
    match claimed with
    | inl claim => Ret (Some claim)
    | inr claimErr =>
      _ ← when (IsAmbiguousFailure (Some claimErr))
            (releasePasswordClaim personHash
               {| Claimed := false; RowExists := false; SetAt := claimStamp; PreviousSetAt := EmptyString |} EmptyString);
      Ret None
    end
  else Ret None.

(** The branch of [applySubscriberPassword] that won the claim. *)
Definition set_claimed_password (ntfyUserID : string) : program (outcome string) :=
  try_ntfy (ask generateSubscriberPassword : program (result string)) (fun subscriberPassword =>
    added ← (ask (AddUser ntfyUserID subscriberPassword) : program (result unit));
    match added with
    | Ok _ => Ret (inl subscriberPassword)
    | Err addUserErr =>
      if errors_Is addUserErr ntfycli.ErrAlreadyExists
      then try_ntfy (ask (ChangePassword ntfyUserID subscriberPassword) : program (result unit))
             (fun _ => Ret (inl subscriberPassword))
      else Ret (inr (Plain addUserErr))
    end).

(** The branch that did not: the user is made with a throwaway password, and a
    stamp whose user did not exist is healed. *)
Definition keep_password (storeAvailable : bool) (personHash email ntfyUserID : string) :
    program (outcome string * option PasswordClaim) :=
  throwaway ← (ask generatePassword : program (result string));
  match throwaway with
  | Err passwordErr => Ret (inr (Plain passwordErr), None)
  | Ok throwawayPassword =>
    added ← (ask (AddUser ntfyUserID throwawayPassword) : program (result unit));
    match added with
    | Ok _ =>
      if storeAvailable then healStaleStamp personHash email ntfyUserID else Ret (inl EmptyString, None)
    | Err addUserErr =>
      if errors_Is addUserErr ntfycli.ErrAlreadyExists then Ret (inl EmptyString, None)
      else Ret (inr (Plain addUserErr), None)
    end
  end.

(** [applySubscriberPassword]: what it returns, and [*heldClaim]. *)
Definition applySubscriberPassword (request : ProvisionRequest) (personHash ntfyUserID : string) :
    program (outcome string * option PasswordClaim) :=
  let email := personhash.Normalize (ProvisionEmail request) in
  claim ← claim_if_unset personHash email;
  match claim with
  | Some claim =>
    if Claimed claim
    then r ← set_claimed_password ntfyUserID; Ret (r, Some claim)
    else keep_password true personHash email ntfyUserID
  | None => keep_password false personHash email ntfyUserID
  end.

(** The rest of [Provision]: the two grants, the app's tokens, the mirror. *)
Definition grant_and_mint (request : ProvisionRequest) (personHash ntfyUserID subscriberPassword : string) :
    program (outcome ProvisionResult) :=
  let appID := ProvisionAppID request in
  let topicPattern := ntfycli.TopicPattern appID personHash in
  try_ntfy (ask (GrantAccess ntfyUserID topicPattern ntfycli.PermissionReadOnly) : program (result unit)) (fun _ =>
  try_ntfy (ask (GrantAccess ntfyUserID (ntfycli.BroadcastTopicPattern appID) ntfycli.PermissionReadOnly) : program (result unit)) (fun _ =>
  try_ntfy (ask (ListTokens ntfyUserID) : program (result (list ntfycli.Token))) (fun existingTokens =>
  try_step (remove_labelled ntfyUserID appID existingTokens) (fun _ =>
  try_ntfy (ask (AddToken ntfyUserID appID) : program (result string)) (fun tokenValue =>
  _ ← dualWritePerson personHash (ProvisionEmail request);
  Ret (inl {| UserID := ntfyUserID; AppID := appID; PersonHash := personHash; TopicPattern := topicPattern;
              BroadcastTopic := ntfycli.BroadcastTopicPattern appID; Token := tokenValue;
              Password := subscriberPassword |})))))).

Definition Provision (request : ProvisionRequest) : program (outcome ProvisionResult) :=
  let personHash := personhash.Hash (ProvisionEmail request) in
  let ntfyUserID := personhash.NtfyUser (ProvisionEmail request) in
  with_person_lock personHash (
    applied ← applySubscriberPassword request personHash ntfyUserID;
    let '(password, heldClaim) := applied in
    result ← match password with
             | inr applyErr => Ret (inr applyErr)
             | inl subscriberPassword => grant_and_mint request personHash ntfyUserID subscriberPassword
             end;
    (** the deferred release *)
    _ ← match result, heldClaim with
        | inr _, Some claim => releasePasswordClaim personHash claim EmptyString
        | _, _ => Ret tt
        end;
    Ret result).

(** ** ProvisionApp *)

Record ProvisionAppRequest := { PublisherAppID : string; Rotate : bool }.
Record ProvisionAppResult := {
  AppResultAppID : string; PublisherUserID : string; AppTopicPattern : string; AppToken : string
}.

(** What [ProvisionApp] and [TestNotify] begin with: the app's publisher exists and
    may write its topics. *)
Definition ensure_publisher {A} (appID : string) (next : program (outcome A)) : program (outcome A) :=
  let publisherUserID := ntfycli.PublisherUserID appID in
  try_ntfy (ask generatePassword : program (result string)) (fun password =>
    added ← (ask (AddUser publisherUserID password) : program (result unit));
    let granted :=
      try_ntfy (ask (GrantAccess publisherUserID (ntfycli.PublisherTopicPattern appID) ntfycli.PermissionWriteOnly)
                : program (result unit)) (fun _ => next) in
    match added with
    | Ok _ => granted
    | Err addUserErr =>
      if errors_Is addUserErr ntfycli.ErrAlreadyExists then granted else Ret (inr (Plain addUserErr))
    end).

Definition ProvisionApp (request : ProvisionAppRequest) : program (outcome ProvisionAppResult) :=
  let appID := PublisherAppID request in
  let publisherUserID := ntfycli.PublisherUserID appID in
  ensure_publisher appID (
    try_step
      (if Rotate request
       then try_ntfy (ask (ListTokens publisherUserID) : program (result (list ntfycli.Token)))
              (remove_labelled publisherUserID ntfycli.PublisherTokenLabel)
       else Ret (inl tt))
      (fun _ =>
        try_ntfy (ask (AddToken publisherUserID ntfycli.PublisherTokenLabel) : program (result string)) (fun tokenValue =>
          Ret (inl {| AppResultAppID := appID; PublisherUserID := publisherUserID;
                      AppTopicPattern := ntfycli.PublisherTopicPattern appID; AppToken := tokenValue |})))).

(** ** TestNotify *)

Record TestNotifyRequest := {
  NotifyAppID : string; Recipients : list string; Channel : string; NotifyMessage : string; NotifyTitle : string
}.
Record RecipientResult := {
  Recipient : string; RecipientUserID : string; RecipientTopic : string; OK : bool;
  MessageID : string; RecipientError : string
}.

Definition publishFailedMessage : string := "publish failed".

(** [validation.IsValidEmail]: the code of the delivery API's email.go. *)
Definition IsValidEmail (email : string) : bool := validate.isValidEmail email.

Definition resolve_recipient (recipient : string) : option string :=
  if personHashPattern recipient then Some recipient
  else if IsValidEmail recipient then Some (personhash.Hash recipient)
  else None.

(** One recipient of the loop. *)
Definition notify_recipient (request : TestNotifyRequest) (token recipient : string) : program RecipientResult :=
  match resolve_recipient recipient with
  | None =>
    Ret {| Recipient := recipient; RecipientUserID := EmptyString; RecipientTopic := EmptyString; OK := false;
           MessageID := EmptyString; RecipientError := "invalid recipient" |}
  | Some personHash =>
    let topic := ntfycli.PersonChannelTopic (NotifyAppID request) personHash (Channel request) in
    published ← (ask (Publish {| Topic := topic; MessageToken := token; Body := NotifyMessage request;
                                 Title := NotifyTitle request |}) : program (result string));
    Ret {| Recipient := recipient; RecipientUserID := personhash.NtfyUserFromHash personHash; RecipientTopic := topic;
           OK := is_Ok published;
           MessageID := match published with Ok messageID => messageID | Err _ => EmptyString end;
           RecipientError := match published with Ok _ => EmptyString | Err _ => publishFailedMessage end |}
  end.

Fixpoint notify_all (request : TestNotifyRequest) (token : string) (recipients : list string) : program (list RecipientResult) :=
  match recipients with
  | [] => Ret []
  | recipient :: rest =>
    r ← notify_recipient request token recipient;
    results ← notify_all request token rest;
    Ret (r :: results)
  end.

Definition TestNotify (request : TestNotifyRequest) : program (outcome (list RecipientResult)) :=
  if negb (publisherConfigured service) then Ret (inr (Plain (errors_New "ntfy publisher not configured")))
  else
    let publisherUserID := ntfycli.PublisherUserID (NotifyAppID request) in
    ensure_publisher (NotifyAppID request) (
      try_ntfy (ask (AddToken publisherUserID ntfycli.TestNotifyTokenLabel) : program (result string)) (fun token =>
        results ← notify_all request token (Recipients request);
        (** the deferred revoke *)
        _ ← ask (RemoveToken publisherUserID token);
        Ret (inl results))).

(** ** ListUsers *)

Record UserSummary := { SummaryUserID : string; Apps : list string; SummaryTopicPatterns : list string }.

(** The apps of a user, each once, in the order first seen. *)
Definition add_app (apps : list string) (topicPattern : string) : list string :=
  match appFromTopicPattern topicPattern with
  | Some appID => if bool_decide (appID ∈ apps) then apps else apps ++ [appID]
  | None => apps
  end.
Definition apps_of (topicPatterns : list string) : list string := fold_left add_app topicPatterns [].

Definition summarize (ntfyUser : ntfycli.User) : UserSummary :=
  {| SummaryUserID := ntfycli.Name ntfyUser; Apps := apps_of (ntfycli.TopicPatterns ntfyUser);
     SummaryTopicPatterns := ntfycli.TopicPatterns ntfyUser |}.

Definition ListUsers : program (outcome (list UserSummary)) :=
  try_ntfy (ask client.ListUsers : program (result (list ntfycli.User))) (fun ntfyUsers => Ret (inl (summarize <$> ntfyUsers))).

(** ** DeleteUser *)

Definition DeleteUser (userID : string) : program (outcome unit) :=
  match personHashFromUserID userID with
  | Some personHash =>
    with_person_lock personHash (
      deleted ← (ask (client.DeleteUser userID) : program (result unit));
      let dropRow :=
        if personStoreConfigured service then
          dropped ← (ask (DeletePerson personHash) : program (option failure));
          Ret (match dropped with Some err => inr (PersonFailure err) | None => inl tt end)
        else Ret (inl tt) in
      match deleted with
      | Ok _ => dropRow
      | Err deleteErr => if errors_Is deleteErr ntfycli.ErrNotFound then dropRow else Ret (inr (Plain deleteErr))
      end)
  | None =>
    deleted ← (ask (client.DeleteUser userID) : program (result unit));
    Ret (match deleted with
         | Ok _ => inl tt
         | Err deleteErr => if errors_Is deleteErr ntfycli.ErrNotFound then inl tt else inr (Plain deleteErr)
         end)
  end.

(** ** The grant check (appgrant.go) *)

Inductive route := grantRouteResetPassword | grantRouteSetPassword | grantRouteDeprovision.
Definition is_deprovision (r : route) : bool := match r with grantRouteDeprovision => true | _ => false end.

(** [checkAppGrant]: whether the user is already gone, or the rejection. *)
Definition checkAppGrant (r : route) (appID ntfyUserID : string) : program (outcome bool) :=
  looked ← (ask (GetUser ntfyUserID) : program (result ntfycli.User));
  Ret (match looked with
       | Ok user =>
         if userHasAppGrant user appID then inl false
         else if appGrantMode service =? enforcement.LogOnly then inl false
         else inr ErrPersonNotInApp
       | Err lookupErr =>
         if errors_Is lookupErr ntfycli.ErrNotFound
         then if is_deprovision r then inl true else inr ErrPersonNotInApp
         else if appGrantMode service =? enforcement.LogOnly then inl false
         else inr (Plain lookupErr)
       end).

(** ** Deprovision *)

Record DeprovisionRequest := { DeprovisionAppID : string; NtfyUserID : string }.

(** The last-app check, under the person's lock. *)
Definition drop_if_empty (ntfyUserID : string) : program (outcome unit) :=
  looked ← (ask (GetUser ntfyUserID) : program (result ntfycli.User));
  match looked with
  | Err getUserErr =>
    Ret (if errors_Is getUserErr ntfycli.ErrNotFound then inl tt else inr (Plain getUserErr))
  | Ok remainingUser =>
    if bool_decide (ntfycli.TopicPatterns remainingUser = [])
    then
      try_ntfy (ask (client.DeleteUser ntfyUserID) : program (result unit)) (fun _ =>
        _ ← match cut_prefix ntfyUserPrefix ntfyUserID with
            | Some personHash => dualDeletePerson personHash
            | None => Ret tt
            end;
        Ret (inl tt))
    else Ret (inl tt)
  end.

(** The app's tokens removed, then the last-app check. *)
Definition remove_tokens_and_drop (appID ntfyUserID : string) : program (outcome unit) :=
  try_ntfy (ask (ListTokens ntfyUserID) : program (result (list ntfycli.Token))) (fun existingTokens =>
  try_step (remove_labelled ntfyUserID appID existingTokens) (fun _ =>
  with_person_lock (trim_user_prefix ntfyUserID) (drop_if_empty ntfyUserID))).

(** What follows the grant check. *)
Definition revoke_app (appID ntfyUserID : string) : program (outcome unit) :=
  let topicPattern := ntfycli.TopicPattern appID (trim_user_prefix ntfyUserID) in
  try_ntfy (ask (ResetAccess ntfyUserID topicPattern) : program (result unit)) (fun _ =>
  reset ← (ask (ResetAccess ntfyUserID (ntfycli.BroadcastTopicPattern appID)) : program (result unit));
  match reset with
  | Ok _ => remove_tokens_and_drop appID ntfyUserID
  | Err resetErr =>
    if errors_Is resetErr ntfycli.ErrNotFound then remove_tokens_and_drop appID ntfyUserID
    else Ret (inr (Plain resetErr))
  end).

Definition Deprovision (request : DeprovisionRequest) : program (outcome unit) :=
  let appID := DeprovisionAppID request in
  let ntfyUserID := NtfyUserID request in
  try_step (checkAppGrant grantRouteDeprovision appID ntfyUserID) (fun alreadyGone =>
  if alreadyGone : bool then Ret (inl tt) else revoke_app appID ntfyUserID).

(** ** DeprovisionApp *)

Fixpoint deprovision_users (appID : string) (ntfyUsers : list ntfycli.User) : program (outcome unit) :=
  match ntfyUsers with
  | [] => Ret (inl tt)
  | ntfyUser :: rest =>
    if negb (userHasAppGrant ntfyUser appID) then deprovision_users appID rest
    else
      try_step (Deprovision {| DeprovisionAppID := appID; NtfyUserID := ntfycli.Name ntfyUser |})
        (fun _ => deprovision_users appID rest)
  end.

Definition DeprovisionApp (appID : string) : program (outcome unit) :=
  try_ntfy (ask client.ListUsers : program (result (list ntfycli.User))) (fun ntfyUsers =>
  try_step (deprovision_users appID ntfyUsers) (fun _ =>
  deleted ← (ask (client.DeleteUser (ntfycli.PublisherUserID appID)) : program (result unit));
  let rest := (_ ← dualDeleteApp appID; Ret (inl tt)) in
  match deleted with
  | Ok _ => rest
  | Err deleteErr => if errors_Is deleteErr ntfycli.ErrNotFound then rest else Ret (inr (Plain deleteErr))
  end)).

(** ** SetPassword and ResetPassword *)

(** What both end with, under the person's lock: the stamp is recorded, then the
    password changed; a change that fails gives a stamp it replaced back. *)
Definition change_password_claimed (personHash email ntfyUserID newPassword : string) : program (outcome unit) :=
  claimed ← (ask (ClaimPassword personHash email ClaimUpdateOnly) : program (PasswordClaim + failure));
  match claimed with
  | inr claimErr => Ret (inr (PersonFailure claimErr))
  | inl claim =>
    changed ← (ask (ChangePassword ntfyUserID newPassword) : program (result unit));
    match changed with
    | Err changeErr =>
      _ ← when (RowExists claim && Claimed claim) (releasePasswordClaim personHash claim (PreviousSetAt claim));
      Ret (inr (Plain changeErr))
    | Ok _ =>
      _ ← when (negb (RowExists claim)) (recordStampAfterChange personHash email);
      Ret (inl tt)
    end
  end.

Record SetPasswordRequest := { SetAppID : string; SetEmail : string; NewPassword : string }.

Definition SetPassword (request : SetPasswordRequest) : program (outcome string) :=
  let personHash := personhash.Hash (SetEmail request) in
  let ntfyUserID := personhash.NtfyUser (SetEmail request) in
  let email := personhash.Normalize (SetEmail request) in
  try_step (checkAppGrant grantRouteSetPassword (SetAppID request) ntfyUserID) (fun _ =>
  with_person_lock personHash (
    if negb (personStoreConfigured service) then Ret (inr ErrPersonStoreUnavailable)
    else try_step (change_password_claimed personHash email ntfyUserID (NewPassword request))
           (fun _ => Ret (inl ntfyUserID)))).

Record ResetPasswordRequest := { ResetAppID : string; ResetEmail : string }.
Record ResetPasswordResult := { ResetUserID : string; ResetResultAppID : string; ResetPasswordValue : string }.

Definition resetAttemptLimit : Z := 20.

(** [int(math.Ceil(retryAfter.Seconds()))], and the default where it is below 1. *)
Definition retry_seconds (retryAfter : Z) : Z :=
  let seconds := worker.ceil_div retryAfter Second in
  if seconds <? 1 then DefaultRetryAfterSeconds else seconds.

(** The refusal of a reset whose slot was not given. *)
Definition slot_refusal (slotErr : failure) : fault :=
  match slotErr with
  | ResetLimitError seconds =>
    TooManyPasswordChangesError (if seconds <? 1 then DefaultRetryAfterSeconds else seconds)
  | _ => TooManyPasswordChangesError DefaultRetryAfterSeconds
  end.

(** What follows the slot: a failure gives it back. *)
Definition reset_in_slot (request : ResetPasswordRequest) (personHash ntfyUserID email slotID : string) :
    program (outcome ResetPasswordResult) :=
  result ← try_ntfy (ask generateSubscriberPassword : program (result string)) (fun newPassword =>
    with_person_lock personHash (
      try_step (change_password_claimed personHash email ntfyUserID newPassword) (fun _ =>
        Ret (inl {| ResetUserID := ntfyUserID; ResetResultAppID := ResetAppID request;
                    ResetPasswordValue := newPassword |}))));
  _ ← match result with inr _ => releaseResetSlot personHash slotID | inl _ => Ret tt end;
  Ret result.

Definition ResetPassword (request : ResetPasswordRequest) : program (outcome ResetPasswordResult) :=
  let personHash := personhash.Hash (ResetEmail request) in
  let ntfyUserID := personhash.NtfyUser (ResetEmail request) in
  let email := personhash.Normalize (ResetEmail request) in
  attempt ← (ask (allow (personHash +:+ "|" +:+ ResetAppID request) resetAttemptLimit) : program (bool * Z));
  let '(allowed, retryAfter) := attempt in
  if negb allowed then Ret (inr (TooManyPasswordChangesError (retry_seconds retryAfter)))
  else try_step (checkAppGrant grantRouteResetPassword (ResetAppID request) ntfyUserID) (fun _ =>
    if negb (personStoreConfigured service) then Ret (inr (TooManyPasswordChangesError DefaultRetryAfterSeconds))
    else
      slot ← (ask (ClaimResetSlot personHash) : program (string + failure));
      match slot with
      | inr slotErr => Ret (inr (slot_refusal slotErr))
      | inl slotID => reset_in_slot request personHash ntfyUserID email slotID
      end).

End methods.
End provisioning.
