(* ===== verification/ProvisioningLocks.v ===== *)
(** * ProvisioningLocks

    The locks of the provisioning API.  Every method of the service follows the
    discipline of [Pool]: calls that touch a person's password, claim or row are made
    under that person's lock, so whatever the interleaving two flows never mix on one
    person, and no flow waits for ever on another.  The ntfy client's commands run
    under its mutex in the same way. *)

From S2P Require Import Prelude Prog GoText Utf8 NtfyCli GoFormat PersonService Std Idents MessageValidate Provisioning.
Open Scope Z_scope.

Section person_locks.
Import provisioning.client.
Import provisioning.

(** A call that reads or writes the password, claim or row of the person [h]. *)
Definition touches_person (c : service_op) (h : string) : Prop :=
  personhash.IsHash h = true /\
  match c with
  | AddUser userID _ | ChangePassword userID _ | client.DeleteUser userID => userID = personhash.NtfyUserFromHash h
  | UpsertPerson personHash _ | DeletePerson personHash | ClaimPasswordWithStamp personHash _ _ _
  | ReleasePasswordClaim personHash _ _ => personHash = h
  | _ => False
  end.

#[global] Instance service_locking : Locking services := {
  acquires := fun c : op services => match c with lock key => Some key | _ => None end;
  releases := fun c : op services => match c with unlock key => Some key | _ => None end;
  touches := touches_person
}.

(** No publisher is a person: a hash has no dash. *)
Lemma publisher_no_person appID h :
  personhash.IsHash h = true -> ntfycli.PublisherUserID appID <> personhash.NtfyUserFromHash h.
Proof.
  unfold personhash.IsHash, match_repeat. intros Hh Heq. bool_hyps.
  assert (Hc : all_chars (fun c => negb (Ascii.eqb c "-")) (personhash.NtfyUserFromHash h) = true).
  { unfold personhash.NtfyUserFromHash. rewrite all_chars_app. apply andb_true_iff. split; [done|].
    eapply all_chars_impl; [|done]. intros c Hc. destruct (Ascii.eqb_spec c "-") as [->|]; done. }
  rewrite <- Heq in Hc. unfold ntfycli.PublisherUserID in Hc. rewrite all_chars_app in Hc. bool_hyps. done.
Qed.

(** A call is permitted under the lock of the person it touches. *)
Lemma permitted_under held c :
  (forall key, c <> lock key /\ c <> unlock key) -> (forall h, touches_person c h -> held = Some h) -> permitted held c.
Proof.
  intros Hc Ht. split; [|split; [|done]]; simpl.
  - intros [h Hh]. destruct c; try done. by destruct (Hc key).
  - intros h Hh. destruct c; try done. by destruct (Hc key).
Qed.

Lemma keeps_ask held c :
  (forall key, c <> lock key /\ c <> unlock key) -> (forall h, touches_person c h -> held = Some h) ->
  keeps (A := service_reply c) held (ask c).
Proof.
  intros Hc Ht. apply keeps_call; [by apply permitted_under| |]; simpl; destruct c; try done;
    by destruct (Hc key).
Qed.

Lemma keeps_try_ntfy {A B} held (p : prog services (result A)) (f : A -> prog services (outcome B)) :
  keeps held p -> (forall a, keeps held (f a)) -> keeps held (try_ntfy p f).
Proof. intros Hp Hf. apply keeps_bind; [done|]. intros [a|e]; [apply Hf|apply keeps_ret]. Qed.

Lemma keeps_try_step {A B} held (p : prog services (outcome A)) (f : A -> prog services (outcome B)) :
  keeps held p -> (forall a, keeps held (f a)) -> keeps held (try_step p f).
Proof. intros Hp Hf. apply keeps_bind; [done|]. intros [a|e]; [apply Hf|apply keeps_ret]. Qed.

Lemma keeps_with_person_lock {A} h (body : prog services A) :
  keeps (Some h) body -> keeps None (with_person_lock h body).
Proof.
  apply (keeps_lock h (I := services) (lock h) (unlock h)); try done; (split; [|split]);
    first [done | by intros h' [_ []] | by intros [] | by intros h' [= ->]].
Qed.

(** Walk through a method: its binds, its calls, the branches on their replies. *)
Ltac keeps_step :=
  match goal with
  | |- keeps _ (Ret _) => apply keeps_ret
  | |- keeps None (with_person_lock _ _) => apply keeps_with_person_lock
  | |- keeps _ (try_ntfy _ _) => apply keeps_try_ntfy
  | |- keeps _ (try_step _ _) => apply keeps_try_step
  | |- keeps _ (ask _) => apply keeps_ask; [by split|]
  | |- keeps _ (_ ≫= _) => apply keeps_bind
  | |- keeps _ (when ?b _) => unfold when; destruct b
  | |- forall _, _ => intros ?
  | |- keeps _ (match ?x with _ => _ end) => destruct x eqn:?
  | H : touches_person _ _ |- _ => destruct H as [? H]; hnf in H; simplify_eq; try done
  end.
Ltac keeps_walk := repeat keeps_step.

Context `{Std} {Hstd : StdLaws _}.
Variable service : Service.

Lemma keeps_remove held userID label tokens : keeps held (remove_labelled userID label tokens).
Proof. induction tokens as [|t tokens IH]; cbn [remove_labelled]; keeps_walk; done. Qed.

Lemma touches_own userID h : personhash.NtfyUserFromHash userID = personhash.NtfyUserFromHash h -> Some userID = Some h.
Proof. intros H'. f_equal. by eapply string_app_inj. Qed.

Hint Resolve touches_own : core.

Lemma keeps_change h email password :
  keeps (Some h) (change_password_claimed h email (personhash.NtfyUserFromHash h) password).
Proof. unfold change_password_claimed, releasePasswordClaim, recordStampAfterChange. keeps_walk; auto. Qed.

Lemma keeps_Provision request : keeps None (Provision service request).
Proof.
  unfold Provision, personhash.NtfyUser. set (h := personhash.Hash _). apply keeps_with_person_lock.
  unfold applySubscriberPassword, claim_if_unset, set_claimed_password, keep_password, healStaleStamp,
    grant_and_mint, dualWritePerson, releasePasswordClaim.
  keeps_walk; auto using keeps_remove.
Qed.

Lemma keeps_ensure_publisher {A} appID (next : prog services (outcome A)) :
  keeps None next -> keeps None (ensure_publisher appID next).
Proof.
  intros Hnext. unfold ensure_publisher. keeps_walk; try done; by exfalso; eapply publisher_no_person.
Qed.

Lemma keeps_ProvisionApp request : keeps None (ProvisionApp request).
Proof. unfold ProvisionApp. apply keeps_ensure_publisher. keeps_walk; apply keeps_remove. Qed.

Lemma keeps_notify_all request token recipients : keeps None (notify_all request token recipients).
Proof.
  induction recipients as [|r rest IH]; cbn [notify_all]; [apply keeps_ret|]. unfold notify_recipient.
  keeps_walk; done.
Qed.

Lemma keeps_TestNotify request : keeps None (TestNotify service request).
Proof.
  unfold TestNotify. destruct (negb _); [apply keeps_ret|]. apply keeps_ensure_publisher.
  keeps_walk; apply keeps_notify_all.
Qed.

Lemma keeps_ListUsers : keeps None ListUsers.
Proof. unfold ListUsers. keeps_walk. Qed.

Lemma personHashFromUserID_spec userID h :
  personHashFromUserID userID = Some h <-> userID = personhash.NtfyUserFromHash h /\ personhash.IsHash h = true.
Proof.
  unfold personHashFromUserID, personHashPattern, personhash.NtfyUserFromHash. rewrite bind_Some. split.
  - intros (h' & Hc & Hh). apply cut_prefix_spec in Hc. by case_match; simplify_eq.
  - intros [-> Hh]. exists h. split; [by apply cut_prefix_spec|]. by rewrite Hh.
Qed.

Lemma keeps_DeleteUser userID : keeps None (DeleteUser service userID).
Proof.
  unfold DeleteUser. destruct (personHashFromUserID userID) as [h|] eqn:Eh.
  - apply personHashFromUserID_spec in Eh as [-> _]. keeps_walk; auto.
  - keeps_walk. exfalso. assert (personHashFromUserID (personhash.NtfyUserFromHash h) = Some h)
      by by apply personHashFromUserID_spec. congruence.
Qed.

Lemma keeps_checkAppGrant held r appID userID : keeps held (checkAppGrant service r appID userID).
Proof. unfold checkAppGrant. keeps_walk. Qed.

(** The row [Deprovision] drops is the locked person's. *)
Lemma keeps_drop_if_empty userID : keeps (Some (trim_user_prefix userID)) (drop_if_empty service userID).
Proof.
  unfold drop_if_empty, dualDeletePerson. keeps_walk. unfold trim_user_prefix.
  by match goal with E : cut_prefix _ _ = _ |- _ => rewrite E end.
Qed.

Lemma keeps_Deprovision request : keeps None (Deprovision service request).
Proof. unfold Deprovision, revoke_app, remove_tokens_and_drop. keeps_walk; auto using keeps_checkAppGrant, keeps_remove, keeps_drop_if_empty. Qed.

Lemma keeps_deprovision_users appID users : keeps None (deprovision_users service appID users).
Proof.
  induction users as [|u users IH]; cbn [deprovision_users]; keeps_walk; auto using keeps_Deprovision.
Qed.

Lemma keeps_DeprovisionApp appID : keeps None (DeprovisionApp service appID).
Proof.
  unfold DeprovisionApp, dualDeleteApp. keeps_walk; auto using keeps_deprovision_users.
  all: by exfalso; eapply publisher_no_person.
Qed.

Lemma keeps_SetPassword request : keeps None (SetPassword service request).
Proof.
  unfold SetPassword, personhash.NtfyUser. keeps_walk; auto using keeps_checkAppGrant, keeps_change.
Qed.

Lemma keeps_ResetPassword request : keeps None (ResetPassword service request).
Proof.
  unfold ResetPassword, reset_in_slot, releaseResetSlot, personhash.NtfyUser.
  keeps_walk; auto using keeps_checkAppGrant, keeps_change.
Qed.

(** A request: any method of the service, with any arguments. *)
Inductive request_of : prog services unit -> Prop :=
  | by_Provision r : request_of (_ ← Provision service r; Ret tt)
  | by_ProvisionApp r : request_of (_ ← ProvisionApp r; Ret tt)
  | by_TestNotify r : request_of (_ ← TestNotify service r; Ret tt)
  | by_ListUsers : request_of (_ ← ListUsers; Ret tt)
  | by_DeleteUser userID : request_of (_ ← DeleteUser service userID; Ret tt)
  | by_Deprovision r : request_of (_ ← Deprovision service r; Ret tt)
  | by_DeprovisionApp appID : request_of (_ ← DeprovisionApp service appID; Ret tt)
  | by_SetPassword r : request_of (_ ← SetPassword service r; Ret tt)
  | by_ResetPassword r : request_of (_ ← ResetPassword service r; Ret tt).

Lemma request_disciplined p : request_of p -> disciplined p None.
Proof.
  destruct 1; (apply keeps_bind; [|intros ?; apply keeps_ret]); auto using keeps_Provision, keeps_ProvisionApp,
    keeps_TestNotify, keeps_ListUsers, keeps_DeleteUser, keeps_Deprovision, keeps_DeprovisionApp, keeps_SetPassword,
    keeps_ResetPassword.
Qed.

(** C3: requests of the provisioning API run concurrently and interleave call by call,
    and ntfy and the person service may answer each call anything.  A call that
    touches a person's ntfy password, password claim or row is then always made by a
    request that holds the person's lock and has been alone with the person since it
    took it: no other request has locked, unlocked or touched the person in between. *)
Theorem person_exclusive {W} (answers : answering services W) w tr s before i e after h :
  pool_steps answers request_of (empty_pool w) tr s ->
  tr = before ++ (i, e) :: after -> touches_person (called e) h ->
  alone_since i h before.
Proof. intros Hsteps Htr Ht. by eapply exclusive; [apply request_disciplined| | |]. Qed.

(** C31: requests never wait for each other for ever: while a request of the pool has a
    call to make, some request can make its next call. *)
Theorem requests_progress {W} (answers : answering services W) w tr s i c k :
  (forall w c, exists r w', answers w c r w') ->
  pool_steps answers request_of (empty_pool w) tr s -> threads s !! i = Some (Call c k) ->
  exists e s', pool_step answers request_of s [e] s'.
Proof. intros Hlive. by apply deadlock_free; [apply request_disciplined|]. Qed.

End person_locks.

(** ** The ntfy client's mutex *)

Section ntfy_mutex.
Import ntfycli.

(** The one resource is the auth database every command edits. *)
Definition database : string := "auth.db".

#[global] Instance runner_locking : Locking runner := {
  acquires := fun c : op runner => match c with MutexLock => Some database | _ => None end;
  releases := fun c : op runner => match c with MutexUnlock => Some database | _ => None end;
  touches := fun (c : op runner) h => match c with Run _ _ => h = database | _ => False end
}.

Lemma keeps_attempts n attempt backoff last args env :
  keeps (Some database) (attempt_loop n attempt backoff last args env).
Proof.
  revert attempt backoff last. induction n as [|n IH]; intros attempt backoff last; cbn [attempt_loop]; [apply keeps_ret|].
  apply keeps_bind.
  - apply (keeps_call (I := runner)); try done. split; [by intros []|]. split; [done|]. by intros h ->.
  - intros [[stdout stderr] [e|]]; [|apply keeps_ret]. destruct (negb _); [apply keeps_ret|].
    destruct (_ <? _); [|apply IH]. apply keeps_bind; [|intros ?; apply IH].
    apply (keeps_call (I := runner)); try done. split; [by intros []|]. by split.
Qed.

Lemma keeps_run args env : keeps None (run args env).
Proof.
  split; [split; [done|]; by split|]. intros r held' ->. apply wp_bind.
  eapply wp_mono; [|apply keeps_attempts]. intros [[stdout stderr] e] held' ->. split.
  - split; [by intros []|]. split; [by intros h [= <-]|done].
  - by intros r' held' ->.
Qed.

Inductive command_of : prog runner unit -> Prop :=
  | by_run args env : command_of (_ ← run args env; Ret tt).

(** Commands of the ntfy client started concurrently never overlap: each attempt
    runs while its client call has been alone with the auth database since it took the
    mutex, its retries and the waits between them included. *)
Theorem commands_serialized {W} (answers : answering runner W) w tr s before i args env r after :
  pool_steps answers command_of (empty_pool w) tr s ->
  tr = before ++ (i, Event (Run args env : op runner) r) :: after ->
  alone_since i database before.
Proof.
  intros Hsteps Htr. eapply exclusive; [|done|exact Htr|done].
  intros p [args' env']. apply keeps_bind; [apply keeps_run|intros ?; apply keeps_ret].
Qed.

End ntfy_mutex.
