(* ===== verification/ProvisioningProps.v ===== *)
(** * ProvisioningProps

    What the service guarantees whatever ntfy and the person service answer: the
    claim of a provision that fails is given back and a password it returns is the one
    that was set, nothing changes before the caller's grant is seen, a reset keeps its
    slot exactly when it succeeds, a test notification's token is revoked. *)

From S2P Require Import Prelude GoText Utf8 Std GoFormat Idents MessageValidate Prog NtfyCli PersonService Provisioning.
Open Scope Z_scope.

Module provisioning_props.
Import provisioning.client.
Import provisioning.

Section props.
Context `{Std}.
Variable service : Service.

(** ** Claims and passwords *)

(** What a provision did to one person's password: the claims it won on that person
    (under [if_unset] if the reply says so, under [always] in any case), the stamps of
    the first claims whose reply was lost and which may have been written, the releases
    to NULL it asked for on that person with the answer to each, and the last password
    ntfy accepted for that person's user. *)
Record account := {
  won : list PasswordClaim; in_doubt : list string;
  released : list (PasswordClaim * option failure); password_set : option string
}.

Definition untouched : account := {| won := []; in_doubt := []; released := []; password_set := None |}.

Definition wins (mode : ClaimMode) (claim : PasswordClaim) : bool :=
  match mode with ClaimIfUnset => Claimed claim | ClaimAlways => true | ClaimUpdateOnly => false end.

(** The claim a stamp stands for while no reply describes it. *)
Definition unanswered (stamp : string) : PasswordClaim :=
  {| Claimed := false; RowExists := false; SetAt := stamp; PreviousSetAt := EmptyString |}.

Definition account_step (person user : string) (a : account) (e : event services) : account :=
  match e with
  | Event (ClaimPasswordWithStamp h _ mode _) (inl claim) =>
    if String.eqb h person && wins mode claim
    then {| won := won a ++ [claim]; in_doubt := in_doubt a; released := released a; password_set := password_set a |}
    else a
  | Event (ClaimPasswordWithStamp h _ ClaimIfUnset stamp) (inr claimErr) =>
    if String.eqb h person && IsAmbiguousFailure (Some claimErr)
    then {| won := won a; in_doubt := in_doubt a ++ [stamp]; released := released a; password_set := password_set a |}
    else a
  | Event (ReleasePasswordClaim h claim EmptyString) answer =>
    if String.eqb h person
    then {| won := won a; in_doubt := in_doubt a; released := released a ++ [(claim, answer)];
            password_set := password_set a |}
    else a
  | Event (AddUser u password) (Ok _) | Event (ChangePassword u password) (Ok _) =>
    if String.eqb u user
    then {| won := won a; in_doubt := in_doubt a; released := released a; password_set := Some password |} else a
  | _ => a
  end.

Definition account_of (person user : string) (tr : list (event services)) : account :=
  fold_left (account_step person user) tr untouched.

(** A password is changed under a claim only. *)
Definition claimed_first (a : account) (c : op services) : Prop :=
  match c with ChangePassword _ _ => won a <> [] | _ => True end.

Lemma wp_remove person user g userID label tokens (Q : outcome unit -> account -> Prop) :
  (forall r, Q r g) -> wp claimed_first (follow (account_step person user)) (remove_labelled userID label tokens) g Q.
Proof.
  intros HQ. induction tokens as [|t tokens IH]; cbn [remove_labelled]; [apply HQ|].
  destruct (String.eqb _ _); [|done]. split; [done|]. intros [[]|e] g' ->; [done|apply HQ].
Qed.

(** One call whose account is computed, on each shape of its reply. *)
Ltac account_call :=
  match goal with
  | |- wp _ _ (ask _) _ _ =>
    apply wp_call; [try done|let r := fresh "r" in let g := fresh "g" in intros r g ->; cbn [fold_left account_step]; rewrite ?String.eqb_refl; cbn [andb]]
  | |- wp _ _ (try_ntfy _ _) _ _ => unfold try_ntfy
  | |- wp _ _ (try_step _ _) _ _ => unfold try_step
  | |- wp _ _ (when ?b _) _ _ => unfold when; destruct b
  | |- wp _ _ (remove_labelled _ _ _) _ _ => apply wp_remove; intros ?
  end.
Ltac account_walk := repeat first [account_call | wp_step].

Lemma wp_grant_and_mint person user request pw g (Q : outcome ProvisionResult -> account -> Prop) :
  (forall r, Password r = pw -> Q (inl r) g) -> (forall e, Q (inr e) g) ->
  wp claimed_first (follow (account_step person user)) (grant_and_mint service request person user pw) g Q.
Proof.
  intros Hok Herr. unfold grant_and_mint, dualWritePerson. cbv zeta.
  account_walk; simplify_eq/=; try apply Herr; by apply Hok.
Qed.

(** Every stamp in doubt has been asked back. *)
Definition doubts_released (a : account) : Prop :=
  Forall (fun stamp => exists answer, (unanswered stamp, answer) ∈ released a) (in_doubt a).

(** How the password half ends: what it returns, the claim it holds, the account. *)
Definition password_half (r : outcome string * option PasswordClaim) (a : account) : Prop :=
  match r with
  | (r, Some claim) =>
    won a = [claim] /\ in_doubt a = [] /\ released a = [] /\
    match r with inl pw => password_set a = Some pw | inr _ => True end
  | (r, None) => won a = [] /\ doubts_released a /\ match r with inl pw => pw = EmptyString | inr _ => True end
  end.

Lemma wp_password_half person user request :
  wp claimed_first (follow (account_step person user)) (applySubscriberPassword service request person user) untouched
    password_half.
Proof.
  unfold applySubscriberPassword, claim_if_unset, set_claimed_password, keep_password, healStaleStamp,
    releasePasswordClaim. cbv zeta. account_walk; simplify_eq/=; try done.
  all: repeat match goal with E : Claimed _ = _ |- _ => rewrite E | E : IsAmbiguousFailure _ = _ |- _ => rewrite E end.
  all: rewrite ?String.eqb_refl; try done; split_and?; try done; repeat constructor.
  all: eexists; by apply list_elem_of_singleton.
Qed.

(** How a provision ends. *)
Definition provision_account (r : outcome ProvisionResult) (a : account) : Prop :=
  doubts_released a /\
  match r with
  | inl result =>
    (won a = [] /\ Password result = EmptyString) \/
    (exists claim, won a = [claim] /\ released a = [] /\ password_set a = Some (Password result))
  | inr _ => won a = [] \/ (exists claim answer, won a = [claim] /\ released a = [(claim, answer)])
  end.

Lemma wp_Provision request :
  let person := personhash.Hash (ProvisionEmail request) in
  let user := personhash.NtfyUser (ProvisionEmail request) in
  wp claimed_first (follow (account_step person user)) (Provision service request) untouched provision_account.
Proof.
  cbv zeta. unfold Provision, with_person_lock. cbv zeta. apply wp_bind, wp_call; [done|]. intros [] g ->. apply wp_bind, wp_bind.
  eapply wp_mono; [|apply wp_password_half]. intros [[pw|e] held] a Ha; apply wp_bind.
  - apply wp_grant_and_mint.
    + intros r Hr. apply wp_bind. destruct held as [claim|]; account_walk; simplify_eq/=.
      * destruct Ha as (Hw & Hd & Hr & Hp). split; [unfold doubts_released; by rewrite Hd|]. right. eauto.
      * destruct Ha as (Hw & Hd & Hp). split; [done|]. by left.
    + intros f. apply wp_bind. unfold releasePasswordClaim. destruct held as [claim|]; account_walk; simplify_eq/=.
      * destruct Ha as (Hw & Hd & Hr & _). split; [unfold doubts_released; cbn; by rewrite Hd|]. right. cbn. rewrite Hr. eauto.
      * destruct Ha as (Hw & Hd & _). split; [done|]. by left.
  - cbn [wp]. apply wp_bind. unfold releasePasswordClaim. destruct held as [claim|]; account_walk; simplify_eq/=.
    + destruct Ha as (Hw & Hd & Hr & _). split; [unfold doubts_released; cbn; by rewrite Hd|]. right. cbn. rewrite Hr. eauto.
    + destruct Ha as (Hw & Hd & _). split; [done|]. by left.
Qed.

(** C15: a provision accounts for the password claim it takes, whatever ntfy and the
    person service answer.  When it fails after winning a claim on the person, it has
    asked the person service exactly once to give that claim back to NULL, so that a
    later provision generates a new password; the answer is not retried (a failed
    release is only logged, and then the claim may stay).  A first claim whose reply
    was lost, and which may have been written, has been asked back by its stamp however
    the provision ends.  When it succeeds after winning a claim, it has asked for no
    release and the password returned is the last one ntfy accepted for the person's
    user; when it won none, no password is returned. *)
Theorem Provision_accounts {W} (answers : answering services W) w tr r w' request :
  exec answers (Provision service request) w tr (Ret r) w' ->
  provision_account r (account_of (personhash.Hash (ProvisionEmail request)) (personhash.NtfyUser (ProvisionEmail request)) tr).
Proof.
  intros He. apply (exec_ghost _ (account_step (personhash.Hash (ProvisionEmail request)) (personhash.NtfyUser (ProvisionEmail request)))
    _ _ _ _ _ untouched) in He.
  exact (wp_result _ _ _ _ _ _ _ _ He (wp_Provision request)).
Qed.

(** In no execution of a provision, complete or cut short, is the password of an
    existing ntfy user changed before a claim on it is won. *)
Theorem no_change_unclaimed {W} (answers : answering services W) w tr p' w' request before userID password r after :
  exec answers (Provision service request) w tr p' w' ->
  tr = before ++ Event (ChangePassword userID password : op services) r :: after ->
  won (account_of (personhash.Hash (ProvisionEmail request)) (personhash.NtfyUser (ProvisionEmail request)) before) <> [].
Proof.
  intros He ->. apply exec_app in He as (p1 & w1 & He & Hnext).
  apply (exec_ghost _ (account_step (personhash.Hash (ProvisionEmail request)) (personhash.NtfyUser (ProvisionEmail request)))
    _ _ _ _ _ untouched) in He.
  pose proof (wp_exec _ _ _ _ _ _ _ _ He (wp_Provision request)) as Hp.
  inversion Hnext; subst. destruct Hp as [Hp _]. exact Hp.
Qed.

(** ** What a request of an app may reach *)

(** What a request has learnt of the user it is about: the tokens listed last, and
    whether it last saw the user without a grant. *)
Record seen := { listed : list ntfycli.Token; bare : bool }.
Definition nothing_seen : seen := {| listed := []; bare := false |}.

Definition seen_step (g : seen) (e : event services) : seen :=
  match e with
  | Event (ListTokens _) (Ok tokens) => {| listed := tokens; bare := bare g |}
  | Event (GetUser _) (Ok user) => {| listed := listed g; bare := bool_decide (ntfycli.TopicPatterns user = []) |}
  | _ => g
  end.
Definition seen_of (tr : list (event services)) : seen := fold_left seen_step tr nothing_seen.

(** The calls open to a request of the app [appID] about the user [userID] of the
    person [h]: that user alone, the app's two patterns, the tokens labelled with the
    app; the user and the person's row are deleted only once seen without a grant. *)
Definition within (appID userID h : string) (g : seen) (c : op services) : Prop :=
  match c with
  | AddUser u _ | ChangePassword u _ | ListTokens u | GetUser u => u = userID
  | GrantAccess u pattern permission =>
    u = userID /\ permission = ntfycli.PermissionReadOnly /\
    (pattern = ntfycli.TopicPattern appID h \/ pattern = ntfycli.BroadcastTopicPattern appID)
  | ResetAccess u pattern =>
    u = userID /\ (pattern = ntfycli.TopicPattern appID h \/ pattern = ntfycli.BroadcastTopicPattern appID)
  | AddToken u label => u = userID /\ label = appID
  | RemoveToken u token => u = userID /\ exists t, t ∈ listed g /\ ntfycli.Value t = token /\ ntfycli.Label t = appID
  | client.DeleteUser u => u = userID /\ bare g = true
  | DeletePerson h' => h' = h /\ bare g = true
  | UpsertPerson h' _ | ClaimPasswordWithStamp h' _ _ _ | ReleasePasswordClaim h' _ _
  | ClaimResetSlot h' | ReleaseResetSlot h' _ => h' = h
  | client.ListUsers | DeleteApp _ | Publish _ => False
  | _ => True
  end.

Lemma wp_remove_within appID userID h g tokens (Q : outcome unit -> seen -> Prop) :
  tokens ⊆ listed g -> (forall r, Q r g) ->
  wp (within appID userID h) (follow seen_step) (remove_labelled userID appID tokens) g Q.
Proof.
  intros Hin HQ. induction tokens as [|t tokens IH]; cbn [remove_labelled]; [apply HQ|].
  assert (t ∈ listed g) as Ht by set_solver. assert (tokens ⊆ listed g) as Hin' by set_solver.
  specialize (IH Hin').
  destruct (String.eqb_spec (ntfycli.Label t) appID) as [<-|]; [|done].
  split; [split; [done|by exists t]|]. intros [[]|e] g' ->; [done|apply HQ].
Qed.

Ltac within_walk := repeat first
  [ match goal with
    | |- wp _ _ (remove_labelled _ _ _) _ _ =>
      apply wp_remove_within; [by (etrans; [|done]; simpl)|intros ?]
    | |- wp _ _ (ask _) _ _ => apply wp_call; [simpl; auto|let g := fresh "g" in intros ? g ->]
    | |- wp _ _ (with_person_lock _ _) _ _ => unfold with_person_lock
    | |- wp _ _ (try_ntfy _ _) _ _ => unfold try_ntfy
    | |- wp _ _ (try_step _ _) _ _ => unfold try_step
    | |- wp _ _ (when ?b _) _ _ => unfold when; destruct b
    end
  | wp_step ].

Lemma within_Provision request : let h := personhash.Hash (ProvisionEmail request) in
  wp (within (ProvisionAppID request) (personhash.NtfyUser (ProvisionEmail request)) h) (follow seen_step)
    (Provision service request) nothing_seen (fun _ _ => True).
Proof.
  intros h. unfold Provision, applySubscriberPassword, claim_if_unset, set_claimed_password, keep_password,
    healStaleStamp, grant_and_mint, dualWritePerson, releasePasswordClaim. cbv zeta.
  within_walk; done.
Qed.

Lemma within_Deprovision request : let u := NtfyUserID request in
  wp (within (DeprovisionAppID request) u (trim_user_prefix u)) (follow seen_step)
    (Deprovision service request) nothing_seen (fun _ _ => True).
Proof.
  intros u. subst u. unfold Deprovision, revoke_app, remove_tokens_and_drop, checkAppGrant, drop_if_empty, dualDeletePerson. cbv zeta.
  within_walk; try done; (split; [|done]); try done;
    unfold trim_user_prefix; by match goal with E : cut_prefix _ _ = _ |- _ => rewrite E end.
Qed.

Lemma within_trace {A W} (answers : answering services W) w tr (p p' : prog services A) w' appID u h before e after :
  wp (within appID u h) (follow seen_step) p nothing_seen (fun _ _ => True) ->
  exec answers p w tr p' w' -> tr = before ++ e :: after -> within appID u h (seen_of before) (called e).
Proof.
  intros Hwp He ->. apply exec_app in He as (p1 & w1 & He & Hnext).
  apply (exec_ghost _ seen_step _ _ _ _ _ nothing_seen) in He.
  pose proof (wp_exec _ _ _ _ _ _ _ _ He Hwp) as Hp. inversion Hnext; subst. by destruct Hp as [Hp _].
Qed.

(** A provision or deprovision of an app, complete or cut short and whatever it is
    answered, reaches only the person it is about and only through the app: it grants
    and revokes the app's own two topic patterns, removes only tokens ntfy listed under
    the app's label, and deletes the user or the person's row only after ntfy showed
    the user without a single grant left. *)
Theorem app_requests_confined {W} (answers : answering services W) w w' :
  (forall request tr p' before e after,
    exec answers (Provision service request) w tr p' w' -> tr = before ++ e :: after ->
    within (ProvisionAppID request) (personhash.NtfyUser (ProvisionEmail request))
      (personhash.Hash (ProvisionEmail request)) (seen_of before) (called e)) /\
  (forall request tr p' before e after,
    exec answers (Deprovision service request) w tr p' w' -> tr = before ++ e :: after ->
    within (DeprovisionAppID request) (NtfyUserID request) (trim_user_prefix (NtfyUserID request))
      (seen_of before) (called e)).
Proof.
  split; intros request tr p' before e after He Htr; eapply within_trace; eauto;
    [apply within_Provision|apply within_Deprovision].
Qed.

(** ** The grant check *)

(** Calls that read, wait or draw randomness; every other call changes ntfy or the
    person service. *)
Definition harmless (c : op services) : bool :=
  match c with
  | GetUser _ | ListTokens _ | client.ListUsers | generatePassword | generateSubscriberPassword | time_Now
  | lock _ | unlock _ | allow _ _ => true
  | _ => false
  end.

(** Whether ntfy, asked for the user [userID], has shown it with a grant in the app. *)
Definition grant_step (appID userID : string) (g : bool) (e : event services) : bool :=
  match e with
  | Event (GetUser asked) (Ok user) => g || (String.eqb asked userID && userHasAppGrant user appID)
  | _ => g
  end.
Definition grant_seen (appID userID : string) (tr : list (event services)) : bool :=
  fold_left (grant_step appID userID) tr false.

Definition granted_first (g : bool) (c : op services) : Prop := harmless c = false -> g = true.

Lemma wp_granted {A} appID userID (p : prog services A) (Q : A -> bool -> Prop) :
  (forall a, Q a true) -> wp granted_first (follow (grant_step appID userID)) p true Q.
Proof.
  intros HQ. induction p as [a|c k IH]; [apply HQ|]. split; [done|]. intros r g' ->.
  assert (grant_step appID userID true (Event (I := services) c r) = true) as ->; [|apply IH].
  destruct c; try done. by destruct r.
Qed.

(** After the check, either the grant was seen or nothing more is called. *)
Lemma wp_checked {A} r appID userID (f : bool -> prog services (outcome A)) :
  appGrantMode service <> enforcement.LogOnly -> (is_deprovision r = true -> exists a, f true = Ret a) ->
  wp granted_first (follow (grant_step appID userID)) (try_step (checkAppGrant service r appID userID) f) false (fun _ _ => True).
Proof.
  intros Hmode Hgone. unfold try_step, checkAppGrant. apply wp_bind, wp_bind, wp_call; [done|].
  apply Z.eqb_neq in Hmode. intros looked g ->. cbn [wp grant_step]. rewrite Hmode.
  destruct looked as [user|e]; cbn [grant_step orb]; rewrite ?String.eqb_refl; cbn [andb].
  - destruct (userHasAppGrant user appID); [by apply wp_granted|done].
  - destruct (errors_Is _ _), (is_deprovision r); try done. by destruct (Hgone eq_refl) as [a ->].
Qed.
(** The requests an app makes about one of its subscribers, and that subscriber's user. *)
Inductive guarded : string -> string -> prog services unit -> Prop :=
  | guarded_Deprovision r : guarded (DeprovisionAppID r) (NtfyUserID r) (_ ← Deprovision service r; Ret tt)
  | guarded_SetPassword r :
      guarded (SetAppID r) (personhash.NtfyUser (SetEmail r)) (_ ← SetPassword service r; Ret tt)
  | guarded_ResetPassword r :
      guarded (ResetAppID r) (personhash.NtfyUser (ResetEmail r)) (_ ← ResetPassword service r; Ret tt).

Lemma wp_guarded appID userID p : appGrantMode service <> enforcement.LogOnly -> guarded appID userID p ->
  wp granted_first (follow (grant_step appID userID)) p false (fun _ _ => True).
Proof.
  intros Hmode [r|r|r]; apply wp_bind.
  - apply (wp_mono _ _ _ _ (fun _ _ => True)); [done|]. apply wp_checked; [done|]. by eexists.
  - apply (wp_mono _ _ _ _ (fun _ _ => True)); [done|]. by apply wp_checked.
  - apply (wp_mono _ _ _ _ (fun _ _ => True)); [done|]. unfold ResetPassword. cbv zeta. apply wp_bind, wp_call; [done|].
    intros [allowed retryAfter] g ->. destruct (negb allowed); [done|]. by apply wp_checked.
Qed.

(** C10: unless the grant check is in log-only mode, a deprovision, a password change or
    a reset makes no call that changes ntfy or the person service (a reset slot
    included) before ntfy, asked for that very person's user, has shown it with a grant
    in the calling app, whatever the answers; so a failed lookup changes nothing. *)
Theorem grant_enforced {W} (answers : answering services W) w tr p p' w' appID userID before e after :
  appGrantMode service <> enforcement.LogOnly -> guarded appID userID p ->
  exec answers p w tr p' w' -> tr = before ++ e :: after -> harmless (called e) = false ->
  grant_seen appID userID before = true.
Proof.
  intros Hmode Hp He ->. apply exec_app in He as (p1 & w1 & He & Hnext).
  apply (exec_ghost _ (grant_step appID userID) _ _ _ _ _ false) in He.
  pose proof (wp_exec _ _ _ _ _ _ _ _ He (wp_guarded _ _ _ Hmode Hp)) as Hwp.
  inversion Hnext; subst. destruct Hwp as [Hpre _]. exact Hpre.
Qed.

(** ** Reset slots *)

(** The slots a reset claimed and gave back, whether its stamp is recorded, and the
    password ntfy last accepted from it. *)
Record slots := { claimed_slots : list string; freed_slots : list string; stamped : bool; reset_to : option string }.
Definition no_slots : slots := {| claimed_slots := []; freed_slots := []; stamped := false; reset_to := None |}.

Definition slot_step (g : slots) (e : event services) : slots :=
  match e with
  | Event (ClaimResetSlot _) (inl id) =>
    {| claimed_slots := claimed_slots g ++ [id]; freed_slots := freed_slots g; stamped := stamped g; reset_to := reset_to g |}
  | Event (ReleaseResetSlot _ id) _ =>
    {| claimed_slots := claimed_slots g; freed_slots := freed_slots g ++ [id]; stamped := stamped g; reset_to := reset_to g |}
  | Event (ClaimPasswordWithStamp _ _ _ _) (inl _) =>
    {| claimed_slots := claimed_slots g; freed_slots := freed_slots g; stamped := true; reset_to := reset_to g |}
  | Event (ChangePassword _ password) (Ok _) =>
    {| claimed_slots := claimed_slots g; freed_slots := freed_slots g; stamped := stamped g; reset_to := Some password |}
  | _ => g
  end.
Definition slots_of (tr : list (event services)) : slots := fold_left slot_step tr no_slots.

(** A password changes within a slot and after its stamp. *)
Definition in_slot (g : slots) (c : op services) : Prop :=
  match c with ChangePassword _ _ => claimed_slots g <> [] /\ freed_slots g = [] /\ stamped g = true | _ => True end.

Definition reset_account (r : outcome ResetPasswordResult) (g : slots) : Prop :=
  match r with
  | inl result =>
    (exists id, claimed_slots g = [id]) /\ freed_slots g = [] /\ reset_to g = Some (ResetPasswordValue result)
  | inr _ => claimed_slots g = freed_slots g /\ reset_to g = None
  end.

Lemma wp_ResetPassword request :
  wp in_slot (follow slot_step) (ResetPassword service request) no_slots reset_account.
Proof.
  unfold ResetPassword, checkAppGrant, reset_in_slot, change_password_claimed, recordStampAfterChange,
    releasePasswordClaim, releaseResetSlot, with_person_lock. cbv zeta.
  repeat first
    [ match goal with
      | |- wp _ _ (ask _) _ _ => apply wp_call; [done|let g := fresh "g" in intros ? g ->]
      | |- wp _ _ (try_ntfy _ _) _ _ => unfold try_ntfy
      | |- wp _ _ (try_step _ _) _ _ => unfold try_step
      | |- wp _ _ (when ?b _) _ _ => unfold when; destruct b
      end
    | wp_step ]; simplify_eq/=; try done.
  all: repeat case_match; naive_solver.
Qed.

(** A reset accounts for its slot: if it succeeds it has claimed one slot and keeps
    it, and the password it returns is the last one ntfy accepted; if it fails, ntfy
    accepted no password and every slot it claimed was given back.  A password is only
    ever changed with a slot held and after the stamp was recorded. *)
Theorem Reset_accounts {W} (answers : answering services W) w tr p' w' request :
  exec answers (ResetPassword service request) w tr p' w' ->
  (forall r, p' = Ret r -> reset_account r (slots_of tr)) /\
  (forall before e after, tr = before ++ e :: after -> in_slot (slots_of before) (called e)).
Proof.
  intros He. split.
  - intros r ->. apply (exec_ghost _ slot_step _ _ _ _ _ no_slots) in He.
    exact (wp_result _ _ _ _ _ _ _ _ He (wp_ResetPassword request)).
  - intros before e after ->. apply exec_app in He as (p1 & w1 & He & Hnext).
    apply (exec_ghost _ slot_step _ _ _ _ _ no_slots) in He.
    pose proof (wp_exec _ _ _ _ _ _ _ _ He (wp_ResetPassword request)) as Hwp.
    inversion Hnext; subst. by destruct Hwp as [Hpre _].
Qed.

(** ** Test notifications *)

(** The tokens a test notification minted and not yet removed, and the messages it
    published with what ntfy answered. *)
Record notified := { live_tokens : list string; published : list (Message * result string) }.
Definition not_notified : notified := {| live_tokens := []; published := [] |}.

Definition notified_step (g : notified) (e : event services) : notified :=
  match e with
  | Event (AddToken _ _) (Ok token) => {| live_tokens := live_tokens g ++ [token]; published := published g |}
  | Event (RemoveToken _ token) _ =>
    {| live_tokens := filter (fun t => t <> token) (live_tokens g); published := published g |}
  | Event (Publish message) r => {| live_tokens := live_tokens g; published := published g ++ [(message, r)] |}
  | _ => g
  end.
Definition notified_of (tr : list (event services)) : notified := fold_left notified_step tr not_notified.

(** What a dispatch publishes for the recipients it can resolve, and what it reports
    of each, given what ntfy answered. *)
Definition message_to (request : TestNotifyRequest) (token recipient : string) : option Message :=
  personHash ← resolve_recipient recipient;
  Some {| Topic := ntfycli.PersonChannelTopic (NotifyAppID request) personHash (Channel request);
          MessageToken := token; Body := NotifyMessage request; Title := NotifyTitle request |}.

Definition reported (r : RecipientResult) (recipient : string) (answer : option (result string)) : Prop :=
  Recipient r = recipient /\
  match answer with
  | None => OK r = false /\ RecipientError r = "invalid recipient"
  | Some (Ok id) => OK r = true /\ MessageID r = id /\ RecipientError r = EmptyString
  | Some (Err _) => OK r = false /\ MessageID r = EmptyString /\ RecipientError r = publishFailedMessage
  end.

(** One answer for each recipient, in order: none for one that does not resolve. *)
Definition dispatched (request : TestNotifyRequest) (token : string) (recipients : list string)
    (sent : list (Message * result string)) (results : list RecipientResult) : Prop :=
  exists answers : list (option (result string)),
    Forall3 reported results recipients answers /\
    sent = omap id (zip_with (fun recipient answer => m ← message_to request token recipient; r ← answer; Some (m, r))
             recipients answers) /\
    Forall2 (fun recipient answer => message_to request token recipient = None <-> answer = None) recipients answers.

Lemma wp_notify_all request token recipients g (Q : list RecipientResult -> notified -> Prop) :
  (forall sent results, dispatched request token recipients sent results ->
     Q results {| live_tokens := live_tokens g; published := published g ++ sent |}) ->
  wp free (follow notified_step) (notify_all request token recipients) g Q.
Proof.
  revert g Q. induction recipients as [|recipient rest IH]; intros g Q HQ; cbn [notify_all].
  - cbn [wp]. specialize (HQ [] []). rewrite app_nil_r in HQ. destruct g. apply HQ. exists []. by repeat constructor.
  - apply wp_bind. unfold notify_recipient. destruct (resolve_recipient recipient) as [h|] eqn:Er.
    + apply wp_bind, wp_call; [done|]. intros r g' ->. cbn [wp]. apply wp_bind, IH.
      intros sent results (answers & H3 & -> & H2). cbn [notified_step live_tokens published wp].
      rewrite <- app_assoc. apply HQ. exists (Some r :: answers).
      split; [|split].
      * constructor; [|done]. destruct r; by repeat split.
      * cbn. unfold message_to. rewrite Er. done.
      * constructor; [|done]. unfold message_to. by rewrite Er.
    + cbn [wp]. apply wp_bind, IH. intros sent results (answers & H3 & -> & H2). cbn [wp]. apply HQ.
      exists (None :: answers). split; [|split].
      * constructor; [|done]. by repeat split.
      * cbn. unfold message_to. by rewrite Er.
      * constructor; [|done]. unfold message_to. by rewrite Er.
Qed.

(** How a dispatch ends. *)
Definition notify_outcome (request : TestNotifyRequest) (r : outcome (list RecipientResult)) (g : notified) : Prop :=
  live_tokens g = [] /\
  match r with
  | inl results => exists token, dispatched request token (Recipients request) (published g) results
  | inr _ => published g = []
  end.

Lemma wp_TestNotify request :
  wp free (follow notified_step) (TestNotify service request) not_notified (notify_outcome request).
Proof.
  unfold TestNotify, ensure_publisher, try_ntfy. destruct (negb _); [done|]. cbv zeta.
  repeat match goal with
    | |- wp _ _ (notify_all _ _ _) _ _ => apply wp_notify_all; intros sent results Hsent
    | |- wp _ _ (ask _) _ _ => apply wp_call; [done|let g := fresh "g" in intros ? g ->]
    | _ => wp_step
    end; simplify_eq/=; try done.
  all: split; [|by eexists]; simpl; by rewrite filter_cons_False by auto.
Qed.

(** A test notification answers every recipient, in order, whatever ntfy answers:
    each that is a person hash or a valid email is sent the message on its own topic of
    the app and channel, with the one token minted for the dispatch, and reported as
    ntfy answered; the others are reported invalid and sent nothing.  When it returns,
    with an error or not, the token has been removed, and an error published nothing. *)
Theorem TestNotify_dispatches {W} (answers : answering services W) w tr r w' request :
  exec answers (TestNotify service request) w tr (Ret r) w' -> notify_outcome request r (notified_of tr).
Proof.
  intros He. apply (exec_ghost _ notified_step _ _ _ _ _ not_notified) in He.
  exact (wp_result _ _ _ _ _ _ _ _ He (wp_TestNotify request)).
Qed.

End props.
End provisioning_props.
