(* ===== verification/ProvisioningWorld.v ===== *)
(** * ProvisioningWorld

    The service over the person service's tables, ntfy answering anything.
    [answered]: the worker's statements handle every call of the person service.
    [answering_tables]: the person service may fail as well, refusing a call
    before it changes anything or losing the reply to one it handled; the world
    keeps these mishaps.  Then the stamp of a person follows the password: a
    provision that fails leaves none behind, a password change that fails leaves
    the tables as they were unless a release was refused or the reply to a claim
    lost, one that succeeds leaves a stamp. *)

From S2P Require Import Prelude Prog GoText Utf8 NtfyCli GoFormat PersonService Std Idents MessageValidate Provisioning.
Open Scope Z_scope.

Module provisioning_world.
Import personsvc worker worker_props.
Import provisioning.client.
Import provisioning.

(** A stamp given by the client, or the worker's own clock. *)
Definition client_stamp (stamp : string) : option string := or_null stamp.

(** The worker's answers.  Its clock writes no empty stamp, its uuids are new;
    [slot_clock] is what it reads when it claims a slot (a request claims one). *)
Definition answered (slot_clock : Z) : answering services tables := fun t c =>
  match c return service_reply c -> tables -> Prop with
  | UpsertPerson personHash email => fun r t' =>
    r = None /\ exists now, now <> EmptyString /\ t' = handlePutPerson personHash email now t
  | DeletePerson personHash => fun r t' => r = None /\ t' = handleDeletePerson personHash t
  | DeleteApp appID => fun r t' => r = None /\ t' = handleDeleteApp appID t
  | ClaimPasswordWithStamp personHash email mode stamp => fun r t' =>
    exists clock, clock <> EmptyString /\
      r = inl (handlePasswordClaim personHash email mode (client_stamp stamp) clock t).1 /\
      t' = (handlePasswordClaim personHash email mode (client_stamp stamp) clock t).2
  | ReleasePasswordClaim personHash claim restoreTo => fun r t' =>
    r = None /\ t' = (handlePasswordClaimRelease personHash (SetAt claim) (or_null restoreTo) t).2
  | ClaimResetSlot personHash => fun r t' =>
    exists resetId, password_resets t !! resetId = None /\
      t' = (handleClaimResetSlot personHash resetId slot_clock t).2 /\
      r = match (handleClaimResetSlot personHash resetId slot_clock t).1 with
          | inl id => inl id
          | inr seconds => inr (ResetLimitError seconds)
          end
  | ReleaseResetSlot personHash resetID => fun r t' => r = None /\ t' = handleReleaseResetSlot personHash resetID t
  | _ => fun _ t' => t' = t
  end.

(** The errors a call of the person service may be answered. *)
Definition is_error (c : service_op) : service_reply c -> Prop :=
  match c with
  | UpsertPerson _ _ | DeletePerson _ | DeleteApp _ | ReleasePasswordClaim _ _ _ | ReleaseResetSlot _ _ =>
    fun r => exists f : failure, r = Some f
  | ClaimPasswordWithStamp _ _ _ _ => fun r => exists f : failure, r = inr f
  | ClaimResetSlot _ => fun r => exists f : failure, r = inr f
  | _ => fun _ => False
  end.

(** The tables, and the calls answered by an error although the worker did not refuse
    them itself: each with whether it was handled (its reply was lost). *)
Record person_service := { rows : tables; mishaps : list (service_op * bool) }.

Definition answering_tables (slot_clock : Z) : answering services person_service := fun w c r w' =>
  (answered slot_clock (rows w) c r (rows w') /\ mishaps w' = mishaps w) \/
  (is_error c r /\ rows w' = rows w /\ mishaps w' = mishaps w ++ [(c, false)]) \/
  (is_error c r /\ (exists r', answered slot_clock (rows w) c r' (rows w')) /\ mishaps w' = mishaps w ++ [(c, true)]).

(** The mishaps that may leave something behind: a claim that was handled, a release
    that was not. *)
Definition troubling (m : service_op * bool) : bool :=
  match m with
  | (ClaimPasswordWithStamp _ _ _ _, handled) | (ClaimResetSlot _, handled) => handled
  | (ReleasePasswordClaim _ _ _, handled) | (ReleaseResetSlot _ _, handled) => negb handled
  | _ => false
  end.
Definition calm (ms : list (service_op * bool)) : Prop := Forall (fun m => troubling m = false) ms.

Lemma calm_app ms ms' : calm (ms ++ ms') <-> calm ms /\ calm ms'.
Proof. apply Forall_app. Qed.

Lemma calm_not ms m : calm ms -> m ∈ ms -> troubling m = true -> False.
Proof. intros Hc Hm Ht. rewrite (proj1 (Forall_forall _ _) Hc m Hm) in Ht. done. Qed.

Section world.
Context `{Std}.
Variable service : Service.
Hypothesis Hstore : personStoreConfigured service = true.
Variable slot_clock : Z.

(** The other persons' rows. *)
Definition others_kept (h : string) (t t' : tables) : Prop := forall h', h' <> h -> persons t' !! h' = persons t !! h'.

Definition stamped (t : tables) (h : string) : Prop := exists s, s <> EmptyString /\ stamp t h = Some s.

Lemma stamp_now_wf client clock : clock <> EmptyString -> default clock (client_stamp client) <> EmptyString.
Proof. unfold client_stamp, or_null. case_bool_decide; done. Qed.

Lemma claim_others h email mode client clock t :
  others_kept h t (handlePasswordClaim h email mode client clock t).2.
Proof.
  intros h' Hne. unfold handlePasswordClaim, claim_write. simpl.
  repeat case_match; try done; by rewrite lookup_insert_ne.
Qed.

Lemma release_others h at_ restoreTo t : others_kept h t (handlePasswordClaimRelease h at_ restoreTo t).2.
Proof.
  intros h' Hne. unfold handlePasswordClaimRelease. repeat case_match; try done. simpl. by rewrite lookup_insert_ne.
Qed.

Lemma release_resets h at_ restoreTo t :
  password_resets (handlePasswordClaimRelease h at_ restoreTo t).2 = password_resets t.
Proof. unfold handlePasswordClaimRelease. by repeat case_match. Qed.

(** ** Changing a password *)

(** How [change_password_claimed] ends.  No other person's row changes.  Failed, and
    nothing troubling happened: the person rows as they were.  Done: the person
    stamped, or a person without a row whose stamp the service refused to record. *)
Definition changed (h : string) (t : tables) (failed : bool) (t' : tables) (ms : list (service_op * bool)) : Prop :=
  others_kept h t t' /\
  if failed then calm ms -> persons t' = persons t
  else
    stamped t' h \/
    (persons t' = persons t /\ persons t !! h = None /\ exists email, (ClaimPassword h email ClaimAlways, false) ∈ ms).

Definition failed {A} (r : outcome A) : bool := match r with inr _ => true | inl _ => false end.

(** A call the person service does not see. *)
Definition elsewhere (c : service_op) : bool :=
  match c with
  | UpsertPerson _ _ | DeletePerson _ | DeleteApp _ | ClaimPasswordWithStamp _ _ _ _ | ReleasePasswordClaim _ _ _
  | ClaimResetSlot _ | ReleaseResetSlot _ _ => false
  | _ => true
  end.

Lemma answered_elsewhere w c r w' : elsewhere c = true -> answering_tables slot_clock w c r w' -> w' = w.
Proof.
  intros Hc Hans. destruct w as [t ms], w' as [t' ms'].
  destruct Hans as [[Ht Hm]|[[He _]|[He _]]]; simpl in *; destruct c; try done; simpl in *; by subst.
Qed.

Ltac world_call :=
  match goal with
  | |- wp _ _ (ask _) _ _ =>
    apply wp_call; [done|];
    let r := fresh "r" in let w := fresh "w" in let Hans := fresh "Hans" in
    intros r w Hans; apply answered_elsewhere in Hans; [subst w|done]
  | |- wp _ _ (with_person_lock _ _) _ _ => unfold with_person_lock
  | |- wp _ _ (try_ntfy _ _) _ _ => unfold try_ntfy
  | |- wp _ _ (try_step _ _) _ _ => unfold try_step
  end.

Lemma won_stamps h email mode client clock t claim t1 : clock <> EmptyString ->
  handlePasswordClaim h email mode (client_stamp client) clock t = (claim, t1) -> Claimed claim = true -> stamped t1 h.
Proof.
  intros Hclock Ecl Hc. destruct (claim_won _ _ _ _ _ _ _ _ Ecl Hc) as (_ & _ & Hp).
  unfold stamped, stamp. rewrite Hp, lookup_insert_eq. eexists. split; [by eapply stamp_now_wf|].
  simpl. by destruct (persons t !! h).
Qed.

(** The stamp recorded after the change, for a person who had no row. *)
Lemma wp_record h email w t ms0 Q : persons (rows w) = persons t -> persons t !! h = None ->
  (forall w' ms, changed h t false (rows w') (ms0 ++ ms) -> mishaps w' = mishaps w ++ ms ->
     password_resets (rows w') = password_resets (rows w) -> Q tt w') ->
  wp free (answering_tables slot_clock) (recordStampAfterChange h email) w Q.
Proof.
  intros Hp Hn HQ. unfold recordStampAfterChange. apply wp_bind, wp_call; [done|].
  assert (Hall : forall clock t1, clock <> EmptyString ->
    t1 = (handlePasswordClaim h email ClaimAlways (client_stamp EmptyString) clock (rows w)).2 ->
    others_kept h t t1 /\ stamped t1 h /\ password_resets t1 = password_resets (rows w)).
  { intros clock t1 Hclock ->. split; [intros h' Hne; rewrite <- Hp; by apply claim_others|]. split; [|done].
    by eapply won_stamps; [|apply surjective_pairing|]. }
  intros r w1 [[(clock & Hclock & _ & Ht1) Hm1]|[(_ & Ht1 & Hm1)|(_ & [r' (clock & Hclock & _ & Ht1)] & Hm1)]]; cbn [wp].
  - destruct (Hall _ _ Hclock Ht1) as (Ho & Hs & Hr). rewrite <- (app_nil_r (mishaps w)) in Hm1.
    eapply HQ; [|exact Hm1|done]. split; [done|by left].
  - eapply HQ; [|exact Hm1|by rewrite Ht1]. rewrite Ht1. split; [intros h' _; by rewrite Hp|]. right.
    split; [done|]. split; [done|]. exists email. apply elem_of_app. right. by left.
  - destruct (Hall _ _ Hclock Ht1) as (Ho & Hs & Hr). eapply HQ; [|exact Hm1|done]. split; [done|by left].
Qed.

(** The stamp a failed change gives back. *)
Lemma wp_give_back h email clock claim t w Q : stamps_wf t -> clock <> EmptyString ->
  handlePasswordClaim h email ClaimUpdateOnly (client_stamp EmptyString) clock t = (claim, rows w) ->
  Claimed claim = true -> is_Some (persons t !! h) ->
  (forall w' ms, changed h t true (rows w') ms -> mishaps w' = mishaps w ++ ms ->
     password_resets (rows w') = password_resets (rows w) -> Q tt w') ->
  wp free (answering_tables slot_clock) (releasePasswordClaim h claim (PreviousSetAt claim)) w Q.
Proof.
  intros Hwf Hclock Ecl Hc [p Hex] HQ. unfold releasePasswordClaim. apply wp_bind, wp_call; [done|].
  pose proof (claim_others h email ClaimUpdateOnly (client_stamp EmptyString) clock t) as Hothers. rewrite Ecl in Hothers.
  assert (Hall : forall t1, t1 = (handlePasswordClaimRelease h (SetAt claim) (or_null (PreviousSetAt claim)) (rows w)).2 ->
    persons t1 = persons t /\ password_resets t1 = password_resets (rows w)).
  { intros t1 ->. split; [|apply release_resets]. by rewrite (claim_release _ _ _ _ _ _ _ _ Hwf Ecl Hc), Hex. }
  intros r w1 [[[_ Ht1] Hm1]|[(_ & Ht1 & Hm1)|(_ & [r' [_ Ht1]] & Hm1)]]; cbn [wp].
  - destruct (Hall _ Ht1) as [Hp Hr]. rewrite <- (app_nil_r (mishaps w)) in Hm1.
    eapply HQ; [|exact Hm1|done]. split; [|done]. intros h' _. by rewrite Hp.
  - eapply HQ; [|exact Hm1|by rewrite Ht1]. rewrite Ht1. split; [done|].
    intros Hcalm. destruct (calm_not _ _ Hcalm (list_elem_of_here _ _) eq_refl).
  - destruct (Hall _ Ht1) as [Hp Hr]. eapply HQ; [|exact Hm1|done]. split; [|done]. intros h' _. by rewrite Hp.
Qed.

Lemma wp_change h email u password w Q : stamps_wf (rows w) ->
  (forall r w' ms, changed h (rows w) (failed r) (rows w') ms -> mishaps w' = mishaps w ++ ms ->
     password_resets (rows w') = password_resets (rows w) -> Q r w') ->
  wp free (answering_tables slot_clock) (change_password_claimed h email u password) w Q.
Proof.
  intros Hwf HQ. unfold change_password_claimed. apply wp_bind, wp_call; [done|].
  intros r w1 [[(clock & Hclock & -> & Ht1) Hm1]|[[[f ->] [Ht1 Hm1]]|[[f ->] [[r' (clock & Hclock & _ & Ht1)] Hm1]]]]; cbn [wp].
  2: { eapply HQ; [|exact Hm1|by rewrite Ht1]. split; [by rewrite Ht1|]. intros _. by rewrite Ht1. }
  2: { eapply HQ; [|exact Hm1|by rewrite Ht1]. split; [rewrite Ht1; apply claim_others|].
       intros Hcalm. destruct (calm_not _ _ Hcalm (list_elem_of_here _ _) eq_refl). }
  pose proof (claim_others h email ClaimUpdateOnly (client_stamp EmptyString) clock (rows w)) as Hothers.
  destruct (handlePasswordClaim h email ClaimUpdateOnly (client_stamp EmptyString) clock (rows w)) as [claim t1] eqn:Ecl.
  cbn [fst snd] in *. pose proof Ecl as Hcl. injection Hcl as Hclaim Hclaimed_rows.
  assert (Hsame : persons (rows w) !! h = None -> persons t1 = persons (rows w)).
  { intros Hn. rewrite <- Hclaimed_rows. unfold claim_write. simpl. by rewrite Hn. }
  assert (Hresets : password_resets t1 = password_resets (rows w)) by by rewrite <- Hclaimed_rows.
  assert (Hrow : RowExists claim = bool_decide (is_Some (persons (rows w) !! h)) /\
    Claimed claim = bool_decide (is_Some (persons (rows w) !! h))) by by rewrite <- Hclaim.
  destruct Hrow as [Hrow Hclaimed]. rewrite <- Ht1 in *. rewrite <- (app_nil_r (mishaps w)) in Hm1.
  apply wp_bind. world_call. unfold when. rewrite Hrow. destruct r as [[]|e].
  - apply wp_bind. case_bool_decide as Hex; cbn [negb].
    + cbn [wp]. eapply HQ; [|exact Hm1|done]. split; [done|]. left.
      by eapply won_stamps.
    + apply eq_None_not_Some in Hex. apply (wp_record _ _ _ (rows w) []); [by apply Hsame|done|].
      intros w' ms Hc Hm Hr. eapply HQ; [exact Hc| |by rewrite Hr]. by rewrite Hm, Hm1, app_nil_r.
  - apply wp_bind. rewrite Hclaimed, andb_diag. case_bool_decide as Hex.
    + eapply wp_give_back; [exact Hwf|exact Hclock|exact Ecl|done|done|].
      intros w' ms Hc Hm Hr. eapply HQ; [exact Hc| |by rewrite Hr]. by rewrite Hm, Hm1, app_nil_r.
    + cbn [wp]. eapply HQ; [|exact Hm1|done]. split; [done|]. intros _. apply Hsame. by apply eq_None_not_Some.
Qed.

(** How [SetPassword] ends, from the tables [t], with the mishaps of the request. *)
Definition set_outcome (h : string) (t : tables) (failed : bool) (t' : tables) (ms : list (service_op * bool)) : Prop :=
  changed h t failed t' ms /\ password_resets t' = password_resets t.

Lemma changed_nothing h t ms : changed h t true t ms.
Proof. by split. Qed.

Lemma wp_SetPassword request w : stamps_wf (rows w) -> mishaps w = [] ->
  wp free (answering_tables slot_clock) (SetPassword service request) w (fun r w' =>
    set_outcome (personhash.Hash (SetEmail request)) (rows w) (failed r) (rows w') (mishaps w')).
Proof.
  intros Hwf Hnone. unfold SetPassword, checkAppGrant. cbv zeta. rewrite Hstore. cbn [negb].
  repeat first [world_call | wp_step]; try (split; [apply changed_nothing|done]).
  apply wp_change; [done|]. intros res w' ms Hr Hm Hresets. rewrite Hnone in Hm.
  destruct res as [[]|f]; repeat first [world_call | wp_step]; by rewrite Hm.
Qed.

(** ** Resetting it *)

(** A claim of a slot drops the person's rows that have left the window, and only those. *)
Definition pruned (h : string) (rs : gmap string password_reset) : gmap string password_reset :=
  filter (fun kv => ~ (person_hash kv.2 = h /\ reset_at kv.2 <= slot_clock - RESET_WINDOW_MS)) rs.

Lemma claim_slot_exact h id t :
  persons (handleClaimResetSlot h id slot_clock t).2 = persons t /\
  match (handleClaimResetSlot h id slot_clock t).1 with
  | inl id' => id' = id /\ password_resets (handleClaimResetSlot h id slot_clock t).2 =
      <[id := {| person_hash := h; reset_at := slot_clock |}]> (pruned h (password_resets t))
  | inr _ => password_resets (handleClaimResetSlot h id slot_clock t).2 = pruned h (password_resets t)
  end.
Proof. unfold handleClaimResetSlot. cbv zeta. by case_match. Qed.

Lemma pruned_fresh h id (rs : gmap string password_reset) : rs !! id = None -> pruned h rs !! id = None.
Proof. intros Hid. apply map_lookup_filter_None_2. by left. Qed.

(** Giving a slot back removes that slot. *)
Lemma release_slot_exact h id now (rs : gmap string password_reset) : rs !! id = None ->
  filter (fun kv => ~ (kv.1 = id /\ person_hash kv.2 = h)) (<[id := {| person_hash := h; reset_at := now |}]> rs) = rs.
Proof.
  intros Hid. rewrite map_filter_insert_False by (intros Hne; by apply Hne). rewrite delete_id by done.
  apply map_filter_id. intros id' row Hrow [Hid' _]. simpl in Hid'. congruence.
Qed.

(** How [ResetPassword] ends.  No other person's slot changes.  Failed, and nothing
    troubling happened: the slots as they were, but for those that left the window when
    one was claimed.  Done: one new slot of the person, and the same. *)
Definition reset_outcome (h : string) (t : tables) (failed : bool) (t' : tables) (ms : list (service_op * bool)) : Prop :=
  changed h t failed t' ms /\
  (forall id row, person_hash row <> h -> password_resets t' !! id = Some row <-> password_resets t !! id = Some row) /\
  if failed
  then calm ms -> password_resets t' = password_resets t \/ password_resets t' = pruned h (password_resets t)
  else exists id, password_resets t !! id = None /\
    password_resets t' = <[id := {| person_hash := h; reset_at := slot_clock |}]> (pruned h (password_resets t)).

(** Slots of others, through a claim and a release. *)
Lemma pruned_others h rs id row : person_hash row <> h -> pruned h rs !! id = Some row <-> rs !! id = Some row.
Proof. intros Hne. unfold pruned. rewrite map_lookup_filter_Some. simpl. tauto. Qed.

Lemma slot_others h (rs : gmap string password_reset) id id' row : rs !! id = None -> person_hash row <> h ->
  <[id := {| person_hash := h; reset_at := slot_clock |}]> (pruned h rs) !! id' = Some row <-> rs !! id' = Some row.
Proof.
  intros Hid Hne. destruct (decide (id = id')) as [<-|Hd].
  - rewrite lookup_insert_eq, Hid. split; [intros [= <-]; by destruct Hne|done].
  - rewrite lookup_insert_ne by done. by apply pruned_others.
Qed.

(** The slot given back after a failure, whatever the change did before. *)
Lemma wp_release_slot h id t w Q :
  password_resets t !! id = None ->
  password_resets (rows w) = <[id := {| person_hash := h; reset_at := slot_clock |}]> (pruned h (password_resets t)) ->
  changed h t true (rows w) (mishaps w) ->
  (forall w', reset_outcome h t true (rows w') (mishaps w') -> Q tt w') ->
  wp free (answering_tables slot_clock) (releaseResetSlot h id) w Q.
Proof.
  intros Hid Hslots Hch HQ. unfold releaseResetSlot. apply wp_bind, wp_call; [done|].
  assert (Hgone : forall t1, t1 = handleReleaseResetSlot h id (rows w) ->
    persons t1 = persons (rows w) /\ password_resets t1 = pruned h (password_resets t)).
  { intros t1 ->. split; [done|]. unfold handleReleaseResetSlot. simpl. rewrite Hslots.
    apply release_slot_exact. by apply pruned_fresh. }
  assert (Hback : forall t1 ms', persons t1 = persons (rows w) -> password_resets t1 = pruned h (password_resets t) ->
    reset_outcome h t true t1 (mishaps w ++ ms')).
  { intros t1 ms' Hp Hr. destruct Hch as [Ho Hc]. split; [split|split].
    - intros h' Hne. rewrite Hp. by apply Ho.
    - intros Hcalm. rewrite Hp. apply Hc. by apply calm_app in Hcalm as [? _].
    - intros id' row Hne. rewrite Hr. by apply pruned_others.
    - intros _. by right. }
  intros r w1 [[[_ Ht1] Hm1]|[(_ & Ht1 & Hm1)|(_ & [r' [_ Ht1]] & Hm1)]]; cbn [wp]; apply HQ; rewrite Hm1.
  - destruct (Hgone _ Ht1) as [Hp Hr]. rewrite <- (app_nil_r (mishaps w)). by apply Hback.
  - destruct Hch as [Ho Hc]. rewrite Ht1. split; [split; [done|]|split].
    + intros Hcalm. apply Hc. by apply calm_app in Hcalm as [? _].
    + intros id' row Hne. rewrite Hslots. by apply slot_others.
    + intros Hcalm. destruct (calm_not _ (ReleaseResetSlot h id, false) Hcalm); [|done]. apply elem_of_app. right. by left.
  - destruct (Hgone _ Ht1) as [Hp Hr]. by apply Hback.
Qed.

(** A slot whose claim got no answer. *)
Lemma slot_unanswered h id t t' ms : password_resets t !! id = None -> t' = (handleClaimResetSlot h id slot_clock t).2 ->
  (ClaimResetSlot h, true) ∈ ms -> reset_outcome h t true t' ms.
Proof.
  intros Hid -> Hms. destruct (claim_slot_exact h id t) as [Hp Hslot].
  assert (Hno : forall P : Prop, calm ms -> P) by (intros P Hcalm; by destruct (calm_not _ _ Hcalm Hms)).
  split; [split; [intros h' _; by rewrite Hp|apply Hno]|]. split; [|apply Hno].
  intros id' row Hne. destruct (handleClaimResetSlot h id slot_clock t).1; [destruct Hslot as [_ ->]|rewrite Hslot].
  - by apply slot_others.
  - by apply pruned_others.
Qed.

Lemma changed_from h t1 t failed t' ms : persons t1 = persons t -> changed h t1 failed t' ms -> changed h t failed t' ms.
Proof.
  intros Hp [Ho Hc]. split; [intros h' Hne; rewrite <- Hp; by apply Ho|]. by rewrite Hp in Hc.
Qed.

Lemma wp_ResetPassword_world request w : stamps_wf (rows w) -> mishaps w = [] ->
  wp free (answering_tables slot_clock) (ResetPassword service request) w (fun r w' =>
    reset_outcome (personhash.Hash (ResetEmail request)) (rows w) (failed r) (rows w') (mishaps w')).
Proof.
  intros Hwf Hnone. unfold ResetPassword, checkAppGrant, reset_in_slot. cbv zeta. rewrite Hstore. cbn [negb].
  set (h := personhash.Hash (ResetEmail request)).
  assert (Hsame : forall ms, reset_outcome h (rows w) true (rows w) ms) by (intros ms; split; [done|]; split; [done|by left]).
  repeat first [world_call | wp_step]; try apply Hsame. apply wp_call; [done|].
  intros slot w1 [[(id & Hid & Ht1 & ->) Hm1]|[([f ->] & Ht1 & Hm1)|([f ->] & [r' (id & Hid & Ht1 & _)] & Hm1)]].
  2: { cbn [wp]. rewrite Ht1. apply Hsame. }
  2: { cbn [wp]. apply (slot_unanswered h id); [done..|]. rewrite Hm1. apply elem_of_app. right. by left. }
  destruct (claim_slot_exact h id (rows w)) as [Hpersons Hslot]. rewrite <- Ht1 in *.
  destruct (handleClaimResetSlot h id slot_clock (rows w)).1 as [id'|seconds].
  2: { cbn [wp]. split; [split; [intros h' _; by rewrite Hpersons|by intros _]|]. rewrite Hslot.
       split; [intros; by apply pruned_others|by right]. }
  destruct Hslot as [-> Hslot]. rewrite Hnone in Hm1.
  assert (Hwf1 : stamps_wf (rows w1)) by (unfold stamps_wf; by rewrite Hpersons).
  assert (Hnothing : changed h (rows w) true (rows w1) (mishaps w1)).
  { split; [intros h' _; by rewrite Hpersons|by intros _]. }
  repeat first [world_call | wp_step]; [|by eapply wp_release_slot].
  apply wp_change; [exact Hwf1|]. intros res w' ms Hch Hm Hr. rewrite Hm1 in Hm. simpl in Hm. rewrite <- Hm in Hch.
  rewrite Hslot in Hr. apply (changed_from _ _ (rows w)) in Hch; [|done].
  destruct res as [[]|f]; repeat first [world_call | wp_step]; [|by eapply wp_release_slot].
  split; [done|]. rewrite Hr. split; [intros; by apply slot_others|]. by exists id.
Qed.

(** ** Provision *)

Lemma put_person_stamp h email now t : stamp (handlePutPerson h email now t) h = stamp t h.
Proof. unfold stamp, handlePutPerson. simpl. rewrite lookup_insert_eq. by destruct (persons t !! h). Qed.

Lemma put_person_others h email now t : others_kept h t (handlePutPerson h email now t).
Proof. intros h' Hne. simpl. by rewrite lookup_insert_ne. Qed.

(** Here every call of the person service is handled and answered. *)
Ltac table_call :=
  match goal with
  | |- wp _ _ (ask _) _ _ => apply wp_call; [done|intros ? ? ->]
  | |- wp _ _ (with_person_lock _ _) _ _ => unfold with_person_lock
  | |- wp _ _ (try_ntfy _ _) _ _ => unfold try_ntfy
  | |- wp _ _ (try_step _ _) _ _ => unfold try_step
  end.

(** How the password half leaves the person, and the claim it holds. *)
Definition half (h : string) (t : tables) (r : outcome string * option PasswordClaim) (t' : tables) : Prop :=
  others_kept h t t' /\
  match r.2 with
  | Some claim => SetAt claim <> EmptyString /\ stamp t' h = Some (SetAt claim)
  | None => stamp t' h = stamp t h /\ match r.1 with inl pw => pw = EmptyString | inr _ => True end
  end.

Lemma claim_stamps h email mode client clock t : clock <> EmptyString ->
  let r := handlePasswordClaim h email mode (client_stamp client) clock t in
  others_kept h t r.2 /\
  (Claimed r.1 = true -> SetAt r.1 <> EmptyString /\ stamp r.2 h = Some (SetAt r.1)) /\
  (Claimed r.1 = false -> persons r.2 = persons t).
Proof.
  intros Hclock. destruct (handlePasswordClaim h email mode (client_stamp client) clock t) as [claim t1] eqn:Ecl. simpl.
  destruct (Claimed claim) eqn:Ec.
  - destruct (claim_won _ _ _ _ _ _ _ _ Ecl Ec) as (Hset & _ & Hp). split; [|split; [|done]].
    + intros h' Hne. rewrite Hp. by rewrite lookup_insert_ne.
    + intros _. rewrite Hset. split; [by apply stamp_now_wf|]. unfold stamp. rewrite Hp, lookup_insert_eq.
      by destruct (persons t !! h).
  - assert (Hsame : persons t1 = persons t).
    { injection Ecl as <- <-. simpl in *. unfold claim_write. destruct (persons t !! h) as [p|]; destruct mode; try done.
      simpl in Ec. rewrite bool_decide_eq_false_2; [done|]. apply negb_false_iff, bool_decide_eq_true in Ec. done. }
    split; [by intros h' _; rewrite Hsame|done].
Qed.

Lemma always_claims h email client clock t :
  Claimed (handlePasswordClaim h email ClaimAlways client clock t).1 = true.
Proof. done. Qed.

Lemma wp_half request h u t :
  wp free (answered slot_clock) (applySubscriberPassword service request h u) t (half h t).
Proof.
  unfold applySubscriberPassword, claim_if_unset, set_claimed_password, keep_password, healStaleStamp. rewrite Hstore. cbv zeta.
  do 2 apply wp_bind. apply wp_call; [done|]. intros now ? ->. apply wp_bind, wp_call; [done|].
  intros r t1 (clock & Hclock & -> & ->). cbn [wp].
  destruct (claim_stamps h (personhash.Normalize (ProvisionEmail request)) ClaimIfUnset (NewClaimStamp now) clock t Hclock)
    as (Hothers & Hwon & Hlost).
  destruct (handlePasswordClaim h _ ClaimIfUnset _ clock t) as [claim t1]. cbn [fst snd] in *.
  assert (Hkept : forall r, match r with inl pw => pw = EmptyString | inr _ => True end -> Claimed claim = false -> half h t (r, None) t1).
  { intros r Hr Hc. split; [done|]. split; [|done]. unfold stamp. by rewrite Hlost. }
  destruct (Claimed claim) eqn:Ec.
  - destruct (Hwon eq_refl). repeat first [table_call | wp_step]; done.
  - specialize (Hlost eq_refl). repeat first [table_call | wp_step]; try (by apply Hkept). apply wp_call; [done|].
    intros r2 t2 (clock2 & Hclock2 & -> & ->).
    destruct (claim_stamps h (personhash.Normalize (ProvisionEmail request)) ClaimAlways EmptyString clock2 t1 Hclock2)
      as (Hothers2 & Hwon2 & _). destruct (Hwon2 (always_claims _ _ _ _ _)) as [Hs1 Hs2].
    destruct (handlePasswordClaim h _ ClaimAlways _ clock2 t1) as [claim2 t2]. cbn [fst snd] in *.
    assert (others_kept h t t2) by (intros h' Hne; by rewrite Hothers2, Hlost).
    repeat first [table_call | wp_step]; done.
Qed.

(** How a provision leaves the person. *)
Definition provisioned (h : string) (t : tables) (r : outcome ProvisionResult) (t' : tables) : Prop :=
  others_kept h t t' /\
  match r with
  | inl result =>
    (stamp t' h = stamp t h /\ Password result = EmptyString) \/ exists s, s <> EmptyString /\ stamp t' h = Some s
  | inr _ => stamp t' h = None \/ stamp t' h = stamp t h
  end.

Lemma wp_remove_world g userID label tokens (Q : outcome unit -> tables -> Prop) :
  (forall r, Q r g) -> wp free (answered slot_clock) (remove_labelled userID label tokens) g Q.
Proof.
  intros HQ. induction tokens as [|t tokens IH]; cbn [remove_labelled]; [apply HQ|].
  destruct (String.eqb _ _); [|done]. split; [done|]. intros [[]|e] g' ->; [done|apply HQ].
Qed.

Lemma wp_grant_world request h u pw t (Q : outcome ProvisionResult -> tables -> Prop) :
  (forall r t', Password r = pw -> others_kept h t t' -> stamp t' h = stamp t h -> Q (inl r) t') ->
  (forall e, Q (inr e) t) ->
  wp free (answered slot_clock) (grant_and_mint service request h u pw) t Q.
Proof.
  intros Hok Herr. unfold grant_and_mint, dualWritePerson, when. rewrite Hstore. cbv zeta.
  repeat first
    [ match goal with |- wp _ _ (remove_labelled _ _ _) _ _ => apply wp_remove_world; intros [?|?] end
    | table_call | wp_step ]; try apply Herr.
  apply wp_call; [done|]. intros ? t' [-> (now & _ & ->)]. apply Hok; [done|apply put_person_others|apply put_person_stamp].
Qed.

Lemma release_null h claim t : SetAt claim <> EmptyString -> stamp t h = Some (SetAt claim) ->
  let t' := (handlePasswordClaimRelease h (SetAt claim) (or_null EmptyString) t).2 in
  stamp t' h = None /\ others_kept h t t'.
Proof.
  intros Hne Hs. unfold stamp in *. destruct (persons t !! h) as [p|] eqn:Ep; [|done]. simpl in Hs.
  assert (Hp : persons t !! h = Some (with_stamp (Some (SetAt claim)) p)) by (rewrite Ep, <- Hs; by destruct p).
  cbv zeta. unfold others_kept. rewrite (release_set _ p) by done. split; [by rewrite lookup_insert_eq|].
  intros h' Hne'. by rewrite lookup_insert_ne.
Qed.

Lemma wp_Provision_world request t :
  wp free (answered slot_clock) (Provision service request) t (provisioned (personhash.Hash (ProvisionEmail request)) t).
Proof.
  unfold Provision, releasePasswordClaim. cbv zeta. set (h := personhash.Hash (ProvisionEmail request)).
  unfold with_person_lock. apply wp_bind, wp_call; [done|]. intros [] ? ->. apply wp_bind, wp_bind.
  eapply wp_mono; [|apply wp_half]. intros [password held] t1 [Hothers Hheld]. simpl in Hheld.
  assert (Hrelease : forall e, wp free (answered slot_clock)
      (_ ← match held with Some claim => _ ← ask (ReleasePasswordClaim h claim EmptyString); Ret tt | None => Ret tt end; Ret (inr e))
      t1 (fun (a : outcome ProvisionResult) t' => wp free (answered slot_clock) (_ ← ask (unlock h); Ret a) t' (provisioned h t))).
  { intros e. destruct held as [claim|]; repeat first [table_call | wp_step].
    - destruct Hheld as [Hne Hs]. apply wp_call; [done|]. intros ? t2 [-> ->].
      destruct (release_null h claim t1 Hne Hs) as [Hnull Hothers2].
      repeat first [table_call | wp_step]. split; [|by left]. intros h' Hh. by rewrite Hothers2, Hothers.
    - split; [done|]. right. apply Hheld. }
  destruct password as [pw|e]; apply wp_bind; [|by apply Hrelease].
  apply wp_grant_world; [|intros e; by destruct held; apply (Hrelease e)].
  intros r t' Hpw Hothers2 Hstamp. repeat first [table_call | wp_step]; (split; [intros h' Hh; by rewrite Hothers2, Hothers|]).
  rewrite Hstamp, Hpw. destruct held as [claim|]; [right; by exists (SetAt claim)|by left].
Qed.

(** With the person service answering every call from its tables and ntfy answering
    anything, a person's stamp follows the person's password.  A provision that fails leaves
    the person unstamped or as found, and no other person's row changed; one that
    returns no password left the stamp alone, otherwise the person is stamped. *)
Theorem Provision_stamps request t tr r t' :
  exec (answered slot_clock) (Provision service request) t tr (Ret r) t' ->
  provisioned (personhash.Hash (ProvisionEmail request)) t r t'.
Proof. intros He. exact (wp_result _ _ _ _ _ _ _ _ He (wp_Provision_world request t)). Qed.

(** C12: with the person service working on its tables, refusing a call or losing the
    reply to one at any point, and ntfy answering anything, setting or resetting a
    password is all or nothing there.  If it fails, and neither a release was refused
    nor the reply to a claim lost (the failures [service.go] can only log), every
    person row is as it was and so is every reset slot, but for the person's own that
    had left the window when the reset claimed one.  If it succeeds, the person is
    stamped (unless there is no row and the service refused to record the stamp
    afterwards), and a reset has kept exactly one new slot of the person.  Whatever
    fails, no other person's row or slot changes. *)
Theorem password_changes_atomic w : stamps_wf (rows w) -> mishaps w = [] ->
  (forall request tr r w', exec (answering_tables slot_clock) (SetPassword service request) w tr (Ret r) w' ->
     set_outcome (personhash.Hash (SetEmail request)) (rows w) (failed r) (rows w') (mishaps w')) /\
  (forall request tr r w', exec (answering_tables slot_clock) (ResetPassword service request) w tr (Ret r) w' ->
     reset_outcome (personhash.Hash (ResetEmail request)) (rows w) (failed r) (rows w') (mishaps w')).
Proof.
  intros Hwf Hnone. split; intros request tr r w' He.
  - exact (wp_result _ _ _ _ _ _ _ _ He (wp_SetPassword request w Hwf Hnone)).
  - exact (wp_result _ _ _ _ _ _ _ _ He (wp_ResetPassword_world request w Hwf Hnone)).
Qed.
End world.
End provisioning_world.
