(* ===== verification/ProvisioningNtfy.v ===== *)
(** * ProvisioningNtfy

    The service over ntfy's users.  ntfy is not part of the repository: [documented]
    states what its commands do to the users, their grants and their tokens when they
    succeed, and what its "already exists" and "does not exist" mean; a command that
    fails otherwise may have done anything.  A server that behaves so is left by a
    provision, a deprovision and the removal of an app exactly as each promises. *)

From S2P Require Import Prelude GoText Utf8 Std GoFormat Idents MessageValidate Prog NtfyCli PersonService Provisioning.
Open Scope Z_scope.

Module provisioning_ntfy.
Import provisioning.client.
Import provisioning.

Record account := { grants : gmap string ntfycli.Permission; tokens : list ntfycli.Token }.
Definition new_account : account := {| grants := ∅; tokens := [] |}.

Abbreviation users := (gmap string account).

Definition set_grants (f : gmap string ntfycli.Permission -> gmap string ntfycli.Permission) (a : account) : account :=
  {| grants := f (grants a); tokens := tokens a |}.
Definition set_tokens (f : list ntfycli.Token -> list ntfycli.Token) (a : account) : account :=
  {| grants := grants a; tokens := f (tokens a) |}.

(** What a listing shows of a user. *)
Definition shows (user : ntfycli.User) (a : account) : Prop :=
  forall p, p ∈ ntfycli.TopicPatterns user <-> is_Some (grants a !! p).

(** A command answered "does not exist" or "already exists" changes nothing. *)
Definition refused (target : error) (e : error) (why : Prop) (v v' : users) : Prop :=
  errors_Is e target = true -> why /\ v' = v.

(** [documented v c r v']: the command [c] on the users [v], answered [r], may leave [v']. *)
Definition documented : answering services users := fun v c =>
  match c return service_reply c -> users -> Prop with
  | AddUser u _ => fun r v' =>
    match r with
    | Ok _ => v !! u = None /\ v' = <[u := new_account]> v
    | Err e => refused ntfycli.ErrAlreadyExists e (is_Some (v !! u)) v v'
    end
  | ChangePassword u _ => fun r v' => match r with Ok _ => v' = v | Err _ => True end
  | client.DeleteUser u => fun r v' =>
    match r with
    | Ok _ => v' = delete u v
    | Err e => refused ntfycli.ErrNotFound e (v !! u = None) v v'
    end
  | GrantAccess u pattern permission => fun r v' =>
    match r with
    | Ok _ => exists a, v !! u = Some a /\ v' = <[u := set_grants <[pattern := permission]> a]> v
    | Err _ => True
    end
  | ResetAccess u pattern => fun r v' =>
    match r with
    | Ok _ => exists a, v !! u = Some a /\ v' = <[u := set_grants (delete pattern) a]> v
    | Err e => refused ntfycli.ErrNotFound e (forall a, v !! u = Some a -> grants a !! pattern = None) v v'
    end
  | AddToken u label => fun r v' =>
    match r with
    | Ok token =>
      exists a, v !! u = Some a /\
        v' = <[u := set_tokens (fun ts => ts ++ [{| ntfycli.Value := token; ntfycli.Label := label |}]) a]> v
    | Err _ => True
    end
  | ListTokens u => fun r v' =>
    match r with Ok ts => v' = v /\ exists a, v !! u = Some a /\ tokens a = ts | Err _ => True end
  | RemoveToken u token => fun r v' =>
    match r with
    | Ok _ => exists a, v !! u = Some a /\ v' = <[u := set_tokens (filter (fun t => ntfycli.Value t <> token)) a]> v
    | Err _ => True
    end
  | client.ListUsers => fun r v' =>
    match r with
    | Ok listed =>
      v' = v /\ NoDup (ntfycli.Name <$> listed) /\
      (forall u, u ∈ (ntfycli.Name <$> listed) <-> is_Some (v !! u)) /\
      Forall (fun user => exists a, v !! ntfycli.Name user = Some a /\ shows user a) listed
    | Err _ => True
    end
  | GetUser u => fun r v' =>
    v' = v /\
    match r with
    | Ok user => exists a, v !! u = Some a /\ shows user a
    | Err e => errors_Is e ntfycli.ErrNotFound = true -> v !! u = None
    end
  | _ => fun _ v' => v' = v
  end.

Section ntfy.
Context `{Std}.
Variable service : Service.

(** The tokens removed one by one are those of the label, when values are distinct
    under labels: removing by value removes them all. *)
Definition without_label (label : string) (ts : list ntfycli.Token) : list ntfycli.Token :=
  filter (fun t => ntfycli.Label t <> label) ts.

(** A token value belongs to one token. *)
Definition tokens_distinct (a : account) : Prop := NoDup (ntfycli.Value <$> tokens a).

Definition distinct (v : users) : Prop := map_Forall (fun _ a => tokens_distinct a) v.

Lemma remove_listed label rest kept : NoDup (ntfycli.Value <$> (kept ++ rest)) ->
  fold_left (fun ts t => if String.eqb (ntfycli.Label t) label then filter (fun t' => ntfycli.Value t' <> ntfycli.Value t) ts else ts)
    rest (kept ++ rest) = kept ++ without_label label rest.
Proof.
  revert kept. induction rest as [|t rest IH]; intros kept Hnd; simpl; [done|].
  unfold without_label. rewrite filter_cons. destruct (String.eqb_spec (ntfycli.Label t) label) as [Hl|Hl].
  - rewrite decide_False by tauto. rewrite filter_app, filter_cons, decide_False by tauto.
    rewrite fmap_app in Hnd. simpl in Hnd. apply NoDup_app in Hnd as (Hk & Hd & Hr). apply NoDup_cons in Hr as [Ht Hr].
    rewrite (filter_id (fun t' => ntfycli.Value t' <> ntfycli.Value t) kept),
      (filter_id (fun t' => ntfycli.Value t' <> ntfycli.Value t) rest).
    + apply IH. rewrite fmap_app. apply NoDup_app. split; [done|]. split; [|done]. intros x Hx Hx'. by apply (Hd x Hx); right.
    + apply Forall_forall. intros t' Ht' Heq. apply Ht. rewrite <- Heq. by apply list_elem_of_fmap_2.
    + apply Forall_forall. intros t' Ht' Heq. apply (Hd (ntfycli.Value t')); [by apply list_elem_of_fmap_2|]. rewrite Heq. left.
  - rewrite decide_True by done. change (t :: filter _ rest) with ([t] ++ without_label label rest). rewrite app_assoc.
    rewrite <- IH.
    + by rewrite <- app_assoc.
    + by rewrite <- app_assoc.
Qed.

Lemma wp_remove_ntfy u label ts v a (Q : outcome unit -> users -> Prop) :
  v !! u = Some a ->
  (forall e v', Q (inr e) v') ->
  Q (inl tt) (<[u := set_tokens (fun ts' =>
     fold_left (fun ts t => if String.eqb (ntfycli.Label t) label then filter (fun t' => ntfycli.Value t' <> ntfycli.Value t) ts else ts) ts ts') a]> v) ->
  wp free documented (remove_labelled u label ts) v Q.
Proof.
  revert v a. induction ts as [|t ts IH]; intros v a Hu Herr HQ; cbn [remove_labelled].
  - simpl in HQ. rewrite insert_id in HQ; [exact HQ|]. rewrite Hu. by destruct a.
  - simpl in HQ. destruct (String.eqb _ _).
    + apply wp_bind, wp_call; [done|]. intros [[]|e] v1 Hr; [|by apply Herr].
      destruct Hr as (a' & Hu' & ->). rewrite Hu in Hu'. injection Hu' as <-.
      eapply IH; [apply lookup_insert_eq|done|]. by rewrite insert_insert_eq.
    + by eapply IH.
Qed.

(** ** Provision *)

(** A provisioned account: the app's two patterns readable, one token of the app. *)
Definition provisioned_account (appID h token : string) (a : account) : account :=
  {| grants := <[ntfycli.BroadcastTopicPattern appID := ntfycli.PermissionReadOnly]>
       (<[ntfycli.TopicPattern appID h := ntfycli.PermissionReadOnly]> (grants a));
     tokens := without_label appID (tokens a) ++ [{| ntfycli.Value := token; ntfycli.Label := appID |}] |}.

Ltac ntfy_step :=
  match goal with
  | |- wp _ _ (with_person_lock _ _) _ _ => unfold with_person_lock
  | |- wp _ _ (try_ntfy _ _) _ _ => unfold try_ntfy
  | |- wp _ _ (try_step _ _) _ _ => unfold try_step
  | |- wp _ _ (when ?b _) _ _ => unfold when; destruct b
  | |- wp _ _ (ask (AddUser _ _)) _ _ => apply wp_call; [done|intros [?|?] ? ?]
  | |- wp _ _ (ask (ChangePassword _ _)) _ _ => apply wp_call; [done|intros [?|?] ? ?]
  | |- wp _ _ (ask _) _ _ => apply wp_call; [done|intros ? ? ->]
  | _ => wp_step
  end.

(** The password half makes sure of the user, and of nothing else. *)
Definition ensured (u : string) (v v' : users) : Prop := v' = <[u := default new_account (v !! u)]> v.

Lemma ensured_added u v : v !! u = None -> ensured u v (<[u := new_account]> v).
Proof. unfold ensured. by intros ->. Qed.

Lemma ensured_exists u v : is_Some (v !! u) -> ensured u v v.
Proof. intros [a Ha]. unfold ensured. rewrite Ha. simpl. by rewrite insert_id. Qed.

Lemma wp_password_ntfy request h u v :
  wp free documented (applySubscriberPassword service request h u) v
    (fun r v' => match r.1 with inl _ => ensured u v v' | inr _ => True end).
Proof.
  unfold applySubscriberPassword, claim_if_unset, set_claimed_password, keep_password, healStaleStamp, releasePasswordClaim.
  cbv zeta. repeat ntfy_step; simplify_eq/=; try done.
  all: repeat match goal with
    | E : errors_Is ?e _ = true, R : refused _ ?e _ _ _ |- _ => destruct (R E) as [? ->]; clear R
    end; destruct_and?; subst; auto using ensured_added, ensured_exists.
Qed.

(** Removing what was listed under a label leaves the other tokens. *)
Lemma wp_remove_all u label v a (Q : outcome unit -> users -> Prop) :
  v !! u = Some a -> tokens_distinct a -> (forall e v', Q (inr e) v') ->
  Q (inl tt) (<[u := set_tokens (without_label label) a]> v) ->
  wp free documented (remove_labelled u label (tokens a)) v Q.
Proof.
  intros Hu Hd Herr HQ. eapply wp_remove_ntfy; [exact Hu|done|].
  unfold set_tokens in *. pose proof (remove_listed label (tokens a) [] Hd) as E. cbn [app] in E. by rewrite E.
Qed.

Lemma wp_grant_ntfy request h u pw v a (Q : outcome ProvisionResult -> users -> Prop) :
  v !! u = Some a -> tokens_distinct a -> (forall e v', Q (inr e) v') ->
  (forall r, UserID r = u -> PersonHash r = h -> Password r = pw ->
     Q (inl r) (<[u := provisioned_account (ProvisionAppID request) h (Token r) a]> v)) ->
  wp free documented (grant_and_mint service request h u pw) v Q.
Proof.
  intros Hu Hd Herr HQ. unfold grant_and_mint, dualWritePerson. cbv zeta. unfold try_ntfy, try_step.
  apply wp_bind, wp_call; [done|]. intros [[]|e] v1 Hr; [|apply Herr]. destruct Hr as (a1 & Ha1 & ->). rewrite Hu in Ha1. injection Ha1 as <-.
  apply wp_bind, wp_call; [done|]. intros [[]|e] v2 Hr; [|apply Herr]. destruct Hr as (a2 & Ha2 & ->).
  rewrite lookup_insert_eq in Ha2. injection Ha2 as <-. rewrite insert_insert_eq.
  apply wp_bind, wp_call; [done|]. intros [ts|e] v3 Hr; [|apply Herr]. destruct Hr as (-> & a3 & Ha3 & <-).
  rewrite lookup_insert_eq in Ha3. injection Ha3 as <-.
  apply wp_bind. eapply wp_remove_all; [apply lookup_insert_eq|done|intros; apply Herr|]. rewrite insert_insert_eq.
  apply wp_bind, wp_call; [done|]. intros [token|e] v4 Hr; [|apply Herr]. destruct Hr as (a4 & Ha4 & ->).
  rewrite lookup_insert_eq in Ha4. injection Ha4 as <-. rewrite insert_insert_eq.
  apply wp_bind. unfold when. destruct (personStoreConfigured service); [apply wp_bind, wp_call; [done|]; intros ? ? ->|].
  - cbn [wp]. by apply (HQ {| UserID := u; AppID := _; PersonHash := h; TopicPattern := _; BroadcastTopic := _; Token := token; Password := pw |}).
  - cbn [wp]. by apply (HQ {| UserID := u; AppID := _; PersonHash := h; TopicPattern := _; BroadcastTopic := _; Token := token; Password := pw |}).
Qed.

Definition provision_post (request : ProvisionRequest) (v : users) (r : outcome ProvisionResult) (v' : users) : Prop :=
  let u := personhash.NtfyUser (ProvisionEmail request) in
  match r with
  | inl result =>
    v' = <[u := provisioned_account (ProvisionAppID request) (personhash.Hash (ProvisionEmail request)) (Token result)
              (default new_account (v !! u))]> v
  | inr _ => True
  end.

Lemma wp_Provision_ntfy request v : distinct v ->
  wp free documented (Provision service request) v (provision_post request v).
Proof.
  intros Hd. unfold Provision, releasePasswordClaim, with_person_lock. cbv zeta.
  apply wp_bind, wp_call; [done|]. intros [] ? ->. apply wp_bind, wp_bind.
  set (u := personhash.NtfyUser (ProvisionEmail request)).
  assert (Hfail : forall (held : option PasswordClaim) e v',
    wp free documented (_ ← match held with Some claim => _ ← ask (ReleasePasswordClaim (personhash.Hash (ProvisionEmail request)) claim EmptyString); Ret tt | None => Ret tt end;
                        Ret (inr e)) v'
      (fun (a : outcome ProvisionResult) w => wp free documented (_ ← ask (unlock (personhash.Hash (ProvisionEmail request))); Ret a) w (provision_post request v))).
  { intros held e v'. destruct held; repeat ntfy_step; done. }
  eapply wp_mono; [|apply wp_password_ntfy]. intros [[pw|e] held] v1 Hensured; cbn [fst] in Hensured.
  - apply wp_bind. eapply wp_grant_ntfy.
    + rewrite Hensured. apply lookup_insert_eq.
    + destruct (v !! u) as [a|] eqn:Ea; simpl; [exact (Hd _ _ Ea)|constructor].
    + intros e v'. specialize (Hfail held e v'). by destruct held.
    + intros r _ _ _. rewrite Hensured, insert_insert_eq. destruct held; repeat ntfy_step; done.
  - apply wp_bind. apply (Hfail held e v1).
Qed.

(** ** Deprovision *)

(** An account without the app: its two patterns and its tokens revoked; nothing is
    left of a user without a grant. *)
Definition revoked (appID u : string) (a : account) : account :=
  {| grants := delete (ntfycli.BroadcastTopicPattern appID) (delete (ntfycli.TopicPattern appID (trim_user_prefix u)) (grants a));
     tokens := without_label appID (tokens a) |}.

Definition without_app (appID u : string) (a : account) : option account :=
  if bool_decide (grants (revoked appID u a) = ∅) then None else Some (revoked appID u a).

Definition deprovisioned (appID u : string) (v : users) : users :=
  match v !! u with
  | Some a => match without_app appID u a with Some a' => <[u := a']> v | None => delete u v end
  | None => v
  end.

Lemma shows_empty user a : shows user a -> ntfycli.TopicPatterns user = [] <-> grants a = ∅.
Proof.
  intros Hs. split.
  - intros He. apply map_empty. intros p. apply eq_None_not_Some. intros Hp. apply Hs in Hp. rewrite He in Hp.
    by apply not_elem_of_nil in Hp.
  - intros He. destruct (ntfycli.TopicPatterns user) as [|p ps] eqn:E; [done|]. exfalso.
    assert (is_Some (grants a !! p)) as [? Hp] by (apply Hs; rewrite E; left). by rewrite He, lookup_empty in Hp.
Qed.

Lemma wp_drop_ntfy u v a (Q : outcome unit -> users -> Prop) :
  v !! u = Some a -> (forall e v', Q (inr e) v') ->
  Q (inl tt) (if bool_decide (grants a = ∅) then delete u v else v) ->
  wp free documented (drop_if_empty service u) v Q.
Proof.
  intros Hu Herr HQ. unfold drop_if_empty, dualDeletePerson. apply wp_bind, wp_call; [done|].
  intros [user|e] v1 [-> Hr]; [|].
  - destruct Hr as (a' & Ha' & Hshows). rewrite Hu in Ha'. injection Ha' as <-.
    pose proof (shows_empty _ _ Hshows) as He. destruct (bool_decide (ntfycli.TopicPatterns user = [])) eqn:E.
    + rewrite bool_decide_eq_true_2 in HQ by (apply He; by apply bool_decide_eq_true in E).
      unfold try_ntfy. apply wp_bind, wp_call; [done|]. intros [[]|e] v2 Hr; [|apply Herr]. hnf in Hr. subst v2.
      repeat ntfy_step; done.
    + rewrite bool_decide_eq_false_2 in HQ by (rewrite <- He; by apply bool_decide_eq_false in E). exact HQ.
  - cbn [wp]. destruct (errors_Is e _) eqn:Ee; [|apply Herr]. rewrite (Hr eq_refl) in Hu. done.
Qed.

Lemma wp_remove_and_drop appID u v a (Q : outcome unit -> users -> Prop) :
  v !! u = Some a -> tokens_distinct a -> (forall e v', Q (inr e) v') ->
  (let a' := set_tokens (without_label appID) a in Q (inl tt) (if bool_decide (grants a' = ∅) then delete u v else <[u := a']> v)) ->
  wp free documented (remove_tokens_and_drop service appID u) v Q.
Proof.
  intros Hu Hdist Herr HQ. unfold remove_tokens_and_drop, try_ntfy, try_step, with_person_lock.
  apply wp_bind, wp_call; [done|]. intros [ts|e] v2 Hr; [|apply Herr].
  destruct Hr as (-> & a1 & Ha1 & <-). rewrite Hu in Ha1. injection Ha1 as <-.
  apply wp_bind. eapply wp_remove_all; [exact Hu|done|intros; apply Herr|].
  apply wp_bind, wp_call; [done|]. intros [] ? ->. apply wp_bind. eapply wp_drop_ntfy; [apply lookup_insert_eq| |].
  - intros e v'. apply wp_bind, wp_call; [done|]. intros [] ? ->. apply Herr.
  - apply wp_bind, wp_call; [done|]. intros [] ? ->. cbn [wp]. cbv zeta in HQ.
    destruct (bool_decide _); [|done]. by rewrite delete_insert_eq.
Qed.

Lemma wp_revoke_app appID u v (Q : outcome unit -> users -> Prop) :
  distinct v -> (forall e v', Q (inr e) v') -> Q (inl tt) (deprovisioned appID u v) ->
  wp free documented (revoke_app service appID u) v Q.
Proof.
  intros Hd Herr HQ. unfold revoke_app. cbv zeta. unfold try_ntfy.
  apply wp_bind, wp_call; [done|]. intros [[]|e] v1 Hr; [|apply Herr].
  destruct Hr as (a & Hu & ->). pose proof (Hd _ _ Hu) as Hdist.
  unfold deprovisioned, without_app in HQ. rewrite Hu in HQ.
  assert (Htail : forall a', grants a' = grants (revoked appID u a) -> tokens a' = tokens a ->
    wp free documented (remove_tokens_and_drop service appID u) (<[u := a']> v) Q).
  { intros a' Hg Ht. eapply wp_remove_and_drop; [apply lookup_insert_eq| |done|].
    - unfold tokens_distinct. by rewrite Ht.
    - cbv zeta. rewrite insert_insert_eq, delete_insert_eq.
      replace (set_tokens (without_label appID) a') with (revoked appID u a); [by destruct (bool_decide _)|].
      unfold set_tokens. rewrite Hg, Ht. done. }
  apply wp_bind, wp_call; [done|]. intros [[]|e] v1 Hr.
  - destruct Hr as (a1 & Ha1 & ->). rewrite lookup_insert_eq in Ha1. injection Ha1 as <-. rewrite insert_insert_eq.
    by apply Htail.
  - destruct (errors_Is e _) eqn:Ee; [|apply Herr]. destruct (Hr Ee) as [Hnone ->].
    apply Htail; [|done]. simpl. symmetry. apply delete_id. by specialize (Hnone _ (lookup_insert_eq _ _ _)).
Qed.

Lemma wp_Deprovision_ntfy request v (Q : outcome unit -> users -> Prop) :
  distinct v -> (forall e v', Q (inr e) v') -> Q (inl tt) (deprovisioned (DeprovisionAppID request) (NtfyUserID request) v) ->
  wp free documented (Deprovision service request) v Q.
Proof.
  intros Hd Herr HQ. unfold Deprovision, checkAppGrant, try_step. cbv zeta. do 2 apply wp_bind. apply wp_call; [done|].
  intros looked v1 [-> Hlook]. cbn [wp]. destruct looked as [user|e].
  - destruct (userHasAppGrant user _); [by apply wp_revoke_app|]. destruct (_ =? _); [by apply wp_revoke_app|apply Herr].
  - destruct (errors_Is e _) eqn:Ee; simpl.
    + unfold deprovisioned in HQ. by rewrite (Hlook eq_refl) in HQ.
    + destruct (_ =? _); [by apply wp_revoke_app|apply Herr].
Qed.

(** ** DeprovisionApp *)

(** Whether an account holds a grant that makes it a subscriber of the app. *)
Definition subscribes (appID : string) (a : account) : bool :=
  userHasAppGrant {| ntfycli.Name := EmptyString; ntfycli.TopicPatterns := (map_to_list (grants a)).*1 |} appID.

Lemma existsb_shown (f : string -> bool) user a : shows user a ->
  existsb f (ntfycli.TopicPatterns user) = existsb f (map_to_list (grants a)).*1.
Proof.
  intros Hs. apply eq_bool_prop_intro. rewrite !Is_true_true, !existsb_exists. split; intros (p & Hin & Hp); exists p; (split; [|done]);
    rewrite <- list_elem_of_In in *.
  - apply Hs in Hin as [perm Hperm]. apply list_elem_of_fmap. exists (p, perm). split; [done|]. by apply elem_of_map_to_list.
  - apply Hs. apply list_elem_of_fmap in Hin as ([p' perm] & -> & Hin). apply elem_of_map_to_list in Hin. by exists perm.
Qed.

Lemma subscribes_shown appID user a : shows user a -> userHasAppGrant user appID = subscribes appID a.
Proof. intros Hs. unfold subscribes, userHasAppGrant, userHasScopedAppGrant. simpl. by rewrite <- !(existsb_shown _ _ _ Hs). Qed.

(** The user [u] after the app was removed. *)
Definition removed (appID u : string) (a : account) : option account :=
  if subscribes appID a then without_app appID u a else Some a.

Lemma deprovisioned_lookup appID u v u' :
  deprovisioned appID u v !! u' = if bool_decide (u' = u) then v !! u ≫= without_app appID u else v !! u'.
Proof.
  unfold deprovisioned. case_bool_decide as Hu.
  - subst u'. destruct (v !! u) as [a|] eqn:Ea; simpl; [|done]. destruct (without_app appID u a).
    + apply lookup_insert_eq.
    + apply lookup_delete_eq.
  - destruct (v !! u) as [a|]; [|done]. destruct (without_app appID u a); [by rewrite lookup_insert_ne|by rewrite lookup_delete_ne].
Qed.

Lemma deprovisioned_distinct appID u v : distinct v -> distinct (deprovisioned appID u v).
Proof.
  intros Hd u' a. rewrite deprovisioned_lookup. case_bool_decide; [|apply Hd]. rewrite bind_Some.
  intros (a0 & Ha0 & Ha). unfold without_app in Ha. destruct (bool_decide _); [done|]. injection Ha as <-.
  unfold tokens_distinct. simpl. eapply sublist_NoDup; [exact (Hd _ _ Ha0)|]. apply fmap_sublist, sublist_filter.
Qed.

Lemma wp_deprovision_users appID listed v (Q : outcome unit -> users -> Prop) :
  distinct v -> NoDup (ntfycli.Name <$> listed) ->
  Forall (fun user => exists a, v !! ntfycli.Name user = Some a /\ shows user a) listed ->
  (forall e v', Q (inr e) v') ->
  (forall v', (forall u, v' !! u = if bool_decide (u ∈ ntfycli.Name <$> listed) then v !! u ≫= removed appID u else v !! u) ->
     Q (inl tt) v') ->
  wp free documented (deprovision_users service appID listed) v Q.
Proof.
  revert v. induction listed as [|user listed IH]; intros v Hd Hnd Hshown Herr HQ; cbn [deprovision_users].
  { cbn [wp]. apply HQ. intros u. by rewrite bool_decide_eq_false_2 by apply not_elem_of_nil. }
  apply Forall_cons in Hshown as [(a & Ha & Hs) Hshown]. rewrite fmap_cons, NoDup_cons in Hnd. destruct Hnd as [Hnew Hnd].
  rewrite (subscribes_shown appID user a Hs).
  destruct (subscribes appID a) eqn:Esub; cbn [negb].
  - unfold try_step. apply wp_bind, wp_Deprovision_ntfy; [done|intros; apply Herr|]. cbn [DeprovisionAppID NtfyUserID].
    apply IH; [by apply deprovisioned_distinct|done| |done|].
    + eapply Forall_impl; [apply Forall_forall; intros x Hx; exact (conj Hx (proj1 (Forall_forall _ _) Hshown x Hx))|].
      intros x [Hx (a' & Ha' & Hs')]. exists a'. rewrite deprovisioned_lookup, bool_decide_eq_false_2; [done|].
      intros Heq. apply Hnew. rewrite <- Heq. by apply list_elem_of_fmap_2.
    + intros v' Hv'. apply HQ. intros u. rewrite Hv', !deprovisioned_lookup. rewrite fmap_cons.
      destruct (decide (u = ntfycli.Name user)) as [->|Hne].
      * rewrite !(bool_decide_eq_false_2 _ Hnew), !bool_decide_eq_true_2 by (done || left). rewrite Ha. simpl. unfold removed. by rewrite Esub.
      * rewrite (bool_decide_eq_false_2 (u = _)) by done.
        rewrite (bool_decide_ext (u ∈ ntfycli.Name user :: _) (u ∈ ntfycli.Name <$> listed)); [done|].
        rewrite elem_of_cons. tauto.
  - apply IH; [done..|]. intros v' Hv'. apply HQ. intros u. rewrite Hv', fmap_cons.
    destruct (decide (u = ntfycli.Name user)) as [->|Hne].
    + rewrite (bool_decide_eq_false_2 _ Hnew), bool_decide_eq_true_2 by left. rewrite Ha. simpl. unfold removed. by rewrite Esub.
    + rewrite (bool_decide_ext (u ∈ ntfycli.Name user :: _) (u ∈ ntfycli.Name <$> listed)); [done|].
      rewrite elem_of_cons. tauto.
Qed.

Definition app_removed (appID : string) (v v' : users) : Prop :=
  v' !! ntfycli.PublisherUserID appID = None /\
  forall u, u <> ntfycli.PublisherUserID appID -> v' !! u = v !! u ≫= removed appID u.

Lemma wp_DeprovisionApp_ntfy appID v : distinct v ->
  wp free documented (DeprovisionApp service appID) v
    (fun r v' => match r with inl _ => app_removed appID v v' | inr _ => True end).
Proof.
  intros Hd. unfold DeprovisionApp, dualDeleteApp, try_ntfy, try_step. apply wp_bind, wp_call; [done|].
  intros [listed|e] v1 Hr; [|done]. destruct Hr as (-> & Hnd & Hall & Hshown).
  apply wp_bind, wp_deprovision_users; [done..|]. intros v' Hv'.
  assert (Hpoint : forall u, v' !! u = v !! u ≫= removed appID u).
  { intros u. rewrite Hv'. case_bool_decide as Hu; [done|]. rewrite Hall in Hu. apply eq_None_not_Some in Hu. by rewrite Hu. }
  assert (Hgone : forall v2, (v2 = delete (ntfycli.PublisherUserID appID) v' \/ v2 = v' /\ v' !! ntfycli.PublisherUserID appID = None) ->
    app_removed appID v v2).
  { intros v2 [->|[-> Hn]]; split; [apply lookup_delete_eq| |done|]; intros u Hu; [|done]. by rewrite lookup_delete_ne. }
  apply wp_bind, wp_call; [done|]. intros [[]|e] v2 Hr.
  - repeat ntfy_step; apply Hgone; by left.
  - destruct (errors_Is e _) eqn:Ee; [|done]. destruct (Hr Ee) as [Hn ->]. repeat ntfy_step; apply Hgone; by right.
Qed.

(** Scoped patterns are a person's own, as [Provision] grants them. *)
Definition own_patterns (v : users) : Prop := forall u a p appID, v !! u = Some a -> is_Some (grants a !! p) ->
  scopedTopicPattern p = Some appID -> p = ntfycli.TopicPattern appID (trim_user_prefix u).

Lemma removed_unsubscribed appID u a a' :
  (forall p, is_Some (grants a !! p) -> scopedTopicPattern p = Some appID -> p = ntfycli.TopicPattern appID (trim_user_prefix u)) ->
  removed appID u a = Some a' -> subscribes appID a' = false.
Proof.
  intros Hown. unfold removed. destruct (subscribes appID a) eqn:Es; [|congruence].
  unfold without_app. destruct (bool_decide _); [done|]. intros [= <-].
  unfold subscribes, userHasAppGrant, userHasScopedAppGrant. simpl. apply orb_false_iff. split; apply not_true_is_false;
    rewrite existsb_exists; intros (p & Hin & Hp); rewrite <- list_elem_of_In in Hin;
    apply list_elem_of_fmap in Hin as ([p' perm] & -> & Hin); apply elem_of_map_to_list in Hin; simpl in *;
    apply lookup_delete_Some in Hin as [Hb Hin]; apply lookup_delete_Some in Hin as [Hs Hin].
  - apply bool_decide_eq_true in Hp. apply Hs. symmetry. apply Hown; [by exists perm|done].
  - apply String.eqb_eq in Hp. congruence.
Qed.

(** ** Any server that behaves so *)

Section server.
Context {W : Type} (answers : answering services W) (view : W -> users).
Hypothesis Hntfy : forall w c r w', answers w c r w' -> documented (view w) c r (view w').

Lemma exec_view {A} (p : prog services A) w tr p' w' :
  exec answers p w tr p' w' -> exec documented p (view w) tr p' (view w').
Proof. induction 1; econstructor; eauto. Qed.

(** C11: over any server whose commands do what ntfy documents, a provision that
    succeeds leaves exactly this: the person's user exists; it reads the app's scoped
    and broadcast topics and keeps every other grant; of the app's tokens it holds only
    the one returned, and every other token; no other user has changed. *)
Theorem Provision_exact request w tr result w' : distinct (view w) ->
  exec answers (Provision service request) w tr (Ret (inl result)) w' ->
  let u := personhash.NtfyUser (ProvisionEmail request) in
  view w' = <[u := provisioned_account (ProvisionAppID request) (personhash.Hash (ProvisionEmail request)) (Token result)
                 (default new_account (view w !! u))]> (view w).
Proof.
  intros Hd He%exec_view. exact (wp_result _ _ _ _ _ _ _ _ He (wp_Provision_ntfy request _ Hd)).
Qed.

(** C4: over such a server, the removal of an app that succeeds leaves no trace of it:
    the publisher is gone; every subscriber has lost exactly the app's two grants and
    its tokens, and is gone if no grant was left; everyone else is as before; and if
    scoped grants are each person's own, nobody is left with a grant in the app. *)
Theorem DeprovisionApp_exact appID w tr w' : distinct (view w) ->
  exec answers (DeprovisionApp service appID) w tr (Ret (inl tt)) w' ->
  app_removed appID (view w) (view w') /\
  (own_patterns (view w) -> map_Forall (fun _ a => subscribes appID a = false) (view w')).
Proof.
  intros Hd He%exec_view. pose proof (wp_result _ _ _ _ _ _ _ _ He (wp_DeprovisionApp_ntfy appID _ Hd)) as [Hpub Hrest].
  split; [by split|]. intros Hown u a' Ha'. destruct (decide (u = ntfycli.PublisherUserID appID)) as [->|Hu]; [congruence|].
  rewrite Hrest in Ha' by done. apply bind_Some in Ha' as (a & Ha & Hr). eapply removed_unsubscribed; [|exact Hr].
  intros p Hp Hs. by eapply Hown.
Qed.

(** Over such a server, a deprovision that succeeds takes the app from its user
    alone: the user loses the app's two grants and its tokens, is gone exactly if no
    grant was left, and no other user has changed; a user ntfy does not know is a no-op. *)
Theorem Deprovision_exact request w tr w' : distinct (view w) ->
  exec answers (Deprovision service request) w tr (Ret (inl tt)) w' ->
  view w' = deprovisioned (DeprovisionAppID request) (NtfyUserID request) (view w).
Proof.
  intros Hd He%exec_view.
  apply (wp_result free documented _ _ _ _ _ (fun r v' => match r with
    | inl _ => v' = deprovisioned (DeprovisionAppID request) (NtfyUserID request) (view w) | inr _ => True end) He).
  by apply wp_Deprovision_ntfy.
Qed.
End server.
End ntfy.
End provisioning_ntfy.
