(* ===== verification/ProvisioningDemo.v ===== *)
(** * ProvisioningDemo

    The provisioning theorems at concrete inputs: an ntfy server that behaves as
    documented and a person service over its tables answer the requests of a small
    deployment, and the theorems are applied to the executions that result. *)

From S2P Require Import Prelude Prog GoText Utf8 NtfyCli GoFormat PersonService Throttle Std Idents MessageValidate Provisioning ProvisioningLocks ProvisioningProps ProvisioningWorld ProvisioningNtfy.
Open Scope Z_scope.

#[local] Existing Instance toy_std.
#[local] Existing Instance toy_std_laws.

(** ** An ntfy server and a person service *)

Section servers.
Import provisioning_ntfy.
Import provisioning.client.
Import provisioning.

Definition listed_user (p : string * provisioning_ntfy.account) : ntfycli.User :=
  {| ntfycli.Name := p.1; ntfycli.TopicPatterns := (map_to_list (grants p.2)).*1 |}.

Lemma listed_shows u a : shows (listed_user (u, a)) a.
Proof.
  intros p. unfold listed_user. cbn [ntfycli.TopicPatterns fst snd]. rewrite list_elem_of_fmap. split.
  - intros ([p' x] & -> & Hin). apply elem_of_map_to_list in Hin. by eexists.
  - intros [x Hx]. exists (p, x). split; [done|]. by apply elem_of_map_to_list.
Qed.

(** A command on a user that exists. *)
Definition on_user {A} (u : string) (v : users) (f : provisioning_ntfy.account -> result A * users) : result A * users :=
  match v !! u with Some a => f a | None => (Err ntfycli.ErrNotFound, v) end.

Definition ntfy_server (v : users) (c : op services) : reply services c * users :=
  match c return service_reply c * users with
  | AddUser u _ =>
    match v !! u with Some _ => (Err ntfycli.ErrAlreadyExists, v) | None => (Ok tt, <[u := new_account]> v) end
  | ChangePassword u _ => on_user u v (fun _ => (Ok tt, v))
  | client.DeleteUser u => on_user u v (fun _ => (Ok tt, delete u v))
  | GrantAccess u pattern permission => on_user u v (fun a => (Ok tt, <[u := set_grants <[pattern := permission]> a]> v))
  | ResetAccess u pattern => on_user u v (fun a => (Ok tt, <[u := set_grants (delete pattern) a]> v))
  | AddToken u label => on_user u v (fun a =>
      let token := "tk_" +:+ u +:+ "_" +:+ label in
      (Ok token, <[u := set_tokens (fun ts => ts ++ [{| ntfycli.Value := token; ntfycli.Label := label |}]) a]> v))
  | ListTokens u => on_user u v (fun a => (Ok (tokens a), v))
  | RemoveToken u token => on_user u v (fun a =>
      (Ok tt, <[u := set_tokens (filter (fun t => ntfycli.Value t <> token)) a]> v))
  | client.ListUsers => (Ok (listed_user <$> map_to_list v), v)
  | GetUser u => on_user u v (fun a => (Ok (listed_user (u, a)), v))
  | UpsertPerson _ _ | DeletePerson _ | DeleteApp _ | ReleasePasswordClaim _ _ _ | ReleaseResetSlot _ _ => (None, v)
  | Publish _ => (Ok "mid", v)
  | generatePassword | generateSubscriberPassword => (Ok "secret", v)
  | ClaimPasswordWithStamp _ _ _ stamp =>
    (inl {| Claimed := true; RowExists := true; SetAt := stamp; PreviousSetAt := EmptyString |}, v)
  | ClaimResetSlot _ => (inl "slot", v)
  | time_Now => (0, v)
  | lock _ | unlock _ => (tt, v)
  | allow _ _ => ((true, 0), v)
  end.

Lemma ntfy_server_documented v c : documented v c (ntfy_server v c).1 (ntfy_server v c).2.
Proof.
  destruct c; try done; unfold ntfy_server, on_user; cbn [documented fst snd].
  all: try match goal with |- context [match ?w !! ?u with _ => _ end] => destruct (w !! u) as [a|] eqn:Eu end;
    cbn [fst snd]; unfold refused; eauto.
  - done.
  - split; [done|]. split; [|split].
    + rewrite <- list_fmap_compose. apply NoDup_fst_map_to_list.
    + intros u. rewrite <- list_fmap_compose, list_elem_of_fmap. split.
      * intros ([u' a] & -> & Hin). apply elem_of_map_to_list in Hin. by eexists.
      * intros [a Ha]. exists (u, a). split; [done|]. by apply elem_of_map_to_list.
    + apply Forall_fmap, Forall_forall. intros [u a] Hin. apply elem_of_map_to_list in Hin. exists a.
      split; [done|]. apply listed_shows.
  - split; [done|]. exists a. split; [done|]. apply listed_shows.
Qed.
End servers.

(** ** Two people and two apps *)

Section demo.
Import provisioning_props provisioning_ntfy.
Import provisioning.client.
Import provisioning.

Definition demo_service : Service :=
  {| personStoreConfigured := true; publisherConfigured := true; appGrantMode := enforcement.Enforce |}.
Definition ann : string := "ann@example.com".
Definition ben : string := "ben@example.com".
Definition chat : string := "chat".
Definition provision_ann (appID : string) : ProvisionRequest := {| ProvisionAppID := appID; ProvisionEmail := ann |}.

Definition after {A} (p : prog services A) (v : users) : users := (run ntfy_server p v).2.
Definition chat_users : users :=
  after (Provision demo_service {| ProvisionAppID := chat; ProvisionEmail := ben |})
    (after (Provision demo_service (provision_ann "mail"))
       (after (Provision demo_service (provision_ann chat)) ∅)).

Lemma served {A} (p : prog services A) v : exec documented p v (run ntfy_server p v).1.1 (Ret (run ntfy_server p v).1.2) (run ntfy_server p v).2.
Proof. apply run_exec, ntfy_server_documented. Qed.

Lemma served_anyhow {A} (p : prog services A) v : exec anything p v (run ntfy_server p v).1.1 (Ret (run ntfy_server p v).1.2) (run ntfy_server p v).2.
Proof. by apply run_exec. Qed.

#[local] Instance tokens_distinct_dec a : Decision (tokens_distinct a) := NoDup_dec _.

Lemma chat_users_distinct : distinct chat_users.
Proof. apply (bool_decide_unpack (map_Forall (fun _ a => tokens_distinct a) chat_users)). by vm_compute. Qed.

(** A request served that succeeds: its outcome, decided by running it. *)
Definition result_of {A} (p : prog services (outcome A)) (v : users) : option A :=
  match (run ntfy_server p v).1.2 with inl a => Some a | inr _ => None end.

Lemma served_result {A} (p : prog services (outcome A)) v a : result_of p v = Some a ->
  exec documented p v (run ntfy_server p v).1.1 (Ret (inl a)) (after p v).
Proof.
  unfold result_of, after. intros H. pose proof (served p v) as He. destruct (run ntfy_server p v).1.2; [|done].
  by injection H as ->.
Qed.

Definition provision_news : prog services (outcome ProvisionResult) := Provision demo_service (provision_ann "news").
Definition news_result : ProvisionResult :=
  {| UserID := personhash.NtfyUser ann; AppID := "news"; PersonHash := personhash.Hash ann;
     TopicPattern := ntfycli.TopicPattern "news" (personhash.Hash ann); BroadcastTopic := "news-broadcast";
     Token := "tk_" +:+ personhash.NtfyUser ann +:+ "_news"; Password := "secret" |}.

Lemma provision_news_result : result_of provision_news chat_users = Some news_result.
Proof. by vm_compute. Qed.

Lemma Provision_exact_witness :
  after provision_news chat_users =
    <[personhash.NtfyUser ann := provisioned_account "news" (personhash.Hash ann) (Token news_result)
       (default new_account (chat_users !! personhash.NtfyUser ann))]> chat_users.
Proof.
  exact (Provision_exact demo_service documented id (fun _ _ _ _ H => H) (provision_ann "news") _ _ _ _
    chat_users_distinct (served_result provision_news _ _ provision_news_result)).
Defined.

Definition remove_chat : prog services (outcome unit) := DeprovisionApp demo_service chat.

Lemma remove_chat_result : result_of remove_chat chat_users = Some tt.
Proof. by vm_compute. Qed.

(** Ann keeps her other app, Ben had no other. *)
Lemma DeprovisionApp_exact_witness :
  app_removed chat chat_users (after remove_chat chat_users) /\
  after remove_chat chat_users !! personhash.NtfyUser ben = None /\
  is_Some (after remove_chat chat_users !! personhash.NtfyUser ann).
Proof.
  split; [|split; [by vm_compute|vm_compute; by eexists]].
  exact (proj1 (DeprovisionApp_exact demo_service documented id (fun _ _ _ _ H => H) chat _ _ _
    chat_users_distinct (served_result remove_chat _ _ remove_chat_result))).
Defined.

(** *** Whatever is answered *)

Lemma Provision_accounts_witness :
  provision_account (run ntfy_server (Provision demo_service (provision_ann chat)) ∅).1.2
    (account_of (personhash.Hash ann) (personhash.NtfyUser ann)
       (run ntfy_server (Provision demo_service (provision_ann chat)) ∅).1.1).
Proof. exact (Provision_accounts demo_service anything _ _ _ _ _ (served_anyhow (Provision demo_service (provision_ann chat)) ∅)). Defined.

Definition remove_ann : prog services (outcome unit) :=
  Deprovision demo_service {| DeprovisionAppID := chat; NtfyUserID := personhash.NtfyUser ann |}.

(** The third call of Ann's removal from an app takes back the app's broadcast topic. *)
Lemma app_requests_confined_witness :
  within chat (personhash.NtfyUser ann) (trim_user_prefix (personhash.NtfyUser ann))
    (seen_of (take 2 (run ntfy_server remove_ann chat_users).1.1))
    (ResetAccess (personhash.NtfyUser ann) (ntfycli.BroadcastTopicPattern chat)).
Proof.
  pose proof (proj2 (app_requests_confined demo_service anything chat_users (after remove_ann chat_users))
    {| DeprovisionAppID := chat; NtfyUserID := personhash.NtfyUser ann |} _ _
    (take 2 (run ntfy_server remove_ann chat_users).1.1)
    (Event (ResetAccess (personhash.NtfyUser ann) (ntfycli.BroadcastTopicPattern chat) : op services) (Ok tt))
    (drop 3 (run ntfy_server remove_ann chat_users).1.1)
    (served_anyhow remove_ann chat_users)) as Hwithin.
  apply Hwithin. by vm_compute.
Defined.

Definition guarded_removal : prog services unit := _ ← remove_ann; Ret tt.

Lemma grant_enforced_witness : grant_seen chat (personhash.NtfyUser ann) (take 1 (run ntfy_server guarded_removal chat_users).1.1) = true.
Proof.
  pose (trace := (run ntfy_server guarded_removal chat_users).1.1).
  apply (grant_enforced demo_service anything chat_users trace guarded_removal
    (Ret (run ntfy_server guarded_removal chat_users).1.2) (after guarded_removal chat_users) chat (personhash.NtfyUser ann) (take 1 trace)
    (Event (ResetAccess (personhash.NtfyUser ann) (ntfycli.TopicPattern chat (personhash.Hash ann)) : op services) (Ok tt))
    (drop 2 trace)).
  - done.
  - exact (guarded_Deprovision demo_service {| DeprovisionAppID := chat; NtfyUserID := personhash.NtfyUser ann |}).
  - exact (served_anyhow guarded_removal chat_users).
  - by vm_compute.
  - done.
Defined.

Definition reset_ann : ResetPasswordRequest := {| ResetAppID := chat; ResetEmail := ann |}.

Lemma Reset_accounts_witness :
  reset_account (run ntfy_server (ResetPassword demo_service reset_ann) chat_users).1.2
    (slots_of (run ntfy_server (ResetPassword demo_service reset_ann) chat_users).1.1).
Proof.
  exact (proj1 (Reset_accounts demo_service anything _ _ _ _ _ (served_anyhow (ResetPassword demo_service reset_ann) chat_users))
    _ eq_refl).
Defined.

Definition notify_both : TestNotifyRequest :=
  {| NotifyAppID := chat; Recipients := [ann; "nobody"; personhash.Hash ben]; Channel := "alerts";
     NotifyMessage := "hello"; NotifyTitle := EmptyString |}.

Lemma TestNotify_dispatches_witness :
  notify_outcome notify_both (run ntfy_server (TestNotify demo_service notify_both) chat_users).1.2
    (notified_of (run ntfy_server (TestNotify demo_service notify_both) chat_users).1.1).
Proof.
  exact (TestNotify_dispatches demo_service anything _ _ _ _ notify_both
    (served_anyhow (TestNotify demo_service notify_both) chat_users)).
Defined.

(** *** Requests side by side *)

(** Two removals of one person start; the first takes the lock and deletes the user. *)
Definition cat : string := "catcatcatcatcatc".
Definition remove_cat : prog services unit := _ ← DeleteUser demo_service (personhash.NtfyUserFromHash cat); Ret tt.
Definition locked : event services := Event (lock cat : op services) tt.
Definition deleted : event services := Event (client.DeleteUser (personhash.NtfyUserFromHash cat) : op services) (Ok tt).

(** A thread after its next call, answered by the server. *)
Definition resume (p : prog services unit) : prog services unit :=
  match p with Ret a => Ret a | Call c k => k (ntfy_server ∅ c).1 end.

Definition waiting : pool (I := services) (W := unit) := {| threads := [remove_cat; remove_cat]; holder := ∅; world := tt |}.
Definition removing : pool (I := services) (W := unit) :=
  {| threads := [resume remove_cat; remove_cat]; holder := <[cat := 0%nat]> ∅; world := tt |}.
Definition removed_cat : pool (I := services) (W := unit) :=
  {| threads := [resume (resume remove_cat); remove_cat]; holder := <[cat := 0%nat]> ∅; world := tt |}.

Lemma two_removals : pool_steps anything (request_of demo_service) (empty_pool tt) [(0%nat, locked)] removing.
Proof.
  assert (Hwaiting : pool_steps anything (request_of demo_service) (empty_pool tt) [] waiting).
  { apply (pool_trans anything _ (empty_pool tt) [] {| threads := [remove_cat]; holder := ∅; world := tt |} [] waiting).
    - apply (pool_trans anything _ _ [] (empty_pool tt) []); [apply pool_refl|].
      apply (pool_spawn anything _ (empty_pool tt)), by_DeleteUser.
    - apply (pool_spawn anything _ {| threads := [remove_cat]; holder := ∅; world := tt |}), by_DeleteUser. }
  apply (pool_trans anything _ _ [] waiting [(0%nat, locked)] removing Hwaiting).
  refine (pool_call anything _ waiting 0 (lock cat : op services) _ tt tt eq_refl _ I). by intros h _.
Qed.

Lemma one_removed : pool_steps anything (request_of demo_service) (empty_pool tt) [(0%nat, locked); (0%nat, deleted)] removed_cat.
Proof.
  apply (pool_trans anything _ _ [(0%nat, locked)] removing [(0%nat, deleted)] removed_cat two_removals).
  by refine (pool_call anything _ removing 0 (client.DeleteUser (personhash.NtfyUserFromHash cat) : op services) _ (Ok tt) tt eq_refl _ I).
Qed.

Lemma person_exclusive_witness : alone_since 0 cat [(0%nat, locked)].
Proof.
  exact (person_exclusive demo_service anything tt _ _ [(0%nat, locked)] 0 deleted [] cat one_removed eq_refl
    (conj eq_refl eq_refl)).
Defined.

(** The second removal waits for the lock; the pool is not stuck. *)
Lemma requests_progress_witness : exists e s', pool_step anything (request_of demo_service) removing [e] s'.
Proof.
  refine (requests_progress demo_service anything tt _ removing 1 (lock cat : op services) _ _ two_removals eq_refl).
  intros w c. exists (ntfy_server ∅ c).1, w. exact I.
Defined.
End demo.

(** ** Over the person service's tables *)

Section tables_demo.
Import personsvc worker worker_props provisioning_world.
Import provisioning.client.
Import provisioning.

Definition clock : string := "2026-03-01T00:00:00.000Z".

(** A slot id no reset has. *)
Definition new_uuid (t : tables) : string :=
  match password_resets t !! "slot" with None => "slot" | Some _ => fresh (dom (password_resets t)) end.

(** The worker's clock in milliseconds. *)
Definition slot_time : Z := 1772323200000.

(** A worker whose clock stands and whose uuids are fresh strings, and an ntfy that
    accepts everything but, unless [works], a new password. *)
Definition worker_server (works : bool) (t : tables) (c : op services) : reply services c * tables :=
  match c return service_reply c * tables with
  | UpsertPerson personHash email => (None, handlePutPerson personHash email clock t)
  | DeletePerson personHash => (None, handleDeletePerson personHash t)
  | DeleteApp appID => (None, handleDeleteApp appID t)
  | ClaimPasswordWithStamp personHash email mode stamp =>
    let claimed := handlePasswordClaim personHash email mode (client_stamp stamp) clock t in (inl claimed.1, claimed.2)
  | ReleasePasswordClaim personHash claim restoreTo =>
    (None, (handlePasswordClaimRelease personHash (SetAt claim) (or_null restoreTo) t).2)
  | ClaimResetSlot personHash =>
    let slot := handleClaimResetSlot personHash (new_uuid t) slot_time t in
    (match slot.1 with inl id => inl id | inr seconds => inr (ResetLimitError seconds) end, slot.2)
  | ReleaseResetSlot personHash resetID => (None, handleReleaseResetSlot personHash resetID t)
  | ChangePassword _ _ => (if works then Ok tt else Err ntfycli.ErrNotFound, t)
  | AddUser _ _ | client.DeleteUser _ | GrantAccess _ _ _ | ResetAccess _ _ | RemoveToken _ _ => (Ok tt, t)
  | AddToken _ _ | Publish _ | generatePassword | generateSubscriberPassword => (Ok "secret", t)
  | ListTokens _ => (Ok [], t)
  | client.ListUsers => (Ok [], t)
  | GetUser u => (Ok {| ntfycli.Name := u; ntfycli.TopicPatterns := [ntfycli.BroadcastTopicPattern chat] |}, t)
  | time_Now => (0, t)
  | lock _ | unlock _ => (tt, t)
  | allow _ _ => ((true, 0), t)
  end.

Lemma new_uuid_new t : password_resets t !! new_uuid t = None.
Proof. unfold new_uuid. case_match; [|done]. apply not_elem_of_dom, is_fresh. Qed.

Lemma worker_server_answers works t c :
  answered slot_time t c (worker_server works t c).1 (worker_server works t c).2.
Proof.
  destruct c; try done; cbn [answered worker_server fst snd].
  - split; [done|]. by exists clock.
  - by exists clock.
  - eexists _. split; [apply new_uuid_new|done].
Qed.

(** The same where, unless [works], the reply to a release is lost. *)
Definition person_server (works : bool) (w : person_service) (c : op services) : reply services c * person_service :=
  let handled := worker_server works (rows w) c in
  let lost := {| rows := handled.2; mishaps := mishaps w ++ [(c, true)] |} in
  let done := {| rows := handled.2; mishaps := mishaps w |} in
  match c return service_reply c -> service_reply c * person_service with
  | ReleasePasswordClaim _ _ _ | ReleaseResetSlot _ _ =>
    fun r => if works then (r, done) else (Some (StatusError 504 EmptyString), lost)
  | _ => fun r => (r, done)
  end handled.1.

Lemma person_server_answers works w c :
  answering_tables slot_time w c (person_server works w c).1 (person_server works w c).2.
Proof.
  pose proof (worker_server_answers works (rows w) c) as Hans.
  destruct c; try (by left; split); destruct works; try (by left; split); right; right; (split; [by eexists|]); by split; [eexists|].
Qed.

Definition ann_row : tables :=
  {| persons := {[personhash.Hash ann := {| email := ann; created_at := clock; password_set_at := Some clock |}]};
     password_resets := ∅; apps := ∅ |}.

Lemma ann_row_wf : stamps_wf ann_row.
Proof. unfold stamps_wf, ann_row. cbn [persons]. intros h row Hrow. apply lookup_singleton_Some in Hrow as [_ <-]. discriminate. Qed.

Lemma calm_decided ms : forallb (fun m => negb (troubling m)) ms = true -> calm ms.
Proof.
  induction ms as [|m ms IH]; simpl; [constructor|]. rewrite andb_true_iff. intros [Hm Hms].
  constructor; [by apply negb_true_iff|by apply IH].
Qed.

Definition ann_service : person_service := {| rows := ann_row; mishaps := [] |}.

Definition reset_run (works : bool) := run (person_server works) (ResetPassword demo_service reset_ann) ann_service.

Lemma reset_executed works :
  exec (answering_tables slot_time) (ResetPassword demo_service reset_ann) ann_service
    (reset_run works).1.1 (Ret (reset_run works).1.2) (reset_run works).2.
Proof. exact (run_exec _ (person_server works) _ ann_service (person_server_answers works)). Qed.

(** A reset that succeeds, and one that fails whose two releases are handled although
    their replies are lost: Ann's row and slots are as they were. *)
Lemma password_changes_atomic_witness :
  failed (reset_run true).1.2 = false /\ failed (reset_run false).1.2 = true /\
  reset_outcome slot_time (personhash.Hash ann) ann_row (failed (reset_run true).1.2) (rows (reset_run true).2)
    (mishaps (reset_run true).2) /\
  persons (rows (reset_run false).2) = persons ann_row.
Proof.
  split; [by vm_compute|]. split; [by vm_compute|]. split.
  - exact (proj2 (password_changes_atomic demo_service eq_refl slot_time ann_service ann_row_wf eq_refl) reset_ann _ _ _
      (reset_executed true)).
  - pose proof (proj2 (password_changes_atomic demo_service eq_refl slot_time ann_service ann_row_wf eq_refl) reset_ann _ _ _
      (reset_executed false)) as [[_ Hrows] _].
    assert (Hfailed : failed (reset_run false).1.2 = true) by by vm_compute.
    rewrite Hfailed in Hrows. apply Hrows, calm_decided. by vm_compute.
Defined.
End tables_demo.

(** ** The locks, the throttle, the slots and the listings *)

Section keyed.
Import keyedlock.

(** Two goroutines want one key: the second waits. *)
Definition contended : list (nat * action) := [(0%nat, Enter "k"); (1%nat, Enter "k"); (0%nat, Acquire)].

Definition after_all (tr : list (nat * action)) : option state :=
  foldl (fun s p => s ≫= act p.1 p.2) (Some initial) tr.

Lemma after_all_run tr s : after_all tr = Some s -> run initial tr s.
Proof.
  revert s. unfold after_all. induction tr as [|[t a] tr IH] using rev_ind; intros s.
  - intros [= <-]. constructor.
  - rewrite foldl_snoc. intros (s1 & Hs1 & Ha)%bind_Some. econstructor; [by apply IH|done].
Qed.

Definition contended_state : state := default initial (after_all contended).

Lemma refines_lock_witness :
  exists h, lock_run ∅ contended h /\ implements contended_state h /\
    (forall t key e, goroutines contended_state !! t = Some (Waiting key e) ->
       is_Some (acquire t contended_state) <-> h !! key = None) /\
    (forall key, is_Some (entries contended_state !! key) <->
       exists t p, goroutines contended_state !! t = Some p /\ key_of p = key).
Proof. apply (refines_lock contended contended_state). apply after_all_run. vm_compute. reflexivity. Defined.
End keyed.

Section throttled.
Import throttle.

(** Two attempts of one key at a limit of one, the second refused. *)
Definition two_attempts : list attempt := [("k", 1, 0); ("k", 1, Second)].

Lemma two_attempts_monotone : monotone two_attempts.
Proof. unfold monotone, two_attempts, at_time. simpl. repeat constructor; vm_compute; congruence. Qed.

Lemma throttle_reference_witness :
  (run allow zero two_attempts).1 = (run allow_reference [] two_attempts).1 /\ fst <$> (run allow zero two_attempts).1 = [true; false].
Proof. split; [apply (throttle_reference two_attempts two_attempts_monotone)|by vm_compute]. Defined.

Lemma window_bounded_witness :
  Z.of_nat (length (between (-1) (-1 + attemptThrottleWindow) (grants "k" two_attempts (run allow zero two_attempts).1))) <= 1.
Proof.
  apply (window_bounded two_attempts "k" 1 (-1) two_attempts_monotone); [done|]. by repeat constructor.
Defined.
End throttled.

Section slots.
Import worker worker_props.

(** Six claims in an hour. *)
Definition six_claims : list slot_op :=
  imap (fun n id => ClaimSlot "h" id (Z.of_nat n * 1000)) ["a"; "b"; "c"; "d"; "e"; "f"].

Lemma reset_slots_bounded_witness :
  Z.of_nat (length (within (-1) (-1 + RESET_WINDOW_MS) (kept "h" six_claims))) <= RESET_LIMIT /\
  length (kept "h" six_claims) = 5%nat.
Proof.
  split; [|by vm_compute]. apply (reset_slots_bounded "h" six_claims (-1)). split; [|split].
  - vm_compute. repeat constructor; vm_compute; congruence.
  - apply (bool_decide_unpack (NoDup _)). by vm_compute.
  - unfold six_claims. simpl. set_solver.
Defined.
End slots.

Section listings.
Import ntfycli ntfycli_props.

Definition a_listing : list block :=
  [{| block_name := "u_ann"; block_role := "user"; block_rest := ", tier: none";
      block_lines := [Access "read-only" "chat-broadcast"; Note "- no topic-specific permissions"] |};
   {| block_name := "*"; block_role := "anonymous"; block_rest := "";
      block_lines := [Access "write-only" "public"] |}].

Lemma a_listing_ok : Forall block_ok a_listing.
Proof. by repeat constructor. Qed.

Lemma parse_print_witness :
  parseUserBlocks (print a_listing) = user_of <$> filter real a_listing /\
  Name <$> parseUserBlocks (print a_listing) = ["u_ann"].
Proof. split; [apply (parse_print a_listing a_listing_ok)|by vm_compute]. Defined.

(** An ntfy whose database is busy twice. *)
Definition busy_twice (busy_left : nat) (c : op runner) : reply runner c * nat :=
  match c return runner_reply c * nat with
  | Run _ _ =>
    match busy_left with
    | O => ((EmptyString, EmptyString, None), O)
    | S n => ((EmptyString, "database is locked", Some (errors_New "exit status 1")), n)
    end
  | Sleep _ | MutexLock | MutexUnlock => (tt, busy_left)
  end.

Definition busy_run := Prog.run busy_twice (ntfycli.run (UserDeleteArgs "u_ann") []) 2%nat.

Lemma busy_executed :
  exec anything (ntfycli.run (UserDeleteArgs "u_ann") []) 2%nat busy_run.1.1 (Ret busy_run.1.2) busy_run.2.
Proof. by apply run_exec. Qed.

Lemma run_attempts_witness :
  length (ended (attempts_of busy_run.1.1)) = 3%nat /\
  exists cs c, ended (attempts_of busy_run.1.1) = cs ++ [c] /\ (length cs <= 4)%nat /\
    Forall (fun c => busy c = true) cs /\ (busy c = false \/ length cs = 4%nat) /\
    waits (attempts_of busy_run.1.1) =
      take (length cs) [50 * Millisecond; 100 * Millisecond; 200 * Millisecond; 400 * Millisecond] /\
    verdict busy_run.1.2 c.
Proof.
  split; [by vm_compute|].
  exact (run_attempts anything 2%nat busy_run.1.1 busy_run.1.2 busy_run.2 (UserDeleteArgs "u_ann") [] busy_executed).
Defined.
End listings.
