(* ===== verification/MessageValidateProps.v ===== *)
(** * MessageValidateProps

    What payload validation accepts, in terms of the document's syntax tree; what the
    number check guarantees; that comparing payloads is comparing JSON values. *)

From S2P Require Import Prelude GoText Utf8 Std Idents Registry Json JsonProps Message MessageValidate.
Open Scope Z_scope.
Import json message validate.

(** ** The number scan *)

Lemma endOfJSONString_length s : (length (endOfJSONString s) <= length s)%nat.
Proof.
  enough (H : forall n s, (length s <= n)%nat -> (length (endOfJSONString s) <= length s)%nat) by eauto.
  clear s. induction n as [|n IH]; intros [|b s] Hn; simpl in *; try lia.
  destruct (b =? backslash); [destruct s as [|c s]; simpl in *; [lia|]|destruct (b =? quote); [lia|]].
  - specialize (IH s ltac:(lia)). lia.
  - specialize (IH s ltac:(lia)). lia.
Qed.

Lemma span_number_shorter b s : (b =? ch "-") || json.is_digit b = true ->
  (length (span isNumberLiteralByte (b :: s)).2 <= length s)%nat.
Proof.
  intros H. assert (Hb : isNumberLiteralByte b = true).
  { unfold isNumberLiteralByte. apply orb_true_iff in H as [-> | ->]; by rewrite ?orb_true_r. }
  pose proof (span_spec isNumberLiteralByte s) as [Hs _]. simpl. rewrite Hb. simpl.
  rewrite Hs at 2. rewrite length_app. lia.
Qed.

(** The length of the document is fuel enough. *)
Lemma number_literals_fuel n : forall s f1 f2, (length s <= n)%nat -> (n <= f1)%nat -> (n <= f2)%nat ->
  number_literals f1 s = number_literals f2 s.
Proof.
  induction n as [|n IH]; intros [|b s] f1 f2 Hn H1 H2; simpl in Hn; try lia; [by destruct f1, f2..|].
  destruct f1 as [|f1], f2 as [|f2]; try lia. cbn [number_literals].
  pose proof (endOfJSONString_length s).
  destruct (b =? quote); [apply IH; lia|].
  destruct ((b =? ch "-") || json.is_digit b) eqn:Hb; [|apply IH; lia].
  pose proof (span_number_shorter b s Hb). destruct (span isNumberLiteralByte (b :: s)) as [literal rest].
  f_equal. apply IH; simpl in *; lia.
Qed.

Lemma number_literals_cons b s :
  numberLiteralsStorable (b :: s) =
  if b =? quote then numberLiteralsStorable (endOfJSONString s)
  else if (b =? ch "-") || json.is_digit b then
    numberLiteralStorable (span isNumberLiteralByte (b :: s)).1 &&
    numberLiteralsStorable (span isNumberLiteralByte (b :: s)).2
  else numberLiteralsStorable s.
Proof.
  unfold numberLiteralsStorable. cbn [length number_literals]. pose proof (endOfJSONString_length s).
  destruct (b =? quote); [apply (number_literals_fuel (length (endOfJSONString s))); lia|].
  destruct ((b =? ch "-") || json.is_digit b) eqn:Hb; [|done].
  pose proof (span_number_shorter b s Hb). destruct (span isNumberLiteralByte (b :: s)) as [literal rest].
  simpl in *. f_equal. apply (number_literals_fuel (length rest)); lia.
Qed.

(** A hexadecimal digit is neither a quote nor a backslash. *)
Lemma hex_plain h : is_hex h = true -> (h =? quote) = false /\ (h =? backslash) = false.
Proof.
  unfold is_hex. intros H. bool_hyps. split; apply Z.eqb_neq; intros ->; by destruct H.
Qed.

Lemma endOfJSONString_items items rest : Forall item_ok items ->
  endOfJSONString ((items ≫= item_bytes) ++ quote :: rest) = rest.
Proof.
  induction 1 as [|i items Hi _ IH]; [done|]. csimpl. rewrite <- app_assoc.
  destruct i as [b|c|h1 h2 h3 h4]; cbn [item_bytes app endOfJSONString].
  - destruct Hi as [H1 H2]. apply Z.eqb_neq in H1, H2. by rewrite H1, H2.
  - done.
  - destruct Hi as (H1 & H2 & H3 & H4). apply hex_plain in H1 as [-> ->], H2 as [-> ->], H3 as [-> ->], H4 as [-> ->].
    done.
Qed.

Lemma number_byte_same b : isNumberLiteralByte b = number_byte b.
Proof. done. Qed.

Lemma span_stops p (bs rest : list Z) : Forall (fun b => p b = true) bs ->
  match rest with b :: _ => p b = false | [] => True end -> span p (bs ++ rest) = (bs, rest).
Proof.
  induction 1 as [|b bs Hb _ IH]; intros Hr; simpl.
  - destruct rest as [|b rest]; [done|]. simpl. by rewrite Hr.
  - rewrite Hb. by rewrite IH.
Qed.

(** What the byte scan checks is every number of the tree. *)
Lemma numbers_scan document t rest : parse document = Some (t, rest) -> skip_space rest = [] ->
  numberLiteralsStorable document = tree_forall (fun _ => true) numberLiteralStorable t.
Proof.
  apply (raw_scan_document numberLiteralsStorable).
  - intros b s Hb. unfold plain in Hb. bool_hyps. rewrite number_literals_cons.
    apply Z.eqb_neq in H, H1. rewrite H, H1, H0. done.
  - intros s items r [-> Hok]%(scan_string_spec (length s)); [|done]. rewrite number_literals_cons, Z.eqb_refl.
    by rewrite endOfJSONString_items.
  - intros s literal r (-> & Hall & b & tl & -> & Hb)%scan_number_spec Hst. simpl. rewrite number_literals_cons.
    assert (Hq : (b =? quote) = false). { apply Z.eqb_neq. by destruct Hb as [-> | Hb]; [|intros ->]. }
    assert (Hd : (b =? ch "-") || json.is_digit b = true).
    { destruct Hb as [-> | Hb]; [done|]. by rewrite Hb, orb_true_r. }
    rewrite Hq, Hd. change (b :: tl ++ r) with ((b :: tl) ++ r).
    rewrite (span_stops isNumberLiteralByte (b :: tl) r); done.
  - done.
Qed.

(** ** The escape scan *)

(** No \u0000, and surrogates only as a high and a low one in a row. *)
Fixpoint escapes_storable (items : list item) : bool :=
  match items with
  | [] => true
  | Uni h1 h2 h3 h4 :: items =>
    let u := code_unit h1 h2 h3 h4 in
    negb (u =? 0) &&
    if is_high u then
      match items with
      | Uni l1 l2 l3 l4 :: items => is_low (code_unit l1 l2 l3 l4) && escapes_storable items
      | _ => false
      end
    else negb (is_low u) && escapes_storable items
  | _ :: items => escapes_storable items
  end.

Lemma parseUnicodeEscape_shorter s u rest : parseUnicodeEscape s = Some (u, rest) -> (S (length rest) <= length s)%nat.
Proof.
  destruct s as [|? [|? [|? [|? [|? [|? s]]]]]]; simpl; try done. case_match; [|done]. intros [= _ <-]. lia.
Qed.

Lemma unicode_escapes_fuel n : forall s f1 f2, (length s <= n)%nat -> (n <= f1)%nat -> (n <= f2)%nat ->
  unicode_escapes f1 s = unicode_escapes f2 s.
Proof.
  induction n as [|n IH]; intros [|b s] f1 f2 Hn H1 H2; simpl in Hn; try lia; [by destruct f1, f2..|].
  destruct f1 as [|f1], f2 as [|f2]; try lia. cbn [unicode_escapes].
  destruct (negb (b =? backslash)); [apply IH; lia|]. destruct s as [|c s]; [done|].
  destruct (negb (c =? ch "u")); [apply IH; simpl in *; lia|].
  destruct (parseUnicodeEscape (b :: c :: s)) as [[u r]|] eqn:E; [|done]. apply parseUnicodeEscape_shorter in E.
  destruct (u =? 0); [done|]. destruct (_ && _).
  - destruct (parseUnicodeEscape r) as [[l r']|] eqn:E'; [|done]. apply parseUnicodeEscape_shorter in E'.
    destruct (_ || _); [done|]. apply IH; simpl in *; lia.
  - destruct (_ && _); [done|]. apply IH; simpl in *; lia.
Qed.

Lemma escapes_fuel s f : (length s <= f)%nat -> unicode_escapes f s = unicodeEscapesStorable s.
Proof. intros Hf. by apply (unicode_escapes_fuel (length s)). Qed.

Lemma some_fuel (s : list Z) : exists f, (length s <= f)%nat.
Proof. by exists (length s). Qed.

Lemma escapes_byte b s : b <> backslash -> unicodeEscapesStorable (b :: s) = unicodeEscapesStorable s.
Proof. intros Hb. unfold unicodeEscapesStorable. cbn [length unicode_escapes]. apply Z.eqb_neq in Hb. by rewrite Hb. Qed.

Lemma escapes_simple c s : c <> ch "u" -> unicodeEscapesStorable (backslash :: c :: s) = unicodeEscapesStorable s.
Proof.
  intros Hc. destruct (some_fuel (c :: s)) as [f Hf]. rewrite <- (escapes_fuel _ (S f)) by (simpl in *; lia).
  cbn [unicode_escapes]. apply Z.eqb_neq in Hc. rewrite Z.eqb_refl, Hc. apply escapes_fuel. simpl in Hf. lia.
Qed.

(** What follows a string's items begins no escape. *)
Definition no_escape (s : list Z) : Prop := parseUnicodeEscape s = None.

Lemma parse_uni h1 h2 h3 h4 s : item_ok (Uni h1 h2 h3 h4) ->
  parseUnicodeEscape (item_bytes (Uni h1 h2 h3 h4) ++ s) = Some (code_unit h1 h2 h3 h4, s).
Proof. intros (H1 & H2 & H3 & H4). cbn [item_bytes app parseUnicodeEscape]. by rewrite H1, H2, H3, H4. Qed.

Lemma parse_not_uni i s : item_ok i -> match i with Uni _ _ _ _ => False | _ => True end ->
  parseUnicodeEscape (item_bytes i ++ s) = None.
Proof.
  destruct i as [b|c|h1 h2 h3 h4]; [intros [_ Hb] _|intros Hc _|done]; simpl.
  - apply Z.eqb_neq in Hb. rewrite Hb. by repeat case_match.
  - change (c <> ch "u") in Hc. apply Z.eqb_neq in Hc. rewrite Hc. by repeat case_match.
Qed.

Lemma parse_quote s : parseUnicodeEscape (quote :: s) = None.
Proof. simpl. by repeat case_match. Qed.

Lemma escapes_uni h1 h2 h3 h4 s : item_ok (Uni h1 h2 h3 h4) ->
  unicodeEscapesStorable (item_bytes (Uni h1 h2 h3 h4) ++ s) =
  let u := code_unit h1 h2 h3 h4 in
  negb (u =? 0) &&
  if is_high u then
    match parseUnicodeEscape s with
    | Some (l, s) => is_low l && unicodeEscapesStorable s
    | None => false
    end
  else negb (is_low u) && unicodeEscapesStorable s.
Proof.
  intros Hi. pose proof (parse_uni _ _ _ _ s Hi) as Hp. destruct (some_fuel (item_bytes (Uni h1 h2 h3 h4) ++ s)) as [f Hf].
  rewrite <- (escapes_fuel _ (S f)) by lia.
  cbn [item_bytes app length unicode_escapes] in *. rewrite !Z.eqb_refl. cbn [negb]. rewrite Hp. cbv zeta.
  destruct (code_unit h1 h2 h3 h4 =? 0); [done|]. cbn [negb andb].
  unfold is_high, highSurrogateStart, highSurrogateEnd, lowSurrogateStart, lowSurrogateEnd.
  destruct ((55296 <=? code_unit h1 h2 h3 h4) && _).
  - destruct (parseUnicodeEscape s) as [[l r]|] eqn:E; [|done]. apply parseUnicodeEscape_shorter in E.
    unfold is_low. rewrite !Z.ltb_antisym, <- negb_andb.
    destruct ((56320 <=? l) && (l <=? 57343)); simpl; [|done]. apply escapes_fuel. lia.
  - unfold is_low. destruct ((56320 <=? code_unit h1 h2 h3 h4) && _); simpl; [done|]. apply escapes_fuel. lia.
Qed.

Lemma escapes_items n items rest : (length items <= n)%nat -> Forall item_ok items ->
  unicodeEscapesStorable ((items ≫= item_bytes) ++ quote :: rest) =
  escapes_storable items && unicodeEscapesStorable rest.
Proof.
  revert items. induction n as [|n IH]; intros [|i items] Hn Hok; simpl in Hn; try lia; [by apply escapes_byte..|].
  apply Forall_cons in Hok as [Hi Hok]. csimpl. rewrite <- app_assoc.
  destruct i as [b|c|h1 h2 h3 h4].
  - cbn [item_bytes app]. destruct Hi as [_ Hb]. rewrite escapes_byte by done. apply IH; [lia|done].
  - cbn [item_bytes app]. rewrite escapes_simple by done. apply IH; [lia|done].
  - rewrite escapes_uni by done. cbv zeta. cbn [escapes_storable]. cbv zeta. rewrite <- andb_assoc. f_equal.
    destruct (is_high _).
    + destruct items as [|i items].
      { change (([] ≫= item_bytes) ++ quote :: rest) with (quote :: rest). by rewrite parse_quote. }
      apply Forall_cons in Hok as [Hi' Hok]. csimpl. rewrite <- app_assoc.
      destruct i as [b|c|l1 l2 l3 l4]; [by rewrite parse_not_uni by done..|].
      rewrite parse_uni by done. rewrite <- andb_assoc. f_equal. apply IH; [simpl in Hn; lia|done].
    + rewrite <- andb_assoc. f_equal. apply IH; [lia|done].
Qed.

(** What the byte scan checks is every string of the tree, keys included. *)
Lemma escapes_scan document t rest : parse document = Some (t, rest) -> skip_space rest = [] ->
  unicodeEscapesStorable document = tree_forall escapes_storable (fun _ => true) t.
Proof.
  apply (raw_scan_document unicodeEscapesStorable).
  - intros b s Hb. unfold plain in Hb. bool_hyps. by apply escapes_byte.
  - intros s items r [-> Hok]%(scan_string_spec (length s)); [|done]. rewrite escapes_byte by done.
    by apply (escapes_items (length items)).
  - intros s literal r (-> & Hall & _)%scan_number_spec _. simpl. clear -Hall.
    induction Hall as [|b bs Hb _ IH]; [done|]. simpl. rewrite escapes_byte; [done|]. by intros ->.
  - done.
Qed.

Lemma tree_forall_and str num t :
  tree_forall str (fun _ => true) t && tree_forall (fun _ => true) num t = tree_forall str num t.
Proof.
  induction t as [| | | |es IH|ms IH] using tree_ind'; simpl; try done; [by rewrite andb_true_r| |].
  - induction IH as [|e es He _ IHes]; [done|]. simpl. rewrite <- He, <- IHes.
    by destruct (tree_forall str _ e), (tree_forall _ num e); simpl; rewrite ?andb_false_r.
  - induction IH as [|[k v] ms Hv _ IHms]; [done|]. simpl in *. rewrite <- Hv, <- IHms.
    by destruct (str k), (tree_forall str _ v), (tree_forall _ num v); simpl; rewrite ?andb_false_r.
Qed.

Lemma tree_forall_mp (p q : list Z -> bool) t :
  tree_forall (fun _ => true) (fun l => negb (p l) || q l) t = true -> tree_forall (fun _ => true) p t = true ->
  tree_forall (fun _ => true) q t = true.
Proof.
  induction t as [| |l| |es IH|ms IH] using tree_ind'; try done; cbn [tree_forall].
  - by destruct (p l).
  - rewrite !forallb_Forall. intros H1 H2. rewrite Forall_forall in *. naive_solver.
  - rewrite !forallb_Forall. intros H1 H2. rewrite Forall_forall in *. intros [k v] Hin.
    specialize (IH _ Hin). specialize (H1 _ Hin). specialize (H2 _ Hin). simpl in *. auto.
Qed.

(** ** Which payloads are accepted *)

Lemma drop_while_head {A} (p : A -> bool) l x k : drop_while p l = x :: k -> p x = false.
Proof. induction l as [|y l IH]; simpl; [done|]. destruct (p y) eqn:Hy; [done|]. by intros [= <- _]. Qed.

Lemma drop_while_rev_head {A} (p : A -> bool) l x k : rev (drop_while p (rev l)) = x :: k -> exists k', l = x :: k'.
Proof.
  intros H. destruct (drop_while_suffix p (rev l)) as [pre Hpre]. apply (f_equal (@rev A)) in Hpre.
  rewrite rev_involutive, rev_app_distr, H in Hpre. by eexists.
Qed.

Lemma decode_invalid n s : (length s <= n)%nat ->
  Forall (fun r => match r with Invalid b => 128 <= b | Rune _ _ => True end) (decode s).
Proof.
  revert s. induction n as [|n IH]; intros [|b s] Hn; simpl in Hn; try lia; [constructor..|].
  cbn [decode]. destruct (Z.ltb_spec b 128); [constructor; [done|apply IH; lia]|].
  repeat case_match; constructor; try done; apply IH; subst; simpl in *; lia.
Qed.

(** Trimmed text does not begin with white space. *)
Lemma TrimSpace_skip bs : skip_space (TrimSpace bs) = TrimSpace bs.
Proof.
  unfold TrimSpace. pose proof (trim_runes_Forall _ _ (decode_wf bs)) as Hwf.
  pose proof (trim_runes_Forall _ _ (decode_invalid (length bs) bs (Nat.le_refl _))) as Hinv.
  destruct (trim_runes (decode bs)) as [|r rs] eqn:E; [done|].
  unfold trim_runes in E. cbv zeta in E. apply drop_while_rev_head in E as [k E]. apply drop_while_head in E.
  apply Forall_cons in Hwf as [Hwf _]. destruct Hwf as [Hne Hdec].
  unfold encode. csimpl. destruct r as [c enc|b]; cbn [rune_enc rune_valid rune_code] in *.
  - destruct enc as [|b enc]; [done|]. simpl. destruct (is_space b) eqn:Hb; [|done]. exfalso.
    destruct (Hdec eq_refl) as [_ Hd]. specialize (Hd []). cbn [app decode] in Hd.
    assert (Hlt : b <? 128 = true). { unfold is_space in Hb. apply Z.ltb_lt. bool_hyps. lia. }
    rewrite Hlt in Hd. injection Hd as <- _. simpl in E.
    unfold is_space in Hb. rewrite !orb_true_iff, !Z.eqb_eq in Hb. by destruct_or!; subst.
  - simpl. destruct (is_space b) eqn:Hb; [|done]. exfalso. apply Forall_cons in Hinv as [Hinv _].
    unfold is_space in Hb. rewrite !orb_true_iff, !Z.eqb_eq in Hb. lia.
Qed.

Lemma starts_object_spec s t rest : parse s = Some (t, rest) -> skip_space s = s ->
  starts_object s = true <-> exists members, t = JObject members.
Proof.
  unfold parse. intros H Hs. rewrite Hs in H. destruct s as [|b s]; [done|]. cbn [scan_value] in H. simpl starts_object.
  destruct (Z.eqb_spec b quote) as [->|_]; [apply bind_Some in H as ([? ?] & _ & [= <- _]); split; [done|by intros []]|].
  destruct (Z.eqb_spec b (ch "{")) as [->|_].
  { split; [intros _|done]. destruct (maxNestingDepth <=? 0); [done|]. destruct (expect (ch "}") (skip_space s)).
    - injection H as <- _. by eexists.
    - apply bind_Some in H as ([ms r] & _ & [= <- _]). by eexists. }
  split; [done|]. intros [ms ->].
  repeat match goal with
  | H : (if ?c then _ else _) = Some _ |- _ => destruct c; try discriminate H
  | H : (match ?o with Some _ => _ | None => _ end) = Some _ |- _ => destruct o; try discriminate H
  | H : _ ≫= _ = Some _ |- _ => apply bind_Some in H as (? & _ & H); try discriminate H
  | H : (let (_, _) := ?x in _) = Some _ |- _ => destruct x; try discriminate H
  end.
Qed.

#[local] Arguments tree_forall : simpl never.

Lemma ValidatePayload_iff payload :
  ValidatePayload payload = None <->
  Z.of_nat (length payload) <= MaxPayloadBytes /\ utf8_Valid (TrimSpace payload) = true /\
  exists members rest, parse (TrimSpace payload) = Some (JObject members, rest) /\ skip_space rest = [] /\
    tree_forall escapes_storable numberLiteralStorable (JObject members) = true.
Proof.
  unfold ValidatePayload. destruct (Z.ltb_spec MaxPayloadBytes (Z.of_nat (length payload))); [split; [done|lia]|].
  pose proof (TrimSpace_skip payload) as Hskip. cbv zeta. set (s := TrimSpace payload) in *. unfold json.Valid.
  destruct (parse s) as [[t rest]|] eqn:E; simpl negb.
  2: { rewrite orb_true_r. split; [done|]. by intros (_ & _ & ? & ? & ? & _). }
  pose proof (starts_object_spec s t rest E Hskip) as Hobj.
  destruct (starts_object s); simpl.
  2: { split; [done|]. intros (_ & _ & ms & r & [= -> _] & _). discriminate (proj2 Hobj (ex_intro _ ms eq_refl)). }
  destruct (proj1 Hobj eq_refl) as [ms ->]. case_bool_decide as Hrest; simpl.
  2: { split; [done|]. by intros (_ & _ & ms' & r & [= _ ->] & Hr & _). }
  rewrite (escapes_scan _ _ _ E Hrest), (numbers_scan _ _ _ E Hrest).
  pose proof (tree_forall_and escapes_storable numberLiteralStorable (JObject ms)) as Hand.
  destruct (utf8_Valid s); simpl; [|by split; [|intros (_ & ? & _)]].
  destruct (tree_forall escapes_storable (fun _ => true) (JObject ms)) eqn:He;
    destruct (tree_forall (fun _ => true) numberLiteralStorable (JObject ms)) eqn:Hn; simpl negb; simpl orb;
    simpl andb in Hand.
  - split; [|done]. intros _. split_and!; [done..|]. by exists ms, rest.
  - split; [done|]. intros (_ & _ & ms' & r & [= <- _] & _ & Ht). congruence.
  - split; [done|]. intros (_ & _ & ms' & r & [= <- _] & _ & Ht). congruence.
  - split; [done|]. intros (_ & _ & ms' & r & [= <- _] & _ & Ht). congruence.
Qed.

(** C28: Payload validation, which scans the raw bytes for number literals and \u
    escapes, accepts exactly the documents of at most 128 KiB that are valid UTF-8 and
    one JSON object in whose syntax tree every number literal fits Postgres numeric and
    every string, keys included, has no \u0000 and no unpaired surrogate escape: text
    inside strings that looks like a number, and escaped backslashes, do not confuse
    the scans. *)
Theorem ValidatePayload_exact payload :
  ValidatePayload payload = None <->
  Z.of_nat (length payload) <= MaxPayloadBytes /\ utf8_Valid (TrimSpace payload) = true /\
  exists members rest, parse (TrimSpace payload) = Some (JObject members, rest) /\ skip_space rest = [] /\
    tree_forall escapes_storable numberLiteralStorable (JObject members) = true.
Proof. exact (ValidatePayload_iff payload). Qed.

(** ** What the number check guarantees *)

Lemma digits_val_acc ds acc :
  fold_left (fun acc d => acc * 10 + (d - 48)) ds acc = acc * 10 ^ Z.of_nat (length ds) + digits_val ds.
Proof.
  unfold digits_val. revert acc. induction ds as [|d ds IH]; intros acc; simpl length.
  - simpl. lia.
  - cbn [fold_left]. rewrite (IH (acc * 10 + (d - 48))), (IH (0 * 10 + (d - 48))), Nat2Z.inj_succ, Z.pow_succ_r by lia. lia.
Qed.

Lemma digits_val_app a b : digits_val (a ++ b) = digits_val a * 10 ^ Z.of_nat (length b) + digits_val b.
Proof. unfold digits_val. rewrite fold_left_app. apply digits_val_acc. Qed.

Lemma digits_val_cons d ds : digits_val (d :: ds) = (d - 48) * 10 ^ Z.of_nat (length ds) + digits_val ds.
Proof. apply (digits_val_app [d] ds). Qed.

Lemma digits_val_bound ds : all_digits ds -> 0 <= digits_val ds < 10 ^ Z.of_nat (length ds).
Proof.
  induction 1 as [|d ds Hd _ IH]; [done|]. rewrite digits_val_cons. simpl length.
  rewrite Nat2Z.inj_succ, Z.pow_succ_r by lia. unfold json.is_digit in Hd. simpl in Hd. bool_hyps. nia.
Qed.

(** Leading zeros do not count. *)
Lemma digits_val_zeros ds rest : digits_val (drop_while (Z.eqb 48) ds ++ rest) = digits_val (ds ++ rest).
Proof.
  induction ds as [|d ds IH]; [done|]. cbn [drop_while]. destruct (Z.eqb_spec 48 d) as [<-|]; [|done].
  cbn [app]. rewrite digits_val_cons. fold (@drop_while Z (Z.eqb 48)). rewrite IH. lia.
Qed.

Lemma digits_not_byte p ds : all_digits ds -> (forall b, json.is_digit b = true -> p b = true) ->
  Forall (fun b => p b = true) ds.
Proof. intros H Hp. eapply Forall_impl; [exact H|]. eauto. Qed.

Lemma lower_digits ds : all_digits ds -> lower ds = ds.
Proof.
  unfold lower. induction 1 as [|d ds Hd _ IH]; [done|]. csimpl. rewrite IH. unfold lower_byte.
  unfold json.is_digit in Hd. simpl in Hd. bool_hyps. destruct (Z.leb_spec 65 d); [lia|]. done.
Qed.

Lemma Cut_at sep before after : Forall (fun b => negb (b =? sep) = true) before ->
  Cut sep (before ++ sep :: after) = (before, after, true).
Proof. intros H. unfold Cut. rewrite (span_stops _ before); [done..|]. by rewrite Z.eqb_refl. Qed.

Lemma Cut_none sep bs : Forall (fun b => negb (b =? sep) = true) bs -> Cut sep bs = (bs, [], false).
Proof. intros H. unfold Cut. rewrite <- (app_nil_r bs) at 1. by rewrite (span_stops _ bs). Qed.

(** The digits after the point of a literal's fraction part. *)
Definition frac_digits (frac : list Z) : list Z := tail frac.

(** The value of an exponent part. *)
Definition exp_val (exp : list Z) : Z :=
  match exp with
  | [] => 0
  | _ :: s => let (sign, ds) := scan_sign s in
              if bool_decide (sign = [ch "-"]) then - digits_val ds else digits_val ds
  end.

Lemma digit_not_sign d ds : all_digits (d :: ds) -> is_sign d = false /\ (d =? ch "-") = false.
Proof.
  intros [Hd _]%Forall_cons. unfold json.is_digit in Hd. simpl in Hd. bool_hyps. unfold is_sign.
  change (ch "+") with 43. change (ch "-") with 45. split; [apply orb_false_iff; split|]; apply Z.eqb_neq; lia.
Qed.

Lemma scan_sign_digits sign ds : sign = [] \/ sign = [ch "+"] \/ sign = [ch "-"] -> all_digits ds ->
  scan_sign (sign ++ ds) = (sign, ds).
Proof.
  intros [-> | [-> | ->]] Hds; simpl; [|done..]. destruct ds as [|d ds]; [done|]. simpl.
  apply digit_not_sign in Hds as [Hd _]. unfold is_sign in Hd. by rewrite Hd.
Qed.

Lemma drop_while_Forall_digits p ds : all_digits ds -> all_digits (drop_while p ds).
Proof. apply drop_while_Forall. Qed.

(** The exponent the check computes is the literal's. *)
Lemma literal_exponent_spec exp : exp_shape exp -> forall e,
  literal_exponent (tail exp) (bool_decide (exp <> [])) = Some e -> e = exp_val exp.
Proof.
  intros Hexp. destruct Hexp as [->|(e' & sign & ds & -> & _ & Hsign & Hne & Hds)]; intros e; [by intros [= <-]|].
  rewrite bool_decide_true by done. cbn [tail exp_val]. unfold literal_exponent. rewrite scan_sign_digits by done.
  assert (Hdrop : drop_while is_sign (sign ++ ds) = ds).
  { assert (Hd : drop_while is_sign ds = ds).
    { destruct ds as [|d ds]; [done|]. simpl. by apply digit_not_sign in Hds as [-> _]. }
    destruct Hsign as [-> | [-> | ->]]; simpl; done. }
  assert (Hneg : starts_minus (sign ++ ds) = bool_decide (sign = [ch "-"])).
  { destruct Hsign as [-> | [-> | ->]]; [|done..]. destruct ds as [|d ds]; [done|]. simpl.
    by apply digit_not_sign in Hds as [_ ->]. }
  rewrite Hdrop, Hneg. destruct (_ <? _); [done|].
  pose proof (drop_while_Forall_digits (Z.eqb 48) ds Hds) as Hds'.
  pose proof (digits_val_zeros ds []) as Hv. rewrite !app_nil_r in Hv.
  set (ds' := drop_while (Z.eqb 48) ds) in *.
  assert (Hatoi : (if bool_decide (ds' = []) then Some 0 else Atoi ds') = Some (digits_val ds)).
  { rewrite <- Hv. clearbody ds'. clear -Hds'. case_bool_decide as Hnil; [by rewrite Hnil|]. unfold Atoi.
    pose proof (scan_sign_digits [] ds' (or_introl eq_refl) Hds') as Hss. cbn [app] in Hss. rewrite Hss, bool_decide_false by done. simpl orb.
    assert (forallb json.is_digit ds' = true) as ->; [|done]. by apply forallb_Forall. }
  rewrite Hatoi. simpl. by intros [= <-].
Qed.

Lemma literal_parts_shape minus int frac exp : literal_shape minus int frac exp ->
  literal_parts (minus ++ int ++ frac ++ exp) = (minus, int, frac_digits frac, exp_val exp).
Proof.
  intros [minus' int' frac' exp' Hm Hne Hint Hfrac Hexp]. unfold literal_parts.
  assert (Hmin : forall s, scan_minus (minus' ++ int' ++ s) = (minus', int' ++ s)).
  { intros s. destruct int' as [|d ds]; [done|]. apply digit_not_sign in Hint as [_ Hd].
    destruct Hm as [-> | ->]; simpl; [by rewrite Hd|done]. }
  rewrite Hmin.
  assert (Hstop : forall s, all_digits s -> span json.is_digit (s ++ exp') = (s, exp')).
  { intros s Hs. apply span_stops; [done|]. destruct Hexp as [->|(e & sign & ds & -> & [-> | ->] & _)]; done. }
  destruct Hfrac as [->|(ds & -> & Hds)]; cbn [app frac_digits tail].
  - rewrite Hstop by done. destruct Hexp as [->|(e & sign & ds & -> & [-> | ->] & _)]; done.
  - rewrite (span_stops _ int') by done. simpl. rewrite Hstop by done. done.
Qed.

(** The value of a literal: a significand and a power of ten. *)
Definition literal_value (literal : list Z) : Z * Z :=
  let '(minus, int, frac, exp) := literal_parts literal in
  let m := digits_val (int ++ frac) in
  (if bool_decide (minus = []) then m else - m, exp - Z.of_nat (length frac)).

(** [m * 10^e] has at most 16383 digits after the point and is below 10^131072. *)
Definition fits_numeric (literal : list Z) : bool :=
  let '(m, e) := literal_value literal in
  (- numericMaxScale <=? e) &&
  (Z.abs m * 10 ^ (e + numericMaxScale) <? 10 ^ (numericMaxIntegerDigits + numericMaxScale)).

Lemma lower_app a b : lower (a ++ b) = lower a ++ lower b.
Proof. apply fmap_app. Qed.

Lemma digit_not b ds : all_digits ds -> json.is_digit b = false -> Forall (fun d => negb (d =? b) = true) ds.
Proof. intros H Hb. apply (digits_not_byte _ _ H). intros d Hd. apply negb_true_iff, Z.eqb_neq. intros ->. congruence. Qed.

(** The cuts at the exponent and at the point find the parts. *)
Lemma literal_cuts minus int frac exp : literal_shape minus int frac exp ->
  exists exponentText, Cut (ch "e") (lower (minus ++ int ++ frac ++ exp)) =
    (minus ++ int ++ frac, exponentText, bool_decide (exp <> [])) /\ exponentText = tail exp /\
  exists dot, Cut (ch ".") (trim_minus (minus ++ int ++ frac)) = (int, frac_digits frac, dot).
Proof.
  intros [minus' int' frac' exp' Hm Hne Hint Hfrac Hexp]. exists (tail exp').
  assert (Hlow : lower (minus' ++ int' ++ frac') = minus' ++ int' ++ frac').
  { rewrite !lower_app, (lower_digits int') by done. f_equal; [by destruct Hm as [-> | ->]|]. f_equal.
    destruct Hfrac as [->|(ds & -> & Hds)]; [done|]. change (lower (ch "." :: ds)) with (ch "." :: lower ds).
    by rewrite lower_digits. }
  assert (Hno : Forall (fun b => negb (b =? ch "e") = true) (minus' ++ int' ++ frac')).
  { rewrite !Forall_app. split_and!; [by destruct Hm as [-> | ->]; repeat constructor|by apply digit_not|].
    destruct Hfrac as [->|(ds & -> & Hds)]; [done|]. constructor; [done|by apply digit_not]. }
  assert (Htrim : trim_minus (minus' ++ int' ++ frac') = int' ++ frac').
  { unfold trim_minus. destruct int' as [|d ds]; [done|]. apply digit_not_sign in Hint as [_ Hd].
    destruct Hm as [-> | ->]; simpl; [by rewrite Hd|done]. }
  split_and!; [|done|].
  - replace (minus' ++ int' ++ frac' ++ exp') with ((minus' ++ int' ++ frac') ++ exp') by (by rewrite <- !app_assoc).
    rewrite lower_app, Hlow. destruct Hexp as [->|(e & sign & ds & -> & He & Hsign & Hds & Hdd)].
    + rewrite app_nil_r. by apply Cut_none.
    + rewrite bool_decide_true by done. cbn [tail].
      assert (lower (e :: sign ++ ds) = ch "e" :: sign ++ ds) as ->.
      { change (lower (e :: sign ++ ds)) with ((if (65 <=? e) && (e <=? 90) then e + 32 else e) :: lower (sign ++ ds)).
        rewrite lower_app, (lower_digits ds) by done. f_equal; [by destruct He as [-> | ->]|]. f_equal.
        by destruct Hsign as [-> | [-> | ->]]. }
      by apply Cut_at.
  - rewrite Htrim. destruct Hfrac as [->|(ds & -> & Hds)].
    + rewrite app_nil_r. exists false. cbn [frac_digits tail]. by apply Cut_none, digit_not.
    + exists true. cbn [frac_digits tail]. by apply Cut_at, digit_not.
Qed.

Lemma literal_fits s literal rest : scan_number s = Some (literal, rest) -> numberLiteralStorable literal = true ->
  fits_numeric literal = true.
Proof.
  intros (minus & int & frac & exp & -> & Hsh)%scan_number_shape.
  destruct (literal_cuts _ _ _ _ Hsh) as (text & H1 & -> & dot & H2).
  unfold numberLiteralStorable. rewrite H1. unfold fits_numeric, literal_value. rewrite (literal_parts_shape _ _ _ _ Hsh).
  destruct Hsh as [minus int frac exp Hm Hne Hint Hfrac Hexp].
  destruct (literal_exponent _ _) as [e|] eqn:E; [|done]. apply literal_exponent_spec in E as ->; [|done].
  rewrite H2. intros H. apply andb_true_iff in H as [Hi%Z.leb_le Hs%Z.leb_le].
  assert (Hfd : all_digits (frac_digits frac))
    by (destruct Hfrac as [->|(ds & -> & Hds)]; [by constructor|exact Hds]).
  pose proof (drop_while_Forall_digits (Z.eqb 48) int Hint) as Hd.
  pose proof (digits_val_bound (drop_while (Z.eqb 48) int ++ frac_digits frac)
    (proj2 (Forall_app _ _ _) (conj Hd Hfd))) as Hb.
  rewrite digits_val_zeros, length_app, Nat2Z.inj_add in Hb.
  set (m := digits_val (int ++ frac_digits frac)) in *. set (e := exp_val exp) in *.
  set (n := Z.of_nat (length (drop_while (Z.eqb 48) int))) in *. set (k := Z.of_nat (length (frac_digits frac))) in *.
  assert (Habs : Z.abs (if bool_decide (minus = []) then m else - m) = m)
    by (destruct (bool_decide (minus = [])); lia).
  rewrite Habs. apply andb_true_iff. rewrite Z.leb_le, Z.ltb_lt. split; [lia|].
  assert (Hn : n + e <= numericMaxIntegerDigits) by (revert Hi; destruct (Z.ltb_spec 0 e); lia).
  assert (0 <= n /\ 0 <= k) as [??] by (unfold n, k; lia).
  apply Z.lt_le_trans with (10 ^ (n + k) * 10 ^ (e - k + numericMaxScale)).
  - apply Z.mul_lt_mono_pos_r; [|lia]. apply Z.pow_pos_nonneg; lia.
  - rewrite <- Z.pow_add_r by lia. apply Z.pow_le_mono_r; lia.
Qed.

Lemma accepted_parts payload : ValidatePayload payload = None ->
  exists t rest, parse (TrimSpace payload) = Some (t, rest) /\ skip_space rest = [] /\
    numberLiteralsStorable (TrimSpace payload) = true.
Proof.
  unfold ValidatePayload, json.Valid. destruct (_ <? _); [done|]. cbv zeta.
  destruct (starts_object _); [|done]. destruct (parse (TrimSpace payload)) as [[t rest]|]; [|done].
  case_bool_decide; [|done]. destruct (utf8_Valid _), (unicodeEscapesStorable _); try done.
  destruct (numberLiteralsStorable _) eqn:E; [|done]. eauto.
Qed.

(** Every number literal of an accepted payload, wherever in the document, denotes a
    value that Postgres numeric holds: at most 16383 decimal places, and less than ten
    to the 131072 in absolute value.  Exponents of any length, leading zeros and signs
    included, the check never accepts a literal the insert would refuse. *)
Theorem accepted_numbers_fit payload : ValidatePayload payload = None ->
  exists t rest, parse (TrimSpace payload) = Some (t, rest) /\ tree_forall (fun _ => true) fits_numeric t = true.
Proof.
  intros (t & rest & Hp & Hrest & Hn)%accepted_parts. exists t, rest. split; [done|].
  rewrite (numbers_scan _ _ _ Hp Hrest) in Hn. apply (tree_forall_mp numberLiteralStorable); [|done].
  assert (Hnum : forall s l r, scan_number s = Some (l, r) -> stops r ->
    true = (negb (numberLiteralStorable l) || fits_numeric l) && true).
  { intros s l r Hl _. rewrite andb_true_r. destruct (numberLiteralStorable l) eqn:E; [|done].
    by rewrite (literal_fits _ _ _ Hl E). }
  symmetry. by apply (raw_scan_document (fun _ => true) (fun _ => true) (fun l => negb (numberLiteralStorable l) || fits_numeric l)
    ltac:(done) ltac:(done) Hnum _ _ _ eq_refl Hp Hrest).
Qed.

(** { "a" : [1e5, -0.250E-7], "1e99999999" : 0 } *)
Definition demo_payload : list Z :=
  [32; 123; 34; 97; 34; 58] ++ bytes "[1e5,-0.250E-7]," ++ [34] ++ bytes "1e99999999" ++ [34; 58; 48; 125; 10].

Lemma accepted_numbers_fit_witness :
  exists t rest, parse (TrimSpace demo_payload) = Some (t, rest) /\
    tree_forall (fun _ => true) fits_numeric t = true.
Proof. apply accepted_numbers_fit. vm_compute. reflexivity. Defined.

(** ** Numbers *)

(** Two decimals m * 10^e denote the same rational. *)
Definition same_rational (l r : Z * Z) : Prop :=
  forall e, e <= l.2 -> e <= r.2 -> l.1 * 10 ^ (l.2 - e) = r.1 * 10 ^ (r.2 - e).

Lemma scale_rational m e k d : d <= k -> k <= e -> m * 10 ^ (e - d) = m * 10 ^ (e - k) * 10 ^ (k - d).
Proof. intros. rewrite <- Z.mul_assoc, <- Z.pow_add_r by lia. do 2 f_equal. lia. Qed.

Lemma rat_eq_spec l r : rat_eq l r = true <-> same_rational l r.
Proof.
  unfold rat_eq, same_rational. rewrite Z.eqb_eq. split.
  - intros H e Hl Hr. set (k := Z.min l.2 r.2) in *.
    rewrite (scale_rational l.1 _ k), (scale_rational r.1 _ k), H by lia. done.
  - intros H. apply H; lia.
Qed.

Lemma rat_eq_trans l m r : rat_eq l m = true -> rat_eq m r = true -> rat_eq l r = true.
Proof.
  rewrite !rat_eq_spec. intros H1 H2 e Hl Hr. set (d := Z.min e m.2).
  assert (Heq : l.1 * 10 ^ (l.2 - e) * 10 ^ (e - d) = r.1 * 10 ^ (r.2 - e) * 10 ^ (e - d)).
  { rewrite <- !scale_rational by lia. rewrite (H1 d), (H2 d) by lia. done. }
  apply Z.mul_cancel_r in Heq; [done|]. apply Z.pow_nonzero; lia.
Qed.

(** Equal as literals, or as the rationals they denote. *)
Definition same_number (left right : list Z) : Prop :=
  left = right \/ exists l r, rat_SetString left = Some l /\ rat_SetString right = Some r /\ same_rational l r.

Lemma sameJSONNumber_spec left right : sameJSONNumber left right = true <-> same_number left right.
Proof.
  unfold sameJSONNumber, same_number. rewrite orb_true_iff, bool_decide_eq_true. f_equiv.
  destruct (rat_SetString left) as [l|]; [|by split; [|intros (? & ? & ? & _)]].
  destruct (rat_SetString right) as [r|]; [|by split; [|intros (? & ? & _ & ? & _)]].
  rewrite rat_eq_spec. naive_solver.
Qed.

Lemma same_number_sym left right : same_number left right -> same_number right left.
Proof.
  intros [->|(l & r & Hl & Hr & H)]; [by left|]. right. exists r, l. split_and!; [done..|].
  intros e H1 H2. symmetry. by apply H.
Qed.

Lemma same_number_trans a b c : same_number a b -> same_number b c -> same_number a c.
Proof.
  intros [->|(l & m & Hl & Hm & H1)] [<-|(m' & r & Hm' & Hr & H2)]; unfold same_number; eauto 6.
  right. exists l, r. simplify_eq. split_and!; [done..|]. rewrite <- !rat_eq_spec in *. by eapply rat_eq_trans.
Qed.

(** ** Values *)

(** Arrays by position, objects by key whatever the order of their members. *)
Inductive same_value : value -> value -> Prop :=
  | same_null : same_value VNull VNull
  | same_bool b : same_value (VBool b) (VBool b)
  | same_num l r : same_number l r -> same_value (VNumber l) (VNumber r)
  | same_string text : same_value (VString text) (VString text)
  | same_array l r : Forall2 same_value l r -> same_value (VArray l) (VArray r)
  | same_object l r : (forall key, option_Forall2 same_value (assoc key l) (assoc key r)) ->
      same_value (VObject l) (VObject r).

Lemma assoc_in {A} key (v : A) ms : assoc key ms = Some v -> (key, v) ∈ ms.
Proof.
  induction ms as [|[k w] ms IH]; simpl; [done|]. rewrite elem_of_cons.
  case_bool_decide; [intros [= ->]; subst; by left|]. right. auto.
Qed.

Lemma value_ok_array es : value_ok (VArray es) <-> Forall value_ok es.
Proof. apply fold_and_Forall. Qed.

Lemma value_ok_object ms : value_ok (VObject ms) <-> NoDup ms.*1 /\ Forall (fun m => value_ok m.2) ms.
Proof. simpl. by rewrite (fold_and_Forall (fun m : list Z * value => value_ok m.2)). Qed.

Lemma same_value_refl v : same_value v v.
Proof.
  induction v as [| | | |es IH|ms IH] using value_ind'; constructor; [by left|..].
  - induction IH; constructor; auto.
  - intros key. destruct (assoc key ms) as [v|] eqn:E; constructor. apply assoc_in in E.
    by apply (proj1 (Forall_forall _ _) IH _ E).
Qed.

Lemma same_value_sym v : forall w, same_value v w -> same_value w v.
Proof.
  induction v as [| | | |es IH|ms IH] using value_ind'; intros w H; inversion H as [| |? ? Hn| |? r Hr|? r Hr]; subst;
    constructor.
  - by apply same_number_sym.
  - clear H. induction Hr as [|x y l r Hxy _ IHr]; constructor; apply Forall_cons in IH as [Hx IH]; auto.
  - intros key. specialize (Hr key). inversion Hr as [x y Hxy Ex Ey|Ex Ey]; constructor.
    symmetry in Ex. apply assoc_in in Ex. by apply (proj1 (Forall_forall _ _) IH _ Ex).
Qed.

Lemma same_value_trans u : forall v w, same_value u v -> same_value v w -> same_value u w.
Proof.
  induction u as [| | | |es IH|ms IH] using value_ind'; intros v w H1 H2;
    inversion H1 as [| |? ? Hn| |? r Hr|? r Hr]; subst; inversion H2 as [| |? ? Hn'| |? r' Hr'|? r' Hr']; subst;
    constructor.
  - by eapply same_number_trans.
  - clear H1 H2. revert r' Hr'. induction Hr as [|x y l r Hxy _ IHr]; intros r' Hr'; inversion Hr'; subst; constructor;
      apply Forall_cons in IH as [Hx IH]; eauto.
  - intros key. specialize (Hr key). specialize (Hr' key).
    inversion Hr as [x y Hxy Ex Ey|Ex Ey]; rewrite <- Ey in Hr'; inversion Hr'; subst; constructor.
    symmetry in Ex. apply assoc_in in Ex. by eapply (proj1 (Forall_forall _ _) IH _ Ex).
Qed.

(** *** The comparison decides it *)

Lemma sameJSONValue_array l : forall r, Forall (fun x => forall y, value_ok x -> value_ok y ->
    sameJSONValue x y = true <-> same_value x y) l -> Forall value_ok l -> Forall value_ok r ->
  sameJSONValue (VArray l) (VArray r) = true <-> Forall2 same_value l r.
Proof.
  cbn [sameJSONValue]. induction l as [|x l IH]; intros [|y r] HP Hl Hr.
  - by split.
  - split; [done|]. intros H. inversion H.
  - split; [done|]. intros H. inversion H.
  - apply Forall_cons in HP as [Hx HP], Hl as [Hxl Hl], Hr as [Hyr Hr]. specialize (IH r HP Hl Hr).
    rewrite andb_true_iff, bool_decide_eq_true in IH |- *. rewrite andb_true_iff, Hx, Forall2_cons, <- IH by done.
    simpl. split; [intros (? & ? & ?)|intros (? & ? & ?)]; split_and!; auto.
Qed.

(** As many members, each key of the one in the other: no key is left over. *)
Lemma keys_cover {A} (l r : list (list Z * A)) : NoDup l.*1 -> NoDup r.*1 -> length l = length r ->
  (forall key, key ∈ l.*1 -> key ∈ r.*1) -> forall key, key ∈ r.*1 -> key ∈ l.*1.
Proof.
  intros Hl Hr Hlen Hsub key Hkey. assert (Hperm : l.*1 ≡ₚ r.*1).
  { apply submseteq_length_Permutation; [by apply NoDup_submseteq|]. rewrite !length_fmap. lia. }
  by rewrite Hperm.
Qed.

Lemma sameJSONValue_object l r : Forall (fun m => forall y, value_ok m.2 -> value_ok y ->
    sameJSONValue m.2 y = true <-> same_value m.2 y) l -> value_ok (VObject l) -> value_ok (VObject r) ->
  sameJSONValue (VObject l) (VObject r) = true <-> forall key, option_Forall2 same_value (assoc key l) (assoc key r).
Proof.
  intros HP [Hndl Hl]%value_ok_object [Hndr Hr]%value_ok_object. cbn [sameJSONValue].
  rewrite andb_true_iff, bool_decide_eq_true, forallb_Forall, !Forall_forall in *.
  assert (Hkeys : forall key (ms : list (list Z * value)), key ∈ ms.*1 <-> is_Some (assoc key ms)).
  { intros key ms. pose proof (assoc_None key ms). destruct (assoc key ms) as [v|] eqn:E.
    - split; [by eexists|]. intros _. apply list_elem_of_fmap. exists (key, v). by split; [|apply assoc_in].
    - split; [intros; by apply H in H0|by intros []]. }
  split.
  - intros [Hlen Hall] key.
    assert (Hin : forall key v, assoc key l = Some v -> exists w, assoc key r = Some w /\ same_value v w).
    { intros k v E. pose proof (assoc_in _ _ _ E) as Hk. specialize (Hall _ Hk). simpl in Hall.
      destruct (assoc k r) as [w|] eqn:Ew; [|done]. exists w. split; [done|].
      apply (HP _ Hk); [by apply (Hl (k, v))|by apply (Hr (k, w)), assoc_in|done]. }
    destruct (assoc key l) as [v|] eqn:E; [destruct (Hin _ _ E) as (w & -> & ?); by constructor|].
    destruct (assoc key r) as [w|] eqn:Ew; [|constructor]. exfalso.
    assert (key ∈ l.*1) as Hk; [|by apply Hkeys in Hk as [? ?]; congruence].
    apply (keys_cover l r); [done..| |apply Hkeys; eauto]. intros k [v Hv]%Hkeys. apply Hkeys.
    destruct (Hin _ _ Hv) as (w' & ? & _). eauto.
  - intros Hall. assert (Hperm : l.*1 ≡ₚ r.*1).
    { apply NoDup_Permutation; [done..|]. intros key. rewrite !Hkeys. specialize (Hall key).
      inversion Hall; split; eauto. }
    split; [apply Permutation_length in Hperm; by rewrite !length_fmap in Hperm|].
    intros [key v] Hk. pose proof (proj2 (assoc_Some key v l Hndl) Hk) as E. specialize (Hall key). rewrite E in Hall.
    inversion Hall as [v' w Hvw Ev Ew|]; subst. symmetry in Ew.
    apply (HP _ Hk); [by apply (Hl (key, v))|by apply (Hr (key, w)), assoc_in|done].
Qed.

Lemma sameJSONValue_spec v : forall w, value_ok v -> value_ok w -> sameJSONValue v w = true <-> same_value v w.
Proof.
  induction v as [|b|l|text|es IH|ms IH] using value_ind'; intros w Hv Hw.
  - destruct w; split; try done; [constructor|inversion 1..].
  - destruct w; try (split; [done|inversion 1]). simpl. rewrite Bool.eqb_true_iff.
    split; [intros ->; constructor|by inversion 1].
  - destruct w; try (split; [done|inversion 1]). simpl. rewrite sameJSONNumber_spec. split; [by constructor|by inversion 1].
  - destruct w; try (split; [done|inversion 1]). simpl. rewrite bool_decide_eq_true.
    split; [intros ->; constructor|by inversion 1].
  - destruct w; try (split; [done|inversion 1]). rewrite value_ok_array in Hv, Hw. rewrite sameJSONValue_array by done.
    split; [by constructor|by inversion 1].
  - destruct w; try (split; [done|inversion 1]). rewrite sameJSONValue_object by done.
    split; [by constructor|by inversion 1].
Qed.

Lemma decode_ok document v : decodeJSONValue document = Some v -> value_ok v.
Proof.
  unfold decodeJSONValue. destruct (parse document) as [[t rest]|]; [|done]. destruct (More rest); [done|].
  intros [= <-]. apply interpret_ok.
Qed.

(** Two payloads compare equal exactly when both decode and denote the same JSON
    value: objects by key whatever the order, arrays by position, numbers as exact
    rationals (or as identical literals beyond the exponents the comparison computes
    with).  That is an equivalence of decodable documents, so an identical retry always
    compares equal to what is stored. *)
Theorem samePayload_equivalence :
  (forall stored submitted, samePayload stored submitted = true <->
    exists v w, decodeJSONValue stored = Some v /\ decodeJSONValue submitted = Some w /\ same_value v w) /\
  (forall document, samePayload document document = bool_decide (is_Some (decodeJSONValue document))) /\
  (forall a b, samePayload a b = samePayload b a) /\
  (forall a b c, samePayload a b = true -> samePayload b c = true -> samePayload a c = true).
Proof.
  assert (Hspec : forall a b, samePayload a b = true <->
    exists v w, decodeJSONValue a = Some v /\ decodeJSONValue b = Some w /\ same_value v w).
  { intros a b. unfold samePayload. destruct (decodeJSONValue a) as [v|] eqn:Ea; [|by split; [|intros (? & ? & ? & _)]].
    destruct (decodeJSONValue b) as [w|] eqn:Eb; [|by split; [|intros (? & ? & _ & ? & _)]].
    apply decode_ok in Ea, Eb. rewrite sameJSONValue_spec by done. naive_solver. }
  split_and!; [exact Hspec| | |].
  - intros d. apply eq_bool_prop_intro. rewrite !Is_true_true, Hspec, bool_decide_eq_true. split.
    + intros (v & _ & -> & _). eauto.
    + intros [v ->]. exists v, v. split_and!; [done..|apply same_value_refl].
  - intros a b. apply eq_bool_prop_intro. rewrite !Is_true_true, !Hspec.
    split; intros (v & w & ? & ? & ?%same_value_sym); eauto.
  - intros a b c (v & w & Ha & Hb & H1)%Hspec (w' & x & Hb' & Hc & H2)%Hspec. apply Hspec.
    simplify_eq. exists v, x. split_and!; [done..|]. by eapply same_value_trans.
Qed.
