(* ===== verification/HeartbeatSeal.v ===== *)
(** * HeartbeatSeal

    probe_seal.go of package [heartbeat]: the Access token of a probe check, encoded as
    JSON and sealed under the check's id.  The AEAD is the parameter of Seal.v; the
    encoding and the decoding into the two-field struct are defined here. *)

From S2P Require Import Prelude GoText Utf8 GoFormat Idents Std Json JsonProps JsonEncode Seal Registry Heartbeat.
Open Scope Z_scope.
Import heartbeat.

Module heartbeat_seal.
Definition probeAccessAADPrefix : string := "delivery-api/heartbeat-probe/v1:".

Definition errNoSealer : error := Sentinel "heartbeat: no sealer configured for probe access token".
Definition errMalformedAccessToken : error := Sentinel "heartbeat: malformed access token".

(** ** Decoding into the struct

    [encoding/json] looks a member's key up among the field names as it is, then under
    case folding; a null leaves the field, a string sets it, anything else is an error
    of the whole document. *)

Definition fold_rune (c : Z) : Z :=
  if (97 <=? c) && (c <=? 122) then c - 32
  else if c =? 383 then 83 else if c =? 8490 then 75 else c.
Definition foldName (key : list Z) : list Z := (fun r => fold_rune (rune_code r)) <$> decode key.

Inductive access_field : Type := FieldClientID | FieldClientSecret.
Definition field_name (f : access_field) : list Z :=
  match f with FieldClientID => bytes "client_id" | FieldClientSecret => bytes "client_secret" end.

Definition access_field_of (key : list Z) : option access_field :=
  let among (matches : list Z -> bool) :=
    if matches (field_name FieldClientID) then Some FieldClientID
    else if matches (field_name FieldClientSecret) then Some FieldClientSecret else None in
  match among (fun name => bool_decide (name = key)) with
  | Some f => Some f
  | None => among (fun name => bool_decide (foldName name = foldName key))
  end.

Definition set_field (f : access_field) (value : string) (token : AccessToken) : AccessToken :=
  match f with
  | FieldClientID => token {{ ClientID := value }}
  | FieldClientSecret => token {{ ClientSecret := value }}
  end.

(** One member: the struct so far, and whether every value could be assigned. *)
Definition assign_member (decoded : AccessToken * bool) (member : list json.item * json.tree) : AccessToken * bool :=
  match access_field_of (json.unquote member.1) with
  | None => decoded
  | Some f =>
    match member.2 with
    | json.JNull => decoded
    | json.JString items => (set_field f (of_bytes (json.unquote items)) decoded.1, decoded.2)
    | _ => (decoded.1, false)
    end
  end.

Definition no_token : AccessToken := {| ClientID := EmptyString; ClientSecret := EmptyString |}.

(** [json.Unmarshal(plaintext, &decoded)] *)
Definition unmarshal_access (plaintext : list Z) : option AccessToken :=
  match json.parse plaintext with
  | Some (t, rest) =>
    if negb (bool_decide (json.skip_space rest = [])) then None
    else match t with
    | json.JNull => Some no_token
    | json.JObject members =>
      let decoded := fold_left assign_member members (no_token, true) in
      if decoded.2 then Some decoded.1 else None
    | _ => None
    end
  | None => None
  end.

(** ** Sealing and opening *)

Definition ProbeAccessAAD (checkID : Z) : list Z := bytes (probeAccessAADPrefix +:+ pretty checkID).

(** [json.Marshal] of the struct; it does not fail. *)
Definition marshal_access (token : AccessToken) : list Z :=
  json_encode.Marshal (json_encode.of_struct [
    ("client_id", json_encode.of_string (ClientID token));
    ("client_secret", json_encode.of_string (ClientSecret token))])%string.

Definition sealProbeAccessToken (sealer : option seal.Sealer) (nonce : option (list Z)) (checkID : Z)
    (token : AccessToken) : result (list Z) :=
  match sealer with
  | None => Err errNoSealer
  | Some sealer => seal.Seal sealer nonce (marshal_access token) (ProbeAccessAAD checkID)
  end.

Definition OpenProbeAccessToken (sealer : option seal.Sealer) (checkID : Z) (sealed : list Z) : result AccessToken :=
  match sealer with
  | None => Err errNoSealer
  | Some sealer =>
    plaintext ← seal.Open sealer sealed (ProbeAccessAAD checkID);
    match unmarshal_access plaintext with
    | None => Err errMalformedAccessToken
    | Some decoded =>
      if String.eqb (ClientID decoded) EmptyString || String.eqb (ClientSecret decoded) EmptyString
      then Err errMalformedAccessToken else Ok decoded
    end
  end.

(** ** The round trip *)

Lemma struct_valid n fields : 0 < n -> Forall (fun p : string * json.tree => json_encode.tree_valid (n - 1) p.2) fields ->
  json_encode.tree_valid n (json_encode.of_struct fields).
Proof.
  intros Hn Hf. constructor; [done|]. apply Forall_fmap. eapply Forall_impl; [exact Hf|].
  intros [k t] Ht. split; [apply json_encode.string_items_valid|done].
Qed.

Lemma string_valid n s : json_encode.tree_valid n (json_encode.of_string s).
Proof. constructor. apply json_encode.string_items_valid. Qed.

Lemma assign_string name f value decoded : ValidString name = true -> access_field_of (bytes name) = Some f ->
  ValidString value = true ->
  assign_member decoded (json_encode.string_items name, json_encode.of_string value) =
    (set_field f value decoded.1, decoded.2).
Proof.
  intros Hn Hf Hv. unfold assign_member, json_encode.of_string. cbn [fst snd].
  by rewrite !json_encode.unquote_string, Hf, of_bytes_bytes by done.
Qed.

Lemma client_id_field : access_field_of (bytes "client_id") = Some FieldClientID.
Proof. vm_compute. reflexivity. Qed.
Lemma client_secret_field : access_field_of (bytes "client_secret") = Some FieldClientSecret.
Proof. vm_compute. reflexivity. Qed.

Lemma unmarshal_marshal token : ValidString (ClientID token) = true -> ValidString (ClientSecret token) = true ->
  unmarshal_access (marshal_access token) = Some token.
Proof.
  intros Hi Hs. unfold unmarshal_access, marshal_access, json_encode.Marshal.
  rewrite json_encode.parse_spell by (apply struct_valid; [done|]; rewrite !Forall_cons; split_and!; [apply string_valid..|done]).
  cbn [fmap list_fmap json_encode.of_struct fold_left negb bool_decide json.skip_space drop_while fst snd].
  assert (ValidString "client_id" = true /\ ValidString "client_secret" = true) as [H1 H2] by (split; vm_compute; reflexivity).
  pose proof (assign_string _ FieldClientID (ClientID token) (no_token, true) H1 client_id_field Hi) as ->.
  pose proof (assign_string _ FieldClientSecret (ClientSecret token)
    (set_field FieldClientID (ClientID token) (no_token, true).1, (no_token, true).2) H2 client_secret_field Hs) as ->.
  by destruct token.
Qed.

Lemma ProbeAccessAAD_inj i j : ProbeAccessAAD i = ProbeAccessAAD j -> i = j.
Proof.
  unfold ProbeAccessAAD. intros H. apply (f_equal of_bytes) in H. rewrite !of_bytes_bytes in H.
  by apply string_app_inj, (inj pretty) in H.
Qed.

(** A probe's Access token survives sealing under its check, and is of no use on another
    one.  For any token of valid UTF-8 with both parts non-empty, as the validator demands:
    what [sealProbeAccessToken] stores for a check, [OpenProbeAccessToken] gives back for
    that check; for any other check id, when the cipher authenticates its data, it fails
    with the decryption error; and without a sealer both fail closed. *)
Theorem access_token_roundtrip sealer nonce checkID token :
  seal.AEAD_laws (seal.aead sealer) -> length nonce = seal.nonceSize ->
  ValidString (ClientID token) = true -> ValidString (ClientSecret token) = true ->
  ClientID token <> EmptyString -> ClientSecret token <> EmptyString ->
  (forall pt aad aad', aad <> aad' ->
     seal.aead_open (seal.aead sealer) nonce (seal.aead_seal (seal.aead sealer) nonce pt aad) aad' = None) ->
  seal.previousAEAD sealer = None ->
  exists sealed, sealProbeAccessToken (Some sealer) (Some nonce) checkID token = Ok sealed /\
    OpenProbeAccessToken (Some sealer) checkID sealed = Ok token /\
    (forall other, other <> checkID -> OpenProbeAccessToken (Some sealer) other sealed = Err seal.ErrDecrypt) /\
    sealProbeAccessToken None (Some nonce) checkID token = Err errNoSealer /\
    OpenProbeAccessToken None checkID sealed = Err errNoSealer.
Proof.
  intros Hl Hn Hi Hs Hi0 Hs0 Hauth Hprev. eexists. split; [done|].
  pose proof (seal.aead_overhead _ Hl nonce (marshal_access token) (ProbeAccessAAD checkID)) as Hlen.
  unfold OpenProbeAccessToken, seal.Open. split_and!; [| |done|done].
  - rewrite seal.OpenReportingKey_sealed by (done || lia). rewrite (seal.aead_roundtrip _ Hl). cbn [fst mbind result_bind].
    rewrite unmarshal_marshal by done. by rewrite !(proj2 (String.eqb_neq _ _)) by done.
  - intros other Hne. rewrite seal.OpenReportingKey_sealed by (done || lia). rewrite Hauth, Hprev; [done|].
    intros He%ProbeAccessAAD_inj. done.
Qed.
End heartbeat_seal.
