(* ===== verification/Unmarshal.v ===== *)
(** * Unmarshal

    encoding/json into Go structs, over the syntax trees of Json.v: how a member finds
    its field, what each kind of field takes from a value (a null, a repeated member, a
    slice that is written over), the raw bytes a [json.RawMessage] keeps, and the
    rejection of unknown fields.  A struct is described by its list of fields. *)

From S2P Require Import Prelude GoText Utf8 Std Json JsonProps Message MessageValidate HeartbeatSeal.
Open Scope Z_scope.
Import json.

Module unmarshal.

(** ** Values with the bytes they are spelled with *)

Record node := { value : tree; raw : list Z }.

(** The members of an object that begins a document, from the first key; the scan is
    that of [scan_members]. *)
Fixpoint raw_members (fuel : nat) (s : list Z) : option (list (list item * node) * list Z) :=
  match fuel with
  | S fuel =>
    s ← expect quote s;
    '(key, s) ← scan_string s;
    s ← expect (ch ":") (skip_space s);
    let s := skip_space s in
    '(v, rest) ← scan_value fuel 1 s;
    let n := {| value := v; raw := take (length s - length rest) s |} in
    match expect (ch "}") (skip_space rest) with
    | Some rest => Some ([(key, n)], rest)
    | None =>
      s ← expect (ch ",") (skip_space rest);
      '(members, rest) ← raw_members fuel (skip_space s);
      Some ((key, n) :: members, rest)
    end
  | O => None
  end.

(** The members of the object a document begins with. *)
Definition object_members (document : list Z) : list (list item * node) :=
  let s := skip_space document in
  match s with
  | _ :: rest => match raw_members (2 * length s) (skip_space rest) with Some (members, _) => members | None => [] end
  | [] => []
  end.

(** ** Fields

    What assigning a value to a field makes of the struct; [None] fails the document. *)

Record field (S : Type) := { field_name : string; assign : node -> S -> option S }.
#[global] Arguments field_name {S} _.
#[global] Arguments assign {S} _ _ _.

(** Among the names as they are, then under case folding, the first field of each. *)
Definition field_of {S} (fields : list (field S)) (key : list Z) : option (field S) :=
  match List.find (fun f => bool_decide (bytes (field_name f) = key)) fields with
  | Some f => Some f
  | None => List.find (fun f => bool_decide (heartbeat_seal.foldName (bytes (field_name f)) = heartbeat_seal.foldName key)) fields
  end.

Definition assign_member {S} (strict : bool) (fields : list (field S)) (s : option S) (member : list item * node) : option S :=
  s ← s;
  match field_of fields (unquote member.1) with
  | Some f => assign f member.2 s
  | None => if strict then None else Some s
  end.

Definition into_struct {S} (strict : bool) (fields : list (field S)) (members : list (list item * node)) (s : S) : option S :=
  fold_left (assign_member strict fields) members (Some s).

(** ** Kinds of field *)

Definition into_string (n : node) (current : string) : option string :=
  match value n with JNull => Some current | JString items => Some (of_bytes (unquote items)) | _ => None end.
Definition into_bool (n : node) (current : bool) : option bool :=
  match value n with JNull => Some current | JBool b => Some b | _ => None end.
Definition into_int (n : node) (current : Z) : option Z :=
  match value n with JNull => Some current | JNumber literal => envint.Atoi (of_bytes literal) | _ => None end.

(** A pointer: null is nil, and a value is decoded into what it points to. *)
Definition into_pointer {A} (into : node -> A -> option A) (zero : A) (n : node) (current : option A) : option (option A) :=
  match value n with JNull => Some None | _ => Some <$> into n (default zero current) end.

(** [json.RawMessage], null included; empty when the member is absent *)
Definition into_raw (n : node) (_ : list Z) : option (list Z) := Some (raw n).

(** A struct inside; the nodes within are not kept raw. *)
Definition into_nested {S} (strict : bool) (fields : list (field S)) (n : node) (s : S) : option S :=
  match value n with
  | JNull => Some s
  | JObject members => into_struct strict fields ((fun m => (m.1, {| value := m.2; raw := [] |})) <$> members) s
  | _ => None
  end.

(** A map of strings: null is nil, members are added to the map there is. *)
Definition into_map (n : node) (current : option (gmap string string)) : option (option (gmap string string)) :=
  match value n with
  | JNull => Some None
  | JObject members =>
    Some <$> fold_left (fun m member =>
      m ← m; v ← into_string {| value := member.2; raw := [] |} EmptyString; Some (<[of_bytes (unquote member.1) := v]> m))
      members (Some (default ∅ current))
  | _ => None
  end.

(** A slice: its elements, and what its array holds beyond them, which an element
    decoded there later starts from. *)
Record slice (A : Type) := { elements : list A; spare : list A }.
#[global] Arguments elements {A} _.
#[global] Arguments spare {A} _.

Fixpoint into_elements {A} (into : node -> A -> option A) (zero : A) (values : list tree) (array : list A) : option (list A) :=
  match values with
  | [] => Some []
  | v :: values =>
    a ← into {| value := v; raw := [] |} (default zero (head array));
    rest ← into_elements into zero values (tail array);
    Some (a :: rest)
  end.

Definition into_slice {A} (into : node -> A -> option A) (zero : A) (n : node) (current : option (slice A)) : option (option (slice A)) :=
  match value n with
  | JNull => Some None
  | JArray [] => Some (Some {| elements := []; spare := [] |})
  | JArray values =>
    let array := match current with Some s => elements s ++ spare s | None => [] end in
    decoded ← into_elements into zero values array;
    Some (Some {| elements := decoded; spare := drop (length values) array |})
  | _ => None
  end.

(** The elements of a slice, nil when it is nil. *)
Definition slice_of {A} (s : option (slice A)) : option (list A) := elements <$> s.

(** ** Documents *)

(** A value at the beginning of a document into a struct *)
Definition decode_value {S} (strict : bool) (fields : list (field S)) (document : list Z) (t : tree) (s : S) : option S :=
  match t with
  | JNull => Some s
  | JObject _ => into_struct strict fields (object_members document) s
  | _ => None
  end.

(** [json.Unmarshal] into a struct *)
Definition Unmarshal {S} (fields : list (field S)) (document : list Z) (s : S) : option S :=
  '(t, rest) ← parse document;
  if bool_decide (skip_space rest = []) then decode_value false fields document t s else None.

(** [json.Unmarshal] into a value of another kind *)
Definition Unmarshal_value {A} (into : node -> A -> option A) (document : list Z) (a : A) : option A :=
  '(t, rest) ← parse document;
  if bool_decide (skip_space rest = []) then into {| value := t; raw := [] |} a else None.

(** ** The members with their bytes are the members of the tree *)

Lemma raw_members_agree fuel s members rest :
  scan_members fuel 1 s = Some (members, rest) ->
  exists located, raw_members fuel s = Some (located, rest) /\ members = (fun m => (m.1, value m.2)) <$> located.
Proof.
  revert s members rest. induction fuel as [|fuel IH]; intros s members rest; [done|]. simpl.
  destruct (expect quote s) as [s1|]; [|done]. simpl. destruct (scan_string s1) as [[key s2]|]; [|done]. simpl.
  destruct (expect _ (skip_space s2)) as [s3|]; [|done]. simpl.
  destruct (scan_value fuel 1 _) as [[v s4]|]; [|done]. simpl.
  destruct (expect _ (skip_space s4)) as [s5|].
  { intros [= <- <-]. eexists. by split. }
  destruct (expect _ (skip_space s4)) as [s5|]; [|done]. simpl.
  destruct (scan_members fuel 1 _) as [[ms s6]|] eqn:E; [|done]. intros [= <- <-].
  destruct (IH _ _ _ E) as (located & -> & ->). eexists. split; [done|]. done.
Qed.

(** The object a document parses to is spelled by its located members. *)
Lemma object_members_agree document members rest :
  parse document = Some (JObject members, rest) -> members = (fun m => (m.1, value m.2)) <$> object_members document.
Proof.
  unfold parse, object_members. destruct (skip_space document) as [|b s]; [done|].
  generalize (2 * length (b :: s))%nat. intros fuel. cbn [scan_value].
  destruct (b =? quote); [by destruct (scan_string s) as [[]|]|]. destruct (b =? ch "{") eqn:Eb.
  - destruct (_ <=? _); [done|]. destruct (expect (ch "}") (skip_space s)) eqn:Ee.
    { intros [= <- <-]. destruct (skip_space s) as [|c s1]; [done|]. simpl in Ee.
      destruct (c =? ch "}") eqn:Ec; [|done]. apply Z.eqb_eq in Ec as ->. destruct fuel; done. }
    destruct (scan_members fuel _ _) as [[ms r]|] eqn:Em; [|done]. intros [= <- <-].
    by destruct (raw_members_agree _ _ _ _ Em) as (located & -> & ->).
  - intros H. exfalso. repeat (case_match; try done); repeat (match goal with H : context [mbind _ ?x] |- _ => destruct x as [[]|] || destruct x end; try done).
Qed.

(** ** A field read on its own *)

Lemma field_of_spec {S} (fields : list (field S)) key f : field_of fields key = Some f ->
  In f fields /\ heartbeat_seal.foldName (bytes (field_name f)) = heartbeat_seal.foldName key.
Proof.
  unfold field_of. destruct (List.find _ fields) as [g|] eqn:E.
  - intros [= <-]. apply List.find_some in E as [Hin He]. bool_hyps. by subst.
  - intros H. apply List.find_some in H as [Hin He]. by bool_hyps.
Qed.

Lemma field_of_single {S} (f : field S) key :
  field_of [f] key = if bool_decide (heartbeat_seal.foldName (bytes (field_name f)) = heartbeat_seal.foldName key) then Some f else None.
Proof. unfold field_of. simpl. case_bool_decide as H; [|done]. subst. by rewrite bool_decide_true. Qed.

Lemma assign_members_None {S} strict (fields : list (field S)) members : fold_left (assign_member strict fields) members None = None.
Proof. by induction members. Qed.

(** Reading one field alone, unknown ones ignored, gives what the strict decoding of the
    whole struct gives it, when no other field answers to its name. *)
Lemma into_struct_alone {S A} (fields : list (field S)) (f : field A) (get : S -> A) members s s' :
  (forall g n s s', In g fields -> assign g n s = Some s' ->
    if bool_decide (heartbeat_seal.foldName (bytes (field_name f)) = heartbeat_seal.foldName (bytes (field_name g)))
    then assign f n (get s) = Some (get s') else get s' = get s) ->
  into_struct true fields members s = Some s' -> into_struct false [f] members (get s) = Some (get s').
Proof.
  intros Hf. unfold into_struct. revert s. induction members as [|member members IH]; intros s; simpl; [by intros [= <-]|].
  destruct (field_of fields (unquote member.1)) as [g|] eqn:Eg; [|by rewrite assign_members_None].
  destruct (assign g member.2 s) as [s1|] eqn:Ea; [|by rewrite assign_members_None]. intros H. apply IH in H.
  apply field_of_spec in Eg as [Hin Hg]. specialize (Hf _ _ _ _ Hin Ea). rewrite field_of_single, <- Hg.
  case_bool_decide; [by rewrite Hf|]. by rewrite <- Hf.
Qed.
End unmarshal.
