(* ===== verification/HeartbeatStore.v ===== *)
(** * HeartbeatStore

    The Store interface of package [heartbeat] (store.go) and its Postgres
    implementation (pgstore.go, probe_store.go) over the tables of migrations 0006,
    0007 and 0009, their constraints included.

    Operations run one after another, as the row locks serialise them; what a statement
    leaves to Postgres (rows other transactions hold, the order of rows a query does not
    order) and the random source are fields of the store. *)

From S2P Require Import Prelude GoText Utf8 Idents Std Seal Registry RegistryStore Heartbeat HeartbeatSeal.
Open Scope Z_scope.
Import heartbeat heartbeat_seal.

(** One due probe handed to the prober. *)
Record ProbeClaim := {
  CheckID : Z;
  Claim_AppID : string;
  Claim_Name : string;
  Claim_ConfigVersion : Z;
  Claim_Config : ProbeConfig;
  Claim_SealedAccessToken : option (list Z)
}.

(** [Store].  A probe result that is not applied gives [None]. *)
Class HeartbeatStore (S : Type) := {
  store_Create : NewCheck -> Z -> M S StoredCheck;
  store_Get : Z -> M S StoredCheck;
  store_List : M S (list StoredCheck);
  store_Patch : Z -> CheckPatch -> Z -> M S StoredCheck;
  store_Delete : Z -> M S bool;
  store_Pause : Z -> Z -> M S StoredCheck;
  store_Resume : Z -> Z -> M S StoredCheck;
  store_RecordPing : string -> string -> string -> Z -> M S StoredCheck;
  store_AdvanceDue : Z -> M S (list StoredCheck);
  store_ListPendingAlerts : M S (list StoredCheck);
  store_ClearPendingAlert : Z -> Z -> M S bool;
  store_RecordProbeResult : Z -> Z -> ProbeResult -> Z -> Z -> M S (option StoredCheck);
  store_ClaimDueProbes : Z -> Z -> M S (list ProbeClaim);
  store_ListByOwner : string -> M S (list StoredCheck);
  store_PatchOwnedBy : Z -> string -> CheckPatch -> Z -> M S StoredCheck;
  store_DeleteOwnedBy : Z -> string -> M S bool;
  store_PauseOwnedBy : Z -> string -> Z -> M S StoredCheck;
  store_ResumeOwnedBy : Z -> string -> Z -> M S StoredCheck
}.

Module heartbeat_pg.
(** ** Tables *)

(** A [heartbeat_check_probes] row.  [last_result_at] is NULL exactly when
    [last_result] is [None]; the CHECK then makes the other three NULL. *)
Record ProbeRow := {
  config : ProbeConfig;
  consecutive_failures : Z;
  next_probe_at : Z;
  config_version : Z;
  last_result : option ProbeResultRecord;
  down_detail : option string;
  sealed_access_headers : option (list Z)
}.

(** A [heartbeat_checks] row is a [StoredCheck] with nothing joined to it: no
    destinations and no probe. *)
Record DB := {
  registry_db : registry_pg.DB;
  heartbeat_checks : gmap Z StoredCheck;
  heartbeat_check_destinations : gset (Z * Z);
  heartbeat_check_probes : gmap Z ProbeRow;
  next_check_id : Z
}.

(** [pgutil.WrapDBError]: the statement's error, flattened to text. *)
Definition WrapDBError (operation : string) : error := errors_New operation.
Definition CheckViolationError (operation : string) : error := registry_pg.CheckViolationError operation.

Definition int4 (z : Z) : bool := (- 2 ^ 31 <=? z) && (z <? 2 ^ 31).
Definition none_or {A} (P : A -> bool) (o : option A) : bool := match o with Some a => P a | None => true end.
Definition one_of (l : list string) (s : string) : bool := existsb (String.eqb s) l.
Definition between (lo hi z : Z) : bool := (lo <=? z) && (z <=? hi).

(** What the columns of [heartbeat_checks] can hold at all. *)
Definition check_types (r : StoredCheck) : bool :=
  forallb int4 [PeriodSeconds r; GraceSeconds r; AlertSeq r] &&
  forallb text_ok [AppID r; Name r; State r; OwnerKind r] &&
  forallb (none_or text_ok) [LastPingKind r; DownReason r; PendingAlert r; OwnerAppID r].

(** Its CHECK constraints. *)
Definition check_constraints (r : StoredCheck) : bool :=
  appid.Valid (AppID r) && match_slug 62 (Name r) &&
  between 60 2678400 (PeriodSeconds r) && between 60 604800 (GraceSeconds r) &&
  one_of ["new"; "up"; "down"] (State r) &&
  none_or (one_of ["success"; "fail"]) (LastPingKind r) &&
  none_or (one_of KnownDownReasons) (DownReason r) &&
  none_or (one_of ["down"; "recovered"]) (PendingAlert r) &&
  Bool.eqb (bool_decide (LastPingAt r = None)) (bool_decide (LastPingKind r = None)) &&
  (negb (String.eqb (State r) "down") || (bool_decide (is_Some (DownSince r)) && bool_decide (is_Some (DownReason r)))) &&
  registry_pg.owner_check (OwnerKind r) (OwnerAppID r) &&
  none_or (String.eqb (AppID r)) (OwnerAppID r).

Definition probe_types (r : ProbeRow) : bool :=
  forallb int4 [TimeoutSeconds (config r); IntervalSeconds (config r); consecutive_failures r] &&
  forallb int4 (ExpectedStatuses (config r)) &&
  text_ok (URL (config r)) && none_or text_ok (BodyMatch (config r)) && none_or text_ok (down_detail r) &&
  none_or (fun l => none_or int4 (Record_Status l) && none_or text_ok (Record_Reason l) && none_or text_ok (Record_Detail l))
    (last_result r).

Definition probe_constraints (r : ProbeRow) : bool :=
  let c := config r in
  HasPrefix (URL c) "https://" && (len (URL c) <=? 2048) &&
  between 1 10 (Z.of_nat (length (ExpectedStatuses c))) && forallb (between 100 599) (ExpectedStatuses c) &&
  none_or (fun b => between 1 256 (len b)) (BodyMatch c) &&
  between 1 8 (TimeoutSeconds c) && between 60 86400 (IntervalSeconds c) && (TimeoutSeconds c <? IntervalSeconds c) &&
  (0 <=? consecutive_failures r) && (1 <=? config_version r) &&
  none_or (fun l => none_or (between 100 599) (Record_Status l) && none_or IsProbeResultReason (Record_Reason l) &&
                    none_or (fun d => len d <=? 256) (Record_Detail l)) (last_result r) &&
  none_or (fun d => len d <=? 256) (down_detail r).

(** The [check_id] of every link; the registry's ON DELETE RESTRICT sees them. *)
Definition with_links (links : gset (Z * Z)) (db : DB) : DB :=
  db {{ heartbeat_check_destinations := links;
        registry_db := (registry_db db) {{ registry_pg.check_destinations := set_map snd links }} }}.

(** A statement on the registry's tables. *)
Definition on_registry {A} (m : M registry_pg.DB A) : M DB A := fun db =>
  let (r, reg) := m (registry_db db) in (r, db {{ registry_db := reg }}).

(** The store's clock resolution: a microsecond. *)
Definition storeTime (now : Z) : Z := time.Truncate now Microsecond.

(** A query's text parameters, which Postgres must be able to read. *)
Definition params (operation : string) (texts : list string) : M DB unit :=
  m_check (if forallb text_ok texts then None else Some (WrapDBError operation)).

(** ** Reading *)

(** [probeRow.state]: the sealed bytes are not loaded, only whether there are any. *)
Definition state (row : ProbeRow) : ProbeState :=
  {| Probe_Config := config row; HasAccessToken := bool_decide (is_Some (sealed_access_headers row));
     SealedAccessToken := None; ConsecutiveFailures := consecutive_failures row; NextProbeAt := next_probe_at row;
     ConfigVersion := config_version row; LastResult := last_result row; DownDetail := down_detail row |}.

Definition destination_ref (d : registry.StoredDestination) : DestinationRef :=
  {| Ref_Name := registry.Name d; Ref_Type := registry.Type_ d; Ref_Enabled := registry.Enabled d |}.

(** [checkSelect]: the row with its destinations in name order and its probe. *)
Definition scanCheck (db : DB) (id : Z) (r : StoredCheck) : StoredCheck :=
  r {{ Destinations := destination_ref <$> registry_pg.select_destinations (registry_db db)
         (fun d => bool_decide ((id, registry.ID d) ∈ heartbeat_check_destinations db));
       Probe := state <$> heartbeat_check_probes db !! id }}.

(** ORDER BY id, and ORDER BY app_id, name (bytewise). *)
Definition orderByID (a b : StoredCheck) : Prop := ID a <= ID b.
#[global] Instance orderByID_dec : RelDecision orderByID.
Proof. intros a b. unfold orderByID. apply _. Defined.

Definition orderByName (a b : StoredCheck) : Prop :=
  if String.eqb (AppID a) (AppID b) then str_le (Name a) (Name b) else str_le (AppID a) (AppID b).
#[global] Instance orderByName_dec : RelDecision orderByName.
Proof. intros a b. unfold orderByName. destruct (String.eqb _ _); apply _. Defined.

Definition rows_where (where_ : StoredCheck -> bool) (db : DB) : list (Z * StoredCheck) :=
  filter (fun p => where_ p.2 = true) (map_to_list (heartbeat_checks db)).

Definition queryChecks (where_ : StoredCheck -> bool) (order : StoredCheck -> StoredCheck -> Prop) `{!RelDecision order} :
    M DB (list StoredCheck) :=
  m_gets (fun db => merge_sort order ((fun p => scanCheck db p.1 p.2) <$> rows_where where_ db)).

Definition queryCheckByID (id : Z) : M DB StoredCheck := fun db =>
  match heartbeat_checks db !! id with
  | Some r => (Ok (scanCheck db id r), db)
  | None => (Err ErrCheckNotFound, db)
  end.

(** The row as the locking reads return it: with its probe, without destinations. *)
Definition locked_row (db : DB) (id : Z) (r : StoredCheck) : StoredCheck :=
  r {{ Probe := state <$> heartbeat_check_probes db !! id }}.

Definition lockCheck (where_ : DB -> option (Z * StoredCheck)) : M DB StoredCheck := fun db =>
  match where_ db with
  | Some (id, r) => (Ok (locked_row db id r), db)
  | None => (Err ErrCheckNotFound, db)
  end.

Definition by_id (id : Z) (P : StoredCheck -> bool) (db : DB) : option (Z * StoredCheck) :=
  match heartbeat_checks db !! id with
  | Some r => if P r then Some (id, r) else None
  | None => None
  end.

Definition owned_by (appID : string) (r : StoredCheck) : bool :=
  registry_pg.owned_app (OwnerKind r) (OwnerAppID r) appID.
Definition named (appID name : string) (r : StoredCheck) : bool := String.eqb (AppID r) appID && String.eqb (Name r) name.

Definition lockCheckByID (id : Z) : M DB StoredCheck := lockCheck (by_id id (fun _ => true)).
Definition lockOwnedCheckByID (id : Z) (appID : string) : M DB StoredCheck :=
  _ ← params "lock heartbeat check" [appID];
  lockCheck (by_id id (owned_by appID)).

Definition id_le (a b : Z * StoredCheck) : Prop := a.1 <= b.1.
#[global] Instance id_le_dec : RelDecision id_le.
Proof. intros a b. unfold id_le. apply _. Defined.

Definition lockChecks (where_ : StoredCheck -> bool) : M DB (list StoredCheck) :=
  m_gets (fun db => (fun p => locked_row db p.1 p.2) <$> merge_sort id_le (rows_where where_ db)).

(** ** Destinations *)

Definition resolveDestinationIDs (names : list string) (appID : string) : M DB (list Z) :=
  let distinctNames := registry_pg.Distinct names in
  let n := Z.of_nat (length distinctNames) in
  if (n <? MinDestinations) || (MaxDestinations <? n) then m_fail (ValidationError "invalid destinations")
  else
    _ ← params "resolve destinations" (appID :: distinctNames);
    rows ← m_gets (fun db => registry_pg.select_destinations (registry_db db) (fun d =>
      bool_decide (registry.Name d ∈ distinctNames) &&
      (String.eqb (registry.OwnerKind d) registry.OwnerOperator || bool_decide (registry.OwnerAppID d = Some appID))));
    if existsb (fun d => negb (registry.DestinationUsableBy (registry.OwnerKind d) (registry.OwnerAppID d) appID)) rows ||
       negb (Z.of_nat (length rows) =? n)
    then m_fail registry.ErrUnknownDestination
    else mret (registry.ID <$> rows).

Definition linkDestinations (checkID : Z) (ids : list Z) : M DB unit :=
  m_do (fun db => with_links (list_to_set ((fun d => (checkID, d)) <$> ids) ∪ heartbeat_check_destinations db) db).

(** DELETE FROM heartbeat_check_destinations WHERE check_id = $1 *)
Definition clear_links (checkID : Z) : M DB unit :=
  m_do (fun db => with_links (filter (fun p => p.1 <> checkID) (heartbeat_check_destinations db)) db).

(** ** Writing *)

Record sealedAccessChange := { Changed : bool; Sealed : option (list Z) }.
Definition no_access_change : sealedAccessChange := {| Changed := false; Sealed := None |}.

Definition put_check (id : Z) (r : StoredCheck) (db : DB) : DB :=
  db {{ heartbeat_checks := <[id := r]> (heartbeat_checks db) }}.
Definition put_probe (id : Z) (r : ProbeRow) (db : DB) : DB :=
  db {{ heartbeat_check_probes := <[id := r]> (heartbeat_check_probes db) }}.

(** [probeWriteError]: a statement writing [row] to the probe table. *)
Definition write_probe (operation : string) (id : Z) (row : ProbeRow) : M DB unit := fun db =>
  if negb (probe_types row) then (Err (WrapDBError operation), db)
  else if negb (probe_constraints row) then (Err (CheckViolationError operation), db)
  else (Ok tt, put_probe id row db).

(** The row after [writeProbeRow]'s UPDATE. *)
Definition written_probe (current : ProbeRow) (probe : ProbeState) (baselineNextProbeAt : option Z)
    (access : sealedAccessChange) : ProbeRow :=
  let writeNextProbeAt :=
    match baselineNextProbeAt with None => true | Some b => negb (time.Equal (NextProbeAt probe) b) end in
  {| config := (Probe_Config probe) {{ ExpectedStatuses := NormalizeStatuses (ExpectedStatuses (Probe_Config probe)) }};
     consecutive_failures := ConsecutiveFailures probe;
     next_probe_at := if writeNextProbeAt then storeTime (NextProbeAt probe) else next_probe_at current;
     config_version := ConfigVersion probe;
     last_result := LastResult probe;
     down_detail := DownDetail probe;
     sealed_access_headers := if Changed access then Sealed access else sealed_access_headers current |}.

Definition writeProbeRow (check : StoredCheck) (probe : ProbeState) (baselineNextProbeAt : option Z)
    (access : sealedAccessChange) : M DB unit := fun db =>
  match heartbeat_check_probes db !! ID check with
  | None => (Ok tt, db)
  | Some current =>
    write_probe "save heartbeat probe" (ID check) (written_probe current probe baselineNextProbeAt access) db
  end.

Definition lockedNextProbeAt (locked : StoredCheck) : option Z := NextProbeAt <$> Probe locked.

(** An UPDATE of the check row, whose violations are all wrapped. *)
Definition update_check (operation : string) (id : Z) (f : StoredCheck -> StoredCheck) : M DB unit := fun db =>
  match heartbeat_checks db !! id with
  | None => (Ok tt, db)
  | Some r =>
    if negb (check_types (f r) && check_constraints (f r)) then (Err (WrapDBError operation), db)
    else (Ok tt, put_check id (f r) db)
  end.

(** The state-machine columns of [check] over the row. *)
Definition saved_row (check : StoredCheck) (now : Z) (r : StoredCheck) : StoredCheck :=
  r {{ State := State check; Paused := Paused check; AnchorAt := AnchorAt check; LastPingAt := LastPingAt check;
       LastPingKind := LastPingKind check; DownSince := DownSince check; DownReason := DownReason check;
       AlertSeq := AlertSeq check; PendingAlert := PendingAlert check; UpdatedAt := now }}.

Definition saveCheck (check locked : StoredCheck) (now : Z) : M DB StoredCheck :=
  _ ← update_check "save heartbeat check" (ID check) (saved_row check now);
  _ ← match Probe check with
      | Some probe => writeProbeRow check probe (lockedNextProbeAt locked) no_access_change
      | None => mret tt
      end;
  queryCheckByID (ID check).

Definition mutate (now : Z) (lock : M DB StoredCheck) (mutate : StoredCheck -> StoredCheck) : M DB StoredCheck :=
  WithTx (current ← lock; saveCheck (mutate current) current now).

Definition replaceSchedule (appID : string) (id : Z) (update : CheckUpdate) (anchorAt now : Z) : M DB StoredCheck :=
  destinationIDs ← resolveDestinationIDs (Update_DestinationNames update) appID;
  _ ← update_check "update heartbeat check" id (fun r =>
        r {{ PeriodSeconds := Update_PeriodSeconds update; GraceSeconds := Update_GraceSeconds update;
             AnchorAt := anchorAt; UpdatedAt := now }});
  _ ← clear_links id;
  _ ← linkDestinations id destinationIDs;
  queryCheckByID id.

(** ** The store *)

(** The orders Postgres is free to choose: in which it reads the probe rows, and in which
    the claiming UPDATE returns them. *)
Record Planner := {
  scan_order : list (Z * ProbeRow) -> list (Z * ProbeRow);
  scan_order_perm rows : scan_order rows ≡ₚ rows;
  returning_order : list ProbeClaim -> list ProbeClaim;
  returning_order_perm claims : returning_order claims ≡ₚ claims
}.

(** [PGStore]: its sealer; what the random source yields for a nonce; the probe rows
    other transactions hold locked; and Postgres's row orders. *)
Record PGStore := {
  sealer : option seal.Sealer;
  nonce : DB -> option (list Z);
  locked : DB -> gset Z;
  planner : Planner
}.

Definition sealed_token (r : result (list Z)) : result (list Z) :=
  match r with Ok b => Ok b | Err e => Err (Wrap ("seal heartbeat probe access token: " +:+ Error e) [e]) end.

Section store.
Context `{Std} (store : PGStore).

Definition seal_token (checkID : Z) (token : AccessToken) : M DB (list Z) := fun db =>
  (sealed_token (sealProbeAccessToken (sealer store) (nonce store db) checkID token), db).

(** [UNIQUE (app_id, name)] *)
Definition check_exists (db : DB) (r : StoredCheck) : bool :=
  bool_decide (map_Exists (fun _ r' => AppID r' = AppID r /\ Name r' = Name r) (heartbeat_checks db)).

(** The row [Create]'s INSERT writes. *)
Definition new_row (id : Z) (check : NewCheck) (now : Z) : StoredCheck :=
  {| ID := id; AppID := New_AppID check; Name := New_Name check; PeriodSeconds := New_PeriodSeconds check;
     GraceSeconds := New_GraceSeconds check; State := "new"; Paused := false; AnchorAt := now; LastPingAt := None;
     LastPingKind := None; DownSince := None; DownReason := None; AlertSeq := 0; PendingAlert := None;
     Destinations := []; OwnerKind := registry_pg.ownerKindOrOperator (New_OwnerKind check);
     OwnerAppID := New_OwnerAppID check; CreatedAt := now; UpdatedAt := now; Probe := None |}.

Definition insert_check (check : NewCheck) (now : Z) : M DB Z := fun db =>
  let id := next_check_id db in
  let row := new_row id check now in
  if negb (check_types row) then (Err (WrapDBError "insert heartbeat check"), db)
  else if negb (check_constraints row) then (Err (CheckViolationError "insert heartbeat check"), db)
  else if check_exists db row then (Err ErrCheckExists, db)
  else (Ok id, put_check id row (db {{ next_check_id := id + 1 }})).

Definition insertProbeRow (checkID : Z) (probe : ProbeConfig) (token : option AccessToken) (now : Z) : M DB unit :=
  sealed ← match token with
           | Some token => b ← seal_token checkID token; mret (Some b)
           | None => mret None
           end;
  write_probe "insert heartbeat probe" checkID
    {| config := probe {{ ExpectedStatuses := NormalizeStatuses (ExpectedStatuses probe) }};
       consecutive_failures := 0; next_probe_at := time.Add now (Duration_mul (IntervalSeconds probe) Second);
       config_version := 1; last_result := None; down_detail := None; sealed_access_headers := sealed |}.

Definition Create (check : NewCheck) (now : Z) : M DB StoredCheck :=
  let now := storeTime now in
  WithTx (
    destinationIDs ← resolveDestinationIDs (New_DestinationNames check) (New_AppID check);
    _ ← m_check (match New_Probe check, New_AccessToken check with
                 | None, Some _ => Some (ValidationError "probe config is not allowed on a push check")
                 | _, _ => None
                 end);
    let check :=
      match New_Probe check with
      | Some probe =>
        let schedule := DerivedSchedule (IntervalSeconds probe) in
        check {{ New_PeriodSeconds := schedule.1; New_GraceSeconds := schedule.2 }}
      | None => check
      end in
    checkID ← insert_check check now;
    _ ← linkDestinations checkID destinationIDs;
    _ ← match New_Probe check with
        | Some probe => insertProbeRow checkID probe (New_AccessToken check) now
        | None => mret tt
        end;
    queryCheckByID checkID).

Definition Get (id : Z) : M DB StoredCheck := queryCheckByID id.
Definition List : M DB (list StoredCheck) := queryChecks (fun _ => true) orderByName.
Definition ListByOwner (appID : string) : M DB (list StoredCheck) :=
  _ ← params "list app heartbeat checks" [appID];
  queryChecks (owned_by appID) orderByName.

Definition sealedAccessChangeFor (checkID : Z) (token : AccessTokenPatch) : M DB sealedAccessChange :=
  match Action token with
  | AccessTokenReplace => sealed ← seal_token checkID (Token token); mret {| Changed := true; Sealed := Some sealed |}
  | AccessTokenClear => mret {| Changed := true; Sealed := None |}
  | _ => mret no_access_change
  end.

(** The check the patch writes: the merged probe config, and a reset when something
    that matters changed. *)
Definition patched_check (current : StoredCheck) (probe : ProbeState) (update : CheckUpdate) (merged : ProbeConfig)
    (now : Z) : StoredCheck :=
  let next := current {{ Probe := Some ((cloneProbe probe) {{ Probe_Config := merged }});
                         PeriodSeconds := Update_PeriodSeconds update; GraceSeconds := Update_GraceSeconds update }} in
  if ProbeConfigChanged (Probe_Config probe) merged (Update_AccessToken update) then ApplyProbeReset next now else next.

Definition patch (id : Z) (patch : CheckPatch) (now : Z) (lock : M DB StoredCheck) : M DB StoredCheck :=
  let now := storeTime now in
  WithTx (
    locked ← lock;
    _ ← m_check (ValidateCheckPatchForKind locked patch);
    current ← queryCheckByID id;
    let update := ApplyPatch current patch in
    _ ← m_check (ValidateCheckUpdate update);
    '(next, access) ← match Probe current, Update_Probe update with
      | Some probe, Some merged =>
        access ← sealedAccessChangeFor id (Update_AccessToken update);
        mret (patched_check current probe update merged now, access)
      | _, _ => mret (current, no_access_change)
      end;
    replaced ← replaceSchedule (AppID current) id update (AnchorAt next) now;
    match Probe next with
    | None => mret replaced
    | Some probe =>
      _ ← writeProbeRow next probe (lockedNextProbeAt locked) access;
      queryCheckByID id
    end).

Definition Patch (id : Z) (p : CheckPatch) (now : Z) : M DB StoredCheck := patch id p now (lockCheckByID id).
Definition PatchOwnedBy (id : Z) (appID : string) (p : CheckPatch) (now : Z) : M DB StoredCheck :=
  patch id p now (lockOwnedCheckByID id appID).

(** ON DELETE CASCADE takes the links and the probe row along. *)
Definition drop_check (id : Z) (db : DB) : DB :=
  with_links (filter (fun p => p.1 <> id) (heartbeat_check_destinations db))
    (db {{ heartbeat_checks := delete id (heartbeat_checks db);
           heartbeat_check_probes := delete id (heartbeat_check_probes db) }}).

Definition delete_where (id : Z) (P : StoredCheck -> bool) : M DB bool := fun db =>
  match by_id id P db with
  | None => (Ok false, db)
  | Some _ => (Ok true, drop_check id db)
  end.
Definition Delete (id : Z) : M DB bool := delete_where id (fun _ => true).
Definition DeleteOwnedBy (id : Z) (appID : string) : M DB bool :=
  _ ← params "delete app heartbeat check" [appID];
  delete_where id (owned_by appID).

Definition Pause (id now : Z) : M DB StoredCheck := mutate (storeTime now) (lockCheckByID id) ApplyPause.
Definition PauseOwnedBy (id : Z) (appID : string) (now : Z) : M DB StoredCheck :=
  mutate (storeTime now) (lockOwnedCheckByID id appID) ApplyPause.
Definition Resume (id now : Z) : M DB StoredCheck :=
  mutate (storeTime now) (lockCheckByID id) (fun current => ApplyResume current (storeTime now)).
Definition ResumeOwnedBy (id : Z) (appID : string) (now : Z) : M DB StoredCheck :=
  mutate (storeTime now) (lockOwnedCheckByID id appID) (fun current => ApplyResume current (storeTime now)).

Definition RecordPing (appID name kind : string) (now : Z) : M DB StoredCheck :=
  _ ← m_check (ValidatePingKind kind);
  let now := storeTime now in
  WithTx (
    _ ← params "lock heartbeat check" [appID; name];
    current ← lockCheck (fun db => head (rows_where (named appID name) db));
    match Probe current with
    | Some _ => m_fail ErrProbeCheckPing
    | None => saveCheck (ApplyPing current kind now).1 current now
    end).

Definition dueWhere (now : Z) (r : StoredCheck) : bool :=
  negb (String.eqb (State r) StateDown) && negb (Paused r) &&
  (AnchorAt r + (PeriodSeconds r + GraceSeconds r) * Second <? now).

(** The loop over the due checks: the ids of those the machine took down. *)
Fixpoint advance_each (now : Z) (due : list StoredCheck) : M DB (list Z) :=
  match due with
  | [] => mret []
  | current :: due =>
    let '(next, changed) := AdvanceTick current now in
    if negb changed then advance_each now due
    else
      _ ← saveCheck next current now;
      ids ← advance_each now due;
      mret (ID next :: ids)
  end.

Definition AdvanceDue (now : Z) : M DB (list StoredCheck) :=
  let now := storeTime now in
  WithTx (
    due ← lockChecks (dueWhere now);
    changedIDs ← advance_each now due;
    if bool_decide (changedIDs = []) then mret []
    else queryChecks (fun r => bool_decide (ID r ∈ changedIDs)) orderByID).

Definition ListPendingAlerts : M DB (list StoredCheck) :=
  queryChecks (fun r => bool_decide (is_Some (PendingAlert r))) orderByID.

Definition ClearPendingAlert (id alertSeq : Z) : M DB bool := fun db =>
  if negb (int4 alertSeq) then (Err (WrapDBError "clear heartbeat pending alert"), db)
  else match heartbeat_checks db !! id with
  | Some r =>
    if (AlertSeq r =? alertSeq) && bool_decide (is_Some (PendingAlert r))
    then (Ok true, put_check id (r {{ PendingAlert := None }}) db) else (Ok false, db)
  | None => (Ok false, db)
  end.

(** *** Probes *)

(** ORDER BY next_probe_at *)
Definition due_le (a b : Z * ProbeRow) : Prop := next_probe_at a.2 <= next_probe_at b.2.
#[global] Instance due_le_dec : RelDecision due_le.
Proof. intros a b. unfold due_le. apply _. Defined.

(** The rows of the CTE before the LIMIT: due, of an unpaused check, not locked by
    another transaction, earliest first. *)
Definition due_probe (now : Z) (db : DB) (p : Z * ProbeRow) : bool :=
  (next_probe_at p.2 <=? now) &&
  match heartbeat_checks db !! p.1 with Some c => negb (Paused c) | None => false end &&
  negb (bool_decide (p.1 ∈ locked store db)).
Definition due_probes (now : Z) (db : DB) : list (Z * ProbeRow) :=
  merge_sort due_le (scan_order (planner store)
    (filter (fun p => due_probe now db p = true) (map_to_list (heartbeat_check_probes db)))).

Definition claim_of (db : DB) (p : Z * ProbeRow) : option ProbeClaim :=
  (fun c => {| CheckID := p.1; Claim_AppID := AppID c; Claim_Name := Name c; Claim_ConfigVersion := config_version p.2;
               Claim_Config := config p.2; Claim_SealedAccessToken := sealed_access_headers p.2 |}) <$>
  heartbeat_checks db !! p.1.

(** The UPDATE: the claimed rows are due again an interval from now. *)
Definition advanced (now : Z) (r : ProbeRow) : ProbeRow :=
  r {{ next_probe_at := time.Add now (IntervalSeconds (config r) * Second) }}.
Definition advance_claimed (now : Z) (claimed : list (Z * ProbeRow)) (db : DB) : DB :=
  foldr (fun p db => put_probe p.1 (advanced now p.2) db) db claimed.

Definition ClaimDueProbes (now limit : Z) : M DB (list ProbeClaim) := fun db =>
  if limit <? 1 then (Err (ValidationError "invalid claim limit"), db)
  else if negb (int4 limit) then (Err (WrapDBError "claim due heartbeat probes"), db)
  else
    let now := storeTime now in
    let claimed := take (Z.to_nat limit) (due_probes now db) in
    (Ok (returning_order (planner store) (omap (claim_of db) claimed)), advance_claimed now claimed db).

Definition RecordProbeResult (checkID configVersion : Z) (result : ProbeResult) (now holdOffUntil : Z) :
    M DB (option StoredCheck) :=
  let now := storeTime now in
  let holdOffUntil := storeTime holdOffUntil in
  WithTx (
    found ← m_try (lockCheckByID checkID);
    match found with
    | Err e => if errors_Is e ErrCheckNotFound then mret None else m_fail e
    | Ok current =>
      match Probe current with
      | None => mret None
      | Some probe =>
        if negb (ConfigVersion probe =? configVersion) then mret None
        else
          let '(next, accepted, _) := ApplyProbeResult current result now holdOffUntil in
          if negb accepted then mret None
          else reloaded ← saveCheck next current now; mret (Some reloaded)
      end
    end).

Definition PGStore_Store : HeartbeatStore DB := {|
  store_Create := Create; store_Get := Get; store_List := List; store_Patch := Patch; store_Delete := Delete;
  store_Pause := Pause; store_Resume := Resume; store_RecordPing := RecordPing; store_AdvanceDue := AdvanceDue;
  store_ListPendingAlerts := ListPendingAlerts; store_ClearPendingAlert := ClearPendingAlert;
  store_RecordProbeResult := RecordProbeResult; store_ClaimDueProbes := ClaimDueProbes;
  store_ListByOwner := ListByOwner; store_PatchOwnedBy := PatchOwnedBy; store_DeleteOwnedBy := DeleteOwnedBy;
  store_PauseOwnedBy := PauseOwnedBy; store_ResumeOwnedBy := ResumeOwnedBy
|}.
End store.
End heartbeat_pg.
