(* ===== verification/HeartbeatInv.v ===== *)
(** * HeartbeatInv

    The invariant of the heartbeat tables: what every row, link and probe row satisfies
    in any state the operations of the store and of the registry reach. *)

From S2P Require Import Prelude GoText Utf8 Idents Std Seal Registry RegistryStore Heartbeat HeartbeatProps HeartbeatSeal HeartbeatStore.
Open Scope Z_scope.
Import heartbeat heartbeat_seal.

Module heartbeat_inv.
Import heartbeat_pg.

Definition int4_max : Z := 2 ^ 31 - 1.

(** ** Rows *)

(** A check row [r] with its probe row [p]. *)
Record row_ok (r : StoredCheck) (p : option ProbeRow) : Prop := {
  ro_plain : Destinations r = [] /\ Probe r = None;
  ro_types : check_types r = true;
  ro_constraints : check_constraints r = true;
  (** a probe row obeys its own CHECKs, its statuses are sorted, and the check's schedule
      is the one derived from its interval *)
  ro_probe q : p = Some q -> probe_types q = true /\ probe_constraints q = true /\
    NormalizeStatuses (ExpectedStatuses (config q)) = ExpectedStatuses (config q) /\
    (PeriodSeconds r, GraceSeconds r) = DerivedSchedule (IntervalSeconds (config q));
  ro_machine : check_wf int4_max (r {{ Probe := state <$> p }})
}.

(** The destinations linked to a check. *)
Definition links_of (id : Z) (db : DB) : gset (Z * Z) := filter (fun p => p.1 = id) (heartbeat_check_destinations db).

Record wf (db : DB) : Prop := {
  wf_registry : registry_pg.wf (registry_db db);
  (** the registry sees exactly the destinations the links name *)
  wf_refs : registry_pg.check_destinations (registry_db db) = set_map snd (heartbeat_check_destinations db);
  wf_row id r : heartbeat_checks db !! id = Some r ->
    ID r = id /\ 1 <= id < next_check_id db /\ row_ok r (heartbeat_check_probes db !! id);
  wf_names i j r s : heartbeat_checks db !! i = Some r -> heartbeat_checks db !! j = Some s ->
    AppID r = AppID s -> Name r = Name s -> i = j;
  wf_probe id : is_Some (heartbeat_check_probes db !! id) -> is_Some (heartbeat_checks db !! id);
  (** every link joins a check to a destination its app may use *)
  wf_link id did : (id, did) ∈ heartbeat_check_destinations db -> exists r d,
    heartbeat_checks db !! id = Some r /\ registry_pg.has_destination (registry_db db) d /\ registry.ID d = did /\
    registry.UsableBy d (AppID r) = true;
  (** no check is without a destination *)
  wf_linked id : is_Some (heartbeat_checks db !! id) -> 1 <= Z.of_nat (size (links_of id db)) <= 20;
  wf_next : 1 <= next_check_id db
}.

(** ** The machine's invariant, on the fields it speaks of *)

Definition same_probe_machine (p q : ProbeState) : Prop :=
  ConsecutiveFailures p = ConsecutiveFailures q /\ LastResult p = LastResult q /\ DownDetail p = DownDetail q.

Definition same_machine (c d : StoredCheck) : Prop :=
  State c = State d /\ Paused c = Paused d /\ LastPingAt c = LastPingAt d /\ LastPingKind c = LastPingKind d /\
  DownSince c = DownSince d /\ DownReason c = DownReason d /\ AlertSeq c = AlertSeq d /\
  PendingAlert c = PendingAlert d /\
  forall q, Probe d = Some q -> exists p, Probe c = Some p /\ same_probe_machine p q.

Lemma check_wf_same n c d : same_machine c d -> check_wf n c -> check_wf n d.
Proof.
  intros (Hs & Hp & Hl & Hk & Hd & Hr & Ha & Hal & Hpr) Hwf.
  assert (Hc : common_wf n c -> common_wf n d).
  { intros [H1 H2 H3]. split; [by rewrite <- Hl, <- Hk|by rewrite <- Ha|].
    intros q (p & Hcp & Hf & Hlr & Hdd)%Hpr. destruct (H3 _ Hcp). rewrite <- Hs.
    by split; rewrite <- ?Hf, <- ?Hlr, <- ?Hdd. }
  destruct Hwf as [r H1 H2 H3 H4 H5 H6|H1 H2 H3 H4].
  - eapply wf_down; rewrite <- ?Hs, <- ?Hd, <- ?Hr, <- ?Hal, <- ?Hp; eauto.
  - apply wf_up; rewrite <- ?Hs, <- ?Hd, <- ?Hr, <- ?Hal, <- ?Hp; eauto.
Qed.

(** Counters that fit their columns stay within the bound. *)
Lemma check_wf_fit m n c : check_wf m c -> AlertSeq c <= n ->
  (forall p, Probe c = Some p -> ConsecutiveFailures p <= n) -> check_wf n c.
Proof.
  intros Hwf Ha Hf.
  assert (Hc : common_wf m c -> common_wf n c).
  { intros [H1 H2 H3]. split; [done|lia|]. intros p Hp. specialize (Hf _ Hp). destruct (H3 _ Hp). split; [lia|done..]. }
  destruct Hwf; [eapply wf_down|apply wf_up]; eauto.
Qed.

(** *** What the machine leaves alone *)

Definition preserved (c d : StoredCheck) : Prop :=
  ID d = ID c /\ AppID d = AppID c /\ Name d = Name c /\ PeriodSeconds d = PeriodSeconds c /\
  GraceSeconds d = GraceSeconds c /\ OwnerKind d = OwnerKind c /\ OwnerAppID d = OwnerAppID c /\
  Probe_Config <$> Probe d = Probe_Config <$> Probe c.

Ltac split_ifs := repeat match goal with |- context [if ?b then _ else _] => destruct b end.

Lemma preserved_ApplyPing c kind now : preserved c (ApplyPing c kind now).1.
Proof. unfold ApplyPing, ping_transition, preserved. destruct c. simpl. destruct Probe0; [done|]. split_ifs; done. Qed.
Lemma preserved_AdvanceTick c now : preserved c (AdvanceTick c now).1.
Proof. unfold AdvanceTick, preserved. destruct c. simpl. destruct Probe0 as [[]|]; split_ifs; done. Qed.
Lemma preserved_ApplyPause c : preserved c (ApplyPause c).
Proof. unfold ApplyPause, preserved. destruct c. simpl. destruct Paused0, Probe0 as [[]|]; done. Qed.
Lemma preserved_ApplyProbeReset c now : preserved c (ApplyProbeReset c now).
Proof. unfold ApplyProbeReset, preserved. destruct c. simpl. by destruct Probe0 as [[]|]. Qed.
Lemma preserved_ApplyResume c now : preserved c (ApplyResume c now).
Proof. unfold ApplyResume, ApplyProbeReset, preserved. destruct c. simpl. destruct Paused0, Probe0 as [[]|]; done. Qed.
Lemma preserved_ApplyProbeResult c r now hold : preserved c (ApplyProbeResult c r now hold).1.1.
Proof.
  unfold ApplyProbeResult, preserved. destruct (Probe c) as [p|] eqn:Hp; [|by simpl; rewrite Hp]. cbv zeta.
  destruct (Paused c); [by simpl; rewrite Hp|]. destruct (_ && _ && _); [by simpl; rewrite Hp|].
  generalize (SanitizeProbeDetail (Result_Detail r)), (storableProbeStatus (Result_Status r)). intros d st.
  generalize (if String.eqb d EmptyString then None else Some d). intros detail. destruct c, p. simpl in Hp. subst Probe0.
  destruct (Result_Reason r) as [reason|]; simpl; split_ifs; done.
Qed.

(** ** Writing a check back *)

Lemma write_probe_ok operation id row db u db' : write_probe operation id row db = (Ok u, db') ->
  probe_types row = true /\ probe_constraints row = true /\ db' = put_probe id row db.
Proof. unfold write_probe. repeat case_match; intros [= <-]; bool_hyps; done. Qed.

Lemma update_check_ok operation id f db u db' r : heartbeat_checks db !! id = Some r ->
  update_check operation id f db = (Ok u, db') ->
  check_types (f r) = true /\ check_constraints (f r) = true /\ db' = put_check id (f r) db.
Proof. unfold update_check. intros ->. repeat case_match; intros [= <-]; bool_hyps; done. Qed.

Lemma queryCheckByID_ok id db c db' : queryCheckByID id db = (Ok c, db') ->
  db' = db /\ exists r, heartbeat_checks db !! id = Some r /\ c = scanCheck db id r.
Proof. unfold queryCheckByID. case_match; intros [= <- <-]. split; [done|]. by eexists. Qed.

Lemma types_seq r : check_types r = true -> AlertSeq r <= int4_max.
Proof. unfold check_types, int4, int4_max. simpl. intros H. bool_hyps. lia. Qed.
Lemma types_failures q : probe_types q = true -> consecutive_failures q <= int4_max.
Proof. unfold probe_types, int4, int4_max. simpl. intros H. bool_hyps. lia. Qed.

Lemma put_check_probes id r db : heartbeat_check_probes (put_check id r db) = heartbeat_check_probes db.
Proof. done. Qed.

Lemma put_probe_checks id r db : heartbeat_checks (put_probe id r db) = heartbeat_checks db.
Proof. done. Qed.
Lemma put_probe_next id r db : next_check_id (put_probe id r db) = next_check_id db.
Proof. done. Qed.
Lemma put_probe_probes id r db : heartbeat_check_probes (put_probe id r db) = <[id := r]> (heartbeat_check_probes db).
Proof. done. Qed.

(** The row of a check changes, and its probe row with it. *)
Lemma wf_set db db' id r r' : wf db -> heartbeat_checks db !! id = Some r ->
  registry_db db' = registry_db db -> heartbeat_check_destinations db' = heartbeat_check_destinations db ->
  next_check_id db' = next_check_id db ->
  heartbeat_checks db' = <[id := r']> (heartbeat_checks db) ->
  (forall j, j <> id -> heartbeat_check_probes db' !! j = heartbeat_check_probes db !! j) ->
  ID r' = ID r -> AppID r' = AppID r -> Name r' = Name r ->
  row_ok r' (heartbeat_check_probes db' !! id) -> wf db'.
Proof.
  intros Hwf Hr Hreg Hl Hn Hc Hp Hid Happ Hname Hok.
  assert (Hlook : forall j s, heartbeat_checks db' !! j = Some s ->
    exists s0, heartbeat_checks db !! j = Some s0 /\ AppID s = AppID s0 /\ Name s = Name s0).
  { intros j s. rewrite Hc, lookup_insert_Some. intros [[<- <-]|[_ Hs]]; eauto. }
  split.
  - rewrite Hreg. apply (wf_registry _ Hwf).
  - rewrite Hreg, Hl. apply (wf_refs _ Hwf).
  - intros j s Hs. rewrite Hc in Hs. rewrite Hn. apply lookup_insert_Some in Hs as [[<- <-]|[Hne Hs]].
    + destruct (wf_row _ Hwf _ _ Hr) as (? & ? & _). split_and!; [congruence|lia..|done].
    + rewrite (Hp j) by done. apply (wf_row _ Hwf _ _ Hs).
  - intros i j a b (a0 & Ha & Ha1 & Ha2)%Hlook (b0 & Hb & Hb1 & Hb2)%Hlook H1 H2.
    apply (wf_names _ Hwf i j a0 b0); congruence.
  - intros j Hj. rewrite Hc. destruct (decide (j = id)) as [->|Hne]; [rewrite lookup_insert_eq; by eexists|].
    rewrite lookup_insert_ne by done. apply (wf_probe _ Hwf). by rewrite <- Hp.
  - intros j did. rewrite Hl. intros (s & d & Hs & Hd & Hdid & Hu)%(wf_link _ Hwf).
    rewrite Hc, Hreg. destruct (decide (j = id)) as [->|Hne].
    + exists r', d. rewrite lookup_insert_eq. assert (s = r) as -> by congruence. by rewrite Happ.
    + exists s, d. by rewrite lookup_insert_ne.
  - intros j. unfold links_of. rewrite Hl. intros [s (s0 & Hs & _)%Hlook]. apply (wf_linked _ Hwf). by eexists.
  - rewrite Hn. apply (wf_next _ Hwf).
Qed.

(** The written probe row, as it loads. *)
Lemma written_machine current probe b access : same_probe_machine probe (state (written_probe current probe b access)).
Proof. done. Qed.

(** [saveCheck] of what the machine made of the locked row keeps the tables in order. *)
Lemma saveCheck_wf db id r next locked now c db' :
  wf db -> heartbeat_checks db !! id = Some r ->
  preserved (locked_row db id r) next -> check_wf (int4_max + 1) next ->
  saveCheck next locked now db = (Ok c, db') ->
  wf db' /\ (exists r', heartbeat_checks db' = <[id := r']> (heartbeat_checks db) /\ r' = saved_row next now r) /\
  (forall j, j <> id -> heartbeat_check_probes db' !! j = heartbeat_check_probes db !! j) /\
  registry_db db' = registry_db db /\ heartbeat_check_destinations db' = heartbeat_check_destinations db /\
  next_check_id db' = next_check_id db /\
  c = scanCheck db' id (saved_row next now r).
Proof.
  intros Hwf Hr Hpres Hmach Hrun. destruct (wf_row _ Hwf _ _ Hr) as (Hid & Hnext & Hok).
  destruct Hpres as (Hnid & Happ & Hname & Hper & Hgr & Hok1 & Hok2 & Hconf).
  assert (Hnid' : ID next = id) by (rewrite Hnid; exact Hid).
  apply m_bind_ok in Hrun as (u & db1 & Hup & Hrun). rewrite Hnid' in Hup, Hrun.
  apply (update_check_ok _ _ _ _ _ _ _ Hr) in Hup as (Hty & Hck & ->).
  apply m_bind_ok in Hrun as (u' & db2 & Hw & Hq). apply queryCheckByID_ok in Hq as (-> & r0 & Hr0 & ->).
  assert (Hplain : Destinations (saved_row next now r) = [] /\ Probe (saved_row next now r) = None) by (apply (ro_plain _ _ Hok)).
  assert (Hseq := types_seq _ Hty).
  destruct (heartbeat_check_probes db !! id) as [q|] eqn:Hq0.
  - (* a probe check *)
    simpl in Hconf. rewrite Hq0 in Hconf. destruct (Probe next) as [p|] eqn:Hp; [|done]. injection Hconf as Hconf.
    unfold writeProbeRow in Hw. rewrite Hnid' in Hw. rewrite (put_check_probes id) in Hw. rewrite Hq0 in Hw.
    apply write_probe_ok in Hw as (Hpt & Hpc & ->). set (q' := written_probe _ _ _ _) in *.
    assert (Hr1 : r0 = saved_row next now r) by (simpl in Hr0; rewrite lookup_insert_eq in Hr0; by injection Hr0). subst r0.
    split; [|split_and!; [by eexists|by intros j Hj; simpl; rewrite lookup_insert_ne|done..]].
    eapply (wf_set db _ id r (saved_row next now r)); try done; [intros j Hj; simpl; by rewrite lookup_insert_ne|].
    simpl. rewrite lookup_insert_eq. destruct (ro_probe _ _ Hok q eq_refl) as (_ & _ & Hsort & Hder).
    assert (Hcq : config q' = config q).
    { unfold q', written_probe. cbn [config]. rewrite Hconf. cbn [state Probe_Config]. destruct (config q); simpl in *. by rewrite Hsort. }
    split; [done|done|done| |].
    + intros ? [= <-]. rewrite Hcq. split_and!; [done|done|done|exact Hder].
    + apply (check_wf_fit (int4_max + 1)); [|exact Hseq|].
      * apply (check_wf_same _ next); [|done]. split_and!; try done. intros ? [= <-]. exists p. by rewrite Hp.
      * intros ? [= <-]. by apply types_failures.
  - (* a push check *)
    simpl in Hconf. rewrite Hq0 in Hconf. destruct (Probe next) as [p|] eqn:Hp; [done|]. injection Hw as _ <-.
    assert (Hr1 : r0 = saved_row next now r) by (simpl in Hr0; rewrite lookup_insert_eq in Hr0; by injection Hr0). subst r0.
    split; [|split_and!; [by eexists|done..]].
    eapply (wf_set db _ id r (saved_row next now r)); try done.
    rewrite put_check_probes, Hq0. split; [done|done|done|done|].
    apply (check_wf_fit (int4_max + 1)); [|exact Hseq|done].
    apply (check_wf_same _ next); [|done]. by split_and!.
Qed.

(** ** Checks created and rescheduled *)

Lemma registry_refs_wf reg refs : registry_pg.wf reg -> registry_pg.wf (reg {{ registry_pg.check_destinations := refs }}).
Proof. by intros []. Qed.

Definition usable_ids (db : DB) (appID : string) (ids : list Z) : Prop :=
  NoDup ids /\ 1 <= Z.of_nat (length ids) <= 20 /\
  forall i, i ∈ ids -> exists d, registry_pg.has_destination (registry_db db) d /\ registry.ID d = i /\
    registry.UsableBy d appID = true.

Lemma params_ok operation texts db u db' : params operation texts db = (Ok u, db') -> db' = db.
Proof. by intros [_ ->]%m_check_ok. Qed.

Lemma resolve_ok names appID db ids db' : registry_pg.wf (registry_db db) ->
  resolveDestinationIDs names appID db = (Ok ids, db') -> db' = db /\ usable_ids db appID ids.
Proof.
  intros Hwf. unfold resolveDestinationIDs. cbv zeta. destruct (_ || _) eqn:Hn; [done|].
  intros Hrun. apply m_bind_ok in Hrun as (u & db1 & Hp & Hrun). apply params_ok in Hp as ->.
  apply m_bind_ok in Hrun as (rows & db1 & Hrows & Hrun). unfold m_gets in Hrows. injection Hrows as Hrows <-.
  destruct (existsb _ _ || _) eqn:Hc in Hrun; [done|]. injection Hrun as <- <-. split; [done|]. bool_hyps.
  match goal with H : existsb _ _ = false |- _ => rename H into He end.
  assert (Hin : forall d, d ∈ rows -> registry_pg.has_destination (registry_db db) d).
  { intros d. rewrite <- Hrows. rewrite registry_pg.elem_of_select by done. tauto. }
  split_and!.
  - apply NoDup_fmap_2_strong.
    + intros x y Hx Hy. apply (registry_pg.wf_ids _ Hwf); auto.
    + rewrite <- Hrows. unfold registry_pg.select_destinations. rewrite merge_sort_Permutation. apply NoDup_filter.
      apply NoDup_fmap_2_strong; [|apply NoDup_map_to_list]. intros [i x] [j y] Hx Hy Heq. simpl in Heq. subst y.
      apply elem_of_map_to_list in Hx, Hy. apply (registry_pg.wf_destination _ Hwf) in Hx as (<- & _), Hy as (<- & _). done.
  - rewrite length_fmap. unfold MinDestinations, MaxDestinations in *. lia.
  - rewrite length_fmap. unfold MinDestinations, MaxDestinations in *. lia.
  - intros i (d & -> & Hd)%list_elem_of_fmap. exists d. split_and!; [by apply Hin|done|].
    rewrite <- not_true_iff_false, existsb_exists in He. unfold registry.UsableBy.
    destruct (registry.DestinationUsableBy _ _ _) eqn:Hu; [done|]. destruct He. exists d. rewrite Hu.
    split; [by apply list_elem_of_In|done].
Qed.

(** The row of one check written, new or not, with its probe row and all its links. *)
Lemma wf_write db db' id r' ids :
  wf db ->
  (exists refs, registry_db db' = (registry_db db) {{ registry_pg.check_destinations := refs }} /\
     refs = set_map snd (heartbeat_check_destinations db')) ->
  (forall j did, (j, did) ∈ heartbeat_check_destinations db' <->
     (j = id /\ did ∈ ids) \/ (j <> id /\ (j, did) ∈ heartbeat_check_destinations db)) ->
  heartbeat_checks db' = <[id := r']> (heartbeat_checks db) ->
  (forall j, j <> id -> heartbeat_check_probes db' !! j = heartbeat_check_probes db !! j) ->
  next_check_id db <= next_check_id db' -> 1 <= id < next_check_id db' -> ID r' = id ->
  row_ok r' (heartbeat_check_probes db' !! id) ->
  (forall j s, j <> id -> heartbeat_checks db !! j = Some s -> AppID s = AppID r' -> Name s = Name r' -> False) ->
  usable_ids db (AppID r') ids -> wf db'.
Proof.
  intros Hwf (refs & Hreg & Hrefs) Hl Hc Hp Hn Hidn Hid Hok Hnew (Hnd & Hlen & Hus).
  assert (Hhas : forall d, registry_pg.has_destination (registry_db db') d <-> registry_pg.has_destination (registry_db db) d).
  { intros d. unfold registry_pg.has_destination. by rewrite Hreg. }
  split.
  - rewrite Hreg. apply registry_refs_wf, (wf_registry _ Hwf).
  - by rewrite Hreg, <- Hrefs.
  - intros j s. rewrite Hc, lookup_insert_Some. intros [[<- <-]|[Hne Hs]]; [done|].
    destruct (wf_row _ Hwf _ _ Hs) as (? & ? & ?). rewrite (Hp j) by done. split_and!; [done|lia..|done].
  - intros i j a b. rewrite Hc, !lookup_insert_Some. intros [[<- <-]|[Hi Ha]] [[<- <-]|[Hj Hb]] H1 H2; [done| | |].
    + exfalso. apply (Hnew j b); congruence.
    + exfalso. apply (Hnew i a); congruence.
    + by apply (wf_names _ Hwf i j a b).
  - intros j Hj. rewrite Hc. destruct (decide (j = id)) as [->|Hne]; [rewrite lookup_insert_eq; by eexists|].
    rewrite lookup_insert_ne by done. apply (wf_probe _ Hwf). by rewrite <- Hp.
  - intros j did. rewrite Hl. intros [[-> Hin]|[Hne Hin]]; rewrite Hc.
    + destruct (Hus _ Hin) as (d & Hd & <- & Hu). exists r', d. rewrite lookup_insert_eq. split_and!; try done. by apply Hhas.
    + destruct (wf_link _ Hwf _ _ Hin) as (s & d & Hs & Hd & Hdid & Hu). exists s, d. rewrite lookup_insert_ne by done.
      split_and!; try done. by apply Hhas.
  - intros j. rewrite Hc. destruct (decide (j = id)) as [->|Hne].
    + intros _. assert (links_of id db' = list_to_set ((fun d => (id, d)) <$> ids)) as ->.
      { apply set_eq. intros [k did]. unfold links_of. rewrite elem_of_filter, elem_of_list_to_set, Hl, list_elem_of_fmap.
        simpl. split; [intros [-> [[_ Hi]|[? _]]]; [by eexists|done]|intros (? & [= -> ->] & Hi); auto]. }
      rewrite size_list_to_set by (apply NoDup_fmap_2; [by intros ? ? [=]|done]). by rewrite length_fmap.
    + rewrite lookup_insert_ne by done. intros Hs.
      assert (links_of j db' = links_of j db) as ->; [|by apply (wf_linked _ Hwf)].
      apply set_eq. intros [k did]. unfold links_of. rewrite !elem_of_filter, Hl. simpl. naive_solver.
  - pose proof (wf_next _ Hwf). lia.
Qed.
End heartbeat_inv.
