(* ===== verification/HeartbeatSteps.v ===== *)
(** * HeartbeatSteps

    Every operation of the heartbeat store keeps its tables in order, and so does every
    operation of the registry on the tables they share: the invariant of HeartbeatInv.v
    holds in every reachable state. *)

From S2P Require Import Prelude GoText Utf8 Idents Std Seal Registry RegistryStore Heartbeat HeartbeatProps HeartbeatSeal HeartbeatStore HeartbeatInv.
Open Scope Z_scope.
Import heartbeat heartbeat_seal.

Module heartbeat_steps.
Import heartbeat_pg heartbeat_inv.

Lemma int4_room : int4_max < int64_max.
Proof. by vm_compute. Qed.

(** ** The operations on a locked check *)

(** A lock that takes the row of one check and changes nothing. *)
Definition locks (lock : M DB StoredCheck) : Prop := forall db c db', lock db = (Ok c, db') ->
  db' = db /\ exists id r, heartbeat_checks db !! id = Some r /\ c = locked_row db id r.

Lemma lockCheck_ok where_ db c db' : lockCheck where_ db = (Ok c, db') ->
  db' = db /\ exists id r, where_ db = Some (id, r) /\ c = locked_row db id r.
Proof. unfold lockCheck. destruct (where_ db) as [[id r]|]; intros [= <- <-]. eauto. Qed.

Lemma by_id_ok id P db p : by_id id P db = Some p -> exists r, p = (id, r) /\ heartbeat_checks db !! id = Some r /\ P r = true.
Proof. unfold by_id. repeat case_match; intros [= <-]. eauto. Qed.

Lemma lock_by_id_ok id P db c db' : lockCheck (by_id id P) db = (Ok c, db') ->
  db' = db /\ exists r, heartbeat_checks db !! id = Some r /\ P r = true /\ c = locked_row db id r.
Proof. intros (-> & i & r & (r' & [= -> ->] & ? & ?)%by_id_ok & ->)%lockCheck_ok. eauto. Qed.

Lemma lockOwned_ok id appID db c db' : lockOwnedCheckByID id appID db = (Ok c, db') ->
  db' = db /\ exists r, heartbeat_checks db !! id = Some r /\ owned_by appID r = true /\ c = locked_row db id r.
Proof. intros (u & db1 & ->%params_ok & Hl)%m_bind_ok. by apply lock_by_id_ok. Qed.

Lemma locks_by_id id : locks (lockCheckByID id).
Proof. intros db c db' (-> & r & ? & _ & ->)%lock_by_id_ok. eauto. Qed.
Lemma locks_owned id appID : locks (lockOwnedCheckByID id appID).
Proof. intros db c db' (-> & r & ? & _ & ->)%lockOwned_ok. eauto. Qed.

Lemma rows_where_elem w db id r : (id, r) ∈ rows_where w db <-> heartbeat_checks db !! id = Some r /\ w r = true.
Proof. unfold rows_where. rewrite list_elem_of_filter, elem_of_map_to_list. simpl. tauto. Qed.

Lemma head_rows_where w db p : head (rows_where w db) = Some p -> heartbeat_checks db !! p.1 = Some p.2 /\ w p.2 = true.
Proof.
  intros Hh. destruct p as [id r]. apply (rows_where_elem w). destruct (rows_where w db); [done|]. injection Hh as ->. by left.
Qed.

Lemma locked_machine db id r : wf db -> heartbeat_checks db !! id = Some r -> check_wf int4_max (locked_row db id r).
Proof. intros Hwf Hr. destruct (wf_row _ Hwf _ _ Hr) as (_ & _ & Hok). apply (ro_machine _ _ Hok). Qed.

Lemma mutate_wf now lock f db : locks lock -> (forall c, preserved c (f c)) ->
  (forall c, check_wf int4_max c -> check_wf (int4_max + 1) (f c)) -> wf db -> wf (mutate now lock f db).2.
Proof.
  intros Hl Hp Hm Hwf. apply (WithTx_ind wf); [done|]. intros c db' Hrun.
  apply m_bind_ok in Hrun as (cur & db1 & Hlock & Hsave). apply Hl in Hlock as (-> & id & r & Hr & ->).
  by apply (saveCheck_wf db id r) in Hsave as [? _]; [|done|done|done|by apply Hm, locked_machine].
Qed.

Lemma ApplyPause_wf' c : check_wf int4_max c -> check_wf (int4_max + 1) (ApplyPause c).
Proof. intros H%ApplyPause_wf. by apply (check_wf_mono int4_max). Qed.
Lemma ApplyResume_wf' now c : check_wf int4_max c -> check_wf (int4_max + 1) (ApplyResume c now).
Proof. intros H. apply (check_wf_mono int4_max); [done|]. by apply ApplyResume_wf. Qed.

Section store.
Context `{Std} (store : PGStore).

Lemma Pause_wf id now db : wf db -> wf (Pause id now db).2.
Proof. apply mutate_wf; [apply locks_by_id|apply preserved_ApplyPause|apply ApplyPause_wf']. Qed.
Lemma PauseOwnedBy_wf id appID now db : wf db -> wf (PauseOwnedBy id appID now db).2.
Proof. apply mutate_wf; [apply locks_owned|apply preserved_ApplyPause|apply ApplyPause_wf']. Qed.
Lemma Resume_wf id now db : wf db -> wf (Resume id now db).2.
Proof. apply mutate_wf; [apply locks_by_id|intros; apply preserved_ApplyResume|apply ApplyResume_wf']. Qed.
Lemma ResumeOwnedBy_wf id appID now db : wf db -> wf (ResumeOwnedBy id appID now db).2.
Proof. apply mutate_wf; [apply locks_owned|intros; apply preserved_ApplyResume|apply ApplyResume_wf']. Qed.

Lemma RecordPing_wf appID name kind now db : wf db -> wf (RecordPing appID name kind now db).2.
Proof.
  intros Hwf. unfold RecordPing. destruct (ValidatePingKind kind); [done|]. cbn zeta.
  change (wf (WithTx (_ ← params "lock heartbeat check" [appID; name];
    current ← lockCheck (fun db => head (rows_where (named appID name) db));
    match Probe current with
    | Some _ => m_fail ErrProbeCheckPing
    | None => saveCheck (ApplyPing current kind (storeTime now)).1 current (storeTime now)
    end) db).2).
  apply (WithTx_ind wf); [done|]. intros c db' Hrun.
  apply m_bind_ok in Hrun as (u & db1 & ->%params_ok & Hrun).
  apply m_bind_ok in Hrun as (cur & db1 & Hlock & Hsave).
  apply lockCheck_ok in Hlock as (-> & id & r & [Hr _]%head_rows_where & ->). simpl in Hr.
  destruct (Probe _); [done|].
  apply (saveCheck_wf db id r) in Hsave as [? _]; [done|done|done|apply preserved_ApplyPing|].
  apply ApplyPing_wf; [by apply locked_machine|exact int4_room].
Qed.

Lemma RecordProbeResult_wf checkID configVersion result now hold db :
  wf db -> wf (RecordProbeResult checkID configVersion result now hold db).2.
Proof.
  intros Hwf. unfold RecordProbeResult. cbv zeta. apply (WithTx_ind wf); [done|]. intros c db' Hrun.
  apply m_bind_ok in Hrun as (found & db1 & Htry & Hrun). unfold m_try in Htry.
  destruct (lockCheckByID checkID db) as [r0 db0] eqn:Hlock. injection Htry as <- <-.
  destruct r0 as [cur|e].
  2:{ unfold lockCheckByID, lockCheck in Hlock. destruct (by_id _ _ _) as [[]|]; [done|]. injection Hlock as <- <-.
      by injection Hrun as _ <-. }
  apply lock_by_id_ok in Hlock as (-> & r & Hr & _ & ->).
  destruct (Probe _) as [probe|]; [|by injection Hrun as _ <-]. destruct (negb _); [by injection Hrun as _ <-|].
  destruct (ApplyProbeResult _ _ _ _) as [[next accepted] emitted] eqn:Hap.
  destruct (negb accepted); [by injection Hrun as _ <-|].
  apply m_bind_ok in Hrun as (re & db2 & Hsave & Hrun). injection Hrun as _ <-.
  apply (saveCheck_wf db checkID r) in Hsave as [? _]; [done|done|done| |].
  - pose proof (preserved_ApplyProbeResult (locked_row db checkID r) result (storeTime now) (storeTime hold)) as Hp. by rewrite Hap in Hp.
  - pose proof (ApplyProbeResult_wf int4_max _ result (storeTime now) (storeTime hold) (locked_machine _ _ _ Hwf Hr) int4_room) as Hp.
    by rewrite Hap in Hp.
Qed.

(** ** The tick *)

(** The locked copies of distinct checks' rows. *)
Definition locked_copies (db : DB) (due : list StoredCheck) : Prop :=
  NoDup (ID <$> due) /\ Forall (fun c => exists r, heartbeat_checks db !! ID c = Some r /\ c = locked_row db (ID c) r) due.

Lemma advance_each_wf now due : forall db ids db', locked_copies db due ->
  wf db -> advance_each now due db = (Ok ids, db') -> wf db'.
Proof.
  induction due as [|c due IH]; intros db ids db' [Hnd Hall] Hwf; cbn [advance_each]; [by intros [= _ <-]|].
  apply NoDup_cons in Hnd as [Hnotin Hnd]. apply Forall_cons in Hall as [(r & Hr & Hc) Hall].
  destruct (AdvanceTick c now) as [next changed] eqn:Ht. destruct (negb changed); [by apply IH|].
  intros Hrun. apply m_bind_ok in Hrun as (saved & db1 & Hsave & Hrun).
  apply m_bind_ok in Hrun as (ids' & db2 & Hrest & [= _ <-]).
  apply (saveCheck_wf db (ID c) r) in Hsave as (Hwf1 & (r' & Hch & _) & Hpr & _); [|done|done|rewrite <- Hc|].
  - eapply IH; [|exact Hwf1|exact Hrest]. split; [done|]. apply Forall_forall. intros d Hd.
    rewrite Forall_forall in Hall. destruct (Hall d Hd) as (s & Hs & Hds).
    assert (ID d <> ID c) by (intros He; apply Hnotin; rewrite <- He; by apply list_elem_of_fmap_2).
    exists s. rewrite Hch, lookup_insert_ne by done. split; [done|]. rewrite Hds at 1. unfold locked_row. by rewrite Hpr.
  - pose proof (preserved_AdvanceTick c now) as Hp. by rewrite Ht in Hp.
  - pose proof (AdvanceTick_wf int4_max c now) as Hp. rewrite Ht in Hp. apply Hp; [|exact int4_room].
    rewrite Hc. by apply locked_machine.
Qed.

Lemma lockChecks_copies w db : wf db ->
  locked_copies db ((fun p => locked_row db p.1 p.2) <$> merge_sort id_le (rows_where w db)).
Proof.
  intros Hwf.
  assert (Hin : forall p, p ∈ merge_sort id_le (rows_where w db) -> heartbeat_checks db !! p.1 = Some p.2 /\ ID p.2 = p.1).
  { intros [id r]. rewrite merge_sort_Permutation. intros [Hr _]%rows_where_elem. split; [done|]. by apply (wf_row _ Hwf). }
  split.
  - rewrite <- list_fmap_compose.
    assert ((ID ∘ (fun p => locked_row db p.1 p.2)) <$> merge_sort id_le (rows_where w db) =
            (merge_sort id_le (rows_where w db)).*1) as ->.
    { apply list_fmap_ext. intros i [id r] Hp%list_elem_of_lookup_2. by apply Hin. }
    rewrite merge_sort_Permutation. unfold rows_where. apply (NoDup_fmap_2_strong fst).
    + intros [i a] [j b] Ha Hb. simpl. intros ->. apply list_elem_of_filter in Ha as [_ Ha], Hb as [_ Hb].
      apply elem_of_map_to_list in Ha, Hb. congruence.
    + apply NoDup_filter, NoDup_map_to_list.
  - apply Forall_fmap, Forall_forall. intros [id r] Hp. destruct (Hin _ Hp) as [Hr Hid].
    unfold compose. cbn [fst snd] in *. assert (ID (locked_row db id r) = id) as -> by exact Hid. by exists r.
Qed.

Lemma AdvanceDue_wf now db : wf db -> wf (AdvanceDue now db).2.
Proof.
  intros Hwf. unfold AdvanceDue. cbv zeta. apply (WithTx_ind wf); [done|]. intros c db' Hrun.
  apply m_bind_ok in Hrun as (due & db1 & [= <- <-] & Hrun).
  apply m_bind_ok in Hrun as (ids & db1 & Hadv & Hrun).
  apply advance_each_wf in Hadv; [|by apply lockChecks_copies|done].
  destruct (bool_decide _); injection Hrun; by intros <-.
Qed.

(** ** Creation and patches *)

Lemma with_links_registry links db : registry_db (with_links links db) =
  (registry_db db) {{ registry_pg.check_destinations := set_map snd links }}.
Proof. done. Qed.

Lemma no_links_fresh db id : wf db -> heartbeat_checks db !! id = None ->
  forall did, (id, did) ∉ heartbeat_check_destinations db.
Proof. intros Hwf Hnone did (r & _ & Hr & _)%(wf_link _ Hwf). congruence. Qed.

Lemma elem_of_linked (id : Z) (ids : list Z) (l : gset (Z * Z)) (j did : Z) :
  (j, did) ∈ list_to_set ((fun d => (id, d)) <$> ids) ∪ l <-> (j = id /\ did ∈ ids) \/ (j, did) ∈ l.
Proof.
  rewrite elem_of_union, elem_of_list_to_set, list_elem_of_fmap. split.
  - intros [(x & [= -> ->] & Hx)|Hin]; auto.
  - intros [[-> Hin]|Hin]; [left; eauto|by right].
Qed.

(** A check as [Create] stores it satisfies the machine's invariant. *)
Lemma new_row_machine id check now p :
  (forall q, p = Some q -> consecutive_failures q = 0 /\ last_result q = None /\ down_detail q = None) ->
  check_wf int4_max ((new_row id check now) {{ Probe := state <$> p }}).
Proof.
  intros Hp. apply wf_up; simpl; [by left|done|by left|]. split; simpl; [by split|by vm_compute|].
  intros s Hs. destruct p as [q|]; [|done]. injection Hs as <-. destruct (Hp q eq_refl) as (Hf & Hl & Hd).
  assert (0 <= 0 <= int4_max) by (by vm_compute). split; simpl; rewrite ?Hf, ?Hl, ?Hd; done.
Qed.

Lemma seal_token_ok checkID token db b db' : seal_token store checkID token db = (Ok b, db') -> db' = db.
Proof. by intros [= _ <-]. Qed.

(** What [insertProbeRow] adds: one probe row, unsealed or sealed. *)
Lemma insertProbeRow_ok id probe token now db u db' : insertProbeRow store id probe token now db = (Ok u, db') ->
  exists q, db' = put_probe id q db /\ probe_types q = true /\ probe_constraints q = true /\
    config q = probe {{ ExpectedStatuses := NormalizeStatuses (ExpectedStatuses probe) }} /\
    consecutive_failures q = 0 /\ last_result q = None /\ down_detail q = None /\
    next_probe_at q = time.Add now (Duration_mul (IntervalSeconds probe) Second) /\ config_version q = 1 /\
    (is_Some (sealed_access_headers q) <-> is_Some token).
Proof.
  intros (sealed & db1 & Hs & Hw)%m_bind_ok.
  assert (db1 = db /\ (is_Some sealed <-> is_Some token)) as [-> Hsome].
  { destruct token as [t|]; [|injection Hs as <- <-; done].
    apply m_bind_ok in Hs as (b & db2 & ->%seal_token_ok & [= <- <-]). split; [done|]. split; by eexists. }
  apply write_probe_ok in Hw as (? & ? & ->). eexists. split; [done|]. done.
Qed.

Lemma NormalizeStatuses_idemp l : NormalizeStatuses (NormalizeStatuses l) = NormalizeStatuses l.
Proof. apply sort_ints_idemp. Qed.

(** What a successful [Create] has done. *)
Lemma Create_ok check now db c db' : wf db -> Create store check now db = (Ok c, db') ->
  let schedule := match New_Probe check with Some p => DerivedSchedule (IntervalSeconds p)
                  | None => (New_PeriodSeconds check, New_GraceSeconds check) end in
  let row := new_row (next_check_id db)
    (check {{ New_PeriodSeconds := schedule.1; New_GraceSeconds := schedule.2 }}) (storeTime now) in
  wf db' /\ c = scanCheck db' (next_check_id db) row /\
  heartbeat_checks db' = <[next_check_id db := row]> (heartbeat_checks db) /\
  (exists ids, resolveDestinationIDs (New_DestinationNames check) (New_AppID check) db = (Ok ids, db) /\
     forall j did, (j, did) ∈ heartbeat_check_destinations db' <->
       (j = next_check_id db /\ did ∈ ids) \/ (j, did) ∈ heartbeat_check_destinations db) /\
  (forall j, j <> next_check_id db -> heartbeat_check_probes db' !! j = heartbeat_check_probes db !! j).
Proof.
  intros Hwf Hrun. cbv zeta. unfold Create in Hrun. cbv zeta in Hrun. apply (proj1 (WithTx_ok _ _ _ _)) in Hrun.
  apply m_bind_ok in Hrun as (ids & db1 & Hres & Hrun).
  destruct (resolve_ok _ _ _ _ _ (wf_registry _ Hwf) Hres) as [-> Hids].
  apply m_bind_ok in Hrun as (u & db1 & Hchk & Hrun). apply m_check_ok in Hchk as [_ ->].
  set (check' := check {{ New_PeriodSeconds := _; New_GraceSeconds := _ }}).
  assert (match New_Probe check with
          | Some probe => check {{ New_PeriodSeconds := (DerivedSchedule (IntervalSeconds probe)).1;
                                   New_GraceSeconds := (DerivedSchedule (IntervalSeconds probe)).2 }}
          | None => check end = check') as Hck' by (unfold check'; destruct check as []; simpl; destruct New_Probe0; done).
  rewrite Hck' in Hrun.
  apply m_bind_ok in Hrun as (id & db1 & Hins & Hrun). unfold insert_check in Hins. cbv zeta in Hins.
  set (row := new_row (next_check_id db) check' (storeTime now)) in *.
  destruct (negb (check_types row)) eqn:Hty; [done|]. destruct (negb (check_constraints row)) eqn:Hck; [done|].
  destruct (check_exists db row) eqn:Hex; [done|]. injection Hins as <- <-. bool_hyps.
  assert (Hfresh : heartbeat_checks db !! next_check_id db = None).
  { apply eq_None_not_Some. intros [s Hs]. apply (wf_row _ Hwf) in Hs as (_ & Hlt & _). lia. }
  apply m_bind_ok in Hrun as (u' & db2 & Hlink & Hrun). injection Hlink as _ <-.
  apply m_bind_ok in Hrun as (u2 & db3 & Hprobe & Hq). apply queryCheckByID_ok in Hq as (-> & r0 & Hr0 & ->).
  assert (Hnp : heartbeat_check_probes db !! next_check_id db = None).
  { apply eq_None_not_Some. intros Hs%(wf_probe _ Hwf). rewrite Hfresh in Hs. by destruct Hs. }
  assert (Hfacts : registry_db db3 = (registry_db db) {{ registry_pg.check_destinations := set_map snd (heartbeat_check_destinations db3) }} /\
    heartbeat_check_destinations db3 = list_to_set ((fun d => (next_check_id db, d)) <$> ids) ∪ heartbeat_check_destinations db /\
    heartbeat_checks db3 = <[next_check_id db := row]> (heartbeat_checks db) /\
    next_check_id db3 = next_check_id db + 1 /\
    (forall j, j <> next_check_id db -> heartbeat_check_probes db3 !! j = heartbeat_check_probes db !! j) /\
    row_ok row (heartbeat_check_probes db3 !! next_check_id db)).
  { assert (Hnew : New_Probe check' = New_Probe check) by (by destruct check).
    rewrite Hnew in Hprobe.
    destruct (New_Probe check) as [probe|] eqn:Hpr.
    - apply insertProbeRow_ok in Hprobe as (q & -> & Hqt & Hqc & Hqconf & Hqf & Hql & Hqd & _).
      split_and!; [done..|intros j Hj; simpl; by rewrite lookup_insert_ne|].
      simpl. rewrite lookup_insert_eq. split; [done|done|done| |by apply new_row_machine; intros ? [= <-]].
      intros ? [= <-]. rewrite Hqconf. cbn [ExpectedStatuses IntervalSeconds]. split_and!; [done|done|by apply NormalizeStatuses_idemp|done].
    - injection Hprobe as _ <-. split_and!; try done. cbn [heartbeat_check_probes with_links put_check].
      change (row_ok row (heartbeat_check_probes db !! next_check_id db)). rewrite Hnp.
      split; [done|done|done|done|]. by apply new_row_machine. }
  destruct Hfacts as (Hreg & Hlinks & Hchecks & Hnext & Hprobes & Hok).
  assert (Hr1 : r0 = row) by (rewrite Hchecks, lookup_insert_eq in Hr0; by injection Hr0). subst r0.
  split_and!; [|done|done| |done].
  - eapply (wf_write db db3 (next_check_id db) row ids); try done.
    + eexists. split; [exact Hreg|done].
    + intros j did. rewrite Hlinks, elem_of_linked. pose proof (no_links_fresh _ _ Hwf Hfresh did).
      split; [|tauto]. intros [?|Hin]; [by left|]. right. split; [|done]. by intros ->.
    + lia.
    + pose proof (wf_next _ Hwf). lia.
    + intros j s _ Hs Ha Hn. apply bool_decide_eq_false in Hex. apply Hex. by exists j, s.
  - exists ids. split; [exact Hres|]. intros j did. by rewrite Hlinks, elem_of_linked.
Qed.

Lemma Create_wf check now db : wf db -> wf (Create store check now db).2.
Proof.
  intros Hwf. destruct (Create store check now db) as [[c|e] db'] eqn:Hrun.
  - by apply Create_ok in Hrun as [? _].
  - unfold Create in Hrun. cbv zeta in Hrun. by apply WithTx_err in Hrun as ->.
Qed.

(** The row a patch leaves, and the tables around it before the probe row is written. *)
Definition rescheduled (update : CheckUpdate) (anchorAt now : Z) (r : StoredCheck) : StoredCheck :=
  r {{ PeriodSeconds := Update_PeriodSeconds update; GraceSeconds := Update_GraceSeconds update;
       AnchorAt := anchorAt; UpdatedAt := now }}.

Lemma replaceSchedule_ok appID id update anchorAt now db c db' r : registry_pg.wf (registry_db db) ->
  heartbeat_checks db !! id = Some r -> replaceSchedule appID id update anchorAt now db = (Ok c, db') ->
  let r' := rescheduled update anchorAt now r in
  c = scanCheck db' id r' /\ check_types r' = true /\ check_constraints r' = true /\
  heartbeat_checks db' = <[id := r']> (heartbeat_checks db) /\
  heartbeat_check_probes db' = heartbeat_check_probes db /\ next_check_id db' = next_check_id db /\
  registry_db db' = (registry_db db) {{ registry_pg.check_destinations := set_map snd (heartbeat_check_destinations db') }} /\
  exists ids, resolveDestinationIDs (Update_DestinationNames update) appID db = (Ok ids, db) /\ usable_ids db appID ids /\
    forall j did, (j, did) ∈ heartbeat_check_destinations db' <->
      (j = id /\ did ∈ ids) \/ (j <> id /\ (j, did) ∈ heartbeat_check_destinations db).
Proof.
  intros Hreg Hr Hrun. cbv zeta. apply m_bind_ok in Hrun as (ids & db1 & Hres & Hrun).
  destruct (resolve_ok _ _ _ _ _ Hreg Hres) as [-> Hids].
  apply m_bind_ok in Hrun as (u & db1 & Hup & Hrun). apply (update_check_ok _ _ _ _ _ _ _ Hr) in Hup as (Hty & Hck & ->).
  apply m_bind_ok in Hrun as (u1 & db2 & Hclear & Hrun). injection Hclear as _ <-.
  apply m_bind_ok in Hrun as (u2 & db3 & Hlink & Hq). injection Hlink as _ <-.
  apply queryCheckByID_ok in Hq as (-> & r0 & Hr0 & ->).
  match goal with |- context [scanCheck ?d _ _] => set (db3 := d) in * end.
  assert (Hlinks : heartbeat_check_destinations db3 = list_to_set ((fun d => (id, d)) <$> ids) ∪
    filter (fun p => p.1 <> id) (heartbeat_check_destinations db)) by done.
  assert (Hchecks : heartbeat_checks db3 = <[id := rescheduled update anchorAt now r]> (heartbeat_checks db)) by done.
  assert (r0 = rescheduled update anchorAt now r) as -> by (rewrite Hchecks, lookup_insert_eq in Hr0; by injection Hr0).
  split_and!; try done. exists ids. split_and!; [exact Hres|exact Hids..|].
  intros j did. rewrite Hlinks, elem_of_linked, elem_of_filter. done.
Qed.

Lemma sealedAccessChangeFor_ok id token db a db' : sealedAccessChangeFor store id token db = (Ok a, db') -> db' = db.
Proof.
  unfold sealedAccessChangeFor. destruct (Action token); try by intros [= _ <-].
  intros (b & db1 & ->%seal_token_ok & [= _ <-])%m_bind_ok. done.
Qed.

(** The machine's fields of a patched check: the probe config is not one of them. *)
Lemma patched_machine current probe update merged now : check_wf int4_max current -> Probe current = Some probe ->
  check_wf int4_max (patched_check current probe update merged now).
Proof.
  intros Hwf Hp. unfold patched_check. set (next := current {{ Probe := _; PeriodSeconds := _; GraceSeconds := _ }}).
  assert (Hn : check_wf int4_max next).
  { apply (check_wf_same _ current); [|done]. split_and!; try done. intros q Hq. injection Hq as <-. by exists probe. }
  destruct (ProbeConfigChanged _ _ _); [|done]. by apply ApplyProbeReset_wf.
Qed.

Lemma patched_probe current probe update merged now : exists p,
  Probe (patched_check current probe update merged now) = Some p /\ Probe_Config p = merged.
Proof. unfold patched_check. destruct (ProbeConfigChanged _ _ _); eexists; split; try reflexivity; reflexivity. Qed.

(** What else a patch of a probe check leaves as it was. *)
Lemma patched_rest current probe update merged now :
  let next := patched_check current probe update merged now in
  ID next = ID current /\ same_machine (current {{ Probe := None }}) (next {{ Probe := None }}).
Proof. cbv zeta. unfold patched_check, same_machine. destruct (ProbeConfigChanged _ _ _); by destruct current. Qed.

Definition lock_of (id : Z) (lock : M DB StoredCheck) : Prop := forall db c db', lock db = (Ok c, db') ->
  db' = db /\ exists r, heartbeat_checks db !! id = Some r /\ c = locked_row db id r.

(** What a successful patch has done. *)
Lemma patch_ok id p now lock db c db' : lock_of id lock -> wf db -> patch store id p now lock db = (Ok c, db') ->
  exists r anchorAt, heartbeat_checks db !! id = Some r /\
  let update := ApplyPatch (scanCheck db id r) p in
  let r' := rescheduled update anchorAt (storeTime now) r in
  ValidateCheckPatchForKind (locked_row db id r) p = None /\ ValidateCheckUpdate update = None /\
  wf db' /\ c = scanCheck db' id r' /\ heartbeat_checks db' = <[id := r']> (heartbeat_checks db) /\
  (exists ids, resolveDestinationIDs (Update_DestinationNames update) (AppID r) db = (Ok ids, db) /\
    forall j did, (j, did) ∈ heartbeat_check_destinations db' <->
      (j = id /\ did ∈ ids) \/ (j <> id /\ (j, did) ∈ heartbeat_check_destinations db)) /\
  match heartbeat_check_probes db !! id with
  | None => heartbeat_check_probes db' = heartbeat_check_probes db
  | Some q => exists access merged next,
      next = patched_check (scanCheck db id r) (state q) update merged (storeTime now) /\ Update_Probe update = Some merged /\
      sealedAccessChangeFor store id (Update_AccessToken update) db = (Ok access, db) /\ anchorAt = AnchorAt next /\
      exists probe, Probe next = Some probe /\
      heartbeat_check_probes db' = <[id := written_probe q probe (Some (next_probe_at q)) access]> (heartbeat_check_probes db)
  end.
Proof.
  intros Hlock Hwf Hrun. unfold patch in Hrun. cbv zeta in Hrun. apply (proj1 (WithTx_ok _ _ _ _)) in Hrun.
  apply m_bind_ok in Hrun as (lc & db1 & Hl & Hrun). apply Hlock in Hl as (-> & r & Hr & ->).
  apply m_bind_ok in Hrun as (u & db1 & Hchk & Hrun). apply m_check_ok in Hchk as [Hkind ->].
  apply m_bind_ok in Hrun as (cur & db1 & Hq & Hrun). apply queryCheckByID_ok in Hq as (-> & r0 & Hr0 & ->).
  assert (r0 = r) as -> by congruence. clear Hr0.
  apply m_bind_ok in Hrun as (u1 & db1 & Hchk & Hrun). apply m_check_ok in Hchk as [Hval ->].
  apply m_bind_ok in Hrun as ([next access] & db1 & Hnext & Hrun).
  apply m_bind_ok in Hrun as (replaced & db2 & Hrep & Hrun).
  destruct (wf_row _ Hwf _ _ Hr) as (Hid & Hidn & Hok).
  set (cur := scanCheck db id r) in *. set (update := ApplyPatch cur p) in *.
  assert (Hnew : forall anchorAt j s, j <> id -> heartbeat_checks db !! j = Some s ->
    AppID s = AppID (rescheduled update anchorAt (storeTime now) r) ->
    Name s = Name (rescheduled update anchorAt (storeTime now) r) -> False).
  { intros a j s Hne Hs Ha Hn. apply Hne. by apply (wf_names _ Hwf j id s r). }
  exists r, (AnchorAt next). split; [done|]. cbv zeta. split; [exact Hkind|]. split; [exact Hval|].
  destruct (heartbeat_check_probes db !! id) as [q|] eqn:Hq0.
  - (* a probe check *)
    assert (Hpc : Probe cur = Some (state q)) by (unfold cur, scanCheck; cbn [Probe]; by rewrite Hq0).
    assert (Hup : exists merged, Update_Probe update = Some merged /\
      (Update_PeriodSeconds update, Update_GraceSeconds update) = DerivedSchedule (IntervalSeconds merged) /\
      NormalizeStatuses (ExpectedStatuses merged) = ExpectedStatuses merged).
    { unfold update, ApplyPatch. rewrite Hpc. cbv zeta. eexists. split_and!; [done|done|]. unfold mergeProbeConfig.
      destruct (CP_Probe p) as [pp|]; [|apply NormalizeStatuses_idemp]. cbn [ExpectedStatuses].
      destruct (PP_ExpectedStatuses pp); apply NormalizeStatuses_idemp. }
    destruct Hup as (merged & Hup & Hder & Hsorted). rewrite Hpc, Hup in Hnext.
    apply m_bind_ok in Hnext as (acc & db3 & Hacc & Hnext). injection Hnext as <- <- <-.
    pose proof (sealedAccessChangeFor_ok _ _ _ _ _ Hacc) as ->.
    set (next := patched_check cur (state q) update merged (storeTime now)) in *.
    destruct (patched_probe cur (state q) update merged (storeTime now)) as (p' & Hp' & Hconf). fold next in Hp'.
    destruct (replaceSchedule_ok _ _ _ _ _ _ _ _ _ (wf_registry _ Hwf) Hr Hrep)
      as (_ & Hty & Hck & Hch & Hpr & Hnx & Hrg & ids & Hres & Hids & Hlinks).
    destruct (patched_rest cur (state q) update merged (storeTime now)) as [Hnid Hrest]. fold next in Hnid, Hrest.
    assert (Hnid' : ID next = id) by (rewrite Hnid; exact Hid).
    rewrite Hp' in Hrun. apply m_bind_ok in Hrun as (u2 & db3 & Hw & Hq). apply queryCheckByID_ok in Hq as (-> & r1 & Hr1 & ->).
    unfold writeProbeRow in Hw. rewrite Hnid', Hpr, Hq0 in Hw. apply write_probe_ok in Hw as (Hpt & Hpcn & ->).
    assert (Hb : lockedNextProbeAt (locked_row db id r) = Some (next_probe_at q)).
    { unfold lockedNextProbeAt, locked_row. cbn [Probe]. by rewrite Hq0. }
    rewrite Hb in *. set (q' := written_probe q p' (Some (next_probe_at q)) acc) in *.
    set (r' := rescheduled update (AnchorAt next) (storeTime now) r) in *.
    assert (r1 = r') as -> by (rewrite put_probe_checks, Hch, lookup_insert_eq in Hr1; by injection Hr1).
    split_and!; [|done|done| |].
    + eapply (wf_write db _ id r' ids); [done|by eexists|exact Hlinks|exact Hch| | | |exact Hid| |exact (Hnew _)|exact Hids].
      * intros j Hj. by rewrite put_probe_probes, lookup_insert_ne, Hpr.
      * rewrite put_probe_next. lia.
      * rewrite put_probe_next. lia.
      * rewrite put_probe_probes, lookup_insert_eq.
        assert (Hcq : config q' = merged).
        { unfold q', written_probe. cbn [config]. rewrite Hconf. destruct merged. simpl in *. by rewrite Hsorted. }
        split; [apply (ro_plain _ _ Hok)|done|done| |].
        -- intros ? [= <-]. rewrite Hcq. split_and!; [done|done|done|exact Hder].
        -- assert (Hm : check_wf int4_max next).
           { apply patched_machine; [|done]. apply (check_wf_same _ (locked_row db id r)); [|by apply locked_machine].
             split_and!; try done. intros s Hs. exists s. by split. }
           apply (check_wf_same _ next); [|done]. destruct Hrest as (R1 & R2 & R3 & R4 & R5 & R6 & R7 & R8 & _).
           simpl in R1, R2, R3, R4, R5, R6, R7, R8. split_and!; try (symmetry; done).
           intros s [= <-]. exists p'. split; [done|]. done.
    + exists ids. split; [exact Hres|exact Hlinks].
    + exists acc, merged, next. split_and!; try done. exists p'. split; [done|]. by rewrite put_probe_probes, Hpr.
  - (* a push check *)
    assert (Hpc : Probe cur = None) by (unfold cur, scanCheck; cbn [Probe]; by rewrite Hq0).
    rewrite Hpc in Hnext. injection Hnext as <- <- <-. rewrite Hpc in Hrun. injection Hrun as <- <-.
    destruct (replaceSchedule_ok _ _ _ _ _ _ _ _ _ (wf_registry _ Hwf) Hr Hrep)
      as (-> & Hty & Hck & Hch & Hpr & Hnx & Hrg & ids & Hres & Hids & Hlinks).
    split_and!; [|done|done|by exists ids|done].
    eapply (wf_write db _ id _ ids); [done|by eexists|exact Hlinks|exact Hch| | | |exact Hid| |exact (Hnew _)|exact Hids].
    + intros j Hj. by rewrite Hpr.
    + lia.
    + lia.
    + rewrite Hpr, Hq0. split; [apply (ro_plain _ _ Hok)|done|done|done|].
      apply (check_wf_same _ (locked_row db id r)); [|by apply locked_machine]. split_and!; try done.
Qed.

Lemma lock_of_by_id id : lock_of id (lockCheckByID id).
Proof. intros db c db' (-> & r & ? & _ & ->)%lock_by_id_ok. eauto. Qed.
Lemma lock_of_owned id appID : lock_of id (lockOwnedCheckByID id appID).
Proof. intros db c db' (-> & r & ? & _ & ->)%lockOwned_ok. eauto. Qed.

Lemma patch_wf id p now lock db : lock_of id lock -> wf db -> wf (patch store id p now lock db).2.
Proof.
  intros Hlock Hwf. destruct (patch store id p now lock db) as [[c|e] db'] eqn:Hrun.
  - by apply patch_ok in Hrun as (r & a & _ & _ & _ & ? & _).
  - unfold patch in Hrun. cbv zeta in Hrun. by apply WithTx_err in Hrun as ->.
Qed.

(** ** Deletion, the outbox, claims *)

Lemma drop_check_tables id db :
  heartbeat_checks (drop_check id db) = delete id (heartbeat_checks db) /\
  heartbeat_check_probes (drop_check id db) = delete id (heartbeat_check_probes db) /\
  heartbeat_check_destinations (drop_check id db) = filter (fun p => p.1 <> id) (heartbeat_check_destinations db) /\
  registry_db (drop_check id db) = (registry_db db) {{ registry_pg.check_destinations :=
    set_map snd (heartbeat_check_destinations (drop_check id db)) }}.
Proof. done. Qed.

Lemma delete_where_wf id P db : wf db -> wf (delete_where id P db).2.
Proof.
  intros Hwf. unfold delete_where. destruct (by_id id P db) as [[]|]; [|done]. cbn [snd].
  destruct (drop_check_tables id db) as (Hc & Hp & Hl & Hg). split.
  - rewrite Hg. apply registry_refs_wf, (wf_registry _ Hwf).
  - by rewrite Hg at 1.
  - intros j r. rewrite Hc, Hp. intros [Hne Hr]%lookup_delete_Some. rewrite lookup_delete_ne by done. apply (wf_row _ Hwf _ _ Hr).
  - intros i j a b. rewrite Hc. intros [_ Ha]%lookup_delete_Some [_ Hb]%lookup_delete_Some. by apply (wf_names _ Hwf i j a b).
  - intros j. rewrite Hc, Hp. intros [q [Hne Hq]%lookup_delete_Some]. rewrite lookup_delete_ne by done.
    apply (wf_probe _ Hwf). by eexists.
  - intros j did. rewrite Hl, Hc. intros [Hne Hin]%elem_of_filter. simpl in Hne.
    destruct (wf_link _ Hwf _ _ Hin) as (r & d & Hr & Hd & ? & ?). exists r, d. by rewrite lookup_delete_ne.
  - intros j. rewrite Hc. intros [r [Hne Hr]%lookup_delete_Some].
    assert (links_of j (drop_check id db) = links_of j db) as ->; [|apply (wf_linked _ Hwf); by eexists].
    apply set_eq. intros [k did]. unfold links_of. rewrite Hl, !elem_of_filter. simpl. naive_solver.
  - apply (wf_next _ Hwf).
Qed.

Lemma DeleteOwnedBy_wf id appID db : wf db -> wf (DeleteOwnedBy id appID db).2.
Proof.
  intros Hwf. unfold DeleteOwnedBy, params. destruct (forallb _ _); [|done]. by apply (delete_where_wf id (owned_by appID)).
Qed.

Lemma types_cleared r : check_types r = true -> check_types (r {{ PendingAlert := None }}) = true.
Proof.
  unfold check_types. cbn [forallb PendingAlert none_or]. rewrite !andb_true_iff. tauto.
Qed.
Lemma constraints_cleared r : check_constraints r = true -> check_constraints (r {{ PendingAlert := None }}) = true.
Proof.
  unfold check_constraints. cbn [PendingAlert none_or]. rewrite !andb_true_iff. tauto.
Qed.

Lemma ClearPendingAlert_wf id seq db : wf db -> wf (ClearPendingAlert id seq db).2.
Proof.
  intros Hwf. unfold ClearPendingAlert. destruct (negb _); [done|]. destruct (heartbeat_checks db !! id) as [r|] eqn:Hr; [|done].
  destruct (_ && _); [|done]. destruct (wf_row _ Hwf _ _ Hr) as (Hid & _ & [Hpl Hty Hck Hpb Hm]). cbn [snd].
  eapply (wf_set db _ id r); try done. rewrite put_check_probes.
  split; [done|by apply types_cleared|by apply constraints_cleared|done|]. exact (flush_wf _ _ Hm).
Qed.

(** Only the claimed rows change, and only their [next_probe_at]. *)
Lemma advance_claimed_lookup now claimed db : NoDup claimed.*1 ->
  (forall id q, (id, q) ∈ claimed -> heartbeat_check_probes db !! id = Some q) ->
  let db' := advance_claimed now claimed db in
  registry_db db' = registry_db db /\ heartbeat_checks db' = heartbeat_checks db /\
  heartbeat_check_destinations db' = heartbeat_check_destinations db /\ next_check_id db' = next_check_id db /\
  forall id, heartbeat_check_probes db' !! id =
    if bool_decide (id ∈ claimed.*1) then advanced now <$> heartbeat_check_probes db !! id
    else heartbeat_check_probes db !! id.
Proof.
  intros Hnd Hin. induction claimed as [|[i q] claimed IH]; cbv zeta; [done|].
  apply NoDup_cons in Hnd as [Hni Hnd]. destruct IH as (H1 & H2 & H3 & H4 & H5); [done|by intros; apply Hin; right|].
  cbn [advance_claimed foldr fst snd]. fold (advance_claimed now claimed db). split_and!; [done..|].
  intros id. rewrite put_probe_probes. destruct (decide (id = i)) as [->|Hne].
  - rewrite lookup_insert_eq, bool_decide_eq_true_2 by left. by rewrite (Hin i q) by left.
  - rewrite lookup_insert_ne, H5 by done.
    destruct (decide (id ∈ claimed.*1)).
    + rewrite !bool_decide_eq_true_2; [done|by right|done].
    + rewrite !bool_decide_eq_false_2; [done|by intros [?|?]%elem_of_cons|done].
Qed.

Lemma due_probes_elem now db p : p ∈ due_probes store now db <->
  heartbeat_check_probes db !! p.1 = Some p.2 /\ due_probe store now db p = true.
Proof.
  unfold due_probes. rewrite merge_sort_Permutation, (scan_order_perm (planner store)), list_elem_of_filter.
  destruct p as [id q]. rewrite elem_of_map_to_list. tauto.
Qed.

Lemma due_probes_NoDup now db : NoDup (due_probes store now db).*1.
Proof.
  apply NoDup_fmap_2_strong.
  - intros [i a] [j b] [Ha _]%due_probes_elem [Hb _]%due_probes_elem. simpl in *. intros ->. congruence.
  - unfold due_probes. rewrite merge_sort_Permutation, (scan_order_perm (planner store)). apply NoDup_filter, NoDup_map_to_list.
Qed.

Definition claimed (now limit : Z) (db : DB) : list (Z * ProbeRow) := take (Z.to_nat limit) (due_probes store now db).

Lemma claimed_tables now limit db :
  let db' := advance_claimed now (claimed now limit db) db in
  registry_db db' = registry_db db /\ heartbeat_checks db' = heartbeat_checks db /\
  heartbeat_check_destinations db' = heartbeat_check_destinations db /\ next_check_id db' = next_check_id db /\
  forall id, heartbeat_check_probes db' !! id =
    if bool_decide (id ∈ (claimed now limit db).*1) then advanced now <$> heartbeat_check_probes db !! id
    else heartbeat_check_probes db !! id.
Proof.
  apply advance_claimed_lookup.
  - unfold claimed. rewrite <- firstn_map. apply NoDup_take, due_probes_NoDup.
  - intros id q Hin%take_elem%due_probes_elem. tauto.
Qed.

Lemma row_ok_advanced now r q : row_ok r (Some q) -> row_ok r (Some (advanced now q)).
Proof.
  intros [Hpl Hty Hck Hpr Hm]. destruct (Hpr q eq_refl) as (H1 & H2 & H3 & H4).
  split; [done|done|done| |].
  - intros ? [= <-]. done.
  - apply (check_wf_same _ (r {{ Probe := state <$> Some q }})); [|done]. split_and!; try done.
    intros s [= <-]. exists (state q). done.
Qed.

Lemma ClaimDueProbes_wf now limit db : wf db -> wf (ClaimDueProbes store now limit db).2.
Proof.
  intros Hwf. unfold ClaimDueProbes. destruct (limit <? 1); [done|]. destruct (negb _); [done|]. cbv zeta. cbn [snd].
  fold (claimed (storeTime now) limit db). destruct (claimed_tables (storeTime now) limit db) as (H1 & H2 & H3 & H4 & H5).
  split.
  - rewrite H1. apply (wf_registry _ Hwf).
  - rewrite H1, H3. apply (wf_refs _ Hwf).
  - intros id r. rewrite H2, H4, H5. intros Hr. destruct (wf_row _ Hwf _ _ Hr) as (? & ? & Hok). split_and!; [done|lia..|].
    case_bool_decide; [|done]. destruct (heartbeat_check_probes db !! id); [|done]. by apply row_ok_advanced.
  - intros i j a b. rewrite H2. apply (wf_names _ Hwf).
  - intros id. rewrite H2, H5. intros Hs. apply (wf_probe _ Hwf). case_bool_decide; [|done]. by apply fmap_is_Some in Hs.
  - intros id did. rewrite H2, H3, H1. apply (wf_link _ Hwf).
  - intros id. unfold links_of. rewrite H2, H3. apply (wf_linked _ Hwf).
  - rewrite H4. apply (wf_next _ Hwf).
Qed.
End store.

(** ** The registry's operations on the shared tables *)

Lemma WithTx_pg_keeps {A} (body : M registry_pg.DB A) db :
  (forall a db', body db = (Ok a, db') -> registry_pg.destinations db' = registry_pg.destinations db) ->
  registry_pg.destinations (WithTx body db).2 = registry_pg.destinations db.
Proof. intros Hb. unfold WithTx. destruct (body db) as [[a|e] db'] eqn:E; [by eapply Hb|done]. Qed.

Lemma resolve_keeps names pat db ids db' : registry_pg.resolveDestinationIDs names pat db = (Ok ids, db') -> db' = db.
Proof. unfold registry_pg.resolveDestinationIDs. cbv zeta. case_match; by intros [= _ <-]. Qed.

(** A destination a check alerts survives every registry operation, with the same id,
    name and owner. *)
Lemma registry_step_keeps reg reg' d : registry_pg.wf reg -> registry_pg.step reg reg' ->
  registry_pg.has_destination reg d -> registry.ID d ∈ registry_pg.check_destinations reg ->
  exists d', registry_pg.has_destination reg' d' /\ registry_pg.same_identity d d'.
Proof.
  intros Hwf Hstep Hd Href. unfold registry_pg.has_destination in *.
  assert (Hsame : forall reg1, registry_pg.destinations reg1 = registry_pg.destinations reg ->
    exists d', registry_pg.destinations reg1 !! registry.Name d' = Some d' /\ registry_pg.same_identity d d').
  { intros reg1 ->. exists d. done. }
  assert (Hdel : forall w name, exists d', registry_pg.destinations (registry_pg.delete_destination_where w name reg).2 !! registry.Name d' = Some d' /\
    registry_pg.same_identity d d').
  { intros w name. unfold registry_pg.delete_destination_where.
    destruct (registry_pg.destinations reg !! name) as [c|] eqn:Hc; [|by apply Hsame].
    destruct (negb _); [by apply Hsame|]. destruct (registry_pg.referenced _ _) eqn:Hr; [by apply Hsame|].
    exists d. split; [|done]. simpl. rewrite lookup_delete_ne; [done|]. intros ->.
    assert (c = d) as -> by congruence. unfold registry_pg.referenced in Hr. bool_hyps. done. }
  destruct Hstep as [new|A name mutate|name|name appID|route|id mutate|id|id appID|t refs].
  - unfold registry_pg.pg_InsertDestination. cbv zeta. repeat case_match; try by apply Hsame. bool_hyps.
    exists d. split; [|done]. simpl. rewrite lookup_insert_ne; [done|]. intros He.
    match goal with Hn : ~ is_Some _ |- _ => apply Hn end. simpl in He. simpl. rewrite He. by eexists.
  - unfold registry_pg.pg_UpdateDestination. destruct (registry_pg.destinations reg !! name) as [cur|] eqn:Hcur; [|by apply Hsame].
    destruct (mutate cur) as [[m a]|e]; [|by apply Hsame]. cbv zeta.
    set (saved := cur {{ registry.Config := _; registry.SealedSecrets := _; registry.Enabled := _; registry.DisabledReason := _; registry.UpdatedAt := _ }}).
    destruct (negb _); [by apply Hsame|]. simpl. destruct (registry_pg.wf_destination _ Hwf _ _ Hcur) as (Hn & _ & _).
    destruct (decide (registry.Name d = name)) as [He|Hne].
    + rewrite He in Hd. assert (cur = d) as Hcd by congruence. exists saved. assert (registry.Name saved = name) as -> by exact Hn.
      rewrite lookup_insert_eq. split; [done|]. by rewrite <- Hcd.
    + exists d. by rewrite lookup_insert_ne.
  - apply Hdel.
  - apply Hdel.
  - apply Hsame. apply WithTx_pg_keeps. intros a db' Hrun.
    apply m_bind_ok in Hrun as (ids & db1 & ->%resolve_keeps & Hrun). apply m_bind_ok in Hrun as (rid & db2 & Hins & Hrun).
    cbv zeta in Hins. repeat case_match; try done. injection Hins as _ <-.
    apply m_bind_ok in Hrun as ([] & db3 & [= <-] & Hrun). by apply registry_pg.queryRoute_ok in Hrun as [-> _].
  - apply Hsame. apply WithTx_pg_keeps. intros a db' Hrun.
    apply m_bind_ok in Hrun as (cur & db1 & Hq & Hrun). apply registry_pg.queryRoute_ok in Hq as (-> & row0 & Hrow0 & ->).
    apply m_bind_ok in Hrun as (mutated & db1 & Hm & Hrun). injection Hm as Hm <-.
    apply m_bind_ok in Hrun as (ids & db1 & ->%resolve_keeps & Hrun).
    apply m_bind_ok in Hrun as ([] & db2 & Hupd & Hrun). rewrite Hrow0 in Hupd. cbv zeta in Hupd.
    repeat case_match; try done. injection Hupd as <-.
    apply m_bind_ok in Hrun as ([] & db3 & [= <-] & Hrun). apply m_bind_ok in Hrun as ([] & db4 & [= <-] & Hrun).
    by apply registry_pg.queryRoute_ok in Hrun as [-> _].
  - apply Hsame. unfold registry_pg.pg_DeleteRoute, registry_pg.delete_route_where. repeat case_match; done.
  - apply Hsame. unfold registry_pg.pg_DeleteRouteOwnedBy, registry_pg.delete_route_where. repeat case_match; done.
  - by apply Hsame.
Qed.

Lemma registry_step_wf db reg' : wf db -> registry_pg.step (registry_db db) reg' ->
  registry_pg.check_destinations reg' = registry_pg.check_destinations (registry_db db) ->
  wf (db {{ registry_db := reg' }}).
Proof.
  intros Hwf Hstep Hrefs. split; simpl.
  - by eapply registry_pg.step_wf, (wf_registry _ Hwf).
  - rewrite Hrefs. apply (wf_refs _ Hwf).
  - apply (wf_row _ Hwf).
  - apply (wf_names _ Hwf).
  - apply (wf_probe _ Hwf).
  - intros id did Hin. destruct (wf_link _ Hwf _ _ Hin) as (r & d & Hr & Hd & <- & Hu).
    destruct (registry_step_keeps _ _ d (wf_registry _ Hwf) Hstep Hd) as (d' & Hd' & Hsame).
    { rewrite (wf_refs _ Hwf). apply elem_of_map. by exists (id, registry.ID d). }
    exists r, d'. split_and!; [done|done|by destruct Hsame|by rewrite (registry_pg.UsableBy_same d)].
  - apply (wf_linked _ Hwf).
  - apply (wf_next _ Hwf).
Qed.

(** ** Reachable tables *)

Section reachable.
Context `{Std} (store : PGStore).

Inductive step (db : DB) : DB -> Prop :=
  | step_create check now : step db (Create store check now db).2
  | step_patch id p now : step db (Patch store id p now db).2
  | step_patch_owned id appID p now : step db (PatchOwnedBy store id appID p now db).2
  | step_delete id : step db (Delete id db).2
  | step_delete_owned id appID : step db (DeleteOwnedBy id appID db).2
  | step_pause id now : step db (Pause id now db).2
  | step_pause_owned id appID now : step db (PauseOwnedBy id appID now db).2
  | step_resume id now : step db (Resume id now db).2
  | step_resume_owned id appID now : step db (ResumeOwnedBy id appID now db).2
  | step_ping appID name kind now : step db (RecordPing appID name kind now db).2
  | step_advance now : step db (AdvanceDue now db).2
  | step_clear id seq : step db (ClearPendingAlert id seq db).2
  | step_result checkID version r now hold : step db (RecordProbeResult checkID version r now hold db).2
  | step_claim now limit : step db (ClaimDueProbes store now limit db).2
  (** an operation of the registry, on the tables they share *)
  | step_registry reg' : registry_pg.step (registry_db db) reg' ->
      registry_pg.check_destinations reg' = registry_pg.check_destinations (registry_db db) ->
      step db (db {{ registry_db := reg' }}).

Definition empty_db : DB :=
  {| registry_db := registry_pg.empty_db; heartbeat_checks := ∅; heartbeat_check_destinations := ∅;
     heartbeat_check_probes := ∅; next_check_id := 1 |}.

Definition reachable (db : DB) : Prop := rtc step empty_db db.

Lemma checks_step_wf db db' : step db db' -> wf db -> wf db'.
Proof.
  intros [] Hwf.
  - by apply Create_wf.
  - by apply patch_wf; [apply lock_of_by_id|].
  - by apply patch_wf; [apply lock_of_owned|].
  - by apply delete_where_wf.
  - by apply DeleteOwnedBy_wf.
  - by apply Pause_wf.
  - by apply PauseOwnedBy_wf.
  - by apply Resume_wf.
  - by apply ResumeOwnedBy_wf.
  - by apply RecordPing_wf.
  - by apply AdvanceDue_wf.
  - by apply ClearPendingAlert_wf.
  - by apply RecordProbeResult_wf.
  - by apply ClaimDueProbes_wf.
  - by apply registry_step_wf.
Qed.

Lemma checks_empty_wf : wf empty_db.
Proof.
  split; simpl; try done.
  - intros id [r Hr]. done.
  - intros id [r Hr]. done.
Qed.

Lemma checks_reachable_wf db : reachable db -> wf db.
Proof.
  intros Hr. pose proof checks_empty_wf as Hwf. unfold reachable in Hr. revert Hwf. induction Hr; eauto using checks_step_wf.
Qed.
End reachable.
End heartbeat_steps.
