(* ===== verification/HeartbeatStoreProps.v ===== *)
(** * HeartbeatStoreProps

    What the heartbeat store promises: the invariant of the checks it returns, exactly
    which checks a tick takes down, which probes a claim hands out, that a result of an
    older configuration changes nothing, that no alert is lost, and that an app's
    operations are confined to its own checks. *)

From S2P Require Import Prelude GoText Utf8 Idents Std Seal Registry RegistryStore Heartbeat HeartbeatProps HeartbeatSeal HeartbeatStore HeartbeatInv HeartbeatSteps.
Open Scope Z_scope.
Import heartbeat heartbeat_seal.

Module heartbeat_store_props.
Import heartbeat_pg heartbeat_inv heartbeat_steps.

(** ** The checks the store returns *)

(** The registry's rows of a check's destinations. *)
Definition linked (db : DB) (id : Z) : list registry.StoredDestination :=
  registry_pg.select_destinations (registry_db db) (fun d => bool_decide ((id, registry.ID d) ∈ heartbeat_check_destinations db)).

Lemma select_NoDup db w : registry_pg.wf db -> NoDup (registry_pg.select_destinations db w).
Proof.
  intros Hwf. unfold registry_pg.select_destinations. rewrite merge_sort_Permutation. apply NoDup_filter.
  apply NoDup_fmap_2_strong; [|apply NoDup_map_to_list]. intros [i x] [j y] Hx Hy Heq. simpl in Heq. subst y.
  apply elem_of_map_to_list in Hx, Hy. apply (registry_pg.wf_destination _ Hwf) in Hx as (<- & _), Hy as (<- & _). done.
Qed.

Lemma elem_of_linked_row db id d : wf db -> d ∈ linked db id <->
  registry_pg.has_destination (registry_db db) d /\ (id, registry.ID d) ∈ heartbeat_check_destinations db.
Proof.
  intros Hwf. unfold linked. rewrite registry_pg.elem_of_select by apply (wf_registry _ Hwf).
  by rewrite bool_decide_eq_true.
Qed.

Lemma links_linked db id : wf db -> links_of id db = list_to_set ((fun d => (id, registry.ID d)) <$> linked db id).
Proof.
  intros Hwf. apply set_eq. intros [j did]. unfold links_of. rewrite elem_of_filter, elem_of_list_to_set, list_elem_of_fmap. simpl.
  split.
  - intros [-> Hin]. destruct (wf_link _ Hwf _ _ Hin) as (r & d & _ & Hd & <- & _). exists d. split; [done|].
    by apply elem_of_linked_row.
  - intros (d & [= -> ->] & Hd). split; [done|]. by apply elem_of_linked_row in Hd as [_ ?].
Qed.

Lemma linked_length db id : wf db -> is_Some (heartbeat_checks db !! id) -> 1 <= Z.of_nat (length (linked db id)) <= 20.
Proof.
  intros Hwf Hs. pose proof (wf_linked _ Hwf _ Hs) as Hl. rewrite links_linked in Hl by done.
  rewrite size_list_to_set, length_fmap in Hl; [done|]. apply NoDup_fmap_2_strong; [|apply select_NoDup, (wf_registry _ Hwf)].
  intros x y [Hx _]%elem_of_linked_row [Hy _]%elem_of_linked_row [= He]; [|done..]. by apply (registry_pg.wf_ids _ (wf_registry _ Hwf)).
Qed.

(** A destination a check alerts cannot be deleted. *)
Lemma linked_in_use db id d : wf db -> d ∈ linked db id ->
  (registry_pg.pg_DeleteDestination (registry.Name d) (registry_db db)).1 = Err registry.ErrDestinationInUse.
Proof.
  intros Hwf [Hd Hin]%elem_of_linked_row; [|done]. unfold registry_pg.pg_DeleteDestination, registry_pg.delete_destination_where.
  rewrite Hd. simpl. unfold registry_pg.referenced. rewrite bool_decide_eq_true_2; [done|].
  rewrite (wf_refs _ Hwf). apply elem_of_map. by exists (id, registry.ID d).
Qed.

Lemma scan_machine db id r : wf db -> heartbeat_checks db !! id = Some r -> check_wf int4_max (scanCheck db id r).
Proof.
  intros Hwf Hr. apply (check_wf_same _ (locked_row db id r)); [|by apply locked_machine]. split_and!; try done.
  intros q Hq. by exists q.
Qed.

Lemma row_schedule r p : row_ok r p -> ValidatePeriodSeconds (PeriodSeconds r) = None /\ ValidateGraceSeconds (GraceSeconds r) = None.
Proof.
  intros [_ _ Hck _ _]. unfold check_constraints, between in Hck. bool_hyps.
  unfold ValidatePeriodSeconds, ValidateGraceSeconds, MinPeriodSeconds, MaxPeriodSeconds, MinGraceSeconds, MaxGraceSeconds.
  split; match goal with |- (if ?b then _ else _) = None => destruct b eqn:E end; try done;
    exfalso; apply orb_true_iff in E as [E|E]; bool_hyps; lia.
Qed.

(** C25: In every reachable state of the tables, whatever creates, patches, pings, ticks, probe
    results and registry operations led there: a check the store returns has valid names and
    a schedule within bounds, which for a probe check is the one derived from its interval; it
    satisfies the state machine's invariant (a down check knows since when and why, only a
    down check announces that it is down, a paused one announces nothing); it alerts between
    1 and 20 distinct destinations, each a row of the registry the check's app may use and
    which the registry refuses to delete; and no other check has its app and name. *)
Theorem store_invariant `{Std} store db id c :
  reachable store db -> Get id db = (Ok c, db) ->
  ID c = id /\ appid.Valid (AppID c) = true /\ ValidateName (Name c) = None /\
  ValidatePeriodSeconds (PeriodSeconds c) = None /\ ValidateGraceSeconds (GraceSeconds c) = None /\
  (forall p, Probe c = Some p -> (PeriodSeconds c, GraceSeconds c) = DerivedSchedule (IntervalSeconds (Probe_Config p))) /\
  check_wf int4_max c /\
  1 <= Z.of_nat (length (Destinations c)) <= 20 /\ NoDup (Ref_Name <$> Destinations c) /\
  (forall d, d ∈ Destinations c -> exists row,
     registry_pg.pg_GetDestination (Ref_Name d) (registry_db db) = (Ok row, registry_db db) /\
     registry.UsableBy row (AppID c) = true /\
     (registry_pg.pg_DeleteDestination (Ref_Name d) (registry_db db)).1 = Err registry.ErrDestinationInUse) /\
  (forall other c', Get other db = (Ok c', db) -> AppID c' = AppID c -> Name c' = Name c -> other = id).
Proof.
  intros Hwf%checks_reachable_wf (_ & r & Hr & ->)%queryCheckByID_ok.
  destruct (wf_row _ Hwf _ _ Hr) as (Hid & _ & Hok). destruct (row_schedule _ _ Hok) as [Hper Hgr].
  pose proof (ro_constraints _ _ Hok) as Hck. unfold check_constraints in Hck. bool_hyps.
  assert (Hdest : Destinations (scanCheck db id r) = destination_ref <$> linked db id) by done.
  split_and!; try done.
  - unfold ValidateName, namePattern. change (Name (scanCheck db id r)) with (Name r).
    match goal with H : match_slug 62 (Name r) = true |- _ => by rewrite H end.
  - intros p Hp. change (state <$> heartbeat_check_probes db !! id = Some p) in Hp.
    apply fmap_Some in Hp as (q & Hq & ->). by destruct (ro_probe _ _ Hok q Hq) as (_ & _ & _ & ?).
  - by apply scan_machine.
  - rewrite Hdest, length_fmap. apply linked_length; [done|by eexists].
  - rewrite Hdest, length_fmap. apply linked_length; [done|by eexists].
  - rewrite Hdest, <- list_fmap_compose. apply NoDup_fmap_2_strong; [|apply select_NoDup, (wf_registry _ Hwf)].
    intros x y [Hx _]%elem_of_linked_row [Hy _]%elem_of_linked_row He; [|done..]. unfold compose in He. simpl in He.
    unfold registry_pg.has_destination in Hx, Hy. rewrite He in Hx. congruence.
  - intros d. rewrite Hdest. intros (x & -> & Hx)%list_elem_of_fmap. exists x. split_and!.
    + apply elem_of_linked_row in Hx as [Hx _]; [|done]. unfold registry_pg.pg_GetDestination. simpl. by rewrite Hx.
    + apply elem_of_linked_row in Hx as [Hx Hin]; [|done]. destruct (wf_link _ Hwf _ _ Hin) as (r' & d' & Hr' & Hd' & Hid' & Hu).
      assert (d' = x) as -> by (by apply (registry_pg.wf_ids _ (wf_registry _ Hwf))).
      change (AppID (scanCheck db id r)) with (AppID r). by assert (r' = r) as <- by congruence.
    + by apply (linked_in_use db id).
  - intros other c' (_ & r' & Hr' & ->)%queryCheckByID_ok Ha Hn. by apply (wf_names _ Hwf other id r' r).
Qed.

(** ** Claims *)

Section claims.
Context `{Std} (store : PGStore).

Lemma due_claim now db p : p ∈ due_probes store now db -> exists c, heartbeat_checks db !! p.1 = Some c /\ Paused c = false /\
  next_probe_at p.2 <= now /\ p.1 ∉ locked store db /\ heartbeat_check_probes db !! p.1 = Some p.2 /\
  claim_of db p = Some {| CheckID := p.1; Claim_AppID := AppID c; Claim_Name := Name c; Claim_ConfigVersion := config_version p.2;
    Claim_Config := config p.2; Claim_SealedAccessToken := sealed_access_headers p.2 |}.
Proof.
  intros [Hp Hd]%due_probes_elem. unfold due_probe in Hd. bool_hyps. destruct (heartbeat_checks db !! p.1) as [c|] eqn:Hc; [|done].
  exists c. bool_hyps. split_and!; try done. unfold claim_of. by rewrite Hc.
Qed.

(** The claims made of a list of due rows: one each, in order. *)
Lemma claims_of_rows now db rows : (forall p, p ∈ rows -> p ∈ due_probes store now db) ->
  CheckID <$> omap (claim_of db) rows = rows.*1 /\ length (omap (claim_of db) rows) = length rows.
Proof.
  intros Hin. induction rows as [|p rows IH]; [done|]. destruct IH as [IH1 IH2]; [intros; apply Hin; by right|].
  destruct (due_claim now db p) as (c & _ & _ & _ & _ & _ & Hcl); [apply Hin; by left|]. csimpl. rewrite Hcl. csimpl.
  by rewrite IH1, IH2.
Qed.

#[local] Instance due_le_trans : Transitive due_le.
Proof. intros a b c. unfold due_le. lia. Qed.
#[local] Instance due_le_total : Total due_le.
Proof. intros a b. unfold due_le. lia. Qed.

Lemma sorted_split {A} (R : A -> A -> Prop) `{!Transitive R} l1 l2 x y : Sorted R (l1 ++ l2) -> x ∈ l1 -> y ∈ l2 -> R x y.
Proof.
  intros Hs%Sorted_StronglySorted Hx Hy; [|done]. induction l1 as [|z l1 IH]; [by apply not_elem_of_nil in Hx|].
  apply StronglySorted_inv in Hs as [Hs Hall]. rewrite Forall_forall in Hall.
  apply elem_of_cons in Hx as [->|Hx]; [apply Hall, elem_of_app; by right|by apply IH].
Qed.

(** C22: A successful claim hands out the due probes, earliest first, and each once per interval.
    With t the claim's instant: it returns the smaller of the limit and the number of probes
    that are due at t, of unpaused checks and not locked by another transaction, one claim per
    check, with the check's current configuration and version; a due probe it leaves out is due
    no earlier than any it hands out; every claimed probe is next due exactly one interval after
    t and nothing else in the tables changes; and until then no claim on the tables it leaves
    hands the probe out again. *)
Theorem ClaimDueProbes_exact now limit db claims db' :
  reachable store db -> ClaimDueProbes store now limit db = (Ok claims, db') ->
  let t := storeTime now in
  let due id q := heartbeat_check_probes db !! id = Some q /\ due_probe store t db (id, q) = true in
  Z.of_nat (length claims) = Z.min limit (Z.of_nat (length (due_probes store t db))) /\
  NoDup (CheckID <$> claims) /\
  (forall claim, claim ∈ claims -> exists q c, due (CheckID claim) q /\
     heartbeat_checks db !! CheckID claim = Some c /\ Paused c = false /\ CheckID claim ∉ locked store db /\
     Claim_AppID claim = AppID c /\ Claim_Name claim = Name c /\ Claim_ConfigVersion claim = config_version q /\
     Claim_Config claim = config q /\ Claim_SealedAccessToken claim = sealed_access_headers q /\
     heartbeat_check_probes db' !! CheckID claim = Some (q {{ next_probe_at := t + IntervalSeconds (config q) * Second }}) /\
     (forall id' q', due id' q' -> id' ∉ (CheckID <$> claims) -> next_probe_at q <= next_probe_at q') /\
     (forall now' limit' claims' db'', storeTime now' < t + IntervalSeconds (config q) * Second ->
        ClaimDueProbes store now' limit' db' = (Ok claims', db'') -> CheckID claim ∉ (CheckID <$> claims'))) /\
  (forall id, id ∉ (CheckID <$> claims) -> heartbeat_check_probes db' !! id = heartbeat_check_probes db !! id) /\
  heartbeat_checks db' = heartbeat_checks db /\ heartbeat_check_destinations db' = heartbeat_check_destinations db /\
  registry_db db' = registry_db db.
Proof.
  intros Hwf%checks_reachable_wf Hrun. cbv zeta. unfold ClaimDueProbes in Hrun. destruct (Z.ltb_spec limit 1); [done|].
  destruct (negb (int4 limit)); [done|]. cbv zeta in Hrun. set (t := storeTime now) in *. fold (claimed store t limit db) in Hrun.
  injection Hrun as <- <-. set (rows := claimed store t limit db).
  assert (Hrows : forall p, p ∈ rows -> p ∈ due_probes store t db) by (intros p; apply take_elem).
  destruct (claims_of_rows t db rows Hrows) as [Hids Hlen]. pose proof (returning_order_perm (planner store) (omap (claim_of db) rows)) as Hperm.
  assert (Hmem : forall id, id ∈ CheckID <$> returning_order (planner store) (omap (claim_of db) rows) <-> id ∈ rows.*1)
    by (intros id; by rewrite Hperm, Hids).
  destruct (claimed_tables store t limit db) as (T1 & T2 & T3 & T4 & T5). fold rows in T1, T2, T3, T4, T5.
  assert (Hsplit : due_probes store t db = rows ++ drop (Z.to_nat limit) (due_probes store t db)) by (symmetry; apply take_drop).
  split_and!; try done.
  - rewrite Hperm, Hlen. unfold rows, claimed. rewrite length_take. lia.
  - rewrite Hperm, Hids. unfold rows, claimed. rewrite <- firstn_map. apply NoDup_take, due_probes_NoDup.
  - intros claim Hcl. rewrite Hperm in Hcl. apply list_elem_of_omap in Hcl as ([id q] & Hp & Hclaim).
    destruct (due_claim t db (id, q) (Hrows _ Hp)) as (c & Hc & Hpa & Hd & Hlk & Hq & Heq). cbn [fst snd] in *.
    rewrite Heq in Hclaim. injection Hclaim as <-. cbn [CheckID Claim_AppID Claim_Name Claim_ConfigVersion Claim_Config Claim_SealedAccessToken].
    pose proof (proj1 (due_probes_elem store t db (id, q)) (Hrows _ Hp)) as Hdue. cbn [fst snd] in Hdue.
    assert (Hnext : heartbeat_check_probes (advance_claimed t rows db) !! id = Some (advanced t q)).
    { rewrite T5, Hq, bool_decide_eq_true_2; [done|]. apply list_elem_of_fmap. by exists (id, q). }
    exists q, c. split_and!; try done; [apply Hdue| |].
    + intros id' q' Hdue' Hnot. change (due_le (id, q) (id', q')). apply (sorted_split due_le rows (drop (Z.to_nat limit) (due_probes store t db))).
      * rewrite <- Hsplit. apply Sorted_merge_sort, _.
      * done.
      * pose proof (proj2 (due_probes_elem store t db (id', q')) Hdue') as Hin. rewrite Hsplit in Hin.
        apply elem_of_app in Hin as [Hin|Hin]; [|done]. destruct Hnot. apply Hmem, list_elem_of_fmap. by exists (id', q').
    + intros now' limit' claims' db'' Hlt Hrun Hin. unfold ClaimDueProbes in Hrun. destruct (limit' <? 1); [done|].
      destruct (negb (int4 limit')); [done|]. cbv zeta in Hrun. injection Hrun as <- _.
      rewrite (returning_order_perm (planner store)) in Hin.
      apply list_elem_of_fmap in Hin as (cl & -> & Hcl). apply list_elem_of_omap in Hcl as (p & Hp2%take_elem & Hcl).
      destruct (due_claim _ _ _ Hp2) as (c' & _ & _ & Hd' & _ & Hq' & Hcl'). rewrite Hcl' in Hcl. injection Hcl as <-.
      cbn [CheckID] in Hnext. rewrite Hnext in Hq'. injection Hq' as Hq'. rewrite <- Hq' in Hd'. 
      change (t + IntervalSeconds (config q) * Second <= storeTime now') in Hd'. lia.
  - intros id Hnot. rewrite T5, bool_decide_eq_false_2; [done|]. by rewrite <- Hmem.
Qed.
End claims.

(** ** Results of an older configuration *)

(** What a successful [saveCheck] writes. *)
Lemma saveCheck_tables db id r next locked now c db' : heartbeat_checks db !! id = Some r -> ID next = id ->
  saveCheck next locked now db = (Ok c, db') ->
  db' = match Probe next, heartbeat_check_probes db !! id with
        | Some p, Some q => put_probe id (written_probe q p (lockedNextProbeAt locked) no_access_change)
                              (put_check id (saved_row next now r) db)
        | _, _ => put_check id (saved_row next now r) db
        end /\ c = scanCheck db' id (saved_row next now r).
Proof.
  intros Hr Hid Hrun. apply m_bind_ok in Hrun as (u & db1 & Hup & Hrun). rewrite Hid in Hup, Hrun.
  apply (update_check_ok _ _ _ _ _ _ _ Hr) in Hup as (_ & _ & ->).
  apply m_bind_ok in Hrun as (u' & db2 & Hw & Hq). apply queryCheckByID_ok in Hq as (-> & r0 & Hr0 & ->).
  assert (Hdb : db2 = match Probe next, heartbeat_check_probes db !! id with
    | Some p, Some q => put_probe id (written_probe q p (lockedNextProbeAt locked) no_access_change) (put_check id (saved_row next now r) db)
    | _, _ => put_check id (saved_row next now r) db end).
  { destruct (Probe next) as [p|]; [|by injection Hw as _ <-]. unfold writeProbeRow in Hw. rewrite Hid, put_check_probes in Hw.
    destruct (heartbeat_check_probes db !! id); [|by injection Hw as _ <-]. by apply write_probe_ok in Hw as (_ & _ & ->). }
  split; [exact Hdb|]. f_equal.
  assert (Hch : heartbeat_checks db2 = <[id := saved_row next now r]> (heartbeat_checks db)).
  { rewrite Hdb. repeat case_match; done. }
  rewrite Hch, lookup_insert_eq in Hr0. by injection Hr0.
Qed.

(** A successful [mutate] of a probe check leaves the mutated probe's version. *)
Lemma mutate_version now id f db c db' r q : wf db -> heartbeat_checks db !! id = Some r ->
  heartbeat_check_probes db !! id = Some q -> (forall x, preserved x (f x)) ->
  mutate now (lockCheckByID id) f db = (Ok c, db') ->
  exists q', heartbeat_check_probes db' !! id = Some q' /\ Some (config_version q') = ConfigVersion <$> Probe (f (locked_row db id r)).
Proof.
  intros Hwf Hr Hq Hp Hrun. unfold mutate in Hrun. apply (proj1 (WithTx_ok _ _ _ _)) in Hrun.
  apply m_bind_ok in Hrun as (cur & db1 & Hl & Hsave). apply lock_by_id_ok in Hl as (-> & r' & Hr' & _ & ->).
  assert (r' = r) as -> by congruence. destruct (wf_row _ Hwf _ _ Hr) as (Hid & _ & _).
  pose proof (Hp (locked_row db id r)) as (Hpid & _ & _ & _ & _ & _ & _ & Hpc).
  apply (saveCheck_tables db id r) in Hsave as [-> _]; [|done|by rewrite Hpid]. rewrite Hq.
  assert (Hpl : Probe (locked_row db id r) = Some (state q)) by (unfold locked_row; cbn [Probe]; by rewrite Hq).
  rewrite Hpl in Hpc. destruct (Probe (f (locked_row db id r))) as [p|] eqn:Ep; [|done].
  rewrite put_probe_probes, lookup_insert_eq. eexists. split; [done|]. done.
Qed.

Lemma wrap64_succ_ne v : in_int64 v -> wrap64 (v + 1) <> v.
Proof.
  unfold in_int64, int64_min, int64_max. intros Hv. destruct (decide (v = 2 ^ 63 - 1)) as [->|Hne]; [by vm_compute|].
  rewrite wrap64_small; [lia|]. unfold in_int64, int64_min, int64_max. lia.
Qed.

Lemma stale_version id version result now hold db q : heartbeat_check_probes db !! id = Some q -> config_version q <> version ->
  is_Some (heartbeat_checks db !! id) -> RecordProbeResult id version result now hold db = (Ok None, db).
Proof.
  intros Hq Hne [r Hr]. unfold RecordProbeResult. cbv zeta. unfold WithTx, mbind, m_bind, m_try, lockCheckByID, lockCheck, by_id.
  rewrite Hr. assert (Probe (locked_row db id r) = Some (state q)) as -> by (unfold locked_row; cbn [Probe]; by rewrite Hq).
  change (ConfigVersion (state q)) with (config_version q). by rewrite (proj2 (Z.eqb_neq _ _) Hne).
Qed.

Lemma paused_result id version result now hold db r : heartbeat_checks db !! id = Some r -> Paused r = true ->
  RecordProbeResult id version result now hold db = (Ok None, db).
Proof.
  intros Hr Hp. unfold RecordProbeResult. cbv zeta. unfold WithTx, mbind, m_bind, m_try, lockCheckByID, lockCheck, by_id.
  rewrite Hr. destruct (Probe (locked_row db id r)) as [p|] eqn:Epr; [|done]. destruct (negb _); [done|].
  assert (ApplyProbeResult (locked_row db id r) result (storeTime now) (storeTime hold) = (locked_row db id r, false, false)) as ->.
  { unfold ApplyProbeResult. rewrite Epr. change (Paused (locked_row db id r)) with (Paused r). by rewrite Hp. }
  done.
Qed.

Lemma ApplyPause_version c p : Probe c = Some p -> Paused c = false ->
  ConfigVersion <$> Probe (ApplyPause c) = Some (wrap64 (ConfigVersion p + 1)).
Proof. destruct c. simpl. by intros -> ->. Qed.
Lemma ApplyResume_version c p now : Probe c = Some p -> Paused c = true ->
  ConfigVersion <$> Probe (ApplyResume c now) = Some (wrap64 (ConfigVersion p + 1)).
Proof. destruct c. simpl. by intros -> ->. Qed.
Lemma patched_version current probe update merged now p : Probe current = Some probe ->
  ProbeConfigChanged (Probe_Config probe) merged (Update_AccessToken update) = true ->
  Probe (patched_check current probe update merged now) = Some p -> ConfigVersion p = wrap64 (ConfigVersion probe + 1).
Proof. intros Hp Hch. unfold patched_check. rewrite Hch. destruct current. simpl in *. by intros [= <-]. Qed.

(** A probe result counts only for the configuration it was taken under.  In reachable
    tables, after an operator pauses an unpaused probe check, resumes a paused one, or patches
    it in a way that matters (URL, statuses, body match, timeout, interval or token), a result
    that carries the version read before is discarded and nothing is written, whatever it says
    and whenever it arrives; and while a check is paused every result is discarded. *)
Theorem stale_result_discarded `{Std} store db id r q now c db' :
  reachable store db -> heartbeat_checks db !! id = Some r -> heartbeat_check_probes db !! id = Some q ->
  in_int64 (config_version q) ->
  (Paused r = false /\ Pause id now db = (Ok c, db')) \/
  (Paused r = true /\ Resume id now db = (Ok c, db')) \/
  (exists p merged, Patch store id p now db = (Ok c, db') /\
     Update_Probe (ApplyPatch (scanCheck db id r) p) = Some merged /\
     ProbeConfigChanged (config q) merged (CP_AccessToken p) = true) ->
  (forall result t hold, RecordProbeResult id (config_version q) result t hold db' = (Ok None, db')) /\
  (Paused r = true -> forall version result t hold, RecordProbeResult id version result t hold db = (Ok None, db)).
Proof.
  intros Hwf%checks_reachable_wf Hr Hq Hv Hop. split; [|intros; by eapply paused_result].
  assert (exists q', heartbeat_check_probes db' !! id = Some q' /\ config_version q' = wrap64 (config_version q + 1) /\
    is_Some (heartbeat_checks db' !! id)) as (q' & Hq' & Hver & Hs).
  { assert (Hpl : Probe (locked_row db id r) = Some (state q)) by (unfold locked_row; cbn [Probe]; by rewrite Hq).
    destruct Hop as [[Hp Hrun]|[[Hp Hrun]|(p & merged & Hrun & Hm & Hch)]].
    - pose proof (Pause_wf id now db Hwf) as Hwf'. rewrite Hrun in Hwf'. simpl in Hwf'.
      destruct (mutate_version _ id _ _ _ _ r q Hwf Hr Hq preserved_ApplyPause Hrun) as (q' & Hq' & Hv').
      exists q'. split_and!; [done| |by eapply wf_probe, mk_is_Some]. rewrite (ApplyPause_version _ _ Hpl Hp) in Hv'. by injection Hv'.
    - pose proof (Resume_wf id now db Hwf) as Hwf'. rewrite Hrun in Hwf'. simpl in Hwf'.
      destruct (mutate_version _ id _ _ _ _ r q Hwf Hr Hq (fun x => preserved_ApplyResume x (storeTime now)) Hrun) as (q' & Hq' & Hv').
      exists q'. split_and!; [done| |by eapply wf_probe, mk_is_Some]. rewrite (ApplyResume_version _ _ _ Hpl Hp) in Hv'. by injection Hv'.
    - destruct (patch_ok store id p now _ db c db' (lock_of_by_id id) Hwf Hrun)
        as (r' & a & Hr' & _ & _ & Hwf' & _ & _ & _ & Hprobe). assert (r' = r) as -> by congruence.
      rewrite Hq in Hprobe. destruct Hprobe as (access & merged' & next & -> & Hm' & _ & _ & pr & Hpr & Hpp).
      assert (merged' = merged) as -> by congruence. eexists. rewrite Hpp, lookup_insert_eq. split_and!; [done| |].
      + assert (Htok : Update_AccessToken (ApplyPatch (scanCheck db id r) p) = CP_AccessToken p)
          by (unfold ApplyPatch; by destruct (Probe _)).
        apply (patched_version _ (state q) _ merged _ _) in Hpr; [exact Hpr|unfold scanCheck; cbn [Probe]; by rewrite Hq|by rewrite Htok].
      + apply (wf_probe _ Hwf'). rewrite Hpp, lookup_insert_eq. by eexists. }
  intros result t hold. apply (stale_version _ _ _ _ _ _ q'); [done| |done]. rewrite Hver. by apply wrap64_succ_ne.
Qed.

(** ** The tick *)

(** A check row that is due at [t]. *)
Definition due_row (t : Z) (r : StoredCheck) : Prop :=
  Paused r = false /\ State r <> StateDown /\ AnchorAt r + (PeriodSeconds r + GraceSeconds r) * Second < t.

Lemma dueWhere_spec t r : dueWhere t r = true <-> due_row t r.
Proof.
  unfold dueWhere, due_row. rewrite !andb_true_iff, !negb_true_iff, String.eqb_neq, Z.ltb_lt. tauto.
Qed.

Lemma Deadline_exact c : ValidatePeriodSeconds (PeriodSeconds c) = None -> ValidateGraceSeconds (GraceSeconds c) = None ->
  Deadline c = AnchorAt c + (PeriodSeconds c + GraceSeconds c) * Second.
Proof.
  unfold ValidatePeriodSeconds, ValidateGraceSeconds. destruct (_ || _) eqn:H1; [done|]. destruct (_ || _) eqn:H2 in |- *; [done|].
  bool_hyps. intros _ _. unfold MinPeriodSeconds, MaxPeriodSeconds, MinGraceSeconds, MaxGraceSeconds in *.
  unfold Deadline, time.Add. rewrite wrap64_small by (unfold in_int64, int64_min, int64_max; lia).
  by rewrite Duration_mul_small by (unfold in_int64, int64_min, int64_max, Second, Millisecond, Microsecond; lia).
Qed.

(** The row the tick makes of a due one. *)
Definition ticked (t : Z) (r : StoredCheck) : StoredCheck :=
  r {{ State := StateDown; DownSince := Some t; DownReason := Some ReasonMissed; AlertSeq := AlertSeq r + 1;
       PendingAlert := Some AlertDown; UpdatedAt := t }}.

Lemma due_ticks t db id r : wf db -> heartbeat_checks db !! id = Some r -> due_row t r ->
  let n := AdvanceTick (locked_row db id r) t in
  n.2 = true /\ ID n.1 = id /\ saved_row n.1 t r = ticked t r /\
  Probe n.1 = (fun p => p {{ DownDetail := None }}) <$> (state <$> heartbeat_check_probes db !! id).
Proof.
  intros Hwf Hr (Hp & Hs & Hd). destruct (wf_row _ Hwf _ _ Hr) as (Hid & _ & Hok). destruct (row_schedule _ _ Hok) as [H1 H2].
  pose proof (Deadline_exact (locked_row db id r) H1 H2) as Hdl.
  assert (Hst : State r = StateNew \/ State r = StateUp) by (by destruct (ro_machine _ _ Hok) as [? Hd' _ _ _ _ _|Hu _ _ _]).
  assert (Hseq : 0 <= AlertSeq r) by (destruct (ro_machine _ _ Hok) as [? _ _ _ _ _ Hcw|_ _ _ Hcw]; exact (proj1 (cw_seq _ _ Hcw))).
  pose proof (types_seq _ (ro_types _ _ Hok)) as Hseq2.
  assert (Hw : wrap64 (AlertSeq r + 1) = AlertSeq r + 1).
  { apply wrap64_small. unfold in_int64, int64_min, int64_max, int4_max in *. lia. }
  cbv zeta. unfold AdvanceTick. rewrite Hdl. change (Paused (locked_row db id r)) with (Paused r).
  change (State (locked_row db id r)) with (State r). change (AnchorAt (locked_row db id r)) with (AnchorAt r).
  change (PeriodSeconds (locked_row db id r)) with (PeriodSeconds r). change (GraceSeconds (locked_row db id r)) with (GraceSeconds r).
  rewrite Hp. assert (negb (String.eqb (State r) StateNew) && negb (String.eqb (State r) StateUp) = false) as -> by (by destruct Hst as [-> | ->]).
  assert (time.After t (AnchorAt r + (PeriodSeconds r + GraceSeconds r) * Second) = true) as -> by by apply Z.ltb_lt.
  clear Hdl Hok Hr Hwf. cbn [orb negb]. cbv iota zeta. unfold emitAlert, saved_row, ticked, locked_row. destruct r. simpl in *. subst. by rewrite Hw.
Qed.

Lemma advance_each_ok t due : forall db ids db', locked_copies db due -> wf db -> advance_each t due db = (Ok ids, db') ->
  Forall (fun c => forall r, heartbeat_checks db !! ID c = Some r -> due_row t r) due ->
  (forall id, heartbeat_checks db' !! id = if bool_decide (id ∈ ID <$> due) then ticked t <$> heartbeat_checks db !! id
                                             else heartbeat_checks db !! id) /\
  ids = ID <$> due /\ heartbeat_check_destinations db' = heartbeat_check_destinations db /\ registry_db db' = registry_db db.
Proof.
  induction due as [|c due IH]; intros db ids db' [Hnd Hall] Hwf Hrun Hdue; cbn [advance_each] in Hrun; [by injection Hrun as <- <-|].
  apply NoDup_cons in Hnd as [Hnotin Hnd]. apply Forall_cons in Hall as [(r & Hr & Hc) Hall]. apply Forall_cons in Hdue as [Hd Hdue].
  destruct (due_ticks t db (ID c) r Hwf Hr (Hd r Hr)) as (Hch & Hnid & Hsaved & _). rewrite <- Hc in Hch, Hnid, Hsaved.
  pose proof (preserved_AdvanceTick c t) as Hpres.
  pose proof (AdvanceTick_wf int4_max c t) as Hmach.
  destruct (AdvanceTick c t) as [next changed]. cbn [fst snd] in *. rewrite Hch in Hrun. cbn [negb] in Hrun.
  apply m_bind_ok in Hrun as (saved & db1 & Hsave & Hrun). apply m_bind_ok in Hrun as (ids' & db2 & Hrest & [= <- <-]).
  apply (saveCheck_wf db (ID c) r) in Hsave as (Hwf1 & (r' & Hch1 & ->) & Hpr & Hreg & Hl & _ & _); [|done|done|by rewrite <- Hc|].
  2: { apply Hmach; [|exact int4_room]. rewrite Hc. by apply locked_machine. }
  rewrite Hsaved in Hch1.
  assert (Hother : forall d, d ∈ due -> ID d <> ID c) by (intros d Hdd He; apply Hnotin; rewrite <- He; by apply list_elem_of_fmap_2).
  destruct (IH db1 ids' db2) as (IH1 & -> & IH3 & IH4); [|exact Hwf1|exact Hrest| |].
  - split; [done|]. apply Forall_forall. intros d Hdd. rewrite Forall_forall in Hall. destruct (Hall d Hdd) as (s & Hs & Hds).
    exists s. rewrite Hch1, lookup_insert_ne by (intros He; by apply (Hother d Hdd)). split; [done|]. rewrite Hds at 1.
    unfold locked_row. by rewrite Hpr by by apply Hother.
  - apply Forall_forall. intros d Hdd s. rewrite Hch1, lookup_insert_ne by (intros He; by apply (Hother d Hdd)).
    rewrite Forall_forall in Hdue. by apply Hdue.
  - split_and!; [|csimpl; by rewrite Hnid|by rewrite IH3|by rewrite IH4]. intros id. rewrite IH1, Hch1.
    destruct (decide (id = ID c)) as [->|Hne].
    + rewrite lookup_insert_eq, Hr. rewrite (bool_decide_eq_true_2 (ID c ∈ ID <$> c :: due)) by left.
      by rewrite bool_decide_eq_false_2.
    + rewrite lookup_insert_ne by done. destruct (decide (id ∈ ID <$> due)).
      * rewrite !bool_decide_eq_true_2; [done|by right|done].
      * rewrite !bool_decide_eq_false_2; [done|csimpl; by intros [?|?]%elem_of_cons|done].
Qed.

Lemma ticked_types t r : 0 <= AlertSeq r < int4_max -> check_types r = true -> check_types (ticked t r) = true.
Proof.
  intros Hs. unfold check_types. cbn [forallb]. rewrite !andb_true_iff. intros Ht.
  assert (int4 (AlertSeq r + 1) = true) by (unfold int4, int4_max in *; apply andb_true_iff; lia).
  assert (text_ok StateDown = true /\ text_ok ReasonMissed = true /\ text_ok AlertDown = true) by (by vm_compute).
  simpl. tauto.
Qed.

Lemma ticked_constraints t r : check_constraints r = true -> check_constraints (ticked t r) = true.
Proof.
  unfold check_constraints. rewrite !andb_true_iff.
  assert (H1 : one_of ["new"; "up"; "down"]%string StateDown = true /\ none_or (one_of KnownDownReasons) (Some ReasonMissed) = true /\
    none_or (one_of ["down"; "recovered"]%string) (Some AlertDown) = true) by by vm_compute.
  cbn [ticked State DownReason PendingAlert]. tauto.
Qed.

(** The tick's save of a due row goes through. *)
Lemma saveCheck_due t db id r : wf db -> heartbeat_checks db !! id = Some r -> due_row t r -> AlertSeq r < int4_max ->
  exists c db', saveCheck (AdvanceTick (locked_row db id r) t).1 (locked_row db id r) t db = (Ok c, db').
Proof.
  intros Hwf Hr Hd Hseq. destruct (due_ticks t db id r Hwf Hr Hd) as (_ & Hid & Hsaved & Hpr).
  destruct (wf_row _ Hwf _ _ Hr) as (_ & _ & Hok).
  assert (Hseq0 : 0 <= AlertSeq r) by (destruct (ro_machine _ _ Hok) as [? _ _ _ _ _ Hcw|_ _ _ Hcw]; exact (proj1 (cw_seq _ _ Hcw))).
  pose proof (ticked_types t r ltac:(lia) (ro_types _ _ Hok)) as Ht. pose proof (ticked_constraints t r (ro_constraints _ _ Hok)) as Hc.
  destruct (AdvanceTick (locked_row db id r) t) as [next ch]. cbn [fst snd] in *.
  unfold saveCheck, mbind, m_bind. rewrite Hid. unfold update_check. rewrite Hr, Hsaved, Ht, Hc. cbn [andb negb].
  rewrite Hpr. destruct (heartbeat_check_probes db !! id) as [q|] eqn:Hq; cbn [fmap option_fmap option_map].
  - unfold writeProbeRow. rewrite Hid, put_check_probes, Hq. destruct (ro_probe _ _ Hok q eq_refl) as (Hqt & Hqc & Hsort & _).
    unfold write_probe. set (q' := written_probe _ _ _ _).
    assert (probe_types q' = true /\ probe_constraints q' = true) as [-> ->].
    { assert (Hcfg : config q' = config q) by (unfold q', written_probe; simpl; destruct (config q); simpl in *; by rewrite Hsort).
      assert (consecutive_failures q' = consecutive_failures q /\ config_version q' = config_version q /\ last_result q' = last_result q /\
        down_detail q' = None) as (Hf & Hv & Hl & Hd') by done.
      unfold probe_types, probe_constraints in *. cbv zeta in *. rewrite Hcfg, Hf, Hv, Hl, Hd'. cbn [none_or].
      rewrite !andb_true_iff in *. tauto. }
    cbn [negb]. unfold queryCheckByID. rewrite put_probe_checks. cbn. rewrite lookup_insert_eq. eauto.
  - unfold queryCheckByID. cbn. rewrite lookup_insert_eq. eauto.
Qed.

Lemma due_facts t db : wf db -> let due := (fun p => locked_row db p.1 p.2) <$> merge_sort id_le (rows_where (dueWhere t) db) in
  locked_copies db due /\ Forall (fun c => forall r, heartbeat_checks db !! ID c = Some r -> due_row t r) due /\
  forall id, id ∈ ID <$> due <-> exists r, heartbeat_checks db !! id = Some r /\ due_row t r.
Proof.
  intros Hwf. cbv zeta. split; [by apply lockChecks_copies|].
  assert (Hin : forall id r, (id, r) ∈ merge_sort id_le (rows_where (dueWhere t) db) <-> heartbeat_checks db !! id = Some r /\ due_row t r).
  { intros id r. by rewrite merge_sort_Permutation, rows_where_elem, dueWhere_spec. }
  assert (Hid : forall id r, heartbeat_checks db !! id = Some r -> ID (locked_row db id r) = id) by (intros id r Hr; exact (proj1 (wf_row _ Hwf _ _ Hr))).
  split.
  - apply Forall_fmap, Forall_forall. intros [id r] [Hr Hd]%Hin s. unfold compose. cbn [fst snd]. rewrite Hid by done. intros Hs. by assert (s = r) as -> by congruence.
  - intros id. rewrite <- list_fmap_compose, list_elem_of_fmap. split.
    + intros ([i r] & -> & [Hr Hd]%Hin). unfold compose. cbn [fst snd]. rewrite Hid by done. eauto.
    + intros (r & Hr & Hd). exists (id, r). split; [unfold compose; cbn [fst snd]; by rewrite Hid|by apply Hin].
Qed.

#[local] Instance orderByID_trans : Transitive orderByID.
Proof. intros a b c. unfold orderByID. lia. Qed.
#[local] Instance orderByID_total : Total orderByID.
Proof. intros a b. unfold orderByID. lia. Qed.

(** A tick takes down exactly the checks that are due, and says which.  On reachable tables
    a successful tick at t moves every unpaused check that is not down and strictly past its
    anchor plus period plus grace to down, since t, reason missed, with a down alert under the
    next sequence number left to flush; every other check, every link and every registry row
    is as it was; what it returns are the checks it moved, as they are now, by id; and a
    second tick at any later instant finds none of them due. *)
Theorem AdvanceDue_exact `{Std} store now db advanced db' :
  reachable store db -> AdvanceDue now db = (Ok advanced, db') ->
  let t := storeTime now in
  (forall id r, heartbeat_checks db !! id = Some r -> due_row t r -> heartbeat_checks db' !! id = Some (ticked t r)) /\
  (forall id r, heartbeat_checks db !! id = Some r -> ~ due_row t r -> heartbeat_checks db' !! id = Some r) /\
  (forall id, heartbeat_checks db !! id = None -> heartbeat_checks db' !! id = None) /\
  heartbeat_check_destinations db' = heartbeat_check_destinations db /\ registry_db db' = registry_db db /\
  (forall c, c ∈ advanced <-> exists id r, heartbeat_checks db !! id = Some r /\ due_row t r /\ c = scanCheck db' id (ticked t r)) /\
  Sorted orderByID advanced /\
  (forall id r r' t', heartbeat_checks db !! id = Some r -> due_row t r -> heartbeat_checks db' !! id = Some r' -> ~ due_row t' r').
Proof.
  intros Hwf%checks_reachable_wf Hrun. cbv zeta. unfold AdvanceDue in Hrun. cbv zeta in Hrun. apply (proj1 (WithTx_ok _ _ _ _)) in Hrun.
  set (t := storeTime now) in *.
  apply m_bind_ok in Hrun as (due & db1 & [= <- <-] & Hrun). destruct (due_facts t db Hwf) as (Hcop & Hdue & Hids).
  set (due := (fun p => locked_row db p.1 p.2) <$> merge_sort id_le (rows_where (dueWhere t) db)) in *.
  apply m_bind_ok in Hrun as (ids & db1 & Hadv & Hrun).
  destruct (advance_each_ok t due db ids db1 Hcop Hwf Hadv Hdue) as (Hch & -> & Hl & Hreg).
  pose proof (advance_each_wf _ _ _ _ _ Hcop Hwf Hadv) as Hwf1.
  assert (Hdown : forall id r, heartbeat_checks db !! id = Some r -> due_row t r -> heartbeat_checks db1 !! id = Some (ticked t r)).
  { intros id r Hr Hd. rewrite Hch, bool_decide_eq_true_2 by (apply Hids; eauto). by rewrite Hr. }
  assert (Hkept : forall id r, heartbeat_checks db !! id = Some r -> ~ due_row t r -> heartbeat_checks db1 !! id = Some r).
  { intros id r Hr Hd. rewrite Hch, bool_decide_eq_false_2; [done|]. intros (r' & Hr' & Hd')%Hids. by assert (r' = r) as -> by congruence. }
  assert (Hdb : db' = db1 /\ Sorted orderByID advanced /\ forall c, c ∈ advanced <-> exists id r, heartbeat_checks db !! id = Some r /\ due_row t r /\
    c = scanCheck db1 id (ticked t r)).
  { case_bool_decide as Hnil; injection Hrun as <- <-; (split; [done|]).
    - split; [constructor|]. intros c. split; [by intros ?%elem_of_nil|]. intros (id & r & Hr & Hd & _). exfalso.
      assert (Hin : id ∈ ID <$> due) by (apply Hids; eauto). rewrite Hnil in Hin. by apply elem_of_nil in Hin.
    - split; [apply Sorted_merge_sort, _|]. intros c. rewrite merge_sort_Permutation, list_elem_of_fmap. split.
      + intros ([id s] & -> & [Hs Hin]%rows_where_elem). bool_hyps. cbn [fst snd].
        destruct (wf_row _ Hwf1 _ _ Hs) as (Hsid & _ & _). rewrite Hsid in Hin.
        apply Hids in Hin as (r & Hr & Hd). exists id, r. split_and!; [done..|]. rewrite (Hdown id r) in Hs by done. by injection Hs as <-.
      + intros (id & r & Hr & Hd & ->). exists (id, ticked t r). split; [done|]. apply rows_where_elem. split; [by apply Hdown|].
        apply bool_decide_eq_true. apply Hids. exists r. split; [|done].
        change (ID (ticked t r)) with (ID r). by rewrite (proj1 (wf_row _ Hwf _ _ Hr)). }
  destruct Hdb as (-> & Hsorted & Hmem). split_and!; try done.
  - intros id Hnone. rewrite Hch, Hnone. by destruct (bool_decide (id ∈ ID <$> due)).
  - intros id r r' t' Hr Hd Hr' (_ & Hs & _). rewrite (Hdown id r) in Hr' by done. by injection Hr' as <-.
Qed.

(** The tick gets through: on reachable tables whose alert counters have not run to the end
    of their 32-bit column, it succeeds. *)
Theorem AdvanceDue_succeeds `{Std} store now db : reachable store db ->
  (forall id r, heartbeat_checks db !! id = Some r -> AlertSeq r < int4_max) ->
  exists advanced db', AdvanceDue now db = (Ok advanced, db').
Proof.
  intros Hwf%checks_reachable_wf Hseq. unfold AdvanceDue. cbv zeta. set (t := storeTime now).
  destruct (due_facts t db Hwf) as (Hcop & Hdue & _). unfold WithTx, mbind at 1, m_bind at 1, lockChecks, m_gets at 1.
  set (due := (fun p => locked_row db p.1 p.2) <$> merge_sort id_le (rows_where (dueWhere t) db)) in *.
  assert (Hgen : forall due db, locked_copies db due -> wf db ->
    Forall (fun c => forall r, heartbeat_checks db !! ID c = Some r -> due_row t r /\ AlertSeq r < int4_max) due ->
    exists ids db', advance_each t due db = (Ok ids, db')).
  { clear. intros due. induction due as [|c due IH]; intros db [Hnd Hall] Hwf Hd; [by eexists _, _|].
    apply NoDup_cons in Hnd as [Hnotin Hnd]. apply Forall_cons in Hall as [(r & Hr & Hc) Hall]. apply Forall_cons in Hd as [Hdc Hd].
    destruct (Hdc r Hr) as [Hdr Hs]. destruct (due_ticks t db (ID c) r Hwf Hr Hdr) as (Hch & _ & Hsv & _).
    destruct (saveCheck_due t db (ID c) r Hwf Hr Hdr Hs) as (sc & db1 & Hsave). rewrite <- Hc in Hch, Hsave, Hsv.
    pose proof (preserved_AdvanceTick c t) as Hpres. pose proof (AdvanceTick_wf int4_max c t) as Hmach.
    cbn [advance_each]. destruct (AdvanceTick c t) as [next ch]. cbn [fst snd] in *. rewrite Hch. cbn [negb].
    pose proof Hsave as Hsave'.
    apply (saveCheck_wf db (ID c) r) in Hsave as (Hwf1 & (r' & Hch1 & ->) & Hpr & _); [|done|done|by rewrite <- Hc|].
    2: { apply Hmach; [|exact int4_room]. rewrite Hc. by apply locked_machine. }
    assert (Hother : forall d, d ∈ due -> ID d <> ID c) by (intros d Hdd He; apply Hnotin; rewrite <- He; by apply list_elem_of_fmap_2).
    destruct (IH db1) as (ids & db2 & Hrest); [|exact Hwf1| |].
    - split; [done|]. apply Forall_forall. intros d Hdd. rewrite Forall_forall in Hall. destruct (Hall d Hdd) as (s & Hs' & Hds).
      exists s. rewrite Hch1, lookup_insert_ne by (intros He; by apply (Hother d Hdd)). split; [done|]. rewrite Hds at 1.
      unfold locked_row. by rewrite Hpr by by apply Hother.
    - apply Forall_forall. intros d Hdd s. rewrite Hch1, lookup_insert_ne by (intros He; by apply (Hother d Hdd)).
      rewrite Forall_forall in Hd. by apply Hd.
    - eexists _, _. unfold mbind, m_bind. rewrite Hsave', Hrest. done. }
  destruct (Hgen due db Hcop Hwf) as (ids & db1 & Hadv).
  { eapply Forall_impl; [exact Hdue|]. intros c Hc r Hr. split; [by apply Hc|by eapply Hseq]. }
  unfold mbind, m_bind. rewrite Hadv. case_bool_decide; eexists _, _; done.
Qed.
End heartbeat_store_props.
