(* ===== verification/HeartbeatOutbox.v ===== *)
(** * HeartbeatOutbox

    The alert outbox over the life of the tables: a pending alert leaves it only by being
    flushed, by being overtaken by a later alert of the same check, or with the check
    paused or deleted. *)

From S2P Require Import Prelude GoText Utf8 Idents Std Seal Registry RegistryStore Heartbeat HeartbeatProps HeartbeatSeal HeartbeatStore HeartbeatInv HeartbeatSteps HeartbeatStoreProps.
Open Scope Z_scope.
Import heartbeat heartbeat_seal.

Module heartbeat_outbox.
Import heartbeat_pg heartbeat_inv heartbeat_steps heartbeat_store_props.

(** What becomes of the pending alert of a check that was [c] and is [d]. *)
Definition keeps (c d : StoredCheck) : Prop := forall kind, PendingAlert c = Some kind ->
  (PendingAlert d = Some kind /\ AlertSeq d = AlertSeq c) \/ Paused d = true \/ AlertSeq c < AlertSeq d.

Lemma keeps_same c d : PendingAlert d = PendingAlert c -> AlertSeq d = AlertSeq c -> keeps c d.
Proof. intros Hp Hs kind Hk. left. by rewrite Hp, Hs. Qed.
Lemma keeps_refl c : keeps c c.
Proof. by apply keeps_same. Qed.

Lemma wf_seq n c : check_wf n c -> 0 <= AlertSeq c <= n.
Proof. by intros [? _ _ _ _ _ [_ ? _]|_ _ _ [_ ? _]]. Qed.

Lemma keeps_emitAlert n c d kind : check_wf n c -> n < int64_max -> AlertSeq d = AlertSeq c -> keeps c (emitAlert d kind).
Proof.
  intros Hwf%wf_seq Hn Hs k _. right; right. simpl. rewrite Hs. rewrite wrap64_small; [lia|].
  unfold in_int64, int64_min, int64_max in *. lia.
Qed.

(** ** The machine *)

Section machine.
Context (c : StoredCheck) (Hwf : check_wf int4_max c).

Lemma keeps_paused d : Paused d = true -> keeps c d.
Proof. intros Hp kind _. by right; left. Qed.

(** The three ways an operation of the machine treats the alert: it is as it was, the check
    is paused, or there is a new one. *)
Ltac keeps_case :=
  first [ by apply keeps_same | by apply keeps_paused | apply (keeps_emitAlert int4_max); [exact Hwf|by vm_compute|done] ].

Lemma ping_transition_same kind now next : ping_transition c kind now = Some next ->
  PendingAlert next = PendingAlert c /\ AlertSeq next = AlertSeq c /\ Paused next = Paused c.
Proof. unfold ping_transition. repeat case_match; intros [= <-]; done. Qed.

Lemma keeps_ApplyPing kind now : keeps c (ApplyPing c kind now).1.
Proof.
  unfold ApplyPing. destruct (Probe c); [keeps_case|]. destruct (ping_transition c kind now) as [next|] eqn:Hn; [|keeps_case].
  destruct (ping_transition_same _ _ _ Hn) as (Hp & Hs & Hpa). repeat case_match; cbn [fst]; try keeps_case.
Qed.

Lemma keeps_AdvanceTick now : keeps c (AdvanceTick c now).1.
Proof. unfold AdvanceTick. repeat case_match; cbn [fst]; keeps_case. Qed.

Lemma keeps_ApplyPause : keeps c (ApplyPause c).
Proof. keeps_case. Qed.

Lemma keeps_ApplyResume now : keeps c (ApplyResume c now).
Proof. unfold ApplyResume, ApplyProbeReset. repeat case_match; keeps_case. Qed.

Lemma keeps_ApplyProbeResult result now hold : keeps c (ApplyProbeResult c result now hold).1.1.
Proof. unfold ApplyProbeResult. repeat case_match; cbn [fst]; keeps_case. Qed.
End machine.

(** ** The operations *)

(** Every check is still there, with its alert accounted for. *)
Definition rows_kept (db db' : DB) : Prop := forall id r, heartbeat_checks db !! id = Some r ->
  exists r', heartbeat_checks db' !! id = Some r' /\ keeps r r'.

Lemma rows_kept_same db db' : heartbeat_checks db' = heartbeat_checks db -> rows_kept db db'.
Proof. intros Hc id r Hr. exists r. rewrite Hc. split; [done|apply keeps_refl]. Qed.

Lemma rows_kept_insert db db' id r r' : heartbeat_checks db !! id = Some r -> heartbeat_checks db' = <[id := r']> (heartbeat_checks db) ->
  keeps r r' -> rows_kept db db'.
Proof.
  intros Hr Hc Hk j s Hs. rewrite Hc. destruct (decide (j = id)) as [->|Hne].
  - exists r'. rewrite lookup_insert_eq. split; [done|]. by assert (s = r) as -> by congruence.
  - exists s. rewrite lookup_insert_ne by done. split; [done|apply keeps_refl].
Qed.

Lemma saveCheck_kept db id r next locked now c db' : wf db -> heartbeat_checks db !! id = Some r ->
  preserved (locked_row db id r) next -> check_wf (int4_max + 1) next -> keeps (locked_row db id r) next ->
  saveCheck next locked now db = (Ok c, db') -> rows_kept db db'.
Proof.
  intros Hwf Hr Hp Hm Hk Hsave. apply (saveCheck_wf db id r) in Hsave as (_ & (r' & Hc & ->) & _); [|done..].
  by apply (rows_kept_insert db db' id r (saved_row next now r)).
Qed.

Lemma mutate_kept now lock f db : locks lock -> (forall c, preserved c (f c)) ->
  (forall c, check_wf int4_max c -> check_wf (int4_max + 1) (f c)) -> (forall c, check_wf int4_max c -> keeps c (f c)) ->
  wf db -> rows_kept db (mutate now lock f db).2.
Proof.
  intros Hl Hp Hm Hk Hwf. apply (WithTx_ind (rows_kept db)); [by apply rows_kept_same|]. intros c db' Hrun.
  apply m_bind_ok in Hrun as (cur & db1 & Hlock & Hsave). apply Hl in Hlock as (-> & id & r & Hr & ->).
  apply (saveCheck_kept db id r) in Hsave; [done..|by apply Hm, locked_machine|by apply Hk, locked_machine].
Qed.

Lemma RecordPing_kept appID name kind now db : wf db -> rows_kept db (RecordPing appID name kind now db).2.
Proof.
  intros Hwf. unfold RecordPing. destruct (ValidatePingKind kind); [by apply rows_kept_same|]. cbv zeta.
  cbn [m_check]. unfold mbind at 1, m_bind at 1. cbn [mret m_ret].
  apply (WithTx_ind (rows_kept db)); [by apply rows_kept_same|]. intros c db' Hrun.
  apply m_bind_ok in Hrun as (u & db1 & ->%params_ok & Hrun).
  apply m_bind_ok in Hrun as (cur & db1 & Hlock & Hsave).
  apply lockCheck_ok in Hlock as (-> & id & r & [Hr _]%head_rows_where & ->). simpl in Hr.
  destruct (Probe _); [done|]. pose proof (locked_machine _ _ _ Hwf Hr) as Hm.
  apply (saveCheck_kept db id r) in Hsave; [done..|apply preserved_ApplyPing| |by apply keeps_ApplyPing].
  by apply ApplyPing_wf; [|exact int4_room].
Qed.

Lemma RecordProbeResult_kept checkID version result now hold db : wf db ->
  rows_kept db (RecordProbeResult checkID version result now hold db).2.
Proof.
  intros Hwf. unfold RecordProbeResult. cbv zeta. apply (WithTx_ind (rows_kept db)); [by apply rows_kept_same|]. intros c db' Hrun.
  apply m_bind_ok in Hrun as (found & db1 & Htry & Hrun). unfold m_try in Htry.
  destruct (lockCheckByID checkID db) as [r0 db0] eqn:Hlock. injection Htry as <- <-.
  destruct r0 as [cur|e].
  2:{ unfold lockCheckByID, lockCheck in Hlock. destruct (by_id _ _ _) as [[]|]; [done|]. injection Hlock as <- <-.
      injection Hrun as _ <-. by apply rows_kept_same. }
  apply lock_by_id_ok in Hlock as (-> & r & Hr & _ & ->). pose proof (locked_machine _ _ _ Hwf Hr) as Hm.
  destruct (Probe _) as [probe|]; [|injection Hrun as _ <-; by apply rows_kept_same].
  destruct (negb _); [injection Hrun as _ <-; by apply rows_kept_same|].
  pose proof (preserved_ApplyProbeResult (locked_row db checkID r) result (storeTime now) (storeTime hold)) as Hp.
  pose proof (ApplyProbeResult_wf int4_max _ result (storeTime now) (storeTime hold) Hm int4_room) as Hw.
  pose proof (keeps_ApplyProbeResult _ Hm result (storeTime now) (storeTime hold)) as Hk.
  destruct (ApplyProbeResult _ _ _ _) as [[next accepted] emitted]. cbn [fst] in *.
  destruct (negb accepted); [injection Hrun as _ <-; by apply rows_kept_same|].
  apply m_bind_ok in Hrun as (re & db2 & Hsave & Hrun). injection Hrun as _ <-.
  by apply (saveCheck_kept db checkID r) in Hsave.
Qed.

Lemma AdvanceDue_kept now db : wf db -> rows_kept db (AdvanceDue now db).2.
Proof.
  intros Hwf. unfold AdvanceDue. cbv zeta. apply (WithTx_ind (rows_kept db)); [by apply rows_kept_same|]. intros advanced db' Hrun.
  set (t := storeTime now) in *. apply m_bind_ok in Hrun as (due & db1 & [= <- <-] & Hrun).
  destruct (due_facts t db Hwf) as (Hcop & Hdue & Hids).
  apply m_bind_ok in Hrun as (ids & db1 & Hadv & Hrun).
  destruct (advance_each_ok t _ db ids db1 Hcop Hwf Hadv Hdue) as (Hch & _).
  assert (db' = db1) as -> by (case_bool_decide; by injection Hrun as _ <-).
  intros id r Hr. rewrite Hch, Hr. destruct (decide (id ∈ ID <$> ((fun p => locked_row db p.1 p.2) <$> merge_sort id_le (rows_where (dueWhere t) db)))) as [Hin|Hin];
    [rewrite bool_decide_eq_true_2 by done|rewrite bool_decide_eq_false_2 by done].
  - exists (ticked t r). split; [done|]. intros kind _. right; right. simpl. lia.
  - exists r. split; [done|apply keeps_refl].
Qed.

Lemma patch_kept store `{Std} id p now lock db : lock_of id lock -> wf db -> rows_kept db (patch store id p now lock db).2.
Proof.
  intros Hl Hwf. destruct (patch store id p now lock db) as [[c|e] db'] eqn:Hrun.
  - apply patch_ok in Hrun as (r & anchor & Hr & _ & _ & _ & _ & Hc & _); [|done..].
    eapply (rows_kept_insert db db' id r); [done|exact Hc|by apply keeps_same].
  - unfold patch in Hrun. apply WithTx_err in Hrun as ->. by apply rows_kept_same.
Qed.

Lemma Create_kept store `{Std} check now db : wf db -> rows_kept db (Create store check now db).2.
Proof.
  intros Hwf. destruct (Create store check now db) as [[c|e] db'] eqn:Hrun.
  - destruct (Create_ok store _ _ _ _ _ Hwf Hrun) as (_ & _ & Hc & _). intros id r Hr. exists r. cbn [snd]. rewrite Hc.
    rewrite lookup_insert_ne; [split; [done|apply keeps_refl]|]. intros <-. apply (wf_row _ Hwf) in Hr as (_ & Hlt & _). lia.
  - unfold Create in Hrun. apply WithTx_err in Hrun as ->. by apply rows_kept_same.
Qed.

(** The checks a deletion leaves are as they were. *)
Lemma delete_where_rows id P db j r : heartbeat_checks db !! j = Some r ->
  heartbeat_checks (delete_where id P db).2 !! j = Some r \/ heartbeat_checks (delete_where id P db).2 !! j = None.
Proof.
  intros Hr. unfold delete_where. destruct (by_id id P db) as [[]|]; [|by left]. cbn [snd].
  destruct (drop_check_tables id db) as [-> _]. destruct (decide (j = id)) as [->|Hne]; [right; by rewrite lookup_delete_eq|].
  left. by rewrite lookup_delete_ne.
Qed.

(** C6: No alert is lost.  Take any reachable tables and a check with a pending alert, and let any
    operation of the store or the registry run.  Either the operation is the flush of this very
    alert, which cleared it under its sequence number; or the check is deleted; or it is still
    there, and its alert is pending as before, or the check is now paused, or the alert has been
    overtaken by a later one of a greater sequence number. *)
Theorem alert_accounted `{Std} store db db' id r kind :
  reachable store db -> step store db db' -> heartbeat_checks db !! id = Some r -> PendingAlert r = Some kind ->
  (ClearPendingAlert id (AlertSeq r) db).1 = Ok true /\ db' = (ClearPendingAlert id (AlertSeq r) db).2 \/
  heartbeat_checks db' !! id = None \/
  exists r', heartbeat_checks db' !! id = Some r' /\
    (PendingAlert r' = Some kind /\ AlertSeq r' = AlertSeq r \/ Paused r' = true \/ AlertSeq r < AlertSeq r').
Proof.
  intros Hwf%checks_reachable_wf Hstep Hr Hk.
  assert (Hkept : rows_kept db db' -> exists r', heartbeat_checks db' !! id = Some r' /\
    (PendingAlert r' = Some kind /\ AlertSeq r' = AlertSeq r \/ Paused r' = true \/ AlertSeq r < AlertSeq r')).
  { intros Hrows. destruct (Hrows id r Hr) as (r' & Hr' & Hkeeps). exists r'. split; [done|by apply Hkeeps]. }
  assert (Hsame : heartbeat_checks db' !! id = Some r -> exists r', heartbeat_checks db' !! id = Some r' /\
    (PendingAlert r' = Some kind /\ AlertSeq r' = AlertSeq r \/ Paused r' = true \/ AlertSeq r < AlertSeq r')).
  { intros Hr'. exists r. auto. }
  destruct Hstep as [check now|i p now|i appID p now|i|i appID|i now|i appID now|i now|i appID now|appID name k now|now|i seq|
    i version res now hold|now limit|reg Hreg].
  - right; right. by apply Hkept, Create_kept.
  - right; right. by apply Hkept, patch_kept; [apply lock_of_by_id|].
  - right; right. by apply Hkept, patch_kept; [apply lock_of_owned|].
  - right. destruct (delete_where_rows i (fun _ => true) db id r Hr) as [Hs|Hn]; [right; by apply Hsame|by left].
  - right. unfold DeleteOwnedBy, params in *. destruct (forallb text_ok [appID]); [|right; by apply Hsame].
    destruct (delete_where_rows i (owned_by appID) db id r Hr) as [Hs|Hn]; [right; by apply Hsame|by left].
  - right; right. apply Hkept, mutate_kept; [apply locks_by_id|apply preserved_ApplyPause|apply ApplyPause_wf'|intros c Hc; by apply keeps_ApplyPause|done].
  - right; right. apply Hkept, mutate_kept; [apply locks_owned|apply preserved_ApplyPause|apply ApplyPause_wf'|intros c Hc; by apply keeps_ApplyPause|done].
  - right; right. apply Hkept, mutate_kept; [apply locks_by_id| | | |done]; intros c; [apply preserved_ApplyResume|apply ApplyResume_wf'|intros Hc; by apply keeps_ApplyResume].
  - right; right. apply Hkept, mutate_kept; [apply locks_owned| | | |done]; intros c; [apply preserved_ApplyResume|apply ApplyResume_wf'|intros Hc; by apply keeps_ApplyResume].
  - right; right. by apply Hkept, RecordPing_kept.
  - right; right. by apply Hkept, AdvanceDue_kept.
  - destruct (decide (i = id /\ seq = AlertSeq r)) as [[-> ->]|Hne].
    + left. split; [|done]. unfold ClearPendingAlert. destruct (wf_row _ Hwf _ _ Hr) as (_ & _ & Hok).
      pose proof (ro_types _ _ Hok) as Hty. unfold check_types in Hty. cbn [forallb] in Hty. bool_hyps.
      match goal with Hi : int4 (AlertSeq r) = true |- _ => rewrite Hi end. cbn [negb].
      rewrite Hr, Z.eqb_refl, Hk. by rewrite bool_decide_eq_true_2 by eauto.
    + right; right. apply Hsame. unfold ClearPendingAlert. destruct (negb _); [done|].
      destruct (heartbeat_checks db !! i) as [s|] eqn:Hs; [|done]. destruct (_ && _) eqn:Hc; [|done]. cbn [snd]. simpl.
      rewrite lookup_insert_ne; [done|]. intros ->. bool_hyps. apply Hne. split; [done|]. assert (s = r) as -> by congruence. lia.
  - right; right. by apply Hkept, RecordProbeResult_kept.
  - right; right. apply Hsame. unfold ClaimDueProbes. destruct (limit <? 1); [done|]. destruct (negb _); [done|]. cbv zeta. cbn [snd].
    fold (claimed store (storeTime now) limit db). by destruct (claimed_tables store (storeTime now) limit db) as (_ & -> & _).
  - right; right. by apply Hsame.
Qed.
End heartbeat_outbox.
