(* ===== verification/HeartbeatService.v ===== *)
(** * HeartbeatService

    The service of package [heartbeat] (service.go, app_service.go) and its checker loop
    (checker.go), written against the [Store] interface and the one method of the
    message service it uses.  Logging is left out.  The clock is an operation on the
    state; JSON, times and durations are written as Go writes them (JsonEncode.v,
    GoFormat.v). *)

From S2P Require Import Prelude GoText Utf8 GoFormat Idents Std Json JsonEncode Registry Message Heartbeat HeartbeatSeal HeartbeatStore.
Open Scope Z_scope.
Import heartbeat.

(** [Messages]; [*message.Service] satisfies it. *)
Class HeartbeatMessages (S : Type) := {
  messages_Submit : message.Envelope -> M S (message.StoredMessage * message.SubmitOutcome)
}.

(** [errors.Join] of errors none of which is nil. *)
Definition errors_Join (errs : list error) : error :=
  Wrap (String.concat (String "010" EmptyString) (Error <$> errs)) errs.

Module heartbeat_service.
Definition AlertChannel : string := "heartbeat".
Definition payloadTypeDown : string := "heartbeat.down".
Definition payloadTypeRecovered : string := "heartbeat.recovered".
Definition priorityDown : string := "high".
Definition priorityRecovered : string := "default".
Definition bodyCreation : string := "creation".
Definition bodyUnknown : string := "unknown".
Definition bodyUnrecognisedReason : string := "Check is down; reason unrecognised.".
Definition StartupHoldOff : Z := MinGraceSeconds * Second.

(** ** Alerts *)

(** [formatTime] *)
Definition formatTime (value : option Z) : option string := FormatRFC3339 <$> value.

Definition valueOr (value : option string) (fallback : string) : string := default fallback value.

Definition probeReasonLabels : list (string * string) := [
  (ReasonHTTPStatus, "unexpected HTTP status"); (ReasonTimeout, "timed out");
  (ReasonBodyMismatch, "body did not match"); (ReasonBlocked, "blocked address"); (ReasonTLS, "TLS error");
  (ReasonScheme, "non-HTTPS URL"); (ReasonNetwork, "network error"); (ReasonConfig, "access credential error")]%string.

Definition lookup_label (reason : string) : option string :=
  snd <$> head (filter (fun p => p.1 = reason) probeReasonLabels).

Definition probeDownBody (check : StoredCheck) (probe : ProbeState) (reason : string) : string :=
  if String.eqb reason ReasonMissed then
    "Check went down at " +:+ valueOr (formatTime (DownSince check)) bodyUnknown +:+
    "; no probe result was recorded (the prober may be stalled)."
  else match lookup_label reason with
  | None => bodyUnrecognisedReason
  | Some label =>
    let plain := "Probe failed (" +:+ label +:+ ")." in
    match DownDetail probe with
    | Some d =>
      let detail := SanitizeProbeDetail d in
      if String.eqb detail EmptyString then plain else "Probe failed (" +:+ label +:+ "): " +:+ detail +:+ "."
    | None => plain
    end
  end.

Definition downBody (check : StoredCheck) (lastPing : option string) : string :=
  match DownReason check with
  | None => bodyUnrecognisedReason
  | Some reason =>
    match Probe check with
    | Some probe => probeDownBody check probe reason
    | None =>
      if String.eqb reason ReasonFail then "Failure reported at " +:+ valueOr lastPing bodyUnknown +:+ "."
      else if String.eqb reason ReasonMissed then
        "No ping since " +:+ valueOr lastPing bodyCreation +:+
        " (period " +:+ duration_seconds (PeriodSeconds check) +:+
        ", grace " +:+ duration_seconds (GraceSeconds check) +:+ ")."
      else bodyUnrecognisedReason
    end
  end.

Definition recoveredBody (check : StoredCheck) (lastPing downSince : option string) : string :=
  let verb := match Probe check with Some _ => "Probe succeeded" | None => "Ping received" end in
  verb +:+ " at " +:+ valueOr lastPing bodyUnknown +:+ "; down since " +:+ valueOr downSince bodyUnknown +:+ ".".

(** [alertPayload], as [json.Marshal] encodes it. *)
Record alertPayload := {
  Type_ : string;
  Payload_AppID : string;
  Check : string;
  Reason : option string;
  Payload_LastPingAt : option string;
  Payload_DownSince : option string;
  Payload_PeriodSeconds : Z;
  Payload_GraceSeconds : Z
}.

Definition payload_tree (p : alertPayload) : json.tree :=
  json_encode.of_struct [
    ("type", json_encode.of_string (Type_ p)); ("app_id", json_encode.of_string (Payload_AppID p));
    ("check", json_encode.of_string (Check p)); ("reason", json_encode.of_string_opt (Reason p));
    ("last_ping_at", json_encode.of_string_opt (Payload_LastPingAt p));
    ("down_since", json_encode.of_string_opt (Payload_DownSince p));
    ("period_seconds", json_encode.of_int (Payload_PeriodSeconds p));
    ("grace_seconds", json_encode.of_int (Payload_GraceSeconds p))]%string.

Definition idempotency_key (id seq : Z) (destination : string) : string :=
  "hb:" +:+ pretty id +:+ ":" +:+ pretty seq +:+ ":" +:+ destination.

(** The envelope around an alert's payload and display. *)
Definition alert_envelope (check : StoredCheck) (destination : string) (critical : bool) (payload : alertPayload)
    (display : message.Display) : message.Envelope :=
  {| message.AppID := AppID check; message.Channel := AlertChannel;
     message.IdempotencyKey := idempotency_key (ID check) (AlertSeq check) destination;
     message.ToDestination := destination; message.ToRecipient := EmptyString; message.DeliverAt := None;
     message.Critical := critical; message.Payload := of_bytes (json_encode.Marshal (payload_tree payload));
     message.Display_ := Some display; message.Hold := false |}.

Definition buildAlertEnvelope (check : StoredCheck) (kind destination : string) : result message.Envelope :=
  let lastPing := formatTime (LastPingAt check) in
  let downSince := formatTime (DownSince check) in
  let payload := {| Type_ := EmptyString; Payload_AppID := AppID check; Check := Name check; Reason := None;
                    Payload_LastPingAt := lastPing; Payload_DownSince := downSince;
                    Payload_PeriodSeconds := PeriodSeconds check; Payload_GraceSeconds := GraceSeconds check |} in
  let subject := AppID check +:+ "/" +:+ Name check in
  if String.eqb kind AlertDown then
    Ok (alert_envelope check destination true
      (payload {{ Type_ := payloadTypeDown; Reason := DownReason check }})
      {| message.Title := "Heartbeat down: " +:+ subject; message.Body := downBody check lastPing;
         message.Display_URL := EmptyString; message.Priority := priorityDown |})
  else if String.eqb kind AlertRecovered then
    Ok (alert_envelope check destination false
      (payload {{ Type_ := payloadTypeRecovered }})
      {| message.Title := "Heartbeat recovered: " +:+ subject; message.Body := recoveredBody check lastPing downSince;
         message.Display_URL := EmptyString; message.Priority := priorityRecovered |})
  else Err (errors_New "unknown alert kind").

(** ** The service *)

(** [now] reads the clock; the store and the messages, which the code requires, are the
    classes. *)
Record Service {S : Type} := { now : S -> Z * S; holdOffUntil : Z }.
#[global] Arguments Service S : clear implicits.

Definition NewService {S} (now : S -> Z * S) : S -> Service S * S := fun s =>
  let (t, s') := now s in ({| now := now; holdOffUntil := time.Add t StartupHoldOff |}, s').

Section service.
Context `{Std} {S : Type} `{HeartbeatStore S} `{HeartbeatMessages S} (service : Service S).

Definition clock : M S Z := fun s => let (t, s') := now service s in (Ok t, s').
Definition HoldOffUntil : Z := holdOffUntil service.

Definition svc_Create (check : NewCheck) : M S StoredCheck :=
  _ ← m_check (ValidateNewCheck check);
  now ← clock; store_Create check now.
Definition svc_Get (id : Z) : M S StoredCheck := store_Get id.
Definition svc_List : M S (list StoredCheck) := store_List.
Definition svc_Patch (id : Z) (patch : CheckPatch) : M S StoredCheck :=
  if IsEmpty patch then store_Get id else now ← clock; store_Patch id patch now.
Definition svc_Delete (id : Z) : M S bool := store_Delete id.
Definition svc_Pause (id : Z) : M S StoredCheck := now ← clock; store_Pause id now.
Definition svc_Resume (id : Z) : M S StoredCheck := now ← clock; store_Resume id now.

Definition recordPing (appID name kind : string) : M S StoredCheck :=
  _ ← m_check (ValidateAppID appID);
  _ ← m_check (ValidateName name);
  now ← clock; store_RecordPing appID name kind now.
Definition Ping (appID name : string) : M S StoredCheck := recordPing appID name PingSuccess.
Definition Fail (appID name : string) : M S StoredCheck := recordPing appID name PingFail.

(** *** Flushing *)

(** A destination an alert cannot be sent to is skipped. *)
Definition skipped (submitErr : error) : bool :=
  errors_Is submitErr registry.ErrUnknownDestination || errors_Is submitErr registry.ErrDestinationDisabled ||
  errors_Is submitErr message.ErrUnsupportedDestinationType.

(** The loop over the destinations: the failures. *)
Fixpoint submit_all (check : StoredCheck) (kind : string) (destinations : list DestinationRef) : M S (list error) :=
  match destinations with
  | [] => mret []
  | destination :: destinations =>
    if negb (Ref_Enabled destination) then submit_all check kind destinations
    else match buildAlertEnvelope check kind (Ref_Name destination) with
    | Err envelopeErr =>
      failures ← submit_all check kind destinations;
      mret (Wrap ("build alert for destination: " +:+ Error envelopeErr) [envelopeErr] :: failures)
    | Ok envelope =>
      submitted ← m_try (messages_Submit envelope);
      failures ← submit_all check kind destinations;
      match submitted with
      | Ok _ => mret failures
      | Err submitErr =>
        if skipped submitErr then mret failures
        else mret (Wrap ("submit alert to destination: " +:+ Error submitErr) [submitErr] :: failures)
      end
    end
  end.

Definition flush (check : StoredCheck) : M S unit :=
  match PendingAlert check with
  | None => mret tt
  | Some kind =>
    if negb (String.eqb kind AlertDown) && negb (String.eqb kind AlertRecovered) then
      m_fail (errors_New "unknown pending alert kind")
    else
      failures ← submit_all check kind (Destinations check);
      if negb (bool_decide (failures = [])) then m_fail (errors_Join failures)
      else
        _ ← m_map_err (fun e => Wrap ("clear pending alert: " +:+ Error e) [e]) (store_ClearPendingAlert (ID check) (AlertSeq check));
        mret tt
  end.

Fixpoint flush_all (pending : list StoredCheck) : M S (list error) :=
  match pending with
  | [] => mret []
  | check :: pending =>
    flushed ← m_try (flush check);
    flushErrs ← flush_all pending;
    mret (match flushed with Ok _ => flushErrs | Err e => e :: flushErrs end)
  end.

(** The advance half of a tick, skipped during the startup hold-off. *)
Definition advance_due (now : Z) : M S unit :=
  if time.Before now (holdOffUntil service) then mret tt
  else
    _ ← m_map_err (fun e => Wrap ("advance due heartbeat checks: " +:+ Error e) [e]) (store_AdvanceDue now);
    mret tt.

Definition Tick : M S unit :=
  now ← clock;
  _ ← advance_due now;
  pending ← m_map_err (fun e => Wrap ("list pending heartbeat alerts: " +:+ Error e) [e]) store_ListPendingAlerts;
  flushErrs ← flush_all pending;
  if bool_decide (flushErrs = []) then mret tt else m_fail (errors_Join flushErrs).

(** ** app_service.go *)

Record AppCheckInput := {
  Input_Name : string;
  Input_PeriodSeconds : Z;
  Input_GraceSeconds : Z;
  Input_DestinationNames : list string
}.

Definition app_check (appID : string) (input : AppCheckInput) : NewCheck :=
  {| New_AppID := appID; New_Name := Input_Name input; New_PeriodSeconds := Input_PeriodSeconds input;
     New_GraceSeconds := Input_GraceSeconds input; New_DestinationNames := Input_DestinationNames input;
     New_OwnerKind := registry.OwnerApp; New_OwnerAppID := Some appID; New_Probe := None; New_AccessToken := None;
     ScheduleSupplied := false |}.

Definition CreateForApp (appID : string) (input : AppCheckInput) : M S StoredCheck :=
  let check := app_check appID input in
  _ ← m_check (ValidateNewCheck check);
  now ← clock; store_Create check now.

Definition ownedByApp (check : StoredCheck) (appID : string) : bool :=
  negb (String.eqb appID EmptyString) && String.eqb (OwnerKind check) registry.OwnerApp &&
  match OwnerAppID check with Some owner => String.eqb owner appID | None => false end.

Definition ListForApp (appID : string) : M S (list StoredCheck) :=
  _ ← m_check (ValidateAppID appID);
  stored ← store_ListByOwner appID;
  mret (filter (fun check => ownedByApp check appID = true) stored).

Definition GetForApp (appID : string) (id : Z) : M S StoredCheck :=
  _ ← m_check (ValidateAppID appID);
  stored ← store_Get id;
  if negb (ownedByApp stored appID) then m_fail ErrCheckNotFound else mret stored.

Definition PatchForApp (appID : string) (id : Z) (patch : CheckPatch) : M S StoredCheck :=
  _ ← m_check (ValidateAppID appID);
  if IsEmpty patch then GetForApp appID id
  else now ← clock; store_PatchOwnedBy id appID patch now.

Definition DeleteForApp (appID : string) (id : Z) : M S unit :=
  _ ← m_check (ValidateAppID appID);
  deleted ← store_DeleteOwnedBy id appID;
  if (deleted : bool) then mret tt else m_fail ErrCheckNotFound.

Definition PauseForApp (appID : string) (id : Z) : M S StoredCheck :=
  _ ← m_check (ValidateAppID appID);
  now ← clock; store_PauseOwnedBy id appID now.

Definition ResumeForApp (appID : string) (id : Z) : M S StoredCheck :=
  _ ← m_check (ValidateAppID appID);
  now ← clock; store_ResumeOwnedBy id appID now.
End service.

(** ** checker.go *)

Definition DefaultCheckerInterval : Z := 30 * Second.
Definition CheckerStaleAfter : Z := 90 * Second.

(** [Freshness]: the last successful tick. *)
Record Freshness := { lastTick : option Z }.
Definition NewFreshness : Freshness := {| lastTick := None |}.
Definition Record_ (at_ : Z) (freshness : Freshness) : Freshness := freshness {{ lastTick := Some at_ }}.
(** [now] is what the tracker's clock reads. *)
Definition Freshness_Status (now : Z) (freshness : Freshness) : option Z * bool :=
  match lastTick freshness with
  | None => (None, true)
  | Some last => (Some last, CheckerStaleAfter <? time.Sub now last)
  end.

(** [Ticker]: a pass returns, perhaps with an error, or panics. *)
Inductive tick_outcome : Type := TickReturns (r : result unit) | TickPanics.

(** [CheckerConfig]; [Config_Service] is [None] for a nil Ticker, [Config_Freshness]
    whether one is set. *)
Record CheckerConfig {S : Type} := {
  Config_Service : option (S -> tick_outcome * S);
  Interval : Z;
  Config_Now : S -> Z * S;
  Config_Freshness : bool
}.
#[global] Arguments CheckerConfig S : clear implicits.

(** One pass: only a successful one records its time. *)
Definition run {S} (config : CheckerConfig S) (tick : S -> tick_outcome * S) (s : S) (freshness : Freshness) :
    S * Freshness :=
  let (outcome, s) := tick s in
  match outcome with
  | TickReturns (Ok _) =>
    if Config_Freshness config then let (t, s) := Config_Now config s in (s, Record_ t freshness) else (s, freshness)
  | _ => (s, freshness)
  end.

(** What the loop's select finds ready. *)
Inductive checker_event : Type := CtxDone | TickerFires.

Fixpoint checker_loop {S} (config : CheckerConfig S) (tick : S -> tick_outcome * S) (events : list checker_event)
    (s : S) (freshness : Freshness) : S * Freshness :=
  match events with
  | TickerFires :: events =>
    let (s, freshness) := run config tick s freshness in checker_loop config tick events s freshness
  | _ => (s, freshness)
  end.

(** [done] is whether the context is done before the first pass. *)
Definition RunChecker {S} (config : CheckerConfig S) (done : bool) (events : list checker_event) (s : S)
    (freshness : Freshness) : S * Freshness :=
  match Config_Service config with
  | None => (s, freshness)
  | Some tick =>
    if Interval config <=? 0 then (s, freshness)
    else if done then (s, freshness)
    else let (s, freshness) := run config tick s freshness in checker_loop config tick events s freshness
  end.
End heartbeat_service.
