(* ===== verification/HeartbeatProber.v ===== *)
(** * HeartbeatProber

    The prober of package [heartbeat]: one probe and the classification of its outcome
    (probe_eval.go), and the scan loop with its bounded concurrency (prober.go).

    The HTTP client is a parameter: what it answers a request with.  A probe in flight
    is a claim in the prober's state; its result is written by a separate step, so other
    operations interleave with it. *)

From S2P Require Import Prelude GoText Utf8 GoFormat Idents Std Seal Guard Registry Heartbeat HeartbeatSeal HeartbeatStore HeartbeatInv HeartbeatSteps HeartbeatService.
Open Scope Z_scope.
Import heartbeat heartbeat_seal.

Module heartbeat_prober.
(** ** probe_eval.go *)

Definition ProbeBodyLimitBytes : nat := Z.to_nat (Z.shiftl 64 10).
Definition probeUserAgent : string := "4irl-delivery-probe/1".
Definition headerAccessClientID : string := "CF-Access-Client-Id".
Definition headerAccessClientSecret : string := "CF-Access-Client-Secret".

Definition detailBodyMismatch : string := "response body did not contain the expected text".
Definition detailBlocked : string := "destination address is not allowed".
Definition detailScheme : string := "URL is not HTTPS".
Definition detailTLS : string := "TLS handshake or certificate verification failed".
Definition detailDNS : string := "DNS lookup failed".
Definition detailConnection : string := "connection failed".
Definition detailBodyRead : string := "response body could not be read".
Definition detailRequestBuild : string := "request could not be built".
Definition detailCredentialOpen : string := "access credential could not be opened".
Definition detailCredentialShape : string := "access credential is invalid".

(** What an error's chain can hold that the code asks for with [errors.Is] and
    [errors.As]. *)
Inductive chained : Type :=
  | ChainNotHTTPS | ChainBlockedAddress
  | ChainCertificateVerification | ChainUnknownAuthority | ChainHostname | ChainCertificateInvalid
  | ChainRecordHeader | ChainAlert
  | ChainDeadlineExceeded | ChainNetError (timeout : bool) | ChainDNS.
#[global] Instance chained_eq_dec : EqDecision chained.
Proof. solve_decision. Defined.

(** A transport error, by its chain from the outside in. *)
Definition transport_error : Type := list chained.

Definition chain_has (c : chained) (err : transport_error) : bool := bool_decide (c ∈ err).

Definition failedProbe (reason : string) (status : option Z) (detail : string) : ProbeResult :=
  {| Result_Status := status; Result_Reason := Some reason; Result_Detail := detail |}.
Definition succeeded (status : Z) : ProbeResult :=
  {| Result_Status := Some status; Result_Reason := None; Result_Detail := EmptyString |}.

Definition timeoutDetail (timeoutSeconds : Z) : string := "timed out after " +:+ pretty timeoutSeconds +:+ "s".

(** [errors.As(err, &netErr)] finds the first network error of the chain. *)
Fixpoint first_net_error (err : transport_error) : option bool :=
  match err with
  | [] => None
  | ChainNetError timeout :: _ => Some timeout
  | _ :: err => first_net_error err
  end.
Definition isTimeoutError (err : transport_error) : bool :=
  if chain_has ChainDeadlineExceeded err then true else default false (first_net_error err).

Definition isTLSError (err : transport_error) : bool :=
  chain_has ChainCertificateVerification err || chain_has ChainUnknownAuthority err || chain_has ChainHostname err ||
  chain_has ChainCertificateInvalid err || chain_has ChainRecordHeader err || chain_has ChainAlert err.

Definition classifyProbeError (err : transport_error) (timeoutSeconds : Z) : ProbeResult :=
  if chain_has ChainNotHTTPS err then failedProbe ReasonScheme None detailScheme
  else if chain_has ChainBlockedAddress err then failedProbe ReasonBlocked None detailBlocked
  else if isTLSError err then failedProbe ReasonTLS None detailTLS
  else if isTimeoutError err then failedProbe ReasonTimeout None (timeoutDetail timeoutSeconds)
  else if chain_has ChainDNS err then failedProbe ReasonNetwork None detailDNS
  else failedProbe ReasonNetwork None detailConnection.

(** The GET request, its headers beside the fixed User-Agent, and its time limit. *)
Record Request := { Request_URL : string; Headers : list (string * string); Timeout : Z }.

(** A response body: what it yields, and the error it then ends with, if any, with
    whether the probe's own context was over by then. *)
Record Body := { content : list Z; failure : option (transport_error * bool) }.

(** What the client does with a request; it may not even be built. *)
Inductive outcome : Type :=
  | BuildError
  | RequestError (err : transport_error)
  | Response (StatusCode : Z) (body : Body).

(** [io.ReadAll(io.LimitReader(body, limit))] *)
Definition ReadAll_limited (limit : nat) (body : Body) : list Z + (transport_error * bool) :=
  if (limit <=? length (content body))%nat then inl (take limit (content body))
  else match failure body with Some f => inr f | None => inl (content body) end.

Fixpoint has_prefix (p bs : list Z) : bool :=
  match p, bs with
  | [], _ => true
  | _ :: _, [] => false
  | x :: p, b :: bs => (x =? b) && has_prefix p bs
  end.
(** [bytes.Contains] *)
Fixpoint bytes_Contains (bs sub : list Z) : bool :=
  has_prefix sub bs || match bs with [] => false | _ :: bs => bytes_Contains bs sub end.

Definition access_headers (token : option AccessToken) : list (string * string) :=
  ("User-Agent", probeUserAgent)%string ::
  match token with
  | Some token => [(headerAccessClientID, ClientID token); (headerAccessClientSecret, ClientSecret token)]
  | None => []
  end.

(** The claim's token: none, opened, or the failure to report. *)
Definition claim_token (sealer : option seal.Sealer) (claim : ProbeClaim) : option AccessToken + ProbeResult :=
  match Claim_SealedAccessToken claim with
  | None => inl None
  | Some sealed =>
    match OpenProbeAccessToken sealer (CheckID claim) sealed with
    | Err _ => inr (failedProbe ReasonConfig None detailCredentialOpen)
    | Ok opened =>
      match ValidateAccessToken opened with
      | Some _ => inr (failedProbe ReasonConfig None detailCredentialShape)
      | None => inl (Some opened)
      end
    end
  end.

(** The judgement of a response. *)
Definition judge (config : ProbeConfig) (status : Z) (body : Body) : ProbeResult :=
  if negb (existsb (Z.eqb status) (ExpectedStatuses config)) then
    failedProbe ReasonHTTPStatus (Some status) ("HTTP " +:+ pretty status)
  else match BodyMatch config with
  | None => succeeded status
  | Some text =>
    match ReadAll_limited ProbeBodyLimitBytes body with
    | inr (err, expired) =>
      if expired || isTimeoutError err then failedProbe ReasonTimeout (Some status) (timeoutDetail (TimeoutSeconds config))
      else failedProbe ReasonNetwork (Some status) detailBodyRead
    | inl bs =>
      if negb (bytes_Contains bs (bytes text)) then failedProbe ReasonBodyMismatch (Some status) detailBodyMismatch
      else succeeded status
    end
  end.

Definition runProbe (client : Request -> outcome) (sealer : option seal.Sealer) (claim : ProbeClaim) : ProbeResult :=
  let config := Claim_Config claim in
  match claim_token sealer claim with
  | inr failed => failed
  | inl token =>
    match client {| Request_URL := URL config; Headers := access_headers token;
                    Timeout := Duration_mul (TimeoutSeconds config) Second |} with
    | BuildError => failedProbe ReasonNetwork None detailRequestBuild
    | RequestError err => classifyProbeError err (TimeoutSeconds config)
    | Response status body => judge config status body
    end
  end.

(** ** prober.go *)

Definition DefaultProberInterval : Z := 10 * Second.
Definition DefaultProberConcurrency : Z := 4.
Definition ProbeResultWriteTimeout : Z := 5 * Second.
Definition MaxProberShutdown : Z := MaxProbeTimeoutSeconds * Second + ProbeResultWriteTimeout.
Definition errProberScanPanicked : error := Sentinel "heartbeat prober: scan panicked".
Definition errInvalidProberConfig : error := Sentinel "heartbeat prober: invalid configuration".

(** [ProberConfig]: which required fields are set, and the rest. *)
Record ProberConfig := {
  HasStore : bool;
  HasHoldOffUntil : bool;
  HasClient : bool;
  HasFreshness : bool;
  Prober_Interval : Z;
  Concurrency : Z
}.

Definition NewProber (config : ProberConfig) : result ProberConfig :=
  if negb (HasStore config) || negb (HasHoldOffUntil config) || negb (HasClient config) ||
     negb (HasFreshness config) || (Prober_Interval config <=? 0) || (Concurrency config <? 1)
  then Err errInvalidProberConfig else Ok config.

(** The prober over the shared state: the claims in flight, in the order they were
    started, and the last successful scan. *)
Record Prober {S : Type} := {
  shared : S;
  inFlight : list ProbeClaim;
  freshness : heartbeat_service.Freshness
}.
#[global] Arguments Prober S : clear implicits.

Section prober.
Context `{Std} {S : Type} `{HeartbeatStore S}.
Context (config : ProberConfig) (now : S -> Z * S) (holdOffUntil : Z) (sealer : option seal.Sealer).

(** A pass; [panics] is whether the store panics in it. *)
Definition Scan (panics : bool) (p : Prober S) : result unit * Prober S :=
  let free := Concurrency config - Z.of_nat (length (inFlight p)) in
  if panics && (0 <? free) then (Err errProberScanPanicked, p)
  else
    let (claimed, s) :=
      if 0 <? free then let (t, s) := now (shared p) in store_ClaimDueProbes t free s
      else (Ok [], shared p) in
    match claimed with
    | Err claimErr => (Err claimErr, {| shared := s; inFlight := inFlight p; freshness := freshness p |})
    | Ok claims =>
      let (t, s) := now s in
      (Ok tt, {| shared := s; inFlight := inFlight p ++ claims; freshness := heartbeat_service.Record_ t (freshness p) |})
    end.

(** The [i]-th claim in flight finishes: its result is written and its slot freed; a probe
    that panics frees its slot and writes nothing. *)
Definition runClaim (client : Request -> outcome) (panics : bool) (i : nat) (p : Prober S) : Prober S :=
  match inFlight p !! i with
  | None => p
  | Some claim =>
    let rest := take i (inFlight p) ++ drop (Datatypes.S i) (inFlight p) in
    if panics then {| shared := shared p; inFlight := rest; freshness := freshness p |}
    else
      let result := runProbe client sealer claim in
      let (t, s) := now (shared p) in
      let (_, s) := store_RecordProbeResult (CheckID claim) (Claim_ConfigVersion claim) result t holdOffUntil s in
      {| shared := s; inFlight := rest; freshness := freshness p |}
  end.

(** [RunProber] until the context is done: scans as its ticker fires, the claims finishing
    in between; [Wait] then lets the rest finish. *)
Inductive prober_event : Type :=
  | EvScan (panics : bool)
  | EvFinish (client : Request -> outcome) (panics : bool) (i : nat)
  | EvShared (f : S -> S).
Definition prober_do (e : prober_event) (p : Prober S) : Prober S :=
  match e with
  | EvScan panics => (Scan panics p).2
  | EvFinish client panics i => runClaim client panics i p
  | EvShared f => {| shared := f (shared p); inFlight := inFlight p; freshness := freshness p |}
  end.
Definition prober_run (es : list prober_event) (p : Prober S) : Prober S := fold_left (fun p e => prober_do e p) es p.

(** [Wait]: every claim still in flight finishes, first come first served. *)
Fixpoint Wait (client : Request -> outcome) (fuel : nat) (p : Prober S) : Prober S :=
  match fuel with
  | O => p
  | Datatypes.S fuel => if bool_decide (inFlight p = []) then p else Wait client fuel (runClaim client false 0 p)
  end.

(** [done] is whether the context is done before the first scan. *)
Definition RunProber (client : Request -> outcome) (done : bool) (es : list prober_event) (p : Prober S) : Prober S :=
  match NewProber config with
  | Err _ => p
  | Ok _ =>
    if done then p
    else
      let p := prober_run es (Scan false p).2 in
      Wait client (length (inFlight p)) p
  end.
End prober.
End heartbeat_prober.

Module heartbeat_prober_props.
Import heartbeat_prober heartbeat_pg.

(** ** One probe *)

Lemma has_prefix_spec p bs : has_prefix p bs = true <-> exists tl, bs = p ++ tl.
Proof.
  revert bs. induction p as [|x p IH]; intros bs; simpl; [naive_solver|].
  destruct bs as [|b bs]; [naive_solver|]. rewrite andb_true_iff, Z.eqb_eq, IH. naive_solver.
Qed.

Lemma bytes_Contains_spec bs sub : bytes_Contains bs sub = true <-> exists pre suf, bs = pre ++ sub ++ suf.
Proof.
  induction bs as [|b bs IH]; cbn [bytes_Contains]; rewrite orb_true_iff, has_prefix_spec.
  - split; [intros [[tl Htl]|]; [by exists [], tl|done]|]. intros (pre & suf & Heq). left.
    destruct pre; [by exists suf|done].
  - rewrite IH. split.
    + intros [[tl Htl]|(pre & suf & ->)]; [by exists [], tl|]. by exists (b :: pre), suf.
    + intros ([|c pre] & suf & Heq); [left; by exists suf|]. right. injection Heq as -> ->. by exists pre, suf.
Qed.

(** The fixed texts a probe's detail can be. *)
Definition fixed_details : list string :=
  [detailBodyMismatch; detailBlocked; detailScheme; detailTLS; detailDNS; detailConnection; detailBodyRead;
   detailRequestBuild; detailCredentialOpen; detailCredentialShape].

(** The body a match looks at, read to the limit or to its end without a failure. *)
Definition readable (body : Body) (bs : list Z) : Prop :=
  bs = take ProbeBodyLimitBytes (content body) /\
  ((ProbeBodyLimitBytes <= length (content body))%nat \/ failure body = None).

(** When a response satisfies a probe. *)
Definition satisfies (config : ProbeConfig) (status : Z) (body : Body) : Prop :=
  status ∈ ExpectedStatuses config /\
  forall text, BodyMatch config = Some text -> exists bs pre suf, readable body bs /\ bs = pre ++ bytes text ++ suf.

(** A failed probe: a reason the store knows, and a detail made of fixed text and numbers. *)
Definition explained (config : ProbeConfig) (r : ProbeResult) : Prop :=
  exists reason, Result_Reason r = Some reason /\ IsProbeResultReason reason = true /\
    (Result_Detail r ∈ fixed_details \/ Result_Detail r = timeoutDetail (TimeoutSeconds config) \/
     exists status, Result_Status r = Some status /\ Result_Detail r = "HTTP " +:+ pretty status).

Lemma explained_fixed config reason status detail : IsProbeResultReason reason = true ->
  existsb (String.eqb detail) fixed_details = true -> explained config (failedProbe reason status detail).
Proof.
  intros Hr Hd. exists reason. split_and!; [done..|]. left. apply existsb_exists in Hd as (d & Hin & ->%String.eqb_eq).
  by apply list_elem_of_In.
Qed.
Lemma explained_timeout config status : explained config (failedProbe ReasonTimeout status (timeoutDetail (TimeoutSeconds config))).
Proof. exists ReasonTimeout. split_and!; [done|by vm_compute|]. by right; left. Qed.

Lemma classify_explained config err : explained config (classifyProbeError err (TimeoutSeconds config)).
Proof.
  unfold classifyProbeError. repeat case_match; try apply explained_timeout; by apply explained_fixed; vm_compute.
Qed.

Lemma ReadAll_readable body bs : ReadAll_limited ProbeBodyLimitBytes body = inl bs <-> readable body bs.
Proof.
  unfold ReadAll_limited, readable. generalize ProbeBodyLimitBytes. intros limit.
  destruct (Nat.leb_spec limit (length (content body))) as [Hle|Hlt].
  - split; [by intros [= <-]; eauto|]. by intros [-> _].
  - rewrite take_ge by lia. destruct (failure body) as [f|]; [split; [done|]; intros [_ [?|?]]; [lia|done]|].
    split; [by intros [= <-]; eauto|]. by intros [-> _].
Qed.

Lemma judge_verdict config status body :
  (Result_Reason (judge config status body) = None <-> satisfies config status body) /\
  (Result_Reason (judge config status body) <> None -> explained config (judge config status body)) /\
  Result_Status (judge config status body) = Some status.
Proof.
  unfold judge. destruct (existsb (Z.eqb status) (ExpectedStatuses config)) eqn:Hst; cbn [negb].
  2: { split_and!; [|intros _|done].
       - split; [done|]. intros [Hin _]. apply not_true_iff_false in Hst. destruct Hst. apply existsb_exists.
         exists status. split; [by apply list_elem_of_In|apply Z.eqb_refl].
       - exists ReasonHTTPStatus. split_and!; [done|by vm_compute|]. right; right. by exists status. }
  assert (Hin : status ∈ ExpectedStatuses config) by (apply existsb_exists in Hst as (s & Hs & ->%Z.eqb_eq); by apply list_elem_of_In).
  destruct (BodyMatch config) as [text|] eqn:Hbm;
    [|unfold satisfies; rewrite Hbm; by split_and!; [split|..]].
  destruct (ReadAll_limited ProbeBodyLimitBytes body) as [bs|[err expired]] eqn:Hread.
  - pose proof (proj1 (ReadAll_readable body bs) Hread) as Hrd. pose proof (bytes_Contains_spec bs (bytes text)) as Hspec.
    destruct (bytes_Contains bs (bytes text)); cbn [negb].
    + split_and!; [|done|done]. split; [|done]. intros _. split; [done|]. intros t. rewrite Hbm. intros [= <-].
      destruct (proj1 Hspec eq_refl) as (pre & suf & Heq). by exists bs, pre, suf.
    + split_and!; [|intros _; by apply explained_fixed; vm_compute|done]. split; [done|]. intros [_ Hm].
      destruct (Hm text Hbm) as (bs' & pre & suf & [Hbs _] & Heq). destruct Hrd as [Hbs' _].
      assert (false = true) by (apply Hspec; exists pre, suf; congruence). done.
  - assert (Hno : ~ satisfies config status body).
    { intros [_ Hm]. destruct (Hm text Hbm) as (bs & _ & _ & Hrd%ReadAll_readable & _). congruence. }
    destruct (expired || isTimeoutError err); (split_and!; [|intros _|done]);
      [split; [done|by intros]|apply explained_timeout|split; [done|by intros]|by apply explained_fixed; vm_compute].
Qed.

(** A probe succeeds exactly when its credential, if it has one, opens and is valid, the
    request is answered with an expected status, and the text to match, if there is one, is in
    the first 64 KiB of the body (or in all of a shorter body that could be read to its end).
    Any other outcome is a failure, with a reason of the closed set the store accepts and a
    detail that is fixed text or a number, so never the URL, an error's text or a credential;
    and the result carries the status exactly when there was a response. *)
Theorem runProbe_verdict client sealer claim :
  let config := Claim_Config claim in
  let r := runProbe client sealer claim in
  let answer token := client {| Request_URL := URL config; Headers := access_headers token;
                                Timeout := Duration_mul (TimeoutSeconds config) Second |} in
  (Result_Reason r = None <-> exists token status body, claim_token sealer claim = inl token /\
     answer token = Response status body /\ satisfies config status body) /\
  (Result_Reason r <> None -> explained config r) /\
  (forall status, Result_Status r = Some status <-> exists token body, claim_token sealer claim = inl token /\
     answer token = Response status body).
Proof.
  cbv zeta. unfold runProbe. cbv zeta. destruct (claim_token sealer claim) as [token|failed] eqn:Htok.
  - destruct (client _) as [|err|status body] eqn:Hans.
    + split_and!; [|intros _; by apply explained_fixed; vm_compute|].
      * split; [done|]. intros (t & st & b & [= <-] & Hb & _). congruence.
      * intros st. split; [done|]. intros (t & b & [= <-] & Hb). congruence.
    + split_and!; [|intros _; apply classify_explained|].
      * split; [|intros (t & st & b & [= <-] & Hb & _); congruence].
        destruct (classify_explained (Claim_Config claim) err) as (reason & -> & _). done.
      * intros st. split; [|intros (t & b & [= <-] & Hb); congruence]. unfold classifyProbeError. by repeat case_match.
    + destruct (judge_verdict (Claim_Config claim) status body) as (H1 & H2 & H3). split_and!; [|done|].
      * rewrite H1. split; [by eauto 8|]. intros (t & st & b & [= <-] & Hb & Hs). congruence.
      * intros st. rewrite H3. split; [intros [= <-]; eauto|]. intros (t & b & [= <-] & Hb). congruence.
  - assert (Hf : exists detail, failed = failedProbe ReasonConfig None detail /\ existsb (String.eqb detail) fixed_details = true).
    { unfold claim_token in Htok. repeat case_match; try done; injection Htok as <-; eexists; (split; [done|by vm_compute]). }
    destruct Hf as (detail & -> & Hd). split_and!; [|intros _; by apply explained_fixed|].
    + split; [done|]. by intros (t & ? & ? & ? & _).
    + intros st. split; [done|]. by intros (t & ? & ? & _).
Qed.

(** ** The scan loop *)

Section prober.
Context `{Std} (store : PGStore).
#[local] Instance store_here : HeartbeatStore DB := PGStore_Store store.
Context (config : ProberConfig) (now : DB -> Z * DB) (holdOffUntil : Z) (sealer : option seal.Sealer).

Let scan := Scan config now.
Let finish := runClaim now holdOffUntil sealer.
Let run := prober_run config now holdOffUntil sealer.

Definition in_flight (p : Prober DB) : Z := Z.of_nat (length (inFlight p)).

(** A claim hands out no more than it was asked for. *)
Lemma claims_limit t limit db claims db' : ClaimDueProbes store t limit db = (Ok claims, db') -> Z.of_nat (length claims) <= limit.
Proof.
  unfold ClaimDueProbes. destruct (Z.ltb_spec limit 1); [done|]. destruct (negb (int4 limit)); [done|]. cbv zeta.
  set (rows := take _ _). intros [= <- _]. rewrite (returning_order_perm (planner store)).
  assert (length (omap (claim_of db) rows) <= length rows)%nat.
  { generalize rows. intros l. induction l as [|p l IH]; [done|]. csimpl. destruct (claim_of db p); simpl; lia. }
  assert (length rows <= Z.to_nat limit)%nat by (unfold rows; rewrite length_take; lia). lia.
Qed.

Lemma scan_bounded panics p : in_flight p <= Concurrency config -> in_flight (scan panics p).2 <= Concurrency config.
Proof.
  intros Hp. unfold scan, Scan. cbv zeta. destruct (_ && _); [done|].
  destruct (Z.ltb_spec 0 (Concurrency config - Z.of_nat (length (inFlight p)))) as [Hlt|Hge].
  - destruct (now (shared p)) as [t s]. destruct (store_ClaimDueProbes t _ s) as [[claims|e] s'] eqn:Hcl; [|done].
    apply claims_limit in Hcl. destruct (now s') as [t' s'']. unfold in_flight. cbn [snd inFlight]. rewrite length_app. lia.
  - destruct (now (shared p)) as [t' s'']. unfold in_flight. cbn [snd inFlight]. rewrite app_nil_r. done.
Qed.

Lemma finish_length client panics i p claim : inFlight p !! i = Some claim ->
  length (inFlight p) = S (length (inFlight (finish client panics i p))).
Proof.
  intros Hi. pose proof (lookup_lt_Some _ _ _ Hi) as Hlt.
  assert (Hrest : inFlight (finish client panics i p) = take i (inFlight p) ++ drop (S i) (inFlight p)).
  { unfold finish, runClaim. rewrite Hi. destruct panics; [done|]. cbv zeta. destruct (now (shared p)) as [t s].
    by destruct (store_RecordProbeResult _ _ _ _ _ s). }
  rewrite Hrest, length_app, length_take, length_drop. lia.
Qed.

Lemma finish_none client panics i p : inFlight p !! i = None -> finish client panics i p = p.
Proof. intros Hi. unfold finish, runClaim. by rewrite Hi. Qed.

Lemma do_bounded e p : in_flight p <= Concurrency config -> in_flight (prober_do config now holdOffUntil sealer e p) <= Concurrency config.
Proof.
  intros Hp. destruct e as [panics|client panics i|f]; cbn [prober_do]; [by apply scan_bounded| |done].
  fold (finish client panics i p). destruct (inFlight p !! i) as [claim|] eqn:Hi; [|by rewrite finish_none].
  apply (finish_length client panics) in Hi. unfold in_flight in *. lia.
Qed.

Lemma run_bounded es p : in_flight p <= Concurrency config -> in_flight (run es p) <= Concurrency config.
Proof.
  revert p. induction es as [|e es IH]; intros p Hp; [done|]. apply (IH (prober_do config now holdOffUntil sealer e p)). by apply do_bounded.
Qed.

Lemma Wait_drains client fuel p : (length (inFlight p) <= fuel)%nat -> inFlight (Wait now holdOffUntil sealer client fuel p) = [].
Proof.
  revert p. induction fuel as [|fuel IH]; intros p Hf; cbn [Wait]; [by destruct (inFlight p); [|simpl in Hf; lia]|].
  case_bool_decide as Hnil; [done|]. apply IH. destruct (inFlight p) as [|claim rest] eqn:Hin; [done|].
  assert (Hi : inFlight p !! 0%nat = Some claim) by by rewrite Hin.
  apply (finish_length client false) in Hi. fold (finish client false 0 p). rewrite Hin in Hi. simpl in *. lia.
Qed.

(** The prober keeps to its concurrency and leaves nothing behind.  Started with nothing in
    flight, whatever scans, finishing probes, panics and other changes to the tables happen in
    whatever order, at every point of a run at most the configured number of probes is in
    flight; and when it returns, on cancellation, none is: each was finished and its result
    written or dropped.  An invalid configuration starts nothing. *)
Theorem RunProber_bounded client done_ es p : inFlight p = [] ->
  (forall es' rest, es = es' ++ rest -> 1 <= Concurrency config -> in_flight (run es' (scan false p).2) <= Concurrency config) /\
  inFlight (RunProber config now holdOffUntil sealer client done_ es p) = [] /\
  ((Concurrency config < 1 \/ Prober_Interval config <= 0) ->
     RunProber config now holdOffUntil sealer client done_ es p = p).
Proof.
  intros Hp. split_and!.
  - intros es' rest _ Hc. apply run_bounded, scan_bounded. unfold in_flight. rewrite Hp. simpl. lia.
  - unfold RunProber. destruct (NewProber config); [|done]. destruct done_; [done|]. by apply Wait_drains.
  - intros Hbad. unfold RunProber, NewProber.
    assert ((Prober_Interval config <=? 0) || (Concurrency config <? 1) = true) as Hb
      by (destruct Hbad; apply orb_true_iff; [right; by apply Z.ltb_lt|left; by apply Z.leb_le]).
    rewrite <- !orb_assoc, Hb, !orb_true_r. done.
Qed.
End prober.
End heartbeat_prober_props.
