(* ===== verification/HeartbeatAlerts.v ===== *)
(** * HeartbeatAlerts

    What the alerts of the heartbeat service are worth: every envelope it builds for a
    check the store holds is one the message service accepts, whatever the check went
    through, and the idempotency keys tell alerts and destinations apart. *)

From S2P Require Import Prelude GoText Utf8 GoFormat Idents Std Registry RegistryStore Json JsonProps JsonEncode Message MessageValidate MessageValidateProps Heartbeat HeartbeatProps HeartbeatSeal HeartbeatStore HeartbeatInv HeartbeatSteps HeartbeatService.
Open Scope Z_scope.
Import heartbeat heartbeat_service.

Module heartbeat_alerts.

(** ** Texts *)

(** Printable ASCII; and such that a JSON string spells it as it is. *)
Definition printable (c : ascii) : bool := (32 <=? byte_val c) && (byte_val c <? 127).
Definition safe (c : ascii) : bool :=
  printable c && negb (existsb (Z.eqb (byte_val c)) [34; 92; 60; 62; 38]).

(** Valid UTF-8 without a control character. *)
Definition clean_text (s : string) : Prop :=
  ValidString s = true /\ Forall (fun r => IsControl (rune_code r) = false) (decode (bytes s)).

Lemma decode_valid_app s t : forallb rune_valid (decode s) = true -> decode (s ++ t) = decode s ++ decode t.
Proof.
  intros Hv. rewrite <- (encode_decode s) at 1. pose proof (decode_wf s) as Hw. induction Hw as [|r rs [_ Hr] _ IH]; [done|].
  simpl in Hv. bool_hyps. unfold encode. csimpl. destruct Hr as [_ Hd]; [done|]. rewrite <- app_assoc, Hd. f_equal. by apply IH.
Qed.

Lemma clean_app s t : clean_text s -> clean_text t -> clean_text (s +:+ t).
Proof.
  intros [Hs1 Hs2] [Ht1 Ht2]. unfold clean_text, ValidString in *. rewrite bytes_app, decode_valid_app by done.
  rewrite forallb_app, Hs1, Ht1. split; [done|]. by apply Forall_app.
Qed.

Lemma printable_bytes s : all_chars printable s = true -> Forall (fun b => 32 <= b < 127) (bytes s).
Proof.
  intros H%all_chars_bytes. pose proof (bytes_range s) as Hr. induction H as [|b bs Hb _ IH]; [constructor|].
  apply Forall_cons in Hr as [Hr Hrs]. constructor; [|by apply IH]. unfold printable in Hb. rewrite byte_val_of in Hb by done.
  bool_hyps. lia.
Qed.

Lemma printable_clean s : all_chars printable s = true -> clean_text s.
Proof.
  intros H%printable_bytes. split.
  - apply ValidString_ascii. eapply Forall_impl; [exact H|]. simpl. lia.
  - rewrite decode_ascii by (eapply Forall_impl; [exact H|]; simpl; lia). apply Forall_fmap.
    eapply Forall_impl; [exact H|]. intros b Hb. simpl in Hb. unfold IsControl. simpl.
    destruct (Z.leb_spec 0 b), (Z.leb_spec b 31), (Z.leb_spec 127 b), (Z.leb_spec b 159); simpl; done || lia.
Qed.

Lemma safe_printable s : all_chars safe s = true -> all_chars printable s = true.
Proof. apply all_chars_impl. intros c. unfold safe. by intros [? _]%andb_true_iff. Qed.

Lemma slug_safe c : is_slug_char c = true -> safe c = true.
Proof. destruct c as [[] [] [] [] [] [] [] []]; vm_compute; done. Qed.
Lemma digit_safe c : is_digit c = true -> safe c = true.
Proof. destruct c as [[] [] [] [] [] [] [] []]; vm_compute; done. Qed.

Lemma slug_text n s : match_slug n s = true -> all_chars safe s = true /\ 1 <= len s <= n + 1.
Proof. intros [? H]%match_slug_spec. split; [|done]. eapply all_chars_impl; [apply slug_safe|done]. Qed.

Lemma clean_display s b : clean_text s -> validate.validDisplayText s b = true.
Proof.
  intros [H1 H2]. unfold validate.validDisplayText. rewrite H1. simpl. apply forallb_Forall. eapply Forall_impl; [exact H2|].
  intros r Hr. simpl in *. by rewrite Hr.
Qed.

(** *** What Go writes *)

Lemma number_text z : 0 <= z <= int64_max -> all_chars safe (pretty z) = true /\ len (pretty z) <= 19.
Proof.
  intros Hz. destruct (pretty_int64 z Hz) as [[Hd _] Hl]. split; [|done]. eapply all_chars_impl; [apply digit_safe|done].
Qed.

(** An instant in the years 1 to 8999. *)
Definition instant_ok (t : Z) : Prop := 0 <= t < 3287181 * 86400 * Second.

Lemma pad_text k x : (0 < k)%nat -> 0 <= x < 10 ^ Z.of_nat k -> all_chars safe (pad k x) = true /\ len (pad k x) = Z.of_nat k.
Proof.
  intros Hk Hx. destruct (pad_digits k x Hk Hx) as [Hd Hl]. split; [|done]. eapply all_chars_impl; [apply digit_safe|done].
Qed.

Lemma time_text t : instant_ok t -> all_chars safe (FormatRFC3339 t) = true /\ len (FormatRFC3339 t) = 20.
Proof.
  intros [H0 H1]. unfold FormatRFC3339. cbv zeta.
  assert (Hs : 0 <= t / Second < 3287181 * 86400).
  { split; [by apply Z.div_pos|]. apply Z.div_lt_upper_bound; [done|]. lia. }
  set (secs := t / Second) in *. clearbody secs.
  assert (Hd : 0 <= secs / 86400 < 3287181).
  { split; [apply Z.div_pos; lia|]. apply Z.div_lt_upper_bound; lia. }
  pose proof (civil_range _ Hd) as Hciv. destruct (civil (secs / 86400)) as [[y m] d]. destruct Hciv as (Hy & Hm & Hdd).
  pose proof (Z.mod_pos_bound secs 86400 ltac:(done)) as Hr. set (s := secs mod 86400) in *. clearbody s.
  assert (Hh : 0 <= s / 3600 < 100) by (split; [apply Z.div_pos; lia|apply Z.div_lt_upper_bound; lia]).
  pose proof (Z.mod_pos_bound (s / 60) 60 ltac:(done)) as Hmin. pose proof (Z.mod_pos_bound s 60 ltac:(done)) as Hsec.
  destruct (pad_text 4 y) as [Y1 Y2]; [lia|done|]. destruct (pad_text 2 m) as [M1 M2]; [lia|done|].
  destruct (pad_text 2 d) as [D1 D2]; [lia|done|]. destruct (pad_text 2 (s / 3600)) as [h1 h2]; [lia|done|].
  destruct (pad_text 2 (s / 60 mod 60)) as [i1 i2]; [lia|simpl; lia|]. destruct (pad_text 2 (s mod 60)) as [s1 s2]; [lia|simpl; lia|].
  rewrite !all_chars_app, !len_app, Y1, Y2, M1, M2, D1, D2, h1, h2, i1, i2, s1, s2. done.
Qed.

Lemma duration_text n : 0 <= n <= 2678400 -> all_chars safe (duration_seconds n) = true /\ len (duration_seconds n) <= 60.
Proof.
  intros Hn. unfold duration_seconds. cbv zeta. rewrite Z.abs_eq by lia. destruct (Z.ltb_spec n 0); [lia|].
  assert (Hh : 0 <= n / 3600 <= int64_max).
  { split; [apply Z.div_pos; lia|]. etransitivity; [apply Z.div_le_upper_bound with (q := 744); lia|done]. }
  pose proof (Z.mod_pos_bound (n / 60) 60 ltac:(done)) as Hmin. pose proof (Z.mod_pos_bound n 60 ltac:(done)) as Hsec.
  destruct (number_text _ Hh) as [h1 h2]. destruct (number_text (n / 60 mod 60)) as [i1 i2]; [unfold int64_max; lia|].
  destruct (number_text (n mod 60)) as [s1 s2]; [unfold int64_max; lia|].
  destruct (0 <? n / 3600); [|destruct (0 <? n / 60 mod 60)]; rewrite ?all_chars_app, ?len_app, ?h1, ?i1, ?s1; simpl all_chars;
    (split; [done|]); change (len "h") with 1; change (len "m") with 1; change (len "s") with 1; change (len EmptyString) with 0; lia.
Qed.

(** ** The payload *)

Lemma string_items_safe s : all_chars safe s = true -> json_encode.string_items s = json.Raw <$> bytes s.
Proof.
  intros H. unfold json_encode.string_items.
  rewrite decode_ascii by (eapply Forall_impl; [apply printable_bytes, safe_printable, H|]; simpl; lia).
  apply all_chars_bytes in H. pose proof (bytes_range s) as Hr. induction H as [|b bs Hb _ IH]; [done|].
  apply Forall_cons in Hr as [Hr Hrs]. csimpl. rewrite IH by done. unfold safe, printable in Hb. rewrite byte_val_of in Hb by done.
  simpl existsb in Hb. bool_hyps. unfold json_encode.rune_items. change (json.ch "<") with 60. change (json.ch ">") with 62.
  change (json.ch "&") with 38. unfold json.quote, json.backslash.
  destruct (Z.ltb_spec b 128); [|lia].
  repeat match goal with |- context [?x =? ?y] => destruct (Z.eqb_spec x y); [lia|] end.
  destruct (Z.ltb_spec b 32); [lia|]. done.
Qed.

Lemma escapes_raw bs : escapes_storable (json.Raw <$> bs) = true.
Proof. induction bs; done. Qed.

Lemma raw_bytes bs : ((json.Raw <$> bs) ≫= json.item_bytes) = bs.
Proof. induction bs as [|b bs IH]; [done|]. csimpl. by rewrite IH. Qed.

Definition ascii_text (bs : list Z) : Prop := Forall (fun b => 32 <= b < 127) bs.

(** A tree the payload validator accepts inside an object, spelled in at most [n] bytes. *)
Record payload_part (n : Z) (t : json.tree) : Prop := {
  pp_storable : tree_forall escapes_storable validate.numberLiteralStorable t = true;
  pp_valid k : 0 < k -> json_encode.tree_valid k t;
  pp_ascii : ascii_text (json_encode.spell t);
  pp_length : Z.of_nat (length (json_encode.spell t)) <= n
}.

Lemma spell_safe s : all_chars safe s = true ->
  json_encode.spell_string (json_encode.string_items s) = json.quote :: bytes s ++ [json.quote].
Proof. intros H. unfold json_encode.spell_string. by rewrite string_items_safe, raw_bytes. Qed.

Lemma quoted_ascii s : all_chars safe s = true -> ascii_text (json.quote :: bytes s ++ [json.quote]).
Proof.
  intros H. unfold json.quote. constructor; [lia|]. apply Forall_app. split; [by apply printable_bytes, safe_printable|].
  repeat constructor; lia.
Qed.

Lemma length_bytes s : Z.of_nat (length (bytes s)) = len s.
Proof. unfold len, bytes. rewrite length_fmap. f_equal. induction s; [done|]. simpl. by f_equal. Qed.

Lemma part_string n s : all_chars safe s = true -> len s <= n -> payload_part (n + 2) (json_encode.of_string s).
Proof.
  intros H Hl. split.
  - unfold json_encode.of_string. simpl. rewrite string_items_safe by done. apply escapes_raw.
  - intros k _. constructor. apply json_encode.string_items_valid.
  - unfold json_encode.of_string. cbn [json_encode.spell]. rewrite spell_safe by done. by apply quoted_ascii.
  - unfold json_encode.of_string. cbn [json_encode.spell]. rewrite spell_safe by done. cbn [length].
    rewrite length_app. cbn [length]. pose proof (length_bytes s). lia.
Qed.

Lemma part_opt n o : 2 <= n -> (forall s, o = Some s -> all_chars safe s = true /\ len s <= n) ->
  payload_part (n + 2) (json_encode.of_string_opt o).
Proof.
  intros Hn H. destruct o as [s|]; [destruct (H s eq_refl); by apply part_string|].
  split; [done|intros k _; constructor|by apply (printable_bytes "null")|].
  change (Z.of_nat (length (json_encode.spell (json_encode.of_string_opt None)))) with 4. lia.
Qed.

(** *** Numbers *)

Lemma digits_all s : all_chars is_digit s = true -> Forall (fun b => json.is_digit b = true) (bytes s).
Proof.
  intros H%all_chars_bytes. pose proof (bytes_range s) as Hr. induction H as [|b bs Hb _ IH]; [constructor|].
  apply Forall_cons in Hr as [Hr Hrs]. constructor; [|by apply IH]. unfold is_digit, in_range in Hb. rewrite byte_val_of in Hb by done.
  exact Hb.
Qed.

Lemma span_none p ds : Forall (fun b => p b = true) ds -> json.span p ds = (ds, []).
Proof. intros H. rewrite <- (app_nil_r ds) at 1. by apply json_encode.span_app. Qed.

Lemma Cut_no_separator sep ds : Forall (fun b => b <> sep) ds -> validate.Cut sep ds = (ds, [], false).
Proof.
  intros H. unfold validate.Cut. rewrite span_none; [done|]. eapply Forall_impl; [exact H|]. intros b Hb.
  by apply negb_true_iff, Z.eqb_neq.
Qed.

Lemma digits_storable ds : Forall (fun b => json.is_digit b = true) ds -> Z.of_nat (length ds) <= 100 ->
  validate.numberLiteralStorable ds = true.
Proof.
  intros H Hl. unfold validate.numberLiteralStorable.
  assert (Hrange : Forall (fun b => 48 <= b <= 57) ds).
  { eapply Forall_impl; [exact H|]. intros b Hb. unfold json.is_digit in Hb. bool_hyps. lia. }
  assert (validate.lower ds = ds) as ->.
  { unfold validate.lower. clear H Hl. induction Hrange as [|b bs Hb _ IH]; [done|]. csimpl. rewrite IH. f_equal.
    unfold lower_byte. destruct (Z.leb_spec 65 b); [lia|done]. }
  rewrite Cut_no_separator by (eapply Forall_impl; [exact Hrange|]; intros b Hb; change (json.ch "e") with 101; simpl in Hb; lia).
  cbn [validate.literal_exponent].
  assert (validate.trim_minus ds = ds) as ->.
  { unfold validate.trim_minus, validate.starts_minus. destruct ds as [|b ds]; [done|]. apply Forall_cons in Hrange as [Hb _].
    change (json.ch "-") with 45. destruct (Z.eqb_spec b 45); [lia|done]. }
  rewrite Cut_no_separator by (eapply Forall_impl; [exact Hrange|]; intros b Hb; change (json.ch ".") with 46; simpl in Hb; lia).
  cbv zeta. simpl length. destruct (drop_while_suffix (Z.eqb 48) ds) as [k Hk].
  apply (f_equal (@length Z)) in Hk. rewrite length_app in Hk.
  apply andb_true_iff. split; apply Z.leb_le; unfold validate.numericMaxIntegerDigits, validate.numericMaxScale; simpl; lia.
Qed.

Lemma part_int z : 0 <= z <= int64_max -> payload_part 19 (json_encode.of_int z).
Proof.
  intros Hz. destruct (pretty_int64 z Hz) as [[Hd Hs] Hl]. pose proof (digits_all _ Hd) as Hdig.
  pose proof (length_bytes (pretty z)) as Hlen. unfold json_encode.of_int. split.
  - simpl. apply digits_storable; [done|lia].
  - intros k _. constructor. apply (json_encode.digits_literal_valid []); [by left|].
    destruct Hs as [->|(c & tl & Heq & Hc)]; [by left|]. right. exists (byte_val c), (bytes tl).
    rewrite Heq in Hdig |- *. split_and!; [done| |exact Hdig].
    intros H48. apply Hc, byte_val_inj. exact H48.
  - simpl. eapply Forall_impl; [exact Hdig|]. intros b Hb. unfold json.is_digit in Hb. bool_hyps. simpl. lia.
  - simpl. lia.
Qed.

(** *** Objects *)

Lemma commas_ascii parts : Forall ascii_text parts -> ascii_text (json_encode.commas parts).
Proof.
  induction 1 as [|p parts Hp Hps IH]; [constructor|]. simpl. destruct parts as [|q parts]; [done|].
  apply Forall_app. split; [done|]. constructor; [|exact IH]. change (json.ch ",") with 44. lia.
Qed.

Lemma commas_length n parts : Forall (fun p => Z.of_nat (length p) <= n) parts ->
  Z.of_nat (length (json_encode.commas parts)) <= (n + 1) * Z.of_nat (length parts).
Proof.
  induction 1 as [|p parts Hp Hps IH]; [simpl; lia|]. simpl in Hp. destruct parts as [|q parts]; [simpl; lia|].
  change (json_encode.commas (p :: q :: parts)) with (p ++ json.ch "," :: json_encode.commas (q :: parts)).
  rewrite length_app. cbn [length] in *. lia.
Qed.

Lemma part_struct k n fields :
  Forall (fun p : string * json.tree => all_chars safe p.1 = true /\ len p.1 <= k /\ payload_part n p.2) fields ->
  let t := json_encode.of_struct fields in
  tree_forall escapes_storable validate.numberLiteralStorable t = true /\
  json_encode.tree_valid json.maxNestingDepth t /\ ascii_text (json_encode.spell t) /\
  Z.of_nat (length (json_encode.spell t)) <= 2 + (k + n + 4) * Z.of_nat (length fields).
Proof.
  intros Hf. cbv zeta. unfold json_encode.of_struct. split_and!.
  - cbn [tree_forall]. apply forallb_Forall, Forall_fmap. eapply Forall_impl; [exact Hf|]. intros [key v] (Hk & _ & Hv).
    cbn [fst snd compose] in *. unfold compose. cbn [fst snd]. rewrite string_items_safe, escapes_raw by done. apply (pp_storable _ _ Hv).
  - constructor; [done|]. apply Forall_fmap. eapply Forall_impl; [exact Hf|]. intros [key v] (Hk & _ & Hv).
    split; [apply json_encode.string_items_valid|]. apply (pp_valid _ _ Hv). done.
  - cbn [json_encode.spell]. constructor; [change (json.ch "{") with 123; lia|]. apply Forall_app.
    split; [|repeat constructor; change (json.ch "}") with 125; lia]. apply commas_ascii. apply Forall_map, Forall_fmap.
    eapply Forall_impl; [exact Hf|]. intros [key v] (Hk & _ & Hv). unfold compose. cbn [fst snd] in *. rewrite spell_safe by done.
    apply Forall_app. split; [by apply quoted_ascii|]. constructor; [change (json.ch ":") with 58; lia|]. apply (pp_ascii _ _ Hv).
  - cbn [json_encode.spell length]. rewrite length_app. cbn [length].
    match goal with |- context [json_encode.commas ?ps] => assert (Hc : Forall (fun p => Z.of_nat (length p) <= k + n + 3) ps) end.
    { apply Forall_map, Forall_fmap. eapply Forall_impl; [exact Hf|]. intros [key v] (Hk & Hkl & Hv). unfold compose.
      cbn [fst snd] in *. rewrite spell_safe by done. rewrite length_app. cbn [length]. rewrite length_app. cbn [length].
      pose proof (length_bytes key). pose proof (pp_length _ _ Hv). lia. }
    apply commas_length in Hc. rewrite length_map, length_fmap in Hc. lia.
Qed.

(** ** Envelopes *)

Lemma trim_ascii bs first mid last : bs = first :: mid ++ [last] -> ascii_text bs -> first <> 32 -> last <> 32 ->
  TrimSpace bs = bs.
Proof.
  intros Hbs Ha Hf Hl. unfold TrimSpace. rewrite decode_ascii by (eapply Forall_impl; [exact Ha|]; simpl; lia).
  assert (Hsp : forall b, 32 <= b < 127 -> b <> 32 -> rune_valid (Rune b [b]) && IsSpace (rune_code (Rune b [b])) = false).
  { intros b Hb Hne. simpl. unfold IsSpace. rewrite <- not_true_iff_false.
    intros Hs. repeat first [ apply orb_true_iff in Hs as [Hs|Hs] | apply andb_true_iff in Hs as [Hs ?] ]; bool_hyps; lia. }
  assert (trim_runes ((fun b => Rune b [b]) <$> bs) = (fun b => Rune b [b]) <$> bs) as ->.
  { unfold trim_runes. cbv zeta. rewrite Hbs in Ha |- *. apply Forall_cons in Ha as [Hf1 Ha]. apply Forall_app in Ha as [_ Hl1].
    apply Forall_cons in Hl1 as [Hl1 _]. rewrite fmap_cons. cbn [drop_while]. rewrite Hsp by done.
    rewrite fmap_app. change ((fun b => Rune b [b]) <$> [last]) with [Rune last [last]].
    change (Rune first [first] :: ((fun b => Rune b [b]) <$> mid) ++ [Rune last [last]])
      with ((Rune first [first] :: ((fun b => Rune b [b]) <$> mid)) ++ [Rune last [last]]).
    rewrite rev_app_distr. cbn [rev app drop_while]. rewrite Hsp by done. cbn [rev].
    rewrite !rev_app_distr, rev_involutive. done. }
  unfold encode. clear. induction bs as [|b bs IH]; [done|]. csimpl. by rewrite IH.
Qed.

Lemma payload_accepted t members : t = json.JObject members ->
  tree_forall escapes_storable validate.numberLiteralStorable t = true ->
  json_encode.tree_valid json.maxNestingDepth t -> ascii_text (json_encode.spell t) ->
  Z.of_nat (length (json_encode.spell t)) <= message.MaxPayloadBytes ->
  validate.ValidatePayload (json_encode.spell t) = None.
Proof.
  intros -> Hst Hv Ha Hl. apply ValidatePayload_iff. rewrite (trim_ascii _ (json.ch "{")
    (json_encode.commas (map (fun '(key, value) => json_encode.spell_string key ++ json.ch ":" :: json_encode.spell value) members))
    (json.ch "}")) by done.
  split_and!; [done| |].
  - unfold validate.utf8_Valid. rewrite decode_ascii by (eapply Forall_impl; [exact Ha|]; simpl; lia).
    apply forallb_Forall, Forall_fmap. by apply Forall_true.
  - exists members, []. rewrite json_encode.parse_spell by done. done.
Qed.

(** The checks whose alerts can be sent: what a row's constraints, its columns' ranges
    and the clock give. *)
Record sendable (c : StoredCheck) : Prop := {
  sd_app : appid.Valid (AppID c) = true;
  sd_name : match_slug 62 (Name c) = true;
  sd_id : 0 <= ID c <= int64_max;
  sd_seq : 0 <= AlertSeq c <= heartbeat_inv.int4_max;
  sd_period : 0 <= PeriodSeconds c <= 2678400;
  sd_grace : 0 <= GraceSeconds c <= 2678400;
  sd_ping t : LastPingAt c = Some t -> instant_ok t;
  sd_since t : DownSince c = Some t -> instant_ok t;
  sd_reason r : DownReason c = Some r -> IsKnownDownReason r = true
}.

Lemma reason_text r : IsKnownDownReason r = true -> all_chars safe r = true /\ len r <= 13.
Proof.
  unfold IsKnownDownReason, KnownDownReasons. rewrite bool_decide_eq_true. rewrite !elem_of_cons, elem_of_nil.
  intros H. repeat destruct H as [->|H]; [by vm_compute..|done].
Qed.

Lemma formatTime_text o s : (forall t, o = Some t -> instant_ok t) -> formatTime o = Some s ->
  all_chars safe s = true /\ len s = 20.
Proof. intros H Hs. destruct o as [t|]; [|done]. injection Hs as <-. by apply time_text, H. Qed.

Lemma valueOr_text o fallback : (forall t, o = Some t -> instant_ok t) -> all_chars printable fallback = true -> len fallback <= 20 ->
  all_chars printable (valueOr (formatTime o) fallback) = true /\ len (valueOr (formatTime o) fallback) <= 20.
Proof.
  intros H Hp Hl. destruct (formatTime o) as [s|] eqn:E; [|done]. destruct (formatTime_text o s H E) as [H1 H2].
  simpl. split; [by apply safe_printable|lia].
Qed.

Lemma alert_payload_accepted c type reason : sendable c -> all_chars safe type = true -> len type <= 70 ->
  (forall r, reason = Some r -> IsKnownDownReason r = true) ->
  let payload := json_encode.Marshal (payload_tree
    {| Type_ := type; Payload_AppID := AppID c; Check := Name c; Reason := reason;
       Payload_LastPingAt := formatTime (LastPingAt c); Payload_DownSince := formatTime (DownSince c);
       Payload_PeriodSeconds := PeriodSeconds c; Payload_GraceSeconds := GraceSeconds c |}) in
  ascii_text payload /\ validate.ValidatePayload payload = None.
Proof.
  intros Hc Ht Htl Hr. cbv zeta. unfold json_encode.Marshal, payload_tree.
  cbn [Type_ Payload_AppID Check Reason Payload_LastPingAt Payload_DownSince Payload_PeriodSeconds Payload_GraceSeconds].
  match goal with |- context [json_encode.of_struct ?fs] => destruct (part_struct 14 72 fs) as (H1 & H2 & H3 & H4) end.
  2: { split; [done|]. eapply payload_accepted; [reflexivity|done..|]. etransitivity; [exact H4|]. by vm_compute. }
  assert (Hw : forall n t, n <= 72 -> payload_part n t -> payload_part 72 t) by (intros n t Hn []; split; [done..|lia]).
  assert (Htime : forall o, (forall t, o = Some t -> instant_ok t) -> payload_part 72 (json_encode.of_string_opt (formatTime o))).
  { intros o Ho. apply (Hw (20 + 2)); [lia|]. apply part_opt; [lia|]. intros s Hs. destruct (formatTime_text o s Ho Hs). split; [done|lia]. }
  destruct (slug_text 62 (AppID c)) as [Ha Hal]; [apply (sd_app _ Hc)|].
  destruct (slug_text 62 (Name c)) as [Hn Hnl]; [apply (sd_name _ Hc)|].
  repeat (apply Forall_cons; split; [split; [done|split; [done|]]|]); [.. |constructor]; cbn [snd].
  - apply (Hw (70 + 2)); [lia|]. by apply part_string.
  - apply (Hw (63 + 2)); [lia|]. apply part_string; [done|lia].
  - apply (Hw (63 + 2)); [lia|]. apply part_string; [done|lia].
  - apply (Hw (13 + 2)); [lia|]. apply part_opt; [lia|]. intros s Hs. by apply reason_text, Hr.
  - apply Htime, (sd_ping _ Hc).
  - apply Htime, (sd_since _ Hc).
  - apply (Hw 19); [lia|]. apply part_int. pose proof (sd_period _ Hc). unfold int64_max. lia.
  - apply (Hw 19); [lia|]. apply part_int. pose proof (sd_grace _ Hc). unfold int64_max. lia.
Qed.

(** *** The display *)

Lemma label_text r label : lookup_label r = Some label -> all_chars printable label = true /\ len label <= 30.
Proof.
  unfold lookup_label. intros (p & Hp & ->)%fmap_Some.
  assert (Hin : p ∈ probeReasonLabels).
  { destruct (filter _ probeReasonLabels) as [|q l] eqn:E; [done|]. injection Hp as ->.
    assert (p ∈ filter (fun q => q.1 = r) probeReasonLabels) as H by (rewrite E; by left). by apply list_elem_of_filter in H as [_ ?]. }
  revert Hin. unfold probeReasonLabels. rewrite !elem_of_cons, elem_of_nil. intros H.
  repeat destruct H as [->|H]; [by vm_compute..|done].
Qed.

(** Clean text of at most [n] bytes. *)
Definition fits (n : Z) (s : string) : Prop := clean_text s /\ len s <= n.

Lemma fits_app n m s t : fits n s -> fits m t -> fits (n + m) (s +:+ t).
Proof. intros [Hs1 Hs2] [Ht1 Ht2]. split; [by apply clean_app|]. rewrite len_app. lia. Qed.
Lemma fits_printable n s : all_chars printable s = true -> len s <= n -> fits n s.
Proof. intros H Hl. split; [by apply printable_clean|done]. Qed.
Lemma fits_text n s : all_chars printable s = true /\ len s <= n -> fits n s.
Proof. intros []. by apply fits_printable. Qed.
Lemma fits_literal s : all_chars printable s = true -> fits (len s) s.
Proof. intros H. by apply fits_printable. Qed.
Lemma fits_le n m s : fits n s -> n <= m -> fits m s.
Proof. intros [] ?. split; [done|lia]. Qed.
Lemma fits_time o fallback : (forall t, o = Some t -> instant_ok t) -> all_chars printable fallback = true -> len fallback <= 20 ->
  fits 20 (valueOr (formatTime o) fallback).
Proof. intros. apply fits_text. by apply valueOr_text. Qed.
Lemma fits_duration n : 0 <= n <= 2678400 -> fits 60 (duration_seconds n).
Proof. intros [H ?]%duration_text. apply fits_printable; [by apply safe_printable|done]. Qed.
Lemma fits_detail d : fits 256 (SanitizeProbeDetail d).
Proof. destruct (SanitizeProbeDetail_ok d) as (? & ? & ?). by split. Qed.

(** A concatenation of texts known to fit. *)
Ltac fits_concat :=
  match goal with
  | |- fits _ (_ +:+ _) => eapply fits_app; fits_concat
  | |- fits _ (String _ _) => apply fits_literal; reflexivity
  | |- fits _ (SanitizeProbeDetail _) => apply fits_detail
  | H : fits _ ?s |- fits _ ?s => exact H
  end.

Lemma body_fits_down c : sendable c -> fits 700 (downBody c (formatTime (LastPingAt c))).
Proof.
  intros Hc. assert (Hunrec : fits 700 bodyUnrecognisedReason) by by apply fits_printable.
  unfold downBody. destruct (DownReason c) as [reason|]; [|done]. destruct (Probe c) as [probe|].
  - unfold probeDownBody. destruct (String.eqb reason ReasonMissed).
    { pose proof (fits_time (DownSince c) bodyUnknown (sd_since _ Hc) eq_refl ltac:(done)).
      eapply fits_le; [fits_concat|by vm_compute]. }
    destruct (lookup_label reason) as [label|] eqn:El; [|done]. pose proof (fits_text 30 label (label_text _ _ El)) as Hl.
    assert (Hplain : fits 700 ("Probe failed (" +:+ label +:+ ").")) by (eapply fits_le; [fits_concat|by vm_compute]).
    destruct (DownDetail probe) as [d|]; [|done]. cbv zeta. destruct (String.eqb _ _); [done|].
    eapply fits_le; [fits_concat|by vm_compute].
  - pose proof (fits_time (LastPingAt c) bodyUnknown (sd_ping _ Hc) eq_refl ltac:(done)) as H1.
    pose proof (fits_time (LastPingAt c) bodyCreation (sd_ping _ Hc) eq_refl ltac:(done)) as H2.
    pose proof (fits_duration _ (sd_period _ Hc)) as H3. pose proof (fits_duration _ (sd_grace _ Hc)) as H4.
    destruct (String.eqb reason ReasonFail); [|destruct (String.eqb reason ReasonMissed); [|done]];
      (eapply fits_le; [fits_concat|by vm_compute]).
Qed.

Lemma body_fits_recovered c : sendable c -> fits 700 (recoveredBody c (formatTime (LastPingAt c)) (formatTime (DownSince c))).
Proof.
  intros Hc. unfold recoveredBody. cbv zeta.
  pose proof (fits_time (LastPingAt c) bodyUnknown (sd_ping _ Hc) eq_refl ltac:(done)) as H1.
  pose proof (fits_time (DownSince c) bodyUnknown (sd_since _ Hc) eq_refl ltac:(done)) as H2.
  destruct (Probe c); (eapply fits_le; [fits_concat|by vm_compute]).
Qed.

Lemma title_fits c prefix : sendable c -> all_chars printable prefix = true -> len prefix <= 100 ->
  fits 250 (prefix +:+ (AppID c +:+ "/" +:+ Name c)).
Proof.
  intros Hc Hp Hl. destruct (slug_text 62 _ (sd_app _ Hc)) as [Ha Hal]. destruct (slug_text 62 _ (sd_name _ Hc)) as [Hn Hnl].
  assert (H1 : fits 100 prefix) by by apply fits_printable.
  assert (H2 : fits 63 (AppID c)) by (apply fits_printable; [by apply safe_printable|lia]).
  assert (H3 : fits 63 (Name c)) by (apply fits_printable; [by apply safe_printable|lia]).
  eapply fits_le; [fits_concat|by vm_compute].
Qed.

Section accepted.
Context `{Std}.

Lemma display_accepted title body priority : fits 250 title -> fits 700 body ->
  existsb (String.eqb priority) validate.displayPriorities = true ->
  validate.ValidateDisplay (Some {| message.Title := title; message.Body := body; message.Display_URL := EmptyString;
    message.Priority := priority |}) = None.
Proof.
  intros [Ht Htl] [Hb Hbl] Hp. unfold validate.ValidateDisplay. cbn [message.Title message.Body message.Display_URL message.Priority].
  rewrite !clean_display, Hp by done. unfold validate.maxDisplayTitleBytes, validate.maxDisplayBodyBytes.
  destruct (Z.ltb_spec 250 (len title)); [lia|]. destruct (Z.ltb_spec 4096 (len body)); [lia|]. simpl. by rewrite andb_false_r.
Qed.

Lemma key_char c : safe c = true -> c <> " "%char -> validate.is_key_char c = true.
Proof. destruct c as [[] [] [] [] [] [] [] []]; vm_compute; done. Qed.

Lemma key_accepted id seq destination : 0 <= id <= int64_max -> 0 <= seq <= int64_max -> match_slug 62 destination = true ->
  validate.ValidateIdempotencyKey (idempotency_key id seq destination) = None.
Proof.
  intros Hid Hseq Hd. unfold validate.ValidateIdempotencyKey, validate.idempotencyKeyPattern, match_repeat.
  destruct (match_slug_spec _ _ Hd) as [Hdl Hda]. destruct (pretty_int64 _ Hid) as [[Hi _] Hil]. destruct (pretty_int64 _ Hseq) as [[Hs _] Hsl].
  assert (Hdig : forall s, all_chars is_digit s = true -> all_chars validate.is_key_char s = true).
  { intros s. apply all_chars_impl. intros [[] [] [] [] [] [] [] []]; vm_compute; done. }
  assert (Hslug : all_chars validate.is_key_char destination = true).
  { eapply all_chars_impl; [|exact Hda]. intros [[] [] [] [] [] [] [] []]; vm_compute; done. }
  unfold idempotency_key. rewrite !all_chars_app, !len_app, (Hdig _ Hi), (Hdig _ Hs), Hslug.
  change (len "hb:") with 3. change (len ":") with 1. pose proof (len_nonneg (pretty id)). pose proof (len_nonneg (pretty seq)).
  rewrite (proj2 (Z.leb_le 1 _)) by lia. rewrite (proj2 (Z.leb_le _ 200)) by lia. done.
Qed.

(** An alert of a sendable check is built, and the message service accepts it. *)
Lemma alert_accepted c kind destination : sendable c -> kind = AlertDown \/ kind = AlertRecovered ->
  match_slug 62 destination = true ->
  exists envelope, buildAlertEnvelope c kind destination = Ok envelope /\ validate.ValidateEnvelope envelope = None.
Proof.
  intros Hc Hk Hd. pose proof (slug_text 62 _ Hd) as [_ Hdl].
  assert (Hgood : forall critical type reason display, all_chars safe type = true -> len type <= 70 ->
    (forall r, reason = Some r -> IsKnownDownReason r = true) -> validate.ValidateDisplay (Some display) = None ->
    validate.ValidateEnvelope (alert_envelope c destination critical
      {| Type_ := type; Payload_AppID := AppID c; Check := Name c; Reason := reason;
         Payload_LastPingAt := formatTime (LastPingAt c); Payload_DownSince := formatTime (DownSince c);
         Payload_PeriodSeconds := PeriodSeconds c; Payload_GraceSeconds := GraceSeconds c |} display) = None).
  { intros critical type reason display Ht Htl Hr Hdisp. unfold validate.ValidateEnvelope. apply first_error_None.
    unfold alert_envelope. cbn [message.AppID message.Channel message.IdempotencyKey message.ToDestination message.ToRecipient
      message.DeliverAt message.Payload message.Display_].
    destruct (alert_payload_accepted c type reason Hc Ht Htl Hr) as [Hasc Hpay].
    repeat (apply Forall_cons; split); [| | | | | | |constructor].
    - unfold validate.ValidateAppID, appid.ValidateAppID. by rewrite (sd_app _ Hc).
    - done.
    - apply key_accepted; [apply (sd_id _ Hc)| |done]. pose proof (sd_seq _ Hc). unfold heartbeat_inv.int4_max, int64_max in *. lia.
    - unfold validate.ValidateTo, validate.empty. rewrite String.eqb_refl, andb_false_r. simpl.
      unfold registry.ValidateDestinationName, registry.destinationName. rewrite Hd. simpl. rewrite andb_false_r. done.
    - done.
    - rewrite bytes_of_bytes; [exact Hpay|]. eapply Forall_impl; [exact Hasc|]. simpl. lia.
    - done. }
  unfold buildAlertEnvelope. cbv zeta.
  destruct Hk as [-> | ->]; simpl String.eqb; cbv iota; eexists; (split; [reflexivity|]); apply Hgood; try done.
  - apply (sd_reason _ Hc).
  - apply display_accepted; [by apply title_fits|by apply body_fits_down|done].
  - apply display_accepted; [by apply title_fits|by apply body_fits_recovered|done].
Qed.
End accepted.

(** *** Keys *)

Lemma digits_split a b x y : all_chars is_digit a = true -> all_chars is_digit b = true ->
  a +:+ String ":" x = b +:+ String ":" y -> a = b /\ x = y.
Proof.
  revert b. induction a as [|c a IH]; intros [|d b] Ha Hb H; rewrite ?string_app_nil, ?string_app_cons in H; simpl in Ha, Hb.
  - by injection H as ->.
  - injection H as <- _. done.
  - injection H as -> _. done.
  - injection H as -> H. bool_hyps. by destruct (IH b) as [-> ->].
Qed.

Lemma key_inj id seq d id' seq' d' : 0 <= id <= int64_max -> 0 <= seq <= int64_max -> 0 <= id' <= int64_max ->
  0 <= seq' <= int64_max -> idempotency_key id seq d = idempotency_key id' seq' d' -> id = id' /\ seq = seq' /\ d = d'.
Proof.
  intros H1%pretty_int64 H2%pretty_int64 H3%pretty_int64 H4%pretty_int64.
  destruct H1 as [[H1 _] _], H2 as [[H2 _] _], H3 as [[H3 _] _], H4 as [[H4 _] _].
  unfold idempotency_key. intros H%string_app_inj.
  destruct (digits_split _ _ _ _ H1 H3 H) as [Hi%(inj pretty) Hrest].
  destruct (digits_split _ _ _ _ H2 H4 Hrest) as [Hs%(inj pretty) Hd]. done.
Qed.

(** ** The checks of reachable tables *)

Lemma one_of_In l s : heartbeat_pg.one_of l s = true -> s ∈ l.
Proof. intros (x & Hx & ->%String.eqb_eq)%existsb_exists. by apply list_elem_of_In. Qed.

Lemma stored_sendable db id r : heartbeat_inv.wf db -> heartbeat_pg.heartbeat_checks db !! id = Some r ->
  heartbeat_pg.next_check_id db <= int64_max ->
  (forall t, LastPingAt r = Some t -> instant_ok t) -> (forall t, DownSince r = Some t -> instant_ok t) ->
  sendable (heartbeat_pg.scanCheck db id r).
Proof.
  intros Hwf Hr Hmax Hp Hs. destruct (heartbeat_inv.wf_row _ Hwf _ _ Hr) as (Hid & Hlt & [_ Hty Hck _ Hm]).
  unfold heartbeat_pg.check_constraints in Hck. bool_hyps. unfold heartbeat_pg.between in *. bool_hyps.
  assert (Hseq : 0 <= AlertSeq r) by (destruct Hm as [? _ _ _ _ _ Hcw|_ _ _ Hcw]; exact (proj1 (cw_seq _ _ Hcw))).
  pose proof (heartbeat_inv.types_seq _ Hty) as Hseq'.
  assert (sendable r) as []; [|by split].
  split; try done; [lia..|].
  intros reason Hreason. match goal with H : heartbeat_pg.none_or (heartbeat_pg.one_of KnownDownReasons) _ = true |- _ => rename H into Hdr end.
  rewrite Hreason in Hdr. unfold IsKnownDownReason. apply bool_decide_eq_true. by apply one_of_In.
Qed.

Lemma linked_names db id r d : heartbeat_inv.wf db -> heartbeat_pg.heartbeat_checks db !! id = Some r ->
  d ∈ Destinations (heartbeat_pg.scanCheck db id r) -> match_slug 62 (Ref_Name d) = true.
Proof.
  intros Hwf Hr Hd. unfold heartbeat_pg.scanCheck in Hd. cbn [Destinations] in Hd. apply list_elem_of_fmap in Hd as (x & -> & Hx).
  apply registry_pg.elem_of_select in Hx as [Hx _]; [|apply (heartbeat_inv.wf_registry _ Hwf)].
  apply (registry_pg.wf_destination _ (heartbeat_inv.wf_registry _ Hwf)) in Hx as (_ & Hck & _).
  unfold registry_pg.destination_check in Hck. bool_hyps. done.
Qed.

Lemma pending_ok db c : c ∈ merge_sort heartbeat_pg.orderByID
    ((fun p => heartbeat_pg.scanCheck db p.1 p.2) <$> heartbeat_pg.rows_where (fun r => bool_decide (is_Some (PendingAlert r))) db) ->
  exists id r, heartbeat_pg.heartbeat_checks db !! id = Some r /\ c = heartbeat_pg.scanCheck db id r /\ is_Some (PendingAlert r).
Proof.
  rewrite merge_sort_Permutation. intros ([id r] & -> & [Hr Hp]%heartbeat_steps.rows_where_elem)%list_elem_of_fmap.
  exists id, r. by bool_hyps.
Qed.

Lemma pending_kind db id r : heartbeat_inv.wf db -> heartbeat_pg.heartbeat_checks db !! id = Some r ->
  forall kind, PendingAlert r = Some kind -> kind = AlertDown \/ kind = AlertRecovered.
Proof.
  intros Hwf Hr kind Hk. destruct (heartbeat_inv.wf_row _ Hwf _ _ Hr) as (_ & _ & [_ _ Hck _ _]).
  unfold heartbeat_pg.check_constraints in Hck. bool_hyps.
  match goal with H : heartbeat_pg.none_or (heartbeat_pg.one_of ["down"; "recovered"]%string) _ = true |- _ => rewrite Hk in H; apply one_of_In in H; rename H into Hin end.
  apply elem_of_cons in Hin as [->|Hin]; [by left|]. apply elem_of_cons in Hin as [->|Hin]; [by right|]. by apply elem_of_nil in Hin.
Qed.

(** C26: Every alert the store holds can be announced.  In any reachable tables, for every check
    with a pending alert and every destination it names: the service builds an envelope for
    it, the message service's validation accepts that envelope, it is addressed to that
    destination on the check's app and the heartbeat channel, and its idempotency key
    differs from that of every other check, alert or destination.  The instants are those
    of a clock before the year 9000. *)
Theorem store_alerts_accepted `{Std} store db pending db' c d kind :
  heartbeat_steps.reachable store db -> heartbeat_pg.next_check_id db <= int64_max ->
  heartbeat_pg.ListPendingAlerts db = (Ok pending, db') -> c ∈ pending -> d ∈ Destinations c ->
  PendingAlert c = Some kind ->
  (forall x t, x ∈ pending -> LastPingAt x = Some t \/ DownSince x = Some t -> instant_ok t) ->
  exists envelope, buildAlertEnvelope c kind (Ref_Name d) = Ok envelope /\ validate.ValidateEnvelope envelope = None /\
    message.AppID envelope = AppID c /\ message.Channel envelope = AlertChannel /\ message.ToDestination envelope = Ref_Name d /\
    forall c' d' kind' envelope', c' ∈ pending -> buildAlertEnvelope c' kind' d' = Ok envelope' ->
      message.IdempotencyKey envelope' = message.IdempotencyKey envelope ->
      ID c' = ID c /\ AlertSeq c' = AlertSeq c /\ d' = Ref_Name d.
Proof.
  intros Hwf%heartbeat_steps.checks_reachable_wf Hmax Hl Hc Hd Hk Htimes. injection Hl as <- <-.
  assert (Hsend : forall x, x ∈ merge_sort heartbeat_pg.orderByID ((fun p => heartbeat_pg.scanCheck db p.1 p.2) <$>
      heartbeat_pg.rows_where (fun r => bool_decide (is_Some (PendingAlert r))) db) -> sendable x).
  { intros x Hx. pose proof (Htimes x) as Ht. destruct (pending_ok _ _ Hx) as (i & r & Hr & -> & _).
    apply stored_sendable; try done; intros t ?; apply (Ht t Hx); auto. }
  pose proof (Hsend _ Hc) as Hs. destruct (pending_ok _ _ Hc) as (i & r & Hr & -> & _).
  destruct (alert_accepted _ kind (Ref_Name d) Hs) as (envelope & Hb & Hv).
  { by apply (pending_kind db i r). }
  { by apply (linked_names db i r). }
  assert (Hfields : forall x k n e, buildAlertEnvelope x k n = Ok e -> message.AppID e = AppID x /\
    message.Channel e = AlertChannel /\ message.ToDestination e = n /\ message.IdempotencyKey e = idempotency_key (ID x) (AlertSeq x) n).
  { intros x k n e. unfold buildAlertEnvelope. cbv zeta. destruct (String.eqb k AlertDown); [by intros [= <-]|].
    destruct (String.eqb k AlertRecovered); [by intros [= <-]|done]. }
  exists envelope. destruct (Hfields _ _ _ _ Hb) as (F1 & F2 & F3 & F4). split_and!; try done.
  intros c' d' kind' envelope' Hc' (_ & _ & _ & ->)%Hfields. rewrite F4. pose proof (Hsend _ Hc') as Hs'.
  assert (Hi : heartbeat_inv.int4_max <= int64_max) by by vm_compute.
  pose proof (sd_seq _ Hs). pose proof (sd_seq _ Hs').
  apply key_inj; [apply (sd_id _ Hs')|lia|apply (sd_id _ Hs)|lia].
Qed.
End heartbeat_alerts.
