(* ===== verification/HeartbeatServiceProps.v ===== *)
(** * HeartbeatServiceProps

    What the heartbeat service promises of the alert outbox: a tick submits every pending
    alert to every enabled destination once, clears exactly the alerts that were delivered
    and leaves the others for the next tick; and the app-scoped operations reach only the
    app's own checks. *)

From S2P Require Import Prelude GoText Utf8 Idents Std Seal Registry RegistryStore Message Heartbeat HeartbeatProps HeartbeatSeal HeartbeatStore HeartbeatInv HeartbeatSteps HeartbeatStoreProps HeartbeatService HeartbeatAlerts.
Open Scope Z_scope.
Import heartbeat.

Module heartbeat_service_props.
Import heartbeat_pg heartbeat_inv heartbeat_steps heartbeat_service.

(** ** The service on its store and a message service *)

(** The tables, the state of the message service and of the clock, and what was
    submitted with what result. *)
Definition submission : Type := message.Envelope * result (message.StoredMessage * message.SubmitOutcome).
Record World {X : Type} := { tables : DB; messages : X; sent : list submission }.
#[global] Arguments World X : clear implicits.

Definition on_tables {X A} (m : M DB A) : M (World X) A := fun w =>
  let (r, db) := m (tables w) in (r, w {{ tables := db }}).

(** The checks whose alert is pending, in the order they are flushed. *)
Definition pending_checks (db : DB) : list StoredCheck :=
  merge_sort orderByID ((fun p => scanCheck db p.1 p.2) <$> rows_where (fun r => bool_decide (is_Some (PendingAlert r))) db).

(** Every submission of a flush went through or is to be skipped. *)
Definition delivered (subs : list submission) : bool :=
  forallb (fun s => match s.2 with Ok _ => true | Err e => skipped e end) subs.

Section world.
Context `{Std} (store : PGStore) {X : Type}.
Context (submit : message.Envelope -> X -> result (message.StoredMessage * message.SubmitOutcome) * X) (clk : X -> Z * X).

Definition World_store : HeartbeatStore (World X) := {|
  store_Create check now := on_tables (Create store check now); store_Get id := on_tables (Get id);
  store_List := on_tables List; store_Patch id p now := on_tables (Patch store id p now);
  store_Delete id := on_tables (Delete id); store_Pause id now := on_tables (Pause id now);
  store_Resume id now := on_tables (Resume id now);
  store_RecordPing appID name kind now := on_tables (RecordPing appID name kind now);
  store_AdvanceDue now := on_tables (AdvanceDue now); store_ListPendingAlerts := on_tables ListPendingAlerts;
  store_ClearPendingAlert id seq := on_tables (ClearPendingAlert id seq);
  store_RecordProbeResult id version r now hold := on_tables (RecordProbeResult id version r now hold);
  store_ClaimDueProbes now limit := on_tables (ClaimDueProbes store now limit);
  store_ListByOwner appID := on_tables (ListByOwner appID);
  store_PatchOwnedBy id appID p now := on_tables (PatchOwnedBy store id appID p now);
  store_DeleteOwnedBy id appID := on_tables (DeleteOwnedBy id appID);
  store_PauseOwnedBy id appID now := on_tables (PauseOwnedBy id appID now);
  store_ResumeOwnedBy id appID now := on_tables (ResumeOwnedBy id appID now)
|}.
#[local] Existing Instance World_store.

Definition World_messages : HeartbeatMessages (World X) := {|
  messages_Submit envelope := fun w =>
    let (r, x) := submit envelope (messages w) in
    (r, {| tables := tables w; messages := x; sent := sent w ++ [(envelope, r)] |})
|}.
#[local] Existing Instance World_messages.

(** A service whose start-up hold-off ends at [hold]. *)
Definition World_service (hold : Z) : Service (World X) :=
  {| now := fun w => let (t, x) := clk (messages w) in (t, w {{ messages := x }}); holdOffUntil := hold |}.

(** ** One flush *)

Lemma buildAlertEnvelope_ok c kind destination : kind = AlertDown \/ kind = AlertRecovered ->
  exists envelope, buildAlertEnvelope c kind destination = Ok envelope.
Proof. by intros [->| ->]; eexists. Qed.

(** The envelopes of an alert, one per enabled destination. *)
Definition alerts_of (c : StoredCheck) (kind : string) (envelopes : list message.Envelope) : Prop :=
  Forall2 (fun d envelope => buildAlertEnvelope c kind (Ref_Name d) = Ok envelope)
    (filter (fun d => Ref_Enabled d = true) (Destinations c)) envelopes.

Lemma submit_all_exact c kind ds w : kind = AlertDown \/ kind = AlertRecovered ->
  exists failures w' subs, submit_all c kind ds w = (Ok failures, w') /\ tables w' = tables w /\ sent w' = sent w ++ subs /\
    (failures = [] <-> delivered subs = true) /\
    Forall2 (fun d envelope => buildAlertEnvelope c kind (Ref_Name d) = Ok envelope)
      (filter (fun d => Ref_Enabled d = true) ds) subs.*1.
Proof.
  intros Hk. revert w. induction ds as [|d ds IH]; intros w; cbn [submit_all].
  { exists [], w, []. rewrite app_nil_r. by split_and!. }
  rewrite filter_cons. destruct (Ref_Enabled d) eqn:Hen; cbn [negb].
  2: { destruct (IH w) as (f & w' & subs & ? & ? & ? & ? & ?). exists f, w', subs. by rewrite decide_False. }
  rewrite decide_True by done. destruct (buildAlertEnvelope_ok c kind (Ref_Name d) Hk) as [envelope He]. rewrite He.
  unfold m_try, mbind, m_bind, messages_Submit, World_messages.
  destruct (submit envelope (messages w)) as [r x] eqn:Hsub.
  destruct (IH {| tables := tables w; messages := x; sent := sent w ++ [(envelope, r)] |}) as (f & w' & subs & Hrun & Ht & Hs & Hf & Hall).
  unfold World_messages in Hrun. rewrite Hrun.
  assert (Hsent : sent w' = sent w ++ (envelope, r) :: subs) by (rewrite Hs; simpl; by rewrite <- app_assoc).
  assert (Hall' : Forall2 (fun d envelope => buildAlertEnvelope c kind (Ref_Name d) = Ok envelope)
    (d :: filter (fun d => Ref_Enabled d = true) ds) ((envelope, r) :: subs).*1) by (csimpl; by constructor).
  destruct r as [r|e].
  - exists f, w', ((envelope, Ok r) :: subs). split_and!; done.
  - destruct (skipped e) eqn:Hsk.
    + exists f, w', ((envelope, Err e) :: subs). unfold delivered in *. simpl. rewrite Hsk. split_and!; done.
    + eexists (_ :: f), w', ((envelope, Err e) :: subs). unfold delivered in *. simpl. rewrite Hsk. split_and!; done.
Qed.

(** What a flush of the row [r] leaves of it. *)
Definition flushed (subs : list submission) (r : StoredCheck) : StoredCheck :=
  if delivered subs then r {{ PendingAlert := None }} else r.

Lemma flush_exact w id r kind : heartbeat_checks (tables w) !! id = Some r -> ID r = id -> check_types r = true ->
  PendingAlert r = Some kind -> kind = AlertDown \/ kind = AlertRecovered -> forall db, exists res w' subs,
    flush (scanCheck db id r) w = (res, w') /\ sent w' = sent w ++ subs /\ alerts_of (scanCheck db id r) kind subs.*1 /\
    tables w' = put_check id (flushed subs r) (tables w) /\ (res = Ok tt <-> delivered subs = true).
Proof.
  intros Hr Hid Hty Hpend Hk db. unfold flush. change (PendingAlert (scanCheck db id r)) with (PendingAlert r). rewrite Hpend.
  assert (negb (String.eqb kind AlertDown) && negb (String.eqb kind AlertRecovered) = false) as -> by (by destruct Hk as [->| ->]).
  destruct (submit_all_exact (scanCheck db id r) kind (Destinations (scanCheck db id r)) w Hk) as (f & w' & subs & Hrun & Ht & Hs & Hf & Hall).
  unfold mbind, m_bind. rewrite Hrun. case_bool_decide as Hnil; cbn [negb].
  - pose proof (proj1 Hf Hnil) as Hd. unfold m_map_err, store_ClearPendingAlert, World_store, on_tables, ClearPendingAlert.
    change (ID (scanCheck db id r)) with (ID r). change (AlertSeq (scanCheck db id r)) with (AlertSeq r).
    assert (int4 (AlertSeq r) = true) as -> by (unfold check_types in Hty; simpl in Hty; by bool_hyps).
    rewrite Ht, Hid, Hr, Z.eqb_refl, Hpend. cbn [negb andb]. rewrite bool_decide_eq_true_2 by eauto.
    eexists _, _, subs. split; [done|]. split_and!; try done. unfold flushed. by rewrite Hd.
  - assert (Hd : delivered subs = false) by (apply not_true_iff_false; naive_solver). 
    eexists _, w', subs. split; [done|]. unfold flushed. rewrite Hd. split_and!; try done.
    rewrite Ht. unfold put_check. rewrite insert_id by done. by destruct (tables w).
Qed.

(** ** Flushing the outbox *)

(** What the flushes of a list of checks did: the submissions of each. *)
Definition flush_log : Type := list (StoredCheck * list submission).

Lemma flush_all_exact db pending : forall w,
  NoDup (ID <$> pending) ->
  (forall c, c ∈ pending -> exists id r kind, c = scanCheck db id r /\ heartbeat_checks (tables w) !! id = Some r /\ ID r = id /\
     check_types r = true /\ PendingAlert r = Some kind /\ (kind = AlertDown \/ kind = AlertRecovered)) ->
  exists errs w' (log : flush_log), flush_all pending w = (Ok errs, w') /\ log.*1 = pending /\ sent w' = sent w ++ mjoin log.*2 /\
    (errs = [] <-> Forall (fun g => delivered g.2 = true) log) /\
    Forall (fun g => exists kind, PendingAlert g.1 = Some kind /\ alerts_of g.1 kind g.2.*1 /\
      heartbeat_checks (tables w') !! ID g.1 = flushed g.2 <$> heartbeat_checks (tables w) !! ID g.1) log /\
    (forall id, id ∉ ID <$> pending -> heartbeat_checks (tables w') !! id = heartbeat_checks (tables w) !! id) /\
    exists rows, tables w' = (tables w) {{ heartbeat_checks := rows }}.
Proof.
  induction pending as [|c pending IH]; intros w Hnd Hin.
  { exists [], w, []. rewrite app_nil_r. split_and!; try done. exists (heartbeat_checks (tables w)). by destruct (tables w). }
  apply NoDup_cons in Hnd as [Hni Hnd]. destruct (Hin c ltac:(by left)) as (id & r & kind & -> & Hr & Hid & Hty & Hpend & Hk).
  destruct (flush_exact w id r kind Hr Hid Hty Hpend Hk db) as (res & w1 & subs & Hrun & Hs & Hall & Ht & Hres).
  change (ID (scanCheck db id r)) with (ID r) in Hni. rewrite Hid in Hni.
  assert (Hother : forall j, j <> id -> heartbeat_checks (tables w1) !! j = heartbeat_checks (tables w) !! j)
    by (intros j Hj; rewrite Ht; simpl; by rewrite lookup_insert_ne).
  destruct (IH w1 Hnd) as (errs & w2 & log & Hrun2 & Hl & Hs2 & He & Hlog & Hkeep & rows & Ht2).
  { intros c Hc. destruct (Hin c ltac:(by right)) as (j & s & k & -> & Hs' & Hj & ?). exists j, s, k. split_and!; try tauto.
    rewrite Hother; [done|]. intros ->. apply Hni. rewrite <- Hj. change (ID s) with (ID (scanCheck db id s)). by apply list_elem_of_fmap_2. }
  exists (match res with Ok _ => errs | Err e => e :: errs end), w2, ((scanCheck db id r, subs) :: log).
  cbn [flush_all]. unfold m_try, mbind, m_bind. rewrite Hrun. cbn [fst snd]. rewrite Hrun2. split_and!.
  - done.
  - csimpl. by rewrite Hl.
  - rewrite Hs2, Hs. csimpl. by rewrite <- app_assoc.
  - rewrite Forall_cons. cbn [snd]. rewrite <- Hres, <- He. destruct res as [[]|e]; naive_solver.
  - apply Forall_cons. split.
    + exists kind. split_and!; [done|done|]. cbn [fst snd]. change (ID (scanCheck db id r)) with (ID r). rewrite Hid.
      rewrite Hkeep by done. rewrite Ht, Hr. simpl. by rewrite lookup_insert_eq.
    + rewrite Forall_forall in Hlog |- *. intros g Hg. destruct (Hlog g Hg) as (k & Hk1 & Hk2 & Hk3). exists k. split_and!; [done..|].
      rewrite Hk3, Hother; [done|]. intros Heq. apply Hni. rewrite <- Heq, <- Hl.
      apply list_elem_of_fmap_2, list_elem_of_fmap. by exists g.
  - intros j Hj. rewrite fmap_cons in Hj. apply not_elem_of_cons in Hj as [Hne Hj]. rewrite Hkeep by done. apply Hother. by rewrite <- Hid.
  - exists rows. rewrite Ht2, Ht. by destruct (tables w).
Qed.

(** The outbox of reachable tables. *)
Lemma pending_checks_elem db c : c ∈ pending_checks db <->
  exists id r, heartbeat_checks db !! id = Some r /\ is_Some (PendingAlert r) /\ c = scanCheck db id r.
Proof.
  unfold pending_checks. rewrite merge_sort_Permutation, list_elem_of_fmap. split.
  - intros ([id r] & -> & [Hr Hp]%rows_where_elem). exists id, r. by bool_hyps.
  - intros (id & r & Hr & Hp & ->). exists (id, r). split; [done|]. apply rows_where_elem. by rewrite bool_decide_eq_true_2.
Qed.

Lemma pending_checks_NoDup db : wf db -> NoDup (ID <$> pending_checks db).
Proof.
  intros Hwf. unfold pending_checks. rewrite merge_sort_Permutation, <- list_fmap_compose. apply NoDup_fmap_2_strong.
  - intros [i r] [j s] [Hr _]%rows_where_elem [Hs _]%rows_where_elem. unfold compose. cbn [fst snd].
    change (ID (scanCheck db i r)) with (ID r). change (ID (scanCheck db j s)) with (ID s).
    rewrite (proj1 (wf_row _ Hwf _ _ Hr)), (proj1 (wf_row _ Hwf _ _ Hs)). intros ->. congruence.
  - apply NoDup_filter, NoDup_map_to_list.
Qed.

Lemma flush_outbox w : wf (tables w) ->
  exists errs w' (log : flush_log), flush_all (pending_checks (tables w)) w = (Ok errs, w') /\
    log.*1 = pending_checks (tables w) /\ sent w' = sent w ++ mjoin log.*2 /\
    (errs = [] <-> Forall (fun g => delivered g.2 = true) log) /\
    Forall (fun g => exists kind, PendingAlert g.1 = Some kind /\ alerts_of g.1 kind g.2.*1 /\
      heartbeat_checks (tables w') !! ID g.1 = flushed g.2 <$> heartbeat_checks (tables w) !! ID g.1) log /\
    (forall id, (forall r, heartbeat_checks (tables w) !! id = Some r -> PendingAlert r = None) ->
       heartbeat_checks (tables w') !! id = heartbeat_checks (tables w) !! id) /\
    exists rows, tables w' = (tables w) {{ heartbeat_checks := rows }}.
Proof.
  intros Hwf. destruct (flush_all_exact (tables w) (pending_checks (tables w)) w (pending_checks_NoDup _ Hwf))
    as (errs & w' & log & H1 & H2 & H3 & H4 & H5 & H6 & H7).
  { intros c (id & r & Hr & [kind Hk] & ->)%pending_checks_elem. exists id, r, kind.
    destruct (wf_row _ Hwf _ _ Hr) as (Hid & _ & Hok). split_and!; try done; [apply (ro_types _ _ Hok)|].
    by apply (heartbeat_alerts.pending_kind (tables w) id r). }
  exists errs, w', log. split_and!; try done. intros id Hnone. apply H6.
  intros (c & -> & (j & s & Hs & [k Hk] & ->)%pending_checks_elem)%list_elem_of_fmap.
  change (ID (scanCheck (tables w) j s)) with (ID s) in Hnone. rewrite (proj1 (wf_row _ Hwf _ _ Hs)) in Hnone.
  by rewrite (Hnone _ Hs) in Hk.
Qed.

(** An outbox whose alerts were all delivered is empty. *)
Lemma outbox_cleared db db' (log : flush_log) : wf db -> log.*1 = pending_checks db ->
  Forall (fun g => delivered g.2 = true) log ->
  Forall (fun g => exists kind, PendingAlert g.1 = Some kind /\ alerts_of g.1 kind g.2.*1 /\
    heartbeat_checks db' !! ID g.1 = flushed g.2 <$> heartbeat_checks db !! ID g.1) log ->
  (forall id, (forall r, heartbeat_checks db !! id = Some r -> PendingAlert r = None) ->
     heartbeat_checks db' !! id = heartbeat_checks db !! id) ->
  pending_checks db' = [].
Proof.
  intros Hwf Hlog Hdel Hcl Hkeep. destruct (pending_checks db') as [|c l] eqn:Hl; [done|]. exfalso.
  assert (Hin : c ∈ pending_checks db') by (rewrite Hl; left).
  apply pending_checks_elem in Hin as (id & row & Hrow & [k Hk] & _).
  assert (exists row2 k2, heartbeat_checks db !! id = Some row2 /\ PendingAlert row2 = Some k2) as (row2 & k2 & Hrow2 & Hk2).
  { destruct (heartbeat_checks db !! id) as [row2|] eqn:Hrow2; [destruct (PendingAlert row2) as [k2|] eqn:Hk2; [by eauto|]|];
      (rewrite Hkeep, Hrow2 in Hrow; [congruence|intros; congruence]). }
  assert (Hmem : scanCheck db id row2 ∈ pending_checks db) by (apply pending_checks_elem; exists id, row2; rewrite Hk2; eauto).
  rewrite <- Hlog in Hmem. apply list_elem_of_fmap in Hmem as ([gc gs] & Hg & Hgl). rewrite Forall_forall in Hcl, Hdel.
  destruct (Hcl _ Hgl) as (_ & _ & _ & Hfl). cbn [fst snd] in Hg, Hfl. rewrite <- Hg in Hfl.
  change (ID (scanCheck db id row2)) with (ID row2) in Hfl. rewrite (proj1 (wf_row _ Hwf _ _ Hrow2)), Hrow, Hrow2 in Hfl.
  injection Hfl as ->. unfold flushed in Hk. pose proof (Hdel _ Hgl) as Hd. cbn [snd] in Hd. by rewrite Hd in Hk.
Qed.

(** ** The tick *)

(** C16: A tick turns the outbox into messages, and loses none of it.  On reachable tables, with t
    the clock's reading: before the hold-off ends no check is taken down, and from then on
    exactly the due ones are (db1); if that fails, the tick fails and changes nothing.  Then
    for every check of db1 with a pending alert, by id, one envelope is submitted to each of
    its enabled destinations, in order, and nothing else is; the check's alert is cleared when
    each of these went through or is one to skip, and is left as it was otherwise; no other row
    is touched; the tick succeeds exactly when every alert was delivered, and then no check has
    a pending alert. *)
Theorem Tick_exact hold db x r w : reachable store db ->
  Tick (World_service hold) {| tables := db; messages := x; sent := [] |} = (r, w) ->
  let t := (clk x).1 in
  (hold <= t /\ (exists e, (AdvanceDue t db).1 = Err e) /\ (exists e, r = Err e) /\ tables w = db /\ sent w = []) \/
  exists db1 (log : flush_log),
    (if t <? hold then db1 = db else exists advanced, AdvanceDue t db = (Ok advanced, db1)) /\
    log.*1 = pending_checks db1 /\ sent w = mjoin log.*2 /\
    Forall (fun g => exists kind, PendingAlert g.1 = Some kind /\ alerts_of g.1 kind g.2.*1 /\
      heartbeat_checks (tables w) !! ID g.1 = flushed g.2 <$> heartbeat_checks db1 !! ID g.1) log /\
    (forall id, (forall row, heartbeat_checks db1 !! id = Some row -> PendingAlert row = None) ->
       heartbeat_checks (tables w) !! id = heartbeat_checks db1 !! id) /\
    (exists rows, tables w = db1 {{ heartbeat_checks := rows }}) /\
    (r = Ok tt <-> Forall (fun g => delivered g.2 = true) log) /\
    (r = Ok tt -> pending_checks (tables w) = []).
Proof.
  intros Hreach%checks_reachable_wf Hrun. cbv zeta. destruct (clk x) as [t x1] eqn:Hclk. cbn [fst].
  unfold Tick, clock, mbind, m_bind in Hrun. cbn [now World_service messages] in Hrun. rewrite Hclk in Hrun. cbn in Hrun.
  set (w1 := {| tables := db; messages := x1; sent := [] |}) in Hrun.
  assert (Hflush : forall w2, wf (tables w2) -> sent w2 = [] ->
    (let (r0, s1) := flush_all (pending_checks (tables w2)) w2 in
     match r0 with Ok a => (if bool_decide (a = []) then mret tt else m_fail (errors_Join a)) s1 | Err e => (Err e, s1) end) = (r, w) ->
    exists log : flush_log, log.*1 = pending_checks (tables w2) /\ sent w = mjoin log.*2 /\
    Forall (fun g => exists kind, PendingAlert g.1 = Some kind /\ alerts_of g.1 kind g.2.*1 /\
      heartbeat_checks (tables w) !! ID g.1 = flushed g.2 <$> heartbeat_checks (tables w2) !! ID g.1) log /\
    (forall id, (forall row, heartbeat_checks (tables w2) !! id = Some row -> PendingAlert row = None) ->
       heartbeat_checks (tables w) !! id = heartbeat_checks (tables w2) !! id) /\
    (exists rows, tables w = (tables w2) {{ heartbeat_checks := rows }}) /\
    (r = Ok tt <-> Forall (fun g => delivered g.2 = true) log) /\
    (r = Ok tt -> pending_checks (tables w) = [])).
  { intros w2 Hwf Hsent Hf. destruct (flush_outbox w2 Hwf) as (errs & w3 & log & H1 & H2 & H3 & H4 & H5 & H6 & H7).
    rewrite H1 in Hf. assert (Hw : w3 = w /\ (r = Ok tt <-> errs = [])).
    { case_bool_decide; injection Hf as <- <-; naive_solver. }
    destruct Hw as [-> Hr]. exists log. rewrite Hsent in H3. split_and!; try done; [by rewrite Hr|].
    intros Herr%Hr%H4. by apply (outbox_cleared (tables w2) (tables w) log). }
  unfold advance_due, time.Before in Hrun. cbn [holdOffUntil World_service] in Hrun. destruct (Z.ltb_spec t hold) as [Hlt|Hge].
  - right. exists db. destruct (Hflush w1 Hreach eq_refl) as (log & Hlog); [|exists log; by split].
    rewrite <- Hrun. done.
  - unfold m_map_err, mbind, m_bind, store_AdvanceDue, World_store, on_tables in Hrun. cbn [tables w1] in Hrun.
    pose proof (AdvanceDue_wf t db Hreach) as Hwf1.
    destruct (AdvanceDue t db) as [[advanced|e] db1] eqn:Hadv; cbn [snd fst] in *.
    + right. exists db1. destruct (Hflush {| tables := db1; messages := x1; sent := [] |} Hwf1 eq_refl) as (log & Hlog); [|exists log; split; [by eexists|done]].
      rewrite <- Hrun. done.
    + left. injection Hrun as <- <-. apply WithTx_err in Hadv as ->. split_and!; eauto.
Qed.
End world.
End heartbeat_service_props.
