(* ===== verification/HeartbeatApps.v ===== *)
(** * HeartbeatApps

    The app-scoped operations of the heartbeat service (app_service.go) reach only the
    checks the calling app owns. *)

From S2P Require Import Prelude GoText Utf8 Idents GoFormat Std Seal Registry RegistryStore Message Heartbeat HeartbeatProps HeartbeatSeal HeartbeatStore HeartbeatInv HeartbeatSteps HeartbeatStoreProps HeartbeatService HeartbeatAlerts HeartbeatServiceProps.
Open Scope Z_scope.
Import heartbeat.

Module heartbeat_apps.
Import heartbeat_pg heartbeat_inv heartbeat_steps heartbeat_service heartbeat_service_props.

(** What an app may ask for. *)
Inductive app_op : Type :=
  | AppCreate (input : AppCheckInput) | AppList | AppGet (id : Z) | AppPatch (id : Z) (patch : CheckPatch)
  | AppDelete (id : Z) | AppPause (id : Z) | AppResume (id : Z).

(** The check an operation names. *)
Definition target (op : app_op) : option Z :=
  match op with
  | AppGet id | AppPatch id _ | AppDelete id | AppPause id | AppResume id => Some id
  | AppCreate _ | AppList => None
  end.

Section apps.
Context `{Std} (store : PGStore) {X : Type}.
Context (clk : X -> Z * X).
#[local] Instance store_here : HeartbeatStore (World X) := World_store store.

(** The operation, with the checks it returns. *)
Definition app_run (service : Service (World X)) (appID : string) (op : app_op) : M (World X) (list StoredCheck) :=
  let one m := c ← m; mret [c] in
  match op with
  | AppCreate input => one (CreateForApp service appID input)
  | AppList => ListForApp appID
  | AppGet id => one (GetForApp appID id)
  | AppPatch id p => one (PatchForApp service appID id p)
  | AppDelete id => _ ← DeleteForApp appID id; mret []
  | AppPause id => one (PauseForApp service appID id)
  | AppResume id => one (ResumeForApp service appID id)
  end.

(** ** What a refused or confined operation leaves *)

Lemma valid_app_text appID : ValidateAppID appID = None -> text_ok appID = true /\ appID <> EmptyString.
Proof.
  unfold ValidateAppID, appid.ValidateAppID. destruct (appid.Valid appID) eqn:Hv; [|done]. intros _.
  destruct (heartbeat_alerts.slug_text 62 appID Hv) as [Hs Hl]. split; [|by intros ->].
  pose proof (heartbeat_alerts.printable_bytes _ (heartbeat_alerts.safe_printable _ Hs)) as Hb. unfold text_ok.
  destruct (heartbeat_alerts.printable_clean _ (heartbeat_alerts.safe_printable _ Hs)) as [-> _]. cbn [andb].
  apply negb_true_iff, not_true_iff_false. intros (b & Hin%list_elem_of_In & Hz%Z.eqb_eq)%existsb_exists.
  rewrite Forall_forall in Hb. specialize (Hb _ Hin). lia.
Qed.

(** Only the check [id] differs. *)
Definition only (id : Z) (db db' : DB) : Prop := forall j, j <> id ->
  heartbeat_checks db' !! j = heartbeat_checks db !! j /\ heartbeat_check_probes db' !! j = heartbeat_check_probes db !! j /\
  links_of j db' = links_of j db.

Lemma only_refl id db : only id db db.
Proof. done. Qed.

Lemma links_eq j db db' : (forall did, (j, did) ∈ heartbeat_check_destinations db' <-> (j, did) ∈ heartbeat_check_destinations db) ->
  links_of j db' = links_of j db.
Proof. intros Hl. apply set_eq. intros [k did]. unfold links_of. rewrite !elem_of_filter. cbn [fst]. naive_solver. Qed.

Lemma lockOwned_refused id appID db : text_ok appID = true ->
  (forall r, heartbeat_checks db !! id = Some r -> owned_by appID r = false) ->
  lockOwnedCheckByID id appID db = (Err ErrCheckNotFound, db).
Proof.
  intros Ht Hno. unfold lockOwnedCheckByID, params, lockCheck, by_id, mbind, m_bind. cbn [forallb]. rewrite Ht. cbn [andb m_check mret m_ret].
  destruct (heartbeat_checks db !! id) as [r|]; [|done]. by rewrite Hno.
Qed.

Lemma owned_app_id r appID : check_constraints r = true -> owned_by appID r = true -> AppID r = appID.
Proof.
  unfold check_constraints, owned_by, registry_pg.owned_app. intros Hc Ho. bool_hyps. destruct (OwnerAppID r) as [o|]; [|done].
  bool_hyps. simpl in *. bool_hyps. congruence.
Qed.

(** An operation on a locked check: refused with the lock, or confined to it. *)
Definition confined (id : Z) (appID : string) (m : M DB StoredCheck) : Prop := forall db, wf db ->
  ((forall r, heartbeat_checks db !! id = Some r -> owned_by appID r = false) -> m db = (Err ErrCheckNotFound, db)) /\
  only id db (m db).2 /\
  forall c, (m db).1 = Ok c -> owned_by appID c = true /\ AppID c = appID.

Lemma owned_preserved appID c d : preserved c d -> owned_by appID d = owned_by appID c.
Proof. intros (_ & _ & _ & _ & _ & Hk & Ho & _). unfold owned_by. by rewrite Hk, Ho. Qed.

Lemma mutate_confined id appID now f : text_ok appID = true -> (forall c, preserved c (f c)) ->
  (forall c, check_wf int4_max c -> check_wf (int4_max + 1) (f c)) -> confined id appID (mutate now (lockOwnedCheckByID id appID) f).
Proof.
  intros Ht Hpres Hm db Hwf. unfold mutate. split_and!.
  - intros Hno. unfold WithTx, mbind, m_bind. by rewrite (lockOwned_refused id appID db Ht Hno).
  - destruct (WithTx _ db) as [[c|e] db'] eqn:Hrun; [|by apply WithTx_err in Hrun as ->].
    apply (proj1 (WithTx_ok _ _ _ _)) in Hrun. apply m_bind_ok in Hrun as (cur & db1 & Hl & Hsave).
    apply lockOwned_ok in Hl as (-> & r & Hr & Ho & ->). pose proof Hsave as Hs2.
    apply (saveCheck_wf db id r) in Hsave as (_ & (r' & Hc & _) & Hp & _ & Hlinks & _); try done; [|by apply Hm, locked_machine].
    intros j Hj. cbn [snd]. split_and!; [by rewrite Hc, lookup_insert_ne|by apply Hp|by apply links_eq; intros; rewrite Hlinks].
  - intros c Hc. destruct (WithTx _ db) as [[c'|e] db'] eqn:Hrun; [|done]. injection Hc as ->.
    apply (proj1 (WithTx_ok _ _ _ _)) in Hrun. apply m_bind_ok in Hrun as (cur & db1 & Hl & Hsave).
    apply lockOwned_ok in Hl as (-> & r & Hr & Ho & ->).
    apply (saveCheck_wf db id r) in Hsave as (_ & _ & _ & _ & _ & _ & ->); try done; [|by apply Hm, locked_machine].
    split; [exact Ho|]. change (AppID r = appID). destruct (wf_row _ Hwf _ _ Hr) as (_ & _ & Hok).
    by apply owned_app_id; [apply (ro_constraints _ _ Hok)|].
Qed.

Lemma patch_confined id appID p now : text_ok appID = true -> confined id appID (PatchOwnedBy store id appID p now).
Proof.
  intros Ht db Hwf. unfold PatchOwnedBy. split_and!.
  - intros Hno. unfold patch, WithTx, mbind, m_bind. by rewrite (lockOwned_refused id appID db Ht Hno).
  - destruct (patch _ _ _ _ _ db) as [[c|e] db'] eqn:Hrun; [|by unfold patch in Hrun; apply WithTx_err in Hrun as ->].
    apply patch_ok in Hrun as (r & anchor & Hr & _ & _ & _ & _ & Hc & (ids & _ & Hlinks) & Hp); [|apply lock_of_owned|done].
    intros j Hj. cbn [snd]. split_and!; [by rewrite Hc, lookup_insert_ne| |apply links_eq; intros did; rewrite Hlinks; naive_solver].
    destruct (heartbeat_check_probes db !! id); [|by rewrite Hp].
    destruct Hp as (access & merged & next & _ & _ & _ & _ & probe & _ & ->). by rewrite lookup_insert_ne.
  - intros c Hc. destruct (patch _ _ _ _ _ db) as [[c'|e] db'] eqn:Hrun; [|done]. injection Hc as ->.
    assert (Hown : exists r, heartbeat_checks db !! id = Some r /\ owned_by appID r = true).
    { pose proof Hrun as Hl. unfold patch in Hl. cbv zeta in Hl. apply (proj1 (WithTx_ok _ _ _ _)) in Hl.
      apply m_bind_ok in Hl as (lc & db1 & Hl & _). apply lockOwned_ok in Hl as (_ & r & Hr & Ho & _). eauto. }
    apply patch_ok in Hrun as (r & anchor & Hr & _ & _ & _ & -> & _); [|apply lock_of_owned|done].
    destruct Hown as (r' & Hr' & Ho). assert (r' = r) as -> by congruence.
    split; [exact Ho|]. change (AppID r = appID). destruct (wf_row _ Hwf _ _ Hr) as (_ & _ & Hok).
    by apply owned_app_id; [apply (ro_constraints _ _ Hok)|].
Qed.

Lemma DeleteOwned_confined id appID db : text_ok appID = true ->
  ((forall r, heartbeat_checks db !! id = Some r -> owned_by appID r = false) -> DeleteOwnedBy id appID db = (Ok false, db)) /\
  only id db (DeleteOwnedBy id appID db).2.
Proof.
  intros Ht. unfold DeleteOwnedBy, params, mbind, m_bind. cbn [forallb]. rewrite Ht. cbn [andb m_check mret m_ret].
  unfold delete_where, by_id. split.
  - intros Hno. destruct (heartbeat_checks db !! id) as [r|]; [|done]. by rewrite Hno.
  - destruct (heartbeat_checks db !! id) as [r|]; [|done]. destruct (owned_by appID r); [|done]. cbn [snd].
    destruct (drop_check_tables id db) as (Hc & Hp & Hl & _). intros j Hj.
    split_and!; [by rewrite Hc, lookup_delete_ne|by rewrite Hp, lookup_delete_ne|].
    apply links_eq. intros did. rewrite Hl, elem_of_filter. cbn [fst]. naive_solver.
Qed.

Lemma ownedByApp_owned c appID : appID <> EmptyString -> ownedByApp c appID = owned_by appID c.
Proof. intros Hne. unfold ownedByApp. by destruct (String.eqb_spec appID EmptyString). Qed.

(** ** The operations on the world *)

(** What confines an operation of an app run from [w], with result [r], to the app. *)
Definition within (appID : string) (w : World X) (r : result (list StoredCheck)) (w' : World X) : Prop :=
  (forall id row, heartbeat_checks (tables w) !! id = Some row -> owned_by appID row = false ->
     heartbeat_checks (tables w') !! id = Some row /\
     heartbeat_check_probes (tables w') !! id = heartbeat_check_probes (tables w) !! id /\
     links_of id (tables w') = links_of id (tables w)) /\
  (forall id row, heartbeat_checks (tables w') !! id = Some row -> heartbeat_checks (tables w) !! id = None ->
     owned_by appID row = true /\ AppID row = appID) /\
  (forall checks c, r = Ok checks -> c ∈ checks -> ownedByApp c appID = true /\ AppID c = appID).

Lemma within_same appID w w' r : tables w' = tables w ->
  (forall checks c, r = Ok checks -> c ∈ checks -> ownedByApp c appID = true /\ AppID c = appID) -> within appID w r w'.
Proof. intros Ht Hr. split_and!; rewrite ?Ht; [done| |done]. intros id row H1 H2. congruence. Qed.

Lemma within_only appID id w w' r : only id (tables w) (tables w') ->
  ((forall row, heartbeat_checks (tables w) !! id = Some row -> owned_by appID row = false) -> tables w' = tables w) ->
  (forall checks c, r = Ok checks -> c ∈ checks -> ownedByApp c appID = true /\ AppID c = appID) -> within appID w r w'.
Proof.
  intros Honly Href Hr. split_and!; [| |done].
  - intros j row Hrow Hno. destruct (decide (j = id)) as [->|Hne]; [|by destruct (Honly j Hne) as (-> & -> & ->)].
    rewrite Href; [done|]. intros row' Hrow'. by assert (row' = row) as -> by congruence.
  - intros j row H1 H2. destruct (decide (j = id)) as [->|Hne].
    + rewrite Href in H1; [congruence|]. intros row' Hrow'. congruence.
    + rewrite (proj1 (Honly j Hne)) in H1. congruence.
Qed.

Lemma confined_run id appID m w : confined id appID m -> wf (tables w) -> appID <> EmptyString ->
  forall r w', (c ← on_tables m; mret [c]) w = (r, w') ->
  within appID w r w' /\ messages w' = messages w /\ sent w' = sent w /\
  ((forall row, heartbeat_checks (tables w) !! id = Some row -> owned_by appID row = false) -> r = Err ErrCheckNotFound /\ w' = w).
Proof.
  intros Hm Hwf Hne r w' Hrun. destruct (Hm _ Hwf) as (Href & Honly & Hok). unfold on_tables, mbind, m_bind in Hrun.
  destruct (m (tables w)) as [res db] eqn:Hrun1. cbn [fst snd] in *.
  assert (Hw : tables w' = db /\ messages w' = messages w /\ sent w' = sent w /\
    r = match res with Ok c => Ok [c] | Err e => Err e end) by (destruct res; injection Hrun as <- <-; done).
  destruct Hw as (Ht & Hmsg & Hsent & ->). split_and!; [|done|done|].
  - apply (within_only appID id); rewrite ?Ht; [done| |].
    + intros Hno. specialize (Href Hno). congruence.
    + intros checks c Hc Hin. destruct res as [c'|e]; [|done]. injection Hc as <-. apply list_elem_of_singleton in Hin as ->.
      rewrite ownedByApp_owned by done. by apply Hok.
  - intros Hno. specialize (Href Hno). assert (res = Err ErrCheckNotFound /\ db = tables w) as [-> ->] by (split; congruence).
    split; [done|]. cbn in Hrun. by injection Hrun as <-; destruct w.
Qed.

Lemma create_within appID input now w r w' : wf (tables w) -> appID <> EmptyString ->
  (c ← on_tables (Create store (app_check appID input) now); mret [c]) w = (r, w') ->
  within appID w r w' /\ sent w' = sent w.
Proof.
  intros Hwf Hne Hrun. unfold on_tables, mbind, m_bind in Hrun.
  destruct (Create store (app_check appID input) now (tables w)) as [[c|e] db] eqn:Hcr; injection Hrun as <- <-.
  2: { unfold Create in Hcr. apply WithTx_err in Hcr as ->. split; [|done]. by apply within_same. }
  destruct (Create_ok store _ _ _ _ _ Hwf Hcr) as (Hwf' & -> & Hc & (ids & _ & Hl) & Hp). cbv zeta in Hc.
  set (row := new_row _ _ _) in *. set (id := next_check_id (tables w)) in *.
  assert (Hfresh : heartbeat_checks (tables w) !! id = None).
  { apply eq_None_not_Some. intros [s Hs]. apply (wf_row _ Hwf) in Hs as (_ & Hlt & _). unfold id in Hlt. lia. }
  assert (Hown : owned_by appID row = true /\ AppID row = appID).
  { split; [|done]. unfold owned_by, registry_pg.owned_app. simpl. apply String.eqb_refl. }
  split; [|done]. split_and!; cbn [tables].
  - intros j s Hs _. assert (j <> id) by congruence. split_and!; [by rewrite Hc, lookup_insert_ne|by apply Hp|].
    apply links_eq. intros did. rewrite Hl. naive_solver.
  - intros j s Hs Hnone. rewrite Hc in Hs. apply lookup_insert_Some in Hs as [[<- <-]|[_ Hs]]; [done|congruence].
  - intros checks c [= <-] ->%list_elem_of_singleton. rewrite ownedByApp_owned by done. exact Hown.
Qed.

Lemma scan_owned appID db id r : wf db -> appID <> EmptyString -> heartbeat_checks db !! id = Some r ->
  ownedByApp (scanCheck db id r) appID = true -> AppID (scanCheck db id r) = appID.
Proof.
  intros Hwf Hne Hr Ho. rewrite ownedByApp_owned in Ho by done. destruct (wf_row _ Hwf _ _ Hr) as (_ & _ & Hok).
  change (AppID r = appID). by apply owned_app_id; [apply (ro_constraints _ _ Hok)|].
Qed.

Lemma get_within appID id w r w' : wf (tables w) -> ValidateAppID appID = None ->
  (c ← GetForApp appID id; mret [c]) w = (r, w') ->
  within appID w r w' /\ sent w' = sent w /\
  ((forall row, heartbeat_checks (tables w) !! id = Some row -> owned_by appID row = false) -> r = Err ErrCheckNotFound /\ w' = w).
Proof.
  intros Hwf Hv. destruct (valid_app_text appID Hv) as [_ Hne]. unfold GetForApp, mbind, m_bind. rewrite Hv. cbn.
  unfold on_tables, Get, queryCheckByID. assert (Hw : w {{ tables := tables w }} = w) by by destruct w.
  destruct (heartbeat_checks (tables w) !! id) as [row|] eqn:Hrow; rewrite Hw.
  - destruct (ownedByApp (scanCheck (tables w) id row) appID) eqn:Ho; cbn [negb]; intros [= <- <-].
    + split_and!; [|done|].
      * apply within_same; [done|]. intros checks c [= <-] ->%list_elem_of_singleton. split; [done|by apply scan_owned].
      * intros Hno. rewrite ownedByApp_owned in Ho by done. change (owned_by appID row = true) in Ho. by rewrite (Hno row) in Ho.
    + by split_and!; [apply within_same| |].
  - intros [= <- <-]. by split_and!; [apply within_same| |].
Qed.

Lemma list_within appID w r w' : wf (tables w) -> ValidateAppID appID = None -> ListForApp appID w = (r, w') ->
  within appID w r w' /\ sent w' = sent w.
Proof.
  intros Hwf Hv. destruct (valid_app_text appID Hv) as [Ht Hne]. unfold ListForApp, mbind, m_bind. rewrite Hv. cbn [m_check mret m_ret].
  unfold store_ListByOwner, store_here, World_store, on_tables. assert (Hl : ListByOwner appID (tables w) = queryChecks (owned_by appID) orderByName (tables w))
    by (unfold ListByOwner, params, mbind, m_bind; cbn [forallb]; by rewrite Ht).
  rewrite Hl. intros [= <- <-]. split; [|done].
  apply within_same; [done|]. intros checks c [= <-] [Ho Hin]%list_elem_of_filter. split; [done|].
  rewrite merge_sort_Permutation in Hin. apply list_elem_of_fmap in Hin as ([id row] & -> & [Hrow _]%rows_where_elem).
  by apply scan_owned.
Qed.

Lemma delete_within appID id w r w' : ValidateAppID appID = None -> (_ ← DeleteForApp appID id; mret []) w = (r, w') ->
  within appID w r w' /\ sent w' = sent w /\
  ((forall row, heartbeat_checks (tables w) !! id = Some row -> owned_by appID row = false) ->
   r = Err ErrCheckNotFound /\ tables w' = tables w).
Proof.
  intros Hv Hrun. destruct (valid_app_text appID Hv) as [Ht Hne].
  destruct (DeleteOwned_confined id appID (tables w) Ht) as [Href Honly].
  unfold DeleteForApp, mbind, m_bind in Hrun. rewrite Hv in Hrun. cbn [m_check mret m_ret] in Hrun.
  unfold store_DeleteOwnedBy, store_here, World_store, on_tables in Hrun.
  assert (Hw : tables w' = (DeleteOwnedBy id appID (tables w)).2 /\ sent w' = sent w /\
    r = match (DeleteOwnedBy id appID (tables w)).1 with Ok true => Ok [] | Ok false => Err ErrCheckNotFound | Err e => Err e end)
    by (destruct (DeleteOwnedBy id appID (tables w)) as [[[]|] db]; by injection Hrun as <- <-).
  destruct Hw as (Htab & -> & ->). split_and!; [|done|].
  - apply (within_only appID id); rewrite ?Htab; [done|by intros ->%Href|].
    intros checks c Hc Hin. exfalso. destruct (DeleteOwnedBy id appID (tables w)) as [[[]|] db]; try done.
    injection Hc as <-. by apply elem_of_nil in Hin.
  - intros Hno. rewrite Htab. by rewrite (Href Hno).
Qed.

(** C39: An app reaches only its own checks.  Whatever it asks for, from reachable tables: a check
    it does not own keeps its row, its probe and its destinations; every check created belongs
    to it and pings under its id; every check returned is its own; nothing is submitted; and an
    operation on a check that is absent or owned by anyone else answers that there is no such
    check, the same either way, and changes nothing. *)
Theorem app_confined hold appID op w r w' : reachable store (tables w) ->
  app_run (World_service clk hold) appID op w = (r, w') ->
  within appID w r w' /\ sent w' = sent w /\
  (forall id, target op = Some id -> ValidateAppID appID = None ->
     (forall row, heartbeat_checks (tables w) !! id = Some row -> owned_by appID row = false) ->
     r = Err ErrCheckNotFound /\ tables w' = tables w).
Proof.
  intros Hwf%checks_reachable_wf Hrun. destruct (ValidateAppID appID) as [e|] eqn:Hv.
  { assert (r = Err e /\ tables w' = tables w /\ sent w' = sent w) as (-> & Ht & ->).
    { destruct op; cbn [app_run] in Hrun; unfold CreateForApp, ListForApp, GetForApp, PatchForApp, DeleteForApp, PauseForApp,
        ResumeForApp, mbind, m_bind, ValidateNewCheck in Hrun; cbn in Hrun; rewrite Hv in Hrun; by injection Hrun as <- <-. }
    split_and!; [by apply within_same|done|done]. }
  destruct (valid_app_text appID Hv) as [Ht Hne].
  assert (Hconf : forall id m, confined id appID m -> forall x, (c ← on_tables m; mret [c]) {| tables := tables w; messages := x; sent := sent w |} = (r, w') ->
    target op = Some id -> within appID w r w' /\ sent w' = sent w /\
    (forall id, target op = Some id -> @None error = None -> (forall row, heartbeat_checks (tables w) !! id = Some row -> owned_by appID row = false) ->
     r = Err ErrCheckNotFound /\ tables w' = tables w)).
  { intros id m Hm x Hx Htarget. destruct (confined_run id appID m {| tables := tables w; messages := x; sent := sent w |} Hm Hwf Hne r w' Hx) as (H1 & _ & H2 & H3).
    split_and!; [exact H1|exact H2|]. rewrite Htarget. intros ? [= <-] _ Hno. destruct (H3 Hno) as [-> ->]. done. }
  destruct op as [input| |id|id p|id|id|id]; cbn [app_run target] in *.
  - unfold CreateForApp, clock, mbind, m_bind in Hrun. destruct (ValidateNewCheck _) as [e|].
    { injection Hrun as <- <-. by split_and!; [apply within_same|..]. }
    cbn [now World_service] in Hrun. unfold clock in Hrun. cbn in Hrun. destruct (clk (messages w)) as [t x].
    by destruct (create_within appID input t {| tables := tables w; messages := x; sent := sent w |} r w' Hwf Hne Hrun).
  - destruct (list_within appID w r w' Hwf Hv Hrun). by split_and!.
  - destruct (get_within appID id w r w' Hwf Hv Hrun) as (H1 & H2 & H3). split_and!; [done..|]. intros ? [= <-] _ Hno.
    by destruct (H3 Hno) as [-> ->].
  - unfold PatchForApp, mbind, m_bind in Hrun. rewrite Hv in Hrun. cbn [m_check mret m_ret] in Hrun. destruct (IsEmpty p).
    + destruct (get_within appID id w r w' Hwf Hv Hrun) as (H1 & H2 & H3). split_and!; [done..|]. intros ? [= <-] _ Hno.
      by destruct (H3 Hno) as [-> ->].
    + unfold clock in Hrun. cbn in Hrun. destruct (clk (messages w)) as [t x].
      refine (Hconf id (PatchOwnedBy store id appID p t) _ x Hrun eq_refl). by apply patch_confined.
  - destruct (delete_within appID id w r w' Hv Hrun) as (H1 & H2 & H3). split_and!; [done..|]. intros ? [= <-] _. exact H3.
  - unfold PauseForApp in Hrun. unfold mbind, m_bind in Hrun. rewrite Hv in Hrun. unfold clock in Hrun. cbn in Hrun. destruct (clk (messages w)) as [t x].
    refine (Hconf id (PauseOwnedBy id appID t) _ x Hrun eq_refl).
    apply mutate_confined; [done|apply preserved_ApplyPause|apply ApplyPause_wf'].
  - unfold ResumeForApp in Hrun. unfold mbind, m_bind in Hrun. rewrite Hv in Hrun. unfold clock in Hrun. cbn in Hrun. destruct (clk (messages w)) as [t x].
    refine (Hconf id (ResumeOwnedBy id appID t) _ x Hrun eq_refl).
    apply mutate_confined; [done|intros; apply preserved_ApplyResume|intros; by apply ApplyResume_wf'].
Qed.
End apps.
End heartbeat_apps.
