(* ===== verification/HeartbeatDemo.v ===== *)
(** * HeartbeatDemo

    Concrete runs of the heartbeat store, service and prober: the theorems of the
    component applied where their hypotheses hold. *)

From S2P Require Import Prelude GoText Utf8 GoFormat Idents Std Seal Registry RegistryStore RegistryProps Message MessageValidate Heartbeat HeartbeatProps HeartbeatSeal HeartbeatStore HeartbeatInv HeartbeatSteps HeartbeatStoreProps HeartbeatOutbox HeartbeatService HeartbeatProber HeartbeatAlerts HeartbeatServiceProps HeartbeatApps.
Open Scope Z_scope.
Import heartbeat heartbeat_seal heartbeat_pg heartbeat_steps.

Module heartbeat_demo.
#[local] Existing Instance toy_std.

Lemma id_perm {A} (l : list A) : l ≡ₚ l.
Proof. done. Qed.

Definition demo_store : PGStore :=
  {| sealer := None; nonce := fun _ => None; locked := fun _ => ∅;
     planner := {| scan_order := fun l => l; scan_order_perm := id_perm; returning_order := fun l => l; returning_order_perm := id_perm |} |}.

(** ** The tables: one phone, a push check of the app and a probe check *)

Definition with_phone : DB := empty_db {{ registry_db := (registry_pg.pg_InsertDestination registry_demo.demo_destination registry_pg.empty_db).2 }}.

Definition push_check : NewCheck :=
  {| New_AppID := "chores"; New_Name := "backup"; New_PeriodSeconds := 60; New_GraceSeconds := 60;
     New_DestinationNames := ["phone"]; New_OwnerKind := registry.OwnerApp; New_OwnerAppID := Some "chores"; New_Probe := None;
     New_AccessToken := None; ScheduleSupplied := false |}.
Definition probe_config : ProbeConfig :=
  {| URL := "https://example.org/health"; ExpectedStatuses := [200]; BodyMatch := Some "ok"; TimeoutSeconds := 5; IntervalSeconds := 3600 |}.
Definition probe_check : NewCheck :=
  {| New_AppID := "site"; New_Name := "web"; New_PeriodSeconds := 0; New_GraceSeconds := 0;
     New_DestinationNames := ["phone"]; New_OwnerKind := registry.OwnerOperator; New_OwnerAppID := None;
     New_Probe := Some probe_config; New_AccessToken := None; ScheduleSupplied := false |}.

Definition demo_pushed : DB := (Create demo_store push_check 0 with_phone).2.
Definition demo_db : DB := (Create demo_store probe_check 0 demo_pushed).2.
(** Two hours later: the push check is down. *)
Definition hours (n : Z) : Z := n * 3600 * Second.
Definition demo_down : DB := (AdvanceDue (hours 2) demo_db).2.

Lemma with_phone_step : step demo_store empty_db with_phone.
Proof.
  apply step_registry; [|vm_compute; reflexivity]. apply (registry_pg.step_insert_destination registry_pg.empty_db registry_demo.demo_destination).
Qed.
Lemma demo_checks_reachable : reachable demo_store demo_db.
Proof.
  eapply rtc_l; [apply with_phone_step|]. eapply rtc_l; [apply (step_create demo_store with_phone push_check 0)|].
  apply rtc_once, (step_create demo_store demo_pushed probe_check 0).
Qed.
Lemma demo_down_reachable : reachable demo_store demo_down.
Proof. eapply rtc_r; [apply demo_checks_reachable|]. apply (step_advance demo_store demo_db (hours 2)). Qed.
Definition row (id : Z) (db : DB) : StoredCheck := default (new_row 0 push_check 0) (heartbeat_checks db !! id).
Definition probe_row (id : Z) (db : DB) : ProbeRow :=
  default {| config := probe_config; consecutive_failures := 0; next_probe_at := 0; config_version := 0; last_result := None;
             down_detail := None; sealed_access_headers := None |} (heartbeat_check_probes db !! id).

Definition demo_check : StoredCheck := scanCheck demo_down 1 (row 1 demo_down).

(** The phone cannot be deleted from under the check. *)
Lemma store_invariant_witness : Get 1 demo_down = (Ok demo_check, demo_down) /\ check_wf heartbeat_inv.int4_max demo_check /\
  (registry_pg.pg_DeleteDestination "phone" (registry_db demo_down)).1 = Err registry.ErrDestinationInUse.
Proof.
  assert (Hget : Get 1 demo_down = (Ok demo_check, demo_down)) by (vm_compute; reflexivity).
  destruct (heartbeat_store_props.store_invariant demo_store demo_down 1 demo_check demo_down_reachable Hget)
    as (_ & _ & _ & _ & _ & _ & Hwf & _ & _ & Hdest & _).
  split; [exact Hget|]. split; [exact Hwf|].
  destruct (Hdest {| Ref_Name := "phone"; Ref_Type := "ntfy"; Ref_Enabled := true |}) as (_ & _ & _ & Hdel); [|exact Hdel].
  assert (Hlist : Destinations demo_check = [{| Ref_Name := "phone"; Ref_Type := "ntfy"; Ref_Enabled := true |}]) by (vm_compute; reflexivity).
  rewrite Hlist. left.
Defined.

Definition demo_claim : result (list ProbeClaim) * DB := ClaimDueProbes demo_store (hours 2) 5 demo_db.

Lemma ClaimDueProbes_exact_witness :
  exists claims, demo_claim.1 = Ok claims /\ CheckID <$> claims = [2] /\
  Z.of_nat (length claims) = Z.min 5 (Z.of_nat (length (due_probes demo_store (hours 2) demo_db))).
Proof.
  exists (match demo_claim.1 with Ok l => l | Err _ => [] end). split; [vm_compute; reflexivity|]. split; [vm_compute; reflexivity|].
  exact (proj1 (heartbeat_store_props.ClaimDueProbes_exact demo_store (hours 2) 5 demo_db
    (match demo_claim.1 with Ok l => l | Err _ => [] end) demo_claim.2 demo_checks_reachable ltac:(vm_compute; reflexivity))).
Defined.

Definition demo_paused : result StoredCheck * DB := Pause 2 (hours 1) demo_db.

(** A result claimed before the pause comes too late. *)
Definition demo_result : ProbeResult := heartbeat_prober.failedProbe ReasonTimeout None (heartbeat_prober.timeoutDetail 5).
Lemma stale_result_discarded_witness :
  RecordProbeResult 2 (config_version (probe_row 2 demo_db)) demo_result (hours 1) 0 demo_paused.2 = (Ok None, demo_paused.2).
Proof.
  destruct (heartbeat_store_props.stale_result_discarded demo_store demo_db 2 (row 2 demo_db) (probe_row 2 demo_db) (hours 1)
    (match demo_paused.1 with Ok c => c | Err _ => row 2 demo_db end) demo_paused.2) as [Hdiscard _].
  - exact demo_checks_reachable.
  - vm_compute. reflexivity.
  - vm_compute. reflexivity.
  - vm_compute. split; discriminate.
  - left. split; vm_compute; reflexivity.
  - apply Hdiscard.
Defined.

Lemma AdvanceDue_exact_witness :
  heartbeat_checks demo_down !! 1 = Some (heartbeat_store_props.ticked (hours 2) (row 1 demo_db)) /\ heartbeat_checks demo_down !! 2 = Some (row 2 demo_db).
Proof.
  destruct (heartbeat_store_props.AdvanceDue_exact demo_store (hours 2) demo_db
    (match (AdvanceDue (hours 2) demo_db).1 with Ok l => l | Err _ => [] end) demo_down) as (Hdown & Hkept & _).
  - exact demo_checks_reachable.
  - vm_compute. reflexivity.
  - split.
    + apply Hdown; [vm_compute; reflexivity|]. vm_compute. repeat split; congruence.
    + apply Hkept; [vm_compute; reflexivity|]. vm_compute. intros (_ & _ & Hlt). discriminate.
Defined.

Lemma AdvanceDue_succeeds_witness : exists advanced db', AdvanceDue (hours 2) demo_db = (Ok advanced, db').
Proof.
  apply (heartbeat_store_props.AdvanceDue_succeeds demo_store); [exact demo_checks_reachable|].
  assert (Hall : map_Forall (fun _ r => AlertSeq r < heartbeat_inv.int4_max) (heartbeat_checks demo_db))
    by (apply (bool_decide_unpack _); vm_compute; reflexivity).
  exact Hall.
Defined.

(** A second tick leaves the down check's alert where it is. *)
Lemma alert_accounted_witness : exists r', heartbeat_checks (AdvanceDue (hours 3) demo_down).2 !! 1 = Some r' /\
  PendingAlert r' = Some AlertDown /\ AlertSeq r' = 1.
Proof.
  destruct (heartbeat_outbox.alert_accounted demo_store demo_down (AdvanceDue (hours 3) demo_down).2 1 (row 1 demo_down) AlertDown)
    as [[_ Hclear]|[Hnone|(r' & Hr' & _)]].
  - exact demo_down_reachable.
  - apply step_advance.
  - vm_compute. reflexivity.
  - vm_compute. reflexivity.
  - exfalso. apply (f_equal (fun db => PendingAlert (row 1 db))) in Hclear. vm_compute in Hclear. discriminate.
  - exfalso. vm_compute in Hnone. discriminate.
  - exists r'. split; [exact Hr'|]. vm_compute in Hr'. injection Hr' as <-. split; reflexivity.
Defined.

(** ** The service *)

Lemma store_alerts_accepted_witness : exists envelope,
  heartbeat_service.buildAlertEnvelope demo_check AlertDown "phone" = Ok envelope /\ validate.ValidateEnvelope envelope = None /\
  message.IdempotencyKey envelope = "hb:1:1:phone".
Proof.
  destruct (heartbeat_alerts.store_alerts_accepted demo_store demo_down (heartbeat_service_props.pending_checks demo_down) demo_down
    demo_check {| Ref_Name := "phone"; Ref_Type := "ntfy"; Ref_Enabled := true |} AlertDown) as (envelope & Hbuild & Hvalid & _).
  - exact demo_down_reachable.
  - vm_compute. discriminate.
  - reflexivity.
  - assert (Hpend : heartbeat_service_props.pending_checks demo_down = [demo_check]) by (vm_compute; reflexivity).
    rewrite Hpend. left.
  - assert (Hlist : Destinations demo_check = [{| Ref_Name := "phone"; Ref_Type := "ntfy"; Ref_Enabled := true |}]) by (vm_compute; reflexivity).
    rewrite Hlist. left.
  - vm_compute. reflexivity.
  - assert (Hpend : heartbeat_service_props.pending_checks demo_down = [demo_check]) by (vm_compute; reflexivity).
    rewrite Hpend. intros x t ->%list_elem_of_singleton.
    assert (Hp : LastPingAt demo_check = None) by (vm_compute; reflexivity).
    assert (Hd : DownSince demo_check = Some (hours 2)) by (vm_compute; reflexivity).
    rewrite Hp, Hd. intros [[=]|[= <-]]. vm_compute. split; [discriminate|reflexivity].
  - exists envelope. split; [exact Hbuild|]. split; [exact Hvalid|]. vm_compute in Hbuild. injection Hbuild as <-. reflexivity.
Defined.

(** A message service that stores whatever it is given, and a clock that stands. *)
Definition demo_submit (envelope : message.Envelope) (t : Z) : result (message.StoredMessage * message.SubmitOutcome) * Z :=
  (Ok ({| message.Message_ID := "m"; message.Message_Envelope := envelope; message.Message_CreatedAt := t; message.CancelledAt := None;
          message.HeldAt := None; message.ReleasedAt := None; message.HeldCancelledAt := None; message.ReleaseFailedAt := None;
          message.ReleaseFailedReason := EmptyString; message.Deliveries := [] |},
       {| message.Duplicate := false; message.Replaced := false; message.Scheduled := false; message.Held := false |}), t).
Definition demo_clock (t : Z) : Z * Z := (t, t).
Definition demo_world (t : Z) : heartbeat_service_props.World Z :=
  {| heartbeat_service_props.tables := demo_db; heartbeat_service_props.messages := t; heartbeat_service_props.sent := [] |}.

Definition demo_tick : result unit * heartbeat_service_props.World Z :=
  heartbeat_service.Tick (H0 := heartbeat_service_props.World_store demo_store) (H1 := heartbeat_service_props.World_messages demo_submit)
    (heartbeat_service_props.World_service demo_clock 0) (demo_world (hours 2)).

(** One tick takes the push check down, submits its one alert and clears it. *)
Lemma Tick_exact_witness : demo_tick.1 = Ok tt /\ length (heartbeat_service_props.sent demo_tick.2) = 1%nat /\
  heartbeat_service_props.pending_checks (heartbeat_service_props.tables demo_tick.2) = [].
Proof.
  assert (Hok : demo_tick.1 = Ok tt) by (vm_compute; reflexivity). split; [exact Hok|]. split; [vm_compute; reflexivity|].
  destruct (heartbeat_service_props.Tick_exact demo_store demo_submit demo_clock 0 demo_db (hours 2) demo_tick.1 demo_tick.2
    demo_checks_reachable ltac:(vm_compute; reflexivity)) as [(_ & _ & [e He] & _)|(db1 & log & _ & _ & _ & _ & _ & _ & _ & Hempty)].
  - rewrite Hok in He. discriminate.
  - exact (Hempty Hok).
Defined.

(** Another app cannot touch the check, nor learn that it is there. *)
Lemma app_confined_witness :
  (heartbeat_apps.app_run demo_store (heartbeat_service_props.World_service demo_clock 0) "garden" (heartbeat_apps.AppDelete 1)
     (demo_world 0)).1 = Err ErrCheckNotFound.
Proof.
  destruct (heartbeat_apps.app_confined demo_store demo_clock 0 "garden" (heartbeat_apps.AppDelete 1) (demo_world 0)
    (heartbeat_apps.app_run demo_store (heartbeat_service_props.World_service demo_clock 0) "garden" (heartbeat_apps.AppDelete 1) (demo_world 0)).1
    (heartbeat_apps.app_run demo_store (heartbeat_service_props.World_service demo_clock 0) "garden" (heartbeat_apps.AppDelete 1) (demo_world 0)).2
    demo_checks_reachable (surjective_pairing _)) as (_ & _ & Hrefused).
  apply (Hrefused 1); [reflexivity|vm_compute; reflexivity|].
  intros r Hr. vm_compute in Hr. injection Hr as <-. vm_compute. reflexivity.
Defined.

(** ** The prober *)

Definition demo_prober : heartbeat_prober.ProberConfig :=
  {| heartbeat_prober.HasStore := true; heartbeat_prober.HasHoldOffUntil := true; heartbeat_prober.HasClient := true;
     heartbeat_prober.HasFreshness := true; heartbeat_prober.Prober_Interval := heartbeat_prober.DefaultProberInterval;
     heartbeat_prober.Concurrency := 1 |}.
Definition demo_start : heartbeat_prober.Prober DB :=
  {| heartbeat_prober.shared := demo_db; heartbeat_prober.inFlight := []; heartbeat_prober.freshness := heartbeat_service.NewFreshness |}.
Definition demo_client : heartbeat_prober.Request -> heartbeat_prober.outcome := fun _ =>
  heartbeat_prober.Response 200 {| heartbeat_prober.content := bytes "all ok"; heartbeat_prober.failure := None |}.
Definition demo_now (db : DB) : Z * DB := (hours 2, db).
Definition demo_probed : heartbeat_prober.Prober DB :=
  heartbeat_prober.RunProber (H0 := PGStore_Store demo_store) demo_prober demo_now 0 None demo_client false [] demo_start.

(** The probe is claimed at once; its result takes the check up before the prober returns. *)
Lemma RunProber_bounded_witness : heartbeat_prober.inFlight demo_probed = [] /\
  State (row 2 (heartbeat_prober.shared demo_probed)) = StateUp.
Proof.
  split; [|vm_compute; reflexivity].
  exact (proj1 (proj2 (heartbeat_prober_props.RunProber_bounded demo_store demo_prober demo_now 0 None demo_client false [] demo_start eq_refl))).
Defined.

(** ** Sealing *)

(** A checksum that tells any two additional data apart. *)
Definition binding_aead : seal.AEAD := {|
  seal.aead_seal _ pt aad := pt ++ replicate seal.tagSize (Z.pos (countable.encode aad));
  seal.aead_open _ body aad :=
    let n := (length body - seal.tagSize)%nat in
    if bool_decide (drop n body = replicate seal.tagSize (Z.pos (countable.encode aad))) then Some (take n body) else None
|}.

Lemma binding_drop pt tag : drop (length (pt ++ replicate seal.tagSize tag) - seal.tagSize)%nat (pt ++ replicate seal.tagSize tag) =
  replicate seal.tagSize tag :> list Z.
Proof. rewrite length_app, length_replicate, Nat.add_sub. by rewrite drop_app_length. Qed.

Lemma binding_laws : seal.AEAD_laws binding_aead.
Proof.
  split; intros; cbn [seal.aead_open seal.aead_seal binding_aead]; [|by rewrite length_app, length_replicate].
  rewrite binding_drop, bool_decide_eq_true_2 by done. rewrite length_app, length_replicate, Nat.add_sub. by rewrite take_app_length.
Qed.

Lemma access_token_roundtrip_witness : exists sealed,
  sealProbeAccessToken (Some {| seal.aead := binding_aead; seal.previousAEAD := None |}) (Some (replicate 12 7)) 2
    {| ClientID := "id"; ClientSecret := "secret" |} = Ok sealed /\
  OpenProbeAccessToken (Some {| seal.aead := binding_aead; seal.previousAEAD := None |}) 3 sealed = Err seal.ErrDecrypt.
Proof.
  destruct (access_token_roundtrip {| seal.aead := binding_aead; seal.previousAEAD := None |} (replicate 12 7) 2
    {| ClientID := "id"; ClientSecret := "secret" |} binding_laws eq_refl eq_refl eq_refl) as (sealed & Hseal & _ & Hother & _).
  - discriminate.
  - discriminate.
  - intros pt aad aad' Hne. cbn [seal.aead_open seal.aead_seal seal.aead binding_aead]. rewrite binding_drop.
    rewrite bool_decide_eq_false_2; [reflexivity|]. intros Heq. apply (f_equal head) in Heq. injection Heq as Heq.
    apply Hne, (inj countable.encode). exact Heq.
  - reflexivity.
  - exists sealed. split; [exact Hseal|]. apply Hother. discriminate.
Defined.
End heartbeat_demo.
