(* ===== verification/Identity.v ===== *)
(** * Identity

    Package [appidentity]: the app key (key.go), the verified claims and the binding
    they are compared with (verifier.go, store.go), the settings (config.go) and the
    operator's view of a key (admin.go). *)

From S2P Require Import Prelude GoText Utf8 Sha256 Base64 MessageValidate.
Open Scope Z_scope.

Module appidentity.

(** ** key.go *)

Definition KeyPrefix : string := "dak_".
Definition keyRandomBytes : Z := 32.
Definition keyRandomChars : Z := 43.
Definition keyHintRandomChars : Z := 4.
Definition SupersededGrace : Z := 24 * Hour.

(** [^dak_[A-Za-z0-9_-]{43}$] *)
Definition keyPattern (key : string) : bool :=
  match cut_prefix KeyPrefix key with
  | Some rest => match_repeat is_word_dash keyRandomChars keyRandomChars rest
  | None => false
  end.

(** [random] is what crypto/rand answers: the bytes, or nothing on a failed read. *)
Definition NewKey (random : option (list Z)) : result string :=
  match random with
  | None => Err (errors_New "generate app key")
  | Some random => Ok (KeyPrefix +:+ base64url.EncodeToString random)
  end.

Definition WellFormedKey (key : string) : bool := keyPattern key.

Definition HashKey (key : string) : list Z := sha256.Sum256 (bytes key).

(** [key[:n]] of a well-formed key, which is longer. *)
Definition KeyHint (key : string) : string :=
  if negb (WellFormedKey key) then EmptyString
  else of_bytes (take (Z.to_nat (len KeyPrefix + keyHintRandomChars)) (bytes key)).

Inductive KeyState : Type := KeyActive | KeySuperseded | KeyRevoked.
#[global] Instance KeyState_dec : EqDecision KeyState.
Proof. solve_decision. Defined.

Record KeyRecord := { SupersededAt : option Z; RevokedAt : option Z }.

Definition Valid (record : KeyRecord) (now : Z) : bool :=
  match RevokedAt record with
  | Some _ => false
  | None =>
    match SupersededAt record with
    | None => true
    | Some at_ => time.Before now (time.Add at_ SupersededGrace)
    end
  end.

Definition State (record : KeyRecord) (now : Z) : KeyState :=
  if negb (Valid record now) then KeyRevoked
  else if bool_decide (is_Some (SupersededAt record)) then KeySuperseded
  else KeyActive.

(** ** Claims and bindings *)

Definition ClockLeeway : Z := 60 * Second.

Record Claims := {
  Claims_Repository : string;
  Claims_RepositoryID : Z;
  Claims_RepositoryOwnerID : Z;
  Claims_WorkflowPath : string;
  Claims_Ref : string;
  Claims_Environment : string;
  RunID : string;
  JTI : string;
  ExpiresAt : Z
}.

Definition ReplayExpiry (claims : Claims) : Z := time.Add (ExpiresAt claims) ClockLeeway.

Definition ErrInvalidToken : error := Sentinel "invalid identity token".
Definition ErrReplayed : error := Wrap "invalid identity token: jti already used" [ErrInvalidToken].
Definition ErrKeysUnavailable : error := Sentinel "identity token signing keys unavailable".

Definition MaxPendingRequests : Z := 20.
Definition ErrPendingCap : error := Sentinel "too many pending identity requests".
Definition ErrInvalidKey : error := Sentinel "invalid app key".
Definition ErrBindingAppeared : error := Sentinel "app binding appeared while filing a request".

Record Binding := {
  AppID : string;
  Repository : string;
  RepositoryID : Z;
  RepositoryOwnerID : Z;
  WorkflowPath : string;
  Ref : string;
  Environment : string;
  ApprovedAt : Z
}.

Definition Matches (binding : Binding) (claims : Claims) : bool :=
  (RepositoryID binding =? Claims_RepositoryID claims) &&
  (RepositoryOwnerID binding =? Claims_RepositoryOwnerID claims) &&
  String.eqb (WorkflowPath binding) (Claims_WorkflowPath claims) &&
  String.eqb (Ref binding) (Claims_Ref claims) &&
  String.eqb (Environment binding) (Claims_Environment claims).

Record IssuedKey := { Issued_ID : Z; Plaintext : string; Issued_Hint : string }.
Record ResolvedKey := { Resolved_ID : Z; Resolved_AppID : string; Resolved_Hint : string }.

(** ** config.go *)

Definition AudienceEnvVar : string := "DELIVERY_OIDC_AUDIENCE".
Definition JWKSFileEnvVar : string := "DELIVERY_OIDC_JWKS_FILE".
Definition DevModeEnvVar : string := "DELIVERY_OIDC_DEV_MODE".
Definition PendingRequestDaysEnvVar : string := "DELIVERY_PENDING_IDENTITY_REQUEST_DAYS".
Definition DefaultAudience : string := "notifs-delivery".
Definition DefaultPendingRequestDays : Z := 7.
Definition MaxPendingRequestDays : Z := 365.
Definition maxAudienceChars : Z := 200.
Definition hoursPerDay : Z := 24.

(** [^[\x21-\x7e]{1,200}$] *)
Definition audiencePattern : string -> bool :=
  match_repeat (fun c => (33 <=? byte_val c) && (byte_val c <=? 126)) 1 maxAudienceChars.

Record Config := { Audience : string; JWKSFile : string; DevMode : bool; PendingRequestTTL : Z }.

Definition pending_request_ttl (getenv : string -> string) : result Z :=
  let rawDays := getenv PendingRequestDaysEnvVar in
  if String.eqb rawDays EmptyString then Ok (DefaultPendingRequestDays * hoursPerDay * Hour)
  else match envint.Atoi rawDays with
  | None => Err (errors_New ("invalid " +:+ PendingRequestDaysEnvVar))
  | Some days =>
    if (days <? 1) || (MaxPendingRequestDays <? days)
    then Err (errors_New ("invalid " +:+ PendingRequestDaysEnvVar))
    else Ok (wrap64 (wrap64 (wrap64 days * hoursPerDay) * Hour))
  end.

Definition audience_setting (getenv : string -> string) : result string :=
  let audience := getenv AudienceEnvVar in
  if String.eqb audience EmptyString then Ok DefaultAudience
  else if negb (audiencePattern audience) then Err (errors_New ("invalid " +:+ AudienceEnvVar))
  else Ok audience.

Definition dev_mode (getenv : string -> string) : result bool :=
  let value := getenv DevModeEnvVar in
  if existsb (String.eqb value) [EmptyString; "0"] then Ok false
  else if String.eqb value "1" then Ok true
  else Err (errors_New ("invalid " +:+ DevModeEnvVar +:+ ": must be empty, 0 or 1")).

Definition ConfigFromEnv (getenv : string -> string) : result Config :=
  ttl ← pending_request_ttl getenv;
  audience ← audience_setting getenv;
  devMode ← dev_mode getenv;
  let file := getenv JWKSFileEnvVar in
  if negb (String.eqb file EmptyString) && negb devMode
  then Err (errors_New (JWKSFileEnvVar +:+ " requires " +:+ DevModeEnvVar +:+ "=1"))
  else Ok {| Audience := audience; JWKSFile := file; DevMode := devMode; PendingRequestTTL := ttl |}.

(** ** admin.go *)

Definition RejectedRequestWindow : Z := 30 * 24 * Hour.
Definition RequestPending : string := "pending".
Definition RequestRejected : string := "rejected".
Definition RevokedReasonOperator : string := "operator".
Definition RevokedReasonSuperseded : string := "superseded".

Definition ErrRequestNotFound : error := Sentinel "registration request does not exist".
Definition ErrRequestNotPending : error := Sentinel "registration request is not pending".
Definition ErrAppAlreadyBound : error := Sentinel "app already bound".
Definition ErrWorkflowIdentityBound : error := Sentinel "workflow identity already bound".
Definition ErrAppIDOverlap : error := Sentinel "app id overlaps an approved app id".
Definition ErrRequestChanged : error := Sentinel "registration request changed during approval".
Definition ErrAppRegistryUnavailable : error := Sentinel "app registry unavailable".
Definition ErrAppRegistryNotConfigured : error := Sentinel "app registry is not configured".
Definition ErrAppIDReserved : error := Sentinel "app id is reserved".
Definition ErrKeyNotFound : error := Sentinel "app key does not exist".

Record Request := {
  Request_ID : Z;
  Request_AppID : string;
  Request_Repository : string;
  Request_RepositoryID : Z;
  Request_RepositoryOwnerID : Z;
  Request_WorkflowPath : string;
  Request_Ref : string;
  Request_Environment : string;
  GitHubRunID : string;
  Status : string;
  Request_CreatedAt : Z;
  Request_UpdatedAt : Z;
  DecidedAt : option Z
}.

Record Key := {
  Key_ID : Z;
  Key_AppID : string;
  Key_Hint : string;
  Key_State : KeyState;
  Key_CreatedAt : Z;
  Key_SupersededAt : option Z;
  Key_RevokedAt : option Z;
  RevokedReason : string;
  Key_LastUsedAt : option Z
}.

Record BindingWithKeys := { Listed_Binding : Binding; Keys : list Key }.

Record storedKey := {
  Stored_ID : Z;
  Stored_AppID : string;
  Stored_Hint : string;
  Stored_CreatedAt : Z;
  Stored_SupersededAt : option Z;
  Stored_RevokedAt : option Z;
  Stored_RevokedReason : option string;
  Stored_LastUsedAt : option Z
}.

(** [*stored.SupersededAt] is read only of a key that is neither valid nor revoked,
    which [toKey_superseded] shows is superseded. *)
Definition toKey (stored : storedKey) (now : Z) : Key :=
  let record := {| SupersededAt := Stored_SupersededAt stored; RevokedAt := Stored_RevokedAt stored |} in
  let key := {| Key_ID := Stored_ID stored; Key_AppID := Stored_AppID stored; Key_Hint := Stored_Hint stored;
    Key_State := State record now; Key_CreatedAt := Stored_CreatedAt stored;
    Key_SupersededAt := Stored_SupersededAt stored; Key_RevokedAt := None; RevokedReason := EmptyString;
    Key_LastUsedAt := Stored_LastUsedAt stored |} in
  if bool_decide (State record now <> KeyRevoked) then key
  else match Stored_RevokedAt stored with
  | Some _ => key {{ Key_RevokedAt := Stored_RevokedAt stored;
                     RevokedReason := default RevokedReasonOperator (Stored_RevokedReason stored) }}
  | None =>
    let graceEnd := time.Add (default 0 (Stored_SupersededAt stored)) SupersededGrace in
    key {{ Key_RevokedAt := Some graceEnd; RevokedReason := RevokedReasonSuperseded }}
  end.

(** ** Keys *)

Lemma Valid_spec r now : Valid r now = true <->
  RevokedAt r = None /\ forall t, SupersededAt r = Some t -> now < t + SupersededGrace.
Proof.
  unfold Valid, time.Before, time.Add. destruct (RevokedAt r); [by split; [|intros [? _]]|].
  destruct (SupersededAt r) as [t|]; [rewrite Z.ltb_lt|]; split; try done.
  - intros H. split; [done|]. by intros ? [= <-].
  - intros [_ H]. by apply H.
Qed.

Lemma toKey_superseded stored now :
  State {| SupersededAt := Stored_SupersededAt stored; RevokedAt := Stored_RevokedAt stored |} now = KeyRevoked ->
  Stored_RevokedAt stored = None -> is_Some (Stored_SupersededAt stored).
Proof.
  unfold State. destruct (Valid _ _) eqn:Hv; simpl; [by case_bool_decide|]. intros _ Hr.
  destruct (Stored_SupersededAt stored) eqn:Hs; [by eexists|]. unfold Valid in Hv. simpl in Hv. by rewrite Hr in Hv.
Qed.

(** A key that stopped working stays so, whatever else is written to its row. *)
Lemma Valid_mono r r' now now' : now <= now' ->
  (RevokedAt r = None -> RevokedAt r' = None -> SupersededAt r' = SupersededAt r \/ SupersededAt r = None) ->
  (is_Some (RevokedAt r) -> is_Some (RevokedAt r')) ->
  Valid r now = false -> Valid r' now' = false.
Proof.
  intros Hle Hs Hr. rewrite <- !not_true_iff_false. intros Hn [Hr' Ht]%Valid_spec. apply Hn, Valid_spec.
  assert (RevokedAt r = None) as Hrn by (destruct (RevokedAt r); [destruct (Hr ltac:(by eexists)); congruence|done]).
  split; [done|]. intros t Hst. destruct (Hs Hrn Hr') as [He|He]; [|congruence].
  rewrite He in Ht. specialize (Ht t Hst). lia.
Qed.

Lemma all_word_dash cs : Forall base64url.char_byte cs -> all_chars is_word_dash (of_bytes cs) = true.
Proof.
  intros H. rewrite all_chars_of_bytes. apply forallb_Forall. eapply Forall_impl; [exact H|]. intros b Hb. simpl.
  unfold base64url.char_byte in Hb. unfold is_word_dash, is_lower, is_upper, is_digit, in_range.
  rewrite !byte_val_of by lia. change (byte_val "a") with 97. change (byte_val "z") with 122.
  change (byte_val "A") with 65. change (byte_val "Z") with 90. change (byte_val "0") with 48. change (byte_val "9") with 57.
  rewrite !orb_true_iff, !andb_true_iff, !Z.leb_le.
  destruct Hb as [H1|[H1|[H1|[-> | ->]]]]; [left; left; left; right|left; left; left; left|left; left; right|right|left; right];
    try lia; reflexivity.
Qed.

(** A fresh key has the shape every presented key is checked for, and its hint is not empty. *)
Lemma NewKey_well_formed random key : length random = Z.to_nat keyRandomBytes ->
  NewKey (Some random) = Ok key -> WellFormedKey key = true /\ len (KeyHint key) = 8.
Proof.
  intros Hl [= <-]. destruct (base64url.Encode_shape random) as [Hch Hlen].
  change (Z.to_nat keyRandomBytes) with 32%nat in Hl. rewrite Hl in Hlen.
  change (8 * 32 + (6 - 8 * 32 mod 6) mod 6)%nat with 258%nat in Hlen.
  assert (Hwf : WellFormedKey (KeyPrefix +:+ base64url.EncodeToString random) = true).
  { unfold WellFormedKey, keyPattern. rewrite (proj2 (cut_prefix_spec _ _ _) eq_refl). unfold match_repeat.
    pose proof (all_word_dash _ Hch) as Hall. rewrite of_bytes_bytes in Hall.
    rewrite Hall, len_bytes, !andb_true_iff, !Z.leb_le. unfold keyRandomChars.
    split; [lia|done]. }
  split; [done|]. unfold KeyHint. rewrite Hwf. cbn [negb]. rewrite len_of_bytes, length_take.
  pose proof (len_bytes (KeyPrefix +:+ base64url.EncodeToString random)) as Hb. rewrite len_app, (len_bytes (base64url.EncodeToString _)) in Hb.
  change (len KeyPrefix) with 4 in Hb |- *. change (Z.to_nat (4 + keyHintRandomChars)) with 8%nat. lia.
Qed.
End appidentity.
