(* ===== verification/IdentityStore.v ===== *)
(** * IdentityStore

    The tables of migration 0008 and the Postgres store of package [appidentity]
    (pgstore.go, pgstore_admin.go), with the interfaces it implements (store.go,
    admin.go).

    Times are stored at microsecond precision, which [storeTime] truncates every time
    to before it is written; app_bindings.created_at, which nothing reads, is left
    out. *)

From S2P Require Import Prelude GoText Utf8 Idents Identity.
Open Scope Z_scope.
Import appidentity.

(** ** store.go and admin.go *)

(** [ExchangeTx]: the operations within an exchange's transaction. *)
Class ExchangeTx (T : Type) := {
  RecordJTI : string -> Z -> M T bool;
  LockBinding : string -> M T (option Binding);
  FilePendingRequest : string -> Claims -> Z -> M T Z;
  IssueKey : string -> string -> Z -> M T IssuedKey
}.

(** [Store]: [Exchange fn] runs [fn] in one transaction, of state [T]. *)
Class IdentityStore (S T : Type) := {
  store_Exchange {A} : M T A -> M S A;
  store_ResolveKey : string -> Z -> M S ResolvedKey;
  store_TouchKey : Z -> Z -> M S bool;
  store_DeleteExpiredReplay : Z -> M S Z
}.

Class AdminStore (S : Type) := {
  admin_ListRequests : Z -> M S (list Request);
  admin_ApproveRequest : Z -> string -> Z -> M S Binding;
  admin_GetRequest : Z -> M S Request;
  admin_RejectRequest : Z -> Z -> M S Request;
  admin_ListBindings : Z -> M S (list BindingWithKeys);
  admin_RevokeKey : Z -> Z -> M S Key;
  admin_Unbind : string -> M S bool;
  admin_BindingExists : string -> M S bool
}.

Module identity_pg.

(** ** Tables *)

Record BindingRow := {
  b_repository : string;
  b_repository_id : Z;
  b_owner_id : Z;
  b_workflow_path : string;
  b_git_ref : string;
  b_environment : option string;
  approved_at : Z
}.

Record RequestRow := {
  r_app_id : string;
  r_repository : string;
  r_repository_id : Z;
  r_owner_id : Z;
  r_workflow_path : string;
  r_git_ref : string;
  r_environment : option string;
  r_github_run_id : string;
  status : string;
  r_created_at : Z;
  updated_at : Z;
  decided_at : option Z
}.

Record KeyRow := {
  k_app_id : string;
  key_hash : list Z;
  key_hint : string;
  k_created_at : Z;
  superseded_at : option Z;
  revoked_at : option Z;
  revoked_reason : option string;
  last_used_at : option Z;
  k_github_run_id : string
}.

(** [app_bindings] is keyed by app_id, [oidc_replay] maps a jti to its expires_at. *)
Record DB := {
  app_bindings : gmap string BindingRow;
  app_registration_requests : gmap Z RequestRow;
  app_keys : gmap Z KeyRow;
  oidc_replay : gmap string Z;
  next_request_id : Z;
  next_key_id : Z
}.

Definition empty : DB := {| app_bindings := ∅; app_registration_requests := ∅; app_keys := ∅;
  oidc_replay := ∅; next_request_id := 1; next_key_id := 1 |}.

(** The columns of both workflow-identity constraints, NULLS NOT DISTINCT. *)
Definition identity : Type := Z * string * string * option string.
Definition b_identity (b : BindingRow) : identity := (b_repository_id b, b_workflow_path b, b_git_ref b, b_environment b).
Definition r_identity (r : RequestRow) : identity := (r_repository_id r, r_workflow_path r, r_git_ref r, r_environment r).

(** A NOT NULL text column with CHECK (column <> ''). *)
Definition nonempty (s : string) : bool := text_ok s && negb (String.eqb s EmptyString).
Definition environment_check (environment : option string) : bool :=
  match environment with Some e => nonempty e | None => true end.

Definition binding_check (app_id : string) (b : BindingRow) : bool :=
  appid.Valid app_id && nonempty (b_repository b) && (0 <? b_repository_id b) && (0 <? b_owner_id b) &&
  nonempty (b_workflow_path b) && nonempty (b_git_ref b) && environment_check (b_environment b).

Definition request_check (r : RequestRow) : bool :=
  appid.Valid (r_app_id r) && nonempty (r_repository r) && (0 <? r_repository_id r) && (0 <? r_owner_id r) &&
  nonempty (r_workflow_path r) && nonempty (r_git_ref r) && environment_check (r_environment r) &&
  nonempty (r_github_run_id r) &&
  (String.eqb (status r) RequestPending || String.eqb (status r) RequestRejected) &&
  Bool.eqb (String.eqb (status r) RequestRejected) (bool_decide (is_Some (decided_at r))).

Definition key_check (k : KeyRow) : bool :=
  (Z.of_nat (length (key_hash k)) =? 32) && nonempty (key_hint k) && text_ok (k_github_run_id k) &&
  match revoked_reason k with Some r => String.eqb r RevokedReasonOperator || String.eqb r "unbound" | None => true end &&
  Bool.eqb (bool_decide (revoked_at k = None)) (bool_decide (revoked_reason k = None)).

Definition is_pending (r : RequestRow) : bool := String.eqb (status r) RequestPending.

(** ** pgstore.go *)

Definition touchInterval : Z := Minute.

Definition storeTime (now : Z) : Z := time.Truncate now Microsecond.

Definition environmentArgument (environment : string) : option string :=
  if String.eqb environment EmptyString then None else Some environment.

(** A failed statement, with the operation [WrapDBError] names. *)
Definition db_error (operation : string) : error := errors_New operation.

Definition scan_binding (app_id : string) (b : BindingRow) : Binding :=
  {| AppID := app_id; Repository := b_repository b; RepositoryID := b_repository_id b;
     RepositoryOwnerID := b_owner_id b; WorkflowPath := b_workflow_path b; Ref := b_git_ref b;
     Environment := default EmptyString (b_environment b); ApprovedAt := approved_at b |}.

Definition by_hash (hash : list Z) (db : DB) : option (Z * KeyRow) :=
  head (map_to_list (filter (fun p => key_hash p.2 = hash) (app_keys db))).

Definition record_of (k : KeyRow) : KeyRecord := {| SupersededAt := superseded_at k; RevokedAt := revoked_at k |}.

Definition pg_ResolveKey (key : string) (now : Z) : M DB ResolvedKey := fun db =>
  if negb (WellFormedKey key) then (Err (Wrap "invalid app key: malformed" [ErrInvalidKey]), db)
  else match by_hash (HashKey key) db with
  | None => (Err (Wrap "invalid app key: unknown" [ErrInvalidKey]), db)
  | Some (id, k) =>
    if negb (Valid (record_of k) (storeTime now)) then
      let reason := match revoked_at k with Some _ => "revoked" | None => "past supersede grace" end in
      (Err (Wrap ("invalid app key: " +:+ reason +:+ " (key " +:+ key_hint k +:+ ")") [ErrInvalidKey]), db)
    else (Ok {| Resolved_ID := id; Resolved_AppID := k_app_id k; Resolved_Hint := key_hint k |}, db)
  end.

Definition pg_TouchKey (keyID now : Z) : M DB bool := fun db =>
  let now := storeTime now in
  match app_keys db !! keyID with
  | Some k =>
    if match last_used_at k with None => true | Some t => t <=? time.Add now (- touchInterval) end
    then (Ok true, db {{ app_keys := <[keyID := k {{ last_used_at := Some now }}]> (app_keys db) }})
    else (Ok false, db)
  | None => (Ok false, db)
  end.

(** The number of rows a DELETE keeping [rest] of [rows] affects. *)
Definition RowsAffected {K A} `{Countable K} (rows rest : gmap K A) : Z := Z.of_nat (size rows) - Z.of_nat (size rest).

Definition pg_DeleteExpiredReplay (now : Z) : M DB Z := fun db =>
  let rest := filter (fun p => ~ p.2 < storeTime now) (oidc_replay db) in
  (Ok (RowsAffected (oidc_replay db) rest), db {{ oidc_replay := rest }}).

(** The empty jti violates a CHECK, one with a NUL or invalid UTF-8 is not text. *)
Definition pg_RecordJTI (jti : string) (expiresAt : Z) : M DB bool := fun db =>
  if negb (nonempty jti) then (Err (db_error "record oidc jti"), db)
  else match oidc_replay db !! jti with
  | Some _ => (Ok false, db)
  | None => (Ok true, db {{ oidc_replay := <[jti := storeTime expiresAt]> (oidc_replay db) }})
  end.

Definition pg_LockBinding (appID : string) : M DB (option Binding) :=
  m_gets (fun db => scan_binding appID <$> app_bindings db !! appID).

Definition refreshed (r : RequestRow) (claims : Claims) (now : Z) : RequestRow :=
  r {{ updated_at := now; r_github_run_id := RunID claims; r_repository := Claims_Repository claims;
       r_owner_id := Claims_RepositoryOwnerID claims }}.

Definition claims_identity (claims : Claims) : identity :=
  (Claims_RepositoryID claims, Claims_WorkflowPath claims, Claims_Ref claims,
   environmentArgument (Claims_Environment claims)).

(** The pending rows the UPDATE of a repeat exchange matches. *)
Definition matches_pending (appID : string) (i : identity) (r : RequestRow) : Prop :=
  is_pending r = true /\ r_app_id r = appID /\ r_identity r = i.
#[global] Instance matches_pending_dec appID i r : Decision (matches_pending appID i r).
Proof. unfold matches_pending. apply _. Defined.

Definition pending_like (appID : string) (i : identity) (db : DB) : gmap Z RequestRow :=
  filter (fun p => matches_pending appID i p.2) (app_registration_requests db).

Definition count_pending (requests : gmap Z RequestRow) : Z :=
  Z.of_nat (size (filter (fun p => is_pending p.2 = true) requests)).
Definition pending_count (db : DB) : Z := count_pending (app_registration_requests db).

Definition claims_text_ok (claims : Claims) : bool :=
  text_ok (Claims_Repository claims) && text_ok (Claims_WorkflowPath claims) && text_ok (Claims_Ref claims) &&
  text_ok (Claims_Environment claims) && text_ok (RunID claims).

Definition new_request (appID : string) (claims : Claims) (now : Z) : RequestRow :=
  {| r_app_id := appID; r_repository := Claims_Repository claims; r_repository_id := Claims_RepositoryID claims;
     r_owner_id := Claims_RepositoryOwnerID claims; r_workflow_path := Claims_WorkflowPath claims;
     r_git_ref := Claims_Ref claims; r_environment := environmentArgument (Claims_Environment claims);
     r_github_run_id := RunID claims; status := RequestPending; r_created_at := now; updated_at := now;
     decided_at := None |}.

(** Under the advisory lock.  The UPDATE sets every row it matches, which the unique
    index makes at most one, and the id read is that of the first. *)
Definition pg_FilePendingRequest (appID : string) (claims : Claims) (now : Z) : M DB Z := fun db =>
  let now := storeTime now in
  if bool_decide (is_Some (app_bindings db !! appID)) then (Err ErrBindingAppeared, db)
  else if negb (claims_text_ok claims) then (Err (db_error "refresh pending identity request"), db)
  else
    let rows := pending_like appID (claims_identity claims) db in
    match map_to_list rows with
    | (requestID, _) :: _ =>
      let updated := (fun r => refreshed r claims now) <$> rows in
      if bool_decide (map_Forall (fun _ r => request_check r = true) updated)
      then (Ok requestID, db {{ app_registration_requests := updated ∪ app_registration_requests db }})
      else (Err (db_error "refresh pending identity request"), db)
    | [] =>
      if MaxPendingRequests <=? pending_count db then (Err ErrPendingCap, db)
      else
        let row := new_request appID claims now in
        if negb (request_check row) then (Err (db_error "insert pending identity request"), db)
        else
          (Ok (next_request_id db),
           db {{ app_registration_requests := <[next_request_id db := row]> (app_registration_requests db);
                 next_request_id := next_request_id db + 1 }})
    end.

Definition superseded (appID : string) (now : Z) (k : KeyRow) : KeyRow :=
  if bool_decide (k_app_id k = appID /\ superseded_at k = None /\ revoked_at k = None)
  then k {{ superseded_at := Some now }} else k.

(** The foreign key to the binding and the unique hash fail the INSERT. *)
Definition pg_IssueKey (random : option (list Z)) (appID githubRunID : string) (now : Z) : M DB IssuedKey :=
  fun db =>
    let now := storeTime now in
    match NewKey random with
    | Err e => (Err e, db)
    | Ok plaintext =>
      let keys := superseded appID now <$> app_keys db in
      let row := {| k_app_id := appID; key_hash := HashKey plaintext; key_hint := KeyHint plaintext;
        k_created_at := now; superseded_at := None; revoked_at := None; revoked_reason := None;
        last_used_at := None; k_github_run_id := githubRunID |} in
      if negb (key_check row) || bool_decide (app_bindings db !! appID = None) ||
         bool_decide (is_Some (by_hash (HashKey plaintext) db))
      then (Err (db_error "insert app key"), db)
      else
        (Ok {| Issued_ID := next_key_id db; Plaintext := plaintext; Issued_Hint := KeyHint plaintext |},
         db {{ app_keys := <[next_key_id db := row]> keys; next_key_id := next_key_id db + 1 }})
    end.
(** ** pgstore_admin.go *)

Definition scanRequest (id : Z) (r : RequestRow) : Request :=
  {| Request_ID := id; Request_AppID := r_app_id r; Request_Repository := r_repository r;
     Request_RepositoryID := r_repository_id r; Request_RepositoryOwnerID := r_owner_id r;
     Request_WorkflowPath := r_workflow_path r; Request_Ref := r_git_ref r;
     Request_Environment := default EmptyString (r_environment r); GitHubRunID := r_github_run_id r;
     Status := status r; Request_CreatedAt := r_created_at r; Request_UpdatedAt := updated_at r;
     DecidedAt := decided_at r |}.

Definition scanKey (id : Z) (k : KeyRow) : storedKey :=
  {| Stored_ID := id; Stored_AppID := k_app_id k; Stored_Hint := key_hint k; Stored_CreatedAt := k_created_at k;
     Stored_SupersededAt := superseded_at k; Stored_RevokedAt := revoked_at k;
     Stored_RevokedReason := revoked_reason k; Stored_LastUsedAt := last_used_at k |}.

(** ORDER BY (status = 'pending') DESC, updated_at DESC, id DESC *)
Definition request_le (a b : Z * RequestRow) : Prop :=
  (is_pending a.2 = true /\ is_pending b.2 = false) \/
  (is_pending a.2 = is_pending b.2 /\
    (updated_at b.2 < updated_at a.2 \/ (updated_at a.2 = updated_at b.2 /\ b.1 <= a.1))).
#[global] Instance request_le_dec : RelDecision request_le.
Proof. intros a b. unfold request_le. apply _. Defined.

Definition rejected_since (cutoff : Z) (r : RequestRow) : bool :=
  String.eqb (status r) RequestRejected && match decided_at r with Some t => cutoff <=? t | None => false end.

Definition pg_ListRequests (now : Z) : M DB (list Request) :=
  m_gets (fun db =>
    let cutoff := time.Add (storeTime now) (- RejectedRequestWindow) in
    (fun p => scanRequest p.1 p.2) <$> merge_sort request_le
      (filter (fun p => is_pending p.2 || rejected_since cutoff p.2 = true)
        (map_to_list (app_registration_requests db)))).

Definition expired_rejected (cutoff : Z) (r : RequestRow) : bool :=
  String.eqb (status r) RequestRejected && match decided_at r with Some t => t <? cutoff | None => false end.

Definition delete_requests (where_ : RequestRow -> bool) : M DB Z := fun db =>
  let rest := filter (fun p => where_ p.2 = false) (app_registration_requests db) in
  (Ok (RowsAffected (app_registration_requests db) rest), db {{ app_registration_requests := rest }}).

Definition pg_DeleteExpiredRejectedRequests (now : Z) : M DB Z :=
  delete_requests (expired_rejected (time.Add (storeTime now) (- RejectedRequestWindow))).

Definition stale_pending (cutoff : Z) (r : RequestRow) : bool := is_pending r && (updated_at r <? cutoff).

Definition pg_DeleteStalePendingRequests (now ttl : Z) : M DB Z :=
  if ttl <=? 0 then m_fail (errors_New "delete stale pending identity requests: ttl must be positive")
  else delete_requests (stale_pending (time.Add (storeTime now) (- ttl))).

Definition pg_GetRequest (requestID : Z) : M DB Request := fun db =>
  match app_registration_requests db !! requestID with
  | Some r => (Ok (scanRequest requestID r), db)
  | None => (Err ErrRequestNotFound, db)
  end.

(** The row lock is the atomicity of the transaction. *)
Definition lockRequest (requestID : Z) : M DB Request := pg_GetRequest requestID.

(** starts_with($1, app_id || '_') OR starts_with(app_id, $1 || '_') *)
Definition overlaps (a b : string) : bool := HasPrefix a (b +:+ "_") || HasPrefix b (a +:+ "_").

Definition overlaps_bound (appID : string) (db : DB) : bool :=
  bool_decide (map_Exists (fun app_id _ => overlaps appID app_id = true) (app_bindings db)).

Definition binding_row (request : Request) (now : Z) : BindingRow :=
  {| b_repository := Request_Repository request; b_repository_id := Request_RepositoryID request;
     b_owner_id := Request_RepositoryOwnerID request; b_workflow_path := Request_WorkflowPath request;
     b_git_ref := Request_Ref request; b_environment := environmentArgument (Request_Environment request);
     approved_at := now |}.

(** INSERT ... ON CONFLICT DO NOTHING: whether a row was inserted. *)
Definition insert_binding (app_id : string) (b : BindingRow) : M DB bool := fun db =>
  if negb (binding_check app_id b) then (Err (db_error "insert app binding"), db)
  else if bool_decide (is_Some (app_bindings db !! app_id)) ||
          bool_decide (map_Exists (fun _ b' => b_identity b' = b_identity b) (app_bindings db))
  then (Ok false, db)
  else (Ok true, db {{ app_bindings := <[app_id := b]> (app_bindings db) }}).

(** Which constraint the binding of an app conflicts with. *)
Definition binding_conflict (app_id : string) : M DB unit := fun db =>
  (Err (if bool_decide (is_Some (app_bindings db !! app_id)) then ErrAppAlreadyBound else ErrWorkflowIdentityBound), db).

Definition sibling (app_id : string) (i : identity) (r : RequestRow) : bool :=
  is_pending r && (String.eqb (r_app_id r) app_id || bool_decide (r_identity r = i)).

Definition pg_ApproveRequest (requestID : Z) (expectedAppID : string) (now : Z) : M DB Binding :=
  let now := storeTime now in
  WithTx (
    request ← lockRequest requestID;
    _ ← m_check (if negb (String.eqb (Status request) RequestPending) then Some ErrRequestNotPending else None);
    _ ← m_check (if negb (String.eqb (Request_AppID request) expectedAppID) then Some ErrRequestChanged else None);
    overlap ← m_gets (overlaps_bound (Request_AppID request));
    _ ← m_check (if (overlap : bool) then Some ErrAppIDOverlap else None);
    let row := binding_row request now in
    inserted ← insert_binding (Request_AppID request) row;
    _ ← (if (inserted : bool) then mret tt else binding_conflict (Request_AppID request));
    _ ← m_do (fun db => db {{ app_registration_requests := delete requestID (app_registration_requests db) }});
    _ ← delete_requests (sibling (Request_AppID request) (b_identity row));
    mret {| AppID := Request_AppID request; Repository := Request_Repository request;
            RepositoryID := Request_RepositoryID request; RepositoryOwnerID := Request_RepositoryOwnerID request;
            WorkflowPath := Request_WorkflowPath request; Ref := Request_Ref request;
            Environment := Request_Environment request; ApprovedAt := now |}).

(** UPDATE ... SET status = 'rejected', decided_at = now, updated_at = now RETURNING *)
Definition set_rejected (requestID now : Z) : M DB Request := fun db =>
  match app_registration_requests db !! requestID with
  | None => (Err (db_error "reject identity request"), db)
  | Some r =>
    let row := r {{ status := RequestRejected; decided_at := Some now; updated_at := now }} in
    (Ok (scanRequest requestID row),
     db {{ app_registration_requests := <[requestID := row]> (app_registration_requests db) }})
  end.

Definition pg_RejectRequest (requestID now : Z) : M DB Request :=
  let now := storeTime now in
  WithTx (
    request ← lockRequest requestID;
    if String.eqb (Status request) RequestRejected then mret request else set_rejected requestID now).

(** ORDER BY app_id, of whatever collation the column has. *)
Definition binding_le (collation : string -> string -> bool) (a b : string * BindingRow) : Prop :=
  collation a.1 b.1 = true.
#[global] Instance binding_le_dec collation : RelDecision (binding_le collation).
Proof. intros a b. unfold binding_le. apply _. Defined.

(** ORDER BY id DESC within an app. *)
Definition key_le (a b : Z * KeyRow) : Prop := b.1 <= a.1.
#[global] Instance key_le_dec : RelDecision key_le.
Proof. intros a b. unfold key_le. apply _. Defined.

(** [listed[index].Keys = append(listed[index].Keys, key)] for the binding of the key's
    app, if the list shows it. *)
Fixpoint append_key (key : Key) (listed : list BindingWithKeys) : list BindingWithKeys :=
  match listed with
  | [] => []
  | l :: listed =>
    if String.eqb (AppID (Listed_Binding l)) (Key_AppID key)
    then {| Listed_Binding := Listed_Binding l; Keys := Keys l ++ [key] |} :: listed
    else l :: append_key key listed
  end.

Definition pg_ListBindings (collation : string -> string -> bool) (now : Z) : M DB (list BindingWithKeys) :=
  m_gets (fun db =>
    let now := storeTime now in
    let bindings := merge_sort (binding_le collation) (map_to_list (app_bindings db)) in
    let keys := merge_sort key_le (map_to_list (app_keys db)) in
    foldl (fun listed p => append_key (toKey (scanKey p.1 p.2) now) listed)
      ((fun p => {| Listed_Binding := scan_binding p.1 p.2; Keys := [] |}) <$> bindings) keys).

Definition revocable (now : Z) (k : KeyRow) : bool :=
  bool_decide (revoked_at k = None) &&
  match superseded_at k with None => true | Some t => time.Add now (- SupersededGrace) <? t end.

Definition revoked (now : Z) (k : KeyRow) : KeyRow :=
  if revocable now k then k {{ revoked_at := Some now; revoked_reason := Some RevokedReasonOperator }} else k.

Definition read_key (keyID now : Z) : M DB Key := fun db =>
  match app_keys db !! keyID with
  | None => (Err ErrKeyNotFound, db)
  | Some k => (Ok (toKey (scanKey keyID k) now), db)
  end.

Definition pg_RevokeKey (keyID now : Z) : M DB Key :=
  let now := storeTime now in
  WithTx (
    _ ← m_do (fun db => db {{ app_keys := alter (revoked now) keyID (app_keys db) }});
    read_key keyID now).

(** ON DELETE CASCADE *)
Definition pg_Unbind (appID : string) : M DB bool := fun db =>
  match app_bindings db !! appID with
  | None => (Ok false, db)
  | Some _ =>
    (Ok true, db {{ app_bindings := delete appID (app_bindings db);
                    app_keys := filter (fun p => k_app_id p.2 <> appID) (app_keys db) }})
  end.

Definition pg_BindingExists (appID : string) : M DB bool :=
  m_gets (fun db => bool_decide (is_Some (app_bindings db !! appID))).

Section admin.
Context (collation : string -> string -> bool).

#[local] Instance PGAdminStore : AdminStore DB := {
  admin_ListRequests := pg_ListRequests;
  admin_ApproveRequest := pg_ApproveRequest;
  admin_GetRequest := pg_GetRequest;
  admin_RejectRequest := pg_RejectRequest;
  admin_ListBindings := pg_ListBindings collation;
  admin_RevokeKey := pg_RevokeKey;
  admin_Unbind := pg_Unbind;
  admin_BindingExists := pg_BindingExists
}.
End admin.
End identity_pg.
