(* ===== verification/IdentityService.v ===== *)
(** * IdentityService

    The use cases of package [appidentity] (service.go) over the stores, the verifier
    and the people directory they are written against, and the periodic sweeps
    (cleanup.go).

    Logging is left out, except the text a log line may carry. *)

From S2P Require Import Prelude GoText Utf8 Idents Identity IdentityStore.
Open Scope Z_scope.

(** [TokenVerifier], with its [ReplayRecorder]; [*Verifier] satisfies it. *)
Class TokenVerifier (S : Type) := {
  Verify : string -> (string -> Z -> M S bool) -> M S appidentity.Claims
}.

Module identity_service.
Import appidentity.

Definition ExchangeIssued : string := "issued".
Definition ExchangePending : string := "pending".
Definition maxLoggedReasonChars : Z := 300.
Definition reservedAppID : string := "everyone".
Definition ErrBindingMismatch : error := Sentinel "identity does not match the approved binding".

Definition ValidateAppID (appID : string) : option error :=
  match appid.ValidateAppID appID with Some e => Some (ValidationError (Error e)) | None => None end.

Definition validateExchangeAppID (appID : string) : option error :=
  if String.eqb appID reservedAppID then Some (ValidationError "invalid app_id") else None.

Record ExchangeResult := {
  Result_Status : string;
  Result_AppID : string;
  Result_Key : string;
  KeyID : Z;
  RequestID : Z
}.

(** [registrar] is [CreateApp]; [now] and [tx_now] read the one clock, outside and
    inside a transaction; [ctx_Err] is the caller's context. *)
Record Service {S T : Type} := {
  registrar : option (string -> string -> M S unit);
  now : M S Z;
  tx_now : M T Z;
  ctx_Err : M S (option error)
}.
#[global] Arguments Service S T : clear implicits.

Section service.
Context {S T : Type} `{!ExchangeTx T} `{!IdentityStore S T} `{!AdminStore S} `{!TokenVerifier S}.
Context (service : Service S T).

(** [verifyOnly.RecordJTI] *)
Definition verifyOnly : string -> Z -> M S bool := fun _ _ => mret true.

Definition issued_result (appID : string) (issued : IssuedKey) : ExchangeResult :=
  {| Result_Status := ExchangeIssued; Result_AppID := appID; Result_Key := Plaintext issued;
     KeyID := Issued_ID issued; RequestID := 0 |}.

Definition pending_result (requestID : Z) : ExchangeResult :=
  {| Result_Status := ExchangePending; Result_AppID := EmptyString; Result_Key := EmptyString;
     KeyID := 0; RequestID := requestID |}.

(** One decision: what the binding says, or [unbound] when the app has none. *)
Definition decide_with (unbound : M T ExchangeResult) (appID : string) (claims : Claims) (now : Z) :
    M T ExchangeResult :=
  binding ← LockBinding appID;
  match binding with
  | None => unbound
  | Some binding =>
    if negb (Matches binding claims) then m_fail ErrBindingMismatch
    else
      issued ← IssueKey appID (RunID claims) now;
      mret (issued_result appID issued)
  end.

(** The decision with [mayFile] false, and with it true. *)
Definition decide_again : string -> Claims -> Z -> M T ExchangeResult := decide_with (m_fail ErrBindingAppeared).

Definition decideClaims (appID : string) (claims : Claims) (now : Z) (mayFile : bool) : M T ExchangeResult :=
  if negb mayFile then decide_again appID claims now
  else decide_with (
    filed ← m_try (FilePendingRequest appID claims now);
    match filed with
    | Ok requestID => mret (pending_result requestID)
    | Err e => if errors_Is e ErrBindingAppeared then decide_again appID claims now else m_fail e
    end) appID claims now.

Definition exchangeClaims (appID : string) (claims : Claims) : M T ExchangeResult :=
  at_ ← tx_now service;
  decideClaims appID claims at_ true.

(** What an exchange does in its transaction. *)
Definition exchange_tx (appID : string) (claims : Claims) : M T ExchangeResult :=
  fresh ← RecordJTI (JTI claims) (ReplayExpiry claims);
  if negb (fresh : bool) then m_fail ErrReplayed else exchangeClaims appID claims.

Definition Exchange (appID token : string) : M S ExchangeResult :=
  _ ← m_check (ValidateAppID appID);
  _ ← m_check (validateExchangeAppID appID);
  _ ← m_check (if String.eqb token EmptyString then Some (ValidationError "token is required") else None);
  claims ← Verify token verifyOnly;
  store_Exchange (exchange_tx appID claims).

(** The reason of a log line, cut before the byte that would split a rune. *)
Definition loggedReason (err : error) : string :=
  let reason := bytes (Error err) in
  if Z.of_nat (length reason) <=? maxLoggedReasonChars then Error err
  else of_bytes (take (rune_cut reason (Z.to_nat maxLoggedReasonChars)) reason) +:+ "...".

Definition svc_ListRequests : M S (list Request) := at_ ← now service; admin_ListRequests at_.

(** The registration succeeds, or fails for the caller's context or the registry. *)
Definition register (CreateApp : string -> string -> M S unit) (appID : string) : M S unit :=
  registered ← m_try (CreateApp appID appID);
  match registered with
  | Ok _ => mret tt
  | Err e =>
    gone ← ctx_Err service;
    match gone with
    | Some ctxErr => m_fail ctxErr
    | None => m_fail (Wrap "app registry unavailable" [ErrAppRegistryUnavailable; e])
    end
  end.

Definition svc_ApproveRequest (requestID : Z) : M S Binding :=
  match registrar service with
  | None => m_fail ErrAppRegistryNotConfigured
  | Some CreateApp =>
    request ← admin_GetRequest requestID;
    _ ← m_check (if negb (String.eqb (Status request) RequestPending) then Some ErrRequestNotPending else None);
    _ ← m_check (if String.eqb (Request_AppID request) reservedAppID then Some ErrAppIDReserved else None);
    _ ← register CreateApp (Request_AppID request);
    at_ ← now service;
    admin_ApproveRequest requestID (Request_AppID request) at_
  end.

Definition svc_RejectRequest (requestID : Z) : M S Request := at_ ← now service; admin_RejectRequest requestID at_.

Definition svc_ListBindings : M S (list BindingWithKeys) := at_ ← now service; admin_ListBindings at_.

(** A failed touch is logged and changes nothing of the answer. *)
Definition svc_ResolveKey (key : string) : M S ResolvedKey :=
  at_ ← now service;
  resolved ← store_ResolveKey key at_;
  _ ← m_try (store_TouchKey (Resolved_ID resolved) at_);
  mret resolved.

Definition svc_RevokeKey (keyID : Z) : M S Key := at_ ← now service; admin_RevokeKey keyID at_.

Definition HasBinding (appID : string) : M S bool :=
  _ ← m_check (ValidateAppID appID);
  admin_BindingExists appID.

Definition Unbind (appID : string) : M S bool :=
  _ ← m_check (ValidateAppID appID);
  admin_Unbind appID.
End service.

(** ** cleanup.go *)

Definition DefaultReplayCleanupInterval : Z := 15 * Minute.

(** What a sweep does: it returns how many rows it deleted and an error, or panics. *)
Inductive swept : Type := Swept (deleted : Z) (err : option error) | Panicked.

Definition sweeper (S : Type) : Type := S -> swept * S.

Definition ErrCanceled : error := Sentinel "context canceled".

Inductive sweep_log : Type :=
  | LogDeleted (label : string) (n : Z)
  | LogFailed (label : string)
  | LogPanic (label : string)
  | LogNotStarted (label : string).

Definition sweep_logs (label : string) (r : swept) : list sweep_log :=
  match r with
  | Panicked => [LogPanic label]
  | Swept deleted err =>
    if match err with Some e => negb (errors_Is e ErrCanceled) | None => false end then [LogFailed label]
    else if 0 <? deleted then [LogDeleted label deleted] else []
  end.

Record ReplayCleanupConfig {S : Type} := {
  Sweep_Store : option (Z -> sweeper S);
  RejectedStore : option (Z -> sweeper S);
  PendingStore : option (Z -> Z -> sweeper S);
  PendingTTL : Z;
  MintStore : option (Z -> Z -> sweeper S);
  MintWindow : Z;
  ResetStore : option (Z -> Z -> sweeper S);
  ResetWindow : Z;
  Interval : Z
}.
#[global] Arguments ReplayCleanupConfig S : clear implicits.

Section cleanup.
Context {S : Type}.

Definition runSweep (label : string) (deleteRows : sweeper S) (st : list sweep_log * S) : list sweep_log * S :=
  let (r, s) := deleteRows st.2 in (st.1 ++ sweep_logs label r, s).

(** A store with a window that is not positive is not swept. *)
Definition windowed (store : option (Z -> Z -> sweeper S)) (window : Z) : option (Z -> sweeper S) :=
  match store with
  | Some deleteRows => if window <=? 0 then None else Some (fun now => deleteRows now window)
  | None => None
  end.

Definition invalid_window (label : string) (store : option (Z -> Z -> sweeper S)) (window : Z) : list sweep_log :=
  if bool_decide (is_Some store) && (window <=? 0) then [LogNotStarted label] else [].

Definition config_logs (config : ReplayCleanupConfig S) : list sweep_log :=
  invalid_window "pending identity request cleanup" (PendingStore config) (PendingTTL config) ++
  invalid_window "publisher mint cleanup" (MintStore config) (MintWindow config) ++
  invalid_window "reset attempt cleanup" (ResetStore config) (ResetWindow config).

(** The sweeps a tick runs, in their order. *)
Definition sweeps (config : ReplayCleanupConfig S) : list (string * (Z -> sweeper S)) :=
  omap (fun p => pair p.1 <$> p.2) [
    ("oidc replay cleanup", Sweep_Store config);
    ("rejected identity request cleanup", RejectedStore config);
    ("pending identity request cleanup", windowed (PendingStore config) (PendingTTL config));
    ("publisher mint cleanup", windowed (MintStore config) (MintWindow config));
    ("reset attempt cleanup", windowed (ResetStore config) (ResetWindow config))].

Definition sweep (config : ReplayCleanupConfig S) (sweepTime : Z) (st : list sweep_log * S) : list sweep_log * S :=
  foldl (fun st p => runSweep p.1 (p.2 sweepTime) st) st (sweeps config).

(** The ticks until the context is done, at the times the clock shows. *)
Definition RunReplayCleanup (config : ReplayCleanupConfig S) (ticks : list Z) (s : S) : list sweep_log * S :=
  match Sweep_Store config with
  | None => ([LogNotStarted "oidc replay cleanup"], s)
  | Some _ =>
    if Interval config <=? 0 then ([LogNotStarted "oidc replay cleanup"], s)
    else foldl (fun st at_ => sweep config at_ st) (config_logs config, s) ticks
  end.
End cleanup.
End identity_service.
