(* ===== verification/IdentityExchange.v ===== *)
(** * IdentityExchange

    The exchange over the Postgres store, other transactions committing before each of
    its statements: it behaves as one atomic operation.

    A transaction in progress is the database the others have committed and its own
    writes over it, invisible to them.  At READ COMMITTED every statement sees what is
    committed when it starts.  Another transaction that would touch a row this one
    holds locked (the jti it has inserted, the binding it has selected FOR UPDATE)
    waits until it ends; the statements of [FilePendingRequest] run as one, under its
    advisory lock. *)

From S2P Require Import Prelude GoText Utf8 Idents Identity IdentityStore IdentityService.
Open Scope Z_scope.
Import appidentity identity_pg identity_service.

#[global] Instance BindingRow_dec : EqDecision BindingRow.
Proof. solve_decision. Defined.

(** What a call meets: the transactions that commit before it and between its
    statements, the random bytes, the clock, the caller's context, and the answers of
    the verifier and of the people directory. *)
Record turn := {
  before : DB -> DB;
  gaps : nat -> DB -> DB;
  turn_random : option (list Z);
  turn_clock : Z;
  turn_verify : string -> result Claims;
  turn_register : string -> result unit;
  turn_context : option error
}.

Definition quiet (t : turn) : turn := t {{ gaps := fun _ db => db }}.

(** ** A transaction in progress *)

Record tx := {
  base : DB;
  writes : DB -> DB;
  held_jti : option string;
  held_app : option string;
  tx_turn : turn;
  statements : nat
}.

(** Whether a transaction leaves the locked rows as they are. *)
Definition respects_locks (t : tx) (db' : DB) : bool :=
  match held_jti t with Some j => bool_decide (oidc_replay db' !! j = oidc_replay (base t) !! j) | None => true end &&
  match held_app t with Some a => bool_decide (app_bindings db' !! a = app_bindings (base t) !! a) | None => true end.

Definition meet (t : tx) : tx :=
  let db' := gaps (tx_turn t) (statements t) (base t) in
  t {{ base := if respects_locks t db' then db' else base t; statements := S (statements t) }}.

(** One statement, or the statements under one lock; [lock] is what it locks. *)
Definition statement {A} (op : M DB A) (lock : A -> tx -> tx) : M tx A := fun t =>
  let t := meet t in
  match op (writes t (base t)) with
  | (Ok a, _) => let w := writes t in (Ok a, lock a (t {{ writes := fun db => (op (w db)).2 }}))
  | (Err e, _) => (Err e, t)
  end.

#[global] Instance pg_exchange_tx : ExchangeTx tx := {
  RecordJTI jti expiresAt :=
    statement (pg_RecordJTI jti expiresAt) (fun fresh t => if fresh then t {{ held_jti := Some jti }} else t);
  LockBinding appID :=
    statement (pg_LockBinding appID) (fun found t => match found with Some _ => t {{ held_app := Some appID }} | None => t end);
  FilePendingRequest appID claims now := statement (pg_FilePendingRequest appID claims now) (fun _ t => t);
  IssueKey appID githubRunID now := fun t =>
    statement (pg_IssueKey (turn_random (tx_turn t)) appID githubRunID now) (fun _ t => t) t
}.

Definition begin_tx (t : turn) (db : DB) : tx :=
  {| base := db; writes := id; held_jti := None; held_app := None; tx_turn := t; statements := O |}.

(** [pgutil.WithTx] at READ COMMITTED: the writes at commit, or a rollback. *)
Definition commit {A} (fn : M tx A) (t : turn) : M DB A := fun db =>
  match fn (begin_tx t db) with
  | (Ok a, t) => (Ok a, writes t (base t))
  | (Err e, t) => (Err e, base t)
  end.

(** ** The store among other transactions *)

Record world := { tables : DB; turns : nat -> turn; calls : nat }.

Definition pg_call {A} (op : turn -> M DB A) : M world A := fun w =>
  let t := turns w (calls w) in
  let (r, db) := op t (before t (tables w)) in
  (r, w {{ tables := db; calls := S (calls w) }}).

#[global] Instance pg_identity_store : IdentityStore world tx := {
  store_Exchange A fn := pg_call (commit fn);
  store_ResolveKey key now := pg_call (fun _ => pg_ResolveKey key now);
  store_TouchKey keyID now := pg_call (fun _ => pg_TouchKey keyID now);
  store_DeleteExpiredReplay now := pg_call (fun _ => pg_DeleteExpiredReplay now)
}.

Section admin.
Context (collation : string -> string -> bool).

#[global] Instance pg_admin_store : AdminStore world := {
  admin_ListRequests now := pg_call (fun _ => pg_ListRequests now);
  admin_ApproveRequest requestID expectedAppID now := pg_call (fun _ => pg_ApproveRequest requestID expectedAppID now);
  admin_GetRequest requestID := pg_call (fun _ => pg_GetRequest requestID);
  admin_RejectRequest requestID now := pg_call (fun _ => pg_RejectRequest requestID now);
  admin_ListBindings now := pg_call (fun _ => pg_ListBindings collation now);
  admin_RevokeKey keyID now := pg_call (fun _ => pg_RevokeKey keyID now);
  admin_Unbind appID := pg_call (fun _ => pg_Unbind appID);
  admin_BindingExists appID := pg_call (fun _ => pg_BindingExists appID)
}.
End admin.

#[global] Instance pg_verifier : TokenVerifier world := {
  Verify token _ := fun w => (turn_verify (turns w (calls w)) token, w)
}.

Definition pg_service : Service world tx := {|
  registrar := Some (fun appID _ w => (turn_register (turns w (calls w)) appID, w));
  now w := (Ok (turn_clock (turns w (calls w))), w);
  tx_now t := (Ok (turn_clock (tx_turn t)), t);
  ctx_Err w := (Ok (turn_context (turns w (calls w))), w)
|}.

(** ** The exchange, atomically *)

(** What an exchange of verified claims does at [now], no other transaction within it. *)
Definition exchange_now (random : option (list Z)) (now : Z) (appID : string) (claims : Claims) : M DB ExchangeResult :=
  WithTx (
    fresh ← pg_RecordJTI (JTI claims) (ReplayExpiry claims);
    _ ← m_check (if (fresh : bool) then None else Some ErrReplayed);
    binding ← pg_LockBinding appID;
    match binding with
    | None => requestID ← pg_FilePendingRequest appID claims now; mret (pending_result requestID)
    | Some binding =>
      _ ← m_check (if Matches binding claims then None else Some ErrBindingMismatch);
      issued ← pg_IssueKey random appID (RunID claims) now;
      mret (issued_result appID issued)
    end).

Definition exchange_turn (t : turn) (appID : string) (claims : Claims) : M DB ExchangeResult :=
  commit (exchange_tx pg_service appID claims) t.

(** ** Linearization *)

Lemma meet_base t : base (meet t) = gaps (tx_turn t) (statements t) (base t) \/ base (meet t) = base t.
Proof. unfold meet. cbv zeta. simpl. case_match; auto. Qed.

Lemma meet_jti t j : held_jti t = Some j -> oidc_replay (base (meet t)) !! j = oidc_replay (base t) !! j.
Proof.
  unfold meet, respects_locks. intros ->. cbv zeta. simpl. case_match eqn:H; [|done]. apply andb_true_iff in H as [H _].
  by apply bool_decide_eq_true in H.
Qed.

Lemma meet_app t a : held_app t = Some a -> app_bindings (base (meet t)) !! a = app_bindings (base t) !! a.
Proof.
  unfold meet, respects_locks. intros ->. cbv zeta. simpl. case_match eqn:H; [|done]. apply andb_true_iff in H as [_ H].
  by apply bool_decide_eq_true in H.
Qed.

Lemma pg_RecordJTI_cases jti e db :
  (exists err, pg_RecordJTI jti e db = (Err err, db)) \/
  (pg_RecordJTI jti e db = (Ok false, db) /\ is_Some (oidc_replay db !! jti)) \/
  (nonempty jti = true /\ oidc_replay db !! jti = None /\
   pg_RecordJTI jti e db = (Ok true, db {{ oidc_replay := <[jti := storeTime e]> (oidc_replay db) }})).
Proof.
  unfold pg_RecordJTI. destruct (nonempty jti); simpl; [|by left; eexists]. right.
  destruct (oidc_replay db !! jti) as [x|]; [left; by split; [|eexists]|right; done].
Qed.

(** The database with the jti recorded. *)
Definition burned (claims : Claims) (db : DB) : DB :=
  db {{ oidc_replay := <[JTI claims := storeTime (ReplayExpiry claims)]> (oidc_replay db) }}.

Lemma record_fresh claims db : nonempty (JTI claims) = true -> oidc_replay db !! JTI claims = None ->
  pg_RecordJTI (JTI claims) (ReplayExpiry claims) db = (Ok true, burned claims db).
Proof. intros Hn Hj. unfold pg_RecordJTI. rewrite Hn, Hj. done. Qed.

(** What a fresh token earns. *)
Definition earned (random : option (list Z)) (now : Z) (appID : string) (claims : Claims) : M DB ExchangeResult := fun db =>
  match app_bindings db !! appID with
  | None =>
    match pg_FilePendingRequest appID claims now (burned claims db) with
    | (Ok id, db') => (Ok (pending_result id), db')
    | (Err e, _) => (Err e, db)
    end
  | Some row =>
    if Matches (scan_binding appID row) claims then
      match pg_IssueKey random appID (RunID claims) now (burned claims db) with
      | (Ok issued, db') => (Ok (issued_result appID issued), db')
      | (Err e, _) => (Err e, db)
      end
    else (Err ErrBindingMismatch, db)
  end.

Lemma exchange_now_fresh random now appID claims db :
  nonempty (JTI claims) = true -> oidc_replay db !! JTI claims = None ->
  exchange_now random now appID claims db = earned random now appID claims db.
Proof.
  intros Hn Hj. unfold exchange_now, earned, WithTx. unfold mbind at 1, m_bind at 1.
  rewrite record_fresh by done. unfold mbind at 1, m_bind at 1. cbn [m_check mret m_ret].
  unfold mbind at 1, m_bind at 1, pg_LockBinding, m_gets. change (app_bindings (burned claims db)) with (app_bindings db).
  destruct (app_bindings db !! appID) as [row|]; simpl.
  - unfold mbind, m_bind. destruct (Matches _ _); simpl; [|done].
    by destruct (pg_IssueKey _ _ _ _ _) as [[]].
  - unfold mbind, m_bind. by destruct (pg_FilePendingRequest _ _ _ _) as [[]].
Qed.

Lemma exchange_now_stale random now appID claims db r :
  (exists err, pg_RecordJTI (JTI claims) (ReplayExpiry claims) db = (Err err, db) /\ r = Err err) \/
  (pg_RecordJTI (JTI claims) (ReplayExpiry claims) db = (Ok false, db) /\ r = Err ErrReplayed) ->
  exchange_now random now appID claims db = (r, db).
Proof.
  unfold exchange_now, WithTx. unfold mbind at 1, m_bind at 1. by intros [(e & -> & ->)|[-> ->]].
Qed.

(** A filing refuses exactly a bound app with [ErrBindingAppeared]. *)
Lemma file_appeared appID claims now db e db' :
  pg_FilePendingRequest appID claims now db = (Err e, db') ->
  if errors_Is e ErrBindingAppeared then is_Some (app_bindings db !! appID) else app_bindings db !! appID = None.
Proof.
  unfold pg_FilePendingRequest. cbv zeta. case_bool_decide as Hb; [by intros [= <- _]|].
  apply eq_None_not_Some in Hb. repeat (case_match; try done); intros [= <- _]; done.
Qed.

Lemma file_unbound appID claims now db id db' :
  pg_FilePendingRequest appID claims now db = (Ok id, db') -> app_bindings db !! appID = None.
Proof. unfold pg_FilePendingRequest. case_bool_decide as Hb; [done|]. intros _. by apply eq_None_not_Some. Qed.

(** The database a transaction leaves. *)
Definition ended {A} (p : result A * tx) : DB :=
  match p.1 with Ok _ => writes p.2 (base p.2) | Err _ => base p.2 end.

Lemma commit_eq {A} (fn : M tx A) t db : commit fn t db = let p := fn (begin_tx t db) in (p.1, ended p).
Proof. unfold commit, ended. by destruct (fn (begin_tx t db)) as [[]]. Qed.

Section linear.
Context (others : DB -> DB -> Prop) `{!PreOrder others}.
Context (t : turn) (appID : string) (claims : Claims).
Hypothesis gaps_others : forall i db, others db (gaps t i db).

(** A transaction that has recorded the token and written nothing else. *)
Record recorded (x : tx) : Prop := {
  recorded_turn : tx_turn x = t;
  recorded_held : held_jti x = Some (JTI claims);
  recorded_fresh : oidc_replay (base x) !! JTI claims = None;
  recorded_writes db : oidc_replay db !! JTI claims = None -> writes x db = burned claims db
}.

Lemma meet_recorded x : recorded x -> recorded (meet x) /\ others (base x) (base (meet x)).
Proof.
  intros [Ht Hh Hf Hw]. split.
  - split; [done..| |done]. by rewrite (meet_jti x (JTI claims)).
  - destruct (meet_base x) as [-> | ->]; [|done]. rewrite Ht. apply gaps_others.
Qed.

Definition linear (db : DB) (p : result ExchangeResult * tx) : Prop :=
  exists db1, others db db1 /\ oidc_replay db1 !! JTI claims = None /\
    ((p.1, ended p) = earned (turn_random t) (turn_clock t) appID claims db1 \/
     (p.1 = Err ErrBindingAppeared /\ ended p = db1)).

Lemma linear_before db db' p : others db db' -> linear db' p -> linear db p.
Proof. intros H (db1 & H1 & Hp). exists db1. split; [by etrans|done]. Qed.

Lemma linear_earned y r x' : recorded y ->
  (r, ended (r, x')) = earned (turn_random t) (turn_clock t) appID claims (base y) -> linear (base y) (r, x').
Proof. intros Hy Heq. exists (base y). split_and!; [done|apply Hy|by left]. Qed.

(** A statement runs over the recorded token. *)
Lemma statement_recorded {A} (op : M DB A) lock x : recorded x -> exists y, recorded y /\ others (base x) (base y) /\
  held_app y = held_app x /\ (forall a, held_app x = Some a -> app_bindings (base y) !! a = app_bindings (base x) !! a) /\
  statement op lock x =
    match op (burned claims (base y)) with
    | (Ok a, _) => (Ok a, lock a (y {{ writes := fun db => (op (writes y db)).2 }}))
    | (Err e, _) => (Err e, y)
    end.
Proof.
  intros Hr. destruct (meet_recorded x Hr) as [Hr' Ho]. exists (meet x). split_and!; [done..|apply meet_app|].
  unfold statement. by rewrite (recorded_writes _ Hr') by apply Hr'.
Qed.

Lemma ended_write {A B} (op : M DB A) (b : B) y db' a : recorded y -> op (burned claims (base y)) = (Ok a, db') ->
  ended (Ok b, y {{ writes := fun db => (op (writes y db)).2 }}) = db'.
Proof.
  intros Hy E. change ((op (writes y (base y))).2 = db'). rewrite (recorded_writes _ Hy) by apply Hy. by rewrite E.
Qed.

Lemma issue_linear x row :
  recorded x -> held_app x = Some appID -> app_bindings (base x) !! appID = Some row ->
  Matches (scan_binding appID row) claims = true ->
  linear (base x) ((issued ← IssueKey appID (RunID claims) (turn_clock t); mret (issued_result appID issued)) x).
Proof.
  intros Hr Ha Hb Hm. unfold mbind, m_bind. cbn [IssueKey pg_exchange_tx]. rewrite (recorded_turn _ Hr).
  destruct (statement_recorded (pg_IssueKey (turn_random t) appID (RunID claims) (turn_clock t)) (fun _ t => t) x Hr)
    as (y & Hy & Ho & _ & Hlock & ->).
  apply (linear_before _ (base y)); [done|]. rewrite <- (Hlock _ Ha) in Hb.
  destruct (pg_IssueKey _ _ _ _ _) as [[issued|e] db'] eqn:E; apply linear_earned; try done;
    unfold earned; rewrite Hb, Hm, E; [|done].
  unfold mret, m_ret. by rewrite (ended_write _ _ _ _ _ Hy E).
Qed.

Lemma decide_linear unbound x : recorded x ->
  (forall x1, recorded x1 -> others (base x) (base x1) -> app_bindings (base x1) !! appID = None ->
    linear (base x) (unbound x1)) ->
  linear (base x) (decide_with unbound appID claims (turn_clock t) x).
Proof.
  intros Hr Hu. unfold decide_with. unfold mbind at 1, m_bind at 1. cbn [LockBinding pg_exchange_tx].
  match goal with |- context [statement ?op ?lock x] =>
    destruct (statement_recorded op lock x Hr) as (y & Hy & Ho & _ & _ & ->) end.
  unfold pg_LockBinding, m_gets. change (app_bindings (burned claims ?db)) with (app_bindings db).
  destruct (app_bindings (base y) !! appID) as [row|] eqn:Hb; cbn [fmap option_fmap option_map].
  - set (x1 := (y {{ writes := _ }}) {{ held_app := _ }}).
    assert (Hr1 : recorded x1) by (destruct Hy as [? ? ? Hw]; split; [done..|exact Hw]).
    apply (linear_before _ (base y)); [done|].
    destruct (Matches (scan_binding appID row) claims) eqn:Hm; cbn [negb].
    + by apply (issue_linear x1 row).
    + apply linear_earned; [done|]. unfold earned. by rewrite Hb, Hm.
  - apply Hu; [|done|done]. destruct Hy as [? ? ? Hw]. split; [done..|exact Hw].
Qed.

Lemma decideClaims_linear x : recorded x -> linear (base x) (decideClaims appID claims (turn_clock t) true x).
Proof.
  intros Hr. unfold decideClaims. cbn [negb]. apply decide_linear; [done|]. intros x1 Hr1 Ho1 Hb1.
  unfold mbind, m_bind, m_try. cbn [FilePendingRequest pg_exchange_tx].
  match goal with |- context [statement ?op ?lock x1] =>
    destruct (statement_recorded op lock x1 Hr1) as (y & Hy & Ho2 & _ & _ & ->) end.
  apply (linear_before _ (base y)); [by etrans|].
  destruct (pg_FilePendingRequest _ _ _ _) as [[id|e] db'] eqn:E; cbn zeta beta iota.
  - pose proof (file_unbound _ _ _ _ _ _ E) as Hb. apply linear_earned; [done|]. unfold earned.
    change (app_bindings (burned claims (base y))) with (app_bindings (base y)) in Hb. rewrite Hb, E.
    unfold mret, m_ret. by rewrite (ended_write _ _ _ _ _ Hy E).
  - pose proof (file_appeared _ _ _ _ _ _ E) as Hf. destruct (errors_Is e ErrBindingAppeared).
    + unfold decide_again. apply decide_linear; [done|]. intros x3 Hr3 Ho3 Hb3.
      exists (base x3). split_and!; [done|apply Hr3|by right].
    + change (app_bindings (burned claims (base y))) with (app_bindings (base y)) in Hf.
      apply linear_earned; [done|]. unfold earned. by rewrite Hf, E.
Qed.

Lemma exchange_linear db : exists db1, others db db1 /\
  (exchange_turn t appID claims db = exchange_now (turn_random t) (turn_clock t) appID claims db1 \/
   exchange_turn t appID claims db = (Err ErrBindingAppeared, db1)).
Proof.
  unfold exchange_turn. rewrite commit_eq. cbv zeta. set (x := begin_tx t db).
  remember (exchange_tx pg_service appID claims x) as p eqn:Hp. unfold exchange_tx in Hp. unfold mbind, m_bind in Hp.
  cbn [RecordJTI pg_exchange_tx] in Hp. unfold statement in Hp. set (y := meet x) in Hp.
  change (writes y (base y)) with (base y) in Hp.
  assert (Ho : others db (base y)) by (destruct (meet_base x) as [H|H]; unfold y; rewrite H; [apply gaps_others|done]).
  destruct (pg_RecordJTI_cases (JTI claims) (ReplayExpiry claims) (base y)) as [(e & E)|[[E _]|(Hn & Hj & E)]]; rewrite E in Hp; cbn zeta beta iota in Hp.
  - exists (base y). split; [done|]. left. subst p. symmetry. apply exchange_now_stale. left. by exists e.
  - exists (base y). split; [done|]. left. subst p. symmetry. apply exchange_now_stale. by right.
  - cbn [negb] in Hp. set (x1 := _ {{ held_jti := _ }}) in Hp.
    assert (Hr1 : recorded x1).
    { split; [done|done|done|]. intros db2 Hdb2. simpl. unfold id. by rewrite record_fresh. }
    change (exchangeClaims pg_service appID claims x1) with (decideClaims appID claims (turn_clock t) true x1) in Hp.
    destruct (decideClaims_linear x1 Hr1) as (db1 & Ho1 & Hj1 & Hcase). rewrite <- Hp in Hcase. exists db1.
    split; [by etrans|]. destruct Hcase as [Heq|[He Hd]]; [left|right; by f_equal]. by rewrite exchange_now_fresh.
Qed.
End linear.

(** C7: an exchange, other transactions committing before it and before each of its
    statements, is refused before its transaction, or is one atomic exchange at a database
    those transactions have led to, or finds the binding approved and removed again while
    it waits, and writes nothing. *)
Theorem Exchange_linearizable (others : DB -> DB -> Prop) `{!PreOrder others} appID token w r w' :
  (forall db, others db (before (turns w (calls w)) db)) ->
  (forall i db, others db (gaps (turns w (calls w)) i db)) ->
  Exchange pg_service appID token w = (r, w') ->
  (exists e, r = Err e /\ w' = w /\
    (ValidateAppID appID = Some e \/ validateExchangeAppID appID = Some e \/ token = EmptyString \/
     turn_verify (turns w (calls w)) token = Err e)) \/
  exists claims db1, turn_verify (turns w (calls w)) token = Ok claims /\ calls w' = S (calls w) /\
    turns w' = turns w /\ others (tables w) db1 /\
    ((r, tables w') = exchange_now (turn_random (turns w (calls w))) (turn_clock (turns w (calls w))) appID claims db1 \/
     (r, tables w') = (Err ErrBindingAppeared, db1)).
Proof.
  intros Hb Hg. unfold Exchange, mbind, m_bind. destruct (ValidateAppID appID) as [e|] eqn:Hv; simpl.
  { intros [= <- <-]. left. exists e. auto. }
  destruct (validateExchangeAppID appID) as [e|] eqn:Hx; simpl.
  { intros [= <- <-]. left. exists e. auto. }
  destruct (String.eqb_spec token EmptyString) as [->|_]; simpl.
  { intros [= <- <-]. left. eexists. split_and!; [done..|]. right. right. by left. }
  destruct (turn_verify (turns w (calls w)) token) as [claims|e] eqn:Ht; [|intros [= <- <-]; left; exists e; split_and!; by auto].
  unfold pg_call. fold (exchange_turn (turns w (calls w)) appID claims).
  destruct (exchange_linear others (turns w (calls w)) appID claims Hg (before (turns w (calls w)) (tables w)))
    as (db1 & Ho & Hcase).
  change (commit _ _ _) with (exchange_turn (turns w (calls w)) appID claims (before (turns w (calls w)) (tables w))).
  destruct (exchange_turn _ _ _ _) as [r0 db'] eqn:E. intros [= <- <-]. right. exists claims, db1.
  split_and!; [done..|by etrans; [apply Hb|]|]. simpl. by destruct Hcase; [left|right].
Qed.
