(* ===== verification/IdentityInv.v ===== *)
(** * IdentityInv

    The invariant of the app identity tables, what each operation that succeeds does
    to them, and that every operation keeps the invariant. *)

From S2P Require Import Prelude GoText Utf8 Idents Sha256 Identity IdentityStore IdentityService IdentityExchange.
Open Scope Z_scope.
Import appidentity identity_pg identity_service.

(** ** The invariant *)

Definition binding_of (db : DB) (a : string) (b : BindingRow) : Prop := app_bindings db !! a = Some b.
Definition request_of (db : DB) (i : Z) (r : RequestRow) : Prop := app_registration_requests db !! i = Some r.
Definition key_of (db : DB) (i : Z) (k : KeyRow) : Prop := app_keys db !! i = Some k.

(** A key no newer key has replaced and nobody revoked. *)
Definition active (k : KeyRow) : Prop := superseded_at k = None /\ revoked_at k = None.

Record wf_bindings (bs : gmap string BindingRow) : Prop := {
  wf_binding a b : bs !! a = Some b -> binding_check a b = true;
  (** a workflow identity is bound to one app *)
  wf_identity a b a' b' : bs !! a = Some b -> bs !! a' = Some b' -> b_identity b = b_identity b' -> a = a';
  (** no bound app id extends another *)
  wf_overlap a b a' b' : bs !! a = Some b -> bs !! a' = Some b' -> overlaps a a' = false
}.

Record wf_requests (bs : gmap string BindingRow) (rs : gmap Z RequestRow) (next : Z) : Prop := {
  wf_request i r : rs !! i = Some r -> request_check r = true /\ i < next;
  wf_pending i r i' r' : rs !! i = Some r -> rs !! i' = Some r' -> is_pending r = true -> is_pending r' = true ->
    r_app_id r = r_app_id r' -> r_identity r = r_identity r' -> i = i';
  (** an app that is bound has no request waiting *)
  wf_unbound i r : rs !! i = Some r -> is_pending r = true -> bs !! r_app_id r = None;
  wf_cap : count_pending rs <= MaxPendingRequests
}.

Record wf_keys (bs : gmap string BindingRow) (ks : gmap Z KeyRow) (next : Z) : Prop := {
  wf_key i k : ks !! i = Some k -> key_check k = true /\ i < next /\ is_Some (bs !! k_app_id k);
  wf_hash i k i' k' : ks !! i = Some k -> ks !! i' = Some k' -> key_hash k = key_hash k' -> i = i';
  (** an app has at most one active key *)
  wf_active i k i' k' : ks !! i = Some k -> ks !! i' = Some k' -> k_app_id k = k_app_id k' ->
    active k -> active k' -> i = i'
}.

Record wf (db : DB) : Prop := {
  wf_b : wf_bindings (app_bindings db);
  wf_r : wf_requests (app_bindings db) (app_registration_requests db) (next_request_id db);
  wf_k : wf_keys (app_bindings db) (app_keys db) (next_key_id db)
}.

Lemma identity_empty_wf : wf empty.
Proof. by split. Qed.

(** ** Changes that keep it *)

Lemma filter_subseteq_mono {A} (P : Z * A -> Prop) `{!forall x, Decision (P x)} (m m' : gmap Z A) :
  m ⊆ m' -> filter P m ⊆ filter P m'.
Proof.
  intros Hsub. apply map_subseteq_spec. intros i x [Hi Hx]%map_lookup_filter_Some.
  apply map_lookup_filter_Some. split; [by eapply lookup_weaken|done].
Qed.

(** Fewer requests, and no binding of the app of one that waits. *)
Lemma wf_requests_shrink bs bs' rs rs' next : wf_requests bs rs next -> rs' ⊆ rs ->
  (forall i r, rs' !! i = Some r -> is_pending r = true -> bs !! r_app_id r = None -> bs' !! r_app_id r = None) ->
  wf_requests bs' rs' next.
Proof.
  intros [H1 H2 H3 H4] Hsub Hb. assert (Hin : forall i r, rs' !! i = Some r -> rs !! i = Some r) by (intros i r Hi; by eapply lookup_weaken).
  split; eauto.
  etrans; [|exact H4]. unfold count_pending. apply Nat2Z.inj_le, map_subseteq_size. by apply filter_subseteq_mono.
Qed.

(** Keys rewritten one by one, none of them active again. *)
Definition same_key (k k' : KeyRow) : Prop :=
  k_app_id k' = k_app_id k /\ key_hash k' = key_hash k /\ key_check k' = true /\ (active k' -> active k).

Lemma wf_keys_rewrite bs ks ks' next : wf_keys bs ks next ->
  (forall i k', ks' !! i = Some k' -> exists k, ks !! i = Some k /\ same_key k k') -> wf_keys bs ks' next.
Proof.
  intros [H1 H2 H3] Hin. split.
  - intros i k' Hi. destruct (Hin _ _ Hi) as (k & Hk & Ha & _ & Hc & _). rewrite Ha. split; [done|]. by apply (H1 i k).
  - intros i k i' k' Hi Hi'. destruct (Hin _ _ Hi) as (k0 & Hk & _ & Hh & _). destruct (Hin _ _ Hi') as (k1 & Hk' & _ & Hh' & _).
    rewrite Hh, Hh'. by eapply H2.
  - intros i k i' k' Hi Hi'. destruct (Hin _ _ Hi) as (k0 & Hk & Ha & _ & _ & Hact).
    destruct (Hin _ _ Hi') as (k1 & Hk' & Ha' & _ & _ & Hact'). rewrite Ha, Ha'. intros. eapply H3; eauto.
Qed.

Lemma wf_keys_filter bs bs' ks next (P : Z * KeyRow -> Prop) `{!forall p, Decision (P p)} : wf_keys bs ks next ->
  (forall i k, ks !! i = Some k -> P (i, k) -> is_Some (bs' !! k_app_id k)) -> wf_keys bs' (filter P ks) next.
Proof.
  intros [H1 H2 H3] Hb. split.
  - intros i k [Hi HP]%map_lookup_filter_Some. destruct (H1 _ _ Hi) as (? & ? & ?). split_and!; [done..|]. by eapply Hb.
  - intros i k i' k' [Hi _]%map_lookup_filter_Some [Hi' _]%map_lookup_filter_Some. by eapply H2.
  - intros i k i' k' [Hi _]%map_lookup_filter_Some [Hi' _]%map_lookup_filter_Some. by eapply H3.
Qed.

(** ** What each operation that succeeds does *)

(** The pending rows an exchange's claims match are at most one. *)
Lemma pending_like_spec appID i db id r :
  pending_like appID i db !! id = Some r <-> app_registration_requests db !! id = Some r /\ matches_pending appID i r.
Proof. unfold pending_like. by rewrite map_lookup_filter_Some. Qed.

Inductive file_outcome (appID : string) (claims : Claims) (now : Z) (db : DB) : Z -> DB -> Prop :=
  | file_refreshed id r :
      app_registration_requests db !! id = Some r -> matches_pending appID (claims_identity claims) r ->
      request_check (refreshed r claims (storeTime now)) = true ->
      file_outcome appID claims now db id (db {{ app_registration_requests :=
        <[id := refreshed r claims (storeTime now)]> (app_registration_requests db) }})
  | file_new :
      (forall id r, app_registration_requests db !! id = Some r -> ~ matches_pending appID (claims_identity claims) r) ->
      pending_count db < MaxPendingRequests ->
      request_check (new_request appID claims (storeTime now)) = true ->
      file_outcome appID claims now db (next_request_id db) (db {{
        app_registration_requests := <[next_request_id db := new_request appID claims (storeTime now)]> (app_registration_requests db);
        next_request_id := next_request_id db + 1 }}).

Lemma file_ok appID claims now db id db' : wf db ->
  pg_FilePendingRequest appID claims now db = (Ok id, db') ->
  app_bindings db !! appID = None /\ file_outcome appID claims now db id db'.
Proof.
  intros Hwf Hrun. split; [by eapply file_unbound|]. revert Hrun. unfold pg_FilePendingRequest.
  case_bool_decide; [done|]. destruct (claims_text_ok claims); [|done]. cbn [negb]. cbv zeta.
  destruct (map_to_list (pending_like appID (claims_identity claims) db)) as [|[id0 r0] l] eqn:El.
  - destruct (Z.leb_spec MaxPendingRequests (pending_count db)); [done|].
    destruct (request_check _) eqn:Hck; [|done]. intros [= <- <-]. constructor; [|lia|done].
    intros id0 r0 Hr Hm. apply map_to_list_empty_iff in El. assert (Hl : pending_like appID (claims_identity claims) db !! id0 = Some r0)
      by by apply pending_like_spec. by rewrite El in Hl.
  - case_bool_decide as Hall; [|done]. intros [= -> <-].
    assert (Hid : pending_like appID (claims_identity claims) db !! id = Some r0)
      by (apply elem_of_map_to_list; rewrite El; left).
    pose proof Hid as [Hr Hm]%pending_like_spec.
    assert (Hone : (fun r => refreshed r claims (storeTime now)) <$> pending_like appID (claims_identity claims) db
      = {[id := refreshed r0 claims (storeTime now)]}).
    { apply map_eq. intros j. rewrite lookup_fmap. destruct (decide (j = id)) as [->|Hj].
      - by rewrite Hid, lookup_singleton_eq.
      - rewrite lookup_singleton_ne by done. destruct (pending_like _ _ _ !! j) as [rj|] eqn:Ej; [|done]. exfalso. apply Hj.
        apply pending_like_spec in Ej as [Hj' (Hp & Ha & Hi)]. destruct Hm as (Hp0 & Ha0 & Hi0).
        eapply (wf_pending _ _ _ (wf_r _ Hwf)); eauto; congruence. }
    rewrite Hone in *. rewrite <- insert_union_singleton_l. constructor; [done..|].
    apply (Hall id). by rewrite lookup_singleton_eq.
Qed.

Inductive issue_outcome (random : option (list Z)) (appID runID : string) (now : Z) (db : DB) : IssuedKey -> DB -> Prop :=
  | issue_key plaintext row :
      NewKey random = Ok plaintext ->
      row = {| k_app_id := appID; key_hash := HashKey plaintext; key_hint := KeyHint plaintext;
        k_created_at := storeTime now; superseded_at := None; revoked_at := None; revoked_reason := None;
        last_used_at := None; k_github_run_id := runID |} ->
      key_check row = true -> is_Some (app_bindings db !! appID) ->
      (forall i k, app_keys db !! i = Some k -> key_hash k <> HashKey plaintext) ->
      issue_outcome random appID runID now db
        {| Issued_ID := next_key_id db; Plaintext := plaintext; Issued_Hint := KeyHint plaintext |}
        (db {{ app_keys := <[next_key_id db := row]> (superseded appID (storeTime now) <$> app_keys db);
               next_key_id := next_key_id db + 1 }}).

Lemma by_hash_Some hash db i k : by_hash hash db = Some (i, k) -> app_keys db !! i = Some k /\ key_hash k = hash.
Proof.
  unfold by_hash. intros H. apply head_Some_elem_of, elem_of_map_to_list, map_lookup_filter_Some in H. done.
Qed.

Lemma by_hash_None hash db : by_hash hash db = None <-> forall i k, app_keys db !! i = Some k -> key_hash k <> hash.
Proof.
  unfold by_hash. rewrite head_None, map_to_list_empty_iff. split.
  - intros He i k Hi Hk. assert (H : filter (fun p => key_hash p.2 = hash) (app_keys db) !! i = Some k)
      by by apply map_lookup_filter_Some. by rewrite He in H.
  - intros Hall. apply map_empty. intros i. apply map_lookup_filter_None. right. intros k Hi. by apply (Hall i k).
Qed.

Lemma issue_ok random appID runID now db issued db' :
  pg_IssueKey random appID runID now db = (Ok issued, db') -> issue_outcome random appID runID now db issued db'.
Proof.
  unfold pg_IssueKey. cbv zeta. destruct (NewKey random) as [plaintext|] eqn:Hk; [|done].
  match goal with |- context [key_check ?r] => destruct (key_check r) eqn:Hck; [|done] end. cbn [negb orb].
  case_bool_decide as Hb; [done|]. case_bool_decide as Hh; [done|]. cbn [orb]. intros [= <- <-].
  econstructor; [done..| |by apply by_hash_None, eq_None_not_Some].
  destruct (app_bindings db !! appID); [by eexists|done].
Qed.

Inductive exchange_outcome (random : option (list Z)) (now : Z) (appID : string) (claims : Claims) (db : DB) :
    ExchangeResult -> DB -> Prop :=
  | exchange_filed id db' :
      app_bindings db !! appID = None -> file_outcome appID claims now (burned claims db) id db' ->
      exchange_outcome random now appID claims db (pending_result id) db'
  | exchange_issued row issued db' :
      app_bindings db !! appID = Some row -> Matches (scan_binding appID row) claims = true ->
      issue_outcome random appID (RunID claims) now (burned claims db) issued db' ->
      exchange_outcome random now appID claims db (issued_result appID issued) db'.

Lemma exchange_ok random now appID claims db res db' : wf db ->
  exchange_now random now appID claims db = (Ok res, db') ->
  oidc_replay db !! JTI claims = None /\ exchange_outcome random now appID claims db res db'.
Proof.
  intros Hwf Hrun.
  destruct (pg_RecordJTI_cases (JTI claims) (ReplayExpiry claims) db) as [(e & E)|[[E _]|(Hn & Hj & E)]].
  - rewrite (exchange_now_stale _ _ _ _ _ (Err e)) in Hrun by (left; by exists e). done.
  - rewrite (exchange_now_stale _ _ _ _ _ (Err ErrReplayed)) in Hrun by by right. done.
  - split; [done|]. rewrite exchange_now_fresh in Hrun by done. revert Hrun. unfold earned.
    destruct (app_bindings db !! appID) as [row|] eqn:Hb.
    + destruct (Matches _ _) eqn:Hm; [|done]. destruct (pg_IssueKey _ _ _ _ _) as [[issued|] db1] eqn:Hi; [|done].
      intros [= <- <-]. apply issue_ok in Hi. by econstructor.
    + destruct (pg_FilePendingRequest _ _ _ _) as [[id|] db1] eqn:Hf; [|done]. intros [= <- <-].
      apply file_ok in Hf as [_ Hf]; [by constructor|]. by destruct Hwf.
Qed.

(** ** Every operation keeps the invariant *)

Lemma count_pending_insert_new (rs : gmap Z RequestRow) i r : rs !! i = None -> is_pending r = true ->
  count_pending (<[i := r]> rs) = count_pending rs + 1.
Proof.
  intros Hi Hr. unfold count_pending. rewrite map_filter_insert_True by done.
  rewrite map_size_insert_None; [lia|]. apply map_lookup_filter_None. by left.
Qed.

Lemma count_pending_replace (rs : gmap Z RequestRow) i r r' : rs !! i = Some r' -> is_pending r' = is_pending r ->
  count_pending (<[i := r]> rs) = count_pending rs.
Proof.
  intros Hi Hr. unfold count_pending. destruct (is_pending r) eqn:Hp.
  - rewrite map_filter_insert_True by done. rewrite map_size_insert_Some; [done|]. exists r'. by apply map_lookup_filter_Some.
  - rewrite map_filter_insert_False by (simpl; congruence). do 2 f_equal. apply map_eq. intros j.
    apply option_eq. intros x. rewrite !map_lookup_filter_Some. split; [|intros [Hj Hx]; split; [|done]; rewrite lookup_delete_ne; [done|]; by intros ->; simplify_eq/=; congruence].
    intros [Hj Hx]. split; [by eapply lookup_delete_Some|done].
Qed.

Lemma file_wf appID claims now db id db' : wf db -> app_bindings db !! appID = None ->
  file_outcome appID claims now db id db' -> wf db'.
Proof.
  intros [Hb Hr Hk] Hnone [id0 r Hid (Hp & Ha & Hi) Hck|Hnew Hcap Hck]; split; simpl; try done.
  - destruct Hr as [H1 H2 H3 H4]. split.
    + intros i x [[<- <-]|[Hne Hx]]%lookup_insert_Some; [|by apply H1]. split; [done|]. by apply (H1 id0 r).
    + assert (Hold : forall i x, <[id0 := refreshed r claims (storeTime now)]> (app_registration_requests db) !! i = Some x ->
        exists x0, app_registration_requests db !! i = Some x0 /\ is_pending x = is_pending x0 /\
          r_app_id x = r_app_id x0 /\ r_identity x = r_identity x0).
      { intros i x [[<- <-]|[_ Hx]]%lookup_insert_Some; [by exists r|by exists x]. }
      intros i x i' x' (y & Hy & -> & -> & ->)%Hold (y' & Hy' & -> & -> & ->)%Hold. by apply (H2 i y i' y').
    + intros i x [[<- <-]|[Hne Hx]]%lookup_insert_Some; [|by apply (H3 i x)].
      intros _. change (app_bindings db !! r_app_id r = None). by rewrite Ha.
    + by rewrite (count_pending_replace _ _ _ r).
  - destruct Hr as [H1 H2 H3 H4]. assert (Hfresh : app_registration_requests db !! next_request_id db = None).
    { apply eq_None_not_Some. intros [x Hx]. apply H1 in Hx as [_ Hx]. lia. }
    assert (Hno : forall i x, app_registration_requests db !! i = Some x -> is_pending x = true ->
      r_app_id x = appID -> r_identity x = claims_identity claims -> False).
    { intros i x Hx ? ? ?. by eapply Hnew. }
    split.
    + intros i x [[<- <-]|[Hne Hx]]%lookup_insert_Some; [split; [done|lia]|]. apply H1 in Hx. destruct Hx. split; [done|lia].
    + intros i x i' x' [[<- <-]|[Hne Hx]]%lookup_insert_Some [[<- <-]|[Hne' Hx']]%lookup_insert_Some; try done.
      * simpl. intros _ Hp Ha Hi. exfalso. by eapply Hno.
      * simpl. intros Hp _ Ha Hi. exfalso. by eapply Hno.
      * by apply (H2 i x i' x').
    + intros i x [[<- <-]|[Hne Hx]]%lookup_insert_Some; [by intros _|by apply (H3 i x)].
    + rewrite count_pending_insert_new by done. unfold pending_count in Hcap. lia.
Qed.

Lemma superseded_key appID now k : key_check k = true ->
  same_key k (superseded appID now k) /\ (active (superseded appID now k) -> k_app_id k <> appID).
Proof.
  unfold superseded. case_bool_decide as Hc; intros Hk.
  - split; [|by intros [? _]]. split_and!; try done. by intros [? _].
  - split; [by split_and!|]. intros [Hs Hr] Ha. by apply Hc.
Qed.

Lemma issue_wf random appID runID now db issued db' : wf db ->
  issue_outcome random appID runID now db issued db' -> wf db'.
Proof.
  intros [Hb Hr Hk] [plaintext row Hkey Hrow Hck Hbound Hhash]. split; simpl; try done.
  assert (Hold : forall i x, (superseded appID (storeTime now) <$> app_keys db) !! i = Some x -> exists k,
    app_keys db !! i = Some k /\ x = superseded appID (storeTime now) k /\ same_key k x /\ (active x -> k_app_id k <> appID)).
  { intros i x Hi. apply lookup_fmap_Some in Hi as (k & <- & Hi). exists k.
    destruct (superseded_key appID (storeTime now) k) as [? ?]; [by apply (wf_key _ _ _ Hk i k)|done]. }
  assert (Hks : wf_keys (app_bindings db) (superseded appID (storeTime now) <$> app_keys db) (next_key_id db)).
  { eapply wf_keys_rewrite; [done|]. intros i x (k & ? & -> & ? & _)%Hold. by eexists. }
  destruct Hks as [H1 H2 H3]. split.
  - intros i k [[<- <-]|[Hne Hi]]%lookup_insert_Some; [subst row; split_and!; [done|lia|done]|].
    apply H1 in Hi as (? & ? & ?). split_and!; [done|lia|done].
  - intros i k i' k' [[<- <-]|[Hne Hi]]%lookup_insert_Some [[<- <-]|[Hne' Hi']]%lookup_insert_Some; try done.
    + intros He. exfalso. apply Hold in Hi' as (k0 & Hk0 & _ & (_ & Hh & _) & _). apply (Hhash _ _ Hk0). subst row. simpl in He. congruence.
    + intros He. exfalso. apply Hold in Hi as (k0 & Hk0 & _ & (_ & Hh & _) & _). apply (Hhash _ _ Hk0). subst row. simpl in He. congruence.
    + by apply (H2 i k i' k').
  - intros i k i' k' [[<- <-]|[Hne Hi]]%lookup_insert_Some [[<- <-]|[Hne' Hi']]%lookup_insert_Some; try done.
    + intros Ha _ Hact. exfalso. apply Hold in Hi' as (k0 & _ & _ & (Ha' & _) & Hn). apply (Hn Hact). subst row. simpl in Ha. congruence.
    + intros Ha Hact _. exfalso. apply Hold in Hi as (k0 & _ & _ & (Ha' & _) & Hn). apply (Hn Hact). subst row. simpl in Ha. congruence.
    + by apply (H3 i k i' k').
Qed.

Lemma burned_wf claims db : wf db -> wf (burned claims db).
Proof. by intros []. Qed.

Lemma exchange_wf random now appID claims db res db' : wf db ->
  exchange_outcome random now appID claims db res db' -> wf db'.
Proof.
  intros Hwf%(burned_wf claims) [id db1 Hn Hf|row issued db1 _ _ Hi]; [by eapply file_wf|by eapply issue_wf].
Qed.

(** ** The operator's operations *)

Lemma alter_insert_Some {A} (f : A -> A) (m : gmap Z A) i x : m !! i = Some x -> alter f i m = <[i := f x]> m.
Proof.
  intros Hi. apply map_eq. intros j. destruct (decide (j = i)) as [->|Hne].
  - by rewrite lookup_alter_eq, Hi, lookup_insert_eq.
  - by rewrite lookup_alter_ne, lookup_insert_ne by done.
Qed.

Lemma environment_roundtrip e : default EmptyString (environmentArgument e) = e.
Proof. unfold environmentArgument. by destruct (String.eqb_spec e EmptyString) as [->|]. Qed.

Lemma argument_roundtrip e : environment_check e = true -> environmentArgument (default EmptyString e) = e.
Proof.
  destruct e as [e|]; [|done]. simpl. unfold nonempty, environmentArgument. intros H. bool_hyps.
  by destruct (String.eqb_spec e EmptyString).
Qed.

Definition approved_db (db : DB) (id : Z) (app_id : string) (row : BindingRow) : DB :=
  db {{ app_bindings := <[app_id := row]> (app_bindings db);
        app_registration_requests :=
          filter (fun p => sibling app_id (b_identity row) p.2 = false) (delete id (app_registration_requests db)) }}.

Inductive approve_outcome (id : Z) (expectedAppID : string) (now : Z) (db : DB) : Binding -> DB -> Prop :=
  | approved r row :
      app_registration_requests db !! id = Some r -> is_pending r = true -> r_app_id r = expectedAppID ->
      overlaps_bound (r_app_id r) db = false ->
      row = binding_row (scanRequest id r) (storeTime now) -> binding_check (r_app_id r) row = true ->
      app_bindings db !! r_app_id r = None ->
      (forall a b, app_bindings db !! a = Some b -> b_identity b <> b_identity row) ->
      approve_outcome id expectedAppID now db (scan_binding (r_app_id r) row) (approved_db db id (r_app_id r) row).

Lemma approve_ok id expectedAppID now db b db' :
  pg_ApproveRequest id expectedAppID now db = (Ok b, db') -> approve_outcome id expectedAppID now db b db'.
Proof.
  unfold pg_ApproveRequest. cbv zeta. rewrite WithTx_ok.
  intros (request & s1 & Hlock & Hrest)%m_bind_ok. unfold lockRequest, pg_GetRequest in Hlock.
  destruct (app_registration_requests db !! id) as [r|] eqn:Hr; [|done]. injection Hlock as <- <-.
  apply m_bind_ok in Hrest as ([] & s2 & Hp & Hrest).
  change (Status (scanRequest id r)) with (status r) in Hp. fold (is_pending r) in Hp.
  destruct (is_pending r) eqn:Hpend; [|done]. injection Hp as <-.
  apply m_bind_ok in Hrest as ([] & s3 & He & Hrest). change (Request_AppID (scanRequest id r)) with (r_app_id r) in *.
  destruct (String.eqb_spec (r_app_id r) expectedAppID) as [Hexp|]; [|done]. injection He as <-.
  apply m_bind_ok in Hrest as (o & s4 & Ho & Hrest). injection Ho as <- <-.
  apply m_bind_ok in Hrest as ([] & s5 & Ho & Hrest). destruct (overlaps_bound (r_app_id r) db) eqn:Hov; [done|]. injection Ho as <-.
  set (row := binding_row (scanRequest id r) (storeTime now)) in Hrest.
  apply m_bind_ok in Hrest as (ins & s6 & Hins & Hrest). unfold insert_binding in Hins.
  destruct (binding_check (r_app_id r) row) eqn:Hck; [|done]. cbn [negb] in Hins.
  apply m_bind_ok in Hrest as ([] & s7 & Hc & Hrest).
  case_bool_decide as Hb; [by injection Hins as <- <-|]. case_bool_decide as Hid; [by injection Hins as <- <-|].
  cbn [orb] in Hins. injection Hins as <- <-. injection Hc as <-.
  apply m_bind_ok in Hrest as ([] & s8 & Hd & Hrest). injection Hd as <-.
  apply m_bind_ok in Hrest as (n & s9 & Hd & Hrest). injection Hd as <- <-. injection Hrest as <- <-.
  replace {| AppID := _ |} with (scan_binding (r_app_id r) row)
    by (unfold scan_binding, row; simpl; by rewrite environment_roundtrip).
  change (approve_outcome id expectedAppID now db (scan_binding (r_app_id r) row) (approved_db db id (r_app_id r) row)).
  apply (approved _ _ _ _ r row); try done; [by apply eq_None_not_Some|].
  intros a b' Ha Hi. apply Hid. by exists a, b'.
Qed.

Lemma overlaps_comm a b : overlaps a b = overlaps b a.
Proof. apply orb_comm. Qed.

Lemma HasPrefix_spec s p : HasPrefix s p = true <-> exists r, s = p +:+ r.
Proof.
  unfold HasPrefix. destruct (cut_prefix p s) as [r|] eqn:E.
  - apply cut_prefix_spec in E. split; [by eexists|done].
  - split; [done|]. intros [r Hr%cut_prefix_spec]. congruence.
Qed.

Lemma overlaps_refl a : overlaps a a = false.
Proof.
  unfold overlaps. rewrite orb_diag. apply not_true_iff_false. intros [r Hr]%HasPrefix_spec.
  apply (f_equal len) in Hr. rewrite !len_app in Hr. pose proof (len_nonneg r). change (len "_") with 1 in Hr. lia.
Qed.

Lemma overlaps_bound_spec a db : overlaps_bound a db = false <->
  forall a' b, app_bindings db !! a' = Some b -> overlaps a a' = false.
Proof.
  unfold overlaps_bound. rewrite bool_decide_eq_false, map_not_Exists. split.
  - intros H a' b Hb. apply not_true_iff_false. by apply (H a' b).
  - intros H a' b Hb. apply not_true_iff_false. by apply (H a' b).
Qed.

Lemma approved_requests db id app_id row i r :
  app_registration_requests (approved_db db id app_id row) !! i = Some r ->
  app_registration_requests db !! i = Some r /\ i <> id /\
  (is_pending r = true -> r_app_id r <> app_id /\ r_identity r <> b_identity row).
Proof.
  intros [[Hne Hi]%lookup_delete_Some Hs]%map_lookup_filter_Some. split_and!; [done..|].
  intros Hp. simpl in Hs. unfold sibling in Hs. rewrite Hp in Hs. cbn [andb] in Hs. by bool_hyps.
Qed.

Lemma approve_wf id e now db b db' : wf db -> approve_outcome id e now db b db' -> wf db'.
Proof.
  intros [Hb Hr Hk] [r row Hid Hp Happ Hov Hrow Hck Hnone Hident]. rewrite overlaps_bound_spec in Hov. split.
  - destruct Hb as [H1 H2 H3]. split; simpl.
    + intros a b0 [[<- <-]|[Hne Ha]]%lookup_insert_Some; [done|by apply (H1 a b0)].
    + intros a b0 a' b0' [[<- <-]|[Hne Ha]]%lookup_insert_Some [[<- <-]|[Hne' Ha']]%lookup_insert_Some; try done.
      * intros Hi. by destruct (Hident _ _ Ha').
      * intros Hi. by destruct (Hident _ _ Ha).
      * by apply (H2 a b0 a' b0').
    + intros a b0 a' b0' [[<- <-]|[Hne Ha]]%lookup_insert_Some [[<- <-]|[Hne' Ha']]%lookup_insert_Some.
      * apply overlaps_refl.
      * by eapply Hov.
      * rewrite overlaps_comm. by eapply Hov.
      * by apply (H3 a b0 a' b0').
  - eapply wf_requests_shrink; [done| |].
    + simpl. etrans; [apply map_filter_subseteq|apply delete_subseteq].
    + intros i x Hx Hpx Hnx. simpl. apply approved_requests in Hx as (_ & _ & Hx). rewrite lookup_insert_ne; [done|].
      intros Heq. by destruct (Hx Hpx).
  - destruct Hk as [H1 H2 H3]. split; simpl; try done. intros i k Hi. destruct (H1 i k Hi) as (? & ? & Hs).
    split_and!; [done..|]. apply lookup_insert_is_Some'. by right.
Qed.

Lemma delete_requests_wf db w : wf db -> wf (delete_requests w db).2.
Proof.
  intros [Hb Hr Hk]. split; try done. eapply wf_requests_shrink; [done| |done]. apply map_filter_subseteq.
Qed.

(** A waiting request becomes a rejected one. *)
Definition rejected_row (now : Z) (r : RequestRow) : RequestRow :=
  r {{ status := RequestRejected; decided_at := Some now; updated_at := now }}.

Lemma reject_ok id now db req db' : pg_RejectRequest id now db = (Ok req, db') ->
  exists r, app_registration_requests db !! id = Some r /\
    (if String.eqb (status r) RequestRejected then req = scanRequest id r /\ db' = db
     else req = scanRequest id (rejected_row (storeTime now) r) /\
       db' = db {{ app_registration_requests := <[id := rejected_row (storeTime now) r]> (app_registration_requests db) }}).
Proof.
  unfold pg_RejectRequest. cbv zeta. rewrite WithTx_ok. intros (request & s1 & Hlock & Hrest)%m_bind_ok.
  unfold lockRequest, pg_GetRequest in Hlock. destruct (app_registration_requests db !! id) as [r|] eqn:Hr; [|done].
  injection Hlock as <- <-. exists r. split; [done|]. change (Status (scanRequest id r)) with (status r) in Hrest.
  destruct (String.eqb (status r) RequestRejected); [by injection Hrest as <- <-|].
  unfold set_rejected in Hrest. rewrite Hr in Hrest. by injection Hrest as <- <-.
Qed.

Lemma rejected_check now r : request_check r = true -> request_check (rejected_row now r) = true /\ is_pending (rejected_row now r) = false.
Proof.
  split; [|done]. unfold request_check in *. rewrite !andb_true_iff in *. destruct_and!. split_and!; done.
Qed.

Lemma reject_wf id now db req db' : wf db -> pg_RejectRequest id now db = (Ok req, db') -> wf db'.
Proof.
  intros Hwf (r & Hr & Hcase)%reject_ok. destruct (String.eqb (status r) RequestRejected) eqn:Hs; [by destruct Hcase as [_ ->]|].
  destruct Hcase as [_ ->]. destruct Hwf as [Hb [H1 H2 H3 H4] Hk].
  destruct (H1 id r Hr) as [Hck0 Hlt]. destruct (rejected_check (storeTime now) r Hck0) as [Hck Hp].
  split; [done| |done]. split; simpl.
  - intros i x [[<- <-]|[Hne Hi]]%lookup_insert_Some; [done|by apply (H1 i x)].
  - intros i x i' x' [[<- <-]|[Hne Hi]]%lookup_insert_Some [[<- <-]|[Hne' Hi']]%lookup_insert_Some; try done. by apply (H2 i x i' x').
  - intros i x [[<- <-]|[Hne Hi]]%lookup_insert_Some; [done|by apply (H3 i x)].
  - etrans; [|exact H4]. unfold count_pending. rewrite map_filter_insert_False by done.
    apply Nat2Z.inj_le, map_subseteq_size, filter_subseteq_mono, delete_subseteq.
Qed.

Lemma revoke_ok id now db key db' : pg_RevokeKey id now db = (Ok key, db') ->
  exists k, app_keys db !! id = Some k /\ key = toKey (scanKey id (revoked (storeTime now) k)) (storeTime now) /\
    db' = db {{ app_keys := <[id := revoked (storeTime now) k]> (app_keys db) }}.
Proof.
  unfold pg_RevokeKey. cbv zeta. rewrite WithTx_ok. intros ([] & s1 & Hd & Hrest)%m_bind_ok.
  assert (s1 = db {{ app_keys := alter (revoked (storeTime now)) id (app_keys db) }}) as -> by (unfold m_do in Hd; congruence).
  unfold read_key in Hrest.
  change (app_keys (db {{ app_keys := ?ks }})) with ks in Hrest. rewrite lookup_alter_eq in Hrest.
  destruct (app_keys db !! id) as [k|] eqn:Hk; [|done]. simpl in Hrest. exists k.
  rewrite (alter_insert_Some _ _ _ _ Hk) in Hrest. by injection Hrest as <- <-.
Qed.

Lemma revoked_check now k : key_check k = true ->
  key_check (k {{ revoked_at := Some now; revoked_reason := Some RevokedReasonOperator }}) = true.
Proof. destruct k. unfold key_check. simpl. rewrite !andb_true_iff. intros [[[[? ?] ?] ?] ?]. by split_and!. Qed.

Lemma revoked_same now k : key_check k = true -> same_key k (revoked now k).
Proof.
  intros Hck. unfold revoked. destruct (revocable now k); [|by split_and!].
  split; [done|]. split; [done|]. split; [by apply revoked_check|]. by intros [_ ?].
Qed.

Lemma set_key_wf db id k k' : wf db -> app_keys db !! id = Some k -> same_key k k' ->
  wf (db {{ app_keys := <[id := k']> (app_keys db) }}).
Proof.
  intros [Hb Hr Hk] Hi Hs. split; [done..|]. eapply wf_keys_rewrite; [done|]. simpl.
  intros i x [[<- <-]|[Hne Hx]]%lookup_insert_Some; [by exists k|]. exists x. split; [done|]. split_and!; try done.
  by apply (wf_key _ _ _ Hk i x).
Qed.

Lemma revoke_wf id now db key db' : wf db -> pg_RevokeKey id now db = (Ok key, db') -> wf db'.
Proof.
  intros Hwf (k & Hk & _ & ->)%revoke_ok. eapply set_key_wf; [done..|]. apply revoked_same.
  by apply (wf_key _ _ _ (wf_k _ Hwf) id k).
Qed.

Lemma touch_wf id now db r db' : wf db -> pg_TouchKey id now db = (r, db') -> wf db'.
Proof.
  intros Hwf. unfold pg_TouchKey. cbv zeta. destruct (app_keys db !! id) as [k|] eqn:Hk; [|by intros [= _ <-]].
  pose proof (wf_key _ _ _ (wf_k _ Hwf) id k Hk) as [Hck _].
  destruct (match last_used_at k with None => _ | Some _ => _ end); intros [= _ <-]; [|done].
  eapply set_key_wf; [done..|]. by split_and!.
Qed.

Lemma unbind_ok appID db r db' : pg_Unbind appID db = (r, db') ->
  (r = Ok false /\ db' = db /\ app_bindings db !! appID = None) \/
  (r = Ok true /\ is_Some (app_bindings db !! appID) /\
   db' = db {{ app_bindings := delete appID (app_bindings db);
               app_keys := filter (fun p => k_app_id p.2 <> appID) (app_keys db) }}).
Proof. unfold pg_Unbind. destruct (app_bindings db !! appID) eqn:E; intros [= <- <-]; [right|left]; split_and!; try done. Qed.

Lemma unbind_wf appID db r db' : wf db -> pg_Unbind appID db = (r, db') -> wf db'.
Proof.
  intros Hwf [(_ & -> & _)|(_ & _ & ->)]%unbind_ok; [done|]. destruct Hwf as [[H1 H2 H3] Hr Hk]. split; simpl.
  - split.
    + intros a b [_ Ha]%lookup_delete_Some. by apply (H1 a b).
    + intros a b a' b' [_ Ha]%lookup_delete_Some [_ Ha']%lookup_delete_Some. by apply (H2 a b a' b').
    + intros a b a' b' [_ Ha]%lookup_delete_Some [_ Ha']%lookup_delete_Some. by apply (H3 a b a' b').
  - eapply wf_requests_shrink; [done..|]. intros i x _ _ Hn. apply lookup_delete_None. by right.
  - eapply wf_keys_filter; [done|]. intros i k Hi Hne. simpl in Hne. destruct (wf_key _ _ _ Hk i k Hi) as (_ & _ & [b Hb]).
    exists b. by rewrite lookup_delete_ne.
Qed.
