(* ===== verification/IdentityRun.v ===== *)
(** * IdentityRun

    The runs of the app identity store: what each operation leaves of keys, bindings
    and requests, and where every row of a reachable database comes from. *)

From S2P Require Import Prelude GoText Utf8 Idents Sha256 Identity IdentityStore IdentityService IdentityExchange IdentityInv.
Open Scope Z_scope.
Import appidentity identity_pg identity_service.

(** ** Steps and runs *)

(** What happened: an exchange of claims verified at [verified], with its result, an
    approval, a rejection, and so on.  Operations that fail change nothing. *)
Inductive event : Type :=
  | Exchanged (verified : Z) (appID : string) (claims : Claims) (res : ExchangeResult)
  | Approved (requestID : Z) (b : Binding)
  | Rejected (requestID : Z)
  | KeyRevokedBy (keyID : Z)
  | KeyTouched (keyID : Z)
  | AppUnbound (appID : string)
  | ReplaySwept
  | RejectedSwept
  | PendingSwept (ttl : Z).

(** One operation at the clock reading [at_].  The verifier accepts a token before its
    expiry and the leeway, and the exchange follows. *)
Inductive step (at_ : Z) : event -> DB -> DB -> Prop :=
  | step_exchange random verified appID claims res db db' :
      verified <= at_ -> time.Before verified (time.Add (ExpiresAt claims) ClockLeeway) = true ->
      exchange_now random at_ appID claims db = (Ok res, db') ->
      step at_ (Exchanged verified appID claims res) db db'
  | step_approve requestID expectedAppID b db db' :
      pg_ApproveRequest requestID expectedAppID at_ db = (Ok b, db') -> step at_ (Approved requestID b) db db'
  | step_reject requestID req db db' :
      pg_RejectRequest requestID at_ db = (Ok req, db') -> step at_ (Rejected requestID) db db'
  | step_revoke keyID key db db' :
      pg_RevokeKey keyID at_ db = (Ok key, db') -> step at_ (KeyRevokedBy keyID) db db'
  | step_touch keyID wrote db db' :
      pg_TouchKey keyID at_ db = (Ok wrote, db') -> step at_ (KeyTouched keyID) db db'
  | step_unbind appID db db' :
      pg_Unbind appID db = (Ok true, db') -> step at_ (AppUnbound appID) db db'
  | step_sweep_replay db : step at_ ReplaySwept db (pg_DeleteExpiredReplay at_ db).2
  | step_sweep_rejected db : step at_ RejectedSwept db (pg_DeleteExpiredRejectedRequests at_ db).2
  | step_sweep_pending ttl db : step at_ (PendingSwept ttl) db (pg_DeleteStalePendingRequests at_ ttl db).2.

(** What happened and when, the latest first. *)
Definition trace : Type := list (Z * event).

Inductive run : trace -> DB -> Prop :=
  | run_empty : run [] empty
  | run_step tr db at_ ev db' : run tr db -> step at_ ev db db' -> run ((at_, ev) :: tr) db'.

Lemma sweep_pending_cases at_ ttl db :
  (pg_DeleteStalePendingRequests at_ ttl db).2 = db \/
  (pg_DeleteStalePendingRequests at_ ttl db).2 = (delete_requests (stale_pending (time.Add (storeTime at_) (- ttl))) db).2.
Proof. unfold pg_DeleteStalePendingRequests. destruct (ttl <=? 0); [by left|by right]. Qed.

Lemma identity_step_wf at_ ev db db' : wf db -> step at_ ev db db' -> wf db'.
Proof.
  intros Hwf Hstep.
  destruct Hstep as [random verified appID claims res db0 db1 _ _ Hx|? ? ? ? ? Hx|? ? ? ? Hx|? ? ? ? Hx|? ? ? ? Hx|? ? ? Hx|db0|db0|ttl db0].
  - apply exchange_ok in Hx as [_ Hx]; [|done]. by eapply exchange_wf.
  - apply approve_ok in Hx. by eapply approve_wf.
  - by eapply reject_wf.
  - by eapply revoke_wf.
  - by eapply touch_wf.
  - by eapply unbind_wf.
  - destruct Hwf. by split.
  - by apply delete_requests_wf.
  - destruct (sweep_pending_cases at_ ttl db0) as [-> | ->]; [done|by apply delete_requests_wf].
Qed.

Lemma run_wf tr db : run tr db -> wf db.
Proof. induction 1; [apply identity_empty_wf|by eapply identity_step_wf]. Qed.

Lemma step_exchanged at_ v a c res db db' : step at_ (Exchanged v a c res) db db' ->
  v <= at_ /\ v < ReplayExpiry c /\ exists random, exchange_now random at_ a c db = (Ok res, db').
Proof.
  remember (Exchanged v a c res) as ev eqn:Hev. intros Hstep.
  destruct Hstep as [random verified appID claims res0 db0 db1 Hle Hb Hx| | | | | | | |]; try done.
  injection Hev as -> -> -> ->. apply Z.ltb_lt in Hb. eauto.
Qed.

(** ** What a step leaves of the keys *)

(** An exchange that issued a key to the app. *)
Definition issues (appID : string) (ev : event) : Prop :=
  match ev with Exchanged _ a _ res => a = appID /\ Result_Status res = ExchangeIssued | _ => False end.
#[global] Instance issues_dec appID ev : Decision (issues appID ev).
Proof. destruct ev; simpl; apply _. Defined.

(** A key row after an event. *)
Record key_after (at_ : Z) (ev : event) (i : Z) (k k' : KeyRow) : Prop := {
  after_app : k_app_id k' = k_app_id k;
  after_hash : key_hash k' = key_hash k;
  after_hint : key_hint k' = key_hint k;
  after_unbound : ev <> AppUnbound (k_app_id k);
  after_revoked : revoked_at k' = None -> revoked_at k = None;
  after_superseded t : superseded_at k = Some t -> superseded_at k' = Some t;
  after_revoke : ev = KeyRevokedBy i -> revoked_at k' = None ->
    exists t, superseded_at k' = Some t /\ t + SupersededGrace <= storeTime at_;
  after_issue : issues (k_app_id k) ev -> revoked_at k' = None -> superseded_at k = None ->
    superseded_at k' = Some (storeTime at_);
  after_newly_superseded : superseded_at k = None -> superseded_at k' <> None -> issues (k_app_id k) ev;
  after_newly_revoked : revoked_at k = None -> revoked_at k' <> None -> ev = KeyRevokedBy i
}.

Lemma key_after_same at_ ev i k : ev <> AppUnbound (k_app_id k) -> ev <> KeyRevokedBy i -> ~ issues (k_app_id k) ev ->
  key_after at_ ev i k k.
Proof. intros. by split. Qed.

(** An event that issues no key and concerns none. *)
Ltac untouched := apply key_after_same; [congruence|congruence|by intros []].

(** A key an event has issued. *)
Definition key_issued (ev : event) (db : DB) (i : Z) (k : KeyRow) : Prop :=
  exists v c res b, ev = Exchanged v (k_app_id k) c res /\ Result_Status res = ExchangeIssued /\ KeyID res = i /\
    HashKey (Result_Key res) = key_hash k /\ KeyHint (Result_Key res) = key_hint k /\ superseded_at k = None /\ revoked_at k = None /\ i = next_key_id db /\
    app_bindings db !! k_app_id k = Some b /\ Matches (scan_binding (k_app_id k) b) c = true.

Lemma superseded_after at_ ev i appID now k : ev <> KeyRevokedBy i -> ev <> AppUnbound (k_app_id k) ->
  (issues (k_app_id k) ev <-> k_app_id k = appID) -> now = storeTime at_ ->
  key_after at_ ev i k (superseded appID now k).
Proof.
  intros Hr Hu Hi ->. unfold superseded. case_bool_decide as Hc; split; try done; simpl; try congruence.
  - intros t Ht. destruct Hc as (_ & Hs & _). congruence.
  - intros _ _. apply Hi. by destruct Hc.
  - intros Hiss%Hi Hrev Hs. by destruct Hc.
Qed.

Lemma revoked_after at_ i k : key_after at_ (KeyRevokedBy i) i k (revoked (storeTime at_) k).
Proof.
  unfold revoked. destruct (revocable (storeTime at_) k) eqn:Hrev; split; try done.
  intros _ Hr. unfold revocable in Hrev. rewrite (bool_decide_eq_true_2 _ Hr) in Hrev. cbn [andb] in Hrev.
  destruct (superseded_at k) as [t|]; [|done]. bool_hyps. exists t. split; [done|]. unfold time.Add in Hrev. lia.
Qed.

Lemma keys_step at_ ev db db' i k' : wf db -> step at_ ev db db' -> app_keys db' !! i = Some k' ->
  (exists k, app_keys db !! i = Some k /\ key_after at_ ev i k k') \/ key_issued ev db i k'.
Proof.
  intros Hwf Hstep Hk.
  assert (Hsame : app_keys db' = app_keys db -> (forall k, app_keys db !! i = Some k -> key_after at_ ev i k k) ->
    (exists k, app_keys db !! i = Some k /\ key_after at_ ev i k k') \/ key_issued ev db i k').
  { intros He Ha. left. rewrite He in Hk. eauto. }
  destruct Hstep as [random verified appID claims res db0 db1 _ _ Hx|? ? ? db0 ? Hx|? ? db0 ? Hx|keyID ? db0 ? Hx|keyID ? db0 ? Hx|appID db0 ? Hx|db0|db0|ttl db0].
  - apply exchange_ok in Hx as [_ Hx]; [|done]. destruct Hx as [id db1 Hn Hf|row issued db1 Hb Hm Hi].
    + apply Hsame; [by destruct Hf|]. intros k Hk0. apply key_after_same; [done..|]. by intros [_ ?].
    + destruct Hi as [plaintext row' _ Hrow _ _ _]. simpl in Hk. apply lookup_insert_Some in Hk as [[<- <-]|[Hne Hk]].
      * right. subst row'. exists verified, claims, (issued_result appID
          {| Issued_ID := next_key_id (burned claims db0); Plaintext := plaintext; Issued_Hint := KeyHint plaintext |}), row.
        by split_and!.
      * left. apply lookup_fmap_Some in Hk as (k & <- & Hk). exists k. split; [done|]. apply superseded_after; [done..| |done].
        simpl. split; [by intros [<- _]|by intros <-].
  - apply approve_ok in Hx. destruct Hx. apply Hsame; [done|]. intros k _. untouched.
  - apply reject_ok in Hx as (r & _ & Hx). apply Hsame; [|intros k _; untouched].
    destruct (String.eqb (status r) RequestRejected); by destruct Hx as [_ ->].
  - apply revoke_ok in Hx as (k & Hk0 & _ & ->). left. simpl in Hk. apply lookup_insert_Some in Hk as [[<- <-]|[Hne Hk]].
    + exists k. split; [done|apply revoked_after].
    + exists k'. split; [done|]. untouched.
  - revert Hx. unfold pg_TouchKey. cbv zeta. destruct (app_keys db0 !! keyID) as [k|] eqn:Hk0.
    2:{ intros [= _ <-]. apply Hsame; [done|]. intros k _. untouched. }
    destruct (match last_used_at k with None => _ | Some _ => _ end); intros [= _ <-].
    2:{ apply Hsame; [done|]. intros k0 _. untouched. }
    left. simpl in Hk. apply lookup_insert_Some in Hk as [[<- <-]|[Hne Hk]].
    + exists k. split; [done|]. by split.
    + exists k'. split; [done|]. untouched.
  - apply unbind_ok in Hx as [(? & _)|(_ & _ & ->)]; [done|]. left. simpl in Hk. apply map_lookup_filter_Some in Hk as [Hk Hne].
    exists k'. split; [done|]. simpl in Hne. untouched.
  - apply Hsame; [done|]. intros k _. untouched.
  - apply Hsame; [done|]. intros k _. untouched.
  - apply Hsame; [|intros k _; untouched]. by destruct (sweep_pending_cases at_ ttl db0) as [-> | ->].
Qed.

(** ** What a step leaves of the bindings and the requests *)

Lemma bindings_step at_ ev db db' a b : wf db -> step at_ ev db db' -> app_bindings db' !! a = Some b ->
  (app_bindings db !! a = Some b /\ ev <> AppUnbound a) \/
  (exists id r t, ev = Approved id (scan_binding a b) /\ app_registration_requests db !! id = Some r /\
    r_app_id r = a /\ b = binding_row (scanRequest id r) t).
Proof.
  intros Hwf Hstep Hb.
  destruct Hstep as [random verified appID claims res db0 db1 _ _ Hx|? ? ? db0 ? Hx|? ? db0 ? Hx|keyID ? db0 ? Hx|keyID ? db0 ? Hx|appID db0 ? Hx|db0|db0|ttl db0].
  - left. split; [|done]. apply exchange_ok in Hx as [_ Hx]; [|done].
    destruct Hx as [id db1 Hn []|row issued db1 Hbb Hm []]; done.
  - apply approve_ok in Hx. destruct Hx as [r row Hr Hp Ha _ Hrow _ _ _].
    simpl in Hb. apply lookup_insert_Some in Hb as [[<- <-]|[Hne Hb]]; [right|by left].
    exists requestID, r, (storeTime at_). by split_and!.
  - left. split; [|done]. apply reject_ok in Hx as (r & _ & Hx).
    destruct (String.eqb (status r) RequestRejected); by destruct Hx as [_ ->].
  - left. split; [|done]. by apply revoke_ok in Hx as (k & _ & _ & ->).
  - left. split; [|done]. revert Hx. unfold pg_TouchKey. cbv zeta. destruct (app_keys db0 !! keyID) as [k|].
    2:{ by intros [= _ <-]. }
    destruct (match last_used_at k with None => _ | Some _ => _ end); by intros [= _ <-].
  - apply unbind_ok in Hx as [(? & _)|(_ & _ & ->)]; [done|]. left. simpl in Hb. apply lookup_delete_Some in Hb as [Hne Hb].
    split; [done|congruence].
  - by left.
  - by left.
  - left. split; [|done]. by destruct (sweep_pending_cases at_ ttl db0) as [He|He]; rewrite He in Hb.
Qed.

(** The row names the app and workflow identity of the claims. *)
Definition holds_claims (r : RequestRow) (c : Claims) : Prop :=
  r_identity r = claims_identity c /\ r_owner_id r = Claims_RepositoryOwnerID c.

Definition same_request (r r' : RequestRow) : Prop :=
  r_app_id r' = r_app_id r /\ r_identity r' = r_identity r /\ r_owner_id r' = r_owner_id r.

Lemma requests_step at_ ev db db' i r' : wf db -> step at_ ev db db' -> app_registration_requests db' !! i = Some r' ->
  (exists r, app_registration_requests db !! i = Some r /\ same_request r r') \/
  (exists v c, ev = Exchanged v (r_app_id r') c (pending_result i) /\ holds_claims r' c).
Proof.
  intros Hwf Hstep Hr.
  destruct Hstep as [random verified appID claims res db0 db1 _ _ Hx|? ? ? db0 ? Hx|? ? db0 ? Hx|keyID ? db0 ? Hx|keyID ? db0 ? Hx|appID db0 ? Hx|db0|db0|ttl db0].
  - apply exchange_ok in Hx as [_ Hx]; [|done]. destruct Hx as [id db1 Hn Hf|row issued db1 Hb Hm Hi].
    + destruct Hf as [id r Hid (Hp & Ha & Hi) Hck|Hnew Hcap Hck]; simpl in Hr;
        apply lookup_insert_Some in Hr as [[<- <-]|[Hne Hr]]; [right|left; by eexists|right|left; by eexists].
      * exists verified, claims. change (r_app_id (refreshed r claims (storeTime at_))) with (r_app_id r). rewrite Ha. by split.
      * by exists verified, claims.
    + left. destruct Hi. by eexists.
  - apply approve_ok in Hx. destruct Hx. apply approved_requests in Hr as (Hr & _). left. by eexists.
  - apply reject_ok in Hx as (r & Hr0 & Hx). left. destruct (String.eqb (status r) RequestRejected).
    + destruct Hx as [_ ->]. by eexists.
    + destruct Hx as [_ ->]. simpl in Hr. apply lookup_insert_Some in Hr as [[<- <-]|[Hne Hr]]; by eexists.
  - apply revoke_ok in Hx as (k & _ & _ & ->). left. by eexists.
  - left. revert Hx. unfold pg_TouchKey. cbv zeta. destruct (app_keys db0 !! keyID) as [k|].
    2:{ intros [= _ <-]. by eexists. }
    destruct (match last_used_at k with None => _ | Some _ => _ end); intros [= _ <-]; by eexists.
  - apply unbind_ok in Hx as [(? & _)|(_ & _ & ->)]; [done|]. left. by eexists.
  - left. by eexists.
  - left. apply map_lookup_filter_Some in Hr as [Hr _]. by eexists.
  - left. destruct (sweep_pending_cases at_ ttl db0) as [He|He]; rewrite He in Hr; [by eexists|].
    apply map_lookup_filter_Some in Hr as [Hr _]. by eexists.
Qed.

(** ** Where rows come from *)

(** An exchange for the app filed the request, with claims the binding matches. *)
Definition filed (tr : trace) (id : Z) (a : string) (b : Binding) : Prop :=
  exists at_ v c, (at_, Exchanged v a c (pending_result id)) ∈ tr /\ Matches b c = true.

(** The operator approved the binding and nothing has removed it. *)
Definition bound_since (tr : trace) (a : string) (b : Binding) : Prop :=
  exists l1 at_ id l2, tr = l1 ++ (at_, Approved id b) :: l2 /\
    (forall x, x ∈ l1 -> x.2 <> AppUnbound a) /\ filed l2 id a b.

Definition request_origin (tr : trace) (i : Z) (r : RequestRow) : Prop :=
  exists at_ v c, (at_, Exchanged v (r_app_id r) c (pending_result i)) ∈ tr /\ holds_claims r c.

(** The first key an app is issued in a part of a trace, and when. *)
Definition first_issue (l : trace) (a : string) (t : Z) : Prop :=
  exists l1 ev l2, l = l1 ++ (t, ev) :: l2 /\ issues a ev /\ forall x, x ∈ l2 -> ~ issues a x.2.

(** What happened to a key since it was issued: its app was not unbound, a revocation
    left its mark, and the first key issued after it has superseded it. *)
Record key_history (l : trace) (i : Z) (k : KeyRow) : Prop := {
  history_bound x : x ∈ l -> x.2 <> AppUnbound (k_app_id k);
  history_revoke t : (t, KeyRevokedBy i) ∈ l -> revoked_at k = None ->
    exists s, superseded_at k = Some s /\ s + SupersededGrace <= storeTime t;
  history_revoked : revoked_at k <> None -> exists t, (t, KeyRevokedBy i) ∈ l;
  history_issue t : revoked_at k = None -> first_issue l (k_app_id k) t -> superseded_at k = Some (storeTime t);
  history_superseded : superseded_at k <> None -> exists t, first_issue l (k_app_id k) t
}.

(** The key was issued to its app in exchange for a token of the workflow its binding
    approves. *)
Definition key_origin (tr : trace) (i : Z) (k : KeyRow) : Prop :=
  exists l1 at_ v c res l2 b,
    tr = l1 ++ (at_, Exchanged v (k_app_id k) c res) :: l2 /\
    Result_Status res = ExchangeIssued /\ KeyID res = i /\ HashKey (Result_Key res) = key_hash k /\
    KeyHint (Result_Key res) = key_hint k /\ bound_since l2 (k_app_id k) b /\ Matches b c = true /\
    key_history l1 i k.

Record origins (tr : trace) (db : DB) : Prop := {
  origin_request i r : app_registration_requests db !! i = Some r -> request_origin tr i r;
  origin_binding a b : app_bindings db !! a = Some b -> bound_since tr a (scan_binding a b);
  origin_key i k : app_keys db !! i = Some k -> key_origin tr i k
}.

Lemma holds_claims_matches r c id t : holds_claims r c -> Matches (scan_binding (r_app_id r) (binding_row (scanRequest id r) t)) c = true.
Proof.
  intros [Hi Ho]. unfold r_identity, claims_identity in Hi. injection Hi as H1 H2 H3 H4.
  unfold Matches. simpl. rewrite environment_roundtrip, H4, environment_roundtrip, H1, H2, H3, Ho.
  by rewrite !Z.eqb_refl, !String.eqb_refl.
Qed.

Lemma bound_since_cons tr a b x : x.2 <> AppUnbound a -> bound_since tr a b -> bound_since (x :: tr) a b.
Proof.
  intros Hx (l1 & at_ & id & l2 & -> & Hn & Hf). exists (x :: l1), at_, id, l2. split_and!; [done| |done].
  intros y [->|Hy]%elem_of_cons; [done|by apply Hn].
Qed.

Lemma first_issue_cons_old l a t x : first_issue l a t -> first_issue (x :: l) a t.
Proof. intros (l1 & ev & l2 & -> & Hi & Hn). by exists (x :: l1), ev, l2. Qed.

Lemma first_issue_cons l a t x : first_issue (x :: l) a t ->
  first_issue l a t \/ (x.1 = t /\ issues a x.2 /\ forall y, y ∈ l -> ~ issues a y.2).
Proof.
  intros ([|y l1] & ev & l2 & Heq & Hi & Hn); injection Heq as -> ->; [by right|]. left. by exists l1, ev, l2.
Qed.

Lemma first_issue_dec l a : (exists t, first_issue l a t) \/ forall y, y ∈ l -> ~ issues a y.2.
Proof.
  induction l as [|[t ev] l IH]; [right; by intros y ?%elem_of_nil|]. destruct IH as [[s Hs]|Hn].
  - left. exists s. by apply first_issue_cons_old.
  - destruct (decide (issues a ev)) as [Hi|Hi]; [left; exists t; by exists [], ev, l|].
    right. by intros y [->|Hy]%elem_of_cons; [|apply Hn].
Qed.

Lemma history_cons at_ ev l i k k' : key_after at_ ev i k k' -> key_history l i k -> key_history ((at_, ev) :: l) i k'.
Proof.
  intros Ha Hh. split.
  - rewrite (after_app _ _ _ _ _ Ha). intros x [->|Hx]%elem_of_cons; [apply (after_unbound _ _ _ _ _ Ha)|by apply (history_bound _ _ _ Hh)].
  - intros t [[= -> <-]|Hin]%elem_of_cons Hr; [by apply (after_revoke _ _ _ _ _ Ha)|].
    destruct (history_revoke _ _ _ Hh t Hin) as (s & Hs & Hle); [by apply (after_revoked _ _ _ _ _ Ha)|].
    exists s. split; [by apply (after_superseded _ _ _ _ _ Ha)|done].
  - intros Hr. destruct (revoked_at k) as [r|] eqn:Hk.
    + destruct (history_revoked _ _ _ Hh) as [t Ht]; [by rewrite Hk|]. exists t. by right.
    + exists at_. rewrite (after_newly_revoked _ _ _ _ _ Ha) by done. by left.
  - rewrite (after_app _ _ _ _ _ Ha). intros t Hr Hf. pose proof (after_revoked _ _ _ _ _ Ha Hr) as Hr0.
    apply first_issue_cons in Hf as [Hf|(<- & Hi & Hn)].
    + apply (after_superseded _ _ _ _ _ Ha). by apply (history_issue _ _ _ Hh).
    + apply (after_issue _ _ _ _ _ Ha); [done..|]. destruct (superseded_at k) eqn:Hs; [|done].
      destruct (history_superseded _ _ _ Hh) as (t & l1 & ev' & l2 & -> & Hi' & _); [by rewrite Hs|].
      exfalso. apply (Hn (t, ev')); [set_solver|done].
  - rewrite (after_app _ _ _ _ _ Ha). intros Hs. destruct (superseded_at k) as [s|] eqn:Hk.
    + destruct (history_superseded _ _ _ Hh) as [t Ht]; [by rewrite Hk|]. exists t. by apply first_issue_cons_old.
    + pose proof (after_newly_superseded _ _ _ _ _ Ha Hk Hs) as Hi.
      destruct (first_issue_dec l (k_app_id k)) as [[t Ht]|Hn]; [exists t; by apply first_issue_cons_old|].
      exists at_. by exists [], ev, l.
Qed.

Lemma history_new i k : superseded_at k = None -> revoked_at k = None -> key_history [] i k.
Proof.
  intros Hs Hr. split; try congruence.
  - by intros x ?%elem_of_nil.
  - by intros t ?%elem_of_nil.
  - intros t _ ([|] & ? & ? & ? & _); done.
Qed.

Lemma run_origins tr db : run tr db -> origins tr db.
Proof.
  induction 1 as [|tr db at_ ev db' Hrun IH Hstep]; [by split|]. pose proof (run_wf _ _ Hrun) as Hwf. split.
  - intros i r' Hr. destruct (requests_step _ _ _ _ _ _ Hwf Hstep Hr) as [(r & Hr0 & Ha & Hi & Ho)|(v & c & -> & Hc)].
    + destruct (origin_request _ _ IH i r Hr0) as (t & v & c & Hin & Hc1 & Hc2). exists t, v, c.
      rewrite Ha. split; [by right|]. unfold holds_claims. by rewrite Hi, Ho.
    + exists at_, v, c. split; [by left|done].
  - intros a b Hb. destruct (bindings_step _ _ _ _ _ _ Hwf Hstep Hb) as [[Hb0 Hne]|(id & r & t & -> & Hr & <- & ->)].
    + by apply bound_since_cons, (origin_binding _ _ IH).
    + destruct (origin_request _ _ IH id r Hr) as (t0 & v & c & Hin & Hc). exists [], at_, id, tr.
      split_and!; [done|by intros x ?%elem_of_nil|]. exists t0, v, c. split; [done|]. by apply holds_claims_matches.
  - intros i k' Hk. destruct (keys_step _ _ _ _ _ _ Hwf Hstep Hk) as [(k & Hk0 & Ha)|(v & c & res & b & -> & Hs & Hid & Hh & Hhint & Hsup & Hrev & _ & Hb & Hm)].
    + destruct (origin_key _ _ IH i k Hk0) as (l1 & t & v & c & res & l2 & b & -> & Hs & Hid & Hh & Hhint & Hb & Hm & Hhist).
      exists ((at_, ev) :: l1), t, v, c, res, l2, b. unfold key_origin.
      rewrite (after_app _ _ _ _ _ Ha), (after_hash _ _ _ _ _ Ha), (after_hint _ _ _ _ _ Ha).
      split_and!; try done. by eapply history_cons.
    + exists [], at_, v, c, res, tr, (scan_binding (k_app_id k') b). split_and!; try done.
      * by apply (origin_binding _ _ IH).
      * by apply history_new.
Qed.

(** ** Keys stay until their app is unbound *)

Lemma key_persists at_ ev db db' i k : wf db -> step at_ ev db db' -> app_keys db !! i = Some k ->
  ev <> AppUnbound (k_app_id k) -> exists k', app_keys db' !! i = Some k' /\ key_after at_ ev i k k'.
Proof.
  intros Hwf Hstep Hk Hne.
  assert (Hex : is_Some (app_keys db' !! i)).
  { destruct Hstep as [random verified appID claims res db0 db1 _ _ Hx|? ? ? db0 ? Hx|? ? db0 ? Hx|keyID ? db0 ? Hx|keyID ? db0 ? Hx|appID db0 ? Hx|db0|db0|ttl db0].
    - apply exchange_ok in Hx as [_ Hx]; [|done]. destruct Hx as [id db1 Hn Hf|row issued db1 Hb Hm Hi].
      + destruct Hf; by eexists.
      + destruct Hi. simpl. apply lookup_insert_is_Some'. right. rewrite lookup_fmap. apply fmap_is_Some. by exists k.
    - apply approve_ok in Hx. destruct Hx. by eexists.
    - apply reject_ok in Hx as (r & _ & Hx). destruct (String.eqb (status r) RequestRejected); destruct Hx as [_ ->]; by eexists.
    - apply revoke_ok in Hx as (k0 & _ & _ & ->). simpl. apply lookup_insert_is_Some'. right. by eexists.
    - revert Hx. unfold pg_TouchKey. cbv zeta. destruct (app_keys db0 !! keyID) as [k0|].
      2:{ intros [= _ <-]. by eexists. }
      destruct (match last_used_at k0 with None => _ | Some _ => _ end); intros [= _ <-]; [|by eexists].
      simpl. apply lookup_insert_is_Some'. right. by eexists.
    - apply unbind_ok in Hx as [(? & _)|(_ & _ & ->)]; [done|]. exists k. simpl. apply map_lookup_filter_Some.
      split; [done|]. simpl. congruence.
    - by eexists.
    - by eexists.
    - destruct (sweep_pending_cases at_ ttl db0) as [-> | ->]; by eexists. }
  destruct Hex as [k' Hk']. exists k'. split; [done|].
  destruct (keys_step _ _ _ _ _ _ Hwf Hstep Hk') as [(k0 & Hk0 & Ha)|(v & c & res & b & _ & _ & _ & _ & _ & _ & _ & Hi & _)]; [by simplify_eq|].
  destruct (wf_key _ _ _ (wf_k _ Hwf) i k Hk) as (_ & Hlt & _). lia.
Qed.

(** A key issued to an app that has not been unbound since is there, with its history. *)
Lemma issued_key_history tr db l1 at_ v a c res l2 : run tr db ->
  tr = l1 ++ (at_, Exchanged v a c res) :: l2 -> Result_Status res = ExchangeIssued ->
  (forall x, x ∈ l1 -> x.2 <> AppUnbound a) ->
  exists k, app_keys db !! KeyID res = Some k /\ k_app_id k = a /\ key_hash k = HashKey (Result_Key res) /\
    key_hint k = KeyHint (Result_Key res) /\ key_history l1 (KeyID res) k.
Proof.
  intros Hrun. revert l1. induction Hrun as [|tr db t ev db' Hrun IH Hstep]; intros l1 Heq Hs Hn.
  { by destruct l1. }
  pose proof (run_wf _ _ Hrun) as Hwf. destruct l1 as [|x l1].
  - injection Heq as -> -> ->. apply step_exchanged in Hstep as (_ & _ & random & [_ Hx]%exchange_ok); [|done].
    destruct Hx as [id db1 Hnb Hf|row issued db1 Hb Hm Hi]; [done|]. destruct Hi as [plaintext row' _ -> _ _ _].
    eexists. simpl. rewrite lookup_insert_eq. split; [done|]. split_and!; try done. by apply history_new.
  - injection Heq as <- ->. destruct (IH l1 eq_refl Hs) as (k & Hk & <- & Hh & Hhint & Hhist); [intros y Hy; apply Hn; by right|].
    destruct (key_persists _ _ _ _ _ _ Hwf Hstep Hk) as (k' & Hk' & Ha); [apply (Hn (t, ev)); by left|].
    exists k'. rewrite (after_app _ _ _ _ _ Ha), (after_hash _ _ _ _ _ Ha), (after_hint _ _ _ _ _ Ha).
    split_and!; try done. by eapply history_cons.
Qed.
