(* ===== verification/IdentityProps.v ===== *)
(** * IdentityProps

    What app identity guarantees over every run of its store: which keys authenticate
    an app, that a token is exchanged once, that a key stays dead, that no two apps
    share names; and the outcome of an exchange and of an approval. *)

From S2P Require Import Prelude GoText Utf8 Std Sha256 Idents Identity IdentityStore IdentityService IdentityExchange IdentityInv IdentityRun.
Open Scope Z_scope.
Import appidentity identity_pg identity_service.

Lemma storeTime_mono t u : t <= u -> storeTime t <= storeTime u.
Proof. intros H. by apply time.Truncate_mono. Qed.

Lemma storeTime_lt t u : storeTime t < storeTime u -> t < u.
Proof. intros H. destruct (Z.le_gt_cases u t) as [Hle|]; [|done]. apply storeTime_mono in Hle. lia. Qed.

(** ** Keys *)

Lemma by_hash_unique db i k : wf db -> app_keys db !! i = Some k -> by_hash (key_hash k) db = Some (i, k).
Proof.
  intros Hwf Hk. destruct (by_hash (key_hash k) db) as [[i' k']|] eqn:E.
  - apply by_hash_Some in E as [Hk' Hh]. pose proof (wf_hash _ _ _ (wf_k _ Hwf) i' k' i k Hk' Hk Hh). by simplify_eq.
  - exfalso. by apply (proj1 (by_hash_None _ _) E i k).
Qed.

Lemma ResolveKey_spec db key now r : (pg_ResolveKey key now db).1 = Ok r <->
  WellFormedKey key = true /\ exists i k, by_hash (HashKey key) db = Some (i, k) /\
    Valid (record_of k) (storeTime now) = true /\
    r = {| Resolved_ID := i; Resolved_AppID := k_app_id k; Resolved_Hint := key_hint k |}.
Proof.
  unfold pg_ResolveKey. destruct (WellFormedKey key); cbn [negb]; [|split; [done|by intros [? _]]].
  destruct (by_hash (HashKey key) db) as [[i k]|]; [|split; [done|by intros (_ & ? & ? & ? & _)]].
  destruct (Valid (record_of k) (storeTime now)) eqn:Hv; cbn [negb].
  - split; [intros [= <-]; split; [done|]; by exists i, k|]. by intros (_ & ? & ? & [= <- <-] & _ & ->).
  - split; [done|]. intros (_ & ? & ? & [= <- <-] & ? & _). congruence.
Qed.

(** C9: a presented key authenticates an app exactly when some exchange issued it to
    that app, the app was not unbound since, the key was not revoked, and the first key
    issued to the app after it, if any, is less than the grace period old: over every
    run of the store, up to any time no earlier than its events.  "Issued it" is: the
    plaintext that exchange returned has the hash of the presented key. *)
Theorem ResolveKey_exact tr db key now id app hint :
  run tr db -> (forall x, x ∈ tr -> x.1 <= now) ->
  (pg_ResolveKey key now db).1 = Ok {| Resolved_ID := id; Resolved_AppID := app; Resolved_Hint := hint |} <->
  WellFormedKey key = true /\ exists l1 at_ v c res l2,
    tr = l1 ++ (at_, Exchanged v app c res) :: l2 /\ Result_Status res = ExchangeIssued /\
    HashKey (Result_Key res) = HashKey key /\ id = KeyID res /\ hint = KeyHint (Result_Key res) /\
    (forall x, x ∈ l1 -> x.2 <> AppUnbound app) /\
    (forall t, (t, KeyRevokedBy id) ∉ l1) /\
    (forall t, first_issue l1 app t -> storeTime now < storeTime t + SupersededGrace).
Proof.
  intros Hrun Hnow. pose proof (run_wf _ _ Hrun) as Hwf. rewrite ResolveKey_spec. split.
  - intros (Hwell & i & k & Hh & Hv & [= -> -> ->]). split; [done|]. apply by_hash_Some in Hh as [Hk Hh].
    destruct (origin_key _ _ (run_origins _ _ Hrun) i k Hk)
      as (l1 & t & v & c & res & l2 & b & -> & Hs & <- & Hh' & Hhint & _ & _ & Hhist).
    apply Valid_spec in Hv as [Hr Hsup]. simpl in Hr, Hsup. exists l1, t, v, c, res, l2.
    split_and!; try done; try congruence; try apply Hhist.
    + intros t' Hin. destruct (history_revoke _ _ _ Hhist t' Hin Hr) as (s & Hs' & Hle). specialize (Hsup s Hs').
      pose proof (storeTime_mono t' now) as Hm. specialize (Hnow (t', KeyRevokedBy (KeyID res))). simpl in Hnow.
      ospecialize (Hnow _); [by apply elem_of_app; left|]. lia.
    + intros t' Hf. apply Hsup. by apply (history_issue _ _ _ Hhist).
  - intros (Hwell & l1 & t & v & c & res & l2 & Heq & Hs & Hh & -> & -> & Hn & Hr & Hf). split; [done|].
    destruct (issued_key_history _ _ _ _ _ _ _ _ _ Hrun Heq Hs Hn) as (k & Hk & <- & Hkh & <- & Hhist).
    exists (KeyID res), k. split_and!; [rewrite <- Hh, <- Hkh; by apply by_hash_unique| |done].
    assert (Hrev : revoked_at k = None).
    { destruct (revoked_at k) eqn:E; [|done]. destruct (history_revoked _ _ _ Hhist) as [t' Ht']; [congruence|]. by destruct (Hr t'). }
    apply Valid_spec. simpl. split; [done|]. intros s Hs'.
    destruct (history_superseded _ _ _ Hhist) as [t' Ht']; [congruence|].
    rewrite (history_issue _ _ _ Hhist t' Hrev Ht') in Hs'. injection Hs' as <-. by apply Hf.
Qed.

(** C13: a key that authenticates an app was issued in exchange for a token of the
    workflow identity of a binding the operator had approved for that app; the request
    approved had been filed by an earlier exchange for the same app whose token has that
    same workflow identity; and the app was not unbound since the approval. *)
Theorem keys_authorized tr db key now r :
  run tr db -> (pg_ResolveKey key now db).1 = Ok r ->
  exists l1 t1 v1 c1 res l2 t2 id b l3 t3 v3 c3,
    tr = l1 ++ (t1, Exchanged v1 (Resolved_AppID r) c1 res) :: l2 ++ (t2, Approved id b) :: l3 /\
    HashKey (Result_Key res) = HashKey key /\ KeyID res = Resolved_ID r /\
    (t3, Exchanged v3 (Resolved_AppID r) c3 (pending_result id)) ∈ l3 /\
    Matches b c1 = true /\ Matches b c3 = true /\
    forall x, x ∈ l1 \/ x ∈ l2 -> x.2 <> AppUnbound (Resolved_AppID r).
Proof.
  intros Hrun (_ & i & k & Hh & _ & ->)%ResolveKey_spec. apply by_hash_Some in Hh as [Hk Hh].
  destruct (origin_key _ _ (run_origins _ _ Hrun) i k Hk)
    as (l1 & t & v & c & res & l2 & b & -> & Hs & <- & Hh' & _ & Hb & Hm & Hhist).
  destruct Hb as (l21 & t2 & id & l3 & -> & Hn & t3 & v3 & c3 & Hin & Hm3).
  exists l1, t, v, c, res, l21, t2, id, b, l3, t3, v3, c3. simpl. split_and!; try done; [congruence|].
  intros x [Hx|Hx]; [by apply (history_bound _ _ _ Hhist)|by apply Hn].
Qed.

(** ** A key stays dead *)

Definition steps : DB -> DB -> Prop := rtc (fun db db' => exists at_ ev, step at_ ev db db').

Lemma next_key_mono at_ ev db db' : wf db -> step at_ ev db db' -> next_key_id db <= next_key_id db'.
Proof.
  intros Hwf Hstep.
  destruct Hstep as [random verified appID claims res db0 db1 _ _ Hx|? ? ? db0 ? Hx|? ? db0 ? Hx|keyID ? db0 ? Hx|keyID ? db0 ? Hx|appID db0 ? Hx|db0|db0|ttl db0].
  - apply exchange_ok in Hx as [_ Hx]; [|done]. 
    destruct Hx as [id db1 Hn []|row issued db1 Hb Hm []]; [apply Z.le_refl..|apply Z.le_succ_diag_r].
  - apply approve_ok in Hx. by destruct Hx.
  - apply reject_ok in Hx as (r & _ & Hx). by destruct (String.eqb (status r) RequestRejected); destruct Hx as [_ ->].
  - by apply revoke_ok in Hx as (k & _ & _ & ->).
  - revert Hx. unfold pg_TouchKey. cbv zeta. destruct (app_keys db0 !! keyID) as [k|]; [|by intros [= _ <-]].
    by destruct (match last_used_at k with None => _ | Some _ => _ end); intros [= _ <-].
  - by apply unbind_ok in Hx as [(? & _)|(_ & _ & ->)].
  - done.
  - done.
  - by destruct (sweep_pending_cases at_ ttl db0) as [-> | ->].
Qed.

Lemma key_after_dead at_ ev i k k' t t' : key_after at_ ev i k k' -> t <= t' ->
  Valid (record_of k) t = false -> Valid (record_of k') t' = false.
Proof.
  intros Ha Hle. apply Valid_mono; [done| |]; simpl.
  - intros Hr Hr'. destruct (superseded_at k) as [s|] eqn:Hs; [|by right]. left. by apply (after_superseded _ _ _ _ _ Ha).
  - intros [x Hx]. destruct (revoked_at k') eqn:Hr; [by eexists|]. apply (after_revoked _ _ _ _ _ Ha) in Hr. congruence.
Qed.

(** A key that is not valid, revoked or past its grace period, is never valid
    again, whatever the store does and at any later time; nor does another key ever get
    its id. *)
Theorem dead_forever db db' i k t t' k' :
  wf db -> steps db db' -> app_keys db !! i = Some k -> Valid (record_of k) t = false -> t <= t' ->
  app_keys db' !! i = Some k' -> Valid (record_of k') t' = false /\ key_hash k' = key_hash k.
Proof.
  intros Hwf Hsteps Hk Hv Hle.
  assert (Hlt : i < next_key_id db) by apply (wf_key _ _ _ (wf_k _ Hwf) i k Hk).
  assert (Hdead : forall k0, app_keys db !! i = Some k0 -> Valid (record_of k0) t = false /\ key_hash k0 = key_hash k)
    by (intros k0 Hk0; by simplify_eq).
  clear Hk Hv. revert k'. induction Hsteps as [db|db db1 db' (at_ & ev & Hstep) Hsteps IH]; intros k' Hk'.
  - destruct (Hdead k' Hk') as [Hv Hh]. split; [|done]. revert Hv. apply Valid_mono; [done|by left|done].
  - apply IH; [by eapply identity_step_wf| | |done].
    + pose proof (next_key_mono _ _ _ _ Hwf Hstep). lia.
    + intros k0 Hk0. destruct (keys_step _ _ _ _ _ _ Hwf Hstep Hk0) as [(k1 & Hk1 & Ha)|(? & ? & ? & ? & _ & _ & _ & _ & _ & _ & _ & Hi & _)]; [|lia].
      destruct (Hdead k1 Hk1) as [Hv Hh]. split; [by eapply key_after_dead|]. by rewrite (after_hash _ _ _ _ _ Ha).
Qed.

(** ** Tokens *)

(** Each sweep of the replay ledger that preceded an exchange ran no later than the
    verification of its token. *)
Definition sweeps_precede (tr : trace) : Prop :=
  forall l1 at_ v a c res l2, tr = l1 ++ (at_, Exchanged v a c res) :: l2 -> forall t, (t, ReplaySwept) ∈ l2 -> t <= v.

Lemma replay_step at_ ev db db' : wf db -> step at_ ev db db' ->
  oidc_replay db' = match ev with
    | Exchanged _ _ c _ => <[JTI c := storeTime (ReplayExpiry c)]> (oidc_replay db)
    | ReplaySwept => filter (fun p => ~ p.2 < storeTime at_) (oidc_replay db)
    | _ => oidc_replay db
    end.
Proof.
  intros Hwf Hstep.
  destruct Hstep as [random verified appID claims res db0 db1 _ _ Hx|? ? ? db0 ? Hx|? ? db0 ? Hx|keyID ? db0 ? Hx|keyID ? db0 ? Hx|appID db0 ? Hx|db0|db0|ttl db0].
  - apply exchange_ok in Hx as [_ Hx]; [|done]. by destruct Hx as [id db1 Hn []|row issued db1 Hb Hm []].
  - apply approve_ok in Hx. by destruct Hx.
  - apply reject_ok in Hx as (r & _ & Hx). by destruct (String.eqb (status r) RequestRejected); destruct Hx as [_ ->].
  - by apply revoke_ok in Hx as (k & _ & _ & ->).
  - revert Hx. unfold pg_TouchKey. cbv zeta. destruct (app_keys db0 !! keyID) as [k|]; [|by intros [= _ <-]].
    by destruct (match last_used_at k with None => _ | Some _ => _ end); intros [= _ <-].
  - by apply unbind_ok in Hx as [(? & _)|(_ & _ & ->)].
  - done.
  - done.
  - by destruct (sweep_pending_cases at_ ttl db0) as [-> | ->].
Qed.

(** An exchanged token is in the ledger, or a sweep after its expiry has run. *)
Lemma ledger tr db at_ v a c res : run tr db -> (at_, Exchanged v a c res) ∈ tr ->
  oidc_replay db !! JTI c = Some (storeTime (ReplayExpiry c)) \/
  exists t, (t, ReplaySwept) ∈ tr /\ ReplayExpiry c < t.
Proof.
  induction 1 as [|tr db t ev db' Hrun IH Hstep]; [by intros ?%elem_of_nil|]. pose proof (run_wf _ _ Hrun) as Hwf.
  rewrite (replay_step _ _ _ _ Hwf Hstep). intros [Heq|Hin]%elem_of_cons.
  { injection Heq as -> <-. left. by rewrite lookup_insert_eq. }
  destruct (IH Hin) as [Hl|(s & Hs & Hlt)]; [|right; exists s; split; [by right|done]].
  destruct ev as [v' a' c' res'| | | | | | | |]; try by left.
  - left. apply step_exchanged in Hstep as (_ & _ & random & [Hf _]%exchange_ok); [|done].
    rewrite lookup_insert_ne; [done|congruence].
  - destruct (decide (storeTime (ReplayExpiry c) < storeTime t)) as [Hlt|Hge].
    + right. exists t. split; [by left|by apply storeTime_lt].
    + left. by apply map_lookup_filter_Some.
Qed.

(** C17: a token is exchanged at most once.  Of two exchanges of tokens with the same
    jti the later token outlives the earlier, so it is not the same token: as long as no
    sweep of the ledger falls between the verification of a token and its exchange. *)
Theorem token_once tr db l1 at1 v1 a1 c1 res1 l2 at2 v2 a2 c2 res2 :
  run tr db -> sweeps_precede tr -> tr = l1 ++ (at1, Exchanged v1 a1 c1 res1) :: l2 ->
  (at2, Exchanged v2 a2 c2 res2) ∈ l2 -> JTI c1 = JTI c2 -> ExpiresAt c2 < ExpiresAt c1.
Proof.
  intros Hrun Hsw Heq Hin Hj. specialize (Hsw _ _ _ _ _ _ _ Heq).
  assert (exists db1 db2, run l2 db1 /\ step at1 (Exchanged v1 a1 c1 res1) db1 db2) as (db1 & db2 & Hrun1 & Hstep).
  { clear Hsw. revert l1 Heq. induction Hrun as [|tr db t ev db' Hrun IH Hstep]; intros l1 Heq; [by destruct l1|].
    destruct l1 as [|x l1]; [|injection Heq as _ ->; by eapply IH]. injection Heq as -> -> ->. eauto. }
  apply step_exchanged in Hstep as (Hle & Hlt & random & [Hf _]%exchange_ok); [|by eapply run_wf].
  destruct (ledger _ _ _ _ _ _ _ Hrun1 Hin) as [Hl|(t & Ht & Hexp)]; [congruence|].
  specialize (Hsw t Ht). unfold ReplayExpiry, time.Add in *. lia.
Qed.

(** ** Bindings *)

(** Two names joined at an underscore split the same way, or one extends the other. *)
Lemma underscore_split x y u v : x +:+ ("_" +:+ u) = y +:+ ("_" +:+ v) ->
  x = y \/ (exists w, x = (y +:+ "_") +:+ w) \/ (exists w, y = (x +:+ "_") +:+ w).
Proof.
  revert y. induction x as [|c x IH]; intros [|d y] H; rewrite ?string_app_nil, ?string_app_cons in H.
  - by left.
  - right. right. rewrite string_app_nil in H. injection H as <- _. by exists y.
  - right. left. injection H as -> _. by exists x.
  - injection H as -> H. destruct (IH y H) as [->|[[w ->]|[w ->]]]; [by left|right; left|right; right]; by exists w.
Qed.

(** No two approved apps share a name space: no destination name starts with both
    their ids and an underscore. *)
Theorem namespaces_disjoint tr db a b rowA rowB name :
  run tr db -> app_bindings db !! a = Some rowA -> app_bindings db !! b = Some rowB ->
  HasPrefix name (a +:+ "_") = true -> HasPrefix name (b +:+ "_") = true -> a = b.
Proof.
  intros Hrun%run_wf Ha Hb [u ->]%HasPrefix_spec [v H]%HasPrefix_spec. rewrite <- !string_app_assoc in H.
  pose proof (wf_overlap _ (wf_b _ Hrun) _ _ _ _ Ha Hb) as Ho. unfold overlaps in Ho. apply orb_false_iff in Ho as [H1 H2].
  destruct (underscore_split a b u v H) as [|[[w ->]|[w ->]]]; [done| |].
  - by rewrite (proj2 (HasPrefix_spec _ _) (ex_intro _ w eq_refl)) in H1.
  - by rewrite (proj2 (HasPrefix_spec _ _) (ex_intro _ w eq_refl)) in H2.
Qed.

(** C27: every reachable database is well formed: a workflow identity is bound to one
    app, a request waits only for an app that is not bound and only once for the same
    workflow, at most twenty wait, every key belongs to a bound app, no two keys share a
    hash, and an app has at most one key that is neither superseded nor revoked. *)
Theorem identity_invariant tr db : run tr db -> wf db.
Proof. exact (run_wf tr db). Qed.

(** ** The outcome of an exchange *)

(** What the tables accept of the claims of a token. *)
Definition storable_claims (appID : string) (claims : Claims) : Prop :=
  nonempty (JTI claims) = true /\ forall t, request_check (new_request appID claims t) = true.

Lemma environment_text e : environment_check (environmentArgument e) = true -> text_ok e = true.
Proof.
  unfold environmentArgument. destruct (String.eqb_spec e EmptyString) as [->|]; [done|]. simpl. unfold nonempty.
  intros H. by bool_hyps.
Qed.

Lemma nonempty_text s : nonempty s = true -> text_ok s = true.
Proof. unfold nonempty. intros H. by bool_hyps. Qed.

Lemma claims_storable_text appID claims : storable_claims appID claims -> claims_text_ok claims = true /\ text_ok (RunID claims) = true.
Proof.
  intros [_ H]. specialize (H 0). unfold request_check in H. rewrite !andb_true_iff in H. destruct_and!.
  split; [|by apply nonempty_text]. unfold claims_text_ok. rewrite !andb_true_iff.
  split_and!; [by apply nonempty_text..|by apply environment_text|by apply nonempty_text].
Qed.

Lemma pending_like_one appID i db id r : wf db -> app_registration_requests db !! id = Some r -> matches_pending appID i r ->
  pending_like appID i db = {[id := r]}.
Proof.
  intros Hwf Hr Hm. apply map_eq. intros j. destruct (decide (j = id)) as [->|Hj].
  - rewrite lookup_singleton_eq. by apply pending_like_spec.
  - rewrite lookup_singleton_ne by done. destruct (pending_like _ _ _ !! j) as [rj|] eqn:Ej; [|done]. exfalso. apply Hj.
    apply pending_like_spec in Ej as [Hj' (Hp & Ha & Hi)]. destruct Hm as (Hp0 & Ha0 & Hi0).
    eapply (wf_pending _ _ _ (wf_r _ Hwf)); eauto; congruence.
Qed.

Lemma refreshed_check appID claims r now : storable_claims appID claims -> request_check r = true -> is_pending r = true ->
  request_check (refreshed r claims now) = true.
Proof.
  intros [_ H] Hr Hp. specialize (H 0). destruct r. unfold request_check in *. simpl in *. rewrite !andb_true_iff in *.
  destruct_and!. split_and!; done.
Qed.

Lemma file_refresh_run appID claims now db id r : wf db -> storable_claims appID claims ->
  app_bindings db !! appID = None -> app_registration_requests db !! id = Some r ->
  matches_pending appID (claims_identity claims) r ->
  pg_FilePendingRequest appID claims now db = (Ok id, db {{ app_registration_requests :=
    <[id := refreshed r claims (storeTime now)]> (app_registration_requests db) }}).
Proof.
  intros Hwf Hc Hb Hr Hm. unfold pg_FilePendingRequest. rewrite bool_decide_eq_false_2 by by rewrite Hb.
  destruct (claims_storable_text _ _ Hc) as [-> _]. cbn [negb]. cbv zeta.
  rewrite (pending_like_one _ _ _ _ _ Hwf Hr Hm), map_to_list_singleton, map_fmap_singleton.
  rewrite bool_decide_eq_true_2; [by rewrite <- insert_union_singleton_l|].
  apply map_Forall_singleton. eapply refreshed_check; [done|by apply (wf_request _ _ _ (wf_r _ Hwf) id r)|apply Hm].
Qed.

Lemma file_new_run appID claims now db : storable_claims appID claims -> app_bindings db !! appID = None ->
  (forall id r, app_registration_requests db !! id = Some r -> ~ matches_pending appID (claims_identity claims) r) ->
  pg_FilePendingRequest appID claims now db =
    if MaxPendingRequests <=? pending_count db then (Err ErrPendingCap, db)
    else (Ok (next_request_id db), db {{
      app_registration_requests := <[next_request_id db := new_request appID claims (storeTime now)]> (app_registration_requests db);
      next_request_id := next_request_id db + 1 }}).
Proof.
  intros Hc Hb Hn. unfold pg_FilePendingRequest. rewrite bool_decide_eq_false_2 by by rewrite Hb.
  destruct (claims_storable_text _ _ Hc) as [-> _]. cbn [negb]. cbv zeta.
  assert (pending_like appID (claims_identity claims) db = ∅) as ->.
  { apply map_empty. intros i. apply map_lookup_filter_None. right. intros r Hi. by apply (Hn i). }
  rewrite map_to_list_empty. by rewrite (proj2 Hc).
Qed.

Lemma word_dash_ascii c : is_word_dash c = true -> 1 <= byte_val c < 128.
Proof.
  unfold is_word_dash, is_lower, is_upper, is_digit, in_range. rewrite !orb_true_iff, !andb_true_iff, !Z.leb_le, !Ascii.eqb_eq.
  change (byte_val "a") with 97. change (byte_val "z") with 122. change (byte_val "A") with 65.
  change (byte_val "Z") with 90. change (byte_val "0") with 48. change (byte_val "9") with 57.
  intros [[[[?|?]|?]| ->]| ->]; [lia|lia|lia|by vm_compute|by vm_compute].
Qed.

Lemma hint_storable key : WellFormedKey key = true -> len (KeyHint key) = 8 -> nonempty (KeyHint key) = true.
Proof.
  intros Hw Hl. unfold nonempty. apply andb_true_iff. split.
  2:{ destruct (String.eqb_spec (KeyHint key) EmptyString) as [He|]; [by rewrite He in Hl|done]. }
  assert (Hall : Forall (fun b => 1 <= b < 128) (bytes key)).
  { unfold WellFormedKey, keyPattern in Hw. destruct (cut_prefix KeyPrefix key) as [rest|] eqn:E; [|done].
    apply cut_prefix_spec in E as ->. unfold match_repeat in Hw. bool_hyps.
    assert (Hrest : Forall (fun b => 1 <= b < 128) (bytes rest)).
    { clear -H0. induction rest as [|c rest IH]; [constructor|]. simpl in H0. bool_hyps. constructor; [by apply word_dash_ascii|by apply IH]. }
    change (bytes (KeyPrefix +:+ rest)) with (100 :: 97 :: 107 :: 95 :: bytes rest). by repeat (constructor; [lia|]). }
  unfold KeyHint in *. rewrite Hw in *. cbn [negb] in *. set (hint := take _ (bytes key)) in *.
  assert (Hh : Forall (fun b => 1 <= b < 128) hint) by by apply Forall_take.
  assert (Hb : bytes (of_bytes hint) = hint) by (apply bytes_of_bytes; eapply Forall_impl; [exact Hh|]; simpl; lia).
  unfold text_ok. rewrite Hb. apply andb_true_iff. split.
  - apply ValidString_ascii. rewrite Hb. eapply Forall_impl; [exact Hh|]. simpl; lia.
  - apply negb_true_iff, not_true_iff_false. intros (b & Hin & He)%existsb_exists. apply Z.eqb_eq in He. subst b.
    rewrite Forall_forall in Hh. apply list_elem_of_In in Hin. specialize (Hh 0 Hin). lia.
Qed.

(** The row a key is issued as. *)
Definition fresh_key (appID runID key : string) (now : Z) : KeyRow :=
  {| k_app_id := appID; key_hash := HashKey key; key_hint := KeyHint key; k_created_at := storeTime now;
     superseded_at := None; revoked_at := None; revoked_reason := None; last_used_at := None; k_github_run_id := runID |}.

Lemma issue_run random appID claims now db key : storable_claims appID claims -> is_Some (app_bindings db !! appID) ->
  length random = Z.to_nat keyRandomBytes -> NewKey (Some random) = Ok key ->
  (forall i k, app_keys db !! i = Some k -> key_hash k <> HashKey key) ->
  pg_IssueKey (Some random) appID (RunID claims) now db =
    (Ok {| Issued_ID := next_key_id db; Plaintext := key; Issued_Hint := KeyHint key |},
     db {{ app_keys := <[next_key_id db := fresh_key appID (RunID claims) key now]> (superseded appID (storeTime now) <$> app_keys db);
           next_key_id := next_key_id db + 1 }}).
Proof.
  intros Hc [b Hb] Hl Hk Hn. destruct (NewKey_well_formed _ _ Hl Hk) as [Hw Hh]. unfold pg_IssueKey. rewrite Hk. cbv zeta.
  rewrite (bool_decide_eq_false_2 (app_bindings db !! appID = None)) by by rewrite Hb.
  rewrite (proj2 (by_hash_None (HashKey key) db) Hn), (bool_decide_eq_false_2 (is_Some None)) by by intros [].
  assert (key_check (fresh_key appID (RunID claims) key now) = true) as Hck; [|unfold fresh_key in Hck; by rewrite Hck].
  unfold key_check. simpl. rewrite (hint_storable _ Hw Hh), (proj2 (claims_storable_text _ _ Hc)).
  unfold HashKey. by rewrite Sum256_length.
Qed.

(** An exchange of a verified token does exactly this, in one transaction.  A token
    in the ledger is refused.  For an app bound to the token's workflow a fresh key is
    issued: its row holds only the hash, every other active key of the app is superseded
    from this moment and no other row changes.  Another workflow is refused.  For an app
    not bound, the request that waits for the same workflow is refreshed, or a new one
    is filed unless twenty wait already. *)
Theorem exchange_exact random now appID claims db : wf db -> storable_claims appID claims ->
  (is_Some (oidc_replay db !! JTI claims) -> exchange_now random now appID claims db = (Err ErrReplayed, db)) /\
  (oidc_replay db !! JTI claims = None ->
    (forall row, app_bindings db !! appID = Some row -> Matches (scan_binding appID row) claims = false ->
       exchange_now random now appID claims db = (Err ErrBindingMismatch, db)) /\
    (forall row bytes key, app_bindings db !! appID = Some row -> Matches (scan_binding appID row) claims = true ->
       random = Some bytes -> length bytes = Z.to_nat keyRandomBytes -> NewKey random = Ok key ->
       (forall i k, app_keys db !! i = Some k -> key_hash k <> HashKey key) ->
       exchange_now random now appID claims db =
         (Ok {| Result_Status := ExchangeIssued; Result_AppID := appID; Result_Key := key; KeyID := next_key_id db; RequestID := 0 |},
          burned claims db {{
            app_keys := <[next_key_id db := fresh_key appID (RunID claims) key now]> (superseded appID (storeTime now) <$> app_keys db);
            next_key_id := next_key_id db + 1 }})) /\
    (app_bindings db !! appID = None ->
       (forall id r, app_registration_requests db !! id = Some r -> matches_pending appID (claims_identity claims) r ->
          exchange_now random now appID claims db = (Ok (pending_result id),
            burned claims db {{ app_registration_requests :=
              <[id := refreshed r claims (storeTime now)]> (app_registration_requests db) }})) /\
       ((forall id r, app_registration_requests db !! id = Some r -> ~ matches_pending appID (claims_identity claims) r) ->
          exchange_now random now appID claims db =
            if MaxPendingRequests <=? pending_count db then (Err ErrPendingCap, db)
            else (Ok (pending_result (next_request_id db)), burned claims db {{
              app_registration_requests :=
                <[next_request_id db := new_request appID claims (storeTime now)]> (app_registration_requests db);
              next_request_id := next_request_id db + 1 }})))).
Proof.
  intros Hwf Hc. pose proof (burned_wf claims _ Hwf) as Hwf'. split.
  { intros [x Hx]. apply exchange_now_stale. right. unfold pg_RecordJTI. by rewrite (proj1 Hc), Hx. }
  intros Hj. rewrite exchange_now_fresh by (try done; apply Hc). unfold earned. split_and!.
  - intros row -> ->. done.
  - intros row bs key Hb Hm -> Hl Hk Hn. rewrite Hb, Hm.
    by rewrite (issue_run bs appID claims now (burned claims db) key Hc (ex_intro _ row Hb) Hl Hk Hn).
  - intros Hb. rewrite Hb. split.
    + intros id r Hr Hm. by rewrite (file_refresh_run appID claims now (burned claims db) id r).
    + intros Hn. rewrite (file_new_run appID claims now (burned claims db)) by done.
      change (pending_count (burned claims db)) with (pending_count db). by destruct (MaxPendingRequests <=? pending_count db).
Qed.

(** ** Approvals *)

Section admin.
Context (collation : string -> string -> bool).


(** An approval that succeeds binds an app that is not the reserved one and that the
    people directory accepted in this call, whatever other transactions do between the
    registration and the approval; the request approved was waiting for that very app
    when the approval ran; and afterwards no request waits for that app or for that
    workflow. *)
Theorem ApproveRequest_registered requestID w b w' :
  svc_ApproveRequest (AdminStore0 := pg_admin_store collation) pg_service requestID w = (Ok b, w') ->
  let t := turns w (S (calls w)) in
  AppID b <> reservedAppID /\ turn_register t (AppID b) = Ok tt /\
  exists db r row, app_registration_requests db !! requestID = Some r /\ is_pending r = true /\ r_app_id r = AppID b /\
    app_bindings db !! AppID b = None /\
    tables w' = approved_db db requestID (AppID b) row /\ b = scan_binding (AppID b) row /\
    approved_at row = storeTime (turn_clock t) /\
    (forall i r', app_registration_requests (tables w') !! i = Some r' -> is_pending r' = true ->
       r_app_id r' <> AppID b /\ r_identity r' <> b_identity row).
Proof.
  unfold svc_ApproveRequest. cbn [registrar pg_service]. intros (request & w1 & Hget & Hrest)%m_bind_ok.
  cbn [admin_GetRequest pg_admin_store] in Hget. unfold pg_call in Hget.
  destruct (pg_GetRequest requestID _) as [[request'|] db1] eqn:Hg; [|done].
  assert (request' = request /\ w1 = w {{ tables := db1; calls := S (calls w) }}) as [-> Hw1] by (split; congruence). clear Hget.
  apply m_bind_ok in Hrest as ([] & w2 & Hp & Hrest). apply m_check_ok in Hp as [Hp ->].
  apply m_bind_ok in Hrest as ([] & w2 & Hres & Hrest). apply m_check_ok in Hres as [Hres ->].
  apply m_bind_ok in Hrest as ([] & w2 & Hreg & Hrest).
  assert (turn_register (turns w (S (calls w))) (Request_AppID request) = Ok tt /\ w2 = w1) as [Hr ->].
  { unfold register, mbind, m_bind, m_try in Hreg. assert (turns w1 (calls w1) = turns w (S (calls w))) as Ht by by subst w1. rewrite Ht in Hreg.
    destruct (turn_register _ _) as [[]|] eqn:E; [by injection Hreg as ->|]. cbn [ctx_Err pg_service] in Hreg.
    by destruct (turn_context _). }
  apply m_bind_ok in Hrest as (at_ & w3 & Hnow & Hrest). injection Hnow as <- <-.
  cbn [admin_ApproveRequest pg_admin_store] in Hrest. unfold pg_call in Hrest.
  destruct (pg_ApproveRequest requestID _ _ _) as [[b'|] db2] eqn:Ha; [|done].
  assert (b' = b /\ w' = w1 {{ tables := db2; calls := S (calls w1) }}) as [-> ->] by (split; congruence). clear Hrest.
  apply approve_ok in Ha. destruct Ha as [r row Hreq Hpend Happ Hov Hrow Hck Hnone Hid]. simpl. rewrite Happ in *.
  split_and!; [|done|].
  - destruct (String.eqb_spec (Request_AppID request) reservedAppID); congruence.
  - exists (before (turns w1 (calls w1)) (tables w1)), r, row. split_and!; try done; [by subst row w1|].
    intros i r' Hi Hpend'. eapply approved_requests in Hi as (_ & _ & Hi). by apply Hi.
Qed.
End admin.

(** ** The lists *)

#[global] Instance request_le_total : Total request_le.
Proof.
  intros [i r] [j s]. unfold request_le. simpl. destruct (is_pending r), (is_pending s); try (by left; left); try (by right; left);
    destruct (Z.lt_trichotomy (updated_at r) (updated_at s)) as [?|[?|?]]; try (left; right; split; [done|]; lia);
    try (right; right; split; [done|]; lia); destruct (Z.le_ge_cases i j);
    [right|left|right|left]; right; (split; [done|]); lia.
Qed.

#[global] Instance request_le_trans : Transitive request_le.
Proof.
  intros [i r] [j s] [k u]. unfold request_le. simpl.
  intros [[H1 H2]|[H1 H2]] [[H3 H4]|[H3 H4]]; [congruence|left; split; congruence|left; split; congruence|right].
  split; [congruence|lia].
Qed.

Definition request_rank (q : Request) : bool * Z * Z :=
  (String.eqb (Status q) RequestPending, Request_UpdatedAt q, Request_ID q).

(** Waiting requests come first, then the later updated, then the larger id. *)
Definition listed_before (a b : Request) : Prop :=
  let '(pa, ua, ia) := request_rank a in
  let '(pb, ub, ib) := request_rank b in
  (pa = true /\ pb = false) \/ (pa = pb /\ (ub < ua \/ (ua = ub /\ ib <= ia))).

(** The operator's queue at a time holds, in its order and each once, exactly the
    requests that sweeping the rejected ones at that time would keep. *)
Theorem ListRequests_exact now db : wf db -> exists l,
  pg_ListRequests now db = (Ok l, db) /\ StronglySorted listed_before l /\ NoDup (Request_ID <$> l) /\
  forall q, q ∈ l <-> exists r, app_registration_requests (pg_DeleteExpiredRejectedRequests now db).2 !! Request_ID q = Some r /\
    q = scanRequest (Request_ID q) r.
Proof.
  intros Hwf. eexists. split; [done|]. cbv zeta.
  set (P := fun p : Z * RequestRow => is_pending p.2 || rejected_since _ p.2 = true).
  set (rows := merge_sort request_le (filter P (map_to_list (app_registration_requests db)))).
  assert (Hperm : rows ≡ₚ filter P (map_to_list (app_registration_requests db))) by apply merge_sort_Permutation.
  split_and!.
  - assert (Hs : StronglySorted request_le rows) by (apply StronglySorted_merge_sort; apply _).
    clear -Hs. induction Hs as [|[i r] l _ IH Hall]; csimpl; constructor; [done|]. apply Forall_fmap. by eapply Forall_impl; [exact Hall|].
  - rewrite <- list_fmap_compose. change (Request_ID ∘ _) with (fst (A := Z) (B := RequestRow)). rewrite Hperm.
    eapply sublist_NoDup; [apply (NoDup_fst_map_to_list (app_registration_requests db))|].
    apply fmap_sublist, sublist_filter.
  - intros q. rewrite list_elem_of_fmap. simpl. split.
    + intros ([i r] & -> & Hin). rewrite Hperm in Hin. apply list_elem_of_filter in Hin as [HP Hin].
      apply elem_of_map_to_list in Hin. exists r. split; [|done]. apply map_lookup_filter_Some. split; [done|]. simpl.
      unfold P, rejected_since in HP. simpl in HP. unfold expired_rejected.
      destruct (String.eqb_spec (status r) RequestRejected) as [He|]; [|done]. unfold is_pending in HP. rewrite He in HP. simpl in HP.
      destruct (decided_at r); [|done]. simpl. apply Z.leb_le in HP. by apply Z.ltb_ge.
    + intros (r & Hr & ->). apply map_lookup_filter_Some in Hr as [Hr Hn]. simpl in Hr, Hn. exists (Request_ID q, r). split; [done|].
      rewrite Hperm. apply list_elem_of_filter. split; [|by apply elem_of_map_to_list]. unfold P. simpl.
      pose proof (wf_request _ _ _ (wf_r _ Hwf) _ _ Hr) as [Hck _]. unfold request_check in Hck. rewrite !andb_true_iff in Hck. destruct_and!.
      unfold expired_rejected in Hn. unfold is_pending, rejected_since.
      destruct (String.eqb (status r) RequestPending); [done|]. simpl in *. destruct (String.eqb (status r) RequestRejected); [|done].
      case_bool_decide as Hd; [|done]. destruct Hd as [x Hx]. rewrite Hx in *. simpl in *. apply Z.ltb_ge in Hn. by apply Z.leb_le.
Qed.

(** The list of bindings with the keys of each. *)
Definition listing (now : Z) (keys : list (Z * KeyRow)) (a : string) : list Key :=
  (fun p => toKey (scanKey p.1 p.2) now) <$> filter (fun p => k_app_id p.2 = a) keys.

Lemma toKey_app stored now : Key_AppID (toKey stored now) = Stored_AppID stored.
Proof. unfold toKey. cbv zeta. repeat case_match; done. Qed.

Lemma append_key_map key listed : NoDup ((AppID ∘ Listed_Binding) <$> listed) ->
  append_key key listed =
    (fun l => {| Listed_Binding := Listed_Binding l;
                 Keys := Keys l ++ if decide (AppID (Listed_Binding l) = Key_AppID key) then [key] else [] |}) <$> listed.
Proof.
  induction listed as [|l listed IH]; csimpl; [done|]. intros [Hn Hnd]%NoDup_cons.
  destruct (String.eqb_spec (AppID (Listed_Binding l)) (Key_AppID key)) as [He|Hne].
  - rewrite decide_True by done. f_equal. rewrite <- (list_fmap_id listed) at 1. apply list_fmap_ext. intros i x Hx.
    rewrite decide_False; [destruct x; by rewrite app_nil_r|]. intros Hx'. apply Hn. apply list_elem_of_fmap.
    exists x. simpl. split; [congruence|by eapply list_elem_of_lookup_2].
  - rewrite decide_False by done. rewrite app_nil_r. rewrite IH by done. by destruct l.
Qed.

Lemma append_keys now keys listed : NoDup ((AppID ∘ Listed_Binding) <$> listed) ->
  foldl (fun listed p => append_key (toKey (scanKey p.1 p.2) now) listed) listed keys =
    (fun l => {| Listed_Binding := Listed_Binding l; Keys := Keys l ++ listing now keys (AppID (Listed_Binding l)) |}) <$> listed.
Proof.
  revert listed. induction keys as [|[i k] keys IH]; intros listed Hnd; simpl.
  - rewrite <- (list_fmap_id listed) at 1. apply list_fmap_ext. intros j x _. by destruct x; rewrite app_nil_r.
  - rewrite append_key_map by done. rewrite IH.
    + rewrite <- list_fmap_compose. apply list_fmap_ext. intros j x _. simpl. f_equal. rewrite <- app_assoc. f_equal.
      rewrite toKey_app. unfold listing. simpl. case_decide as Hd.
      * rewrite filter_cons_True by done. done.
      * rewrite filter_cons_False by (simpl; congruence). done.
    + rewrite <- list_fmap_compose. done.
Qed.

#[global] Instance key_le_total : Total key_le.
Proof. intros [i k] [j l]. unfold key_le. simpl. lia. Qed.
#[global] Instance key_le_trans : Transitive key_le.
Proof. intros [i k] [j l] [m o]. unfold key_le. simpl. lia. Qed.

Lemma toKey_id stored now : Key_ID (toKey stored now) = Stored_ID stored.
Proof. unfold toKey. cbv zeta. repeat case_match; done. Qed.

Lemma listing_sorted now ks a : NoDup ((merge_sort key_le ks).*1) ->
  StronglySorted (fun k k' => Key_ID k' < Key_ID k) (listing now (merge_sort key_le ks) a).
Proof.
  intros Hnd. assert (Hs : StronglySorted key_le (merge_sort key_le ks)) by (apply StronglySorted_merge_sort; apply _).
  unfold listing. induction Hs as [|[i k] l _ IH Hall]; [constructor|]. apply NoDup_cons in Hnd as [Hn Hnd].
  destruct (decide (k_app_id k = a)) as [Ha|Ha]; [rewrite filter_cons_True by done|rewrite filter_cons_False by done; by apply IH].
  csimpl. constructor; [by apply IH|]. apply Forall_fmap, Forall_forall.
  intros [j k'] [_ Hin]%list_elem_of_filter. simpl. rewrite !toKey_id. simpl. rewrite Forall_forall in Hall.
  specialize (Hall _ Hin). unfold key_le in Hall. simpl in Hall.
  assert (j <> i); [|lia]. intros ->. apply Hn. simpl. by apply (list_elem_of_fmap_2 fst l (i, k')).
Qed.

(** The operator's list of apps shows every binding once, each with exactly the keys
    issued under it, the newest first and in the state they have at that time. *)
Theorem ListBindings_exact collation now db : exists l, pg_ListBindings collation now db = (Ok l, db) /\
  (forall a b, app_bindings db !! a = Some b -> exists x, x ∈ l /\ Listed_Binding x = scan_binding a b) /\
  NoDup ((AppID ∘ Listed_Binding) <$> l) /\
  forall x, x ∈ l -> exists b, app_bindings db !! AppID (Listed_Binding x) = Some b /\
    Listed_Binding x = scan_binding (AppID (Listed_Binding x)) b /\
    StronglySorted (fun k k' => Key_ID k' < Key_ID k) (Keys x) /\
    forall key, key ∈ Keys x <-> exists i k, app_keys db !! i = Some k /\ k_app_id k = AppID (Listed_Binding x) /\
      key = toKey (scanKey i k) (storeTime now).
Proof.
  eexists. split; [done|]. cbv zeta.
  set (bindings := merge_sort (binding_le collation) (map_to_list (app_bindings db))).
  set (keys := merge_sort key_le (map_to_list (app_keys db))).
  set (listed := (fun p => {| Listed_Binding := scan_binding p.1 p.2; Keys := [] |}) <$> bindings).
  assert (Hb : bindings ≡ₚ map_to_list (app_bindings db)) by apply merge_sort_Permutation.
  assert (Hk : keys ≡ₚ map_to_list (app_keys db)) by apply merge_sort_Permutation.
  assert (Hnd : NoDup ((AppID ∘ Listed_Binding) <$> listed)).
  { unfold listed. rewrite <- list_fmap_compose. change (AppID ∘ _ ∘ _) with (fst (A := string) (B := BindingRow)).
    rewrite Hb. apply NoDup_fst_map_to_list. }
  rewrite append_keys by done. split_and!.
  - intros a b Ha. exists {| Listed_Binding := scan_binding a b; Keys := listing (storeTime now) keys a |}. split; [|done].
    apply list_elem_of_fmap. exists {| Listed_Binding := scan_binding a b; Keys := [] |}. split; [done|].
    apply list_elem_of_fmap. exists (a, b). split; [done|]. rewrite Hb. by apply elem_of_map_to_list.
  - rewrite <- list_fmap_compose. exact Hnd.
  - intros x (y & -> & Hy)%list_elem_of_fmap. apply list_elem_of_fmap in Hy as ([a b] & -> & Hin). simpl.
    rewrite Hb in Hin. apply elem_of_map_to_list in Hin. exists b. split_and!; [done..| |].
    + apply (listing_sorted _ (map_to_list (app_keys db))). fold keys. rewrite Hk. apply NoDup_fst_map_to_list.
    + intros key. unfold listing. rewrite list_elem_of_fmap. split.
      * intros ([i k] & -> & [Ha Hik]%list_elem_of_filter). rewrite Hk in Hik. apply elem_of_map_to_list in Hik. by exists i, k.
      * intros (i & k & Hik & Ha & ->). exists (i, k). split; [done|]. apply list_elem_of_filter. split; [done|].
        rewrite Hk. by apply elem_of_map_to_list.
Qed.
