(* ===== verification/IdentityVerifier.v ===== *)
(** * IdentityVerifier

    The OIDC token verifier of package [appidentity] (verifier.go): the claims of a
    token, the signing keys and when they are fetched, and the order of its checks.

    golang-jwt and the decoding of a key set into its struct are parameters ([Jose]);
    [JoseLaws] states what the parser documents.  The clock, the answers of the issuer
    and the caller's patience are streams, consumed call by call. *)

From S2P Require Import Prelude GoText Utf8 Base64 Json MessageValidate Idents Identity IdentityStore IdentityService.
Open Scope Z_scope.
Import appidentity.

Module verifier.

Definition GitHubIssuer : string := "https://token.actions.githubusercontent.com".
Definition jwksPath : string := "/.well-known/jwks".
Definition DefaultFetchTimeout : Z := 5 * Second.
Definition DefaultRefetchInterval : Z := Minute.
Definition signingAlgorithm : string := "RS256".
Definition minRSABits : Z := 2048.
Definition maxJWKSBytes : Z := 2 ^ 20.
Definition maxTokenBytes : Z := 16 * 2 ^ 10.

(** ** Signing keys *)

(** [rsa.PublicKey] *)
Record PublicKey := { N : Z; E : Z }.
#[global] Instance PublicKey_dec : EqDecision PublicKey.
Proof. solve_decision. Defined.

Record jwk := {
  KeyType : string;
  jwk_KeyID : string;
  Use : string;
  Algorithm : string;
  Modulus : string;
  Exponent : string
}.

(** [new(big.Int).SetBytes] and [BitLen] *)
Definition SetBytes (bs : list Z) : Z := foldl (fun acc b => acc * 256 + b) 0 bs.
Definition BitLen (n : Z) : Z := if n =? 0 then 0 else Z.log2 n + 1.

Definition jwk_publicKey (entry : jwk) : result PublicKey :=
  match base64url.DecodeString (Modulus entry), base64url.DecodeString (Exponent entry) with
  | Some modulusBytes, Some exponentBytes =>
    let modulus := SetBytes modulusBytes in
    let exponent := SetBytes exponentBytes in
    if BitLen modulus <? minRSABits then Err (errors_New "rsa key too small")
    else if negb (exponent <=? int64_max) || (exponent <? 3) || (2 ^ 31 - 1 <? exponent) || Z.even exponent
    then Err (errors_New "rsa exponent out of range")
    else Ok {| N := modulus; E := exponent |}
  | _, _ => Err (errors_New "illegal base64 data")
  end.

(** Whether an entry is kept, and as which key. *)
Definition usable_entry (entry : jwk) : option PublicKey :=
  if negb (String.eqb (KeyType entry) "RSA") || String.eqb (jwk_KeyID entry) EmptyString then None
  else if negb (String.eqb (Use entry) EmptyString) && negb (String.eqb (Use entry) "sig") then None
  else if negb (String.eqb (Algorithm entry) EmptyString) && negb (String.eqb (Algorithm entry) signingAlgorithm) then None
  else match jwk_publicKey entry with Ok key => Some key | Err _ => None end.

Definition add_entry (keys : gmap string PublicKey) (entry : jwk) : gmap string PublicKey :=
  match usable_entry entry with Some key => <[jwk_KeyID entry := key]> keys | None => keys end.

(** ** The claims of a token *)

(** The claim set: jti and exp of the registered claims, and GitHub's own. *)
Record tokenClaims := {
  ID : string;
  Parsed_ExpiresAt : option Z;
  Parsed_Repository : string;
  Parsed_RepositoryID : string;
  Parsed_RepositoryOwnerID : string;
  WorkflowRef : string;
  Parsed_Ref : string;
  Parsed_Environment : string;
  Parsed_RunID : string
}.

(** [^[0-9]+$] *)
Definition digitsOnly (bs : list Z) : bool := negb (bool_decide (bs = [])) && forallb json.is_digit bs.

(** [scalar.UnmarshalJSON] *)
Definition scalar_UnmarshalJSON (data : list Z) : option string :=
  let trimmed := TrimSpace data in
  if bool_decide (trimmed = bytes "null") then Some EmptyString
  else if bool_decide (head trimmed = Some json.quote) then
    match json.parse trimmed with
    | Some (json.JString items, rest) =>
      if bool_decide (json.skip_space rest = []) then Some (of_bytes (json.unquote items)) else None
    | _ => None
    end
  else if digitsOnly trimmed then Some (of_bytes trimmed)
  else None.

(** [strings.Cut(s, sep)] for a one-byte separator *)
Fixpoint Cut (sep : ascii) (s : string) : option (string * string) :=
  match s with
  | EmptyString => None
  | String c rest =>
    if Ascii.eqb c sep then Some (EmptyString, rest)
    else p ← Cut sep rest; Some (String c p.1, p.2)
  end.

Definition positiveID (text : string) : result Z :=
  match envint.Atoi text with
  | Some value => if value <=? 0 then Err (errors_New "missing or not a positive integer") else Ok value
  | None => Err (errors_New "missing or not a positive integer")
  end.

Definition workflowPathFromRef (workflowRef repository : string) : result string :=
  if String.eqb repository EmptyString then Err (errors_New "repository claim is missing")
  else match Cut "@"%char workflowRef with
  | None => Err (errors_New "missing or malformed")
  | Some (withoutRef, _) =>
    match cut_prefix (repository +:+ "/") withoutRef with
    | Some path =>
      if String.eqb path EmptyString then Err (errors_New "does not belong to the repository claim") else Ok path
    | None => Err (errors_New "does not belong to the repository claim")
    end
  end.

(** [fmt.Errorf("label: %w", err)] *)
Definition labelled {A} (label : string) (r : result A) : result A :=
  match r with Ok a => Ok a | Err e => Err (Wrap (label +:+ ": " +:+ Error e) [e]) end.

Definition check_that (b : bool) (text : string) : result unit := if b then Ok tt else Err (errors_New text).

Definition toClaims (parsed : tokenClaims) : result Claims :=
  _ ← check_that (negb (String.eqb (ID parsed) EmptyString)) "missing jti";
  expiresAt ← match Parsed_ExpiresAt parsed with Some t => Ok t | None => Err (errors_New "missing exp") end;
  repositoryID ← labelled "repository_id" (positiveID (Parsed_RepositoryID parsed));
  ownerID ← labelled "repository_owner_id" (positiveID (Parsed_RepositoryOwnerID parsed));
  workflowPath ← labelled "workflow_ref" (workflowPathFromRef (WorkflowRef parsed) (Parsed_Repository parsed));
  _ ← check_that (negb (String.eqb (Parsed_Repository parsed) EmptyString)) "missing repository";
  _ ← check_that (negb (String.eqb (Parsed_Ref parsed) EmptyString)) "missing ref";
  _ ← check_that (digitsOnly (bytes (Parsed_RunID parsed))) "run_id missing or not numeric";
  Ok {| Claims_Repository := Parsed_Repository parsed; Claims_RepositoryID := repositoryID;
        Claims_RepositoryOwnerID := ownerID; Claims_WorkflowPath := workflowPath; Claims_Ref := Parsed_Ref parsed;
        Claims_Environment := Parsed_Environment parsed; RunID := Parsed_RunID parsed; JTI := ID parsed;
        ExpiresAt := expiresAt |}.

(** ** golang-jwt *)

(** The options of [jwt.NewParser]: valid methods, issuer, audience, leeway; an
    expiration is required and the issue time checked. *)
Record Parser := {
  ValidMethods : list string;
  Parser_Issuer : string;
  Parser_Audience : string;
  Leeway : Z
}.

(** A token's header as the key function reads it: its algorithm, and its kid if that is
    a string. *)
Record Token := { Alg : string; Kid : option string }.

Class Jose := {
  (** [json.Unmarshal] of a key set: its entries *)
  unmarshal_jwks : list Z -> option (list jwk);
  (** [parser.ParseWithClaims], with the clock and how a scalar claim is decoded *)
  ParseWithClaims {S} : Parser -> M S Z -> (list Z -> option string) -> string -> (Token -> M S PublicKey) -> M S tokenClaims;
  (** the header of a raw token, if it has one *)
  token_header : string -> option Token;
  (** whether the signature of a raw token verifies with an algorithm under a key *)
  signature_valid : string -> string -> PublicKey -> bool;
  (** the issuer and audiences a raw token names *)
  token_iss : string -> string;
  token_aud : string -> list string
}.

Section verifier.
Context `{Jose}.

Definition parseJWKS (document : list Z) : result (gmap string PublicKey) :=
  match unmarshal_jwks document with
  | None => Err (errors_New "decode jwks")
  | Some entries =>
    let keys := foldl add_entry ∅ entries in
    if bool_decide (keys = ∅) then Err (errors_New "jwks holds no usable RS256 signing key") else Ok keys
  end.

(** What one request to the issuer brings: no response, or a status and a body that may
    break off. *)
Inductive response : Type :=
  | NoResponse
  | Response (status : Z) (body : list Z) (broken : bool).

Definition fetchKeys (r : response) : result (gmap string PublicKey) :=
  match r with
  | NoResponse => Err (errors_New "fetch jwks")
  | Response status body broken =>
    if negb (status =? 200) then Err (errors_New ("fetch jwks: status " +:+ pretty status))
    else if broken && (Z.of_nat (length body) <? maxJWKSBytes) then Err (errors_New "read jwks")
    else parseJWKS (take (Z.to_nat maxJWKSBytes) body)
  end.

(** ** The verifier *)

(** What a verifier meets: readings of the clock, answers of the issuer, and whether a
    caller gives up waiting for its turn to refresh. *)
Record surroundings := { clock : nat -> Z; responses : nat -> response; gives_up : nat -> option error }.

(** The configuration of a verifier; [static] is a key set loaded from a file. *)
Record Verifier := { parser : Parser; refetchInterval : Z; static : bool }.

(** Its state, with how much of the surroundings it has used and when it has fetched,
    the latest first. *)
Record VState := {
  keys : gmap string PublicKey;
  lastFetch : Z;
  lastFetchErr : option error;
  readings : nat;
  waits : nat;
  fetches : list Z
}.

Record VerifierConfig := {
  Config_Audience : string;
  Config_JWKSFile : option (option (list Z));
  Config_Issuer : string;
  Config_RefetchInterval : Z
}.

(** [NewVerifier]; a configured key file is its contents, [None] when it cannot be read. *)
Definition NewVerifier (config : VerifierConfig) : result (Verifier * VState) :=
  if String.eqb (Config_Audience config) EmptyString then Err (errors_New "oidc audience is required")
  else
    let issuer := if String.eqb (Config_Issuer config) EmptyString then GitHubIssuer else Config_Issuer config in
    let interval := if Config_RefetchInterval config <=? 0 then DefaultRefetchInterval else Config_RefetchInterval config in
    let parser := {| ValidMethods := [signingAlgorithm]; Parser_Issuer := issuer;
                     Parser_Audience := Config_Audience config; Leeway := ClockLeeway |} in
    let state keys := {| keys := keys; lastFetch := 0; lastFetchErr := None; readings := O; waits := O; fetches := [] |} in
    match Config_JWKSFile config with
    | None => Ok ({| parser := parser; refetchInterval := interval; static := false |}, state ∅)
    | Some None => Err (errors_New ("read " +:+ JWKSFileEnvVar))
    | Some (Some contents) =>
      match parseJWKS contents with
      | Err e => Err (Wrap ("parse " +:+ JWKSFileEnvVar) [e])
      | Ok keys => Ok ({| parser := parser; refetchInterval := interval; static := true |}, state keys)
      end
    end.

Context (around : surroundings) (verifier : Verifier).

(** [verifier.now()] *)
Definition read_clock : M VState Z := fun v => (Ok (clock around (readings v)), v {{ readings := S (readings v) }}).

(** A refresh: one caller at a time. *)
Definition refresh : M VState unit := fun v =>
  let v := v {{ waits := S (waits v) }} in
  match gives_up around (pred (waits v)) with
  | Some e => (Err (Wrap "identity token signing keys unavailable: waiting for jwks refresh" [ErrKeysUnavailable]), v)
  | None =>
    let started := clock around (readings v) in
    let v := v {{ readings := S (readings v) }} in
    if negb (time.IsZero (lastFetch v)) && (time.Sub started (lastFetch v) <? refetchInterval verifier) then
      match lastFetchErr v with
      | Some _ => (Err (Wrap "identity token signing keys unavailable: last fetch failed" [ErrKeysUnavailable]), v)
      | None => (Ok tt, v)
      end
    else
      let fetched := fetchKeys (responses around (length (fetches v))) in
      let v := v {{ lastFetch := started; fetches := started :: fetches v; readings := S (readings v) }} in
      match fetched with
      | Err e => (Err (Wrap "identity token signing keys unavailable" [ErrKeysUnavailable]), v {{ lastFetchErr := Some e }})
      | Ok fresh => (Ok tt, v {{ lastFetchErr := None; keys := fresh }})
      end
  end.

Definition publicKey (keyID : string) : M VState PublicKey :=
  cached ← m_gets (fun v => keys v !! keyID);
  match cached with
  | Some key => mret key
  | None =>
    if static verifier then m_fail (errors_New "unknown kid")
    else
      _ ← refresh;
      cached ← m_gets (fun v => keys v !! keyID);
      match cached with Some key => mret key | None => m_fail (errors_New "unknown kid") end
  end.

Definition signingKey (token : Token) : M VState PublicKey :=
  if negb (String.eqb (Alg token) signingAlgorithm) then m_fail (errors_New "unexpected signing algorithm")
  else
    let keyID := default EmptyString (Kid token) in
    if String.eqb keyID EmptyString then m_fail (errors_New "token has no kid")
    else publicKey keyID.

(** Every check of a token but that its jti is fresh. *)
Definition check_token (rawToken : string) : M VState Claims :=
  if String.eqb rawToken EmptyString || (maxTokenBytes <? len rawToken)
  then m_fail (Wrap "invalid identity token: token empty or too large" [ErrInvalidToken])
  else
    parsed ← m_map_err (fun e => if errors_Is e ErrKeysUnavailable then ErrKeysUnavailable
                                 else Wrap ("invalid identity token: " +:+ Error e) [ErrInvalidToken])
      (ParseWithClaims (parser verifier) read_clock scalar_UnmarshalJSON rawToken signingKey);
    m_map_err (fun e => Wrap ("invalid identity token: " +:+ Error e) [ErrInvalidToken]) (m_lift (toClaims parsed)).

Definition Verify (rawToken : string) (RecordJTI : string -> Z -> M VState bool) : M VState Claims :=
  claims ← check_token rawToken;
  fresh ← m_map_err (fun e => Wrap "record jti" [e]) (RecordJTI (JTI claims) (ReplayExpiry claims));
  if negb (fresh : bool) then m_fail ErrReplayed else mret claims.

#[export] Instance Verifier_verifies : TokenVerifier VState := {| IdentityService.Verify := Verify |}.
End verifier.
End verifier.
