(* ===== verification/IdentityVerifierProps.v ===== *)
(** * IdentityVerifierProps

    The token verifier: it fetches keys no more often than its interval, whatever keys
    callers name; trusts only usable keys; and accepts only tokens they sign, with
    complete claims. *)

From S2P Require Import Prelude GoText Utf8 Std Base64 Json MessageValidate Idents Identity IdentityStore IdentityService IdentityExchange IdentityInv IdentityProps IdentityVerifier.
Open Scope Z_scope.
Import appidentity identity_pg verifier.

(** ** golang-jwt, as documented *)

(** The key function is called at most once, then the clock is read at most once; an
    accepted token has an allowed algorithm, a signature that verifies, the issuer and
    the audience required, and has not expired but for the leeway; a failing key function
    fails the parse with its error wrapped, and nothing else fails as one. *)
Class JoseLaws `(Jose) : Prop := {
  parse_accepts {S} p clock scalar raw kf (s s' : S) c :
    ParseWithClaims p clock scalar raw kf s = (Ok c, s') -> exists token key s1 t exp,
      token_header raw = Some token /\ Alg token ∈ ValidMethods p /\
      kf token s = (Ok key, s1) /\ signature_valid (Alg token) raw key = true /\ clock s1 = (Ok t, s') /\ token_iss raw = Parser_Issuer p /\ Parser_Audience p ∈ token_aud raw /\
      Parsed_ExpiresAt c = Some exp /\ t < exp + Leeway p;
  parse_rejects {S} p clock scalar raw kf (s s' : S) e :
    ParseWithClaims p clock scalar raw kf s = (Err e, s') ->
      (s' = s /\ errors_Is e ErrKeysUnavailable = false) \/
      (exists token e1, kf token s = (Err e1, s') /\ errors_Is e ErrKeysUnavailable = errors_Is e1 ErrKeysUnavailable) \/
      (exists token key s1, kf token s = (Ok key, s1) /\ errors_Is e ErrKeysUnavailable = false /\ (s' = s1 \/ s' = (clock s1).2))
}.

(** ** Key sets *)

(** A key that may sign tokens: at least 2048 bits, an odd exponent from 3 to 2^31-1. *)
Definition trusted (key : PublicKey) : Prop :=
  2 ^ (minRSABits - 1) <= N key /\ 3 <= E key <= 2 ^ 31 - 1 /\ Z.odd (E key) = true.

Lemma SetBytes_nonneg bs : Forall (fun b => 0 <= b) bs -> 0 <= SetBytes bs.
Proof.
  unfold SetBytes. enough (H : forall acc, 0 <= acc -> Forall (fun b => 0 <= b) bs -> 0 <= foldl (fun acc b => acc * 256 + b) acc bs)
    by (intros; by apply H).
  induction bs as [|b bs IH]; intros acc Hacc; [done|]. intros [Hb Hbs]%Forall_cons. simpl. apply IH; [lia|done].
Qed.

Lemma usable_trusted entry key : usable_entry entry = Some key -> trusted key.
Proof.
  unfold usable_entry, jwk_publicKey. do 3 (case_match; [done|]).
  destruct (base64url.DecodeString (Modulus entry)) as [ms|]; [|done].
  destruct (base64url.DecodeString (Exponent entry)) as [es|]; [|done]. cbv zeta.
  destruct (Z.ltb_spec (BitLen (SetBytes ms)) minRSABits) as [|Hbits]; [done|].
  destruct (negb _ || _ || _ || _) eqn:He; [done|]. intros [= <-].
  apply orb_false_iff in He as [He Hodd]. apply orb_false_iff in He as [He Hhi]. apply orb_false_iff in He as [_ Hlo].
  apply Z.ltb_ge in Hhi. apply Z.ltb_ge in Hlo. split; [|split; [simpl; lia|]].
  - simpl. unfold BitLen, minRSABits in *. destruct (Z.eqb_spec (SetBytes ms) 0); [lia|].
    assert (Hpos : 0 < SetBytes ms). { destruct (Z.lt_trichotomy 0 (SetBytes ms)) as [|[|Hneg]]; [done|lia|]. rewrite Z.log2_nonpos in Hbits; lia. }
    apply Z.log2_le_pow2; [done|]. lia.
  - simpl. by rewrite <- Z.negb_even, Hodd.
Qed.

(** The key the entries give a kid: the last usable one. *)
Definition entry_key (entries : list jwk) (kid : string) : option PublicKey :=
  last (omap usable_entry (filter (fun e => jwk_KeyID e = kid) entries)).

Lemma add_entries entries kid : foldl add_entry ∅ entries !! kid = entry_key entries kid.
Proof.
  unfold entry_key. induction entries as [|e entries IH] using rev_ind; [done|].
  rewrite foldl_app, filter_app, omap_app. simpl. unfold add_entry at 1.
  destruct (decide (jwk_KeyID e = kid)) as [<-|Hne].
  - rewrite filter_cons_True, filter_nil by done. simpl. destruct (usable_entry e) as [key|].
    + by rewrite lookup_insert_eq, last_snoc.
    + by rewrite app_nil_r.
  - rewrite filter_cons_False, filter_nil by done. simpl. rewrite app_nil_r.
    destruct (usable_entry e); [by rewrite lookup_insert_ne|done].
Qed.

Section props.
Context `{Jose}.

(** A key set is read as the map that gives each kid the last entry of that kid that
    is usable: an RSA key for signatures with RS256, of at least 2048 bits and with an odd
    exponent from 3 to 2^31-1; and a set with no usable entry is refused. *)
Lemma parseJWKS_spec document ks : parseJWKS document = Ok ks <->
  exists entries, unmarshal_jwks document = Some entries /\ ks <> ∅ /\
    forall kid key, ks !! kid = Some key <->
      entry_key entries kid = Some key /\ trusted key /\ kid <> EmptyString.
Proof.
  unfold parseJWKS. destruct (unmarshal_jwks document) as [entries|]; [|split; [done|by intros (? & ? & _)]].
  assert (Hin : forall kid key, entry_key entries kid = Some key -> trusted key /\ kid <> EmptyString).
  { intros kid key Hk. apply last_Some_elem_of, list_elem_of_omap in Hk as (e & [Hkid _]%list_elem_of_filter & He).
    split; [by eapply usable_trusted|]. unfold usable_entry in He. subst kid. intros Hempty. by rewrite Hempty, orb_true_r in He. }
  cbv zeta. split.
  - case_bool_decide; [done|]. intros [= <-]. exists entries. split_and!; [done..|]. intros kid key. rewrite add_entries.
    split; [|by intros [? _]]. intros Hk. split; [done|by apply (Hin kid)].
  - intros (entries' & [= <-] & Hne & Hks). assert (foldl add_entry ∅ entries = ks) as ->.
    { apply map_eq. intros kid. apply option_eq. intros key. rewrite Hks, add_entries. split; [|by intros [? _]].
      intros Hk. split; [done|by apply (Hin kid)]. }
    by rewrite bool_decide_eq_false_2.
Qed.

(** ** Fetches *)

Context (around : surroundings) (verifier : Verifier).

(** The clock does not go back; year 1 is over. *)
Definition clock_advances : Prop :=
  (forall i, 0 < clock around i) /\ forall i j, (i <= j)%nat -> clock around i <= clock around j.

(** Of two fetches the later one starts an interval after the earlier. *)
Definition spaced : list Z -> Prop := StronglySorted (fun later earlier => earlier + refetchInterval verifier <= later).

Record verifier_inv (v : VState) : Prop := {
  inv_last : lastFetch v = default 0 (head (fetches v));
  inv_past t : t ∈ fetches v -> 0 < t /\ t <= clock around (readings v);
  inv_spaced : spaced (fetches v);
  inv_trusted : map_Forall (fun _ key => trusted key) (keys v)
}.

Lemma parseJWKS_trusted document ks : parseJWKS document = Ok ks -> map_Forall (fun _ key => trusted key) ks.
Proof. intros (entries & _ & _ & Hk)%parseJWKS_spec kid key Hkid. by apply Hk in Hkid as (_ & ? & _). Qed.

Lemma fetchKeys_trusted r ks : fetchKeys r = Ok ks -> map_Forall (fun _ key => trusted key) ks.
Proof. unfold fetchKeys. destruct r; [done|]. repeat (case_match; [done|]). apply parseJWKS_trusted. Qed.

Lemma Sub_ge t u d : 0 < d -> time.Sub t u <? d = false -> u + d <= t.
Proof.
  unfold time.Sub. intros Hd Hs. apply Z.ltb_ge in Hs. assert (int64_min < 0) by done.
  destruct (Z.max_spec int64_min (Z.min int64_max (t - u))) as [[_ He]|[_ He]]; rewrite He in Hs; lia.
Qed.

Section inv.
Context (Hclock : clock_advances) (Hinterval : 0 < refetchInterval verifier).

(** Reading the clock keeps what a later reading bounds. *)
Lemma past_later v n : verifier_inv v -> (readings v <= n)%nat -> forall t, t ∈ fetches v -> 0 < t /\ t <= clock around n.
Proof.
  intros Hv Hn t Ht. destruct (inv_past _ Hv t Ht) as [? Hle]. split; [done|]. etrans; [exact Hle|]. by apply Hclock.
Qed.

Lemma read_clock_inv v : verifier_inv v -> verifier_inv (read_clock around v).2.
Proof. intros Hv. pose proof (past_later v (S (readings v)) Hv ltac:(lia)) as Hp. destruct v, Hv. by split. Qed.

Lemma fetch_spaced v : verifier_inv v ->
  negb (time.IsZero (lastFetch v)) && (time.Sub (clock around (readings v)) (lastFetch v) <? refetchInterval verifier) = false ->
  spaced (clock around (readings v) :: fetches v).
Proof.
  intros Hv Hgo. constructor; [apply Hv|]. apply Forall_forall. intros t Ht.
  pose proof (inv_last _ Hv) as Hl. pose proof (inv_spaced _ Hv) as Hs. pose proof (inv_past _ Hv) as Hp.
  destruct (fetches v) as [|h rest] eqn:Ef; [by apply elem_of_nil in Ht|]. simpl in Hl. rewrite Hl in Hgo.
  destruct (Hp h) as [Hh _]; [by left|]. unfold time.IsZero in Hgo. destruct (Z.eqb_spec h 0); [lia|]. cbn [negb andb] in Hgo.
  apply Sub_ge in Hgo; [|done]. apply elem_of_cons in Ht as [->|Ht]; [done|].
  apply StronglySorted_inv in Hs as [_ Hs]. rewrite Forall_forall in Hs. specialize (Hs t Ht). simpl in Hs. lia.
Qed.

(** What a refresh does: its caller gives up, the interval has not passed, or it fetches;
    a failed fetch keeps the keys. *)
Lemma refresh_cases v r v' : refresh around verifier v = (r, v') ->
  (keys v' = keys v /\ lastFetch v' = lastFetch v /\ fetches v' = fetches v /\ (readings v <= readings v')%nat) \/
  (negb (time.IsZero (lastFetch v)) && (time.Sub (clock around (readings v)) (lastFetch v) <? refetchInterval verifier) = false /\
   lastFetch v' = clock around (readings v) /\ fetches v' = clock around (readings v) :: fetches v /\
   (readings v <= readings v')%nat /\
   match fetchKeys (responses around (length (fetches v))) with
   | Ok ks => r = Ok tt /\ keys v' = ks
   | Err _ => keys v' = keys v /\ exists e, r = Err e /\ errors_Is e ErrKeysUnavailable = true
   end).
Proof.
  destruct v as [ks last err rd w fs]. unfold refresh. cbv zeta. simpl.
  destruct (gives_up around w); [intros [= <- <-]; by left|].
  destruct (negb (time.IsZero last) && (time.Sub (clock around rd) last <? refetchInterval verifier)) eqn:Hgo.
  { destruct err; intros [= <- <-]; left; simpl; split_and!; try done; lia. }
  destruct (fetchKeys (responses around (length fs))) as [fresh|e]; intros [= <- <-]; right; simpl; split_and!; try done; try lia.
  by eexists.
Qed.

Lemma refresh_inv v : verifier_inv v -> verifier_inv (refresh around verifier v).2.
Proof.
  intros Hv. destruct (refresh around verifier v) as [r v'] eqn:E.
  destruct (refresh_cases _ _ _ E) as [(Hk & Hl & Hf & Hr)|(Hgo & Hl & Hf & Hr & Hk)]; simpl.
  - split; rewrite ?Hk, ?Hl, ?Hf; [apply Hv| |apply Hv..]. by apply past_later.
  - split; rewrite ?Hl, ?Hf.
    + done.
    + intros t [->|Ht]%elem_of_cons; [split; [apply Hclock|by apply Hclock]|by eapply past_later].
    + by apply fetch_spaced.
    + destruct (fetchKeys _) as [ks|e] eqn:Ef; [destruct Hk as [_ ->]; by eapply fetchKeys_trusted|].
      destruct Hk as [-> _]. apply Hv.
Qed.

Lemma publicKey_inv kid v : verifier_inv v -> verifier_inv (publicKey around verifier kid v).2.
Proof.
  intros Hv. unfold publicKey, mbind, m_bind, m_gets. destruct (keys v !! kid); [done|]. destruct (static verifier); [done|].
  pose proof (refresh_inv v Hv) as Hr. destruct (refresh around verifier v) as [[[]|e] v']; [|done]. simpl in *.
  by destruct (keys v' !! kid).
Qed.

Lemma signingKey_inv token v : verifier_inv v -> verifier_inv (signingKey around verifier token v).2.
Proof. intros Hv. unfold signingKey. cbv zeta. repeat (case_match; [done|]). by apply publicKey_inv. Qed.

(** The key a lookup gives is one the verifier holds. *)
Lemma signingKey_ok token v key v' : signingKey around verifier token v = (Ok key, v') ->
  Alg token = signingAlgorithm /\ exists kid, Kid token = Some kid /\ kid <> EmptyString /\ keys v' !! kid = Some key.
Proof.
  unfold signingKey. destruct (String.eqb_spec (Alg token) signingAlgorithm) as [Ha|]; [|done]. cbn [negb]. cbv zeta.
  destruct (Kid token) as [kid|]; [|done]. cbn [default from_option id].
  destruct (String.eqb_spec kid EmptyString) as [|Hne]; [done|]. intros Hp. split; [done|]. exists kid. split_and!; [done..|].
  revert Hp. unfold publicKey, mbind, m_bind, m_gets. destruct (keys v !! kid) eqn:Hk; [by intros [= <- <-]|].
  destruct (static verifier); [done|]. destruct (refresh around verifier v) as [[[]|e] v1]; [|done].
  destruct (keys v1 !! kid) eqn:Hk1; [|done]. by intros [= <- <-].
Qed.

(** ** Tokens *)

Context {Hlaws : JoseLaws _}.

Lemma check_token_inv raw v : verifier_inv v -> verifier_inv (check_token around verifier raw v).2.
Proof.
  intros Hv. unfold check_token. destruct (_ || _); [done|]. unfold mbind, m_bind, m_map_err, m_lift.
  destruct (ParseWithClaims _ _ _ _ _ v) as [[parsed|e] v'] eqn:Hp.
  - apply parse_accepts in Hp as (token & key & v1 & t & exp & _ & _ & Hkf & _ & Hc & _).
    pose proof (signingKey_inv token v Hv) as H1. rewrite Hkf in H1. simpl in H1.
    pose proof (read_clock_inv v1 H1) as H2. rewrite Hc in H2. simpl in H2. by destruct (toClaims parsed).
  - simpl. apply parse_rejects in Hp as [[-> _]|[(token & e1 & Hkf & _)|(token & key & v1 & Hkf & _ & Hs)]]; [done| |].
    + pose proof (signingKey_inv token v Hv) as H1. by rewrite Hkf in H1.
    + pose proof (signingKey_inv token v Hv) as H1. rewrite Hkf in H1. simpl in H1. destruct Hs as [-> | ->]; [done|].
      by apply read_clock_inv.
Qed.

Lemma Verify_inv raw v : verifier_inv v -> verifier_inv (Verify around verifier raw (fun _ _ => mret true) v).2.
Proof.
  intros Hv. unfold Verify, mbind at 1, m_bind at 1. pose proof (check_token_inv raw v Hv) as Hc.
  by destruct (check_token _ _ _ v) as [[claims|e] v'].
Qed.
End inv.

(** The verifier while exchanges verify their tokens. *)
Definition verifications : VState -> VState -> Prop :=
  rtc (fun v v' => exists raw, v' = (Verify around verifier raw identity_service.verifyOnly v).2).

Lemma NewVerifier_ok config v0 : NewVerifier config = Ok (verifier, v0) ->
  0 < refetchInterval verifier /\ verifier_inv v0 /\
  parser verifier = {| ValidMethods := [signingAlgorithm];
    Parser_Issuer := if String.eqb (Config_Issuer config) EmptyString then GitHubIssuer else Config_Issuer config;
    Parser_Audience := Config_Audience config; Leeway := ClockLeeway |}.
Proof.
  unfold NewVerifier. case_match; [done|]. cbv zeta.
  assert (Hi : 0 < if Config_RefetchInterval config <=? 0 then DefaultRefetchInterval else Config_RefetchInterval config).
  { destruct (Z.leb_spec (Config_RefetchInterval config) 0); [done|lia]. }
  destruct (Config_JWKSFile config) as [[contents|]|]; [|done|].
  - destruct (parseJWKS contents) as [ks|] eqn:Hks; [|done]. intros [= <- <-]. split_and!; [done| |done].
    split; simpl; [done|by intros ? ?%elem_of_nil|constructor|by eapply parseJWKS_trusted].
  - intros [= <- <-]. split_and!; [done| |done]. split; simpl; [done|by intros ? ?%elem_of_nil|constructor|apply map_Forall_empty].
Qed.

Lemma verifications_inv {Hlaws : JoseLaws _} config v0 v :
  NewVerifier config = Ok (verifier, v0) -> clock_advances -> verifications v0 v -> verifier_inv v.
Proof.
  intros (Hi & Hv & _)%NewVerifier_ok Hclock Hruns.
  induction Hruns as [|v v1 v2 (raw & ->) _ IH]; [done|]. apply IH. by apply Verify_inv.
Qed.

(** However many tokens, forged ones with made-up kids among them, are presented, the
    issuer's keys are fetched at most once an interval, failed fetches counted; and every
    key the verifier holds is an RSA key of at least 2048 bits with an odd exponent from 3
    to 2^31-1.  The clock is assumed not to go back. *)
Theorem fetches_spaced {Hlaws : JoseLaws _} config v0 v :
  NewVerifier config = Ok (verifier, v0) -> clock_advances -> verifications v0 v ->
  spaced (fetches v) /\ map_Forall (fun _ key => trusted key) (keys v).
Proof. intros Hnew Hclock Hruns. by destruct (verifications_inv config v0 v Hnew Hclock Hruns). Qed.

(** What a verified token says of its workflow. *)
Record complete_claims (c : Claims) : Prop := {
  complete_repository : Claims_Repository c <> EmptyString;
  complete_repository_id : 0 < Claims_RepositoryID c <= int64_max;
  complete_owner_id : 0 < Claims_RepositoryOwnerID c <= int64_max;
  complete_path : Claims_WorkflowPath c <> EmptyString;
  complete_ref : Claims_Ref c <> EmptyString;
  complete_run : digitsOnly (bytes (RunID c)) = true;
  complete_jti : JTI c <> EmptyString
}.

Lemma Atoi_range s z : envint.Atoi s = Some z -> int64_min <= z <= int64_max.
Proof.
  unfold envint.Atoi. destruct (envint.int_value s) as [v|]; [|done]. simpl.
  destruct (_ && _) eqn:E; [|done]. intros [= <-]. bool_hyps. lia.
Qed.

Lemma positiveID_ok s z : positiveID s = Ok z -> 0 < z <= int64_max.
Proof.
  unfold positiveID. destruct (envint.Atoi s) eqn:E; [|done]. apply Atoi_range in E.
  destruct (Z.leb_spec z0 0); [done|]. intros [= <-]. lia.
Qed.

Lemma labelled_ok {A} l (r : result A) a : labelled l r = Ok a -> r = Ok a.
Proof. by destruct r. Qed.

Lemma toClaims_complete parsed c : toClaims parsed = Ok c ->
  complete_claims c /\ JTI c = ID parsed /\ Parsed_ExpiresAt parsed = Some (ExpiresAt c).
Proof.
  unfold toClaims, check_that, mbind, result_bind. destruct (String.eqb_spec (ID parsed) EmptyString); [done|]. cbn [negb].
  destruct (Parsed_ExpiresAt parsed) as [exp|]; [|done].
  destruct (labelled _ (positiveID (Parsed_RepositoryID parsed))) as [rid|] eqn:Hrid; [|done].
  destruct (labelled _ (positiveID (Parsed_RepositoryOwnerID parsed))) as [oid|] eqn:Hoid; [|done].
  destruct (labelled _ (workflowPathFromRef _ _)) as [path|] eqn:Hpath; [|done].
  destruct (String.eqb_spec (Parsed_Repository parsed) EmptyString); [done|]. cbn [negb].
  destruct (String.eqb_spec (Parsed_Ref parsed) EmptyString); [done|]. cbn [negb].
  destruct (digitsOnly (bytes (Parsed_RunID parsed))) eqn:Hrun; [|done]. intros [= <-].
  apply labelled_ok, positiveID_ok in Hrid. apply labelled_ok, positiveID_ok in Hoid. apply labelled_ok in Hpath.
  split; [|done]. split; try done. simpl. unfold workflowPathFromRef in Hpath.
  destruct (String.eqb _ _); [done|]. destruct (Cut _ _) as [[w r]|]; [|done]. destruct (cut_prefix _ w) as [p|]; [|done].
  destruct (String.eqb_spec p EmptyString); [done|]. by injection Hpath as <-.
Qed.

(** C23: a token the verifier accepts names RS256 and a kid in its header, and its
    signature verifies with RS256 under the key the verifier held for that kid; it is from the issuer and for the audience the verifier was built for; it
    had not expired but for the leeway; its claims are complete; and its jti was recorded
    as fresh, after every other check. *)
Theorem Verify_sound {Hlaws : JoseLaws _} config v0 raw RecordJTI v claims v' :
  NewVerifier config = Ok (verifier, v0) -> clock_advances -> verifications v0 v ->
  Verify around verifier raw RecordJTI v = (Ok claims, v') ->
  exists kid key v1 v2, token_header raw = Some {| Alg := "RS256"; Kid := Some kid |} /\
    keys v1 !! kid = Some key /\ kid <> EmptyString /\ trusted key /\ signature_valid "RS256" raw key = true /\
    token_iss raw = (if String.eqb (Config_Issuer config) EmptyString then GitHubIssuer else Config_Issuer config) /\
    Config_Audience config ∈ token_aud raw /\
    (exists t, read_clock around v1 = (Ok t, v2) /\ t < ReplayExpiry claims) /\
    complete_claims claims /\ RecordJTI (JTI claims) (ReplayExpiry claims) v2 = (Ok true, v').
Proof.
  intros Hnew Hclock Hruns Hver. pose proof (verifications_inv config v0 v Hnew Hclock Hruns) as Hinv.
  destruct (NewVerifier_ok config v0 Hnew) as (Hi & _ & Hparser).
  unfold Verify in Hver. apply m_bind_ok in Hver as (c & v2 & Hcheck & Hrec).
  unfold check_token in Hcheck. destruct (_ || _); [done|]. apply m_bind_ok in Hcheck as (parsed & v3 & Hp & Ht).
  unfold m_map_err in Hp. destruct (ParseWithClaims _ _ _ _ _ v) as [[parsed'|e] v4] eqn:Hpw; [|done]. injection Hp as -> ->.
  unfold m_map_err, m_lift in Ht. destruct (toClaims parsed) as [c'|e] eqn:Hc; [|done]. injection Ht as -> ->.
  apply m_bind_ok in Hrec as (fresh & v5 & Hr & Hend). unfold m_map_err in Hr.
  destruct (RecordJTI _ _ v2) as [[fresh'|e] v6] eqn:Hrj; [|done]. injection Hr as -> ->.
  destruct fresh; [|done]. injection Hend as -> ->.
  apply parse_accepts in Hpw as (token & key & v1 & t & exp & Hhead & _ & Hkf & Hsig & Hclk & Hiss & Haud & Hexp & Hlt).
  apply toClaims_complete in Hc as (Hcomp & _ & Hexp'). rewrite Hexp' in Hexp. injection Hexp as <-.
  pose proof (signingKey_inv Hclock Hi token v Hinv) as Hinv1. rewrite Hkf in Hinv1. simpl in Hinv1.
  apply signingKey_ok in Hkf as (Halg & kid & Hkid & Hne & Hk). rewrite Hparser in Hiss, Haud, Hlt.
  rewrite Halg in Hsig. destruct token as [alg k]. cbn [Alg Kid] in Halg, Hkid. subst alg k.
  exists kid, key, v1, v2. split_and!; try done; [by apply (inv_trusted _ Hinv1 kid)|]. by exists t.
Qed.

(** ** Errors *)

(** A token that is not accepted fails as an invalid token, or as one that could not
    be judged because the keys could not be fetched, or with the error of the replay
    ledger; and only the last, or a replay, asks the ledger at all: whatever else is
    wrong with a token, its jti is not recorded. *)
Theorem Verify_errors raw RecordJTI v e v' :
  Verify around verifier raw RecordJTI v = (Err e, v') ->
  (exists e0 v1, check_token around verifier raw v = (Err e0, v1) /\
     (forall recorder, Verify around verifier raw recorder v = (Err e, v')) /\
     (e = ErrKeysUnavailable \/ errors_Is e ErrInvalidToken = true)) \/
  (exists claims v1, check_token around verifier raw v = (Ok claims, v1) /\
     ((exists e1, RecordJTI (JTI claims) (ReplayExpiry claims) v1 = (Err e1, v') /\ e = Wrap "record jti" [e1]) \/
      (RecordJTI (JTI claims) (ReplayExpiry claims) v1 = (Ok false, v') /\ e = ErrReplayed))).
Proof.
  unfold Verify. unfold mbind at 1, m_bind at 1. destruct (check_token around verifier raw v) as [[claims|e0] v1] eqn:Hc.
  - unfold mbind, m_bind, m_map_err. destruct (RecordJTI _ _ v1) as [[fresh|e1] v2] eqn:Hr; [destruct fresh; [done|]|];
      intros [= <- <-]; right; exists claims, v1; split; [done|by right|done|left; by exists e1].
  - intros [= <- <-]. left. exists e0, v1. split; [done|]. split.
    { intros recorder. unfold mbind, m_bind. by rewrite Hc. }
    revert Hc. unfold check_token. destruct (_ || _); [intros [= <- _]; by right|].
    unfold mbind, m_bind, m_map_err, m_lift. destruct (ParseWithClaims _ _ _ _ _ v) as [[parsed|e] v2].
    + destruct (toClaims parsed); intros [= <- _]. by right.
    + destruct (errors_Is e ErrKeysUnavailable); intros [= <- _]; [by left|by right].
Qed.
End props.

(** ** Verified claims and the tables *)

Lemma digits_text s : digitsOnly (bytes s) = true -> nonempty s = true.
Proof.
  unfold digitsOnly. intros Hd. bool_hyps. rename H0 into Hall. apply forallb_Forall in Hall.
  assert (Ha : Forall (fun b => 1 <= b < 128) (bytes s)).
  { eapply Forall_impl; [exact Hall|]. intros b Hb. unfold json.is_digit in Hb. bool_hyps. lia. }
  unfold nonempty, text_ok. apply andb_true_iff. split; [apply andb_true_iff; split|].
  - apply ValidString_ascii. eapply Forall_impl; [exact Ha|]. simpl; lia.
  - apply negb_true_iff, not_true_iff_false. intros (b & Hin & He)%existsb_exists. apply Z.eqb_eq in He. subst b.
    rewrite Forall_forall in Ha. apply list_elem_of_In in Hin. specialize (Ha 0 Hin). lia.
  - destruct (String.eqb_spec s EmptyString) as [->|]; [done|done].
Qed.

(** The claims of an accepted token pass every check of the tables, unless one of its texts
    holds a NUL. *)
Lemma verified_storable appID c : complete_claims c -> appid.Valid appID = true ->
  (forall s, s ∈ [Claims_Repository c; Claims_WorkflowPath c; Claims_Ref c; Claims_Environment c; JTI c] -> text_ok s = true) ->
  storable_claims appID c.
Proof.
  intros [Hr Hrid Hoid Hp Href Hrun Hj] Ha Ht.
  assert (Hne : forall s, s ∈ [Claims_Repository c; Claims_WorkflowPath c; Claims_Ref c; Claims_Environment c; JTI c] ->
    s <> EmptyString -> nonempty s = true).
  { intros s Hs Hs'. unfold nonempty. rewrite (Ht s Hs). by destruct (String.eqb_spec s EmptyString). }
  split; [apply Hne; [set_solver|done]|]. intros t. unfold request_check. simpl.
  rewrite Ha, (digits_text _ Hrun), !Hne by (try done; set_solver).
  destruct (Z.ltb_spec 0 (Claims_RepositoryID c)); [|lia]. destruct (Z.ltb_spec 0 (Claims_RepositoryOwnerID c)); [|lia].
  unfold environmentArgument. destruct (String.eqb_spec (Claims_Environment c) EmptyString); [done|]. simpl.
  by rewrite Hne by (try done; set_solver).
Qed.
