(* ===== verification/IdentityDemo.v ===== *)
(** * IdentityDemo

    Concrete runs of app identity at which its theorems are applied, and a run in which a
    token is exchanged twice. *)

From S2P Require Import Prelude GoText Utf8 Std Idents Sha256 Base64 Identity IdentityStore IdentityService IdentityExchange IdentityInv IdentityRun IdentityProps IdentityVerifier IdentityVerifierProps.
Open Scope Z_scope.
Import appidentity identity_pg identity_service.

Module identity_demo.

Lemma op_ok {S A} (op : M S A) s r : (op s).1 = r -> op s = (r, (op s).2).
Proof. intros <-. apply surjective_pairing. Qed.

(** ** A run: an app asks, is approved, and is issued a key *)

Definition T : Z := 63900000000 * Second.

Definition token (jti : string) (expires : Z) : Claims :=
  {| Claims_Repository := "acme/chores"; Claims_RepositoryID := 42; Claims_RepositoryOwnerID := 7;
     Claims_WorkflowPath := ".github/workflows/deploy.yml"; Claims_Ref := "refs/heads/main";
     Claims_Environment := "prod"; RunID := "1001"; JTI := jti; ExpiresAt := expires |}.

Definition app : string := "chores".
Definition random : list Z := replicate 32 7.
Definition key : string := KeyPrefix +:+ base64url.EncodeToString random.

Definition c1 : Claims := token "j1" (T + 5 * Minute).
Definition c2 : Claims := token "j2" (T + 30 * Minute).

Definition db1 : DB := (exchange_now None T app c1 empty).2.
Definition db2 : DB := (pg_ApproveRequest 1 app (T + Minute) db1).2.
Definition db3 : DB := (exchange_now (Some random) (T + 2 * Minute) app c2 db2).2.

Definition binding : Binding :=
  {| AppID := app; Repository := "acme/chores"; RepositoryID := 42; RepositoryOwnerID := 7;
     WorkflowPath := ".github/workflows/deploy.yml"; Ref := "refs/heads/main"; Environment := "prod";
     ApprovedAt := T + Minute |}.

Definition issued : ExchangeResult :=
  {| Result_Status := ExchangeIssued; Result_AppID := app; Result_Key := key; KeyID := 1; RequestID := 0 |}.

Definition tr3 : trace :=
  [(T + 2 * Minute, Exchanged (T + 2 * Minute) app c2 issued); (T + Minute, Approved 1 binding);
   (T, Exchanged T app c1 (pending_result 1))].

Lemma run3 : run tr3 db3.
Proof.
  eapply run_step; [eapply run_step; [eapply run_step; [constructor|]|]|].
  - apply (step_exchange _ None); [lia|by vm_compute|]. apply op_ok. by vm_compute.
  - apply (step_approve _ _ app). apply op_ok. by vm_compute.
  - apply (step_exchange _ (Some random)); [lia|by vm_compute|]. apply op_ok. by vm_compute.
Qed.

Lemma tr3_past x : x ∈ tr3 -> x.1 <= T + Hour.
Proof. unfold tr3. rewrite !elem_of_cons, elem_of_nil. intros [->|[->|[->|[]]]]; by vm_compute. Qed.

Lemma key_resolves : (pg_ResolveKey key (T + Hour) db3).1 =
  Ok {| Resolved_ID := 1; Resolved_AppID := app; Resolved_Hint := "dak_BwcH" |}.
Proof. by vm_compute. Qed.

Lemma ResolveKey_exact_witness : exists l1 at_ v c res l2,
  tr3 = l1 ++ (at_, Exchanged v app c res) :: l2 /\ HashKey (Result_Key res) = HashKey key.
Proof.
  destruct (proj1 (ResolveKey_exact tr3 db3 key (T + Hour) 1 app "dak_BwcH" run3 tr3_past) key_resolves)
    as (_ & l1 & at_ & v & c & res & l2 & Heq & _ & Hh & _).
  exists l1, at_, v, c, res, l2. split; assumption.
Defined.

Lemma keys_authorized_witness : exists t1 v1 c res t2 id b,
  (t1, Exchanged v1 app c res) ∈ tr3 /\ (t2, Approved id b) ∈ tr3 /\ HashKey (Result_Key res) = HashKey key /\ Matches b c = true.
Proof.
  destruct (keys_authorized tr3 db3 key (T + Hour) _ run3 key_resolves)
    as (l1 & t1 & v1 & c & res & l2 & t2 & id & b & l3 & t3 & v3 & c3 & Heq & Hh & _ & _ & Hm & _).
  exists t1, v1, c, res, t2, id, b. rewrite Heq. split; [|split; [|split; assumption]].
  - apply elem_of_app. right. left.
  - apply elem_of_app. right. right. apply elem_of_app. right. left.
Defined.

Lemma identity_invariant_witness : run tr3 db3 /\ wf db3.
Proof. split; [exact run3|]. apply (identity_invariant tr3 db3). exact run3. Defined.

Lemma namespaces_disjoint_witness : exists a b, HasPrefix "chores_done" (a +:+ "_") = true /\ a = b.
Proof.
  destruct (app_bindings db3 !! app) as [row|] eqn:E; [|vm_compute in E; discriminate E].
  exists app, app. split; [reflexivity|].
  exact (namespaces_disjoint tr3 db3 app app row row "chores_done" run3 E E eq_refl eq_refl).
Defined.

(** ** A revoked key *)

Definition db4 : DB := (pg_RevokeKey 1 (T + 3 * Minute) db3).2.

Lemma steps4 : steps db4 db4.
Proof. constructor. Qed.

Lemma wf4 : wf db4.
Proof.
  destruct (pg_RevokeKey 1 (T + 3 * Minute) db3) as [[k|e] db] eqn:E.
  - change (wf (pg_RevokeKey 1 (T + 3 * Minute) db3).2). rewrite E. eapply revoke_wf; [|exact E]. exact (run_wf _ _ run3).
  - exfalso. apply (f_equal fst) in E. vm_compute in E. discriminate E.
Qed.

(** The revocation, and then another exchange that issues the app a second key. *)
Definition random2 : list Z := replicate 32 9.
Definition c3 : Claims := token "j3" (T + 30 * Minute).
Definition db5 : DB := (exchange_now (Some random2) (T + 4 * Minute) app c3 db4).2.
Definition res5 : ExchangeResult :=
  {| Result_Status := ExchangeIssued; Result_AppID := app; Result_Key := KeyPrefix +:+ base64url.EncodeToString random2;
     KeyID := 2; RequestID := 0 |}.

Lemma steps5 : steps db4 db5.
Proof.
  apply rtc_once. exists (T + 4 * Minute), (Exchanged T app c3 res5). apply (step_exchange _ (Some random2)); [by vm_compute|by vm_compute|].
  apply op_ok. by vm_compute.
Qed.

Lemma dead_forever_witness : exists k k', app_keys db4 !! 1 = Some k /\ app_keys db5 !! 1 = Some k' /\
  Valid (record_of k') (T + Hour) = false.
Proof.
  destruct (app_keys db4 !! 1) as [k|] eqn:E; [|vm_compute in E; discriminate E].
  destruct (app_keys db5 !! 1) as [k'|] eqn:E'; [|vm_compute in E'; discriminate E'].
  exists k, k'. split; [reflexivity|]. split; [reflexivity|].
  apply (dead_forever db4 db5 1 k (T + 3 * Minute) (T + Hour) k' wf4 steps5 E); [|by vm_compute|exact E'].
  apply (f_equal (fun o => match o with Some k0 => Valid (record_of k0) (T + 3 * Minute) | None => false end)) in E.
  rewrite <- E. vm_compute. reflexivity.
Defined.

(** ** Tokens with the same jti *)

Definition expired : Z := T + 5 * Minute + ClockLeeway + Second.

(** The ledger is swept after the first token has expired. *)
Definition db_swept : DB := (pg_DeleteExpiredReplay expired db1).2.
Definition c1' : Claims := token "j1" (T + 30 * Minute).
Definition db_again : DB := (exchange_now None (T + 10 * Minute) app c1' db_swept).2.

Definition tr_again : trace :=
  [(T + 10 * Minute, Exchanged (T + 10 * Minute) app c1' (pending_result 1)); (expired, ReplaySwept);
   (T, Exchanged T app c1 (pending_result 1))].

Lemma run_again : run tr_again db_again.
Proof.
  eapply run_step; [eapply run_step; [eapply run_step; [constructor|]|]|].
  - apply (step_exchange _ None); [lia|by vm_compute|]. apply op_ok. by vm_compute.
  - apply step_sweep_replay.
  - apply (step_exchange _ None); [lia|by vm_compute|]. apply op_ok. by vm_compute.
Qed.

Lemma sweeps_again : sweeps_precede tr_again.
Proof.
  intros l1 at_ v a c res l2 Heq t Hin. destruct l1 as [|x [|y [|z l1]]].
  - injection Heq as _ <- _ _ _ <-. rewrite !elem_of_cons, elem_of_nil in Hin.
    destruct Hin as [[= ->]|[[=]|[]]]. by vm_compute.
  - by injection Heq.
  - injection Heq as _ _ _ _ _ _ _ <-. by apply elem_of_nil in Hin.
  - destruct l1; discriminate Heq.
Qed.

Lemma token_once_witness : ExpiresAt c1 < ExpiresAt c1'.
Proof.
  apply (token_once tr_again db_again [] (T + 10 * Minute) (T + 10 * Minute) app c1' (pending_result 1)
    [(expired, ReplaySwept); (T, Exchanged T app c1 (pending_result 1))] T T app c1 (pending_result 1) run_again sweeps_again).
  - reflexivity.
  - right. left.
  - reflexivity.
Defined.

(** A token verified just before it expires, whose exchange commits after the ledger was
    swept, is exchanged twice: the replay ledger forgets a token that was accepted but not
    yet recorded. *)
Definition late : Z := T + 5 * Minute + ClockLeeway - 1.

Lemma exchanged_twice : exists db at_ v at' v', (v < ReplayExpiry c1 /\ v' < ReplayExpiry c1 /\ v' < expired < at_) /\
  run [(at_, Exchanged v' app c1 (pending_result 1)); (expired, ReplaySwept); (at', Exchanged v app c1 (pending_result 1))] db.
Proof.
  exists (exchange_now None (expired + 1) app c1 db_swept).2, (expired + 1), T, T, late.
  split; [by vm_compute|].
  eapply run_step; [eapply run_step; [eapply run_step; [constructor|]|]|].
  - apply (step_exchange _ None); [lia|by vm_compute|]. apply op_ok. by vm_compute.
  - apply step_sweep_replay.
  - apply (step_exchange _ None); [by vm_compute|by vm_compute|]. apply op_ok. by vm_compute.
Qed.

(** ** One exchange, in each of its cases *)

Lemma exchange_exact_witness : exchange_now (Some random) (T + 2 * Minute) app c2 empty =
  (if MaxPendingRequests <=? pending_count empty then (Err ErrPendingCap, empty)
   else (Ok (pending_result (next_request_id empty)), burned c2 empty {{
     app_registration_requests :=
       <[next_request_id empty := new_request app c2 (storeTime (T + 2 * Minute))]> (app_registration_requests empty);
     next_request_id := next_request_id empty + 1 }})).
Proof.
  assert (Hc : storable_claims app c2) by (split; [reflexivity|intros t; reflexivity]).
  destruct (exchange_exact (Some random) (T + 2 * Minute) app c2 empty identity_empty_wf Hc) as [_ H].
  destruct (H eq_refl) as (_ & _ & Hn). destruct (Hn eq_refl) as [_ Hnew]. apply Hnew. intros id r Hr. discriminate Hr.
Defined.

Lemma ListRequests_exact_witness : exists l, pg_ListRequests (T + Hour) db1 = (Ok l, db1) /\ NoDup (Request_ID <$> l).
Proof.
  assert (Hwf : wf db1).
  { apply (run_wf [(T, Exchanged T app c1 (pending_result 1))]). eapply run_step; [constructor|].
    apply (step_exchange _ None); [lia|by vm_compute|]. apply op_ok. by vm_compute. }
  destruct (ListRequests_exact (T + Hour) db1 Hwf) as (l & Hl & _ & Hn & _). exists l. split; assumption.
Defined.

(** ** An approval that commits while the exchange waits to file its request *)

Definition approving (db : DB) : DB := (pg_ApproveRequest 1 app (T + Minute) db).2.

Lemma approving_steps db : steps db (approving db).
Proof.
  unfold approving. destruct (pg_ApproveRequest 1 app (T + Minute) db) as [[b|e] db'] eqn:E; simpl.
  - apply rtc_once. exists (T + Minute), (Approved 1 b). by eapply step_approve.
  - apply WithTx_err in E as ->. constructor.
Qed.

Definition busy_turn : turn :=
  {| before := id; gaps i := if (i =? 2)%nat then approving else id; turn_random := Some random;
     turn_clock := T + 2 * Minute; turn_verify _ := Ok c2; turn_register _ := Ok tt; turn_context := None |}.

Definition w1 : world := {| tables := db1; turns _ := busy_turn; calls := 0 |}.

(** The binding appears after the exchange found none, and the key is issued under it. *)
Lemma busy_exchange : (Exchange pg_service app "token" w1).1 = Ok issued.
Proof. by vm_compute. Qed.

Lemma Exchange_linearizable_witness : exists db, steps db1 db /\
  (exchange_now (Some random) (T + 2 * Minute) app c2 db).1 = Ok issued.
Proof.
  destruct (Exchange_linearizable steps app "token" w1 (Ok issued) (Exchange pg_service app "token" w1).2)
    as [(e & He & _)|(claims & db & Hv & _ & _ & Ho & [Heq|Heq])].
  - intros db. constructor.
  - intros i db. simpl. destruct (i =? 2)%nat; [apply approving_steps|constructor].
  - exact (op_ok _ _ _ busy_exchange).
  - discriminate He.
  - injection Hv as <-. exists db. split; [exact Ho|]. simpl turn_random in Heq. simpl turn_clock in Heq.
    exact (f_equal fst (eq_sym Heq)).
  - discriminate Heq.
Defined.

Lemma approve_run : (svc_ApproveRequest (AdminStore0 := pg_admin_store str_leb) pg_service 1
  {| tables := db1; turns _ := busy_turn; calls := 0 |}).1 = Ok (binding {{ ApprovedAt := T + 2 * Minute }}).
Proof. by vm_compute. Qed.

Lemma ApproveRequest_registered_witness : exists db r, app_registration_requests db !! 1 = Some r /\ r_app_id r = app.
Proof.
  destruct (ApproveRequest_registered str_leb 1 _ _ _ (op_ok _ _ _ approve_run)) as (_ & _ & db & r & row & Hr & _ & Ha & _).
  exists db, r. split; [exact Hr|exact Ha].
Defined.

(** ** The verifier *)

Module tokens.
Import verifier.

(** A parser for which every raw token is from the issuer, for the audience, good until
    [T], and signed by the key of kid k, with PS256 or RS256 as it begins. *)
Definition parsed : tokenClaims :=
  {| ID := "j1"; Parsed_ExpiresAt := Some T; Parsed_Repository := "acme/chores"; Parsed_RepositoryID := "42";
     Parsed_RepositoryOwnerID := "7"; WorkflowRef := "acme/chores/.github/workflows/deploy.yml@refs/heads/main";
     Parsed_Ref := "refs/heads/main"; Parsed_Environment := "prod"; Parsed_RunID := "1001" |}.

Definition entry : jwk :=
  {| KeyType := "RSA"; jwk_KeyID := "k"; Use := "sig"; Algorithm := "RS256";
     Modulus := base64url.EncodeToString (128 :: replicate 255 1); Exponent := "AQAB" |}.

(** A token's header and its signature, by how the token begins. *)
Definition header (raw : string) : Token := {| Alg := if HasPrefix raw "p" then "PS256" else "RS256"; Kid := Some "k" |}.
Definition signed (alg raw : string) : bool := HasPrefix raw (if String.eqb alg "RS256" then "a" else "p").

#[local] Instance toy_jose : Jose := {
  unmarshal_jwks _ := Some [entry];
  ParseWithClaims S p clock _ raw kf :=
    if decide (Alg (header raw) ∈ ValidMethods p) then
    key ← kf (header raw);
    if negb (signed (Alg (header raw)) raw) then m_fail (errors_New "signature is invalid") else
    t ← m_map_err (fun _ => errors_New "no clock") clock;
    if decide (t < T + Leeway p /\ Parser_Issuer p = GitHubIssuer /\ Parser_Audience p = DefaultAudience)
    then mret parsed else m_fail (errors_New "token is not valid")
    else m_fail (errors_New "signing method is invalid");
  token_header raw := Some (header raw);
  signature_valid alg raw _ := signed alg raw;
  token_iss _ := GitHubIssuer;
  token_aud _ := [DefaultAudience]
}.

#[local] Instance toy_jose_laws : JoseLaws toy_jose.
Proof.
  split; intros S p clock scalar raw kf s s'.
  - intros c. unfold ParseWithClaims, toy_jose. case_decide as Hm; [|done].
    intros (key & s1 & Hkf & Hrest)%m_bind_ok. destruct (signed (Alg (header raw)) raw) eqn:Hs; [|done]. cbn [negb] in Hrest.
    apply m_bind_ok in Hrest as (t & s2 & Hc & Hrest).
    unfold m_map_err in Hc. destruct (clock s1) as [[t'|e] s3] eqn:Hclk; [|done]. injection Hc as -> ->.
    case_decide as Hd; [|done]. injection Hrest as <- <-. destruct Hd as (Ht & Hi & Ha).
    exists (header raw), key, s1, t, T. rewrite Hi, Ha. split_and!; try done. by left.
  - intros e. unfold ParseWithClaims, toy_jose, mbind, m_bind, m_map_err. case_decide; [|intros [= <- <-]; by left].
    destruct (kf _ s) as [[key|e1] s1] eqn:Hkf; [|intros [= <- <-]; right; left; by eexists _, _].
    destruct (negb _); [intros [= <- <-]; right; right; eexists _, key, s1; split_and!; [exact Hkf|done|by left]|].
    destruct (clock s1) as [[t|e1] s2] eqn:Hc.
    + case_decide; [done|]. intros [= <- <-]. right. right. eexists _, key, s1. rewrite Hc. split_and!; [exact Hkf|done|by right].
    + intros [= <- <-]. right. right. eexists _, key, s1. rewrite Hc. split_and!; [exact Hkf|done|by right].
Qed.

Definition around : surroundings :=
  {| clock i := T - 5 + Z.of_nat i; responses _ := Response 200 [] false; gives_up _ := None |}.

Definition config : VerifierConfig :=
  {| Config_Audience := DefaultAudience; Config_JWKSFile := None; Config_Issuer := EmptyString; Config_RefetchInterval := 0 |}.

Definition verifier : Verifier :=
  {| parser := {| ValidMethods := [signingAlgorithm]; Parser_Issuer := GitHubIssuer; Parser_Audience := DefaultAudience;
                  Leeway := ClockLeeway |}; refetchInterval := Minute; static := false |}.

Definition v0 : VState :=
  {| keys := ∅; lastFetch := 0; lastFetchErr := None; readings := O; waits := O; fetches := [] |}.

Definition verify_raw (raw : string) : VState -> result Claims * VState := Verify around verifier raw identity_service.verifyOnly.

Lemma clock_goes_on : clock_advances around.
Proof. split; intros; simpl; [|lia]. assert (5 < T) by done. lia. Qed.

Lemma made_verifier : NewVerifier config = Ok (verifier, v0).
Proof. by vm_compute. Qed.

Lemma one_verified : verifications around verifier v0 (verify_raw "a.b.c" v0).2.
Proof. apply rtc_once. by exists "a.b.c". Qed.

Lemma fetches_spaced_witness : fetches (verify_raw "a.b.c" v0).2 = [T - 5] /\ spaced verifier (fetches (verify_raw "a.b.c" v0).2).
Proof.
  split; [by vm_compute|]. exact (proj1 (fetches_spaced around verifier config v0 _ made_verifier clock_goes_on one_verified)).
Defined.

Lemma verified_run : (verify_raw "a.b.c" v0).1 = toClaims parsed.
Proof. by vm_compute. Qed.

Lemma Verify_sound_witness : exists claims, (verify_raw "a.b.c" v0).1 = Ok claims /\ complete_claims claims.
Proof.
  destruct (toClaims parsed) as [claims|] eqn:Hc; [|by vm_compute in Hc]. exists claims. split; [by rewrite verified_run|].
  destruct (Verify_sound around verifier config v0 "a.b.c" identity_service.verifyOnly v0 claims (verify_raw "a.b.c" v0).2)
    as (kid & key & v1 & v2 & _ & _ & _ & _ & _ & _ & _ & _ & Hcomplete & _).
  - exact made_verifier.
  - exact clock_goes_on.
  - constructor.
  - apply op_ok. fold (verify_raw "a.b.c"). by rewrite verified_run.
  - exact Hcomplete.
Defined.

(** A token signed by the same key with PS256 is refused. *)
Example other_algorithm_refused : exists e, (verify_raw "p.b.c" v0).1 = Err e /\ errors_Is e ErrInvalidToken = true.
Proof. vm_compute. by eexists. Qed.

(** An empty token is refused before anything is asked. *)
Lemma Verify_errors_witness : (exists e v1, check_token around verifier EmptyString v0 = (Err e, v1)) /\
  exists e, (verify_raw EmptyString v0).1 = Err e /\ errors_Is e ErrInvalidToken = true.
Proof.
  set (e := Wrap "invalid identity token: token empty or too large" [ErrInvalidToken]).
  destruct (Verify_errors around verifier EmptyString identity_service.verifyOnly v0 e v0) as [(e0 & v1 & Hc & _ & [He|He])|(claims & v1 & Hc & _)].
  - by vm_compute.
  - discriminate He.
  - split; [by eexists _, _|]. exists e. split; [by vm_compute|exact He].
  - discriminate Hc.
Defined.
End tokens.
End identity_demo.
