(* ===== verification/MessageStore.v ===== *)
(** * MessageStore

    The Postgres store of package [message] (pgstore.go, pgstore_scheduled.go,
    pgstore_held.go) over the tables of migrations 0003, 0004, 0005 and 0012.

    An operation is one transaction (or one statement) and takes what the
    database adds as arguments: the uuid a message row is given, the rows other
    transactions hold locked, and, for the one place where the code reacts to a
    transaction committing between two of its statements, that transaction. *)

From S2P Require Import Prelude GoText Utf8 Idents Message.
Open Scope Z_scope.
Import message.

(** The column types and the JSON codec: [timestamptz] is an instant at the
    resolution of the column, [jsonb] the canonical text of a document it accepts,
    [jsonb_object] is jsonb_typeof = object, and the codec is [json.Marshal] and
    [json.Unmarshal] of a [Display]. *)
Class Pg := {
    timestamptz : Z -> Z;
    jsonb : string -> option string;
    jsonb_object : string -> bool;
    json_marshal_display : Display -> string;
    json_unmarshal_display : string -> option Display
  }.

(** Postgres: timestamps have a resolution of one microsecond; encoding/json: the
    columns a marshalled display reads back as decode. *)
Class PgLaws `(Pg) : Prop := {
    timestamptz_mono t u : t <= u -> timestamptz t <= timestamptz u;
    timestamptz_idemp t : timestamptz (timestamptz t) = timestamptz t;
    timestamptz_shift t k : timestamptz (t + k * Microsecond) = timestamptz t + k * Microsecond;
    display_decodes d text :
    jsonb (json_marshal_display d) = Some text -> is_Some (json_unmarshal_display text)
  }.

Module message_pg.
(** ** Tables *)

Record MessageRow := {
    row_app_id : string;
    row_channel : string;
    row_idempotency_key : string;
    row_to_destination : option string;
    row_to_recipient : option string;
    row_deliver_at : option Z;
    row_critical : bool;
    row_payload : string;
    row_display : option string;
    row_created_at : Z;
    row_cancelled_at : option Z;
    row_held_at : option Z;
    row_held_cancelled_at : option Z;
    row_released_at : option Z;
    row_release_failed_at : option Z;
    row_release_failed_reason : option string
  }.

(** [messages] is keyed by its id as text, [deliveries] and [attempts] by their
    bigserial ids; [destination_ids] are the destinations a delivery may
    reference, [now] is the transaction's [now()], and [sweeping] what the
    retention statements in flight have chosen to delete, by statement: each
    reads its rows from the snapshot it starts on and deletes them later. *)
Record DB := {
    messages : gmap string MessageRow;
    deliveries : gmap Z Delivery;
    attempts : gmap Z Attempt;
    destination_ids : gset Z;
    next_delivery_id : Z;
    next_attempt_id : Z;
    now : Z;
    sweeping : gmap Z (gset string)
  }.

(** [pgutil.WrapDBError]: the statement's error, flattened to text. *)
Definition WrapDBError (operation : string) : error := errors_New operation.

Definition int4 (z : Z) : bool := (- 2 ^ 31 <=? z) && (z <? 2 ^ 31).

Definition channelPattern (s : string) : bool := match_slug 31 s.
Definition idempotencyKeyPattern (s : string) : bool :=
  match_repeat (in_range "!"%char "~"%char) 1 200 s.

Definition none_or (P : string -> bool) (o : option string) : bool :=
  match o with None => true | Some s => P s end.

Definition set (o : option Z) : bool := bool_decide (is_Some o).

(** The CHECK constraints of [messages]. *)
Definition message_check `{Pg} (r : MessageRow) : bool :=
  appid.Valid (row_app_id r) && channelPattern (row_channel r) &&
  idempotencyKeyPattern (row_idempotency_key r) &&
  none_or text_ok (row_to_destination r) && none_or text_ok (row_to_recipient r) &&
  negb (bool_decide (is_Some (row_to_destination r)) && bool_decide (is_Some (row_to_recipient r))) &&
  jsonb_object (row_payload r) && none_or jsonb_object (row_display r) &&
  Bool.eqb (set (row_release_failed_at r)) (bool_decide (is_Some (row_release_failed_reason r))) &&
  none_or (fun s => String.eqb s "release_invalid") (row_release_failed_reason r) &&
  (negb (set (row_held_cancelled_at r)) || set (row_cancelled_at r)) &&
  (negb (set (row_cancelled_at r)) || set (row_deliver_at r) || set (row_held_cancelled_at r)).

Definition one_of (l : list string) (s : string) : bool := existsb (String.eqb s) l.

(** The CHECK constraints of [message_deliveries]. *)
Definition delivery_check (d : Delivery) : bool :=
  text_ok (DestinationName d) && one_of ["ntfy"; "discord"; "webhook"] (DestinationType d) &&
  one_of [StatePending; StateDelivered; StateDead; StateScheduled; StateCancelled] (State d) &&
  none_or (one_of [DeadReasonTerminalStatus; DeadReasonGone; DeadReasonBudgetExhausted;
      DeadReasonDestinationDisabled; DeadReasonDestinationDeleted; DeadReasonBlockedAddress;
      DeadReasonUnsupportedType; DeadReasonNoPublisher]) (DeadReason d) &&
  Bool.eqb (String.eqb (State d) StateDead) (bool_decide (is_Some (DeadReason d))) &&
  (0 <=? AttemptCount d) && int4 (AttemptCount d) && (0 <=? BudgetAttempts d) && int4 (BudgetAttempts d) &&
  match LastStatusCode d with Some c => int4 c | None => true end.

(** The CHECK constraints of [delivery_attempts]. *)
Definition attempt_check (a : Attempt) : bool :=
  let r := Attempt_Record a in
  int4 (AttemptNumber a) &&
  one_of [OutcomeSuccess; OutcomeRetryable; OutcomeTerminal; OutcomeGone; OutcomeBlocked] (Outcome r) &&
  match StatusCode r with Some c => int4 c | None => true end &&
  (0 <=? LatencyMS r) && int4 (LatencyMS r) &&
  none_or (fun s => text_ok s && (RuneCountInString s <=? 500)) (Attempt_Error r) &&
  none_or (fun s => text_ok s && (len s <=? 1024)) (ResponseSnippet r).

(** ** Reading *)

(** The rows a WHERE clause on [(app_id, idempotency_key)] selects: at most one,
    by the UNIQUE constraint. *)
Definition by_key (appID idempotencyKey : string) (db : DB) : option string :=
  fst <$> head (filter (fun p => row_app_id p.2 = appID /\ row_idempotency_key p.2 = idempotencyKey)
    (map_to_list (messages db))).

Definition is_hex (c : ascii) : bool := is_digit c || in_range "a"%char "f"%char c || in_range "A"%char "F"%char c.

Fixpoint canonical_from (groups : list nat) (s : string) : bool :=
  match groups with
  | [] => bool_decide (s = EmptyString)
  | [n] => match_repeat is_hex (Z.of_nat n) (Z.of_nat n) s
  | n :: groups =>
    match_repeat is_hex (Z.of_nat n) (Z.of_nat n) (String.substring 0 n s) &&
    String.eqb (String.substring n 1 s) "-" &&
    canonical_from groups (String.substring (S n) (String.length s) s)
  end.

Definition canonicalUUIDPattern (s : string) : bool := canonical_from [8; 4; 4; 4; 12]%nat s.

(** [$1::text::uuid::text]: a uuid's text is lower case. *)
Definition uuid_text (s : string) : string :=
  of_bytes ((fun b => if (65 <=? b) && (b <=? 90) then b + 32 else b) <$> bytes s).

Definition by_id (id : string) (db : DB) : option string :=
  (fun _ => uuid_text id) <$> messages db !! uuid_text id.

Section read.
Context `{Pg}.

Definition scanMessage (id : string) (r : MessageRow) : result StoredMessage :=
  let stored display := {|
    Message_ID := id;
    Message_Envelope := {|
      AppID := row_app_id r; Channel := row_channel r; IdempotencyKey := row_idempotency_key r;
      ToDestination := default EmptyString (row_to_destination r);
      ToRecipient := default EmptyString (row_to_recipient r);
      DeliverAt := row_deliver_at r; Critical := row_critical r; Payload := row_payload r;
      Display_ := display; Hold := false |};
    Message_CreatedAt := row_created_at r; CancelledAt := row_cancelled_at r; HeldAt := row_held_at r;
    ReleasedAt := row_released_at r; HeldCancelledAt := row_held_cancelled_at r;
    ReleaseFailedAt := row_release_failed_at r;
    ReleaseFailedReason := default EmptyString (row_release_failed_reason r);
    Deliveries := [] |} in
  match row_display r with
  | None => Ok (stored None)
  | Some text =>
    match json_unmarshal_display text with
    | Some display => Ok (stored (Some display))
    | None => Err (errors_New "decode display")
    end
  end.

Definition queryMessageHead (where_ : DB -> option string) : M DB StoredMessage := fun db =>
  match where_ db with
  | None => (Err ErrMessageNotFound, db)
  | Some id =>
    match messages db !! id with
    | None => (Err ErrMessageNotFound, db)
    | Some r =>
      match scanMessage id r with
      | Ok stored => (Ok stored, db)
      | Err _ => (Err (WrapDBError "get message"), db)
      end
    end
  end.

(** ORDER BY destination_name COLLATE "C", id *)
Definition delivery_le (a b : Delivery) : Prop :=
  (DestinationName a = DestinationName b /\ ID a <= ID b) \/
  (DestinationName a <> DestinationName b /\ str_le (DestinationName a) (DestinationName b)).
#[global] Instance delivery_le_dec : RelDecision delivery_le.
Proof. intros a b. unfold delivery_le. apply _. Defined.

(** The deliveries of one message, unordered and in the order of the read. *)
Definition deliveries_of (id : string) (db : DB) : list Delivery :=
  filter (fun d => MessageID d = id) ((map_to_list (deliveries db)).*2).
Definition collectDeliveries (id : string) (db : DB) : list Delivery :=
  merge_sort delivery_le (deliveries_of id db).

Definition queryMessage (where_ : DB -> option string) : M DB StoredMessage :=
  stored ← queryMessageHead where_;
  m_gets (fun db => stored {{ Deliveries := collectDeliveries (Message_ID stored) db }}).

Definition GetMessage (id : string) : M DB StoredMessage :=
  if negb (canonicalUUIDPattern id) then m_fail ErrMessageNotFound else queryMessage (by_id id).

Definition GetMessageByKey (appID idempotencyKey : string) : M DB StoredMessage :=
  queryMessage (by_key appID idempotencyKey).
End read.

(** ** Writing deliveries *)

Record deliverySchedule := {
    schedule_state : string;
    schedule_nextAttemptAt : option Z;
    schedule_budgetStartedAt : option Z
  }.

Definition pendingNow : deliverySchedule :=
  {| schedule_state := StatePending; schedule_nextAttemptAt := None; schedule_budgetStartedAt := None |}.

Section write.
Context `{Pg}.

Definition new_delivery (db : DB) (messageID : string) (schedule : deliverySchedule)
  (target : DeliveryTarget) : Delivery :=
  {| ID := next_delivery_id db; MessageID := messageID; DestinationID := Target_DestinationID target;
    DestinationName := Target_DestinationName target; DestinationType := Target_DestinationType target;
    State := schedule_state schedule; DeadReason := None; AttemptCount := 0; BudgetAttempts := 0;
    BudgetStartedAt := default (now db) (timestamptz <$> schedule_budgetStartedAt schedule);
    NextAttemptAt := default (now db) (timestamptz <$> schedule_nextAttemptAt schedule);
    LastStatusCode := None; DeliveredAt := None; CreatedAt := now db; UpdatedAt := now db |}.

(** UNIQUE (message_id, destination_name) and the foreign key on destination_id. *)
Definition delivery_conflict (db : DB) (d : Delivery) : bool :=
  bool_decide (map_Exists (fun _ d' => MessageID d' = MessageID d /\ DestinationName d' = DestinationName d)
    (deliveries db)).
Definition destination_exists (db : DB) (d : Delivery) : bool :=
  match DestinationID d with Some i => bool_decide (i ∈ destination_ids db) | None => true end.

(** One row of the INSERT ... SELECT FROM unnest. *)
Definition insert_delivery (messageID : string) (schedule : deliverySchedule)
  (target : DeliveryTarget) : M DB unit := fun db =>
  let d := new_delivery db messageID schedule target in
  if negb (delivery_check d) || delivery_conflict db d || negb (destination_exists db d)
  then (Err (WrapDBError "insert deliveries"), db)
  else (Ok tt, db {{ deliveries := <[ID d := d]> (deliveries db);
        next_delivery_id := next_delivery_id db + 1 }}).

Fixpoint insertDeliveries (messageID : string) (targets : list DeliveryTarget)
  (schedule : deliverySchedule) : M DB unit :=
  match targets with
  | [] => mret tt
  | target :: targets =>
    _ ← insert_delivery messageID schedule target;
    insertDeliveries messageID targets schedule
  end.

(** DELETE FROM message_deliveries / messages: the attempts of a delivery and the
    deliveries of a message go with it (ON DELETE CASCADE), and no statement in
    flight finds the row any more. *)
Definition delete_deliveries (P : Delivery -> bool) (db : DB) : DB :=
  let kept := filter (fun p => P p.2 = false) (deliveries db) in
  db {{ deliveries := kept;
      attempts := filter (fun p => is_Some (kept !! DeliveryID (Attempt_Record p.2))) (attempts db) }}.
Definition delete_messages (ids : gset string) (db : DB) : DB :=
  delete_deliveries (fun d => bool_decide (MessageID d ∈ ids))
  (db {{ messages := filter (fun p => p.1 ∉ ids) (messages db);
         sweeping := (fun chosen => chosen ∖ ids) <$> sweeping db }}).

(** UPDATE message_deliveries: [f] on the rows [P] selects. *)
Definition update_deliveries (P : Delivery -> bool) (f : Delivery -> Delivery) (db : DB) : DB :=
  db {{ deliveries := (fun d => if P d then f d else d) <$> deliveries db }}.

(** ** Inserting messages *)

Definition nullIfEmpty (value : string) : option string :=
  if String.eqb value EmptyString then None else Some value.

(** [json.Marshal] of a display cannot fail: it is a struct of strings. *)
Definition encodeDisplay (display : option Display) : result (option string) :=
  Ok (json_marshal_display <$> display).

(** The row an INSERT stores, or [None] where jsonb refuses a document. *)
Definition envelope_row (envelope : Envelope) (payload : string) (displayJSON : option string)
  (created : Z) (held : option Z) : option MessageRow :=
  payload' ← jsonb payload;
  display' ← match displayJSON with None => Some None | Some text => Some <$> jsonb text end;
  Some {| row_app_id := AppID envelope; row_channel := Channel envelope;
    row_idempotency_key := IdempotencyKey envelope;
    row_to_destination := nullIfEmpty (ToDestination envelope);
    row_to_recipient := nullIfEmpty (ToRecipient envelope);
    row_deliver_at := timestamptz <$> DeliverAt envelope; row_critical := Critical envelope;
    row_payload := payload'; row_display := display'; row_created_at := created;
    row_cancelled_at := None; row_held_at := timestamptz <$> held; row_held_cancelled_at := None;
    row_released_at := None; row_release_failed_at := None; row_release_failed_reason := None |}.

(** INSERT INTO messages ... ON CONFLICT (app_id, idempotency_key) DO NOTHING
    RETURNING id: [None] is the conflict. *)
Definition insert_message (operation uuid : string) (envelope : Envelope) (payload : string)
  (displayJSON : option string) (held : option Z) : M DB (option string) := fun db =>
  match envelope_row envelope payload displayJSON (now db) held with
  | None => (Err (WrapDBError operation), db)
  | Some row =>
    if negb (message_check row) then (Err (WrapDBError operation), db)
    else if bool_decide (is_Some (by_key (AppID envelope) (IdempotencyKey envelope) db)) then (Ok None, db)
    else if bool_decide (is_Some (messages db !! uuid)) then (Err (WrapDBError operation), db)
    else (Ok (Some uuid), db {{ messages := <[uuid := row]> (messages db) }})
  end.

(** The messages with a scheduled delivery. *)
Definition scheduled_ids (db : DB) : gset string :=
  list_to_set (MessageID <$> filter (fun d => State d = StateScheduled) ((map_to_list (deliveries db)).*2)).

Definition countScheduledTotal (db : DB) : Z := Z.of_nat (size (scheduled_ids db)).
Definition countScheduledForApp (appID : string) (db : DB) : Z :=
  Z.of_nat (size (filter (fun p => row_app_id p.2 = appID /\ p.1 ∈ scheduled_ids db) (messages db))).

Definition countHeldTotal (db : DB) : Z :=
  Z.of_nat (size (filter (fun p => is_Some (row_held_at p.2)) (messages db))).
Definition countHeldForApp (appID : string) (db : DB) : Z :=
  Z.of_nat (size (filter (fun p => row_app_id p.2 = appID /\ is_Some (row_held_at p.2)) (messages db))).

(** [if check fails { return err }] on a count of the current state. *)
Definition m_require (ok : DB -> bool) (e : error) : M DB unit := fun db =>
  if ok db then (Ok tt, db) else (Err e, db).

(** The statements of [insertOnce] after its INSERT found no conflict. *)
Definition fill_message (messageID : string) (envelope : Envelope) (targets : list DeliveryTarget)
  (schedule : deliverySchedule) (caps : ScheduledCaps) : M DB (StoredMessage * bool) :=
  _ ← insertDeliveries messageID targets schedule;
  _ ← (if 0 <? PerApp caps then
    _ ← m_require (fun db => countScheduledForApp (AppID envelope) db <=? PerApp caps) ErrTooManyScheduled;
    m_require (fun db => countScheduledTotal db <=? Total caps) ErrScheduledCapacityReached
    else mret tt);
  inserted ← queryMessage (by_id messageID);
  mret (inserted, false).

(** A transaction that inserts a message and continues with [fill], or re-selects
    the message it conflicts with.  [gap] is what other transactions commit
    between the conflict and the re-select; this one has written nothing by then,
    so there is nothing to roll back. *)
Definition insert_or_select (gap : DB -> DB) (insert : M DB (option string)) (envelope : Envelope)
  (fill : string -> M DB (StoredMessage * bool)) : M DB (StoredMessage * bool) := fun db =>
  match insert db with
  | (Err e, _) => (Err e, db)
  | (Ok None, db1) =>
    (existing ← queryMessage (by_key (AppID envelope) (IdempotencyKey envelope));
      mret (existing, true)) (gap db1)
  | (Ok (Some messageID), db1) =>
    match fill messageID db1 with
    | (Ok stored, db2) => (Ok stored, db2)
    | (Err e, _) => (Err e, db)
    end
  end.

Definition insertOnce (gap : DB -> DB) (uuid : string) (envelope : Envelope) (targets : list DeliveryTarget)
  (schedule : deliverySchedule) (caps : ScheduledCaps) (payload : string) (displayJSON : option string) :
  M DB (StoredMessage * bool) :=
  insert_or_select gap (insert_message "insert message" uuid envelope payload displayJSON None) envelope
  (fun messageID => fill_message messageID envelope targets schedule caps).

Definition maxInsertAttempts : nat := 2.

(** [for range maxInsertAttempts]: try again while the error is
    [ErrMessageNotFound]; attempt [i] meets the interleaving [gaps i]. *)
Fixpoint retry_insert {A} (tries : nat) (gaps : nat -> DB -> DB) (once : (DB -> DB) -> M DB A)
  (exhausted : error) : M DB A := fun db =>
  match tries with
  | O => (Err exhausted, db)
  | S tries =>
    match once (gaps O) db with
    | (Err e, db') =>
      if errors_Is e ErrMessageNotFound then retry_insert tries (fun i => gaps (S i)) once exhausted db'
      else (Err e, db')
    | ok => ok
    end
  end.

Definition insertWithRetry (gaps : nat -> DB -> DB) (uuid : string) (envelope : Envelope)
  (targets : list DeliveryTarget) (schedule : deliverySchedule) (caps : ScheduledCaps) :
  M DB (StoredMessage * bool) :=
  if Z.of_nat (length targets) =? 0 then m_fail (errors_New "insert message: no delivery targets")
  else
  let payload := Payload envelope in
  displayJSON ← m_lift (encodeDisplay (Display_ envelope));
  retry_insert maxInsertAttempts gaps
  (fun gap => insertOnce gap uuid envelope targets schedule caps payload displayJSON)
  (errors_New "insert message: conflicting message deleted during every attempt").

Definition no_caps : ScheduledCaps := {| PerApp := 0; Total := 0 |}.

Definition InsertMessage (gaps : nat -> DB -> DB) (uuid : string) (envelope : Envelope)
  (targets : list DeliveryTarget) : M DB (StoredMessage * bool) :=
  insertWithRetry gaps uuid envelope targets pendingNow no_caps.

Definition InsertScheduledMessage (gaps : nat -> DB -> DB) (uuid : string) (envelope : Envelope)
  (targets : list DeliveryTarget) (caps : ScheduledCaps) : M DB (StoredMessage * bool) :=
  match DeliverAt envelope with
  | None => m_fail (errors_New "insert scheduled message: deliver_at must be set")
  | Some deliverAt =>
    if PerApp caps <? 1 then m_fail (errors_New "insert scheduled message: max scheduled per app must be positive")
    else if Total caps <? 1 then m_fail (errors_New "insert scheduled message: max scheduled total must be positive")
    else insertWithRetry gaps uuid envelope targets
    {| schedule_state := StateScheduled; schedule_nextAttemptAt := Some deliverAt;
      schedule_budgetStartedAt := None |} caps
  end.

(** The statements of [insertHeldOnce] after its INSERT found no conflict. *)
Definition fill_held (messageID : string) (envelope : Envelope) (caps : HeldCaps) :
  M DB (StoredMessage * bool) :=
  _ ← m_require (fun db => countHeldForApp (AppID envelope) db <=? Held_PerApp caps) ErrTooManyHeld;
  _ ← m_require (fun db => countHeldTotal db <=? Held_Total caps) ErrHeldCapacityReached;
  inserted ← queryMessage (by_id messageID);
  mret (inserted, false).

Definition insertHeldOnce (gap : DB -> DB) (uuid : string) (envelope : Envelope) (caps : HeldCaps)
  (nowArg : Z) (payload : string) (displayJSON : option string) : M DB (StoredMessage * bool) :=
  insert_or_select gap (insert_message "insert held message" uuid envelope payload displayJSON (Some nowArg))
  envelope (fun messageID => fill_held messageID envelope caps).

Definition InsertHeldMessage (gaps : nat -> DB -> DB) (uuid : string) (envelope : Envelope)
  (caps : HeldCaps) (nowArg : Z) : M DB (StoredMessage * bool) :=
  if Held_PerApp caps <? 1 then m_fail (errors_New "insert held message: max held per app must be positive")
  else if Held_Total caps <? 1 then m_fail (errors_New "insert held message: max held total must be positive")
  else if time.IsZero nowArg then m_fail (errors_New "insert held message: now must be set")
  else
  displayJSON ← m_lift (encodeDisplay (Display_ envelope));
  retry_insert maxInsertAttempts gaps
  (fun gap => insertHeldOnce gap uuid envelope caps nowArg (Payload envelope) displayJSON)
  (errors_New "insert held message: conflicting message deleted during every attempt").
End write.

(** ** The delivery queue *)

Section queue.
Context `{Pg}.

(** ORDER BY next_attempt_at, id *)
Definition due_le (a b : Delivery) : Prop :=
  NextAttemptAt a < NextAttemptAt b \/ (NextAttemptAt a = NextAttemptAt b /\ ID a <= ID b).
#[global] Instance due_le_dec : RelDecision due_le.
Proof. intros a b. unfold due_le. apply _. Defined.

(** WHERE state = pending AND next_attempt_at <= $1, less the rows other
    transactions have locked, oldest first. *)
Definition due (nowArg : Z) (locked : gset Z) (db : DB) : list Delivery :=
  merge_sort due_le
  (filter (fun d => State d = StatePending /\ NextAttemptAt d <= timestamptz nowArg /\ ID d ∉ locked)
    ((map_to_list (deliveries db)).*2)).

(** UPDATE message_deliveries SET next_attempt_at, updated_at ... RETURNING *)
Definition lease_row (d : Delivery) (nowArg lease : Z) : M DB Delivery := fun db =>
  let leased := d {{ NextAttemptAt := timestamptz (time.Add nowArg lease); UpdatedAt := now db }} in
  (Ok leased, db {{ deliveries := <[ID d := leased]> (deliveries db) }}).

Definition ClaimDue (locked : gset Z) (nowArg lease : Z) : M DB (option Claim) :=
  if lease <=? 0 then m_fail (errors_New "claim due: lease must be positive")
  else WithTx (
    candidates ← m_gets (due nowArg locked);
    match candidates with
    | [] => mret None
    | d :: _ =>
      leased ← lease_row d nowArg lease;
      parent ← queryMessageHead (by_id (MessageID leased));
      mret (Some {| Claim_Delivery := leased; Claim_Message := parent |})
    end).

Definition lockDelivery (deliveryID : Z) : M DB Delivery := fun db =>
  match deliveries db !! deliveryID with
  | None => (Err ErrDeliveryNotFound, db)
  | Some d => (Ok d, db)
  end.

Definition insert_attempt (a : Attempt) : M DB unit := fun db =>
  let a := a {{ Attempt_ID := next_attempt_id db }} in
  if negb (attempt_check a) ||
  bool_decide (map_Exists (fun _ a' => DeliveryID (Attempt_Record a') = DeliveryID (Attempt_Record a) /\
      AttemptNumber a' = AttemptNumber a) (attempts db))
  then (Err (WrapDBError "insert attempt"), db)
  else (Ok tt, db {{ attempts := <[Attempt_ID a := a]> (attempts db);
        next_attempt_id := next_attempt_id db + 1 }}).

(** The row RecordAttempt logs: remote text cleaned, times at column resolution. *)
Definition attempt_row (current : Delivery) (record : AttemptRecord) : Attempt :=
  {| Attempt_ID := 0; AttemptNumber := AttemptCount current + 1;
    Attempt_Record := record {{
        DeliveryID := ID current;
        Attempt_Error := cleanOptionalText (Attempt_Error record) maxAttemptErrorRunes truncateRunes;
        ResponseSnippet := cleanOptionalText (ResponseSnippet record) maxResponseSnippetBytes truncateBytes;
        StartedAt := timestamptz (StartedAt record) }} |}.

(** The row its UPDATE leaves. *)
Definition attempted_row (db : DB) (current : Delivery) (result : AttemptResult) : Delivery :=
  current {{
      State := NextState result; DeadReason := Result_DeadReason result;
      AttemptCount := AttemptCount current + 1; BudgetAttempts := BudgetAttempts current + 1;
      NextAttemptAt := if String.eqb (NextState result) StatePending
      then timestamptz (Result_NextAttemptAt result) else NextAttemptAt current;
      LastStatusCode := StatusCode (Result_Record result);
      DeliveredAt := if String.eqb (NextState result) StateDelivered then Some (now db) else DeliveredAt current;
      UpdatedAt := now db }}.

Definition update_attempted (current : Delivery) (result : AttemptResult) : M DB Delivery := fun db =>
  let updated := attempted_row db current result in
  if negb (delivery_check updated) then (Err (WrapDBError "update delivery"), db)
  else (Ok updated, db {{ deliveries := <[ID current := updated]> (deliveries db) }}).

Definition record_locked (result : AttemptResult) (current : Delivery) : M DB Delivery :=
  _ ← insert_attempt (attempt_row current (Result_Record result));
  update_attempted current result.

Definition RecordAttempt (result : AttemptResult) : M DB Delivery :=
  _ ← m_check (validateAttemptResult result);
  WithTx (
    current ← lockDelivery (DeliveryID (Result_Record result));
    if negb (String.eqb (State current) StatePending) then mret current
    else record_locked result current).

Definition admin_delivery (db : DB) (d : Delivery) : option AdminDelivery :=
  (fun r => {| Admin_Delivery := d; Admin_AppID := row_app_id r; Admin_Channel := row_channel r |})
  <$> messages db !! MessageID d.

(** ORDER BY d.updated_at DESC, d.id DESC *)
Definition newest_le (a b : Delivery) : Prop :=
  UpdatedAt b < UpdatedAt a \/ (UpdatedAt b = UpdatedAt a /\ ID b <= ID a).
#[global] Instance newest_le_dec : RelDecision newest_le.
Proof. intros a b. unfold newest_le. apply _. Defined.

Definition ListDeliveries (state : string) (limit : Z) : M DB (list AdminDelivery) :=
  if negb (isDeliveryState state) then m_fail (ValidationError "invalid state")
  else if limit <? 1 then m_fail (ValidationError "invalid limit")
  else m_gets (fun db => take (Z.to_nat limit) (omap (admin_delivery db)
      (merge_sort newest_le (filter (fun d => State d = state) ((map_to_list (deliveries db)).*2))))).

Definition attempt_le (a b : Attempt) : Prop := AttemptNumber a <= AttemptNumber b.
#[global] Instance attempt_le_dec : RelDecision attempt_le.
Proof. intros a b. unfold attempt_le. apply _. Defined.

Definition attempts_of (deliveryID : Z) (db : DB) : list Attempt :=
  filter (fun a => DeliveryID (Attempt_Record a) = deliveryID) ((map_to_list (attempts db)).*2).

Definition ListAttempts (deliveryID : Z) : M DB (list Attempt) := fun db =>
  match deliveries db !! deliveryID with
  | None => (Err ErrDeliveryNotFound, db)
  | Some _ => (Ok (merge_sort attempt_le (attempts_of deliveryID db)), db)
  end.

(** The row the UPDATE of Replay leaves. *)
Definition replayed_row (db : DB) (current : Delivery) (nowArg : Z) : Delivery :=
  current {{ State := StatePending; DeadReason := None; BudgetAttempts := 0;
             BudgetStartedAt := timestamptz nowArg; NextAttemptAt := timestamptz nowArg;
             UpdatedAt := now db }}.

Definition replay_locked (nowArg : Z) (current : Delivery) : M DB AdminDelivery := fun db =>
  let updated := replayed_row db current nowArg in
  match admin_delivery db updated with
  | None => (Err (WrapDBError "replay delivery"), db)
  | Some replayed => (Ok replayed, db {{ deliveries := <[ID current := updated]> (deliveries db) }})
  end.

Definition Replay (deliveryID nowArg : Z) : M DB AdminDelivery :=
  if time.IsZero nowArg then m_fail (errors_New "replay delivery: now must be set")
  else WithTx (
    current ← lockDelivery deliveryID;
    if negb (String.eqb (State current) StateDead) then m_fail ErrDeliveryNotDead
    else replay_locked nowArg current).

(** ** Retention *)

Definition DeleteExpiredBatchSize : Z := 500.
Definition DeleteExpiredMaxBatches : nat := 200.

(** The WHERE clause of [deleteExpiredSQL]. *)
Definition expired (cutoff : Z) (db : DB) (id : string) (m : MessageRow) : bool :=
  (row_created_at m <? cutoff) &&
  (match row_cancelled_at m with
    | None =>
      Z.max (row_created_at m) (Z.max (default (row_created_at m) (row_deliver_at m))
        (Z.max (default (row_created_at m) (row_released_at m))
          (default (row_created_at m) (row_release_failed_at m)))) <? cutoff
    | Some cancelled_at => cancelled_at <? cutoff
    end) &&
  negb (set (row_held_at m)) &&
  forallb (fun d => negb (one_of [StatePending; StateScheduled] (State d))) (deliveries_of id db).

(** The WHERE clause of [deleteExpiredHeldSQL]. *)
Definition expired_held (cutoff : Z) (m : MessageRow) : bool :=
  match row_held_at m with None => false | Some held_at => held_at <? cutoff end.

(** ORDER BY a time of the row, then the id. *)
Definition oldest_le (key : MessageRow -> Z) (a b : string * MessageRow) : Prop :=
  key a.2 < key b.2 \/ (key a.2 = key b.2 /\ str_le a.1 b.1).
#[global] Instance oldest_le_dec key : RelDecision (oldest_le key).
Proof. intros a b. unfold oldest_le. apply _. Defined.

Definition candidates (P : string -> MessageRow -> bool) (key : MessageRow -> Z) (batchSize : Z) (db : DB) :
  gset string :=
  list_to_set (fst <$> take (Z.to_nat batchSize)
    (merge_sort (oldest_le key) (filter (fun p => P p.1 p.2 = true) (map_to_list (messages db))))).

(** One batch is one statement, [stmt], which takes no lock on the rows it reads:
    it chooses its messages on its snapshot, ... *)
Definition choose_expired (stmt cutoff batchSize : Z) (db : DB) : DB :=
  db {{ sweeping :=
    <[stmt := candidates (expired (timestamptz cutoff) db) row_created_at batchSize db]> (sweeping db) }}.

(** ... and deletes those of them that are still there, whatever has become of
    their deliveries since. *)
Definition delete_chosen (stmt : Z) (db : DB) : Z * DB :=
  let ids := default ∅ (sweeping db !! stmt) in
  (Z.of_nat (size ids), delete_messages ids (db {{ sweeping := delete stmt (sweeping db) }})).

(** The batch, with what commits in between ([gap]): the state it leaves and how
    many messages it deleted. *)
Definition deleteExpiredSQL (stmt : Z) (gap : DB -> DB) (cutoff batchSize : Z) (db : DB) : Z * DB :=
  delete_chosen stmt (gap (choose_expired stmt cutoff batchSize db)).

(** One batch, past the rows other transactions hold [locked]; it locks the rows it
    chooses. *)
Definition deleteExpiredHeldSQL (locked : gset string) (heldCutoff batchSize : Z) (db : DB) : Z * DB :=
  let ids := candidates (fun id m => expired_held (timestamptz heldCutoff) m && negb (bool_decide (id ∈ locked)))
  (fun m => default 0 (row_held_at m)) batchSize db in
  (Z.of_nat (size ids), delete_messages ids db).

(** The batch loop; [ctxErr i] is what [ctx.Err()] returns before batch [i]. *)
Fixpoint delete_batches (batches : nat) (ctxErr : nat -> option error) (batch : DB -> Z * DB)
  (batchSize total : Z) (db : DB) : (Z * option error) * DB :=
  match batches with
  | O => (total, None, db)
  | S batches =>
    match ctxErr O with
    | Some e => (total, Some (Wrap "delete expired" [e]), db)
    | None =>
      let (deleted, db') := batch db in
      if deleted <? batchSize then (total + deleted, None, db')
      else delete_batches batches (fun i => ctxErr (S i)) batch batchSize (total + deleted) db'
    end
  end.

Definition DeleteExpiredInBatches (stmt : Z) (gap : DB -> DB) (ctxErr : nat -> option error)
  (cutoff batchSize : Z) (db : DB) : (Z * option error) * DB :=
  if batchSize <? 1
  then (0, Some (errors_New "delete expired messages: batch size must be positive"), db)
  else delete_batches DeleteExpiredMaxBatches ctxErr (deleteExpiredSQL stmt gap cutoff batchSize)
    batchSize 0 db.

Definition DeleteExpired (stmt : Z) (gap : DB -> DB) (ctxErr : nat -> option error) (cutoff : Z) :
  DB -> (Z * option error) * DB :=
  DeleteExpiredInBatches stmt gap ctxErr cutoff DeleteExpiredBatchSize.

Definition DeleteExpiredHeldInBatches (ctxErr : nat -> option error) (locked : gset string)
  (heldCutoff batchSize : Z) (db : DB) : (Z * option error) * DB :=
  if batchSize <? 1
  then (0, Some (errors_New "delete expired held messages: batch size must be positive"), db)
  else delete_batches DeleteExpiredMaxBatches ctxErr (deleteExpiredHeldSQL locked heldCutoff batchSize)
  batchSize 0 db.

Definition DeleteExpiredHeld (ctxErr : nat -> option error) (locked : gset string) (heldCutoff : Z) :
  DB -> (Z * option error) * DB :=
  DeleteExpiredHeldInBatches ctxErr locked heldCutoff DeleteExpiredBatchSize.
End queue.

(** ** Scheduled messages *)

Section schedule.
Context `{Pg}.

(** The schedule and deliver_at a replace stores: still scheduled when deliver_at
    is after now, else released at once with its age anchored on now. *)
Definition replace_schedule (deliverAt : option Z) (nowArg : Z) : deliverySchedule * option Z :=
  match deliverAt with
  | Some t =>
    if time.After t nowArg then
    ({| schedule_state := StateScheduled; schedule_nextAttemptAt := deliverAt;
        schedule_budgetStartedAt := None |}, deliverAt)
    else
    ({| schedule_state := StatePending; schedule_nextAttemptAt := Some nowArg;
        schedule_budgetStartedAt := Some nowArg |}, Some nowArg)
  | None =>
    ({| schedule_state := StatePending; schedule_nextAttemptAt := Some nowArg;
        schedule_budgetStartedAt := Some nowArg |}, Some nowArg)
  end.

(** UPDATE messages SET the content columns. *)
Definition with_content (r content : MessageRow) : MessageRow :=
  r {{ row_channel := row_channel content; row_to_destination := row_to_destination content;
       row_to_recipient := row_to_recipient content; row_deliver_at := row_deliver_at content;
       row_critical := row_critical content; row_payload := row_payload content;
       row_display := row_display content }}.

Definition update_content (id : string) (envelope : Envelope) (payload : string)
    (displayJSON : option string) : M DB unit := fun db =>
  match messages db !! id, envelope_row envelope payload displayJSON 0 None with
  | Some r, Some content =>
    if negb (message_check (with_content r content)) then (Err (WrapDBError "replace message"), db)
    else (Ok tt, db {{ messages := <[id := with_content r content]> (messages db) }})
  | Some _, None => (Err (WrapDBError "replace message"), db)
  | None, _ => (Ok tt, db)
  end.

(** The statements of the replace once its message is found scheduled. *)
Definition replace_content (messageID : string) (envelope : Envelope) (targets : list DeliveryTarget)
    (schedule : deliverySchedule) (payload : string) (displayJSON : option string) : M DB (StoredMessage * bool) :=
  _ ← update_content messageID envelope payload displayJSON;
  _ ← (fun db => (Ok tt, delete_deliveries (fun d => bool_decide (MessageID d = messageID)) db));
  _ ← insertDeliveries messageID targets schedule;
  replacedMessage ← queryMessage (by_id messageID);
  mret (replacedMessage, true).

Definition ReplaceScheduledMessage (envelope : Envelope) (targets : list DeliveryTarget) (nowArg : Z) :
    M DB (StoredMessage * bool) :=
  if Z.of_nat (length targets) =? 0 then m_fail (errors_New "replace scheduled message: no delivery targets")
  else if time.IsZero nowArg then m_fail (errors_New "replace scheduled message: now must be set")
  else
    displayJSON ← m_lift (encodeDisplay (Display_ envelope));
    let (schedule, deliverAt) := replace_schedule (DeliverAt envelope) nowArg in
    WithTx (
      found ← m_gets (by_key (AppID envelope) (IdempotencyKey envelope));
      match found with
      | None => m_fail ErrMessageNotFound
      | Some messageID =>
        current ← queryMessage (by_id messageID);
        if negb (String.eqb (DeriveStatus (Deliveries current) (StoredMessage_State current)) StatusScheduled)
        then mret (current, false)
        else replace_content messageID (envelope {{ DeliverAt := deliverAt }}) targets schedule
               (Payload envelope) displayJSON
      end).

Definition set_message (id : string) (f : MessageRow -> MessageRow) (db : DB) : DB :=
  db {{ messages := alter f id (messages db) }}.

(** UPDATE messages SET cancelled_at, held_cancelled_at = now, held_at = NULL *)
Definition cancel_held (t : Z) (r : MessageRow) : MessageRow :=
  r {{ row_cancelled_at := Some t; row_held_cancelled_at := Some t; row_held_at := None }}.

Definition cancel (where_ : DB -> option string) (nowArg : Z) : M DB CancelOutcome :=
  if time.IsZero nowArg then m_fail (errors_New "cancel message: now must be set")
  else fun db =>
  match where_ db with
  | None => (Ok no_cancel, db)
  | Some messageID =>
    match messages db !! messageID with
    | None => (Ok no_cancel, db)
    | Some r =>
      let outcome status cancelled transitioned :=
      {| Cancel_MessageID := messageID; Status := status; Cancelled := cancelled;
        Transitioned := transitioned; Found := true |} in
      let t := timestamptz nowArg in
      if set (row_cancelled_at r) then (Ok (outcome StatusCancelled true false), db)
      else if set (row_release_failed_at r) then (Ok (outcome StatusReleaseFailed false false), db)
      else if set (row_held_at r) then
      (Ok (outcome StatusCancelled true true), set_message messageID (cancel_held t) db)
      else
      let status := DeriveStatus (deliveries_of messageID db)
      {| State_HeldAt := row_held_at r; State_CancelledAt := row_cancelled_at r;
        State_ReleaseFailedAt := row_release_failed_at r |} in
      if negb (String.eqb status StatusScheduled) then
      (Ok (outcome status (String.eqb status StatusCancelled) false), db)
      else
      let db1 := update_deliveries
      (fun d => bool_decide (MessageID d = messageID) && String.eqb (State d) StateScheduled)
      (fun d => d {{ State := StateCancelled; UpdatedAt := t }}) db in
      let r' := r {{ row_cancelled_at := Some t }} in
      if negb (message_check r') then (Err (WrapDBError "cancel message"), db)
      else (Ok (outcome StatusCancelled true true), db1 {{ messages := <[messageID := r']> (messages db) }})
    end
  end.

Definition scoped (appID : string) (where_ : DB -> option string) (db : DB) : option string :=
  id ← where_ db; r ← messages db !! id;
  if String.eqb (row_app_id r) appID then Some id else None.

Definition CancelMessage (id appID : string) (nowArg : Z) : M DB CancelOutcome :=
  if negb (canonicalUUIDPattern id) || String.eqb appID EmptyString then mret no_cancel
  else cancel (scoped appID (by_id id)) nowArg.

Definition AdminCancelMessage (id : string) (nowArg : Z) : M DB CancelOutcome :=
  if negb (canonicalUUIDPattern id) then mret no_cancel else cancel (by_id id) nowArg.

Definition CancelMessageByKey (appID idempotencyKey : string) (nowArg : Z) : M DB CancelOutcome :=
  cancel (by_key appID idempotencyKey) nowArg.

(** WHERE state = scheduled AND next_attempt_at <= $1 *)
Definition scheduled_due (t : Z) (d : Delivery) : bool :=
  String.eqb (State d) StateScheduled && (NextAttemptAt d <=? t).

(** GROUP BY message_id ORDER BY min(next_attempt_at), message_id: a message with
    its earliest due time. *)
Definition probe_le (a b : string * Z) : Prop := a.2 < b.2 \/ (a.2 = b.2 /\ str_le a.1 b.1).
#[global] Instance probe_le_dec : RelDecision probe_le.
Proof. intros a b. unfold probe_le. apply _. Defined.

Definition due_groups (t : Z) (db : DB) : gmap string Z :=
  foldr (fun d groups => <[MessageID d := match groups !! MessageID d with
      | Some u => Z.min u (NextAttemptAt d)
      | None => NextAttemptAt d
      end]> groups) ∅
  (filter (fun d => scheduled_due t d = true) ((map_to_list (deliveries db)).*2)).

Definition releaseProbeSQL (t limit : Z) (db : DB) : list string :=
  fst <$> take (Z.to_nat limit) (merge_sort probe_le (map_to_list (due_groups t db))).

Definition release_row (t : Z) (d : Delivery) : Delivery :=
  d {{ State := StatePending; NextAttemptAt := t; BudgetStartedAt := t; UpdatedAt := t }}.

(** [locked] are the messages other transactions hold. *)
Definition ReleaseDue (locked : gset string) (nowArg limit : Z) : M DB Z :=
  if time.IsZero nowArg then m_fail (errors_New "release due: now must be set")
  else if limit <? 1 then m_fail (errors_New "release due: limit must be positive")
  else fun db =>
  let t := timestamptz nowArg in
  let candidates := releaseProbeSQL t limit db in
  let taken := filter (fun id => id ∉ locked /\ is_Some (messages db !! id)) candidates in
  let P := fun d => bool_decide (MessageID d ∈ taken) && scheduled_due t d in
  let releasedIDs := MessageID <$> filter (fun d => P d = true) ((map_to_list (deliveries db)).*2) in
  (Ok (Z.of_nat (size (list_to_set (C := gset string) releasedIDs))), update_deliveries P (release_row t) db).

(** ORDER BY m.deliver_at (NULLS LAST), m.id *)
Definition deliver_le (a b : string * MessageRow) : Prop :=
  match row_deliver_at a.2, row_deliver_at b.2 with
  | Some t, Some u => t < u \/ (t = u /\ str_le a.1 b.1)
  | Some _, None => True
  | None, Some _ => False
  | None, None => str_le a.1 b.1
  end.
#[global] Instance deliver_le_dec : RelDecision deliver_le.
Proof. intros a b. unfold deliver_le. repeat case_match; apply _. Defined.

Definition scheduledListSQL (limit : Z) (db : DB) : list (string * MessageRow) :=
  take (Z.to_nat limit) (merge_sort deliver_le
    (filter (fun p => p.1 ∈ scheduled_ids db) (map_to_list (messages db)))).

Definition scan_scheduled (p : string * MessageRow) : result ScheduledMessage :=
  match row_deliver_at p.2 with
  | None => Err (errors_New "list scheduled messages: message is scheduled without a deliver_at")
  | Some deliverAt => Ok {|
      Scheduled_MessageID := p.1; Scheduled_AppID := row_app_id p.2; Scheduled_Channel := row_channel p.2;
      Scheduled_IdempotencyKey := row_idempotency_key p.2; Scheduled_DeliverAt := deliverAt;
      Scheduled_CreatedAt := row_created_at p.2;
      Recipient := bool_decide (is_Some (row_to_recipient p.2)); Destinations := [] |}
  end.

Fixpoint scan_all {A B} (f : A -> result B) (l : list A) : result (list B) :=
  match l with
  | [] => Ok []
  | x :: l => y ← f x; ys ← scan_all f l; Ok (y :: ys)
  end.

Definition attachScheduledDestinations (db : DB) (listed : list ScheduledMessage) : list ScheduledMessage :=
  (fun s =>
    if Recipient s then s
    else s {{ Destinations :=
        (fun d => {| Scheduled_Name := DestinationName d; Scheduled_Type := DestinationType d |}) <$>
        filter (fun d => State d = StateScheduled) (collectDeliveries (Scheduled_MessageID s) db) }}) <$> listed.

Definition ListScheduled (limit : Z) : M DB (list ScheduledMessage * Z) :=
  if limit <? 1 then m_fail (errors_New "list scheduled messages: limit must be positive")
  else fun db =>
  match scan_all scan_scheduled (scheduledListSQL limit db) with
  | Err e => (Err e, db)
  | Ok listed => (Ok (attachScheduledDestinations db listed, countScheduledTotal db), db)
  end.

(** ** What other components do to these tables *)

(** appteardown: DELETE FROM messages WHERE app_id = $1 AND held_at IS NOT NULL. *)
Definition teardown_held (appID : string) (db : DB) : Z * DB :=
  let ids := dom (filter (fun p => row_app_id p.2 = appID /\ is_Some (row_held_at p.2)) (messages db)) in
  (Z.of_nat (size ids), delete_messages ids db).

(** Time passes and destinations come and go: a deleted destination leaves its
    deliveries behind (ON DELETE SET NULL). *)
Definition environment (t : Z) (ids : gset Z) (db : DB) : DB :=
  (update_deliveries (fun d => match DestinationID d with Some i => negb (bool_decide (i ∈ ids)) | None => false end)
    (fun d => d {{ DestinationID := None }}) db) {{ now := timestamptz t; destination_ids := ids }}.
End schedule.
End message_pg.
