(* ===== verification/MessageInv.v ===== *)
(** * MessageInv

    What the message tables always satisfy: the shape of the rows, the phase
    every message is in, the gap-free attempt log.  Each store operation is
    reduced to one of a few kinds of change (a new message, delivery rows
    rewritten in place, a message row rewritten, messages deleted), each of which
    preserves the invariant. *)

From S2P Require Import Prelude GoText Utf8 Idents Message MessageStore.
Open Scope Z_scope.
Import message message_pg.

(** ** The derived status *)

Definition count (s : string) (ds : list Delivery) : Z :=
  Z.of_nat (length (filter (fun d => State d = s) ds)).

Lemma count_cons s d ds : count s (d :: ds) = (if decide (State d = s) then 1 else 0) + count s ds.
Proof. unfold count. rewrite filter_cons. destruct (decide _); simpl; lia. Qed.

Lemma count_nonneg s ds : 0 <= count s ds.
Proof. unfold count. lia. Qed.

Definition final_state (s : string) : Prop :=
  s = StateDelivered \/ s = StateDead \/ s = StateScheduled \/ s = StateCancelled.
#[global] Instance final_state_dec s : Decision (final_state s).
Proof. unfold final_state. apply _. Defined.

Definition one_if (P : Prop) `{Decision P} : Z := if decide P then 1 else 0.

Lemma tally_cons d ds acc :
  tally (d :: ds) acc =
    if decide (final_state (State d)) then
      tally ds {| delivered := delivered acc + one_if (State d = StateDelivered);
                  dead := dead acc + one_if (State d = StateDead);
                  scheduled := scheduled acc + one_if (State d = StateScheduled);
                  cancelled := cancelled acc + one_if (State d = StateCancelled) |}
    else None.
Proof.
  destruct acc as [a b c e]. cbn [tally]. generalize (State d) as s. intros s.
  destruct (String.eqb_spec s StateDelivered) as [-> | H1]; [cbn; by rewrite !Z.add_0_r|].
  destruct (String.eqb_spec s StateDead) as [-> | H2]; [cbn; by rewrite !Z.add_0_r|].
  destruct (String.eqb_spec s StateScheduled) as [-> | H3]; [cbn; by rewrite !Z.add_0_r|].
  destruct (String.eqb_spec s StateCancelled) as [-> | H4]; [cbn; by rewrite !Z.add_0_r|].
  rewrite decide_False; [done|]. unfold final_state. tauto.
Qed.

Lemma tally_spec ds acc :
  tally ds acc =
    if decide (Forall (fun d => final_state (State d)) ds) then
      Some {| delivered := delivered acc + count StateDelivered ds;
              dead := dead acc + count StateDead ds;
              scheduled := scheduled acc + count StateScheduled ds;
              cancelled := cancelled acc + count StateCancelled ds |}
    else None.
Proof.
  revert acc. induction ds as [|d ds IH]; intros acc.
  { rewrite decide_True by constructor. destruct acc; simpl. unfold count; simpl. by rewrite !Z.add_0_r. }
  rewrite tally_cons. destruct (decide (final_state (State d))) as [Hf|Hf].
  - rewrite IH. simpl. rewrite !count_cons. unfold one_if.
    destruct (decide (Forall _ ds)), (decide (Forall _ (d :: ds))) as [Hc|Hc]; try done.
    + by rewrite !Z.add_assoc.
    + destruct Hc. by constructor.
    + by inversion Hc.
  - rewrite decide_False; [done|]. by inversion 1.
Qed.

(** Every state's count is the whole exactly when every delivery is in it. *)
Lemma count_all s ds : count s ds = Z.of_nat (length ds) <-> Forall (fun d => State d = s) ds.
Proof.
  unfold count. induction ds as [|d ds IH]; [done|]. rewrite filter_cons, Forall_cons.
  pose proof (length_filter (fun d => State d = s) ds). destruct (decide (State d = s)); simpl.
  - rewrite <- IH. split; [intros; split; [done|lia]|intros []; lia].
  - split; [lia|tauto].
Qed.

Lemma count_none s ds : count s ds = 0 <-> Forall (fun d => State d <> s) ds.
Proof.
  unfold count. induction ds as [|d ds IH]; [done|]. rewrite filter_cons, Forall_cons.
  destruct (decide (State d = s)); simpl; [split; [lia|tauto]|]. rewrite <- IH. tauto.
Qed.

Definition all_in (s : string) (ds : list Delivery) : Prop := Forall (fun d => State d = s) ds.

Lemma all_in_disjoint s s' ds : s <> s' -> ds <> [] -> all_in s ds -> ~ all_in s' ds.
Proof. intros Hs Hds H H'. destruct ds as [|d ds]; [done|]. inversion H; inversion H'. congruence. Qed.

Definition settled (d : Delivery) : Prop := State d = StateDelivered \/ State d = StateDead.

(** Only when all are delivered or dead is nothing scheduled, cancelled or pending. *)
Lemma settled_counts ds :
  Forall settled ds <->
  Forall (fun d => final_state (State d)) ds /\ count StateScheduled ds = 0 /\ count StateCancelled ds = 0.
Proof.
  rewrite !count_none, !Forall_forall. unfold settled, final_state. split.
  - intros H. split_and!; intros d Hd; destruct (H d Hd) as [-> | ->]; try tauto; discriminate.
  - intros (H & H1 & H2) d Hd. specialize (H d Hd). specialize (H1 d Hd). specialize (H2 d Hd). tauto.
Qed.

(** The status of a message that is neither cancelled, held nor failed, as a
    specification over the states of its deliveries. *)
Definition delivery_status (ds : list Delivery) : string :=
  if decide (ds = []) then StatusPending
  else if decide (all_in StateScheduled ds) then StatusScheduled
  else if decide (all_in StateCancelled ds) then StatusCancelled
  else if decide (all_in StateDelivered ds) then StatusDelivered
  else if decide (all_in StateDead ds) then StatusDead
  else if decide (Forall settled ds) then StatusPartial
  else StatusPending.

Lemma all_in_settled s ds : s = StateDelivered \/ s = StateDead -> all_in s ds -> Forall settled ds.
Proof. intros Hs H. eapply Forall_impl; [done|]. intros d Hd. red. simpl in Hd. by rewrite Hd. Qed.

Lemma all_in_final s ds : final_state s -> all_in s ds -> Forall (fun d => final_state (State d)) ds.
Proof. intros Hs H. eapply Forall_impl; [done|]. intros d Hd. simpl in *. by rewrite Hd. Qed.

(** When all are settled, one count being zero puts all in the other state. *)
Lemma settled_zero ds :
  Forall settled ds ->
  (count StateDead ds = 0 <-> all_in StateDelivered ds) /\ (count StateDelivered ds = 0 <-> all_in StateDead ds).
Proof.
  unfold all_in. rewrite !count_none, !Forall_forall. unfold settled. intros H.
  split; (split; intros H' d Hd;
    [destruct (H d Hd); [done || by destruct (H' d Hd)..]|by rewrite (H' d Hd)]).
Qed.

Lemma DeriveStatus_eq ds state :
  DeriveStatus ds state =
    if decide (is_Some (State_CancelledAt state)) then StatusCancelled
    else if decide (is_Some (State_HeldAt state)) then StatusUnrouted
    else if decide (is_Some (State_ReleaseFailedAt state)) then StatusReleaseFailed
    else delivery_status ds.
Proof.
  unfold DeriveStatus, delivery_status. cbv zeta. rewrite !bool_decide_decide.
  destruct state as [h c f]. simpl.
  destruct (decide (is_Some c)), (decide (is_Some h)), (decide (is_Some f)); try done.
  destruct (decide (ds = [])) as [->|Hne]; [done|].
  destruct (Z.eqb_spec (Z.of_nat (length ds)) 0); [destruct ds; [done|discriminate]|].
  rewrite tally_spec. destruct (decide (Forall (fun d => final_state _) ds)) as [Hf|Hf]; simpl; rewrite ?Z.add_0_l.
  - destruct (Z.eqb_spec (count StateScheduled ds) (Z.of_nat (length ds))) as [Hs|Hs]; rewrite count_all in Hs.
    { by rewrite decide_True. }
    rewrite decide_False by done.
    destruct (Z.eqb_spec (count StateCancelled ds) (Z.of_nat (length ds))) as [Hc|Hc]; rewrite count_all in Hc.
    { by rewrite decide_True. }
    rewrite decide_False by done.
    destruct (decide (Forall settled ds)) as [Hset|Hset].
    + pose proof Hset as (_ & -> & ->)%settled_counts. simpl.
      destruct (settled_zero _ Hset) as [Hz1 Hz2].
      destruct (Z.eqb_spec (count StateDead ds) 0) as [H1|H1]; rewrite Hz1 in H1; [by rewrite decide_True|].
      rewrite decide_False by done.
      destruct (Z.eqb_spec (count StateDelivered ds) 0) as [H2|H2]; rewrite Hz2 in H2; [by rewrite decide_True|].
      by rewrite decide_False.
    + rewrite (decide_False (P := all_in StateDelivered ds)) by eauto using all_in_settled.
      rewrite (decide_False (P := all_in StateDead ds)) by eauto using all_in_settled.
      destruct (Z.ltb_spec 0 (count StateScheduled ds)), (Z.ltb_spec 0 (count StateCancelled ds)); try done.
      destruct Hset. apply settled_counts. pose proof (count_nonneg StateScheduled ds).
      pose proof (count_nonneg StateCancelled ds). split_and!; [done|lia|lia].
  - rewrite !decide_False; [done|..]; contradict Hf; try (eapply all_in_final; [|done]; unfold final_state; tauto).
    by apply settled_counts in Hf as [? _].
Qed.

(** The derived status of a message is the one its states determine, whatever the
    order of its deliveries: cancelled, held or failed by the row, else scheduled,
    cancelled, delivered or dead when all deliveries are, partial when all are
    settled but differ, and pending in every other case. *)
Theorem DeriveStatus_spec ds state :
  DeriveStatus ds state =
    if decide (is_Some (State_CancelledAt state)) then StatusCancelled
    else if decide (is_Some (State_HeldAt state)) then StatusUnrouted
    else if decide (is_Some (State_ReleaseFailedAt state)) then StatusReleaseFailed
    else delivery_status ds.
Proof. exact (DeriveStatus_eq ds state). Qed.

(** ** The phases of a message *)

(** Where a message is in its life.  [PActive] is in the delivery queue: pending,
    delivered or dead deliveries. *)
Inductive phase : Type := PHeld | PHeldCancelled | PScheduled | PCancelled | PActive.
#[global] Instance phase_eq_dec : EqDecision phase.
Proof. solve_decision. Defined.

(** The deliveries of message [id]. *)
Definition has (db : DB) (id : string) (d : Delivery) : Prop :=
  exists i, deliveries db !! i = Some d /\ MessageID d = id.

Lemma elem_of_deliveries_of id db d : d ∈ deliveries_of id db <-> has db id d.
Proof.
  unfold deliveries_of, has. rewrite list_elem_of_filter, list_elem_of_fmap. split.
  - intros [Hid ([i d'] & -> & Hin%elem_of_map_to_list)]. by exists i.
  - intros (i & Hi & Hid). split; [done|]. exists (i, d). split; [done|]. by apply elem_of_map_to_list.
Qed.

Definition unset (r : MessageRow) : Prop :=
  row_held_at r = None /\ row_cancelled_at r = None /\ row_held_cancelled_at r = None.

Definition active_state (s : string) : Prop := s = StatePending \/ s = StateDelivered \/ s = StateDead.

(** [phase_ok p r D]: row [r] with the deliveries [D] is in phase [p].  Scheduled
    and cancelled deliveries come all together, with the row's deliver_at. *)
Definition phase_ok (p : phase) (r : MessageRow) (D : Delivery -> Prop) : Prop :=
  match p with
  | PHeld => is_Some (row_held_at r) /\ row_cancelled_at r = None /\ row_held_cancelled_at r = None /\
             (forall d, ~ D d)
  | PHeldCancelled => row_held_at r = None /\ is_Some (row_cancelled_at r) /\
             row_held_cancelled_at r = row_cancelled_at r /\ (forall d, ~ D d)
  | PScheduled => unset r /\ (exists d, D d) /\
             exists t, row_deliver_at r = Some t /\ forall d, D d -> State d = StateScheduled /\ NextAttemptAt d = t
  | PCancelled => row_held_at r = None /\ is_Some (row_cancelled_at r) /\ row_held_cancelled_at r = None /\
             (exists d, D d) /\ forall d, D d -> State d = StateCancelled
  | PActive => unset r /\ (exists d, D d) /\ forall d, D d -> active_state (State d)
  end.

(** The life of a message: from held or scheduled onwards, never back. *)
Inductive moves : phase -> phase -> Prop :=
  | moves_stay p : moves p p
  | moves_cancel_held : moves PHeld PHeldCancelled
  | moves_cancel : moves PScheduled PCancelled
  | moves_release : moves PScheduled PActive.

#[export] Hint Constructors moves : notifs.

Lemma phase_ok_ext p r D D' : (forall d, D d <-> D' d) -> phase_ok p r D -> phase_ok p r D'.
Proof.
  intros H. destruct p; simpl; setoid_rewrite <- H; done.
Qed.

(** The columns tell all the phases apart but two, and those the deliveries do. *)
Lemma phase_columns p r D : phase_ok p r D ->
  (set (row_held_at r), set (row_cancelled_at r), set (row_held_cancelled_at r)) =
  match p with
  | PHeld => (true, false, false)
  | PHeldCancelled => (false, true, true)
  | PCancelled => (false, true, false)
  | PScheduled | PActive => (false, false, false)
  end.
Proof.
  unfold set, phase_ok, unset. destruct p; intros H; destruct_and?;
    repeat match goal with H : is_Some _ |- _ => destruct H as [? H] end;
    repeat match goal with H : ?x = _ |- context [bool_decide (is_Some ?x)] => rewrite H end; done.
Qed.

Lemma scheduled_not_active r D : phase_ok PScheduled r D -> phase_ok PActive r D -> False.
Proof.
  intros (_ & [d Hd] & t & _ & H1) (_ & _ & H2). destruct (H1 d Hd) as [H1' _].
  specialize (H2 d Hd). rewrite H1' in H2. by destruct H2 as [ | [ | ]].
Qed.

Lemma phase_unique p p' r D : phase_ok p r D -> phase_ok p' r D -> p = p'.
Proof.
  intros H1 H2. pose proof (phase_columns _ _ _ H1) as E1. pose proof (phase_columns _ _ _ H2) as E2.
  rewrite E1 in E2. destruct p, p'; try done; exfalso; eauto using scheduled_not_active.
Qed.

(** ** The invariant of the tables *)

Section inv.
Context `{Hpg : Pg}.

Definition same_key (r r' : MessageRow) : Prop :=
  row_app_id r' = row_app_id r /\ row_idempotency_key r' = row_idempotency_key r.

(** A row satisfies the constraints of its table, and no operation marks a release
    as failed. *)
Definition row_ok (r : MessageRow) : Prop := message_check r = true /\ row_release_failed_at r = None.

(** Message [id] is well formed: so is its row, and it is in a phase. *)
Definition message_ok (db : DB) (id : string) (r : MessageRow) : Prop :=
  uuid_text id = id /\ row_ok r /\ exists p, phase_ok p r (has db id).

Definition delivery_ok (db : DB) (i : Z) (d : Delivery) : Prop :=
  ID d = i /\ i < next_delivery_id db /\ delivery_check d = true /\
  BudgetAttempts d <= AttemptCount d /\ is_Some (messages db !! MessageID d).

Record wf (db : DB) : Prop := {
  wf_message id r : messages db !! id = Some r -> message_ok db id r;
  wf_key id id' r r' : messages db !! id = Some r -> messages db !! id' = Some r' -> same_key r r' -> id = id';
  wf_delivery i d : deliveries db !! i = Some d -> delivery_ok db i d;
  wf_name i i' d d' : deliveries db !! i = Some d -> deliveries db !! i' = Some d' ->
    MessageID d' = MessageID d -> DestinationName d' = DestinationName d -> i = i'
}.

(** The attempt log: the attempts of a delivery are numbered 1 to its attempt
    count, and a success is the last of them and what delivered it. *)
Record wf_log (db : DB) : Prop := {
  log_attempt j a : attempts db !! j = Some a ->
    Attempt_ID a = j /\ j < next_attempt_id db /\
    exists d, deliveries db !! DeliveryID (Attempt_Record a) = Some d /\
      1 <= AttemptNumber a <= AttemptCount d /\
      (Outcome (Attempt_Record a) = OutcomeSuccess ->
       State d = StateDelivered /\ AttemptNumber a = AttemptCount d);
  log_number j j' a a' : attempts db !! j = Some a -> attempts db !! j' = Some a' ->
    DeliveryID (Attempt_Record a') = DeliveryID (Attempt_Record a) -> AttemptNumber a' = AttemptNumber a ->
    j = j';
  log_complete i d n : deliveries db !! i = Some d -> 1 <= n <= AttemptCount d ->
    exists j a, attempts db !! j = Some a /\ DeliveryID (Attempt_Record a) = i /\ AttemptNumber a = n /\
      (n = AttemptCount d -> State d = StateDelivered -> Outcome (Attempt_Record a) = OutcomeSuccess);
  log_delivered i d : deliveries db !! i = Some d -> State d = StateDelivered -> 1 <= AttemptCount d
}.

(** What one transaction does to the messages it leaves: a message keeps its id,
    key and creation time, and moves forward in its life. *)
Definition lifecycle (db db' : DB) : Prop :=
  forall id r r', messages db !! id = Some r -> messages db' !! id = Some r' ->
    same_key r r' /\ row_created_at r' = row_created_at r /\
    forall p p', phase_ok p r (has db id) -> phase_ok p' r' (has db' id) -> moves p p'.

Lemma lifecycle_refl db : lifecycle db db.
Proof.
  intros id r r' H1 H2. replace r' with r by congruence. split_and!; try done.
  intros p p' Hp Hp'. rewrite (phase_unique _ _ _ _ Hp Hp'). constructor.
Qed.

(** Both invariants are kept and the messages move forward. *)
Record sound (db db' : DB) : Prop := {
  sound_wf : wf db';
  sound_log : wf_log db';
  sound_lifecycle : lifecycle db db'
}.

Lemma sound_refl db : wf db -> wf_log db -> sound db db.
Proof. split; [done..|apply lifecycle_refl]. Qed.

(** *** Rows rewritten in place *)

(** [g] rewrites delivery rows without changing what identifies them. *)
Definition keeps_identity (db : DB) (g : Delivery -> Delivery) : Prop :=
  forall i d, deliveries db !! i = Some d ->
    ID (g d) = ID d /\ MessageID (g d) = MessageID d /\ DestinationName (g d) = DestinationName d /\
    delivery_check (g d) = true /\ BudgetAttempts (g d) <= AttemptCount (g d).

Lemma has_fmap db db' g id d' :
  deliveries db' = g <$> deliveries db -> keeps_identity db g ->
  has db' id d' <-> exists d, has db id d /\ d' = g d.
Proof.
  intros Hd Hg. unfold has. setoid_rewrite Hd. setoid_rewrite lookup_fmap_Some. split.
  - intros (i & (d & <- & Hi) & Hid). exists d. split; [|done]. exists i. split; [done|].
    destruct (Hg _ _ Hi) as (_ & <- & _). done.
  - intros (d & (i & Hi & Hid) & ->). exists i. split; [by exists d|]. destruct (Hg _ _ Hi) as (_ & -> & _). done.
Qed.

(** A message row before and after, with the phases it may move between. *)
Definition row_moves (db db' : DB) (id : string) (r r' : MessageRow) : Prop :=
  same_key r r' /\ row_created_at r' = row_created_at r /\ row_ok r' /\
  forall p, phase_ok p r (has db id) -> exists p', phase_ok p' r' (has db' id) /\ moves p p'.

Lemma wf_update db db' g :
  wf db ->
  deliveries db' = g <$> deliveries db -> next_delivery_id db' = next_delivery_id db -> keeps_identity db g ->
  (forall id r, messages db !! id = Some r -> is_Some (messages db' !! id)) ->
  (forall id r', messages db' !! id = Some r' ->
     exists r, messages db !! id = Some r /\ row_moves db db' id r r') ->
  wf db' /\ lifecycle db db'.
Proof.
  intros Hwf Hd Hn Hg Hto Hfrom. split; [split|].
  - intros id r' Hr'. destruct (Hfrom _ _ Hr') as (r & Hr & _ & _ & Hck & Hp).
    destruct (wf_message _ Hwf _ _ Hr) as (Hid & _ & p & Hpok).
    split_and!; [done..|]. destruct (Hp _ Hpok) as (p' & ? & _). by exists p'.
  - intros id id' r1' r2' H1 H2 [Ha Hk]. destruct (Hfrom _ _ H1) as (r1 & Hr1 & [Ha1 Hk1] & _).
    destruct (Hfrom _ _ H2) as (r2 & Hr2 & [Ha2 Hk2] & _).
    eapply (wf_key _ Hwf); [exact Hr1|exact Hr2|]. split; congruence.
  - intros i d' Hi. rewrite Hd, lookup_fmap_Some in Hi. destruct Hi as (d & <- & Hi).
    destruct (wf_delivery _ Hwf _ _ Hi) as (? & ? & _ & _ & [r Hr]).
    destruct (Hg _ _ Hi) as (Hgi & Hgm & _ & ? & ?). unfold delivery_ok. rewrite Hn, Hgi, Hgm. split_and!; eauto.
  - intros i i' d1' d2' H1 H2. rewrite Hd, lookup_fmap_Some in H1, H2.
    destruct H1 as (d1 & <- & H1), H2 as (d2 & <- & H2).
    destruct (Hg _ _ H1) as (_ & -> & -> & _), (Hg _ _ H2) as (_ & -> & -> & _).
    by apply (wf_name _ Hwf).
  - intros id r r' Hr Hr'. destruct (Hfrom _ _ Hr') as (r0 & Hr0 & Hkey & Hc & _ & Hp).
    replace r0 with r in * by congruence. split_and!; [done..|]. intros p p' Hpok Hpok'.
    destruct (Hp _ Hpok) as (p'' & Hpok'' & Hmv). by rewrite (phase_unique _ _ _ _ Hpok' Hpok'').
Qed.

(** A row whose message row and phase stay what they are. *)
Lemma row_moves_stay db db' id r :
  messages db !! id = Some r -> wf db ->
  (forall p, phase_ok p r (has db id) -> exists p', phase_ok p' r (has db' id) /\ moves p p') ->
  row_moves db db' id r r.
Proof.
  intros Hr Hwf Hp. destruct (wf_message _ Hwf _ _ Hr) as (_ & ? & _). by split_and!.
Qed.

(** The log survives when attempts, attempt counts and deliveredness do. *)
Lemma log_update db db' g :
  wf_log db -> attempts db' = attempts db -> next_attempt_id db' = next_attempt_id db ->
  deliveries db' = g <$> deliveries db ->
  (forall i d, deliveries db !! i = Some d ->
     AttemptCount (g d) = AttemptCount d /\ (State (g d) = StateDelivered <-> State d = StateDelivered)) ->
  wf_log db'.
Proof.
  intros Hl Ha Hn Hd Hg. split; rewrite ?Ha, ?Hn, ?Hd.
  - intros j a Hj. destruct (log_attempt _ Hl _ _ Hj) as (? & ? & d & Hdl & Hnum & Hs).
    destruct (Hg _ _ Hdl) as [Hc Hst]. split_and!; [done..|]. exists (g d). rewrite lookup_fmap, Hdl. simpl. rewrite Hc. split_and!; [done..|lia|lia|].
    intros Ho. rewrite Hst. by apply Hs.
  - apply (log_number _ Hl).
  - intros i d' n Hi. apply lookup_fmap_Some in Hi as (d & <- & Hi). destruct (Hg _ _ Hi) as [-> Hst]. intros Hn'.
    destruct (log_complete _ Hl _ _ _ Hi Hn') as (j & a & ? & ? & ? & ?). exists j, a. rewrite Hst. done.
  - intros i d' Hi. apply lookup_fmap_Some in Hi as (d & <- & Hi). destruct (Hg _ _ Hi) as [-> ->].
    by apply (log_delivered _ Hl i).
Qed.

(** *** One message written, with its deliveries *)

(** [db'] differs from [db] in message [id0] and its deliveries alone. *)
Record touches (id0 : string) (db db' : DB) : Prop := {
  touch_messages id : id <> id0 -> messages db' !! id = messages db !! id;
  touch_next : next_delivery_id db <= next_delivery_id db';
  touch_old i d : deliveries db !! i = Some d -> MessageID d <> id0 -> deliveries db' !! i = Some d;
  touch_new i d : deliveries db' !! i = Some d ->
    (deliveries db !! i = Some d /\ MessageID d <> id0) \/
    (MessageID d = id0 /\ ID d = i /\ i < next_delivery_id db' /\ delivery_check d = true /\
     BudgetAttempts d <= AttemptCount d);
  touch_names i i' d d' : deliveries db' !! i = Some d -> deliveries db' !! i' = Some d' ->
    MessageID d = id0 -> MessageID d' = id0 -> DestinationName d' = DestinationName d -> i = i'
}.

Lemma touches_has id0 db db' id d : touches id0 db db' -> id <> id0 -> has db' id d <-> has db id d.
Proof.
  intros Ht Hne. unfold has. split; intros (i & Hi & Hid); exists i; (split; [|done]).
  - destruct (touch_new _ _ _ Ht _ _ Hi) as [[? _]|[? _]]; [done|congruence].
  - apply (touch_old _ _ _ Ht); congruence.
Qed.

Lemma wf_touch id0 r0 db db' :
  wf db -> touches id0 db db' -> messages db' !! id0 = Some r0 ->
  uuid_text id0 = id0 -> row_ok r0 ->
  (forall id r, messages db !! id = Some r -> same_key r r0 -> id = id0) ->
  (exists p', phase_ok p' r0 (has db' id0) /\
     forall r, messages db !! id0 = Some r -> row_moves db db' id0 r r0) ->
  wf db' /\ lifecycle db db'.
Proof.
  intros Hwf Ht Hr0 Hid0 Hck Hkey (p' & Hp' & Hmv).
  assert (Hlook : forall id r, messages db' !! id = Some r ->
    (id = id0 /\ r = r0) \/ (id <> id0 /\ messages db !! id = Some r)).
  { intros id r Hr. destruct (decide (id = id0)) as [->|Hne]; [left|right; by rewrite <- (touch_messages _ _ _ Ht)].
    split; congruence. }
  split; [split|].
  - intros id r [[-> ->]|[Hne Hr]]%Hlook; [by split_and!; eauto|].
    destruct (wf_message _ Hwf _ _ Hr) as (? & ? & p & Hp). split_and!; [done..|]. exists p.
    eapply phase_ok_ext; [|done]. intros d. by rewrite (touches_has _ _ _ _ _ Ht).
  - intros id id' r r' [[-> ->]|[Hne Hr]]%Hlook [[-> ->]|[Hne' Hr']]%Hlook Hk; [done| | |by eapply (wf_key _ Hwf)].
    + destruct Hne'. apply (Hkey _ _ Hr'). by destruct Hk.
    + destruct Hne. by apply (Hkey _ _ Hr).
  - intros i d Hi. unfold delivery_ok. pose proof (touch_next _ _ _ Ht).
    destruct (touch_new _ _ _ Ht _ _ Hi) as [[Hi' Hne]|(-> & ? & ? & ? & ?)]; [|split_and!; eauto].
    destruct (wf_delivery _ Hwf _ _ Hi') as (? & ? & ? & ? & ?).
    rewrite (touch_messages _ _ _ Ht) by done. split_and!; [done|lia|done..].
  - intros i i' d d' Hi Hi' Hm Hn.
    destruct (decide (MessageID d = id0)); [eapply (touch_names _ _ _ Ht); eauto; congruence|].
    destruct (touch_new _ _ _ Ht _ _ Hi) as [[Hi1 _]|[? _]]; [|done].
    destruct (touch_new _ _ _ Ht _ _ Hi') as [[Hi2 _]|[? _]]; [|congruence].
    by apply (wf_name _ Hwf i i' d d').
  - intros id r r' Hr [[-> ->]|[Hne Hr']]%Hlook.
    + destruct (Hmv _ Hr) as (? & ? & _ & Hp). split_and!; [done..|]. intros q q' Hq Hq'.
      destruct (Hp _ Hq) as (q'' & Hq'' & ?). by rewrite (phase_unique _ _ _ _ Hq' Hq'').
    + replace r' with r by congruence. split_and!; [done..|]. intros q q' Hq Hq'.
      replace q' with q; [constructor|]. eapply phase_unique; [done|]. eapply phase_ok_ext; [|done].
      intros d. by rewrite (touches_has _ _ _ _ _ Ht).
Qed.

(** *** Deletion *)

Lemma lookup_delete_deliveries P db i d :
  deliveries (delete_deliveries P db) !! i = Some d <-> deliveries db !! i = Some d /\ P d = false.
Proof. simpl. by rewrite map_lookup_filter_Some. Qed.

Lemma has_delete P db id d : has (delete_deliveries P db) id d <-> has db id d /\ P d = false.
Proof. unfold has. setoid_rewrite lookup_delete_deliveries. naive_solver. Qed.

Lemma log_delete P db : wf_log db -> wf_log (delete_deliveries P db).
Proof.
  intros Hl.
  assert (Hatt : forall j a, attempts (delete_deliveries P db) !! j = Some a <->
    attempts db !! j = Some a /\ is_Some (deliveries (delete_deliveries P db) !! DeliveryID (Attempt_Record a))).
  { intros j a. simpl. by rewrite map_lookup_filter_Some. }
  split.
  - intros j a (Ha & d & Hd)%Hatt. destruct (log_attempt _ Hl _ _ Ha) as (? & ? & d' & Hd' & Hrest).
    split_and!; [done..|]. exists d. split; [done|]. apply lookup_delete_deliveries in Hd as [Hd _].
    by replace d with d' by congruence.
  - intros j j' a a' [Ha _]%Hatt [Ha' _]%Hatt. by apply (log_number _ Hl j j').
  - intros i d n Hi Hn. pose proof Hi as [Hi0 _]%lookup_delete_deliveries.
    destruct (log_complete _ Hl _ _ _ Hi0 Hn) as (j & a & Ha & Hai & ? & ?). exists j, a.
    split_and!; [|done..]. apply Hatt. rewrite Hai. by eauto.
  - intros i d [Hi _]%lookup_delete_deliveries. by apply (log_delivered _ Hl i).
Qed.

Lemma sound_delete ids db : wf db -> wf_log db -> sound db (delete_messages ids db).
Proof.
  intros Hwf Hl. unfold delete_messages. set (db1 := db {{ messages := _ }}).
  assert (Hm : forall id r, messages db1 !! id = Some r <-> messages db !! id = Some r /\ id ∉ ids).
  { intros id r. simpl. by rewrite map_lookup_filter_Some. }
  assert (Hhas : forall id d, id ∉ ids ->
    has (delete_deliveries (fun d => bool_decide (MessageID d ∈ ids)) db1) id d <-> has db id d).
  { intros id d Hid. rewrite has_delete, bool_decide_eq_false. split; [by intros [? _]|].
    intros H. split; [done|]. by destruct H as (i & _ & ->). }
  split; [split| |].
  - intros id r [Hr Hid]%Hm. destruct (wf_message _ Hwf _ _ Hr) as (? & ? & p & Hp).
    split_and!; [done..|]. exists p. eapply phase_ok_ext; [|done]. intros d. symmetry. by apply Hhas.
  - intros id id' r r' [Hr _]%Hm [Hr' _]%Hm. by apply (wf_key _ Hwf).
  - intros i d [Hi Hp]%lookup_delete_deliveries. apply bool_decide_eq_false in Hp.
    destruct (wf_delivery _ Hwf _ _ Hi) as (? & ? & ? & ? & [r Hr]). split_and!; [done..|].
    exists r. by apply Hm.
  - intros i i' d d' [Hi _]%lookup_delete_deliveries [Hi' _]%lookup_delete_deliveries. by apply (wf_name _ Hwf).
  - apply log_delete. by destruct Hl; split.
  - intros id r r' Hr [Hr' Hid]%Hm. replace r' with r by congruence. split_and!; [done..|].
    intros p p' Hp Hp'. replace p' with p; [constructor|]. eapply phase_unique; [done|].
    eapply phase_ok_ext; [|done]. intros d. by apply Hhas.
Qed.
End inv.
