(* ===== verification/MessageSteps.v ===== *)
(** * MessageSteps

    Every operation of the message store keeps the invariant of [MessageInv] and
    moves messages forward: what each one reads and writes, and the step relation
    over all of them. *)

From S2P Require Import Prelude GoText Utf8 Idents Message MessageStore MessageInv.
Open Scope Z_scope.
Import message message_pg.

Section steps.
Context `{Hpg : Pg}.

(** ** Reading *)

Lemma by_key_Some a k db id : by_key a k db = Some id ->
  exists r, messages db !! id = Some r /\ row_app_id r = a /\ row_idempotency_key r = k.
Proof.
  unfold by_key. destruct (filter _ _) as [|[id' r] l] eqn:E; [done|]. intros [= ->]. exists r.
  assert (Hin : (id, r) ∈ filter (fun p => row_app_id p.2 = a /\ row_idempotency_key p.2 = k)
    (map_to_list (messages db))) by (rewrite E; left).
  apply list_elem_of_filter in Hin as [[? ?] Hin]. by rewrite elem_of_map_to_list in Hin.
Qed.

Lemma by_key_None a k db id r : by_key a k db = None -> messages db !! id = Some r ->
  ~ (row_app_id r = a /\ row_idempotency_key r = k).
Proof.
  unfold by_key. intros H Hr Hk. destruct (filter _ _) as [|p l] eqn:E; [|done].
  assert (Hin : (id, r) ∈ filter (fun p => row_app_id p.2 = a /\ row_idempotency_key p.2 = k)
    (map_to_list (messages db))) by (apply list_elem_of_filter; split; [done|by apply elem_of_map_to_list]).
  rewrite E in Hin. by apply elem_of_nil in Hin.
Qed.

(** The key of a row finds that row, and no other. *)
Lemma by_key_complete db id r : wf db -> messages db !! id = Some r ->
  by_key (row_app_id r) (row_idempotency_key r) db = Some id.
Proof.
  intros Hwf Hr. destruct (by_key _ _ db) as [id'|] eqn:E.
  - apply by_key_Some in E as (r' & Hr' & Ha & Hk). f_equal. by apply (wf_key _ Hwf id' id r' r).
  - by destruct (by_key_None _ _ _ _ _ E Hr).
Qed.

Lemma by_id_complete db id r : uuid_text id = id -> messages db !! id = Some r -> by_id id db = Some id.
Proof. intros Hid Hr. unfold by_id. by rewrite Hid, Hr. Qed.

Lemma by_id_Some id db id' : by_id id db = Some id' -> id' = uuid_text id.
Proof. unfold by_id. destruct (messages db !! uuid_text id); [|done]. by intros [= <-]. Qed.

(** [m] is message [id] as a read returns it. *)
Definition reads (db : DB) (id : string) (r : MessageRow) (m : StoredMessage) : Prop :=
  messages db !! id = Some r /\
  exists m0, scanMessage id r = Ok m0 /\ m = m0 {{ Deliveries := collectDeliveries id db }}.

Lemma scanMessage_ID id r m : scanMessage id r = Ok m -> Message_ID m = id.
Proof. unfold scanMessage. cbv zeta. repeat case_match; by intros [= <-]. Qed.

Lemma queryMessageHead_ok w db m db' : queryMessageHead w db = (Ok m, db') ->
  db' = db /\ exists id r, w db = Some id /\ messages db !! id = Some r /\ scanMessage id r = Ok m.
Proof.
  unfold queryMessageHead. repeat case_match; try done. intros [= <- <-]. split; [done|]. by eexists _, _.
Qed.

Lemma queryMessage_ok w db m db' : queryMessage w db = (Ok m, db') ->
  db' = db /\ exists id r, w db = Some id /\ reads db id r m.
Proof.
  unfold queryMessage. intros (m0 & db1 & Hh & Hm)%m_bind_ok.
  apply queryMessageHead_ok in Hh as (-> & id & r & Hw & Hr & Hs). injection Hm as <- <-.
  split; [done|]. exists id, r. split; [done|]. split; [done|]. exists m0. split; [done|].
  by rewrite (scanMessage_ID _ _ _ Hs).
Qed.

Lemma queryMessage_state w db : (queryMessage w db).2 = db.
Proof.
  unfold queryMessage, queryMessageHead, mbind, m_bind. by repeat case_match; simplify_eq/=.
Qed.

Lemma reads_deliveries db id r m d : reads db id r m -> d ∈ Deliveries m <-> has db id d.
Proof.
  intros (_ & m0 & _ & ->). simpl. unfold collectDeliveries.
  by rewrite merge_sort_Permutation, elem_of_deliveries_of.
Qed.

Lemma reads_state db id r m : reads db id r m ->
  StoredMessage_State m = {| State_HeldAt := row_held_at r; State_CancelledAt := row_cancelled_at r;
                             State_ReleaseFailedAt := row_release_failed_at r |}.
Proof. intros (_ & m0 & Hs & ->). unfold scanMessage in Hs. by repeat case_match; simplify_eq/=. Qed.

(** ** Inserting deliveries *)

(** The rows one INSERT adds, ids counted up from [next]. *)
Fixpoint new_rows (next : Z) (db : DB) (messageID : string) (schedule : deliverySchedule)
    (targets : list DeliveryTarget) : list Delivery :=
  match targets with
  | [] => []
  | t :: targets =>
    new_delivery (db {{ next_delivery_id := next }}) messageID schedule t ::
    new_rows (next + 1) db messageID schedule targets
  end.

Lemma new_rows_elem next db id sch targets d : d ∈ new_rows next db id sch targets ->
  next <= ID d < next + Z.of_nat (length targets) /\ MessageID d = id /\ State d = schedule_state sch /\
  AttemptCount d = 0 /\ BudgetAttempts d = 0 /\ DeadReason d = None /\
  NextAttemptAt d = default (now db) (timestamptz <$> schedule_nextAttemptAt sch).
Proof.
  revert next. induction targets as [|t ts IH]; intros next; simpl; [by intros ?%elem_of_nil|].
  intros [->|H]%elem_of_cons; [simpl; split_and!; done || lia|].
  destruct (IH _ H) as (? & Hrest). split; [lia|done].
Qed.

Lemma new_rows_map next db id sch targets :
  (fun d => {| Target_DestinationID := DestinationID d; Target_DestinationName := DestinationName d;
               Target_DestinationType := DestinationType d |}) <$> new_rows next db id sch targets = targets.
Proof.
  revert next. induction targets as [|[] ts IH]; intros next; simpl; [done|]. by rewrite IH.
Qed.

Definition fresh_ids (db : DB) : Prop := forall i d, deliveries db !! i = Some d -> i < next_delivery_id db.

(** Only the deliveries change, and only by the new rows. *)
Record inserted (id : string) (rows : list Delivery) (db db' : DB) : Prop := {
  ins_messages : messages db' = messages db;
  ins_attempts : attempts db' = attempts db;
  ins_next_attempt : next_attempt_id db' = next_attempt_id db;
  ins_now : now db' = now db;
  ins_sweeping : sweeping db' = sweeping db;
  ins_next : next_delivery_id db' = next_delivery_id db + Z.of_nat (length rows);
  ins_rows i d : deliveries db' !! i = Some d <->
    deliveries db !! i = Some d \/ (d ∈ rows /\ ID d = i);
  ins_check : Forall (fun d => delivery_check d = true) rows;
  ins_names i i' d d' : deliveries db' !! i = Some d -> deliveries db' !! i' = Some d' ->
    MessageID d = id -> MessageID d' = id -> DestinationName d' = DestinationName d ->
    i = i' \/ (deliveries db !! i = Some d /\ deliveries db !! i' = Some d')
}.

Lemma insert_delivery_ok id sch t db u db' : fresh_ids db ->
  insert_delivery id sch t db = (Ok u, db') -> inserted id [new_delivery db id sch t] db db' /\ fresh_ids db'.
Proof.
  intros Hfresh. unfold insert_delivery. cbv zeta.
  set (d0 := new_delivery db id sch t).
  assert (Hid : ID d0 = next_delivery_id db) by done. assert (Hm : MessageID d0 = id) by done. clearbody d0.
  case_match eqn:Hc; [done|]. intros [= _ <-]. bool_hyps.
  assert (Hnone : deliveries db !! ID d0 = None).
  { destruct (deliveries db !! ID d0) eqn:E; [|done]. apply Hfresh in E. lia. }
  assert (Hrows : forall i d, <[ID d0 := d0]> (deliveries db) !! i = Some d <->
    deliveries db !! i = Some d \/ (d ∈ [d0] /\ ID d = i)).
  { intros i d. rewrite lookup_insert_Some, list_elem_of_singleton. split.
    - intros [[<- <-]|[_ ?]]; [by right|by left].
    - intros [Hi | [-> <-]]; [right|by left]. split; [congruence|done]. }
  split; [split; simpl|].
  - done.
  - done.
  - done.
  - done.
  - done.
  - lia.
  - apply Hrows.
  - by constructor.
  - unfold delivery_conflict in *. bool_hyps.
    assert (Hnc : forall i d, deliveries db !! i = Some d -> MessageID d = id ->
      DestinationName d <> DestinationName d0).
    { intros i d Hi Hd He. match goal with H : ~ map_Exists _ _ |- _ => apply H end.
      exists i, d. by rewrite Hm. }
    intros i i' d d' [Hi|[->%list_elem_of_singleton <-]]%Hrows [Hi'|[->%list_elem_of_singleton <-]]%Hrows Hd Hd' Hn.
    + by right.
    + by destruct (Hnc _ _ Hi Hd).
    + by destruct (Hnc _ _ Hi' Hd').
    + by left.
  - intros i d. simpl. rewrite lookup_insert_Some. intros [[<- <-]|[_ Hi]]; [lia|]. apply Hfresh in Hi. lia.
Qed.

Lemma inserted_nil id db : inserted id [] db db.
Proof.
  split; try done; simpl.
  - lia.
  - intros i d. rewrite elem_of_nil. naive_solver.
  - by right.
Qed.

Lemma inserted_trans id rows rows' db db1 db2 :
  inserted id rows db db1 -> inserted id rows' db1 db2 -> inserted id (rows ++ rows') db db2.
Proof.
  intros H1 H2. split.
  - by rewrite (ins_messages _ _ _ _ H2), (ins_messages _ _ _ _ H1).
  - by rewrite (ins_attempts _ _ _ _ H2), (ins_attempts _ _ _ _ H1).
  - by rewrite (ins_next_attempt _ _ _ _ H2), (ins_next_attempt _ _ _ _ H1).
  - by rewrite (ins_now _ _ _ _ H2), (ins_now _ _ _ _ H1).
  - by rewrite (ins_sweeping _ _ _ _ H2), (ins_sweeping _ _ _ _ H1).
  - rewrite (ins_next _ _ _ _ H2), (ins_next _ _ _ _ H1), length_app. lia.
  - intros i d. rewrite (ins_rows _ _ _ _ H2), (ins_rows _ _ _ _ H1), elem_of_app. tauto.
  - apply Forall_app. split; [apply (ins_check _ _ _ _ H1)|apply (ins_check _ _ _ _ H2)].
  - intros i i' d d' Hi Hi' Hd Hd' Hn.
    destruct (ins_names _ _ _ _ H2 _ _ _ _ Hi Hi' Hd Hd' Hn) as [?|[Hi1 Hi1']]; [by left|].
    apply (ins_names _ _ _ _ H1 _ _ _ _ Hi1 Hi1' Hd Hd' Hn).
Qed.

Lemma new_rows_now next db db' id sch targets : now db' = now db ->
  new_rows next db' id sch targets = new_rows next db id sch targets.
Proof.
  destruct db, db'. simpl. intros ->. revert next.
  induction targets as [|t ts IH]; intros next; simpl; [done|]. by rewrite IH.
Qed.

Lemma insertDeliveries_ok id targets sch db u db' : fresh_ids db ->
  insertDeliveries id targets sch db = (Ok u, db') ->
  inserted id (new_rows (next_delivery_id db) db id sch targets) db db' /\ fresh_ids db'.
Proof.
  revert db. induction targets as [|t ts IH]; intros db Hfresh; simpl.
  { intros [= _ <-]. split; [apply inserted_nil|done]. }
  intros (v & db1 & Hone & Hrest)%m_bind_ok.
  apply insert_delivery_ok in Hone as [H1 Hf1]; [|done].
  apply IH in Hrest as [H2 Hf2]; [|done]. split; [|done].
  apply (inserted_trans _ [_] _ _ _ _ H1). rewrite (ins_next _ _ _ _ H1) in H2.
  rewrite (new_rows_now _ db db1) in H2 by apply (ins_now _ _ _ _ H1). simpl in H2.
  by replace (new_delivery (db {{ next_delivery_id := next_delivery_id db }}) id sch t)
    with (new_delivery db id sch t) by by destruct db.
Qed.

(** New rows of a message that has no others: only that message is touched. *)
Definition new_row (id : string) (d : Delivery) : Prop :=
  MessageID d = id /\ AttemptCount d = 0 /\ BudgetAttempts d = 0 /\ State d <> StateDelivered.

Lemma touches_inserted id rows db db0 db' :
  wf db ->
  (forall i d, deliveries db0 !! i = Some d <-> deliveries db !! i = Some d /\ MessageID d <> id) ->
  next_delivery_id db0 = next_delivery_id db ->
  (forall id', id' <> id -> messages db0 !! id' = messages db !! id') ->
  inserted id rows db0 db' -> fresh_ids db' -> Forall (new_row id) rows ->
  touches id db db' /\ forall d, has db' id d <-> d ∈ rows.
Proof.
  intros Hwf Hd Hn Hm Hins Hfresh Hrows. rewrite Forall_forall in Hrows.
  pose proof (ins_check _ _ _ _ Hins) as Hck. rewrite Forall_forall in Hck.
  split; [split|].
  - intros id' Hne. rewrite (ins_messages _ _ _ _ Hins). by apply Hm.
  - rewrite (ins_next _ _ _ _ Hins), Hn. lia.
  - intros i d Hi Hne. apply (ins_rows _ _ _ _ Hins). left. by apply Hd.
  - intros i d Hi. pose proof Hi as Hi'. apply (ins_rows _ _ _ _ Hins) in Hi as [Hi|[Hin <-]].
    + left. by apply Hd.
    + right. destruct (Hrows _ Hin) as (? & Ha & Hb & _). split_and!; [done..|by eapply Hfresh|by apply Hck|lia].
  - intros i i' d d' Hi Hi' Hid Hid' Hname.
    destruct (ins_names _ _ _ _ Hins _ _ _ _ Hi Hi' Hid Hid' Hname) as [?|[Hi0 _]]; [done|].
    by apply Hd in Hi0 as [_ ?].
  - intros d. unfold has. setoid_rewrite (ins_rows _ _ _ _ Hins). split.
    + intros (i & [[_ ?]%Hd|[? _]] & ?); done.
    + intros Hin. exists (ID d). split; [by right|]. by apply Hrows.
Qed.

Lemma log_inserted id rows db db' :
  wf_log db -> fresh_ids db -> inserted id rows db db' ->
  (forall d, d ∈ rows -> next_delivery_id db <= ID d) -> Forall (new_row id) rows -> wf_log db'.
Proof.
  intros Hl Hfresh Hins Hnext Hrows. rewrite Forall_forall in Hrows.
  assert (Hold : forall i d, deliveries db' !! i = Some d -> 0 < AttemptCount d \/ State d = StateDelivered ->
    deliveries db !! i = Some d).
  { intros i d Hi Hc. apply (ins_rows _ _ _ _ Hins) in Hi as [Hi|[Hin _]]; [done|].
    destruct (Hrows _ Hin) as (_ & ? & _ & ?). destruct Hc; [lia|done]. }
  split; rewrite ?(ins_attempts _ _ _ _ Hins), ?(ins_next_attempt _ _ _ _ Hins).
  - intros j a Hj. destruct (log_attempt _ Hl _ _ Hj) as (? & ? & d & Hd & ?). split_and!; [done..|].
    exists d. split; [|done]. apply (ins_rows _ _ _ _ Hins). by left.
  - apply (log_number _ Hl).
  - intros i d n Hi Hn. apply (log_complete _ Hl); [|done]. apply Hold; [done|left; lia].
  - intros i d Hi Hs. apply (log_delivered _ Hl i); [|done]. apply Hold; [done|by right].
Qed.

(** ** Inserting messages *)

Lemma insert_message_ok op uuid e p dj held db o db' :
  insert_message op uuid e p dj held db = (Ok o, db') ->
  match o with
  | None => db' = db /\ is_Some (by_key (AppID e) (IdempotencyKey e) db)
  | Some id => id = uuid /\ exists row,
      envelope_row e p dj (now db) held = Some row /\ message_check row = true /\
      by_key (AppID e) (IdempotencyKey e) db = None /\ messages db !! uuid = None /\
      db' = db {{ messages := <[uuid := row]> (messages db) }}
  end.
Proof.
  unfold insert_message. destruct (envelope_row _ _ _ _ _) as [row|] eqn:Hrow; [|done].
  case_match eqn:Hc; [done|]. case_match eqn:Hk; [intros [= <- <-]; by bool_hyps|].
  case_match eqn:Hu; [done|]. intros [= <- <-]. bool_hyps.
  split; [done|]. exists row. split_and!; try done; by apply eq_None_not_Some.
Qed.

(** What a new row carries of the envelope. *)
Lemma envelope_row_ok e p dj created held row : envelope_row e p dj created held = Some row ->
  row_app_id row = AppID e /\ row_idempotency_key row = IdempotencyKey e /\
  row_created_at row = created /\ row_deliver_at row = timestamptz <$> DeliverAt e /\
  row_held_at row = timestamptz <$> held /\ row_cancelled_at row = None /\ row_held_cancelled_at row = None /\
  row_release_failed_at row = None.
Proof.
  unfold envelope_row. destruct (jsonb p); simpl; [|done].
  destruct dj as [text|]; [destruct (jsonb text); simpl; [|done]|]; by intros [= <-].
Qed.

Lemma m_require_ok ok e db u db' : m_require ok e db = (Ok u, db') -> ok db = true /\ db' = db.
Proof. unfold m_require. case_match; by intros [= _ <-]. Qed.

Lemma fill_message_ok id e ts sch caps db1 m dup db2 :
  fill_message id e ts sch caps db1 = (Ok (m, dup), db2) ->
  dup = false /\ insertDeliveries id ts sch db1 = (Ok tt, db2) /\
  (0 < PerApp caps -> countScheduledForApp (AppID e) db2 <= PerApp caps /\ countScheduledTotal db2 <= Total caps) /\
  exists id' r, by_id id db2 = Some id' /\ reads db2 id' r m.
Proof.
  unfold fill_message. intros ([] & db3 & Hins & H)%m_bind_ok.
  apply m_bind_ok in H as ([] & db4 & Hcap & H). apply m_bind_ok in H as (m' & db5 & Hq & [= <- <- <-]).
  apply queryMessage_ok in Hq as (-> & id' & r & Hw & Hr).
  assert (db4 = db3 /\ (0 < PerApp caps ->
    countScheduledForApp (AppID e) db3 <= PerApp caps /\ countScheduledTotal db3 <= Total caps)) as [-> Hcaps].
  { case_match eqn:Hp; [|unfold mret, m_ret in Hcap; injection Hcap as <-; apply Z.ltb_ge in Hp; split; [done|lia]].
    apply m_bind_ok in Hcap as ([] & db6 & [? ->]%m_require_ok & [? ->]%m_require_ok). by bool_hyps. }
  split_and!; [done..|]. by exists id', r.
Qed.

Lemma fill_held_ok id e caps db1 m dup db2 :
  fill_held id e caps db1 = (Ok (m, dup), db2) ->
  dup = false /\ db2 = db1 /\ countHeldForApp (AppID e) db1 <= Held_PerApp caps /\
  countHeldTotal db1 <= Held_Total caps /\ exists id' r, by_id id db1 = Some id' /\ reads db1 id' r m.
Proof.
  unfold fill_held. intros ([] & db3 & H1 & H)%m_bind_ok.
  apply m_bind_ok in H as ([] & db4 & H2 & H). apply m_bind_ok in H as (m' & db5 & Hq & [= <- <- <-]).
  apply queryMessage_ok in Hq as (-> & id' & r & Hw & Hr).
  apply m_require_ok in H1 as [? ->]. apply m_require_ok in H2 as [? ->]. bool_hyps.
  split_and!; [done..|]. by exists id', r.
Qed.

(** A message stored anew, with its rows. *)
Lemma sound_new uuid row rows db db1 db2 p :
  wf db -> wf_log db -> uuid_text uuid = uuid -> row_ok row -> messages db !! uuid = None ->
  by_key (row_app_id row) (row_idempotency_key row) db = None ->
  db1 = db {{ messages := <[uuid := row]> (messages db) }} ->
  inserted uuid rows db1 db2 -> fresh_ids db2 -> Forall (new_row uuid) rows ->
  (forall d, d ∈ rows -> next_delivery_id db <= ID d) ->
  phase_ok p row (fun d => d ∈ rows) -> sound db db2.
Proof.
  intros Hwf Hl Hid Hck Hnew Hkey -> Hins Hfresh Hrows Hnext Hp.
  assert (Hfresh1 : fresh_ids db) by (intros i d Hi; apply (wf_delivery _ Hwf _ _ Hi)).
  assert (Hnone : forall i d, deliveries db !! i = Some d -> MessageID d <> uuid).
  { intros i d Hi <-. destruct (wf_delivery _ Hwf _ _ Hi) as (_ & _ & _ & _ & [r Hr]). congruence. }
  destruct (touches_inserted uuid rows db (db {{ messages := <[uuid := row]> (messages db) }}) db2)
    as [Ht Hhas]; try done.
  { simpl. naive_solver. }
  { intros id' Hne. simpl. by rewrite lookup_insert_ne. }
  destruct (wf_touch uuid row db db2) as [Hwf' Hlc]; try done.
  - rewrite (ins_messages _ _ _ _ Hins). simpl. by rewrite lookup_insert_eq.
  - intros id r Hr [Ha Hk]. destruct (by_key_None _ _ _ _ _ Hkey Hr); done.
  - exists p. split; [|intros r Hr; congruence]. eapply phase_ok_ext; [|done]. intros d. by rewrite Hhas.
  - split; [done| |done]. eapply (log_inserted uuid rows); [| |done|done|done]; [by destruct Hl; split|done].
Qed.

(** No interleaving: every other transaction is a step of its own. *)
Definition no_gap : nat -> DB -> DB := fun _ db => db.

Lemma retry_insert_result {A} n (once : (DB -> DB) -> M DB A) e0 db :
  (forall e db', once (fun db => db) db = (Err e, db') -> db' = db) ->
  (exists a db', once (fun db => db) db = (Ok a, db') /\ retry_insert n no_gap once e0 db = (Ok a, db')) \/
  (exists e, retry_insert n no_gap once e0 db = (Err e, db)).
Proof.
  intros Herr. induction n as [|n IH]; simpl; [by right; eexists|].
  change (no_gap 0%nat) with (fun db : DB => db).
  destruct (once (fun db => db) db) as [[a|e] db'] eqn:E; [by left; eexists _, _|].
  assert (db' = db) as -> by (by eapply Herr). right.
  case_match; [|by eexists]. by destruct IH as [(? & ? & ? & _)|].
Qed.

Lemma insert_or_select_err insert e fill db err db' :
  (forall db o db', insert db = (Ok o, db') -> o = None -> db' = db) ->
  insert_or_select (fun db => db) insert e fill db = (Err err, db') -> db' = db.
Proof.
  intros Hsame. unfold insert_or_select. destruct (insert db) as [[[id|]|e'] db1] eqn:E.
  - case_match; simplify_eq/=. case_match; by intros [= _ <-].
  - rewrite (Hsame _ _ _ E eq_refl). unfold mbind, m_bind.
    pose proof (queryMessage_state (by_key (AppID e) (IdempotencyKey e)) db) as Hq.
    destruct (queryMessage _ db) as [[a|e'] d]; [done|]. intros [= _ <-]. done.
  - by intros [= _ <-].
Qed.

(** One insert transaction: a new message filled in, or nothing changed. *)
Lemma insert_or_select_ok insert e fill db m dup db' :
  (forall db db', insert db = (Ok None, db') -> db' = db) ->
  insert_or_select (fun db => db) insert e fill db = (Ok (m, dup), db') ->
  (exists id db1, insert db = (Ok (Some id), db1) /\ fill id db1 = (Ok (m, dup), db')) \/
  (dup = true /\ db' = db /\ exists id r, by_key (AppID e) (IdempotencyKey e) db = Some id /\ reads db id r m).
Proof.
  intros Hsame. unfold insert_or_select. destruct (insert db) as [[[id|]|e'] db1] eqn:E; [| |done].
  - destruct (fill id db1) as [[[m' dup']|] db2] eqn:Ef; [|done]. intros [= <- <- <-]. left. by exists id, db1.
  - apply Hsame in E as ->. intros (m0 & db2 & Hq & [= <- <- <-])%m_bind_ok.
    apply queryMessage_ok in Hq as (-> & id & r & Hk & Hr). right. split_and!; [done..|]. by exists id, r.
Qed.

Lemma insert_message_same op uuid e p dj held db db' :
  insert_message op uuid e p dj held db = (Ok None, db') -> db' = db.
Proof. by intros [? _]%insert_message_ok. Qed.

Definition json_display (d : option Display) : option string := json_marshal_display <$> d.

(** The outcomes of an insert with a schedule: an error or a duplicate, which
    change nothing, or a new message with one new row per target. *)
Inductive insert_outcome (uuid : string) (e : Envelope) (targets : list DeliveryTarget)
    (sch : deliverySchedule) (caps : ScheduledCaps) (db : DB) : result (StoredMessage * bool) -> DB -> Prop :=
  | insert_failed err : insert_outcome uuid e targets sch caps db (Err err) db
  | insert_duplicate m id r :
      by_key (AppID e) (IdempotencyKey e) db = Some id -> reads db id r m ->
      insert_outcome uuid e targets sch caps db (Ok (m, true)) db
  | insert_new m row db1 db2 :
      envelope_row e (Payload e) (json_display (Display_ e)) (now db) None = Some row ->
      message_check row = true -> by_key (AppID e) (IdempotencyKey e) db = None -> messages db !! uuid = None ->
      db1 = db {{ messages := <[uuid := row]> (messages db) }} -> targets <> [] ->
      insertDeliveries uuid targets sch db1 = (Ok tt, db2) ->
      (0 < PerApp caps -> countScheduledForApp (AppID e) db2 <= PerApp caps /\ countScheduledTotal db2 <= Total caps) ->
      (exists id r, by_id uuid db2 = Some id /\ reads db2 id r m) ->
      insert_outcome uuid e targets sch caps db (Ok (m, false)) db2.

Lemma insertWithRetry_outcome uuid e targets sch caps db r db' :
  insertWithRetry no_gap uuid e targets sch caps db = (r, db') ->
  insert_outcome uuid e targets sch caps db r db'.
Proof.
  unfold insertWithRetry. destruct (Z.eqb_spec (Z.of_nat (length targets)) 0) as [_|Hne].
  { intros [= <- <-]. constructor. }
  cbv zeta. unfold mbind at 1, m_bind at 1, m_lift, encodeDisplay. fold (json_display (Display_ e)).
  set (once := fun gap : DB -> DB => _).
  destruct (retry_insert_result maxInsertAttempts once
    (errors_New "insert message: conflicting message deleted during every attempt") db)
    as [([m dup] & db2 & Honce & ->)|[err ->]].
  - intros err db2. apply insert_or_select_err. intros ? o ? Hi ->. by eapply insert_message_same.
  - intros [= <- <-]. apply insert_or_select_ok in Honce as [(id & db1 & Hi & Hf)|(-> & -> & id & r' & Hk & Hr)].
    + apply insert_message_ok in Hi as (-> & row & Hrow & Hck & Hk & Hu & ->).
      apply fill_message_ok in Hf as (-> & Hins & Hcaps & Hread).
      eapply insert_new; try done. by intros ->.
    + by eapply insert_duplicate.
    + intros ? ?. apply insert_message_same.
  - intros [= <- <-]. constructor.
Qed.

(** The states an insert schedules deliveries in, and the phase that makes. *)
Definition schedule_phase (e : Envelope) (sch : deliverySchedule) (p : phase) : Prop :=
  match p with
  | PActive => schedule_state sch = StatePending
  | PScheduled => schedule_state sch = StateScheduled /\ exists t, DeliverAt e = Some t /\
                  schedule_nextAttemptAt sch = Some t
  | _ => False
  end.

Lemma new_rows_phase e sch p next db uuid targets row :
  schedule_phase e sch p -> targets <> [] -> unset row -> row_deliver_at row = timestamptz <$> DeliverAt e ->
  phase_ok p row (fun d => d ∈ new_rows next db uuid sch targets).
Proof.
  intros Hp Hne Hun Hd.
  assert (Hex : exists d, d ∈ new_rows next db uuid sch targets).
  { destruct targets as [|t ts]; [done|]. eexists. left. }
  destruct p; simpl in Hp; try done.
  - destruct Hp as (Hs & t & Ht & Hn). split_and!; [done..|]. exists (timestamptz t). rewrite Hd, Ht.
    split; [done|]. intros d (_ & _ & -> & _ & _ & _ & ->)%new_rows_elem. by rewrite Hn.
  - split_and!; [done..|]. intros d (_ & _ & -> & _)%new_rows_elem. rewrite Hp. by left.
Qed.

Lemma new_rows_new next db uuid sch targets : schedule_state sch <> StateDelivered ->
  Forall (new_row uuid) (new_rows next db uuid sch targets).
Proof.
  intros Hs. apply Forall_forall. intros d (_ & ? & He & ? & ? & _)%new_rows_elem. split_and!; [done..|congruence].
Qed.

Lemma schedule_phase_state e sch p : schedule_phase e sch p -> schedule_state sch <> StateDelivered.
Proof. destruct p; simpl; try done; [intros [-> _]|intros ->]; done. Qed.

Lemma insert_sound uuid e targets sch caps p db r db' :
  wf db -> wf_log db -> uuid_text uuid = uuid -> schedule_phase e sch p ->
  insert_outcome uuid e targets sch caps db r db' -> sound db db'.
Proof.
  intros Hwf Hl Hid Hp [err|m id r0|m row db1 db2 Hrow Hck Hk Hu Hdb1 Hne Hins _ _]; [by apply sound_refl..|].
  apply envelope_row_ok in Hrow as (Ha & Hkey & _ & Hda & Hh & Hc & Hhc & Hrf).
  assert (Hf : fresh_ids db1).
  { subst db1. intros i d Hi. simpl in *. apply (wf_delivery _ Hwf _ _ Hi). }
  assert (Hn : next_delivery_id db1 = next_delivery_id db) by by subst db1.
  apply insertDeliveries_ok in Hins as [Hins Hfresh]; [|done].
  eapply (sound_new uuid row _ db db1 db2 p); try done.
  - by rewrite Ha, Hkey.
  - eapply new_rows_new, schedule_phase_state, Hp.
  - intros d (? & _)%new_rows_elem. lia.
  - by apply (new_rows_phase e).
Qed.
End steps.
