(* ===== verification/MessageReach.v ===== *)
(** * MessageReach

    The remaining operations of the message store keep the invariant, the step
    relation over all operations, and what every reachable state satisfies: well
    formed tables, messages that only move forward, caps never exceeded. *)

From S2P Require Import Prelude GoText Utf8 Idents Message MessageStore MessageInv MessageSteps.
Open Scope Z_scope.
Import message message_pg.

Section reach.
Context `{Hpg : Pg}.

(** ** Held inserts *)

Inductive held_outcome (uuid : string) (e : Envelope) (caps : HeldCaps) (nowArg : Z) (db : DB) :
    result (StoredMessage * bool) -> DB -> Prop :=
  | held_failed err : held_outcome uuid e caps nowArg db (Err err) db
  | held_duplicate m id r :
      by_key (AppID e) (IdempotencyKey e) db = Some id -> reads db id r m ->
      held_outcome uuid e caps nowArg db (Ok (m, true)) db
  | held_new m row db1 :
      envelope_row e (Payload e) (json_display (Display_ e)) (now db) (Some nowArg) = Some row ->
      message_check row = true -> by_key (AppID e) (IdempotencyKey e) db = None -> messages db !! uuid = None ->
      db1 = db {{ messages := <[uuid := row]> (messages db) }} ->
      countHeldForApp (AppID e) db1 <= Held_PerApp caps -> countHeldTotal db1 <= Held_Total caps ->
      (exists id r, by_id uuid db1 = Some id /\ reads db1 id r m) ->
      held_outcome uuid e caps nowArg db (Ok (m, false)) db1.

Lemma InsertHeldMessage_outcome uuid e caps nowArg db r db' :
  InsertHeldMessage no_gap uuid e caps nowArg db = (r, db') -> held_outcome uuid e caps nowArg db r db'.
Proof.
  unfold InsertHeldMessage. repeat (case_match; [intros [= <- <-]; constructor|]).
  unfold mbind at 1, m_bind at 1, m_lift, encodeDisplay. fold (json_display (Display_ e)).
  set (once := fun gap : DB -> DB => _).
  destruct (retry_insert_result maxInsertAttempts once
    (errors_New "insert held message: conflicting message deleted during every attempt") db)
    as [([m dup] & db2 & Honce & ->)|[err ->]].
  - intros err db2. apply insert_or_select_err. intros ? o ? Hi ->. by eapply insert_message_same.
  - intros [= <- <-]. apply insert_or_select_ok in Honce as [(id & db1 & Hi & Hf)|(-> & -> & id & r' & Hk & Hr)].
    + apply insert_message_ok in Hi as (-> & row & Hrow & Hck & Hk & Hu & ->).
      apply fill_held_ok in Hf as (-> & -> & ? & ? & Hread). by eapply held_new.
    + by eapply held_duplicate.
    + intros ? ?. apply insert_message_same.
  - intros [= <- <-]. constructor.
Qed.

Lemma held_sound uuid e caps nowArg db r db' :
  wf db -> wf_log db -> uuid_text uuid = uuid -> held_outcome uuid e caps nowArg db r db' -> sound db db'.
Proof.
  intros Hwf Hl Hid [err|m id r0|m row db1 Hrow Hck Hk Hu Hdb1 _ _ _]; [by apply sound_refl..|].
  apply envelope_row_ok in Hrow as (Ha & Hkey & _ & _ & Hh & Hc & Hhc & Hrf).
  eapply (sound_new uuid row [] db db1 db1 PHeld); try done.
  - by rewrite Ha, Hkey.
  - apply inserted_nil.
  - subst db1. intros i d Hi. simpl in *. apply (wf_delivery _ Hwf _ _ Hi).
  - intros d ?%elem_of_nil. done.
  - simpl. rewrite Hh. split_and!; [by eexists|done|done|]. intros d ?%elem_of_nil. done.
Qed.

(** ** Delivery rows rewritten *)

Lemma insert_as_fmap db i d d' : wf db -> deliveries db !! i = Some d ->
  <[i := d']> (deliveries db) = (fun x => if decide (ID x = i) then d' else x) <$> deliveries db.
Proof.
  intros Hwf Hi. apply map_eq. intros j. rewrite lookup_fmap. destruct (decide (i = j)) as [<-|Hne].
  - rewrite lookup_insert_eq, Hi. simpl. destruct (wf_delivery _ Hwf _ _ Hi) as [Hid _].
    by rewrite decide_True.
  - rewrite lookup_insert_ne by done. destruct (deliveries db !! j) as [x|] eqn:Hj; [|done]. simpl.
    destruct (wf_delivery _ Hwf _ _ Hj) as [Hid _]. rewrite decide_False; [done|congruence].
Qed.

(** A phase survives when every delivery is kept or stays in the queue. *)
Lemma phase_fmap p r db db' g id :
  phase_ok p r (has db id) -> deliveries db' = g <$> deliveries db -> keeps_identity db g ->
  (forall d, has db id d -> g d = d \/ (active_state (State d) /\ active_state (State (g d)))) ->
  phase_ok p r (has db' id).
Proof.
  intros Hp Hd Hg Hcase.
  assert (Hhas : forall d', has db' id d' <-> exists d, has db id d /\ d' = g d)
    by (intros d'; by apply has_fmap).
  destruct p; simpl in *; setoid_rewrite Hhas.
  - destruct Hp as (? & ? & ? & Hn). split_and!; [done..|]. intros d' (d & ? & _). by apply (Hn d).
  - destruct Hp as (? & ? & ? & Hn). split_and!; [done..|]. intros d' (d & ? & _). by apply (Hn d).
  - destruct Hp as (? & [d0 Hd0] & t & ? & Hall). split_and!; [done|by eauto|]. exists t. split; [done|].
    intros d' (d & Hdd & ->). destruct (Hall _ Hdd) as [Hs ?].
    destruct (Hcase _ Hdd) as [->|[Hact _]]; [done|]. rewrite Hs in Hact. by destruct Hact as [|[|]].
  - destruct Hp as (? & ? & ? & [d0 Hd0] & Hall). split_and!; [done..|by eauto|].
    intros d' (d & Hdd & ->). pose proof (Hall _ Hdd) as Hs.
    destruct (Hcase _ Hdd) as [->|[Hact _]]; [done|]. rewrite Hs in Hact. by destruct Hact as [|[|]].
  - destruct Hp as (? & [d0 Hd0] & Hall). split_and!; [done|by eauto|].
    intros d' (d & Hdd & ->). destruct (Hcase _ Hdd) as [->|[_ Hact]]; [by apply Hall|done].
Qed.

(** A delivery in the queue is rewritten and stays in the queue. *)
Definition stays_queued (d d' : Delivery) : Prop :=
  ID d' = ID d /\ MessageID d' = MessageID d /\ DestinationName d' = DestinationName d /\
  delivery_check d' = true /\ BudgetAttempts d' <= AttemptCount d' /\
  active_state (State d) /\ active_state (State d').

Lemma wf_set_delivery db db' i d d' :
  wf db -> deliveries db !! i = Some d -> messages db' = messages db ->
  next_delivery_id db' = next_delivery_id db -> deliveries db' = <[i := d']> (deliveries db) ->
  stays_queued d d' -> wf db' /\ lifecycle db db'.
Proof.
  intros Hwf Hi Hm Hn Hd (Hid & Hmid & Hname & Hck & Hb & Ha & Ha').
  rewrite (insert_as_fmap db i d d' Hwf Hi) in Hd.
  assert (Hone : forall j x, deliveries db !! j = Some x -> ID x = i -> x = d).
  { intros j x Hj Hx. destruct (wf_delivery _ Hwf _ _ Hj) as [Hxj _].
    assert (j = i) as -> by congruence. congruence. }
  assert (Hkeep : keeps_identity db (fun x => if decide (ID x = i) then d' else x)).
  { intros j x Hj. destruct (decide (ID x = i)) as [He|He].
    - by rewrite (Hone _ _ Hj He).
    - destruct (wf_delivery _ Hwf _ _ Hj) as (? & ? & ? & ? & _). by split_and!. }
  eapply wf_update; [done..| |]; rewrite Hm; [by eauto|].
  intros id r Hr. exists r. split; [done|]. apply row_moves_stay; [done..|].
  intros p Hp. exists p. split; [|constructor]. eapply phase_fmap; [done..|].
  intros x (j & Hj & _). destruct (decide (ID x = i)) as [He|He]; [right|by left].
  by rewrite (Hone _ _ Hj He).
Qed.

Lemma log_set_delivery db db' i d d' :
  wf db -> wf_log db -> deliveries db !! i = Some d -> attempts db' = attempts db ->
  next_attempt_id db' = next_attempt_id db -> deliveries db' = <[i := d']> (deliveries db) ->
  AttemptCount d' = AttemptCount d -> State d <> StateDelivered -> State d' <> StateDelivered -> wf_log db'.
Proof.
  intros Hwf Hl Hi Ha Hn Hd Hc Hs Hs'. rewrite (insert_as_fmap db i d d' Hwf Hi) in Hd.
  eapply log_update; [done..|]. intros j x Hj. cbn beta.
  destruct (decide (ID x = i)) as [He|He]; [|split; [done|tauto]].
  destruct (wf_delivery _ Hwf _ _ Hj) as [Hxj _].
  assert (j = i) as -> by congruence. assert (x = d) as -> by congruence. split; [done|tauto].
Qed.

(** ** The delivery queue *)

Lemma due_elem nowArg locked db d : d ∈ due nowArg locked db <->
  (exists i, deliveries db !! i = Some d) /\ State d = StatePending /\
  NextAttemptAt d <= timestamptz nowArg /\ ID d ∉ locked.
Proof.
  unfold due. rewrite merge_sort_Permutation, list_elem_of_filter, list_elem_of_fmap. split.
  - intros (? & [i d'] & -> & Hin%elem_of_map_to_list). split; [by exists i|done].
  - intros ([i Hi] & ?). split; [done|]. exists (i, d). split; [done|]. by apply elem_of_map_to_list.
Qed.

(** What ClaimDue leaves: nothing changed, or the oldest due delivery leased. *)
Inductive claim_outcome (locked : gset Z) (nowArg lease : Z) (db : DB) : result (option Claim) -> DB -> Prop :=
  | claim_failed e : claim_outcome locked nowArg lease db (Err e) db
  | claim_none : due nowArg locked db = [] -> claim_outcome locked nowArg lease db (Ok None) db
  | claim_some d rest leased m r db' :
      due nowArg locked db = d :: rest -> 0 < lease -> deliveries db !! ID d = Some d ->
      leased = d {{ NextAttemptAt := timestamptz (time.Add nowArg lease); UpdatedAt := now db }} ->
      db' = db {{ deliveries := <[ID d := leased]> (deliveries db) }} ->
      messages db !! uuid_text (MessageID d) = Some r -> scanMessage (uuid_text (MessageID d)) r = Ok m ->
      claim_outcome locked nowArg lease db (Ok (Some {| Claim_Delivery := leased; Claim_Message := m |})) db'.

Lemma ClaimDue_outcome locked nowArg lease db r db' : wf db ->
  ClaimDue locked nowArg lease db = (r, db') -> claim_outcome locked nowArg lease db r db'.
Proof.
  intros Hwf. unfold ClaimDue. destruct (Z.leb_spec lease 0); [intros [= <- <-]; constructor|].
  intros [(e & -> & ->)|(c & -> & Hrun)]%WithTx_cases; [constructor|].
  apply m_bind_ok in Hrun as (ds & db1 & [= <- <-] & Hrun).
  destruct (due nowArg locked db) as [|d rest] eqn:Hdue; [injection Hrun as <- <-; by constructor|].
  assert (Hd : d ∈ due nowArg locked db) by (rewrite Hdue; left).
  apply due_elem in Hd as ([i Hi] & _). pose proof (wf_delivery _ Hwf _ _ Hi) as [Hid _].
  apply m_bind_ok in Hrun as (leased & db1 & [= <- <-] & Hrun).
  apply m_bind_ok in Hrun as (m & db3 & Hq & [= <- <-]).
  apply queryMessageHead_ok in Hq as (-> & id & r & Hw & Hr & Hs).
  change (by_id (MessageID d) db = Some id) in Hw. change (messages db !! id = Some r) in Hr.
  apply by_id_Some in Hw as ->. eapply claim_some; try done; congruence.
Qed.

Lemma claim_sound locked nowArg lease db r db' :
  wf db -> wf_log db -> claim_outcome locked nowArg lease db r db' -> sound db db'.
Proof.
  intros Hwf Hl [e|Hdue|d rest leased m r0 db'' Hdue _ Hi Hle -> _ _]; [by apply sound_refl..|].
  assert (Hs : State d = StatePending).
  { assert (Hd : d ∈ due nowArg locked db) by (rewrite Hdue; left). by apply due_elem in Hd as (_ & ? & _). }
  destruct (wf_delivery _ Hwf _ _ Hi) as (Hid & _ & Hck & Hb & _).
  assert (Hst : State leased = State d) by by subst leased.
  destruct (wf_set_delivery db (db {{ deliveries := <[ID d := leased]> (deliveries db) }}) (ID d) d leased)
    as [Hwf' Hlc]; try done.
  { subst leased. split_and!; try done; by left. }
  split; [done| |done].
  eapply (log_set_delivery db _ (ID d) d leased); try done; [by subst leased|by rewrite Hs|by rewrite Hst, Hs].
Qed.

Lemma lockDelivery_ok i db d db' : lockDelivery i db = (Ok d, db') -> db' = db /\ deliveries db !! i = Some d.
Proof. unfold lockDelivery. case_match; [|done]. by intros [= <- <-]. Qed.

Inductive replay_outcome (i nowArg : Z) (db : DB) : result AdminDelivery -> DB -> Prop :=
  | replay_failed e : replay_outcome i nowArg db (Err e) db
  | replay_done d r db' :
      deliveries db !! i = Some d -> State d = StateDead -> messages db !! MessageID d = Some r ->
      db' = db {{ deliveries := <[ID d := replayed_row db d nowArg]> (deliveries db) }} ->
      replay_outcome i nowArg db (Ok {| Admin_Delivery := replayed_row db d nowArg;
        Admin_AppID := row_app_id r; Admin_Channel := row_channel r |}) db'.

Lemma Replay_outcome i nowArg db r db' :
  Replay i nowArg db = (r, db') -> replay_outcome i nowArg db r db'.
Proof.
  unfold Replay. case_match; [intros [= <- <-]; constructor|].
  intros [(e & -> & ->)|(a & -> & Hrun)]%WithTx_cases; [constructor|].
  apply m_bind_ok in Hrun as (d & db1 & [-> Hi]%lockDelivery_ok & Hrun).
  case_match eqn:Hs; [done|]. bool_hyps. unfold replay_locked in Hrun.
  destruct (admin_delivery db (replayed_row db d nowArg)) as [ad|] eqn:Had; [|done].
  apply fmap_Some in Had as (row & Hm & ->). change (messages db !! MessageID d = Some row) in Hm.
  injection Hrun as <- <-.
  by eapply replay_done.
Qed.

(** A constraint on a row depends on the state, reason and counts alone. *)
Lemma delivery_check_queued d d' :
  delivery_check d = true -> DestinationName d' = DestinationName d -> DestinationType d' = DestinationType d ->
  LastStatusCode d' = LastStatusCode d -> AttemptCount d' = AttemptCount d ->
  (0 <= BudgetAttempts d' <= BudgetAttempts d) ->
  one_of [StatePending; StateScheduled; StateCancelled] (State d') = true -> DeadReason d' = None ->
  delivery_check d' = true.
Proof.
  unfold delivery_check. intros H -> -> -> -> Hb Hs ->. bool_hyps. rewrite !andb_true_iff.
  unfold int4 in *. bool_hyps. rewrite !andb_true_iff, ?Z.leb_le, ?Z.ltb_lt.
  unfold one_of in *. simpl in *. rewrite !orb_true_iff, !String.eqb_eq in Hs.
  split_and!; try done; try lia; by destruct Hs as [-> |[-> |[-> |]]].
Qed.

Lemma delivery_check_counts d : delivery_check d = true -> 0 <= AttemptCount d /\ 0 <= BudgetAttempts d.
Proof. unfold delivery_check. intros H. bool_hyps. done. Qed.

Lemma delivery_check_reason d : delivery_check d = true -> State d <> StateDead -> DeadReason d = None.
Proof.
  unfold delivery_check. intros H Hs. bool_hyps.
  match goal with H : Bool.eqb _ _ = true |- _ => apply eqb_prop in H; rename H into Hdead end.
  rewrite (proj2 (String.eqb_neq _ _) Hs) in Hdead. symmetry in Hdead. bool_hyps. by apply eq_None_not_Some.
Qed.

Lemma replay_sound i nowArg db r db' :
  wf db -> wf_log db -> replay_outcome i nowArg db r db' -> sound db db'.
Proof.
  intros Hwf Hl [e|d row db'' Hi Hs Hm Heq]; [by apply sound_refl|].
  destruct (wf_delivery _ Hwf _ _ Hi) as (Hid & _ & Hck & Hb & _). rewrite Hid in Heq.
  pose proof (delivery_check_counts _ Hck) as [? ?].
  assert (Hck' : delivery_check (replayed_row db d nowArg) = true).
  { by eapply delivery_check_queued. }
  subst db''. destruct (wf_set_delivery db (db {{ deliveries := <[i := replayed_row db d nowArg]> (deliveries db) }})
    i d (replayed_row db d nowArg)) as [Hwf' Hlc]; try done.
  { split_and!; try done; [by right; right|by left]. }
  split; [done| |done]. by eapply (log_set_delivery db _ i d (replayed_row db d nowArg)); try done; rewrite Hs.
Qed.

(** ** Recording attempts *)

Lemma validate_ok result : validateAttemptResult result = None ->
  (Outcome (Result_Record result) = OutcomeSuccess <-> NextState result = StateDelivered) /\
  active_state (NextState result).
Proof.
  unfold validateAttemptResult. case_match eqn:Ho; [done|]. intros H. apply negb_false_iff, eqb_prop in Ho.
  split; [rewrite <- !String.eqb_eq, Ho; done|]. unfold active_state.
  destruct (String.eqb_spec (NextState result) StatePending) as [|H1]; [by left|].
  destruct (String.eqb_spec (NextState result) StateDelivered) as [|H2]; [by right; left|].
  destruct (String.eqb_spec (NextState result) StateDead) as [|H3]; [by right; right|done].
Qed.

(** The log row as stored. *)
Definition logged (db : DB) (d : Delivery) (result : AttemptResult) : Attempt :=
  (attempt_row d (Result_Record result)) {{ Attempt_ID := next_attempt_id db }}.

Inductive record_outcome (attempt : AttemptResult) (db : DB) : result Delivery -> DB -> Prop :=
  | record_failed e : record_outcome attempt db (Err e) db
  | record_ignored d :
      deliveries db !! DeliveryID (Result_Record attempt) = Some d -> State d <> StatePending ->
      record_outcome attempt db (Ok d) db
  | record_done d db' :
      validateAttemptResult attempt = None ->
      deliveries db !! DeliveryID (Result_Record attempt) = Some d -> State d = StatePending ->
      attempt_check (logged db d attempt) = true -> delivery_check (attempted_row db d attempt) = true ->
      db' = db {{ attempts := <[next_attempt_id db := logged db d attempt]> (attempts db);
                  next_attempt_id := next_attempt_id db + 1;
                  deliveries := <[ID d := attempted_row db d attempt]> (deliveries db) }} ->
      record_outcome attempt db (Ok (attempted_row db d attempt)) db'.

Lemma insert_attempt_ok a db u db' : insert_attempt a db = (Ok u, db') ->
  let a := a {{ Attempt_ID := next_attempt_id db }} in
  attempt_check a = true /\
  db' = db {{ attempts := <[next_attempt_id db := a]> (attempts db); next_attempt_id := next_attempt_id db + 1 }}.
Proof. unfold insert_attempt. cbv zeta. case_match eqn:Hc; [done|]. intros [= _ <-]. by bool_hyps. Qed.

Lemma RecordAttempt_outcome result db r db' :
  RecordAttempt result db = (r, db') -> record_outcome result db r db'.
Proof.
  unfold RecordAttempt, mbind at 1, m_bind at 1. destruct (validateAttemptResult result) as [e|] eqn:Hv.
  { intros [= <- <-]. constructor. }
  simpl. intros [(e & -> & ->)|(d' & -> & Hrun)]%WithTx_cases; [constructor|].
  apply m_bind_ok in Hrun as (d & db1 & [-> Hi]%lockDelivery_ok & Hrun).
  case_match eqn:Hs; bool_hyps; [injection Hrun as <- <-; by apply record_ignored|].
  apply m_bind_ok in Hrun as ([] & db1 & [Hck ->]%insert_attempt_ok & Hrun).
  unfold update_attempted in Hrun. cbv zeta in Hrun. case_match eqn:Hd; [done|]. bool_hyps.
  injection Hrun as <- <-. by apply (record_done result db d).
Qed.

Lemma log_recorded db db' i d a d' :
  wf db -> wf_log db -> deliveries db !! i = Some d -> State d <> StateDelivered ->
  deliveries db' = <[i := d']> (deliveries db) -> attempts db' = <[next_attempt_id db := a]> (attempts db) ->
  next_attempt_id db' = next_attempt_id db + 1 ->
  Attempt_ID a = next_attempt_id db -> DeliveryID (Attempt_Record a) = i -> AttemptNumber a = AttemptCount d + 1 ->
  AttemptCount d' = AttemptCount d + 1 -> 0 <= AttemptCount d ->
  (Outcome (Attempt_Record a) = OutcomeSuccess <-> State d' = StateDelivered) -> wf_log db'.
Proof.
  intros Hwf Hl Hi Hs Hd Ha Hn Haid Hai Han Hc Hnn Ho.
  assert (Hfresh : forall j b, attempts db !! j = Some b -> j < next_attempt_id db)
    by (intros j b Hj; apply (log_attempt _ Hl _ _ Hj)).
  assert (Hold : forall j b, attempts db !! j = Some b -> DeliveryID (Attempt_Record b) = i ->
    1 <= AttemptNumber b <= AttemptCount d /\ Outcome (Attempt_Record b) <> OutcomeSuccess).
  { intros j b Hj Hb. destruct (log_attempt _ Hl _ _ Hj) as (_ & _ & x & Hx & ? & Hsucc).
    assert (x = d) as -> by congruence. split; [done|]. intros [? _]%Hsucc. done. }
  split; rewrite ?Ha, ?Hn, ?Hd.
  - intros j b. rewrite lookup_insert_Some. intros [[<- <-]|[_ Hj]].
    + rewrite Hai, lookup_insert_eq. split_and!; [done|lia|]. exists d'. split_and!; [done|lia|lia|].
      intros Hb%Ho. split; [done|lia].
    + destruct (log_attempt _ Hl _ _ Hj) as (? & ? & x & Hx & Hnum & Hsucc). split_and!; [done|lia|].
      destruct (decide (i = DeliveryID (Attempt_Record b))) as [He|He].
      * rewrite <- He, lookup_insert_eq. exists d'. destruct (Hold _ _ Hj (eq_sym He)) as [? Hns].
        split_and!; [done|lia|lia|done].
      * rewrite lookup_insert_ne by done. by exists x.
  - intros j j' b b'. rewrite !lookup_insert_Some.
    intros [[<- <-]|[_ Hj]] [[<- <-]|[_ Hj']] He Hnum; [done| | |by apply (log_number _ Hl j j' b b')].
    + rewrite Hai in He. destruct (Hold _ _ Hj' He). lia.
    + rewrite Hai in He. destruct (Hold _ _ Hj (eq_sym He)). lia.
  - intros k x n. rewrite lookup_insert_Some. intros [[<- <-]|[Hne Hk]] Hnum.
    + destruct (decide (n = AttemptCount d')) as [->|Hlt].
      * exists (next_attempt_id db), a. rewrite lookup_insert_eq. split_and!; [done..|lia|].
        intros _ Hdel. by apply Ho.
      * destruct (log_complete _ Hl i d n Hi ltac:(lia)) as (j & b & Hj & Hb & Hbn & _).
        exists j, b. rewrite lookup_insert_ne by (apply Hfresh in Hj; lia). by split_and!.
    + destruct (log_complete _ Hl k x n Hk Hnum) as (j & b & Hj & Hb & Hbn & Hbs).
      exists j, b. rewrite lookup_insert_ne by (apply Hfresh in Hj; lia). by split_and!.
  - intros k x. rewrite lookup_insert_Some. intros [[<- <-]|[_ Hk]]; [lia|by apply (log_delivered _ Hl k)].
Qed.

Lemma record_sound result db r db' :
  wf db -> wf_log db -> record_outcome result db r db' -> sound db db'.
Proof.
  intros Hwf Hl [e|d Hi _|d db'' Hv Hi Hs _ Hck Heq]; [by apply sound_refl..|].
  destruct (wf_delivery _ Hwf _ _ Hi) as (Hid & _ & Hck0 & Hb & _). rewrite Hid in Heq.
  pose proof (delivery_check_counts _ Hck0) as [? ?]. apply validate_ok in Hv as [Ho Hact].
  set (i := DeliveryID (Result_Record result)) in *.
  assert (Hd : deliveries db'' = <[i := attempted_row db d result]> (deliveries db)) by by subst db''.
  destruct (wf_set_delivery db db'' i d (attempted_row db d result)) as [Hwf' Hlc];
    [done|done|by subst db''|by subst db''|done| |].
  { split_and!; try done; [|by left]. unfold attempted_row. simpl. destruct d; simpl in *; lia. }
  split; [done| |done].
  eapply (log_recorded db db'' i d (logged db d result) (attempted_row db d result)); try done.
  - by rewrite Hs.
  - by subst db''.
  - by subst db''.
Qed.

(** ** Cancelling *)

Lemma has_active_held r db id : wf db -> messages db !! id = Some r -> is_Some (row_held_at r) ->
  phase_ok PHeld r (has db id).
Proof.
  intros Hwf Hr Hh. destruct (wf_message _ Hwf _ _ Hr) as (_ & _ & p & Hp).
  pose proof (phase_columns _ _ _ Hp) as Hcol. unfold set in Hcol.
  rewrite (bool_decide_eq_true_2 _ Hh) in Hcol. by destruct p.
Qed.

(** The status of a message's deliveries, from any read of them. *)
Lemma scheduled_status db id r ds p :
  messages db !! id = Some r -> phase_ok p r (has db id) -> (forall d, d ∈ ds <-> has db id d) ->
  (DeriveStatus ds {| State_HeldAt := row_held_at r; State_CancelledAt := row_cancelled_at r;
     State_ReleaseFailedAt := row_release_failed_at r |} = StatusScheduled <->
   p = PScheduled /\ row_release_failed_at r = None).
Proof.
  intros Hr Hp Hds. rewrite DeriveStatus_eq. cbn [State_HeldAt State_CancelledAt State_ReleaseFailedAt].
  pose proof (phase_columns _ _ _ Hp) as Hcol. unfold set in Hcol. rewrite !bool_decide_decide in Hcol.
  destruct (decide (is_Some (row_cancelled_at r))), (decide (is_Some (row_held_at r))),
    (decide (is_Some (row_held_cancelled_at r))); destruct p; try done; try (split; [done|by intros []]).
  - destruct (decide (is_Some (row_release_failed_at r))) as [Hf|Hf].
    + split; [done|]. intros [_ He]. rewrite He in Hf. by destruct Hf.
    + apply eq_None_not_Some in Hf. split; [done|]. intros _. destruct Hp as (_ & [d Hd] & t & _ & Hall).
      unfold delivery_status. rewrite decide_False by (intros ->; by apply Hds, elem_of_nil in Hd).
      rewrite decide_True; [done|]. apply Forall_forall. intros x Hx%Hds. by apply Hall.
  - destruct (decide (is_Some (row_release_failed_at r))) as [Hf|Hf]; [split; [done|by intros []]|].
    split; [|by intros []]. destruct Hp as (_ & [d Hd] & Hall). unfold delivery_status.
    rewrite decide_False by (intros ->; by apply Hds, elem_of_nil in Hd).
    rewrite decide_False; [by repeat case_decide|].
    intros Hs. unfold all_in in Hs. rewrite Forall_forall in Hs. apply Hds in Hd as Hd'. specialize (Hs _ Hd').
    specialize (Hall _ Hd). rewrite Hs in Hall. by destruct Hall as [|[|]].
Qed.

Definition cancelled_rows (id : string) (t : Z) (d : Delivery) : Delivery :=
  if bool_decide (MessageID d = id) && String.eqb (State d) StateScheduled
  then d {{ State := StateCancelled; UpdatedAt := t }} else d.

(** What a cancel of the message it found does: a held or a scheduled message is
    cancelled, any other is reported as it is and left alone. *)
Inductive cancel_outcome (where_ : DB -> option string) (nowArg : Z) (db : DB) :
    result CancelOutcome -> DB -> Prop :=
  | cancel_failed e : cancel_outcome where_ nowArg db (Err e) db
  | cancel_absent : (forall id, where_ db = Some id -> messages db !! id = None) ->
      cancel_outcome where_ nowArg db (Ok no_cancel) db
  | cancel_unchanged id r status :
      where_ db = Some id -> messages db !! id = Some r ->
      status = DeriveStatus (deliveries_of id db) {| State_HeldAt := row_held_at r;
        State_CancelledAt := row_cancelled_at r; State_ReleaseFailedAt := row_release_failed_at r |} ->
      status <> StatusScheduled ->
      is_Some (row_cancelled_at r) \/ (row_held_at r = None /\ row_release_failed_at r = None) ->
      cancel_outcome where_ nowArg db (Ok {| Cancel_MessageID := id; Status := status;
        Cancelled := String.eqb status StatusCancelled; Transitioned := false; Found := true |}) db
  | cancel_release_failed id r :
      where_ db = Some id -> messages db !! id = Some r ->
      row_cancelled_at r = None -> is_Some (row_release_failed_at r) ->
      cancel_outcome where_ nowArg db (Ok {| Cancel_MessageID := id; Status := StatusReleaseFailed;
        Cancelled := false; Transitioned := false; Found := true |}) db
  | cancel_held_done id r db' :
      where_ db = Some id -> messages db !! id = Some r -> row_cancelled_at r = None -> is_Some (row_held_at r) ->
      db' = db {{ messages := <[id := cancel_held (timestamptz nowArg) r]> (messages db) }} ->
      cancel_outcome where_ nowArg db (Ok {| Cancel_MessageID := id; Status := StatusCancelled;
        Cancelled := true; Transitioned := true; Found := true |}) db'
  | cancel_scheduled_done id r db' :
      where_ db = Some id -> messages db !! id = Some r ->
      DeriveStatus (deliveries_of id db) {| State_HeldAt := row_held_at r;
        State_CancelledAt := row_cancelled_at r; State_ReleaseFailedAt := row_release_failed_at r |} = StatusScheduled ->
      message_check (r {{ row_cancelled_at := Some (timestamptz nowArg) }}) = true ->
      db' = db {{ messages := <[id := r {{ row_cancelled_at := Some (timestamptz nowArg) }}]> (messages db);
                  deliveries := cancelled_rows id (timestamptz nowArg) <$> deliveries db }} ->
      cancel_outcome where_ nowArg db (Ok {| Cancel_MessageID := id; Status := StatusCancelled;
        Cancelled := true; Transitioned := true; Found := true |}) db'.

Lemma set_message_eq id f r db : messages db !! id = Some r ->
  set_message id f db = db {{ messages := <[id := f r]> (messages db) }}.
Proof.
  intros Hr. unfold set_message.
  assert (alter f id (messages db) = <[id := f r]> (messages db)) as ->; [|done].
  apply map_eq. intros j. destruct (decide (id = j)) as [<-|Hne].
  - by rewrite lookup_alter_eq, Hr, lookup_insert_eq.
  - by rewrite lookup_alter_ne, lookup_insert_ne.
Qed.

Lemma cancel_ok where_ nowArg db r db' :
  cancel where_ nowArg db = (r, db') -> cancel_outcome where_ nowArg db r db'.
Proof.
  unfold cancel. case_match; [intros [= <- <-]; constructor|].
  destruct (where_ db) as [id|] eqn:Hw; [|intros [= <- <-]; apply cancel_absent; congruence].
  destruct (messages db !! id) as [row|] eqn:Hr; [|intros [= <- <-]; apply cancel_absent; congruence].
  cbv zeta. set (status := DeriveStatus (deliveries_of id db) _).
  pose proof (cancel_unchanged where_ nowArg db id row status Hw Hr eq_refl) as Hunchanged.
  assert (Hspec : status = if decide (is_Some (row_cancelled_at row)) then StatusCancelled
    else if decide (is_Some (row_held_at row)) then StatusUnrouted
    else if decide (is_Some (row_release_failed_at row)) then StatusReleaseFailed
    else delivery_status (deliveries_of id db)) by apply DeriveStatus_eq.
  unfold message_pg.set. rewrite !bool_decide_decide.
  destruct (decide (is_Some (row_cancelled_at row))) as [Hc|Hc].
  { intros [= <- <-]. rewrite Hspec in Hunchanged. apply Hunchanged; [done|by left]. }
  apply eq_None_not_Some in Hc. destruct (decide (is_Some (row_release_failed_at row))) as [Hf|Hf].
  { intros [= <- <-]. by eapply cancel_release_failed. }
  apply eq_None_not_Some in Hf. destruct (decide (is_Some (row_held_at row))) as [Hh|Hh].
  { rewrite (set_message_eq _ _ _ _ Hr). intros [= <- <-]. by eapply cancel_held_done. }
  apply eq_None_not_Some in Hh. destruct (String.eqb_spec status StatusScheduled) as [Hs|Hs]; simpl.
  - case_match eqn:Hck; intros [= <- <-]; [constructor|]. bool_hyps. by eapply (cancel_scheduled_done _ _ _ id row).
  - intros [= <- <-]. apply Hunchanged; [done|by right].
Qed.

(** One message row and its deliveries rewritten in place. *)
Lemma wf_set_row db db' id r r' g :
  wf db -> messages db !! id = Some r -> messages db' = <[id := r']> (messages db) ->
  deliveries db' = g <$> deliveries db -> next_delivery_id db' = next_delivery_id db -> keeps_identity db g ->
  (forall d, MessageID d <> id -> g d = d) -> row_moves db db' id r r' -> wf db' /\ lifecycle db db'.
Proof.
  intros Hwf Hr Hm Hd Hn Hg Hother Hmv. eapply wf_update; [done..| |]; rewrite Hm.
  - intros id' x Hx. rewrite lookup_insert. case_decide; [by eexists|by rewrite Hx].
  - intros id' x. rewrite lookup_insert_Some. intros [[<- <-]|[Hne Hx]]; [by exists r|].
    exists x. split; [done|]. apply row_moves_stay; [done..|]. intros p Hp. exists p. split; [|constructor].
    eapply phase_fmap; [done..|]. intros d (i & _ & Hid). left. apply Hother. congruence.
Qed.

Lemma cancel_held_check t r : message_check r = true -> message_check (cancel_held t r) = true.
Proof.
  destruct r. unfold message_check, cancel_held, message_pg.set. simpl. intros H. bool_hyps.
  rewrite !andb_true_iff. split_and!; rewrite ?negb_true_iff; try done. by apply orb_true_r.
Qed.

Lemma cancel_held_sound t db id r :
  wf db -> wf_log db -> messages db !! id = Some r -> is_Some (row_held_at r) ->
  sound db (db {{ messages := <[id := cancel_held t r]> (messages db) }}).
Proof.
  intros Hwf Hl Hr Hh. pose proof (has_active_held _ _ _ Hwf Hr Hh) as Hp.
  destruct (wf_message _ Hwf _ _ Hr) as (_ & [Hck Hrf] & _). set (db' := db {{ messages := _ }}).
  assert (Hd : deliveries db' = (fun d => d) <$> deliveries db) by (symmetry; apply map_fmap_id).
  assert (Hhas : forall d, has db' id d <-> has db id d) by done.
  destruct (wf_set_row db db' id r (cancel_held t r) (fun d => d)) as [Hwf' Hlc]; try done.
  - intros i d Hi. destruct (wf_delivery _ Hwf _ _ Hi) as (? & ? & ? & ? & _). by split_and!.
  - split_and!; [done..|by split; [apply cancel_held_check|]|]. intros p Hp'.
    rewrite (phase_unique _ _ _ _ Hp' Hp). exists PHeldCancelled. split; [|constructor].
    destruct Hp as (_ & _ & _ & Hno). split_and!; [done|by eexists|done|]. intros d Hd'. by apply (Hno d), Hhas.
  - split; [done| |done]. by destruct Hl; split.
Qed.

Lemma cancelled_rows_identity db id t : wf db -> keeps_identity db (cancelled_rows id t).
Proof.
  intros Hwf i d Hi. destruct (wf_delivery _ Hwf _ _ Hi) as (_ & _ & Hck & Hb & _). unfold cancelled_rows.
  case_match eqn:Hc; [|by split_and!]. bool_hyps. split_and!; try done.
  pose proof (delivery_check_counts _ Hck). eapply delivery_check_queued; try done; [simpl; by destruct d; simpl in *; lia|].
  change (DeadReason d = None). apply delivery_check_reason; [done|].
  match goal with H : State d = _ |- _ => by rewrite H end.
Qed.

Lemma cancel_scheduled_sound t db id r :
  wf db -> wf_log db -> messages db !! id = Some r -> phase_ok PScheduled r (has db id) ->
  message_check (r {{ row_cancelled_at := Some t }}) = true ->
  sound db (db {{ messages := <[id := r {{ row_cancelled_at := Some t }}]> (messages db);
                  deliveries := cancelled_rows id t <$> deliveries db }}).
Proof.
  intros Hwf Hl Hr Hp Hck. set (db' := db {{ messages := _; deliveries := _ }}).
  assert (Hd : deliveries db' = cancelled_rows id t <$> deliveries db) by done.
  pose proof (cancelled_rows_identity db id t Hwf) as Hg.
  assert (Hhas : forall d', has db' id d' <-> exists d, has db id d /\ d' = cancelled_rows id t d)
    by (intros d'; by apply has_fmap).
  destruct (wf_set_row db db' id r (r {{ row_cancelled_at := Some t }}) (cancelled_rows id t)) as [Hwf' Hlc]; try done.
  - intros d Hne. unfold cancelled_rows. by rewrite bool_decide_eq_false_2.
  - destruct (wf_message _ Hwf _ _ Hr) as (_ & [_ Hrf] & _). split_and!; [done..|by split|]. intros p Hp'. rewrite (phase_unique _ _ _ _ Hp' Hp).
    exists PCancelled. split; [|constructor].
    destruct Hp as ((Hh & Hc & Hhc) & [d0 Hd0] & t0 & Hda & Hall).
    split_and!; [done|by eexists|done| |].
    + exists (cancelled_rows id t d0). apply Hhas. by exists d0.
    + intros d' (d & Hdd & ->)%Hhas. destruct (Hall _ Hdd) as [Hs _]. destruct Hdd as (i & _ & Hid).
      unfold cancelled_rows. by rewrite bool_decide_eq_true_2, Hs.
  - split; [done| |done]. eapply (log_update db db' (cancelled_rows id t)); try done.
    intros i d Hi. unfold cancelled_rows. case_match eqn:Hc; [|split; [done|tauto]]. bool_hyps.
    split; [done|]. split; [done|].
    match goal with H : State d = _ |- _ => by rewrite H end.
Qed.

Lemma cancel_sound where_ nowArg db r db' :
  wf db -> wf_log db -> cancel_outcome where_ nowArg db r db' -> sound db db'.
Proof.
  intros Hwf Hl [e|Habs|id r0 status _ _ _ _ _|id r0 _ _ _ _|id r0 db'' _ Hr Hc Hh ->|id r0 db'' _ Hr Hs Hck ->];
    try by apply sound_refl.
  - by apply cancel_held_sound.
  - destruct (wf_message _ Hwf _ _ Hr) as (_ & _ & p & Hp).
    apply (scheduled_status db id r0 _ p) in Hs as [-> _]; [|done..|intros d; apply elem_of_deliveries_of].
    by apply cancel_scheduled_sound.
Qed.

(** ** Releasing *)

(** The messages one ReleaseDue takes: due, and not locked by another transaction. *)
Definition released (locked : gset string) (t limit : Z) (db : DB) : list string :=
  filter (fun id => id ∉ locked /\ is_Some (messages db !! id)) (releaseProbeSQL t limit db).

Definition release_if (ids : list string) (t : Z) (d : Delivery) : Delivery :=
  if bool_decide (MessageID d ∈ ids) && scheduled_due t d then release_row t d else d.

Lemma release_identity db ids t : wf db -> keeps_identity db (release_if ids t).
Proof.
  intros Hwf i d Hi. destruct (wf_delivery _ Hwf _ _ Hi) as (_ & _ & Hck & Hb & _). unfold release_if.
  case_match eqn:Hc; [|by split_and!]. unfold scheduled_due in Hc. bool_hyps. split_and!; try done.
  pose proof (delivery_check_counts _ Hck). eapply delivery_check_queued; try done; [simpl; by destruct d; simpl in *; lia|].
  change (DeadReason d = None). apply delivery_check_reason; [done|].
  match goal with H : State d = _ |- _ => by rewrite H end.
Qed.

(** A message is released whole: its deliveries share one due time. *)
Lemma release_phase db db' ids t id r p :
  phase_ok p r (has db id) -> deliveries db' = release_if ids t <$> deliveries db ->
  keeps_identity db (release_if ids t) ->
  exists p', phase_ok p' r (has db' id) /\ moves p p' /\
    (id ∈ ids -> p = PScheduled -> p' = PScheduled -> forall t0, row_deliver_at r = Some t0 -> t < t0).
Proof.
  intros Hp Hd Hg.
  assert (Hhas : forall d', has db' id d' <-> exists d, has db id d /\ d' = release_if ids t d)
    by (intros d'; by apply has_fmap).
  assert (Hsame : (forall d, has db id d -> release_if ids t d = d) -> phase_ok p r (has db' id)).
  { intros H. eapply phase_fmap; [done..|]. intros d Hdd. left. by apply H. }
  destruct (decide (p = PScheduled)) as [->|Hne].
  2:{ exists p. split_and!; [|constructor|done]. apply Hsame. intros d Hdd. unfold release_if.
      case_match eqn:Hc; [|done]. unfold scheduled_due in Hc. bool_hyps.
      match goal with H : State d = StateScheduled |- _ => rename H into Hs end.
      destruct p; try done; simpl in Hp.
      - destruct Hp as (_ & _ & _ & Hno). by destruct (Hno d).
      - destruct Hp as (_ & _ & _ & Hno). by destruct (Hno d).
      - destruct Hp as (_ & _ & _ & _ & Hall). apply Hall in Hdd. rewrite Hs in Hdd. done.
      - destruct Hp as (_ & _ & Hall). apply Hall in Hdd. rewrite Hs in Hdd. by destruct Hdd as [|[|]]. }
  destruct Hp as (Hun & [d0 Hd0] & t0 & Hda & Hall).
  assert (Hif : forall d, has db id d ->
    release_if ids t d = if bool_decide (id ∈ ids) && (t0 <=? t) then release_row t d else d).
  { intros d Hdd. destruct (Hall _ Hdd) as [Hs Ht]. unfold release_if, scheduled_due. rewrite Hs, Ht.
    destruct Hdd as (_ & _ & ->). done. }
  destruct (bool_decide (id ∈ ids) && (t0 <=? t)) eqn:Hc.
  - exists PActive. split_and!; [|constructor|done]. split_and!; [apply Hun..| |].
    + eexists. apply Hhas. by exists d0.
    + intros d' (d & Hdd & ->)%Hhas. rewrite Hif by done. by left.
  - exists PScheduled. split_and!; [apply Hsame; by intros d ?%Hif|constructor|].
    intros Hin _ _ t1 Ht1. rewrite bool_decide_eq_true_2 in Hc by done. simpl in Hc. bool_hyps. congruence.
Qed.

Lemma release_sound (ids : list string) t db :
  wf db -> wf_log db ->
  sound db (update_deliveries (fun d => bool_decide (MessageID d ∈ ids) && scheduled_due t d) (release_row t) db).
Proof.
  intros Hwf Hl. set (db' := update_deliveries _ _ _).
  assert (Hd : deliveries db' = release_if ids t <$> deliveries db) by done.
  pose proof (release_identity db ids t Hwf) as Hg.
  destruct (wf_update db db' (release_if ids t)) as [Hwf' Hlc]; try done.
  - intros id r Hr. exists r. split; [done|]. apply row_moves_stay; [done..|]. intros p Hp.
    destruct (release_phase db db' ids t id r p Hp Hd Hg) as (p' & ? & ? & _). by exists p'.
  - split; [done| |done]. eapply (log_update db db' (release_if ids t)); try done.
    intros i d Hi. unfold release_if, scheduled_due. case_match eqn:Hc; [|split; [done|tauto]]. bool_hyps.
    split; [done|]. split; [done|]. match goal with H : State d = _ |- _ => by rewrite H end.
Qed.

(** ** Replacing *)

Lemma update_content_ok id e p dj db u db' r : messages db !! id = Some r ->
  update_content id e p dj db = (Ok u, db') ->
  exists content, envelope_row e p dj 0 None = Some content /\ message_check (with_content r content) = true /\
    db' = db {{ messages := <[id := with_content r content]> (messages db) }}.
Proof.
  intros Hr. unfold update_content. rewrite Hr. destruct (envelope_row _ _ _ _ _) as [content|]; [|done].
  case_match eqn:Hck; [done|]. intros [= _ <-]. bool_hyps. by exists content.
Qed.

(** What a replace leaves: the message found settled and untouched, or its content
    and deliveries swapped under the same id, key and creation time. *)
Inductive replace_outcome (e : Envelope) (targets : list DeliveryTarget) (nowArg : Z) (db : DB) :
    result (StoredMessage * bool) -> DB -> Prop :=
  | replace_failed err : replace_outcome e targets nowArg db (Err err) db
  | replace_settled m id r :
      by_key (AppID e) (IdempotencyKey e) db = Some id -> reads db id r m ->
      DeriveStatus (Deliveries m) (StoredMessage_State m) <> StatusScheduled ->
      replace_outcome e targets nowArg db (Ok (m, false)) db
  | replace_done m id r content db1 db2 :
      by_key (AppID e) (IdempotencyKey e) db = Some id -> messages db !! id = Some r ->
      phase_ok PScheduled r (has db id) -> targets <> [] ->
      envelope_row (e {{ DeliverAt := (replace_schedule (DeliverAt e) nowArg).2 }}) (Payload e)
        (json_display (Display_ e)) 0 None = Some content ->
      message_check (with_content r content) = true ->
      db1 = delete_deliveries (fun d => bool_decide (MessageID d = id))
              (db {{ messages := <[id := with_content r content]> (messages db) }}) ->
      insertDeliveries id targets (replace_schedule (DeliverAt e) nowArg).1 db1 = (Ok tt, db2) ->
      (exists id' r', by_id id db2 = Some id' /\ reads db2 id' r' m) ->
      replace_outcome e targets nowArg db (Ok (m, true)) db2.

Lemma replace_content_ok id e targets sch p dj db m b db' r : messages db !! id = Some r ->
  replace_content id e targets sch p dj db = (Ok (m, b), db') ->
  b = true /\ exists content, envelope_row e p dj 0 None = Some content /\
    message_check (with_content r content) = true /\
    insertDeliveries id targets sch (delete_deliveries (fun d => bool_decide (MessageID d = id))
      (db {{ messages := <[id := with_content r content]> (messages db) }})) = (Ok tt, db') /\
    exists id' r', by_id id db' = Some id' /\ reads db' id' r' m.
Proof.
  intros Hr. unfold replace_content. intros ([] & db1 & Hu & H)%m_bind_ok.
  apply (update_content_ok _ _ _ _ _ _ _ _ Hr) in Hu as (content & Hrow & Hck & ->).
  apply m_bind_ok in H as ([] & db2 & [= <-] & H). apply m_bind_ok in H as ([] & db3 & Hins & H).
  apply m_bind_ok in H as (m' & db4 & Hq & [= <- <- <-]). apply queryMessage_ok in Hq as (-> & id' & r' & Hw & Hrd).
  split; [done|]. exists content. split_and!; [done..|]. by exists id', r'.
Qed.

Lemma ReplaceScheduledMessage_outcome e targets nowArg db r db' : wf db ->
  ReplaceScheduledMessage e targets nowArg db = (r, db') -> replace_outcome e targets nowArg db r db'.
Proof.
  intros Hwf. unfold ReplaceScheduledMessage.
  destruct (Z.eqb_spec (Z.of_nat (length targets)) 0) as [_|Hne]; [intros [= <- <-]; constructor|].
  case_match; [intros [= <- <-]; constructor|].
  unfold mbind at 1, m_bind at 1, m_lift, encodeDisplay. fold (json_display (Display_ e)).
  rewrite (surjective_pairing (replace_schedule (DeliverAt e) nowArg)).
  intros [(err & -> & ->)|([m b] & -> & Hrun)]%WithTx_cases; [constructor|].
  apply m_bind_ok in Hrun as (found & db1 & [= <- <-] & Hrun).
  destruct (by_key _ _ db) as [id|] eqn:Hk; [|done].
  apply m_bind_ok in Hrun as (cur & db1 & Hq & Hrun). apply queryMessage_ok in Hq as (-> & id' & r & Hw & Hrd).
  pose proof Hk as (row & Hrow & _)%by_key_Some. destruct (wf_message _ Hwf _ _ Hrow) as (Hid & _ & p & Hp).
  apply by_id_Some in Hw as ->. rewrite Hid in Hrd.
  assert (r = row) as -> by (destruct Hrd; congruence).
  destruct (String.eqb_spec (DeriveStatus (Deliveries cur) (StoredMessage_State cur)) StatusScheduled) as [Hs|Hs];
    simpl in Hrun; [|injection Hrun as <- <- <-; by eapply replace_settled].
  rewrite (reads_state _ _ _ _ Hrd) in Hs.
  apply (scheduled_status db id row _ p) in Hs as [-> _]; [|done..|intros d; by apply (reads_deliveries _ _ _ _ _ Hrd)].
  apply (replace_content_ok _ _ _ _ _ _ _ _ _ _ _ Hrow) in Hrun as (-> & content & Hc & Hck & Hins & Hread).
  eapply replace_done; try done. by intros ->.
Qed.

Lemma replace_phase e nowArg :
  exists p, (p = PScheduled \/ p = PActive) /\
    schedule_phase (e {{ DeliverAt := (replace_schedule (DeliverAt e) nowArg).2 }})
      (replace_schedule (DeliverAt e) nowArg).1 p.
Proof.
  unfold replace_schedule. destruct (DeliverAt e) as [t|]; [destruct (time.After t nowArg)|].
  - exists PScheduled. split; [by left|]. split; [done|]. by exists t.
  - exists PActive. split; [by right|done].
  - exists PActive. split; [by right|done].
Qed.

Lemma replace_sound e targets nowArg db r db' :
  wf db -> wf_log db -> replace_outcome e targets nowArg db r db' -> sound db db'.
Proof.
  intros Hwf Hl [err|m id r0 _ _ _|m id r0 content db1 db2 Hk Hr Hp Hne Hrow Hck Hdb1 Hins _]; [by apply sound_refl..|].
  destruct (replace_phase e nowArg) as (p & Hpp & Hsch).
  apply envelope_row_ok in Hrow as (_ & _ & _ & Hda & _).
  assert (Hd1 : forall i d, deliveries db1 !! i = Some d <-> deliveries db !! i = Some d /\ MessageID d <> id).
  { intros i d. subst db1. by rewrite lookup_delete_deliveries, bool_decide_eq_false. }
  assert (Hn1 : next_delivery_id db1 = next_delivery_id db) by by subst db1.
  assert (Hf : fresh_ids db1).
  { intros i d [Hi _]%Hd1. rewrite Hn1. apply (wf_delivery _ Hwf _ _ Hi). }
  assert (Hm1 : messages db1 = <[id := with_content r0 content]> (messages db)) by by subst db1.
  apply insertDeliveries_ok in Hins as [Hins Hfresh]; [|done].
  set (rows := new_rows _ _ _ _ _) in *.
  assert (Hrows : Forall (new_row id) rows) by by eapply new_rows_new, schedule_phase_state.
  destruct (touches_inserted id rows db db1 db2) as [Ht Hhas]; try done.
  { intros id' Hne'. by rewrite Hm1, lookup_insert_ne. }
  destruct (wf_message _ Hwf _ _ Hr) as (Hid & [_ Hrf] & _). pose proof Hp as (Hun & _).
  assert (Hok : row_ok (with_content r0 content)) by by split.
  assert (Hp' : phase_ok p (with_content r0 content) (has db2 id)).
  { eapply phase_ok_ext; [intros d; symmetry; apply Hhas|]. by eapply new_rows_phase. }
  destruct (wf_touch id (with_content r0 content) db db2) as [Hwf' Hlc]; try done.
  - by rewrite (ins_messages _ _ _ _ Hins), Hm1, lookup_insert_eq.
  - intros id' r' Hr' Hsame. by apply (wf_key _ Hwf id' id r' r0).
  - exists p. split; [done|]. intros r' Hr'. replace r' with r0 by congruence. split_and!; [done..|].
    intros q Hq. rewrite (phase_unique _ _ _ _ Hq Hp). exists p. split; [done|].
    destruct Hpp as [-> | ->]; constructor.
  - split; [done| |done]. eapply (log_inserted id rows db1); try done.
    + subst db1. apply log_delete. by destruct Hl; split.
    + intros d (? & _)%new_rows_elem. lia.
Qed.

(** ** The step relation *)

Lemma environment_sound t ids db : wf db -> wf_log db -> sound db (environment t ids db).
Proof.
  intros Hwf Hl. set (db' := environment t ids db).
  set (g := fun d => if match DestinationID d with Some i => negb (bool_decide (i ∈ ids)) | None => false end
                     then d {{ DestinationID := None }} else d).
  assert (Hd : deliveries db' = g <$> deliveries db) by done.
  assert (Hst : forall d, State (g d) = State d /\ AttemptCount (g d) = AttemptCount d /\
    NextAttemptAt (g d) = NextAttemptAt d /\ MessageID (g d) = MessageID d)
    by (intros d; unfold g; by case_match).
  assert (Hg : keeps_identity db g).
  { intros i d Hi. destruct (wf_delivery _ Hwf _ _ Hi) as (_ & _ & ? & ? & _). unfold g. by case_match; split_and!. }
  assert (Hhas : forall id d', has db' id d' <-> exists d, has db id d /\ d' = g d)
    by (intros id d'; by apply has_fmap).
  destruct (wf_update db db' g) as [Hwf' Hlc]; try done.
  - intros id r Hr. exists r. split; [done|]. apply row_moves_stay; [done..|]. intros p Hp.
    exists p. split; [|constructor]. destruct p; simpl in *; setoid_rewrite Hhas.
    + destruct Hp as (? & ? & ? & Hno). split_and!; [done..|]. intros d' (d & ? & _). by apply (Hno d).
    + destruct Hp as (? & ? & ? & Hno). split_and!; [done..|]. intros d' (d & ? & _). by apply (Hno d).
    + destruct Hp as (? & [d0 ?] & t0 & ? & Hall). split_and!; [done|by eauto|]. exists t0. split; [done|].
      intros d' (d & Hdd & ->). destruct (Hst d) as (-> & _ & -> & _). by apply Hall.
    + destruct Hp as (? & ? & ? & [d0 ?] & Hall). split_and!; [done..|by eauto|].
      intros d' (d & Hdd & ->). destruct (Hst d) as (-> & _). by apply Hall.
    + destruct Hp as (? & [d0 ?] & Hall). split_and!; [done|by eauto|].
      intros d' (d & Hdd & ->). destruct (Hst d) as (-> & _). by apply Hall.
  - split; [done| |done]. eapply (log_update db db' g); try done.
    intros i d _. destruct (Hst d) as (-> & -> & _). split; [done|tauto].
Qed.
End reach.

(** Every operation of the store but those of the queue's workers, with the caps
    the service is configured with. Operations on the outside of a transaction
    interleave as steps, and so do the two halves of a retention statement. *)
Inductive client_step `{Pg} (scheduledCaps : ScheduledCaps) (heldCaps : HeldCaps) (db : DB) : DB -> Prop :=
  | step_InsertMessage uuid e targets : uuid_text uuid = uuid ->
      client_step scheduledCaps heldCaps db (InsertMessage no_gap uuid e targets db).2
  | step_InsertScheduledMessage uuid e targets : uuid_text uuid = uuid ->
      client_step scheduledCaps heldCaps db (InsertScheduledMessage no_gap uuid e targets scheduledCaps db).2
  | step_InsertHeldMessage uuid e nowArg : uuid_text uuid = uuid ->
      client_step scheduledCaps heldCaps db (InsertHeldMessage no_gap uuid e heldCaps nowArg db).2
  | step_Replay i nowArg : client_step scheduledCaps heldCaps db (Replay i nowArg db).2
  | step_ReleaseDue locked nowArg limit : client_step scheduledCaps heldCaps db (ReleaseDue locked nowArg limit db).2
  | step_Replace e targets nowArg :
      client_step scheduledCaps heldCaps db (ReplaceScheduledMessage e targets nowArg db).2
  | step_CancelMessage id appID nowArg : client_step scheduledCaps heldCaps db (CancelMessage id appID nowArg db).2
  | step_AdminCancelMessage id nowArg : client_step scheduledCaps heldCaps db (AdminCancelMessage id nowArg db).2
  | step_CancelMessageByKey a k nowArg : client_step scheduledCaps heldCaps db (CancelMessageByKey a k nowArg db).2
  | step_choose_expired stmt cutoff batchSize : sweeping db !! stmt = None ->
      client_step scheduledCaps heldCaps db (choose_expired stmt cutoff batchSize db)
  | step_delete_chosen stmt : client_step scheduledCaps heldCaps db (delete_chosen stmt db).2
  | step_DeleteExpiredHeld locked cutoff batchSize :
      client_step scheduledCaps heldCaps db (deleteExpiredHeldSQL locked cutoff batchSize db).2
  | step_teardown appID : client_step scheduledCaps heldCaps db (teardown_held appID db).2
  | step_environment t ids : client_step scheduledCaps heldCaps db (environment t ids db).

(** Every operation of the store. *)
Inductive step `{Pg} (scheduledCaps : ScheduledCaps) (heldCaps : HeldCaps) (db : DB) : DB -> Prop :=
  | step_ClaimDue locked nowArg lease : step scheduledCaps heldCaps db (ClaimDue locked nowArg lease db).2
  | step_RecordAttempt result : step scheduledCaps heldCaps db (RecordAttempt result db).2
  | step_client db' : client_step scheduledCaps heldCaps db db' -> step scheduledCaps heldCaps db db'.

Definition empty_db `{Pg} : DB :=
  {| messages := ∅; deliveries := ∅; attempts := ∅; destination_ids := ∅; next_delivery_id := 1;
     next_attempt_id := 1; now := timestamptz 0; sweeping := ∅ |}.

Definition reachable `{Pg} scheduledCaps heldCaps : DB -> Prop := rtc (step scheduledCaps heldCaps) empty_db.

Section steps_sound.
Context `{Hpg : Pg}.
Context (scheduledCaps : ScheduledCaps) (heldCaps : HeldCaps).

Lemma InsertMessage_outcome uuid e targets db r db' :
  InsertMessage no_gap uuid e targets db = (r, db') -> insert_outcome uuid e targets pendingNow no_caps db r db'.
Proof. apply insertWithRetry_outcome. Qed.

Definition schedule_at (t : Z) : deliverySchedule :=
  {| schedule_state := StateScheduled; schedule_nextAttemptAt := Some t; schedule_budgetStartedAt := None |}.

Lemma InsertScheduledMessage_outcome uuid e targets caps db r db' :
  InsertScheduledMessage no_gap uuid e targets caps db = (r, db') ->
  (exists err, r = Err err /\ db' = db) \/
  (exists t, DeliverAt e = Some t /\ 1 <= PerApp caps /\ 1 <= Total caps /\
     insert_outcome uuid e targets (schedule_at t) caps db r db').
Proof.
  unfold InsertScheduledMessage. destruct (DeliverAt e) as [t|]; [|intros [= <- <-]; left; by eexists].
  destruct (Z.ltb_spec (PerApp caps) 1); [intros [= <- <-]; left; by eexists|].
  destruct (Z.ltb_spec (Total caps) 1); [intros [= <- <-]; left; by eexists|].
  intros Hrun%insertWithRetry_outcome. right. by exists t.
Qed.

Lemma scheduled_insert_sound uuid e targets caps db r db' :
  wf db -> wf_log db -> uuid_text uuid = uuid ->
  InsertScheduledMessage no_gap uuid e targets caps db = (r, db') -> sound db db'.
Proof.
  intros Hwf Hl Hid [(err & _ & ->)|(t & Ht & _ & _ & Hout)]%InsertScheduledMessage_outcome; [by apply sound_refl|].
  assert (Hs : schedule_phase e (schedule_at t) PScheduled) by (split; [done|by exists t]).
  apply (insert_sound _ _ _ _ _ PScheduled _ _ _ Hwf Hl Hid Hs Hout).
Qed.

(** What a retention statement has chosen is no part of the tables. *)
Lemma sound_sweeping chosen db : wf db -> wf_log db -> sound db (db {{ sweeping := chosen }}).
Proof. intros [] []. split; [by split..|]. exact (lifecycle_refl db). Qed.

Lemma delete_chosen_sound stmt db : wf db -> wf_log db -> sound db (delete_chosen stmt db).2.
Proof.
  intros Hwf Hl. destruct (sound_sweeping (delete stmt (sweeping db)) db Hwf Hl) as [Hwf1 Hl1 _].
  destruct (sound_delete (default ∅ (sweeping db !! stmt)) _ Hwf1 Hl1) as [Hwf2 Hl2 Hlc]. split; [done..|exact Hlc].
Qed.

Lemma client_step_sound db db' : wf db -> wf_log db -> client_step scheduledCaps heldCaps db db' -> sound db db'.
Proof.
  intros Hwf Hl Hstep.
  destruct Hstep as [uuid e ts Hid|uuid e ts Hid|uuid e t Hid|i t|l t limit|e ts t|id a t|id t|a k t|s c n Hs|s| | |].
  - destruct (InsertMessage _ _ _ _ db) as [r db'] eqn:E; simpl. apply InsertMessage_outcome in E.
    apply (insert_sound uuid e ts pendingNow no_caps PActive db r db' Hwf Hl Hid eq_refl E).
  - destruct (InsertScheduledMessage _ _ _ _ _ db) as [r db'] eqn:E; simpl. by eapply scheduled_insert_sound.
  - destruct (InsertHeldMessage _ _ _ _ _ db) as [r db'] eqn:E; simpl. by eapply held_sound, InsertHeldMessage_outcome.
  - destruct (Replay _ _ db) as [r db'] eqn:E; simpl. by eapply replay_sound, Replay_outcome.
  - unfold ReleaseDue. repeat case_match; [by apply sound_refl..|]. by apply release_sound.
  - destruct (ReplaceScheduledMessage _ _ _ db) as [r db'] eqn:E; simpl. by eapply replace_sound, ReplaceScheduledMessage_outcome.
  - unfold CancelMessage. case_match; [by apply sound_refl|].
    destruct (cancel _ _ db) as [r db'] eqn:E; simpl. by eapply cancel_sound, cancel_ok.
  - unfold AdminCancelMessage. case_match; [by apply sound_refl|].
    destruct (cancel _ _ db) as [r db'] eqn:E; simpl. by eapply cancel_sound, cancel_ok.
  - unfold CancelMessageByKey. destruct (cancel _ _ db) as [r db'] eqn:E; simpl. by eapply cancel_sound, cancel_ok.
  - by apply sound_sweeping.
  - by apply delete_chosen_sound.
  - by apply sound_delete.
  - by apply sound_delete.
  - by apply environment_sound.
Qed.

Lemma step_sound db db' : wf db -> wf_log db -> step scheduledCaps heldCaps db db' -> sound db db'.
Proof.
  intros Hwf Hl [l t lease|result|db1 Hstep]; [| |by apply client_step_sound].
  - destruct (ClaimDue _ _ _ db) as [r db1] eqn:E; simpl. by eapply claim_sound, ClaimDue_outcome.
  - destruct (RecordAttempt _ db) as [r db1] eqn:E; simpl. by eapply record_sound, RecordAttempt_outcome.
Qed.

Lemma empty_wf : wf empty_db /\ wf_log empty_db.
Proof. by split. Qed.

Lemma reachable_wf db : reachable scheduledCaps heldCaps db -> wf db /\ wf_log db.
Proof.
  intros H. pose proof empty_wf as He. unfold reachable in H.
  induction H as [|x y z Hxy Hyz IH]; [done|]. apply IH. destruct He as [Hwf Hl].
  destruct (step_sound _ _ Hwf Hl Hxy). done.
Qed.
End steps_sound.
