(* ===== verification/MessageProps.v ===== *)
(** * MessageProps

    Over every reachable state of the tables: how deliveries evolve, the life of a
    message, with a retention statement racing a replay, and the caps. *)

From S2P Require Import Prelude GoText Utf8 Idents Message MessageStore MessageInv MessageSteps MessageReach.
Open Scope Z_scope.
Import message message_pg.

(** ** Which messages appear and disappear *)

Section life.
Context `{Hpg : Pg}.
Context (scheduledCaps : ScheduledCaps) (heldCaps : HeldCaps).

Definition same_messages (db db' : DB) : Prop :=
  forall id, is_Some (messages db' !! id) <-> is_Some (messages db !! id).

Lemma same_messages_eq db db' : messages db' = messages db -> same_messages db db'.
Proof. intros H id. by rewrite H. Qed.

Lemma same_messages_insert db db' id r r' : messages db !! id = Some r ->
  messages db' = <[id := r']> (messages db) -> same_messages db db'.
Proof.
  intros Hr H id'. rewrite H, lookup_insert. case_decide; [subst; rewrite Hr|done]. split; by eexists.
Qed.

(** A message in the store, in phase [p]. *)
Definition in_phase (db : DB) (id : string) (p : phase) : Prop :=
  exists r, messages db !! id = Some r /\ phase_ok p r (has db id).

(** The abstract life of a message id: born held, scheduled or queued, moving
    forward, and forgotten once it is over (or while still held). *)
Inductive life : option phase -> option phase -> Prop :=
  | life_absent : life None None
  | life_born p : p = PHeld \/ p = PScheduled \/ p = PActive -> life None (Some p)
  | life_moves p p' : moves p p' -> life (Some p) (Some p')
  | life_forgotten p : p <> PScheduled -> life (Some p) None.

Definition phase_at (db : DB) (id : string) (o : option phase) : Prop :=
  match o with None => messages db !! id = None | Some p => in_phase db id p end.

Lemma in_phase_ex db id : wf db -> exists o, phase_at db id o.
Proof.
  intros Hwf. destruct (messages db !! id) as [r|] eqn:Hr; [|by exists None].
  destruct (wf_message _ Hwf _ _ Hr) as (_ & _ & p & Hp). exists (Some p). by exists r.
Qed.

Lemma in_phase_unique db id p p' : in_phase db id p -> in_phase db id p' -> p = p'.
Proof.
  intros (r & Hr & Hp) (r' & Hr' & Hp'). replace r' with r in * by congruence. by eapply phase_unique.
Qed.

(** What a step may add: one message, in the phase its insert stores it in. *)
Definition births (db db' : DB) : Prop :=
  forall id, messages db !! id = None -> is_Some (messages db' !! id) ->
    in_phase db' id PHeld \/ in_phase db' id PScheduled \/ in_phase db' id PActive.

(** A message with nothing scheduled or pending. *)
Definition removable (db : DB) (id : string) : Prop :=
  forall d, has db id d -> State d <> StatePending /\ State d <> StateScheduled.

(** A message a retention statement in flight has chosen. *)
Definition chosen (db : DB) (id : string) : Prop :=
  exists stmt ids, sweeping db !! stmt = Some ids /\ id ∈ ids.

(** What a step may remove. *)
Definition removals (db db' : DB) : Prop :=
  forall id, is_Some (messages db !! id) -> messages db' !! id = None -> removable db id \/ chosen db id.

Lemma same_messages_life db db' : same_messages db db' -> births db db' /\ removals db db'.
Proof.
  intros H. split; intros id.
  - intros Hn Hs%H. rewrite Hn in Hs. by destruct Hs.
  - intros Hs%H Hn. rewrite Hn in Hs. by destruct Hs.
Qed.

Lemma insert_births uuid e targets sch caps p db r db' :
  wf db -> p = PScheduled \/ p = PActive -> schedule_phase e sch p ->
  insert_outcome uuid e targets sch caps db r db' ->
  births db db' /\ removals db db' /\
  (forall id, messages db !! id = None -> is_Some (messages db' !! id) -> id = uuid /\ in_phase db' id p).
Proof.
  intros Hwf Hp Hsch [err|m id r0|m row db1 db2 Hrow Hck Hk Hu Hdb1 Hne Hins _ _].
  1,2: split; [|split]; [apply same_messages_life; by apply same_messages_eq..|];
    intros id' Hn [? Hs]; congruence.
  apply envelope_row_ok in Hrow as (_ & _ & _ & Hda & Hh & Hc & Hhc & _).
  assert (Hf : fresh_ids db1).
  { subst db1. intros i d Hi. simpl in *. apply (wf_delivery _ Hwf _ _ Hi). }
  apply insertDeliveries_ok in Hins as [Hins Hfresh]; [|done].
  assert (Hm : messages db2 = <[uuid := row]> (messages db)) by (rewrite (ins_messages _ _ _ _ Hins); by subst db1).
  assert (Hborn : forall id, messages db !! id = None -> is_Some (messages db2 !! id) -> id = uuid /\ in_phase db2 id p).
  { intros id Hn Hs. rewrite Hm, lookup_insert in Hs. case_decide as Hid; [|rewrite Hn in Hs; by destruct Hs].
    subst id. split; [done|]. exists row. rewrite Hm, lookup_insert_eq. split; [done|].
    eapply phase_ok_ext; [|by eapply (new_rows_phase e)].
    intros d. unfold has. setoid_rewrite (ins_rows _ _ _ _ Hins). split.
    - intros Hin. exists (ID d). split; [by right|]. by apply new_rows_elem in Hin as (_ & ? & _).
    - intros (i & [Hi|[? _]] & Hid); [|done]. subst db1. simpl in Hi.
      destruct (wf_delivery _ Hwf _ _ Hi) as (_ & _ & _ & _ & [? Hx]). congruence. }
  split_and!; [|intros id Hs Hn|done].
  - intros id Hn Hs. destruct (Hborn _ Hn Hs) as [_ Hin]. by destruct Hp as [-> | ->]; [right; left|right; right].
  - rewrite Hm, lookup_insert in Hn. case_decide; [done|]. rewrite Hn in Hs. by destruct Hs.
Qed.

Lemma held_births uuid e caps nowArg db r db' :
  wf db -> held_outcome uuid e caps nowArg db r db' ->
  births db db' /\ removals db db' /\
  (forall id, messages db !! id = None -> is_Some (messages db' !! id) -> id = uuid /\ in_phase db' id PHeld).
Proof.
  intros Hwf [err|m id r0|m row db1 Hrow Hck Hk Hu Hdb1 _ _ _].
  1,2: split; [|split]; [apply same_messages_life; by apply same_messages_eq..|];
    intros id' Hn [? Hs]; congruence.
  apply envelope_row_ok in Hrow as (_ & _ & _ & _ & Hh & Hc & Hhc & _).
  assert (Hm : messages db1 = <[uuid := row]> (messages db)) by by subst db1.
  assert (Hborn : forall id, messages db !! id = None -> is_Some (messages db1 !! id) ->
    id = uuid /\ in_phase db1 id PHeld).
  { intros id Hn Hs. rewrite Hm, lookup_insert in Hs. case_decide as Hid; [|rewrite Hn in Hs; by destruct Hs].
    subst id. split; [done|]. exists row. rewrite Hm, lookup_insert_eq. split; [done|].
    split_and!; [rewrite Hh; by eexists|done|done|].
    intros d (i & Hi & Hid). subst db1. simpl in Hi.
    destruct (wf_delivery _ Hwf _ _ Hi) as (_ & _ & _ & _ & [? Hx]). congruence. }
  split_and!; [|intros id Hs Hn|done].
  - intros id Hn Hs. destruct (Hborn _ Hn Hs) as [_ Hin]. by left.
  - rewrite Hm, lookup_insert in Hn. case_decide; [done|]. rewrite Hn in Hs. by destruct Hs.
Qed.

(** Deleting messages. *)
Lemma delete_messages_lookup (ids : gset string) db id :
  messages (delete_messages ids db) !! id = if decide (id ∈ ids) then None else messages db !! id.
Proof.
  simpl. destruct (decide (id ∈ ids)).
  - apply map_lookup_filter_None_2. right. naive_solver.
  - destruct (messages db !! id) eqn:E; [by apply map_lookup_filter_Some_2|by apply map_lookup_filter_None_2; left].
Qed.

Lemma delete_chosen_lookup stmt db id :
  messages (delete_chosen stmt db).2 !! id =
    if decide (id ∈ default ∅ (sweeping db !! stmt)) then None else messages db !! id.
Proof. exact (delete_messages_lookup (default ∅ (sweeping db !! stmt)) (db {{ sweeping := delete stmt (sweeping db) }}) id). Qed.

Lemma delete_life (ids : gset string) db db' :
  (forall id, messages db' !! id = if decide (id ∈ ids) then None else messages db !! id) ->
  (forall id, id ∈ ids -> removable db id \/ chosen db id) -> births db db' /\ removals db db'.
Proof.
  intros Hm Hids. split; intros id; rewrite Hm.
  - intros ->. by case_decide; intros [? ?].
  - intros [r Hr]. case_decide; [by auto|congruence].
Qed.

Lemma candidates_elem P key n db id : id ∈ candidates P key n db ->
  exists r, messages db !! id = Some r /\ P id r = true.
Proof.
  unfold candidates. rewrite elem_of_list_to_set, list_elem_of_fmap. intros ([id' r] & -> & Hin).
  apply take_elem in Hin. rewrite merge_sort_Permutation in Hin.
  apply list_elem_of_filter in Hin as [HP Hin%elem_of_map_to_list]. by exists r.
Qed.

Lemma expired_removable cutoff db id r : expired cutoff db id r = true -> removable db id.
Proof.
  unfold expired. intros H. bool_hyps. intros d Hd%elem_of_deliveries_of.
  match goal with H : forallb _ _ = true |- _ => rewrite forallb_forall in H; rename H into Hall end.
  specialize (Hall d (proj1 (list_elem_of_In _ _) Hd)). apply negb_true_iff in Hall.
  unfold one_of in Hall. simpl in Hall. bool_hyps. done.
Qed.

Lemma held_removable db id r : wf db -> messages db !! id = Some r -> is_Some (row_held_at r) -> removable db id.
Proof.
  intros Hwf Hr Hh d Hd. by destruct (proj2 (proj2 (proj2 (has_active_held _ _ _ Hwf Hr Hh))) d Hd).
Qed.

Lemma cancel_same_messages where_ nowArg db r db' : cancel_outcome where_ nowArg db r db' -> same_messages db db'.
Proof.
  intros [e|Habs|id r0 status _ _ _ _ _|id r0 _ _ _ _|id r0 db'' _ Hr Hc Hh ->|id r0 db'' _ Hr Hs Hck ->];
    try by apply same_messages_eq.
  - by eapply same_messages_insert.
  - by eapply same_messages_insert.
Qed.

(** What a step does to the set of messages, and to what the retention statements in
    flight have chosen. *)
Inductive step_kind (db : DB) : DB -> Prop :=
  | kind_insert uuid e targets r db' :
      insert_outcome uuid e targets pendingNow no_caps db r db' -> step_kind db db'
  | kind_insert_scheduled uuid e targets t r db' :
      DeliverAt e = Some t -> 1 <= PerApp scheduledCaps ->
      insert_outcome uuid e targets (schedule_at t) scheduledCaps db r db' -> step_kind db db'
  | kind_insert_held uuid e nowArg r db' :
      held_outcome uuid e heldCaps nowArg db r db' -> step_kind db db'
  | kind_same db' : same_messages db db' -> sweeping db' = sweeping db -> step_kind db db'
  | kind_choose stmt cutoff batchSize : step_kind db (choose_expired stmt cutoff batchSize db)
  | kind_delete ids : (forall id, id ∈ ids -> removable db id) -> step_kind db (delete_messages ids db)
  | kind_delete_chosen stmt : step_kind db (delete_chosen stmt db).2.

Lemma kind_eq db db' : messages db' = messages db -> sweeping db' = sweeping db -> step_kind db db'.
Proof. intros H. by apply kind_same, same_messages_eq. Qed.

Lemma cancel_kind where_ nowArg db r db' : cancel where_ nowArg db = (r, db') -> step_kind db db'.
Proof. intros H%cancel_ok. apply kind_same; [by eapply cancel_same_messages|]. by destruct H; subst. Qed.

Lemma replace_kind e ts t db r db' : wf db -> replace_outcome e ts t db r db' -> step_kind db db'.
Proof.
  intros Hwf [|m id r0|m id r0 content db1 db2 _ Hr _ _ _ _ -> Hins _]; [by apply kind_eq..|].
  apply insertDeliveries_ok in Hins as [Hins _].
  - apply kind_same; [|by rewrite (ins_sweeping _ _ _ _ Hins)].
    apply (same_messages_insert _ _ id r0 (with_content r0 content) Hr). by rewrite (ins_messages _ _ _ _ Hins).
  - intros i d [Hi _]%lookup_delete_deliveries. apply (wf_delivery _ Hwf _ _ Hi).
Qed.

Lemma client_kinds db db' : wf db -> client_step scheduledCaps heldCaps db db' -> step_kind db db'.
Proof.
  intros Hwf Hstep.
  destruct Hstep as [uuid e ts Hid|uuid e ts Hid|uuid e t Hid|i t|l t limit|e ts t|id a t|id t|a k t|s c n Hn|s|l c n|a|].
  - destruct (InsertMessage _ _ _ _ db) as [r db'] eqn:E; simpl. by eapply kind_insert, InsertMessage_outcome.
  - destruct (InsertScheduledMessage _ _ _ _ _ db) as [r db'] eqn:E; simpl.
    apply InsertScheduledMessage_outcome in E as [(? & _ & ->)|(t & Ht & ? & _ & Hout)]; [by apply kind_eq|].
    by eapply kind_insert_scheduled.
  - destruct (InsertHeldMessage _ _ _ _ _ db) as [r db'] eqn:E; simpl. by eapply kind_insert_held, InsertHeldMessage_outcome.
  - destruct (Replay _ _ db) as [r db'] eqn:E; simpl. by apply Replay_outcome in E as [|]; subst; apply kind_eq.
  - unfold ReleaseDue. by repeat case_match; apply kind_eq.
  - destruct (ReplaceScheduledMessage _ _ _ db) as [r db'] eqn:E; simpl. by eapply replace_kind, ReplaceScheduledMessage_outcome.
  - unfold CancelMessage. case_match; [by apply kind_eq|]. eapply cancel_kind, surjective_pairing.
  - unfold AdminCancelMessage. case_match; [by apply kind_eq|]. eapply cancel_kind, surjective_pairing.
  - unfold CancelMessageByKey. eapply cancel_kind, surjective_pairing.
  - by apply kind_choose.
  - by apply kind_delete_chosen.
  - apply kind_delete. intros id (r & Hr & He)%candidates_elem. bool_hyps. eapply held_removable; [done..|].
    unfold expired_held in *. by destruct (row_held_at r).
  - apply kind_delete. intros id Hid. apply elem_of_dom in Hid as [r [Hr [_ Hh]]%map_lookup_filter_Some].
    by eapply held_removable.
  - by apply kind_same.
Qed.

Lemma step_kinds db db' : wf db -> step scheduledCaps heldCaps db db' -> step_kind db db'.
Proof.
  intros Hwf [l t lease|result|db1 Hstep]; [| |by apply client_kinds].
  - destruct (ClaimDue _ _ _ db) as [r db1] eqn:E; simpl. by apply ClaimDue_outcome in E as [| |]; subst; try apply kind_eq.
  - destruct (RecordAttempt _ db) as [r db1] eqn:E; simpl. by apply RecordAttempt_outcome in E as [| |]; subst; apply kind_eq.
Qed.

Lemma step_life db db' : wf db -> step scheduledCaps heldCaps db db' -> births db db' /\ removals db db'.
Proof.
  intros Hwf [uuid e ts r db1 E|uuid e ts t r db1 Ht _ E|uuid e t r db1 E|db1 Hs _|s c n|ids Hids|s]%step_kinds; [..|done].
  - assert (Hs : schedule_phase e pendingNow PActive) by done.
    by destruct (insert_births _ _ _ _ _ PActive _ _ _ Hwf (or_intror eq_refl) Hs E) as (? & ? & _).
  - assert (Hs : schedule_phase e (schedule_at t) PScheduled) by (split; [done|by exists t]).
    by destruct (insert_births _ _ _ _ _ PScheduled _ _ _ Hwf (or_introl eq_refl) Hs E) as (? & ? & _).
  - by destruct (held_births _ _ _ _ _ _ _ Hwf E) as (? & ? & _).
  - by apply same_messages_life.
  - by apply same_messages_life.
  - apply (delete_life ids); [intros; apply delete_messages_lookup|]. intros id Hid. left. by apply Hids.
  - apply (delete_life (default ∅ (sweeping db !! s)));
      [intros; apply delete_chosen_lookup|].
    intros id Hid. right. destruct (sweeping db !! s) as [ids|] eqn:E; [by exists s, ids|]. by apply not_elem_of_empty in Hid.
Qed.

(** ** Counting *)

Lemma elem_of_scheduled_ids db id : wf db -> id ∈ scheduled_ids db <-> in_phase db id PScheduled.
Proof.
  intros Hwf. unfold scheduled_ids. rewrite elem_of_list_to_set, list_elem_of_fmap. split.
  - intros (d & -> & [Hs Hin]%list_elem_of_filter).
    apply list_elem_of_fmap in Hin as ([i d'] & -> & Hi%elem_of_map_to_list). simpl in *.
    destruct (wf_delivery _ Hwf _ _ Hi) as (_ & _ & _ & _ & [r Hr]).
    destruct (wf_message _ Hwf _ _ Hr) as (_ & _ & p & Hp). exists r. split; [done|].
    assert (Hd : has db (MessageID d') d') by by exists i.
    destruct p; simpl in Hp; [| |done| |].
    + destruct Hp as (_ & _ & _ & Hno). by destruct (Hno _ Hd).
    + destruct Hp as (_ & _ & _ & Hno). by destruct (Hno _ Hd).
    + destruct Hp as (_ & _ & _ & _ & Hall). specialize (Hall _ Hd). by rewrite Hs in Hall.
    + destruct Hp as (_ & _ & Hall). specialize (Hall _ Hd). rewrite Hs in Hall. by destruct Hall as [|[|]].
  - intros (r & Hr & _ & [d Hd] & t & _ & Hall). destruct (Hall _ Hd) as [Hs _]. pose proof Hd as (i & Hi & Hid).
    exists d. split; [done|]. apply list_elem_of_filter. split; [done|]. apply list_elem_of_fmap.
    exists (i, d). split; [done|]. by apply elem_of_map_to_list.
Qed.

Lemma held_in_phase db id r : wf db -> messages db !! id = Some r ->
  is_Some (row_held_at r) <-> in_phase db id PHeld.
Proof.
  intros Hwf Hr. split.
  - intros Hh. exists r. split; [done|]. by apply has_active_held.
  - intros (r' & Hr' & Hh & _). by replace r with r' by congruence.
Qed.

(** The messages of phase [p] do not grow where none is born in it: only [ids] are
    born, and [from] is how a message of that phase in [db'] was in [db]. *)
Definition shrinks (p : phase) (Q : string -> Prop) (db db' : DB) : Prop :=
  forall id r', messages db' !! id = Some r' -> Q (row_app_id r') -> in_phase db' id p ->
    exists r, messages db !! id = Some r /\ row_app_id r = row_app_id r' /\ in_phase db id p.

Lemma sound_shrinks p (Q : string -> Prop) db db' :
  p = PHeld \/ p = PScheduled -> wf db -> sound db db' ->
  (forall id r', messages db !! id = None -> messages db' !! id = Some r' -> Q (row_app_id r') -> ~ in_phase db' id p) ->
  shrinks p Q db db'.
Proof.
  intros Hp Hwf Hs Hborn id r' Hr' HQ Hin. destruct (messages db !! id) as [r|] eqn:Hr.
  - exists r. destruct (sound_lifecycle _ _ Hs _ _ _ Hr Hr') as ([Ha _] & _ & Hmv). split_and!; [done..|].
    destruct (wf_message _ Hwf _ _ Hr) as (_ & _ & q & Hq). destruct Hin as (r'' & Hr'' & Hpok).
    replace r'' with r' in * by congruence. specialize (Hmv _ _ Hq Hpok).
    exists r. split; [done|]. by destruct Hp as [-> | ->]; inversion Hmv; subst.
  - by destruct (Hborn id r').
Qed.

Lemma size_le (X Y : gset string) : X ⊆ Y -> Z.of_nat (size X) <= Z.of_nat (size Y).
Proof. intros H%subseteq_size. lia. Qed.

Lemma size_filter_le (P P' : string * MessageRow -> Prop) `{forall x, Decision (P x)} `{forall x, Decision (P' x)}
    (m m' : gmap string MessageRow) :
  (forall id r', m' !! id = Some r' -> P' (id, r') -> exists r, m !! id = Some r /\ P (id, r)) ->
  Z.of_nat (size (filter P' m')) <= Z.of_nat (size (filter P m)).
Proof.
  intros Hm. rewrite <- !(size_dom (D := gset string)). apply size_le. intros id.
  rewrite !elem_of_dom. intros [r' [Hr' HP]%map_lookup_filter_Some].
  destruct (Hm _ _ Hr' HP) as (r & Hr & HP'). exists r. by apply map_lookup_filter_Some.
Qed.

Lemma scheduled_app_le app db db' : wf db -> wf db' -> shrinks PScheduled (fun a => a = app) db db' ->
  countScheduledForApp app db' <= countScheduledForApp app db.
Proof.
  intros Hwf Hwf' Hs. unfold countScheduledForApp. apply size_filter_le. simpl.
  intros id r' Hr' [Ha Hin]. rewrite elem_of_scheduled_ids in Hin by done.
  destruct (Hs _ _ Hr' Ha Hin) as (r & Hr & He & Hp). exists r. rewrite elem_of_scheduled_ids by done.
  split_and!; [done|congruence|done].
Qed.

Lemma scheduled_total_le db db' : wf db -> wf db' -> shrinks PScheduled (fun _ => True) db db' ->
  countScheduledTotal db' <= countScheduledTotal db.
Proof.
  intros Hwf Hwf' Hs. apply size_le. intros id. rewrite !elem_of_scheduled_ids by done. intros Hin.
  pose proof Hin as (r' & Hr' & _). by destruct (Hs _ _ Hr' I Hin) as (r & _ & _ & ?).
Qed.

Lemma held_app_le app db db' : wf db -> wf db' -> shrinks PHeld (fun a => a = app) db db' ->
  countHeldForApp app db' <= countHeldForApp app db.
Proof.
  intros Hwf Hwf' Hs. unfold countHeldForApp. apply size_filter_le. simpl. intros id r' Hr' [Ha Hh].
  apply (held_in_phase db' id r' Hwf' Hr') in Hh. destruct (Hs _ _ Hr' Ha Hh) as (r & Hr & He & Hp).
  exists r. rewrite (held_in_phase db id r) by done. split_and!; [done|congruence|done].
Qed.

Lemma held_total_le db db' : wf db -> wf db' -> shrinks PHeld (fun _ => True) db db' ->
  countHeldTotal db' <= countHeldTotal db.
Proof.
  intros Hwf Hwf' Hs. unfold countHeldTotal. apply size_filter_le. simpl. intros id r' Hr' Hh.
  apply (held_in_phase db' id r' Hwf' Hr') in Hh. destruct (Hs _ _ Hr' I Hh) as (r & Hr & He & Hp).
  exists r. rewrite (held_in_phase db id r) by done. done.
Qed.

Record within_caps (db : DB) : Prop := {
  caps_scheduled : countScheduledTotal db <= Total scheduledCaps;
  caps_scheduled_app app : countScheduledForApp app db <= PerApp scheduledCaps;
  caps_held : countHeldTotal db <= Held_Total heldCaps;
  caps_held_app app : countHeldForApp app db <= Held_PerApp heldCaps
}.

(** A step in which nothing scheduled or held is born. *)
Lemma within_caps_shrinks db db' : wf db -> sound db db' -> within_caps db ->
  (forall id, messages db !! id = None -> is_Some (messages db' !! id) -> in_phase db' id PActive) ->
  within_caps db'.
Proof.
  intros Hwf Hs Hc Hborn. pose proof (sound_wf _ _ Hs) as Hwf'.
  assert (Hsh : forall p Q, p = PHeld \/ p = PScheduled -> shrinks p Q db db').
  { intros p Q Hp. apply sound_shrinks; [done..|]. intros id r' Hn Hr' _ Hin.
    pose proof (in_phase_unique _ _ _ _ (Hborn id Hn ltac:(by eexists)) Hin). subst p. by destruct Hp. }
  split; [|intros app| |intros app].
  - etrans; [apply (scheduled_total_le db db'); [done..|apply Hsh; by right]|apply Hc].
  - etrans; [apply (scheduled_app_le _ db db'); [done..|apply Hsh; by right]|apply Hc].
  - etrans; [apply (held_total_le db db'); [done..|apply Hsh; by left]|apply Hc].
  - etrans; [apply (held_app_le _ db db'); [done..|apply Hsh; by left]|apply Hc].
Qed.

(** An insert whose new message, of app [a], is in phase [p], with the counts
    of that phase checked afterwards. *)
Lemma within_caps_born p a db db' : wf db -> sound db db' -> within_caps db ->
  p = PHeld \/ p = PScheduled ->
  (forall id r', messages db !! id = None -> messages db' !! id = Some r' -> row_app_id r' = a /\ in_phase db' id p) ->
  (p = PScheduled -> countScheduledForApp a db' <= PerApp scheduledCaps /\ countScheduledTotal db' <= Total scheduledCaps) ->
  (p = PHeld -> countHeldForApp a db' <= Held_PerApp heldCaps /\ countHeldTotal db' <= Held_Total heldCaps) ->
  within_caps db'.
Proof.
  intros Hwf Hs Hc Hp Hborn Hsch Hheld. pose proof (sound_wf _ _ Hs) as Hwf'.
  assert (Hother : forall q (Q : string -> Prop), q = PHeld \/ q = PScheduled -> q <> p \/ ~ Q a -> shrinks q Q db db').
  { intros q Q Hq Hne. apply sound_shrinks; [done..|]. intros id r' Hn Hr' HQ Hin.
    destruct (Hborn id r' Hn Hr') as [Ha Hin']. pose proof (in_phase_unique _ _ _ _ Hin Hin').
    destruct Hne as [|Hne]; [done|]. apply Hne. by rewrite <- Ha. }
  split; [|intros app| |intros app].
  - destruct (decide (p = PScheduled)); [by apply Hsch|].
    etrans; [apply (scheduled_total_le db db'); [done..|apply Hother; [by right|by left]]|apply Hc].
  - destruct (decide (p = PScheduled)), (decide (app = a)) as [->|]; [by apply Hsch| | |];
      (etrans; [apply (scheduled_app_le _ db db'); [done..|apply Hother; [by right|auto]]|apply Hc]).
  - destruct (decide (p = PHeld)); [by apply Hheld|].
    etrans; [apply (held_total_le db db'); [done..|apply Hother; [by left|by left]]|apply Hc].
  - destruct (decide (p = PHeld)), (decide (app = a)) as [->|]; [by apply Hheld| | |];
      (etrans; [apply (held_app_le _ db db'); [done..|apply Hother; [by left|auto]]|apply Hc]).
Qed.

(** ** How deliveries evolve *)

(** Each delivery a step leaves comes from the one of its index by [change], or is
    new, of a message that was absent or still scheduled. *)
Record evolves (change : Delivery -> Delivery -> Prop) (db db' : DB) : Prop := {
  ev_next : next_delivery_id db <= next_delivery_id db';
  ev_row i d' : deliveries db' !! i = Some d' ->
    (exists d, deliveries db !! i = Some d /\ MessageID d' = MessageID d /\ change d d') \/
    (next_delivery_id db <= i /\ forall r, messages db !! MessageID d' = Some r -> in_phase db (MessageID d') PScheduled)
}.

(** What clients do to a delivery: one that is dead or scheduled may be queued or
    cancelled, any other keeps its state and time. *)
Definition kept (d d' : Delivery) : Prop :=
  (State d' = State d /\ NextAttemptAt d' = NextAttemptAt d) \/ State d = StateDead \/ State d = StateScheduled.

(** What any step does. *)
Definition altered (d d' : Delivery) : Prop :=
  State d' = State d \/ State d = StateDead \/ State d = StateScheduled \/ State d = StatePending.

Lemma kept_refl d : kept d d.
Proof. by left. Qed.

Lemma evolves_weaken (P Q : Delivery -> Delivery -> Prop) db db' :
  (forall d d', P d d' -> Q d d') -> evolves P db db' -> evolves Q db db'.
Proof. intros H [Hn Hr]. split; [done|]. intros i d' [(d & ? & ? & ?)|?]%Hr; [left; exists d; auto|by right]. Qed.

Lemma evolves_part (P : Delivery -> Delivery -> Prop) db db' : (forall d, P d d) -> next_delivery_id db' = next_delivery_id db ->
  (forall i d, deliveries db' !! i = Some d -> deliveries db !! i = Some d) -> evolves P db db'.
Proof. intros HP Hn Hd. split; [lia|]. intros i d ?%Hd. left. by exists d. Qed.

Lemma evolves_fmap (P : Delivery -> Delivery -> Prop) g db db' : next_delivery_id db' = next_delivery_id db ->
  deliveries db' = g <$> deliveries db -> (forall d, MessageID (g d) = MessageID d /\ P d (g d)) -> evolves P db db'.
Proof.
  intros Hn Hd Hg. split; [lia|]. intros i d'. rewrite Hd, lookup_fmap_Some. intros (d & <- & Hi).
  left. exists d. by destruct (Hg d).
Qed.

Lemma evolves_set (P : Delivery -> Delivery -> Prop) i d d1 db db' : (forall d, P d d) ->
  next_delivery_id db' = next_delivery_id db -> deliveries db' = <[i := d1]> (deliveries db) ->
  deliveries db !! i = Some d -> MessageID d1 = MessageID d -> P d d1 -> evolves P db db'.
Proof.
  intros HP Hn Hd Hi Hm Hp. split; [lia|]. intros j d'. rewrite Hd, lookup_insert_Some.
  intros [[<- <-]|[_ Hj]]; left; [by exists d|by exists d'].
Qed.

Lemma evolves_inserted id rows db db1 db2 :
  (forall i d, deliveries db1 !! i = Some d -> deliveries db !! i = Some d) ->
  next_delivery_id db1 = next_delivery_id db -> inserted id rows db1 db2 ->
  (forall d, d ∈ rows -> MessageID d = id /\ next_delivery_id db <= ID d) ->
  (forall r, messages db !! id = Some r -> in_phase db id PScheduled) -> evolves kept db db2.
Proof.
  intros Hd Hn Hins Hrows Hid. split; [rewrite (ins_next _ _ _ _ Hins); lia|].
  intros i d [Hi%Hd|[Hin <-]]%(ins_rows _ _ _ _ Hins); [left; exists d; auto using kept_refl|].
  right. destruct (Hrows _ Hin) as [-> ?]. done.
Qed.

Lemma insert_evolves uuid e targets sch caps db r db' : wf db ->
  insert_outcome uuid e targets sch caps db r db' -> evolves kept db db'.
Proof.
  intros Hwf [err|m id r0|m row db1 db2 _ _ _ Hu Hdb1 _ Hins _ _]; [by apply evolves_part; auto using kept_refl..|].
  assert (Hf : fresh_ids db1).
  { subst db1. intros i d Hi. simpl in *. apply (wf_delivery _ Hwf _ _ Hi). }
  apply insertDeliveries_ok in Hins as [Hins _]; [|done]. assert (Hn : next_delivery_id db1 = next_delivery_id db) by by subst.
  eapply (evolves_inserted uuid _ db db1); [by subst db1|done|done| |congruence].
  intros d (? & ? & _)%new_rows_elem. split; [done|lia].
Qed.

Lemma replace_evolves e targets nowArg db r db' : wf db ->
  replace_outcome e targets nowArg db r db' -> evolves kept db db'.
Proof.
  intros Hwf [err|m id r0|m id r0 content db1 db2 _ Hr Hp _ _ _ Hdb1 Hins _]; [by apply evolves_part; auto using kept_refl..|].
  assert (Hd : forall i d, deliveries db1 !! i = Some d -> deliveries db !! i = Some d).
  { intros i d. subst db1. by intros [? _]%lookup_delete_deliveries. }
  assert (Hn : next_delivery_id db1 = next_delivery_id db) by by subst.
  apply insertDeliveries_ok in Hins as [Hins _]; [|intros i d Hi%Hd; rewrite Hn; apply (wf_delivery _ Hwf _ _ Hi)].
  eapply (evolves_inserted id _ db db1); [done..| |intros r' _; by exists r0].
  intros d (? & ? & _)%new_rows_elem. split; [done|lia].
Qed.

Lemma replay_evolves i nowArg db r db' : wf db -> replay_outcome i nowArg db r db' -> evolves kept db db'.
Proof.
  intros Hwf [e|d row db1 Hi Hs _ ->]; [apply evolves_part; auto using kept_refl|].
  destruct (wf_delivery _ Hwf _ _ Hi) as [Hid _].
  eapply (evolves_set _ (ID d) d); [apply kept_refl|done|done|congruence|done|by right; left].
Qed.

Lemma cancel_evolves where_ nowArg db r db' : cancel where_ nowArg db = (r, db') -> evolves kept db db'.
Proof.
  intros [e|Habs|id r0 status|id r0|id r0 db1 _ _ _ _ ->|id r0 db1 _ _ _ _ ->]%cancel_ok;
    [by apply evolves_part; auto using kept_refl..|].
  apply (evolves_fmap _ (cancelled_rows id (timestamptz nowArg))); [done..|]. intros d. unfold cancelled_rows.
  case_match eqn:Hc; [|auto using kept_refl]. bool_hyps. split; [done|]. by right; right.
Qed.

Lemma delete_evolves ids db0 db : deliveries db0 = deliveries db -> next_delivery_id db0 = next_delivery_id db ->
  evolves kept db (delete_messages ids db0).
Proof.
  intros Hd Hn. apply evolves_part; [apply kept_refl|done|]. intros i d [Hi _]%lookup_delete_deliveries. by rewrite <- Hd.
Qed.

Lemma client_evolves db db' : wf db -> client_step scheduledCaps heldCaps db db' -> evolves kept db db'.
Proof.
  intros Hwf Hstep.
  destruct Hstep as [uuid e ts Hid|uuid e ts Hid|uuid e t Hid|i t|l t limit|e ts t|id a t|id t|a k t|s c n Hn|s|l c n|a|t ids].
  - eapply insert_evolves; [done|]. apply InsertMessage_outcome, surjective_pairing.
  - destruct (InsertScheduledMessage _ _ _ _ _ db) as [r db'] eqn:E; simpl.
    apply InsertScheduledMessage_outcome in E as [(? & _ & ->)|(t & Ht & ? & _ & Hout)]; [apply evolves_part; auto using kept_refl|].
    by eapply insert_evolves.
  - destruct (InsertHeldMessage _ _ _ _ _ db) as [r db'] eqn:E; simpl.
    by apply InsertHeldMessage_outcome in E as [| |]; subst; apply evolves_part; auto using kept_refl.
  - eapply replay_evolves; [done|]. apply Replay_outcome, surjective_pairing.
  - unfold ReleaseDue. repeat case_match; [by apply evolves_part; auto using kept_refl..|].
    eapply evolves_fmap; [done..|]. intros d. cbv beta. case_match eqn:Hc; [|auto using kept_refl].
    unfold scheduled_due in Hc. bool_hyps. split; [done|]. by right; right.
  - eapply replace_evolves; [done|]. apply ReplaceScheduledMessage_outcome; [done|apply surjective_pairing].
  - unfold CancelMessage. case_match; [apply evolves_part; auto using kept_refl|]. eapply cancel_evolves, surjective_pairing.
  - unfold AdminCancelMessage. case_match; [apply evolves_part; auto using kept_refl|]. eapply cancel_evolves, surjective_pairing.
  - unfold CancelMessageByKey. eapply cancel_evolves, surjective_pairing.
  - apply evolves_part; auto using kept_refl.
  - by apply delete_evolves.
  - by apply delete_evolves.
  - by apply delete_evolves.
  - eapply evolves_fmap; [done..|]. intros d. cbv beta. case_match; split; done || by left.
Qed.

Lemma step_evolves db db' : wf db -> step scheduledCaps heldCaps db db' -> evolves altered db db'.
Proof.
  intros Hwf [l t lease|result|db1 Hstep].
  - destruct (ClaimDue _ _ _ db) as [r db1] eqn:E; simpl.
    apply ClaimDue_outcome in E as [| |d rest leased m r0 db2 _ _ Hi -> -> _ _]; [by apply evolves_part; auto; by left..| |done].
    eapply (evolves_set _ (ID d) d); [by left|done..|by left].
  - destruct (RecordAttempt _ db) as [r db1] eqn:E; simpl.
    apply RecordAttempt_outcome in E as [| |d db2 _ Hi Hs _ _ ->]; [by apply evolves_part; auto; by left..|].
    destruct (wf_delivery _ Hwf _ _ Hi) as [Hid _].
    eapply (evolves_set _ (ID d) d); [by left|done|done|congruence|done|by right; right; right].
  - eapply evolves_weaken; [|by apply client_evolves]. intros d d' [[? _]|[?|?]]; [by left|by right; left|by right; right; left].
Qed.

(** ** What a retention statement has chosen *)

(** A race between a retention statement and a replay: a moment [db0] of the run at
    which the message was past its retention and nothing of it was pending or
    scheduled; its deliveries are those it had then, in the same states but for
    the dead ones, which may have been replayed since. *)
Definition raced (db : DB) (id : string) : Prop :=
  exists db0 cutoff r0, reachable scheduledCaps heldCaps db0 /\ rtc (step scheduledCaps heldCaps) db0 db /\
    messages db0 !! id = Some r0 /\ expired (timestamptz cutoff) db0 id r0 = true /\ removable db0 id /\
    forall i d, deliveries db !! i = Some d -> MessageID d = id ->
      exists d0, deliveries db0 !! i = Some d0 /\ MessageID d0 = id /\ (State d = State d0 \/ State d0 = StateDead).

(** What every statement in flight has chosen. *)
Definition in_flight (db : DB) (id : string) : Prop :=
  is_Some (messages db !! id) /\ ~ in_phase db id PScheduled /\ raced db id.

Lemma removable_not_scheduled db id : removable db id -> ~ in_phase db id PScheduled.
Proof. intros Hrem (r & _ & _ & [d Hd] & t & _ & Hall). destruct (Hall _ Hd) as [Hs _]. by destruct (Hrem d Hd). Qed.

Lemma in_flight_start db cutoff id r : reachable scheduledCaps heldCaps db ->
  messages db !! id = Some r -> expired (timestamptz cutoff) db id r = true -> in_flight db id.
Proof.
  intros Hr Hm He. pose proof (expired_removable _ _ _ _ He) as Hrem.
  split_and!; [by eexists|by apply removable_not_scheduled|]. exists db, cutoff, r.
  split_and!; [done|constructor|done..|]. intros i d Hi Hid. exists d. by split_and!; [..|left].
Qed.

Lemma in_flight_step db db' id : reachable scheduledCaps heldCaps db -> step scheduledCaps heldCaps db db' ->
  in_flight db id -> is_Some (messages db' !! id) -> in_flight db' id.
Proof.
  intros Hr Hstep ([r Hm] & Hph & db0 & cutoff & r0 & Hr0 & Hrun & Hm0 & He & Hrem & Hds) [r' Hm'].
  pose proof (reachable_wf _ _ _ Hr) as [Hwf Hl]. destruct (step_sound _ _ _ _ Hwf Hl Hstep) as [Hwf' _ Hlc].
  split_and!; [by eexists| |].
  - intros (r1 & Hr1 & Hp'). apply Hph. destruct (wf_message _ Hwf _ _ Hm) as (_ & _ & p & Hp).
    destruct (Hlc _ _ _ Hm Hr1) as (_ & _ & Hmv). specialize (Hmv _ _ Hp Hp'). inversion Hmv; subst. by exists r.
  - exists db0, cutoff, r0. split_and!; [done|by eapply rtc_r|done..|]. intros i d' Hi' Hid.
    destruct (ev_row _ _ _ (step_evolves _ _ Hwf Hstep) _ _ Hi') as [(d & Hi & Hmid & Hch)|[_ Hnew]].
    + destruct (Hds i d Hi ltac:(congruence)) as (d0 & Hd0 & Hid0 & Hst). exists d0. split_and!; [done..|].
      destruct (Hrem d0 ltac:(by exists i)) as [Hp Hs].
      destruct Hst as [Hst|]; [|by right]. destruct Hch as [->|[Hd|[Hd|Hd]]]; [by left|right|exfalso..]; congruence.
    + rewrite Hid in Hnew. by destruct Hph; eapply Hnew.
Qed.

Lemma insert_keeps uuid e targets sch caps db r db' : wf db -> insert_outcome uuid e targets sch caps db r db' ->
  sweeping db' = sweeping db /\ forall id, is_Some (messages db !! id) -> is_Some (messages db' !! id).
Proof.
  intros Hwf [| |m row db1 db2 _ _ _ _ Hdb1 _ Hins _ _]; [done..|].
  apply insertDeliveries_ok in Hins as [Hins _]; [|subst db1; intros i d Hi; apply (wf_delivery _ Hwf _ _ Hi)].
  rewrite (ins_sweeping _ _ _ _ Hins), (ins_messages _ _ _ _ Hins). subst db1. split; [done|].
  intros id Hs. simpl. apply lookup_insert_is_Some'. by right.
Qed.

(** A message chosen after a step was chosen before and is still there, or has just
    been chosen. *)
Lemma step_chosen db db' id : wf db -> step scheduledCaps heldCaps db db' -> chosen db' id ->
  (chosen db id /\ (is_Some (messages db !! id) -> is_Some (messages db' !! id))) \/
  (exists cutoff r, messages db' !! id = Some r /\ expired (timestamptz cutoff) db' id r = true).
Proof.
  intros Hwf [uuid e ts r db1 E|uuid e ts t r db1 _ _ E|uuid e t r db1 E|db1 Hs Hsw|s c n|ids _|s]%step_kinds (stmt & l & Hl & Hid); [..|done].
  - destruct (insert_keeps _ _ _ _ _ _ _ _ Hwf E) as [Hsw Hm]. left. split; [|by apply Hm]. exists stmt, l. by rewrite <- Hsw.
  - destruct (insert_keeps _ _ _ _ _ _ _ _ Hwf E) as [Hsw Hm]. left. split; [|by apply Hm]. exists stmt, l. by rewrite <- Hsw.
  - left. destruct E; subst; (split; [by exists stmt, l|]); [done..|].
    intros Hs. simpl. apply lookup_insert_is_Some'. by right.
  - left. split; [exists stmt, l; by rewrite <- Hsw|apply Hs].
  - simpl in Hl. apply lookup_insert_Some in Hl as [[_ <-]|[_ Hl]]; [|left; split; [by exists stmt, l|done]].
    apply candidates_elem in Hid as (r & Hr & He). right. exists c, r. done.
  - left. apply lookup_fmap_Some in Hl as (l0 & <- & Hl). apply elem_of_difference in Hid as [Hid Hni].
    split; [by exists stmt, l0|]. rewrite delete_messages_lookup. by case_decide.
  - left. apply lookup_fmap_Some in Hl as (l0 & <- & Hl). apply elem_of_difference in Hid as [Hid Hni].
    simpl in Hl. apply lookup_delete_Some in Hl as [_ Hl]. split; [by exists stmt, l0|]. rewrite delete_chosen_lookup. by case_decide.
Qed.

Lemma reachable_in_flight db : reachable scheduledCaps heldCaps db -> forall id, chosen db id -> in_flight db id.
Proof.
  apply (rtc_ind_r (fun db => forall id, chosen db id -> in_flight db id)).
  { intros id (stmt & ids & Hs & _). done. }
  intros db1 db2 Hrun Hstep IH id Hc. pose proof (reachable_wf _ _ _ Hrun) as [Hwf _].
  apply (step_chosen _ _ _ Hwf Hstep) in Hc as [[Hc Hkeep]|(cutoff & r & Hm & He)].
  - pose proof (IH _ Hc) as Hin. apply (in_flight_step db1); [done..|]. apply Hkeep, Hin.
  - eapply in_flight_start; [by eapply rtc_r|done..].
Qed.

(** C1: Refinement of the message store to the abstract life of a message: in every
    reachable state each operation takes each message id along the life cycle
    (born held, scheduled or queued; held or scheduled to cancelled; scheduled to
    queued; never back), keeping its key and creation time. A message is forgotten
    only when none of its deliveries is pending or scheduled, or, the race between
    a retention statement and a replay, when a statement in flight had chosen it at
    an earlier moment of the run at which it was past its retention and none of its
    deliveries was pending or scheduled: those it still has are in the states they
    had then, or were dead then. *)
Theorem store_refines_life db db' id :
  reachable scheduledCaps heldCaps db -> step scheduledCaps heldCaps db db' ->
  (exists o o', phase_at db id o /\ phase_at db' id o' /\ life o o') /\
  (forall r r', messages db !! id = Some r -> messages db' !! id = Some r' ->
     same_key r r' /\ row_created_at r' = row_created_at r) /\
  (is_Some (messages db !! id) -> messages db' !! id = None -> removable db id \/ (chosen db id /\ raced db id)).
Proof.
  intros Hreach Hstep. destruct (reachable_wf _ _ _ Hreach) as [Hwf Hl].
  destruct (step_sound _ _ _ _ Hwf Hl Hstep) as [Hwf' _ Hlc].
  destruct (step_life _ _ Hwf Hstep) as [Hb Hr].
  assert (Hgone : is_Some (messages db !! id) -> messages db' !! id = None ->
    (removable db id \/ (chosen db id /\ raced db id)) /\ ~ in_phase db id PScheduled).
  { intros Hs Hn. destruct (Hr id Hs Hn) as [Hrem|Hc]; [split; [by left|by apply removable_not_scheduled]|].
    destruct (reachable_in_flight _ Hreach _ Hc) as (_ & Hph & Hraced). split; [by right|done]. }
  split_and!; [|intros r r' H1 H2; by destruct (Hlc _ _ _ H1 H2) as (? & ? & _)|by apply Hgone].
  destruct (in_phase_ex db id Hwf) as [[p|] Ho], (in_phase_ex db' id Hwf') as [[p'|] Ho'].
  - exists (Some p), (Some p'). split_and!; [done..|]. constructor. destruct Ho as (r & H1 & Hp), Ho' as (r' & H2 & Hp').
    destruct (Hlc _ _ _ H1 H2) as (_ & _ & Hmv). by apply Hmv.
  - exists (Some p), None. split_and!; [done..|]. constructor. intros ->. pose proof Ho as (r & H1 & _).
    by destruct (proj2 (Hgone ltac:(by eexists) Ho')).
  - exists None, (Some p'). split_and!; [done..|]. constructor. pose proof Ho' as (r' & H2 & _).
    destruct (Hb id Ho ltac:(by eexists)) as [Hp|[Hp|Hp]]; rewrite (in_phase_unique _ _ _ _ Ho' Hp); auto.
  - exists None, None. split_and!; [done..|constructor].
Qed.

(** The app of a message born by an insert. *)
Lemma insert_born_app uuid e targets sch caps db r db' id r' :
  wf db -> insert_outcome uuid e targets sch caps db r db' ->
  messages db !! id = None -> messages db' !! id = Some r' -> row_app_id r' = AppID e.
Proof.
  intros Hwf [| |m row db1 db2 Hrow _ _ _ Hdb1 _ Hins _ _] Hn Hr'; [congruence..|].
  assert (Hf : fresh_ids db1).
  { subst db1. intros i d Hi. simpl in *. apply (wf_delivery _ Hwf _ _ Hi). }
  apply insertDeliveries_ok in Hins as [Hins _]; [|done]. rewrite (ins_messages _ _ _ _ Hins) in Hr'.
  subst db1. simpl in Hr'. apply lookup_insert_Some in Hr' as [[_ <-]|[_ ?]]; [|congruence].
  by apply envelope_row_ok in Hrow as (? & _).
Qed.

Lemma held_born_app uuid e caps nowArg db r db' id r' :
  held_outcome uuid e caps nowArg db r db' ->
  messages db !! id = None -> messages db' !! id = Some r' -> row_app_id r' = AppID e.
Proof.
  intros [| |m row db1 Hrow _ _ _ Hdb1 _ _ _] Hn Hr'; [congruence..|].
  subst db1. simpl in Hr'. apply lookup_insert_Some in Hr' as [[_ <-]|[_ ?]]; [|congruence].
  by apply envelope_row_ok in Hrow as (? & _).
Qed.

Lemma step_within_caps db db' : wf db -> wf_log db ->
  step scheduledCaps heldCaps db db' -> within_caps db -> within_caps db'.
Proof.
  intros Hwf Hl Hstep Hc. pose proof (step_sound _ _ _ _ Hwf Hl Hstep) as Hs. revert Hs.
  apply step_kinds in Hstep as [uuid e ts r db1 E|uuid e ts t r db1 Ht Hpos E|uuid e t r db1 E|db1 Hsame _|s c n|ids _|s];
    [..|done]; intros Hs.
  - apply (within_caps_shrinks db); [done..|]. intros id Hn Hsome.
    assert (Hsch : schedule_phase e pendingNow PActive) by done.
    destruct (insert_births _ _ _ _ _ PActive _ _ _ Hwf (or_intror eq_refl) Hsch E) as (_ & _ & Hb). by apply Hb.
  - assert (Hsch : schedule_phase e (schedule_at t) PScheduled) by (split; [done|by exists t]).
    destruct (insert_births _ _ _ _ _ PScheduled _ _ _ Hwf (or_introl eq_refl) Hsch E) as (_ & _ & Hb).
    pose proof E as Hout. destruct E as [| |m row db2 db1 _ _ _ _ _ _ _ Hcap _]; [done..|].
    eapply (within_caps_born PScheduled (AppID e) db); [done..|by right| |intros _; apply Hcap; lia|done].
    intros id r' Hn Hr'. split; [by eapply insert_born_app|]. by apply Hb.
  - destruct (held_births _ _ _ _ _ _ _ Hwf E) as (_ & _ & Hb).
    pose proof E as Hout. destruct E as [| |m row db1 _ _ _ _ _ Ha Htot _]; [done..|].
    eapply (within_caps_born PHeld (AppID e) db); [done..|by left| |done|done].
    intros id r' Hn Hr'. split; [by eapply held_born_app|]. by apply Hb.
  - apply (within_caps_shrinks db); [done..|]. intros id Hn Hsome%Hsame. rewrite Hn in Hsome. by destruct Hsome.
  - apply (within_caps_shrinks db); [done..|]. intros id Hn Hsome.
    change (is_Some (messages db !! id)) in Hsome. rewrite Hn in Hsome. by destruct Hsome.
  - apply (within_caps_shrinks db); [done..|]. intros id Hn [? Hr].
    rewrite delete_messages_lookup in Hr. case_decide; congruence.
  - apply (within_caps_shrinks db); [done..|]. intros id Hn [? Hr].
    rewrite delete_chosen_lookup in Hr. case_decide; congruence.
Qed.

(** C29: The caps are never exceeded: in every reachable state the scheduled messages
    of all apps together and of each app are within their caps, and so are the
    held ones, whatever the order of submits, replaces, releases and cancels. *)
Theorem caps_never_exceeded db :
  0 <= PerApp scheduledCaps -> 0 <= Total scheduledCaps -> 0 <= Held_PerApp heldCaps -> 0 <= Held_Total heldCaps ->
  reachable scheduledCaps heldCaps db -> within_caps db.
Proof.
  intros H1 H2 H3 H4 Hr. unfold reachable in Hr.
  assert (Hinit : (wf empty_db /\ wf_log empty_db) /\ within_caps empty_db)
    by (split; [apply empty_wf|by split]).
  revert Hinit. induction Hr as [|x y z Hxy Hyz IH]; [tauto|]. intros [[Hwf Hl] Hc]. apply IH.
  pose proof (step_sound _ _ _ _ Hwf Hl Hxy) as Hs.
  split; [by destruct Hs|by eapply step_within_caps].
Qed.
End life.
