(* ===== verification/MessageQueueProps.v ===== *)
(** * MessageQueueProps

    What each operation of the message store returns and does, from every
    reachable state: submits, cancels, replaces, releases, claims, the attempt log
    and retention. *)

From S2P Require Import Prelude GoText Utf8 Idents Message MessageStore MessageInv MessageSteps MessageReach MessageProps.
Open Scope Z_scope.
Import message message_pg.

Section ops.
Context `{Hpg : Pg}.

(** ** Submits *)

Lemma queryMessage_run w db id r m : w db = Some id -> reads db id r m -> queryMessage w db = (Ok m, db).
Proof.
  intros Hw (Hr & m0 & Hs & ->). unfold queryMessage, queryMessageHead, mbind, m_bind. rewrite Hw, Hr, Hs.
  unfold m_gets. by rewrite (scanMessage_ID _ _ _ Hs).
Qed.

Lemma insert_message_conflict op uuid e p dj held db row :
  envelope_row e p dj (now db) held = Some row -> message_check row = true ->
  is_Some (by_key (AppID e) (IdempotencyKey e) db) ->
  insert_message op uuid e p dj held db = (Ok None, db).
Proof.
  intros Hrow Hck Hk. unfold insert_message. rewrite Hrow, Hck. simpl. by rewrite bool_decide_eq_true_2.
Qed.

(** A repeat of a stored key, as any insert runs it. *)
Lemma insert_repeat uuid e targets sch caps db row id r m :
  targets <> [] -> envelope_row e (Payload e) (json_display (Display_ e)) (now db) None = Some row ->
  message_check row = true -> by_key (AppID e) (IdempotencyKey e) db = Some id -> reads db id r m ->
  insertWithRetry no_gap uuid e targets sch caps db = (Ok (m, true), db).
Proof.
  intros Hne Hrow Hck Hk Hr. unfold insertWithRetry.
  destruct (Z.eqb_spec (Z.of_nat (length targets)) 0); [by destruct targets|]. cbv zeta.
  unfold mbind at 1, m_bind at 1, m_lift, encodeDisplay. fold (json_display (Display_ e)).
  unfold maxInsertAttempts, retry_insert, insertOnce, insert_or_select.
  rewrite (insert_message_conflict _ _ _ _ _ _ _ row) by eauto.
  change (no_gap 0%nat db) with db. unfold mbind, m_bind. by rewrite (queryMessage_run _ _ id r m).
Qed.

(** The queue entries of a message, as targets. *)
Definition target_of (d : Delivery) : DeliveryTarget :=
  {| Target_DestinationID := DestinationID d; Target_DestinationName := DestinationName d;
     Target_DestinationType := DestinationType d |}.

(** The state after a new message: one row more, and its deliveries. *)
Record stored_new (uuid : string) (e : Envelope) (targets : list DeliveryTarget) (st : string) (at_ : Z)
    (db : DB) (m : StoredMessage) (db' : DB) : Prop := {
  new_key : forall id r, messages db !! id = Some r ->
    ~ (row_app_id r = AppID e /\ row_idempotency_key r = IdempotencyKey e);
  new_row_stored : exists r, messages db' = <[uuid := r]> (messages db) /\ messages db !! uuid = None /\
    row_app_id r = AppID e /\ row_idempotency_key r = IdempotencyKey e /\ row_created_at r = now db /\
    row_deliver_at r = timestamptz <$> DeliverAt e /\ reads db' uuid r m;
  new_targets : target_of <$> Deliveries m ≡ₚ targets;
  new_deliveries : Forall (fun d => State d = st /\ NextAttemptAt d = at_ /\ AttemptCount d = 0) (Deliveries m);
  new_others i d : deliveries db !! i = Some d -> deliveries db' !! i = Some d;
  new_only i d : deliveries db' !! i = Some d -> deliveries db !! i = Some d \/ MessageID d = uuid
}.

Lemma NoDup_deliveries db : wf db -> NoDup ((map_to_list (deliveries db)).*2).
Proof.
  intros Hwf. apply (NoDup_fmap_1 ID).
  assert (Heq : ID <$> (map_to_list (deliveries db)).*2 = (map_to_list (deliveries db)).*1).
  { rewrite <- list_fmap_compose. apply list_fmap_ext. intros k [i d] Hin. simpl.
    apply list_elem_of_lookup_2, elem_of_map_to_list in Hin. by apply (wf_delivery _ Hwf _ _ Hin). }
  rewrite Heq. apply NoDup_fst_map_to_list.
Qed.

Lemma NoDup_deliveries_of id db : wf db -> NoDup (deliveries_of id db).
Proof. intros Hwf. by apply NoDup_filter, NoDup_deliveries. Qed.

Lemma NoDup_new_rows next db id sch targets : NoDup (new_rows next db id sch targets).
Proof.
  revert next. induction targets as [|t ts IH]; intros next; simpl; constructor; [|apply IH].
  intros [H _]%new_rows_elem. simpl in H. lia.
Qed.

(** The deliveries a new message has are the rows its insert added. *)
Lemma reads_new_rows uuid db db' rows r m : wf db' -> inserted uuid rows db db' ->
  (forall d, ~ has db uuid d) -> (forall d, d ∈ rows -> MessageID d = uuid) -> NoDup rows ->
  reads db' uuid r m -> Deliveries m ≡ₚ rows.
Proof.
  intros Hwf Hins Hno Hid Hnd (_ & m0 & _ & ->). change (collectDeliveries uuid db' ≡ₚ rows).
  unfold collectDeliveries. rewrite merge_sort_Permutation. apply NoDup_Permutation; [by apply NoDup_deliveries_of|done|].
  intros d. rewrite elem_of_deliveries_of. unfold has. setoid_rewrite (ins_rows _ _ _ _ Hins). split.
  - intros (i & [Hi|[? _]] & Hm); [|done]. destruct (Hno d). by exists i.
  - intros Hin. exists (ID d). split; [by right|by apply Hid].
Qed.

Lemma insert_stored_new uuid e targets sch caps db m db' :
  wf db -> wf db' -> uuid_text uuid = uuid ->
  insert_outcome uuid e targets sch caps db (Ok (m, false)) db' ->
  stored_new uuid e targets (schedule_state sch)
    (default (now db) (timestamptz <$> schedule_nextAttemptAt sch)) db m db'.
Proof.
  intros Hwf Hwf' Hid Hout. inversion Hout as [| |m' row db1 db2 Hrow Hck Hk Hu Hdb1 Hne Hins _ Hread]; subst m' db2.
  apply envelope_row_ok in Hrow as (Ha & Hkey & Hcr & Hda & _).
  assert (Hf : fresh_ids db1).
  { subst db1. intros i d Hi. simpl in *. apply (wf_delivery _ Hwf _ _ Hi). }
  apply insertDeliveries_ok in Hins as [Hins _]; [|done]. rewrite (new_rows_now _ db) in Hins by by subst db1.
  assert (Hd1 : deliveries db1 = deliveries db) by by subst db1.
  assert (Hm1 : messages db' = <[uuid := row]> (messages db)) by (rewrite (ins_messages _ _ _ _ Hins); by subst db1).
  destruct Hread as (id' & r & Hw & Hrd). apply by_id_Some in Hw as ->. rewrite Hid in Hrd.
  assert (r = row) as -> by (destruct Hrd as [Hr _]; rewrite Hm1, lookup_insert_eq in Hr; congruence).
  assert (Hno : forall d, ~ has db1 uuid d).
  { intros d (i & Hi & Hm). rewrite Hd1 in Hi.
    destruct (wf_delivery _ Hwf _ _ Hi) as (_ & _ & _ & _ & [? Hx]). congruence. }
  assert (Hperm : Deliveries m ≡ₚ new_rows (next_delivery_id db1) db uuid sch targets).
  { eapply reads_new_rows; [done..| |apply NoDup_new_rows|done]. by intros d (_ & ? & _)%new_rows_elem. }
  split.
  - intros id r Hr. by apply (by_key_None _ _ _ id r Hk).
  - exists row. by split_and!.
  - rewrite Hperm. unfold target_of. by rewrite new_rows_map.
  - rewrite Hperm. apply Forall_forall. by intros d (_ & _ & ? & ? & _ & _ & ?)%new_rows_elem.
  - intros i d Hi. apply (ins_rows _ _ _ _ Hins). left. by rewrite Hd1.
  - intros i d [Hi|[Hin _]]%(ins_rows _ _ _ _ Hins); [left; by rewrite <- Hd1|right].
    by apply new_rows_elem in Hin as (_ & ? & _).
Qed.

(** The row an insert stores does not depend on when it runs, up to its creation time. *)
Lemma insert_again uuid' e targets sch caps uuid sch' caps' db m db' :
  wf db -> wf db' -> uuid_text uuid = uuid ->
  insert_outcome uuid e targets sch caps db (Ok (m, false)) db' ->
  insertWithRetry no_gap uuid' e targets sch' caps' db' = (Ok (m, true), db').
Proof.
  intros Hwf Hwf' Hid Hout. pose proof (insert_stored_new _ _ _ _ _ _ _ _ Hwf Hwf' Hid Hout) as Hnew.
  inversion Hout as [| |m' row db1 db2 Hrow Hck Hk Hu Hdb1 Hne Hins _ _]; subst m' db2.
  destruct (new_row_stored _ _ _ _ _ _ _ _ Hnew) as (r & Hm & _ & Ha & Hkey & _ & _ & Hrd).
  assert (Hf : fresh_ids db1).
  { subst db1. intros i d Hi. simpl in *. apply (wf_delivery _ Hwf _ _ Hi). }
  apply insertDeliveries_ok in Hins as [Hins _]; [|done].
  assert (Hnow : now db' = now db) by (rewrite (ins_now _ _ _ _ Hins); by subst db1).
  eapply (insert_repeat _ _ _ _ _ _ row uuid r); [done| |done| |done]; [by rewrite Hnow|].
  rewrite <- Ha, <- Hkey. apply by_key_complete; [done|]. by rewrite Hm, lookup_insert_eq.
Qed.

(** A submit is idempotent and exact.  On a stored key it changes nothing and
    returns the stored message; otherwise it stores one new message, with one
    pending delivery per target, due now, and touches no other; and repeating it
    returns that message as a duplicate. *)
Theorem submit_idempotent scheduledCaps heldCaps uuid uuid' e targets db m dup db' :
  reachable scheduledCaps heldCaps db -> uuid_text uuid = uuid ->
  InsertMessage no_gap uuid e targets db = (Ok (m, dup), db') ->
  if dup then
    db' = db /\ exists id r, reads db id r m /\ row_app_id r = AppID e /\ row_idempotency_key r = IdempotencyKey e
  else
    stored_new uuid e targets StatePending (now db) db m db' /\
    InsertMessage no_gap uuid' e targets db' = (Ok (m, true), db').
Proof.
  intros Hreach Hid Hrun. destruct (reachable_wf _ _ _ Hreach) as [Hwf Hl].
  assert (Hwf' : wf db').
  { pose proof (step_sound _ _ db _ Hwf Hl (step_client _ _ _ _ (step_InsertMessage scheduledCaps heldCaps db uuid e targets Hid))) as Hs.
    rewrite Hrun in Hs. by destruct Hs. }
  apply InsertMessage_outcome in Hrun as Hout. destruct dup.
  - inversion Hout as [|m' id r Hk Hr|]; subst. split; [done|]. exists id, r.
    apply by_key_Some in Hk as (r' & Hr' & ? & ?). by assert (r = r') as -> by (destruct Hr; congruence).
  - split; [exact (insert_stored_new uuid e targets pendingNow no_caps db m db' Hwf Hwf' Hid Hout)|].
    exact (insert_again uuid' e targets pendingNow no_caps uuid pendingNow no_caps db m db' Hwf Hwf' Hid Hout).
Qed.

Lemma retry_insert_not_found {A} n gaps (once : (DB -> DB) -> M DB A) e0 db e db' :
  errors_Is e0 ErrMessageNotFound = false ->
  retry_insert n gaps once e0 db = (Err e, db') -> errors_Is e ErrMessageNotFound = false.
Proof.
  intros He0. revert gaps db. induction n as [|n IH]; intros gaps db; simpl; [by intros [= <- _]|].
  destruct (once (gaps 0%nat) db) as [[a|e'] db1]; [done|].
  destruct (errors_Is e' ErrMessageNotFound) eqn:He; [apply IH|by intros [= <- _]].
Qed.

(** Whatever other transactions commit between an insert's conflict and its
    re-select, on every attempt, no insert ever reports a message as not found. *)
Theorem insert_never_not_found gaps uuid e targets caps heldCaps nowArg db err db' :
  InsertMessage gaps uuid e targets db = (Err err, db') \/
  InsertScheduledMessage gaps uuid e targets caps db = (Err err, db') \/
  InsertHeldMessage gaps uuid e heldCaps nowArg db = (Err err, db') ->
  errors_Is err ErrMessageNotFound = false.
Proof.
  assert (Hretry : forall sch caps, insertWithRetry gaps uuid e targets sch caps db = (Err err, db') ->
    errors_Is err ErrMessageNotFound = false).
  { intros sch caps'. unfold insertWithRetry. case_match; [by intros [= <- _]|]. cbv zeta.
    unfold mbind, m_bind, m_lift, encodeDisplay. by apply retry_insert_not_found. }
  intros [H|[H|H]]; [by eapply Hretry| |].
  - unfold InsertScheduledMessage in H. destruct (DeliverAt e); [|by injection H as <- _].
    destruct (PerApp caps <? 1); [by injection H as <- _|].
    destruct (Total caps <? 1); [by injection H as <- _|]. by eapply Hretry.
  - unfold InsertHeldMessage in H. repeat (case_match; [by injection H as <- _|]).
    unfold mbind, m_bind, m_lift, encodeDisplay in H. by eapply retry_insert_not_found; [|exact H].
Qed.

(** ** Cancels *)

(** What a cancel of message [id] in phase [p] reports and leaves. *)
Definition cancel_result (db : DB) (id : string) (p : phase) (nowArg : Z) (o : CancelOutcome) (db' : DB) : Prop :=
  Found o = true /\ Cancel_MessageID o = id /\
  match p with
  | PHeld | PScheduled =>
    Status o = StatusCancelled /\ Cancelled o = true /\ Transitioned o = true /\
    in_phase db' id (if decide (p = PHeld) then PHeldCancelled else PCancelled) /\
    (exists r, messages db' !! id = Some r /\ row_cancelled_at r = Some (timestamptz nowArg)) /\
    (forall id', id' <> id -> messages db' !! id' = messages db !! id') /\
    (forall i d, deliveries db !! i = Some d -> MessageID d <> id -> deliveries db' !! i = Some d)
  | PHeldCancelled | PCancelled =>
    Status o = StatusCancelled /\ Cancelled o = true /\ Transitioned o = false /\ db' = db
  | PActive =>
    Status o = delivery_status (deliveries_of id db) /\ Status o <> StatusCancelled /\
    Cancelled o = false /\ Transitioned o = false /\ db' = db
  end.

Lemma active_not_cancelled db id r : phase_ok PActive r (has db id) ->
  delivery_status (deliveries_of id db) <> StatusCancelled /\
  delivery_status (deliveries_of id db) <> StatusScheduled.
Proof.
  intros (_ & [d Hd] & Hall). pose proof Hd as Hd'. apply elem_of_deliveries_of in Hd.
  assert (Hne : deliveries_of id db <> []) by (intros He; rewrite He in Hd; by apply elem_of_nil in Hd).
  specialize (Hall _ Hd'). unfold delivery_status. rewrite decide_False by done.
  assert (Hno : forall s, ~ active_state s -> ~ all_in s (deliveries_of id db)).
  { intros s Hs Hin. unfold all_in in Hin. rewrite Forall_forall in Hin. apply Hs. by rewrite <- (Hin _ Hd). }
  rewrite (decide_False (P := all_in StateScheduled _)) by (apply Hno; by intros [|[|]]).
  rewrite (decide_False (P := all_in StateCancelled _)) by (apply Hno; by intros [|[|]]).
  by repeat case_decide.
Qed.

(** The row a cancel of a scheduled message writes is one its table accepts. *)
Lemma cancel_scheduled_check r t : message_check r = true -> is_Some (row_deliver_at r) ->
  message_check (r {{ row_cancelled_at := Some t }}) = true.
Proof.
  destruct r. unfold message_check, message_pg.set. simpl. intros H Hd. bool_hyps.
  rewrite !andb_true_iff, (bool_decide_eq_true_2 _ Hd). split_and!; rewrite ?negb_true_iff; try done.
  by apply orb_true_r.
Qed.

(** A cancelled row tells how it was cancelled. *)
Lemma cancelled_in_phase db id r : wf db -> messages db !! id = Some r -> is_Some (row_cancelled_at r) ->
  in_phase db id (if message_pg.set (row_held_cancelled_at r) then PHeldCancelled else PCancelled).
Proof.
  intros Hwf Hr Hc. destruct (wf_message _ Hwf _ _ Hr) as (_ & _ & p & Hp). exists r. split; [done|].
  pose proof (phase_columns _ _ _ Hp) as Hcol.
  assert (Hset : message_pg.set (row_cancelled_at r) = true) by by apply bool_decide_eq_true_2.
  rewrite Hset in Hcol. destruct p; try congruence.
  - by replace (message_pg.set (row_held_cancelled_at r)) with true by congruence.
  - by replace (message_pg.set (row_held_cancelled_at r)) with false by congruence.
Qed.

Lemma cancel_found where_ nowArg db id r p : nowArg <> 0 -> wf db -> wf_log db -> where_ db = Some id ->
  messages db !! id = Some r -> phase_ok p r (has db id) ->
  exists o db', cancel where_ nowArg db = (Ok o, db') /\ cancel_result db id p nowArg o db'.
Proof.
  intros Hnow Hwf Hl Hw Hr Hp. destruct (wf_message _ Hwf _ _ Hr) as (_ & [Hck Hrf] & _).
  pose proof (phase_columns _ _ _ Hp) as Hcol.
  assert (Hstatus : DeriveStatus (deliveries_of id db) {| State_HeldAt := row_held_at r;
    State_CancelledAt := row_cancelled_at r; State_ReleaseFailedAt := row_release_failed_at r |} = StatusScheduled
    <-> p = PScheduled).
  { rewrite (scheduled_status db id r _ p Hr Hp); [tauto|]. intros d. apply elem_of_deliveries_of. }
  unfold cancel. unfold time.IsZero. rewrite (proj2 (Z.eqb_neq _ _) Hnow), Hw, Hr. cbv zeta.
  rewrite Hrf in *. change (message_pg.set None) with false. cbv iota.
  destruct p; injection Hcol as Hh Hc _; rewrite Hc, ?Hh.
  - rewrite (set_message_eq _ _ _ _ Hr). eexists _, _. split; [done|]. split_and!; try done.
    + destruct (cancel_held_sound (timestamptz nowArg) db id r Hwf Hl Hr) as [Hwf' _ _]; [apply Hp|].
      apply (cancelled_in_phase _ id (cancel_held (timestamptz nowArg) r)); [done| |by eexists].
      by apply lookup_insert_eq.
    + exists (cancel_held (timestamptz nowArg) r). split; [by apply lookup_insert_eq|done].
    + intros id' Hne. by apply lookup_insert_ne.
  - eexists _, _. split; [done|]. by split_and!.
  - rewrite (proj2 (String.eqb_eq _ _) (proj2 Hstatus eq_refl)). cbn [negb].
    assert (Hck' : message_check (r {{ row_cancelled_at := Some (timestamptz nowArg) }}) = true).
    { apply cancel_scheduled_check; [done|]. destruct Hp as (_ & _ & t & -> & _). by eexists. }
    rewrite Hck'. cbn [negb]. eexists _, _. split; [done|].
    destruct (cancel_scheduled_sound (timestamptz nowArg) db id r Hwf Hl Hr Hp Hck') as [Hwf' _ _].
    split_and!; try done.
    + destruct Hp as ((_ & _ & Hhc) & _).
      pose proof (cancelled_in_phase _ id (r {{ row_cancelled_at := Some (timestamptz nowArg) }}) Hwf'
        ltac:(by apply lookup_insert_eq) ltac:(by eexists)) as Hin.
      change (row_held_cancelled_at (r {{ row_cancelled_at := _ }})) with (row_held_cancelled_at r) in Hin.
      by rewrite Hhc in Hin.
    + exists (r {{ row_cancelled_at := Some (timestamptz nowArg) }}). split; [by apply lookup_insert_eq|done].
    + intros id' Hne. by apply lookup_insert_ne.
    + intros i d Hi Hne. simpl. rewrite lookup_fmap, Hi. simpl. by rewrite bool_decide_eq_false_2.
  - eexists _, _. split; [done|]. by split_and!.
  - destruct (active_not_cancelled db id r Hp) as [Hnc Hns].
    assert (Hds : DeriveStatus (deliveries_of id db) {| State_HeldAt := row_held_at r;
      State_CancelledAt := row_cancelled_at r; State_ReleaseFailedAt := None |} = delivery_status (deliveries_of id db)).
    { destruct Hp as ((-> & -> & _) & _). by rewrite DeriveStatus_eq. }
    rewrite !Hds, (proj2 (String.eqb_neq _ _) Hns). cbn [negb].
    eexists _, _. split; [done|]. split_and!; try done. by apply String.eqb_neq.
Qed.

(** The message a scoped cancel finds. *)
Lemma scoped_Some appID w db id : scoped appID w db = Some id <->
  w db = Some id /\ exists r, messages db !! id = Some r /\ row_app_id r = appID.
Proof.
  unfold scoped. destruct (w db) as [id'|]; simpl; [|naive_solver].
  destruct (messages db !! id') as [r|] eqn:Hr; simpl.
  - destruct (String.eqb_spec (row_app_id r) appID); naive_solver.
  - naive_solver.
Qed.

(** Cancelling is exact and final.  In every reachable state an app's cancel of
    an id either finds nothing of that app and changes nothing, or finds its
    message and never fails: a held or scheduled one is cancelled, with every
    other message untouched; an already cancelled one is reported cancelled, and
    a released one is reported with its real status, both left alone. *)
Theorem cancel_exact scheduledCaps heldCaps db id appID nowArg :
  reachable scheduledCaps heldCaps db -> nowArg <> 0 ->
  (CancelMessage id appID nowArg db = (Ok no_cancel, db) /\
     forall r, canonicalUUIDPattern id = true -> messages db !! uuid_text id = Some r ->
       row_app_id r = appID -> appID = EmptyString) \/
  (exists r p o db', messages db !! uuid_text id = Some r /\ row_app_id r = appID /\
     in_phase db (uuid_text id) p /\ CancelMessage id appID nowArg db = (Ok o, db') /\
     cancel_result db (uuid_text id) p nowArg o db').
Proof.
  intros [Hwf Hl]%reachable_wf Hnow. unfold CancelMessage.
  destruct (canonicalUUIDPattern id); simpl; [|by left].
  destruct (String.eqb_spec appID EmptyString) as [|Hne]; [by left|].
  destruct (scoped appID (by_id id) db) as [id'|] eqn:Hw.
  - right. pose proof Hw as (Hid & r & Hr & Ha)%scoped_Some. apply by_id_Some in Hid as ->.
    destruct (wf_message _ Hwf _ _ Hr) as (_ & _ & p & Hp).
    destruct (cancel_found _ nowArg db _ r p Hnow Hwf Hl Hw Hr Hp) as (o & db' & ? & ?).
    exists r, p, o, db'. split_and!; try done. by exists r.
  - left. split.
    + unfold cancel, time.IsZero. by rewrite (proj2 (Z.eqb_neq _ _) Hnow), Hw.
    + intros r _ Hr Ha. destruct (scoped appID (by_id id) db) eqn:E; [done|]. exfalso.
      assert (scoped appID (by_id id) db = Some (uuid_text id)); [|congruence].
      apply scoped_Some. split; [|by exists r]. unfold by_id. by rewrite Hr.
Qed.

(** ** The attempt log *)

#[global] Instance attempt_le_total : base.Total attempt_le.
Proof. intros a b. unfold attempt_le. lia. Qed.

Lemma elem_of_attempts_of i db a : a ∈ attempts_of i db <->
  DeliveryID (Attempt_Record a) = i /\ exists j, attempts db !! j = Some a.
Proof.
  unfold attempts_of. rewrite list_elem_of_filter, list_elem_of_fmap. split.
  - intros [? ([j a'] & -> & Hj%elem_of_map_to_list)]. split; [done|]. by exists j.
  - intros (? & j & Hj). split; [done|]. exists (j, a). split; [done|]. by apply elem_of_map_to_list.
Qed.

Lemma NoDup_attempts db : wf_log db -> NoDup ((map_to_list (attempts db)).*2).
Proof.
  intros Hl. apply (NoDup_fmap_1 Attempt_ID).
  assert (Heq : Attempt_ID <$> (map_to_list (attempts db)).*2 = (map_to_list (attempts db)).*1).
  { rewrite <- list_fmap_compose. apply list_fmap_ext. intros k [j a] Hin. simpl.
    apply list_elem_of_lookup_2, elem_of_map_to_list in Hin. by apply (log_attempt _ Hl _ _ Hin). }
  rewrite Heq. apply NoDup_fst_map_to_list.
Qed.

Lemma seqZ_sorted m n : Sorted Z.le (seqZ m n).
Proof.
  destruct (Z.le_gt_cases n 0) as [Hn|Hn]; [by rewrite seqZ_nil|].
  rewrite <- (Z2Nat.id n) by lia. generalize (Z.to_nat n) as k. intros k. revert m.
  induction k as [|k IH]; intros m; [by rewrite seqZ_nil|].
  rewrite seqZ_cons by lia. constructor.
  - replace (Z.pred (Z.of_nat (S k))) with (Z.of_nat k) by lia. apply IH.
  - destruct k as [|k]; [by rewrite seqZ_nil by lia|]. rewrite seqZ_cons by lia. constructor. lia.
Qed.

(** The attempt log of a delivery is gap-free and ordered: in every reachable
    state it lists attempts 1, 2, ... up to the delivery's attempt count, and an
    attempt succeeded exactly when it is the last and the delivery is delivered,
    so nothing is ever sent again after a success. *)
Theorem attempt_log scheduledCaps heldCaps db i d :
  reachable scheduledCaps heldCaps db -> deliveries db !! i = Some d ->
  exists l, ListAttempts i db = (Ok l, db) /\ (AttemptNumber <$> l) = seqZ 1 (AttemptCount d) /\
    forall a, a ∈ l -> (Outcome (Attempt_Record a) = OutcomeSuccess <->
                        State d = StateDelivered /\ AttemptNumber a = AttemptCount d).
Proof.
  intros [Hwf Hl]%reachable_wf Hi. unfold ListAttempts. rewrite Hi.
  exists (merge_sort attempt_le (attempts_of i db)). split; [done|].
  assert (Hin : forall a, a ∈ attempts_of i db -> 1 <= AttemptNumber a <= AttemptCount d /\
    (Outcome (Attempt_Record a) = OutcomeSuccess <-> State d = StateDelivered /\ AttemptNumber a = AttemptCount d)).
  { intros a [Hai [j Hj]]%elem_of_attempts_of. destruct (log_attempt _ Hl _ _ Hj) as (_ & _ & d' & Hd' & Hn & Hs).
    replace d' with d in * by congruence. split; [done|]. split; [done|]. intros [Hdel Hlast].
    destruct (log_complete _ Hl i d (AttemptCount d) Hi ltac:(lia)) as (j' & a' & Hj' & Hai' & Hn' & Ho).
    assert (j = j') as <- by (apply (log_number _ Hl j j' a a'); congruence).
    replace a with a' by congruence. by apply Ho. }
  split.
  - apply (Sorted_unique Z.le); [|apply seqZ_sorted|].
    + eapply Sorted_fmap; [|apply Sorted_merge_sort, _]. done.
    + rewrite merge_sort_Permutation. apply NoDup_Permutation.
      * apply NoDup_fmap_2_strong; [|by apply NoDup_filter, NoDup_attempts].
        intros x y [Hx [j Hj]]%elem_of_attempts_of [Hy [j' Hj']]%elem_of_attempts_of Hn.
        assert (j = j') as <- by (apply (log_number _ Hl j j' x y); congruence). congruence.
      * apply NoDup_seqZ.
      * intros n. rewrite list_elem_of_fmap, elem_of_seqZ. split.
        -- intros (a & -> & Ha). destruct (Hin _ Ha). lia.
        -- intros Hn. destruct (log_complete _ Hl i d n Hi ltac:(lia)) as (j & a & Hj & Hai & <- & _).
           exists a. split; [done|]. apply elem_of_attempts_of. split; [done|]. by exists j.
  - intros a Ha. rewrite merge_sort_Permutation in Ha. by apply Hin.
Qed.

(** ** Claims *)

#[global] Instance due_le_total : base.Total due_le.
Proof. intros a b. unfold due_le. lia. Qed.
#[global] Instance due_le_trans : Transitive due_le.
Proof. intros a b c. unfold due_le. lia. Qed.

Lemma sorted_head {A} (R : relation A) `{!Transitive R} x l y : Sorted R (x :: l) -> y ∈ x :: l -> y = x \/ R x y.
Proof.
  intros Hs [->|Hin]%elem_of_cons; [by left|right]. apply Sorted_StronglySorted in Hs; [|done].
  inversion Hs as [|? ? _ Hall]; subst. rewrite Forall_forall in Hall. by apply Hall.
Qed.

Context {Hlaws : PgLaws Hpg}.

(** A microsecond before the end of a lease, its row is not due. *)
Lemma lease_after later until : later + Microsecond <= until -> ~ timestamptz until <= timestamptz later.
Proof.
  intros Hlater Hnext. pose proof (timestamptz_mono (later + 1 * Microsecond) until ltac:(lia)) as Hmono.
  rewrite timestamptz_shift in Hmono. unfold Microsecond in *. lia.
Qed.

(** A claim leases exactly one delivery, and the right one.  When nothing due is
    unlocked it finds nothing and changes nothing.  Otherwise it returns the oldest
    due pending delivery with its message, changes only that row's next attempt
    and update times, and no claim up to a microsecond before the end of the lease
    finds it again. *)
Theorem ClaimDue_exact scheduledCaps heldCaps locked nowArg lease db c db' :
  reachable scheduledCaps heldCaps db -> ClaimDue locked nowArg lease db = (Ok c, db') ->
  match c with
  | None => db' = db /\
      forall i d, deliveries db !! i = Some d -> State d = StatePending ->
        NextAttemptAt d <= timestamptz nowArg -> i ∈ locked
  | Some claim => exists d,
      deliveries db !! ID d = Some d /\ State d = StatePending /\ NextAttemptAt d <= timestamptz nowArg /\
      ID d ∉ locked /\
      (forall i d2, deliveries db !! i = Some d2 -> State d2 = StatePending ->
         NextAttemptAt d2 <= timestamptz nowArg -> i ∉ locked -> i = ID d \/ due_le d d2) /\
      Claim_Delivery claim = d {{ NextAttemptAt := timestamptz (time.Add nowArg lease); UpdatedAt := now db }} /\
      Message_ID (Claim_Message claim) = MessageID d /\
      deliveries db' = <[ID d := Claim_Delivery claim]> (deliveries db) /\
      messages db' = messages db /\ attempts db' = attempts db /\
      (forall later, later + Microsecond <= nowArg + lease -> Claim_Delivery claim ∉ due later locked db')
  end.
Proof.
  intros [Hwf Hl]%reachable_wf Hrun. apply (ClaimDue_outcome _ _ _ _ _ _ Hwf) in Hrun as Hout. clear Hrun.
  remember (Ok c) as res eqn:Hres. destruct Hout as [|Hnone|d rest leased m r db'' Hdue Hlease Hi -> -> Hm Hs];
    simplify_eq.
  - split; [done|]. intros i d Hi Hs Hn. destruct (decide (i ∈ locked)) as [|Hno]; [done|].
    assert (Hin : d ∈ due nowArg locked db); [|rewrite Hnone in Hin; by apply elem_of_nil in Hin].
    apply due_elem. destruct (wf_delivery _ Hwf _ _ Hi) as [Hid _]. rewrite Hid. split_and!; [by exists i|done..].
  - assert (Hd : d ∈ due nowArg locked db) by (rewrite Hdue; left).
    apply due_elem in Hd as (_ & Hst & Hn & Hlk). exists d. cbn [Claim_Delivery Claim_Message].
    split_and!; try done.
    + intros i d2 Hi2 Hs2 Hn2 Hl2. destruct (wf_delivery _ Hwf _ _ Hi2) as [Hid2 _].
      assert (Hin : d2 ∈ due nowArg locked db).
      { apply due_elem. rewrite Hid2. split_and!; [by exists i|done..]. }
      assert (Hsort : Sorted due_le (due nowArg locked db)) by (apply Sorted_merge_sort, _).
      rewrite Hdue in Hin, Hsort. destruct (sorted_head _ _ _ _ Hsort Hin) as [->|]; [by left|by right].
    + rewrite (scanMessage_ID _ _ _ Hs). destruct (wf_delivery _ Hwf _ _ Hi) as (_ & _ & _ & _ & [r' Hr']).
      by destruct (wf_message _ Hwf _ _ Hr') as (? & _).
    + intros later Hlater (_ & _ & Hnext & _)%due_elem. by apply (lease_after later (nowArg + lease)).
Qed.
End ops.
