(* ===== verification/MessageRetention.v ===== *)
(** * MessageRetention

    The retention sweeps delete in bounded batches exactly the messages that have
    outlived their window, with their deliveries and attempts, and nothing else,
    where nothing commits inside a batch's statement (MessageProps has that race). *)

From S2P Require Import Prelude GoText Utf8 Message MessageStore MessageInv MessageSteps MessageReach MessageProps.
Open Scope Z_scope.
Import message message_pg.

(** ** One batch *)

Lemma size_list_to_set (l : list string) : NoDup l -> size (list_to_set (C := gset string) l) = length l.
Proof.
  induction 1 as [|x l Hx _ IH]; [done|]. simpl. rewrite size_union, size_singleton, IH; [done|].
  intros y ->%elem_of_singleton. by rewrite elem_of_list_to_set.
Qed.

Section batches.
Context (P : DB -> string -> MessageRow -> bool) (key : MessageRow -> Z) (batchSize : Z).
Context (Hpos : 1 <= batchSize).

Definition matching (db : DB) : list (string * MessageRow) :=
  filter (fun p => P db p.1 p.2 = true) (map_to_list (messages db)).

Lemma matching_elem db id r : (id, r) ∈ matching db <-> messages db !! id = Some r /\ P db id r = true.
Proof. unfold matching. rewrite list_elem_of_filter, elem_of_map_to_list. simpl. tauto. Qed.

Definition batch_ids (db : DB) : gset string := candidates (P db) key batchSize db.

Lemma batch_ids_spec db :
  (forall id, id ∈ batch_ids db -> exists r, messages db !! id = Some r /\ P db id r = true) /\
  Z.of_nat (size (batch_ids db)) <= batchSize /\
  (Z.of_nat (size (batch_ids db)) < batchSize -> forall id r, messages db !! id = Some r -> P db id r = true ->
     id ∈ batch_ids db).
Proof.
  split; [intros id; apply candidates_elem|].
  set (l := merge_sort (oldest_le key) (matching db)).
  assert (Hids : batch_ids db = list_to_set (take (Z.to_nat batchSize) l.*1)).
  { unfold batch_ids, candidates. fold (matching db) l. by rewrite fmap_take. }
  assert (Hnd : NoDup l.*1).
  { unfold l. rewrite merge_sort_Permutation. unfold matching.
    apply NoDup_fmap_fst; [|apply NoDup_filter, NoDup_map_to_list].
    intros id r1 r2 [H1 _]%matching_elem [H2 _]%matching_elem. congruence. }
  rewrite Hids, size_list_to_set by (by apply NoDup_take). rewrite length_take. split; [lia|].
  intros Hlt id r Hr HP. rewrite take_ge by lia. apply elem_of_list_to_set, list_elem_of_fmap.
  exists (id, r). split; [done|]. unfold l. rewrite merge_sort_Permutation. by apply matching_elem.
Qed.

(** ** The batch loop *)

(** The rows of [db'] are those of [db] less the messages [ids]. *)
Record removed (ids : gset string) (db db' : DB) : Prop := {
  rm_messages id r : messages db' !! id = Some r <-> messages db !! id = Some r /\ id ∉ ids;
  rm_deliveries i d : deliveries db' !! i = Some d <-> deliveries db !! i = Some d /\ MessageID d ∉ ids;
  rm_attempts j a : attempts db' !! j = Some a -> attempts db !! j = Some a /\
    is_Some (deliveries db' !! DeliveryID (Attempt_Record a));
  rm_kept j a : attempts db !! j = Some a -> is_Some (deliveries db' !! DeliveryID (Attempt_Record a)) ->
    attempts db' !! j = Some a
}.

Lemma removed_delete ids db : removed ids db (delete_messages ids db).
Proof.
  split.
  - intros id r. simpl. by rewrite map_lookup_filter_Some.
  - intros i d. unfold delete_messages. rewrite lookup_delete_deliveries, bool_decide_eq_false. done.
  - intros j a Hj. by apply map_lookup_filter_Some in Hj.
  - intros j a Hj Hs. by apply map_lookup_filter_Some.
Qed.

Lemma removed_nil db : wf_log db -> removed ∅ db db.
Proof.
  intros Hl. split; try (intros; set_solver).
  intros j a Hj. split; [done|]. destruct (log_attempt _ Hl _ _ Hj) as (_ & _ & d & -> & _). by eexists.
Qed.

Lemma removed_trans ids ids' db db1 db2 :
  removed ids db db1 -> removed ids' db1 db2 -> removed (ids ∪ ids') db db2.
Proof.
  intros H1 H2. split.
  - intros id r. rewrite (rm_messages _ _ _ H2), (rm_messages _ _ _ H1), not_elem_of_union. tauto.
  - intros i d. rewrite (rm_deliveries _ _ _ H2), (rm_deliveries _ _ _ H1), not_elem_of_union. tauto.
  - intros j a [Hj Hs]%(rm_attempts _ _ _ H2). apply (rm_attempts _ _ _ H1) in Hj as [? _]. done.
  - intros j a Hj Hs. apply (rm_kept _ _ _ H2); [|done]. apply (rm_kept _ _ _ H1); [done|].
    destruct Hs as [d [Hd _]%(rm_deliveries _ _ _ H2)]. by eexists.
Qed.

Context (stable : forall ids db db' id r, removed ids db db' -> id ∉ ids -> P db' id r = P db id r).

(** A batch deletes what it chose, and counts it. *)
Context (batch : DB -> Z * DB).
Context (batch_removes : forall db, (batch db).1 = Z.of_nat (size (batch_ids db)) /\
  removed (batch_ids db) db (batch db).2 /\ (wf_log db -> wf_log (batch db).2)).

Lemma delete_batches_spec k ctxErr total db tot err db' : wf_log db ->
  delete_batches k ctxErr batch batchSize total db = ((tot, err), db') ->
  exists ids, removed ids db db' /\ tot = total + Z.of_nat (size ids) /\
    Z.of_nat (size ids) <= Z.of_nat k * batchSize /\
    (forall id, id ∈ ids -> exists r, messages db !! id = Some r /\ P db id r = true) /\
    (err = None -> Z.of_nat (size ids) < Z.of_nat k * batchSize ->
       forall id r, messages db' !! id = Some r -> P db' id r = false).
Proof.
  revert ctxErr total db. induction k as [|k IH]; intros ctxErr total db Hl; cbn [delete_batches].
  { intros [= <- <- <-]. exists ∅. rewrite size_empty. split_and!; [by apply removed_nil|lia|lia|set_solver|lia]. }
  destruct (ctxErr O) as [e|].
  { intros [= <- <- <-]. exists ∅. rewrite size_empty. split_and!; [by apply removed_nil|lia|nia|set_solver|done]. }
  destruct (batch_ids_spec db) as (Hsound & Hsize & Hcomplete). destruct (batch_removes db) as (Hn1 & Hrm & Hl1).
  destruct (batch db) as [n1 db1]. simpl in Hn1, Hrm, Hl1. subst n1.
  destruct (Z.ltb_spec (Z.of_nat (size (batch_ids db))) batchSize) as [Hlt|Hge].
  - intros [= <- <- <-]. exists (batch_ids db). split_and!; [done|lia|nia|done|].
    intros _ _ id r [Hr Hni]%(rm_messages _ _ _ Hrm). rewrite (stable _ _ _ _ _ Hrm Hni).
    apply not_true_iff_false. intros HP. by apply Hni, (Hcomplete Hlt _ r).
  - intros (ids & Hrm' & -> & Hsz & Hids & Hdone)%IH; [|by apply Hl1].
    assert (Hdisj : batch_ids db ## ids).
    { intros id Hin (r & [_ Hni]%(rm_messages _ _ _ Hrm) & _)%Hids. done. }
    assert (Hun : Z.of_nat (size (batch_ids db ∪ ids)) = batchSize + Z.of_nat (size ids))
      by (rewrite size_union by done; lia).
    exists (batch_ids db ∪ ids). rewrite Hun. split_and!; [by eapply removed_trans|lia|lia| |].
    + intros id [Hin|Hin]%elem_of_union; [by apply Hsound|]. destruct (Hids _ Hin) as (r & Hr & HP).
      apply (rm_messages _ _ _ Hrm) in Hr as [Hr Hni]. exists r. split; [done|].
      by rewrite <- (stable _ _ _ _ _ Hrm Hni).
    + intros He Hlt. apply Hdone; [done|lia].
Qed.
End batches.

Section retention.
Context `{Hpg : Pg}.

Lemma expired_stable cutoff ids db db' id r : removed ids db db' -> id ∉ ids ->
  expired cutoff db' id r = expired cutoff db id r.
Proof.
  intros Hrm Hni. unfold expired. f_equal. apply eq_bool_prop_intro. rewrite !Is_true_true, !forallb_forall.
  assert (Hhas : forall d, List.In d (deliveries_of id db') <-> List.In d (deliveries_of id db)).
  { intros d. rewrite <- !list_elem_of_In, !elem_of_deliveries_of. unfold has.
    setoid_rewrite (rm_deliveries _ _ _ Hrm). naive_solver. }
  by setoid_rewrite Hhas.
Qed.

(** When a message is past its retention: since it was created, due, released or
    cancelled, whichever is last (a cancel overriding the others). *)
Definition past_retention (cutoff : Z) (r : MessageRow) : Prop :=
  row_held_at r = None /\ row_created_at r < cutoff /\
  match row_cancelled_at r with
  | Some t => t < cutoff
  | None => forall t, row_deliver_at r = Some t \/ row_released_at r = Some t \/ row_release_failed_at r = Some t ->
              t < cutoff
  end.

Lemma default_lt (c t : Z) (o : option Z) : c < t -> (default c o < t <-> forall u, o = Some u -> u < t).
Proof. destruct o as [u|]; simpl; naive_solver. Qed.

(** The GREATEST of the times of a row that are set. *)
Lemma latest_lt (c t : Z) (a b d : option Z) :
  Z.max c (Z.max (default c a) (Z.max (default c b) (default c d))) < t <->
  c < t /\ forall u, a = Some u \/ b = Some u \/ d = Some u -> u < t.
Proof.
  rewrite !Z.max_lub_lt_iff. split; intros [Hc H]; (split; [done|]).
  - rewrite !default_lt in H by done. naive_solver.
  - rewrite !default_lt by done. naive_solver.
Qed.

Lemma expired_past cutoff db id r : expired cutoff db id r = true <->
  past_retention cutoff r /\ removable db id.
Proof.
  unfold expired, past_retention, removable, message_pg.set.
  rewrite !andb_true_iff, negb_true_iff, bool_decide_eq_false, Z.ltb_lt, <- eq_None_not_Some, forallb_forall.
  assert (Hall : (forall d, List.In d (deliveries_of id db) -> negb (one_of [StatePending; StateScheduled] (State d)) = true)
    <-> forall d, has db id d -> State d <> StatePending /\ State d <> StateScheduled).
  { setoid_rewrite <- list_elem_of_In. setoid_rewrite elem_of_deliveries_of.
    assert (Hone : forall s, negb (one_of [StatePending; StateScheduled] s) = true <-> s <> StatePending /\ s <> StateScheduled).
    { intros s. unfold one_of. simpl. rewrite negb_true_iff, !orb_false_iff, !String.eqb_neq. naive_solver. }
    by setoid_rewrite Hone. }
  rewrite Hall. clear Hall. destruct (row_cancelled_at r) as [c|]; rewrite Z.ltb_lt; [tauto|].
  rewrite latest_lt. tauto.
Qed.

(** A batch of [deleteExpiredSQL] with nothing in between. *)
Lemma retention_removes stmt cutoff db :
  let ids := batch_ids (expired (timestamptz cutoff)) row_created_at 500 db in
  let batch := deleteExpiredSQL stmt (fun db => db) cutoff 500 in
  (batch db).1 = Z.of_nat (size ids) /\ removed ids db (batch db).2 /\ (wf_log db -> wf_log (batch db).2).
Proof.
  cbv zeta. unfold deleteExpiredSQL, delete_chosen. set (ids := batch_ids _ _ _ db).
  assert (Hids : sweeping (choose_expired stmt cutoff 500 db) !! stmt = Some ids) by apply lookup_insert_eq.
  rewrite Hids. cbn [fst snd default]. split_and!; [done| |].
  - destruct (removed_delete ids ((choose_expired stmt cutoff 500 db) {{ sweeping :=
      delete stmt (sweeping (choose_expired stmt cutoff 500 db)) }})) as [H1 H2 H3 H4]. by split.
  - intros Hl. apply log_delete. by destruct Hl; split.
Qed.

(** The retention sweep deletes, in at most 200 batches of 500, only messages
    past their retention that are not held and have nothing pending or scheduled,
    each with its deliveries and attempts, and changes nothing else; it reports
    how many; and unless it was interrupted or ran out of batches, none is left. *)
Theorem DeleteExpired_exact scheduledCaps heldCaps stmt ctxErr cutoff db n err db' :
  reachable scheduledCaps heldCaps db -> DeleteExpired stmt (fun db => db) ctxErr cutoff db = ((n, err), db') ->
  exists ids, removed ids db db' /\ n = Z.of_nat (size ids) /\ n <= 100000 /\
    (forall id, id ∈ ids -> exists r, messages db !! id = Some r /\
       past_retention (timestamptz cutoff) r /\ removable db id) /\
    (err = None -> n < 100000 -> forall id r, messages db' !! id = Some r ->
       past_retention (timestamptz cutoff) r -> ~ removable db' id).
Proof.
  intros [_ Hl]%reachable_wf Hrun.
  apply (delete_batches_spec (expired (timestamptz cutoff)) row_created_at 500 ltac:(done) (expired_stable _) _
    (retention_removes stmt cutoff)) in Hrun as (ids & Hrm & Hn & Hle & Hids & Hdone); [|done].
  change DeleteExpiredMaxBatches with 200%nat in *.
  exists ids. split_and!; [done|lia|lia| |].
  - intros id (r & Hr & HP)%Hids. exists r. by rewrite <- expired_past.
  - intros He Hlt id r Hr Hp Hrem.
    assert (HP : expired (timestamptz cutoff) db' id r = false) by (apply Hdone; [done|lia|done]).
    by rewrite (proj2 (expired_past _ _ _ _) (conj Hp Hrem)) in HP.
Qed.
End retention.
