(* ===== verification/MessageService.v ===== *)
(** * MessageService

    The use-case layer of package [message] (service.go), over the store it is written
    against (store.go).

    The store, the resolver and the publishers are operations on one shared state.
    Logging is left out; waking the worker, reading the clock and the events Await
    waits for are operations and arguments. *)

From S2P Require Import Prelude GoText Utf8 Std Idents Registry Message MessageValidate MessageStore.
Open Scope Z_scope.

(** ** store.go *)

Class MessageStore (S : Type) := {
  store_InsertMessage : message.Envelope -> list message.DeliveryTarget -> M S (message.StoredMessage * bool);
  store_GetMessage : string -> M S message.StoredMessage;
  store_GetMessageByKey : string -> string -> M S message.StoredMessage;
  store_ListDeliveries : string -> Z -> M S (list message.AdminDelivery);
  store_ListAttempts : Z -> M S (list message.Attempt);
  store_Replay : Z -> Z -> M S message.AdminDelivery;
  store_InsertScheduledMessage : message.Envelope -> list message.DeliveryTarget -> message.ScheduledCaps ->
    M S (message.StoredMessage * bool);
  store_InsertHeldMessage : message.Envelope -> message.HeldCaps -> Z -> M S (message.StoredMessage * bool);
  store_ReplaceScheduledMessage : message.Envelope -> list message.DeliveryTarget -> Z ->
    M S (message.StoredMessage * bool);
  store_CancelMessage : string -> string -> Z -> M S message.CancelOutcome;
  store_AdminCancelMessage : string -> Z -> M S message.CancelOutcome;
  store_CancelMessageByKey : string -> string -> Z -> M S message.CancelOutcome;
  store_ListScheduled : Z -> M S (list message.ScheduledMessage * Z)
}.

(** [Resolver]; [*registry.Service] satisfies it. *)
Class MessageResolver (S : Type) := {
  service_Resolve : string -> string -> string -> M S (list registry.ResolvedDestination)
}.

Module message_service.
Import message.

Definition maxNtfyTopicLength : Z := 64.
Definition errMsgDisplayRequired : string :=
  "display.title or display.body is required for ntfy and discord destinations".

Definition DefaultListLimit : Z := 50.
Definition MaxListLimit : Z := 200.
Definition DefaultMaxScheduledPerApp : Z := 1000.
Definition MaxScheduledPerAppLimit : Z := 100000.
Definition MaxScheduledEnvVar : string := "DELIVERY_MAX_SCHEDULED_PER_APP".
Definition DefaultMaxScheduledTotal : Z := 100000.
Definition MaxScheduledTotalLimit : Z := 10000000.
Definition MaxScheduledTotalEnvVar : string := "DELIVERY_MAX_SCHEDULED_TOTAL".
Definition HoldUnroutedEnvVar : string := "DELIVERY_HOLD_UNROUTED".
Definition DefaultMaxHeldPerApp : Z := 1000.
Definition MaxHeldPerAppLimit : Z := 100000.
Definition MaxHeldPerAppEnvVar : string := "DELIVERY_MAX_HELD_PER_APP".
Definition DefaultMaxHeldTotal : Z := 100000.
Definition MaxHeldTotalLimit : Z := 10000000.
Definition MaxHeldTotalEnvVar : string := "DELIVERY_MAX_HELD_TOTAL".
Definition defaultPollInterval : Z := 100 * Millisecond.
Definition defaultMaxConcurrentAwaits : Z := 32.

Definition HoldUnroutedFromEnv (getenv : string -> string) : result bool :=
  let value := getenv HoldUnroutedEnvVar in
  if existsb (String.eqb value) [EmptyString; "0"; "false"] then Ok false
  else if existsb (String.eqb value) ["1"; "true"] then Ok true
  else Err (errors_New ("invalid " +:+ HoldUnroutedEnvVar)).

Definition MaxHeldPerAppFromEnv (getenv : string -> string) : result Z :=
  envint.Bounded getenv MaxHeldPerAppEnvVar DefaultMaxHeldPerApp MaxHeldPerAppLimit.
Definition MaxHeldTotalFromEnv (getenv : string -> string) : result Z :=
  envint.Bounded getenv MaxHeldTotalEnvVar DefaultMaxHeldTotal MaxHeldTotalLimit.
Definition MaxScheduledFromEnv (getenv : string -> string) : result Z :=
  envint.Bounded getenv MaxScheduledEnvVar DefaultMaxScheduledPerApp MaxScheduledPerAppLimit.
Definition MaxScheduledTotalFromEnv (getenv : string -> string) : result Z :=
  envint.Bounded getenv MaxScheduledTotalEnvVar DefaultMaxScheduledTotal MaxScheduledTotalLimit.

(** [publishers] is [HasPublisher], [None] a nil Publishers; [now] reads the clock. *)
Record ServiceConfig {S : Type} := {
  Config_Publishers : option (string -> M S bool);
  SupportedTypes : gmap string bool;
  Wake : option (S -> S);
  PollInterval : Z;
  Now : S -> Z * S;
  MaxConcurrentAwaits : Z;
  MaxScheduledPerApp : Z;
  MaxScheduledTotal : Z;
  HoldUnrouted : bool;
  MaxHeldPerApp : Z;
  MaxHeldTotal : Z
}.
#[global] Arguments ServiceConfig S : clear implicits.

(** [awaitSlots] is the capacity of the semaphore. *)
Record Service {S : Type} := {
  publishers : option (string -> M S bool);
  supportedTypes : gmap string bool;
  wake : S -> S;
  pollInterval : Z;
  now : S -> Z * S;
  maxScheduled : Z;
  maxTotal : Z;
  holdUnrouted : bool;
  heldCaps : HeldCaps;
  awaitSlots : Z
}.
#[global] Arguments Service S : clear implicits.

Definition positive_or (value fallback : Z) : Z := if value <=? 0 then fallback else value.

(** The store and the resolver, which the code requires, are the classes. *)
Definition NewService {S} (config : ServiceConfig S) : Service S := {|
  publishers := Config_Publishers config;
  supportedTypes := SupportedTypes config;
  wake := default id (Wake config);
  pollInterval := positive_or (PollInterval config) defaultPollInterval;
  now := Now config;
  maxScheduled := positive_or (MaxScheduledPerApp config) DefaultMaxScheduledPerApp;
  maxTotal := positive_or (MaxScheduledTotal config) DefaultMaxScheduledTotal;
  holdUnrouted := HoldUnrouted config;
  heldCaps := {| Held_PerApp := positive_or (MaxHeldPerApp config) DefaultMaxHeldPerApp;
                 Held_Total := positive_or (MaxHeldTotal config) DefaultMaxHeldTotal |};
  awaitSlots := positive_or (MaxConcurrentAwaits config) defaultMaxConcurrentAwaits
|}.

(** What Await's select finds ready: the context is done, with its error, the deadline
    has passed, or the ticker ticks. *)
Inductive await_event : Type :=
  | ContextDone (err : error)
  | DeadlinePassed
  | Tick.

Definition isFuture (deliverAt : option Z) (now : Z) : bool :=
  match deliverAt with Some t => time.After t now | None => false end.

Definition is_scheduled (stored : StoredMessage) : bool :=
  String.eqb (DeriveStatus (Deliveries stored) (StoredMessage_State stored)) StatusScheduled.

Definition newSubmitOutcome (stored : StoredMessage) (duplicate replaced : bool) : SubmitOutcome :=
  {| Duplicate := duplicate; Replaced := replaced; Scheduled := is_scheduled stored; Held := false |}.

Definition notFoundOutcome (requestedID : string) : CancelOutcome :=
  no_cancel {{ Cancel_MessageID := requestedID; Status := StatusNotFound }}.

Definition finishCancel (outcome : CancelOutcome) (requestedID : string) : CancelOutcome :=
  if negb (Found outcome) then notFoundOutcome requestedID else outcome.

Definition attempted (stored : StoredMessage) : bool :=
  forallb (fun d => negb (String.eqb (State d) StatePending && (AttemptCount d <? 1))) (Deliveries stored).



Section service.
Context `{Std} {S : Type} `{MessageStore S} `{MessageResolver S} (service : Service S).

Definition clock : M S Z := fun s => let (t, s') := now service s in (Ok t, s').

(** *** Targets *)

(** The loop over the resolved destinations. *)
Fixpoint resolved_targets (envelope : Envelope) (resolved : list registry.ResolvedDestination) :
    result (list DeliveryTarget) :=
  match resolved with
  | [] => Ok []
  | destination :: resolved =>
    let type := registry.Resolved_Type destination in
    if negb (default false (supportedTypes service !! type)) then Err ErrUnsupportedDestinationType
    else
      let humanFacing := String.eqb type registry.TypeNtfy || String.eqb type registry.TypeDiscord in
      if humanFacing && negb (HasRenderableText (Display_ envelope)) then Err (ValidationError errMsgDisplayRequired)
      else
        targets ← resolved_targets envelope resolved;
        Ok ({| Target_DestinationID := Some (registry.Resolved_ID destination);
               Target_DestinationName := registry.Resolved_Name destination;
               Target_DestinationType := type |} :: targets)
  end.

Definition recipient_target : DeliveryTarget :=
  {| Target_DestinationID := None; Target_DestinationName := registry.RecipientDestinationName;
     Target_DestinationType := registry.TypeNtfy |}.

Definition resolveRecipientTarget (envelope : Envelope) : M S (list DeliveryTarget) :=
  if negb (default false (supportedTypes service !! registry.TypeNtfy)) then m_fail ErrUnsupportedDestinationType
  else
    let topic := personhash.PersonChannelTopic (AppID envelope) (ToRecipient envelope) (Channel envelope) in
    if maxNtfyTopicLength <? len topic then
      m_fail (ValidationError "app_id and channel are too long for a recipient topic")
    else if negb (HasRenderableText (Display_ envelope)) then m_fail (ValidationError errMsgDisplayRequired)
    else match publishers service with
    | None => m_fail registry.ErrNoPublisher
    | Some HasPublisher =>
      hasPublisher ← HasPublisher (AppID envelope);
      if (hasPublisher : bool) then mret [recipient_target] else m_fail registry.ErrNoPublisher
    end.

Definition resolveTargets (envelope : Envelope) : M S (list DeliveryTarget) :=
  if negb (validate.empty (ToRecipient envelope)) then resolveRecipientTarget envelope
  else
    resolved ← service_Resolve (AppID envelope) (ToDestination envelope) (Channel envelope);
    if bool_decide (resolved = []) then m_fail ErrNoDestinationMatched
    else m_lift (resolved_targets envelope resolved).

(** *** Submit *)

(** An accepted message's worker is woken, unless it is held back for later. *)
Definition wake_unless (scheduled : bool) : M S unit :=
  if scheduled then mret tt else m_do (wake service).

Definition holdMessage (envelope : Envelope) (nowArg : Z) : M S (StoredMessage * SubmitOutcome) :=
  '(stored, duplicate) ← store_InsertHeldMessage envelope (heldCaps service) nowArg;
  mret (stored, {| Duplicate := duplicate; Replaced := false; Scheduled := false; Held := negb duplicate |}).

(** [None] is settled false: the message vanished before it could be replaced. *)
Definition submitExisting (envelope : Envelope) (existing : StoredMessage) (nowArg : Z) :
    M S (option (StoredMessage * SubmitOutcome)) :=
  if negb (is_scheduled existing) || validate.sameContent (Message_Envelope existing) envelope then
    mret (Some (existing, newSubmitOutcome existing true false))
  else
    targets ← resolveTargets envelope;
    replace ← m_try (store_ReplaceScheduledMessage envelope targets nowArg);
    match replace with
    | Ok (stored, replaced) =>
      let outcome := newSubmitOutcome stored (negb replaced) replaced in
      _ ← (if (replaced : bool) then wake_unless (Scheduled outcome) else mret tt);
      mret (Some (stored, outcome))
    | Err replaceErr =>
      if errors_Is replaceErr ErrMessageNotFound then
        find ← m_try (store_GetMessageByKey (AppID envelope) (IdempotencyKey envelope));
        match find with
        | Ok current => mret (Some (current, newSubmitOutcome current true false))
        | Err findErr => if errors_Is findErr ErrMessageNotFound then mret None else m_fail findErr
        end
      else m_fail replaceErr
    end.

Definition insert_resolved (envelope : Envelope) (targets : list DeliveryTarget) (nowArg : Z) :
    M S (StoredMessage * SubmitOutcome) :=
  '(stored, duplicate) ←
    (if isFuture (DeliverAt envelope) nowArg then
       store_InsertScheduledMessage envelope targets {| PerApp := maxScheduled service; Total := maxTotal service |}
     else store_InsertMessage envelope targets);
  let outcome := newSubmitOutcome stored duplicate false in
  _ ← (if (duplicate : bool) then mret tt else wake_unless (Scheduled outcome));
  mret (stored, outcome).

(** The new-message branch of Submit. *)
Definition submitNew (envelope : Envelope) (nowArg : Z) : M S (StoredMessage * SubmitOutcome) :=
  resolve ← m_try (resolveTargets envelope);
  match resolve with
  | Ok targets => insert_resolved envelope targets nowArg
  | Err resolveErr =>
    if errors_Is resolveErr ErrNoDestinationMatched && Hold envelope && holdUnrouted service &&
       validate.empty (ToRecipient envelope) && validate.empty (ToDestination envelope)
    then holdMessage envelope nowArg
    else m_fail resolveErr
  end.

Definition hash_recipient (envelope : Envelope) : Envelope :=
  if negb (validate.empty (ToRecipient envelope)) && negb (personhash.IsHash (ToRecipient envelope))
  then envelope {{ ToRecipient := personhash.Hash (ToRecipient envelope) }} else envelope.

Definition Submit (envelope : Envelope) : M S (StoredMessage * SubmitOutcome) :=
  _ ← m_check (validate.ValidateEnvelope envelope);
  let envelope := hash_recipient envelope in
  nowArg ← clock;
  find ← m_try (store_GetMessageByKey (AppID envelope) (IdempotencyKey envelope));
  match find with
  | Ok existing =>
    settled ← submitExisting envelope existing nowArg;
    match settled with
    | Some submitted => mret submitted
    | None => submitNew envelope nowArg
    end
  | Err findErr => if negb (errors_Is findErr ErrMessageNotFound) then m_fail findErr else submitNew envelope nowArg
  end.

(** *** Reads *)

Definition Get (appID id : string) : M S StoredMessage :=
  _ ← m_check (validate.ValidateAppID appID);
  stored ← store_GetMessage id;
  if negb (String.eqb (AppID (Message_Envelope stored)) appID) then m_fail ErrMessageNotFound else mret stored.

Definition GetByKey (appID idempotencyKey : string) : M S StoredMessage :=
  _ ← m_check (validate.ValidateAppID appID);
  _ ← m_check (validate.ValidateIdempotencyKey idempotencyKey);
  store_GetMessageByKey appID idempotencyKey.

(** The poll loop over the events select picks, [None] while it still waits.  It
    returns a message together with an error, if any. *)
Fixpoint await_poll (appID id : string) (events : list await_event) (latest : StoredMessage) (s : S) :
    option (StoredMessage * option error) * S :=
  match events with
  | [] => (None, s)
  | ContextDone err :: _ => (Some (latest, Some err), s)
  | DeadlinePassed :: _ =>
    match Get appID id s with
    | (Ok final, s) => (Some (final, None), s)
    | (Err finalErr, s) => (Some (latest, Some finalErr), s)
    end
  | Tick :: events =>
    match Get appID id s with
    | (Err nextErr, s) => (Some (latest, Some nextErr), s)
    | (Ok next, s) => if attempted next then (Some (next, None), s) else await_poll appID id events next s
    end
  end.

(** [taken] is how many calls hold a slot of the semaphore; the first read's error
    returns no message. *)
Definition Await (taken : Z) (events : list await_event) (appID id : string) (timeout : Z) (s : S) :
    option (result (StoredMessage * option error)) * S :=
  match Get appID id s with
  | (Err getErr, s) => (Some (Err getErr), s)
  | (Ok latest, s) =>
    if (timeout <=? 0) || attempted latest then (Some (Ok (latest, None)), s)
    else if awaitSlots service <=? taken then (Some (Ok (latest, None)), s)
    else let (polled, s) := await_poll appID id events latest s in (Ok <$> polled, s)
  end.

Definition svc_ListDeliveries (state : string) (limit : Z) : M S (list AdminDelivery) :=
  if negb (isDeliveryState state) then m_fail (ValidationError "invalid state")
  else if (limit <? 1) || (MaxListLimit <? limit) then m_fail (ValidationError "invalid limit")
  else store_ListDeliveries state limit.

Definition svc_ListAttempts (deliveryID : Z) : M S (list Attempt) := store_ListAttempts deliveryID.

Definition svc_ListScheduled (limit : Z) : M S (list ScheduledMessage * Z) :=
  if (limit <? 1) || (MaxListLimit <? limit) then m_fail (ValidationError "invalid limit")
  else store_ListScheduled limit.

(** *** Cancels and replay *)

Definition Cancel (appID id : string) : M S CancelOutcome :=
  _ ← m_check (validate.ValidateAppID appID);
  if negb (message_pg.canonicalUUIDPattern id) then mret (notFoundOutcome id)
  else
    nowArg ← clock;
    outcome ← store_CancelMessage id appID nowArg;
    mret (finishCancel outcome id).

Definition CancelByKey (appID idempotencyKey : string) : M S CancelOutcome :=
  _ ← m_check (validate.ValidateAppID appID);
  _ ← m_check (validate.ValidateIdempotencyKey idempotencyKey);
  nowArg ← clock;
  outcome ← store_CancelMessageByKey appID idempotencyKey nowArg;
  mret (finishCancel outcome EmptyString).

Definition AdminCancel (id : string) : M S CancelOutcome :=
  if negb (message_pg.canonicalUUIDPattern id) then mret (notFoundOutcome id)
  else
    nowArg ← clock;
    outcome ← store_AdminCancelMessage id nowArg;
    mret (finishCancel outcome id).

Definition svc_Replay (deliveryID : Z) : M S AdminDelivery :=
  nowArg ← clock;
  replayed ← store_Replay deliveryID nowArg;
  _ ← m_do (wake service);
  mret replayed.
End service.
End message_service.
