(* ===== verification/MessageServiceProps.v ===== *)
(** * MessageServiceProps

    What the message service guarantees over any store: which calls a submit makes of
    it, and that reads stay within the app. *)

From S2P Require Import Prelude GoText Utf8 Std Idents Registry Message MessageValidate MessageStore MessageService.
Open Scope Z_scope.
Import message message_service.

Section any_store.
Context `{Hstd : Std} `{Hlaws : !StdLaws Hstd} {S : Type} `{Hms : MessageStore S} `{Hmr : MessageResolver S}.
Context (service : Service S).

(** ** Operations as paths of steps *)

(** [m] moves the state along [R] whatever it returns. *)
Definition travels {A} (R : S -> S -> Prop) (m : M S A) : Prop := forall s, rtc R s (m s).2.

Lemma travels_ret {A} R (a : A) : travels R (mret a).
Proof. intros s. constructor. Qed.
Lemma travels_fail {A} R e : travels R (m_fail (A := A) e).
Proof. intros s. constructor. Qed.
Lemma travels_lift {A} R (r : result A) : travels R (m_lift r).
Proof. intros s. constructor. Qed.
Lemma travels_check R e : travels R (m_check (S := S) e).
Proof. destruct e; intros s; constructor. Qed.
Lemma travels_bind {A B} R (m : M S A) (f : A -> M S B) : travels R m -> (forall a, travels R (f a)) -> travels R (m ≫= f).
Proof.
  intros Hm Hf s. specialize (Hm s). unfold mbind, m_bind. destruct (m s) as [[a|e] s1]; [|done].
  etrans; [exact Hm|apply Hf].
Qed.
Lemma travels_try {A} R (m : M S A) : travels R m -> travels R (m_try m).
Proof. intros Hm s. specialize (Hm s). unfold m_try. by destruct (m s). Qed.
Lemma travels_once {A} (R : S -> S -> Prop) (m : M S A) : (forall s, R s (m s).2) -> travels R m.
Proof. intros Hm s. by apply rtc_once. Qed.

Create HintDb travels.
#[local] Hint Resolve travels_ret travels_fail travels_lift travels_check travels_bind travels_try : travels.

(** ** The calls a submit may make *)

(** A stored envelope is a valid one, its recipient hashed. *)
Definition storable (e : Envelope) : Prop :=
  (exists submitted, validate.ValidateEnvelope submitted = None /\ e = hash_recipient submitted) /\
  (ToRecipient e = EmptyString \/ personhash.IsHash (ToRecipient e) = true).

(** A target has a sink, and a display it can show; a recipient's is the synthetic
    one, with a topic ntfy accepts; the others have a destination row. *)
Definition target_ok (e : Envelope) (t : DeliveryTarget) : Prop :=
  supportedTypes service !! Target_DestinationType t = Some true /\
  (Target_DestinationType t = registry.TypeNtfy \/ Target_DestinationType t = registry.TypeDiscord ->
     HasRenderableText (Display_ e) = true) /\
  if validate.empty (ToRecipient e) then is_Some (Target_DestinationID t)
  else t = recipient_target /\
       len (personhash.PersonChannelTopic (AppID e) (ToRecipient e) (Channel e)) <= maxNtfyTopicLength.

Definition fan_out (e : Envelope) (targets : list DeliveryTarget) : Prop :=
  targets <> [] /\ Forall (target_ok e) targets.

Inductive safe_call (s : S) : S -> Prop :=
  | call_clock : safe_call s (now service s).2
  | call_wake : safe_call s (wake service s)
  | call_get appID key : safe_call s (store_GetMessageByKey appID key s).2
  | call_resolve appID destination channel : safe_call s (service_Resolve appID destination channel s).2
  | call_publishers HasPublisher appID : publishers service = Some HasPublisher -> safe_call s (HasPublisher appID s).2
  | call_insert e targets : storable e -> fan_out e targets -> safe_call s (store_InsertMessage e targets s).2
  | call_insert_scheduled e targets t : storable e -> fan_out e targets -> DeliverAt e = Some t ->
      safe_call s (store_InsertScheduledMessage e targets
        {| PerApp := maxScheduled service; Total := maxTotal service |} s).2
  | call_hold e t : storable e -> Hold e = true -> holdUnrouted service = true ->
      ToRecipient e = EmptyString -> ToDestination e = EmptyString ->
      safe_call s (store_InsertHeldMessage e (heldCaps service) t s).2
  | call_replace e targets t : storable e -> fan_out e targets ->
      safe_call s (store_ReplaceScheduledMessage e targets t s).2.

Lemma supported_spec type : default false (supportedTypes service !! type) = true ->
  supportedTypes service !! type = Some true.
Proof. destruct (_ !! type) as [[]|]; done. Qed.

Lemma resolved_targets_ok e resolved targets : validate.empty (ToRecipient e) = true ->
  resolved_targets service e resolved = Ok targets ->
  Forall (target_ok e) targets /\ length targets = length resolved.
Proof.
  intros He. revert targets. induction resolved as [|d resolved IH]; intros targets; simpl; [by intros [= <-]|].
  case_match eqn:Hs; [done|]. apply negb_false_iff, supported_spec in Hs. case_match eqn:Hh; [done|].
  destruct (resolved_targets service e resolved) as [ts|]; [|done]. intros [= <-]. destruct (IH ts eq_refl) as [Hok Hlen].
  split; [|simpl; lia]. constructor; [|done]. split_and!; [done| |by rewrite He].
  intros Htype. apply andb_false_iff in Hh as [Hh|Hh]; [|by apply negb_false_iff].
  apply orb_false_iff in Hh as [H1 H2]. apply String.eqb_neq in H1, H2. simpl in Htype. tauto.
Qed.

(** What [resolveTargets] returns. *)
Lemma resolveTargets_ok e s targets s' : resolveTargets service e s = (Ok targets, s') -> fan_out e targets.
Proof.
  unfold resolveTargets. destruct (validate.empty (ToRecipient e)) eqn:He; simpl.
  - intros (resolved & s1 & _ & H)%m_bind_ok. case_bool_decide; [done|]. unfold m_lift in H. injection H as H _.
    apply resolved_targets_ok in H as [Hok Hlen]; [|done]. split; [|done]. intros ->. by destruct resolved.
  - unfold resolveRecipientTarget. case_match eqn:Hs; [done|]. apply negb_false_iff, supported_spec in Hs.
    case_match eqn:Hl; [done|]. case_match eqn:Hd; [done|]. apply Z.ltb_ge in Hl. apply negb_false_iff in Hd.
    destruct (publishers service) as [HasPublisher|]; [|done].
    intros (b & s1 & _ & H)%m_bind_ok. destruct b; [|done]. injection H as <- _. split; [done|].
    repeat constructor; try done. by rewrite He.
Qed.

Lemma resolveTargets_travels e : travels safe_call (resolveTargets service e).
Proof.
  unfold resolveTargets, resolveRecipientTarget.
  repeat case_match; auto with travels; apply travels_bind; try (intros; case_match; auto with travels);
    apply travels_once; intros; by constructor.
Qed.

(** Resolving, then using what it returned. *)
Lemma resolve_then {B} e (f : list DeliveryTarget -> M S B) :
  (forall targets, fan_out e targets -> travels safe_call (f targets)) ->
  travels safe_call (resolveTargets service e ≫= f).
Proof.
  intros Hf s. pose proof (resolveTargets_travels e s) as Hr. unfold mbind, m_bind.
  destruct (resolveTargets service e s) as [[ts|err] s1] eqn:E; [|done]. apply resolveTargets_ok in E.
  etrans; [exact Hr|by apply Hf].
Qed.

Lemma wake_travels b : travels safe_call (wake_unless service b).
Proof. destruct b; [apply travels_ret|]. apply travels_once. intros. constructor. Qed.

Lemma clock_travels : travels safe_call (clock service).
Proof. apply travels_once. intros s. unfold clock. rewrite (surjective_pairing (now service s)). constructor. Qed.

#[local] Hint Resolve wake_travels clock_travels resolveTargets_travels : travels.

Lemma submitExisting_travels e existing t : storable e -> travels safe_call (submitExisting service e existing t).
Proof.
  intros He. unfold submitExisting. case_match; [auto with travels|]. apply resolve_then. intros ts Hts.
  apply travels_bind; [apply travels_try, travels_once; by constructor|]. intros [[stored replaced]|err].
  - apply travels_bind; [destruct replaced; auto with travels|auto with travels].
  - case_match; [|auto with travels]. apply travels_bind; [apply travels_try, travels_once; by constructor|].
    intros [?|?]; [auto with travels|]. case_match; auto with travels.
Qed.

Lemma submitNew_travels e t : storable e -> travels safe_call (submitNew service e t).
Proof.
  intros He s. unfold submitNew, mbind at 1, m_bind at 1, m_try. pose proof (resolveTargets_travels e s) as Hr.
  destruct (resolveTargets service e s) as [[ts|err] s1] eqn:E; simpl in Hr.
  - apply resolveTargets_ok in E. etrans; [exact Hr|]. revert s1 Hr. clear -He E.
    enough (Hm : travels safe_call (insert_resolved service e ts t)) by (intros; apply Hm).
    unfold insert_resolved. apply travels_bind.
    + case_match eqn:Hf; apply travels_once; intros; [|by constructor]. unfold isFuture in Hf.
      destruct (DeliverAt e) eqn:Hd; [|done]. by eapply call_insert_scheduled.
    + intros [stored duplicate]. apply travels_bind; [destruct duplicate; auto with travels|auto with travels].
  - case_match eqn:Hc; [|done]. etrans; [exact Hr|]. bool_hyps.
    apply String.eqb_eq in H0, H1.
    enough (Hm : travels safe_call (holdMessage service e t)) by apply Hm.
    unfold holdMessage. apply travels_bind; [apply travels_once; intros; by constructor|]. intros []. auto with travels.
Qed.

Lemma hash_recipient_storable e : validate.ValidateEnvelope e = None -> storable (hash_recipient e).
Proof.
  intros He. split; [by exists e|]. unfold hash_recipient.
  destruct (validate.empty (ToRecipient e)) eqn:Hr; [apply String.eqb_eq in Hr; by left|].
  destruct (personhash.IsHash (ToRecipient e)) eqn:Hh; [by right|]. right. destruct e. apply personhash.Hash_shape.
Qed.

(** C14: Whatever the store and the registry answer, a submit makes only safe calls: it
    stores a validated envelope and nothing else, with the recipient's hash in place
    of an email address; every target has a sink, a human-facing one a display to
    render, a recipient's fits ntfy's topic length, and there is at least one; a
    message is held only when the route opted in, the service holds unrouted messages
    and neither a recipient nor a destination was named; the caps it passes are the
    configured ones. *)
Theorem Submit_safe e s : rtc safe_call s (Submit service e s).2.
Proof.
  unfold Submit. destruct (validate.ValidateEnvelope e) as [err|] eqn:He; [constructor|].
  pose proof (hash_recipient_storable e He) as Hst.
  enough (Hm : travels safe_call (nowArg ← clock service;
    find ← m_try (store_GetMessageByKey (AppID (hash_recipient e)) (IdempotencyKey (hash_recipient e)));
    match find with
    | Ok existing => settled ← submitExisting service (hash_recipient e) existing nowArg;
      match settled with Some submitted => mret submitted | None => submitNew service (hash_recipient e) nowArg end
    | Err findErr => if negb (errors_Is findErr ErrMessageNotFound) then m_fail findErr
                     else submitNew service (hash_recipient e) nowArg
    end)) by apply (Hm s).
  apply travels_bind; [apply clock_travels|]. intros t. apply travels_bind; [apply travels_try, travels_once; intros; constructor|].
  intros [existing|err].
  - apply travels_bind; [by apply submitExisting_travels|]. intros [?|]; [auto with travels|by apply submitNew_travels].
  - case_match; [auto with travels|by apply submitNew_travels].
Qed.
End any_store.

(** ** Reads *)

Section reads.
Context `{Hstd : Std} {S : Type} `{Hms : MessageStore S} (service : Service S).

Lemma Get_scoped appID id s m s' : Get appID id s = (Ok m, s') -> AppID (Message_Envelope m) = appID.
Proof.
  unfold Get. intros ([] & s1 & _ & H)%m_bind_ok. apply m_bind_ok in H as (stored & s2 & _ & H).
  destruct (String.eqb_spec (AppID (Message_Envelope stored)) appID); [|done]. by injection H as <- _.
Qed.

Definition ends (event : await_event) : Prop := event <> Tick.

Lemma await_poll_ends appID id events latest s :
  Exists ends events -> is_Some (await_poll appID id events latest s).1.
Proof.
  revert latest s. induction events as [|event events IH]; intros latest s Hex; [by inversion Hex|].
  destruct event; simpl; [by eexists|by destruct (Get appID id s) as [[?|?] ?]; eexists|].
  assert (Exists ends events) as Hrest by (inversion Hex; [by exfalso|done]).
  destruct (Get appID id s) as [[next|err] s1]; [|by eexists]. destruct (attempted next); [by eexists|by apply IH].
Qed.

Lemma await_poll_scoped appID id events latest s m err s' : AppID (Message_Envelope latest) = appID ->
  await_poll appID id events latest s = (Some (m, err), s') ->
  AppID (Message_Envelope m) = appID /\ (err = None -> attempted m = true \/ DeadlinePassed ∈ events).
Proof.
  revert latest s. induction events as [|event events IH]; intros latest s Hl; [done|]. destruct event; simpl.
  - by intros [= <- <- <-].
  - destruct (Get appID id s) as [[final|e] s1] eqn:E; intros [= <- <- <-]; [|done].
    apply Get_scoped in E. split; [done|]. intros _. right. left.
  - destruct (Get appID id s) as [[next|e] s1] eqn:E; [|by intros [= <- <- <-]]. apply Get_scoped in E.
    destruct (attempted next) eqn:Ha; [intros [= <- <- <-]; by split; [|left]|].
    intros H. apply IH in H as [? Hn]; [|done]. split; [done|]. intros He. destruct (Hn He); [by left|right; by right].
Qed.

(** Await over any store: it returns once its deadline passes or its context is
    done, whatever else happens; it never returns a message of another app, which Get
    reports as absent; and a return without an error is a message whose deliveries
    have all been attempted, unless the timeout was not positive, every slot was
    taken, or the deadline passed. *)
Theorem Await_correct taken events appID id timeout s :
  (Exists ends events -> is_Some (Await service taken events appID id timeout s).1) /\
  forall r s', Await service taken events appID id timeout s = (Some r, s') ->
    match r with
    | Err e => Get appID id s = (Err e, s')
    | Ok (m, err) =>
      AppID (Message_Envelope m) = appID /\
      (err = None -> attempted m = true \/ timeout <= 0 \/ awaitSlots service <= taken \/ DeadlinePassed ∈ events)
    end.
Proof.
  unfold Await. destruct (Get appID id s) as [[latest|e] s1] eqn:E.
  2: { split; [by eexists|]. by intros r s' [= <- <-]. }
  apply Get_scoped in E. split.
  - intros Hex. case_match; [by eexists|]. case_match; [by eexists|].
    pose proof (await_poll_ends appID id events latest s1 Hex) as [x Hx].
    destruct (await_poll _ _ _ _ _) as [polled s2]. simpl in Hx. subst polled. by eexists.
  - intros r s'. destruct ((timeout <=? 0) || attempted latest) eqn:Ht.
    { intros [= <- <-]. split; [done|]. intros _. apply orb_true_iff in Ht as [Ht%Z.leb_le|Ht]; tauto. }
    destruct (Z.leb_spec (awaitSlots service) taken); [intros [= <- <-]; tauto|].
    destruct (await_poll _ _ _ _ _) as [[[m err]|] s2] eqn:Hp; [|done]. intros [= <- <-].
    apply await_poll_scoped in Hp as [? Hn]; [|done]. split; [done|]. intros He. destruct (Hn He); tauto.
Qed.
End reads.
