(* ===== verification/MessageRefine.v ===== *)
(** * MessageRefine

    The message service over the Postgres store, other transactions committing between
    any two of its statements: a submit behaves as one atomic operation. *)

From S2P Require Import Prelude GoText Utf8 Std Idents Registry Message MessageValidate MessageStore MessageInv MessageSteps MessageReach MessageProps MessageService.
Open Scope Z_scope.
Import message message_pg message_service.

(** ** Inserts with other transactions inside *)

Section gaps.
Context `{Hpg : Pg}.
Context (others : DB -> DB -> Prop) `{!PreOrder others}.

(** A result reached at a state other transactions led to. *)
Definition after {A} (P : DB -> result A -> DB -> Prop) (db : DB) (r : result A) (db' : DB) : Prop :=
  exists db1, others db db1 /\ P db1 r db'.

Lemma after_here {A} (P : DB -> result A -> DB -> Prop) db r db' : P db r db' -> after P db r db'.
Proof. intros H. exists db. by split. Qed.

(** Retries: an attempt that fails changes nothing itself. *)
Lemma retry_after {A} (P : DB -> result A -> DB -> Prop) tries gaps (once : (DB -> DB) -> M DB A) e0 db r db' :
  (forall i db, others db (gaps i db)) -> (forall err db, P db (Err err) db) ->
  (forall err db db', P db (Err err) db' -> db' = db) ->
  (forall gap db r db', others db (gap db) -> once gap db = (r, db') -> after P db r db') ->
  retry_insert tries gaps once e0 db = (r, db') -> after P db r db'.
Proof.
  intros Hg Herr Hsame Honce. revert gaps db Hg. induction tries as [|tries IH]; intros gaps db Hg; simpl.
  { intros [= <- <-]. by apply after_here. }
  destruct (once (gaps 0%nat) db) as [[a|e] db1] eqn:E; apply Honce in E; [|done| |done].
  - by intros [= <- <-].
  - case_match; [|by intros [= <- <-]]. intros Hr. apply IH in Hr as (db2 & Ho & HP); [|by intros; apply Hg].
    destruct E as (db3 & Ho3 & ->%Hsame). exists db2. split; [|done]. by etrans.
Qed.

(** One transaction, met by another between its conflict and its re-select. *)
Lemma insert_or_select_after insert e fill gap db r db' :
  (forall db db', insert db = (Ok None, db') -> db' = db) ->
  others db (gap db) -> insert_or_select gap insert e fill db = (r, db') ->
  after (fun db r db' =>
    (exists err, r = Err err /\ db' = db) \/
    (exists m id row, r = Ok (m, true) /\ db' = db /\ by_key (AppID e) (IdempotencyKey e) db = Some id /\ reads db id row m) \/
    (exists id db1 m, r = Ok m /\ insert db = (Ok (Some id), db1) /\ fill id db1 = (Ok m, db'))) db r db'.
Proof.
  intros Hsame Hg. unfold insert_or_select. destruct (insert db) as [[[id|]|err] db1] eqn:E.
  - destruct (fill id db1) as [[m|err] db2] eqn:Ef; intros [= <- <-]; apply after_here; [|left; by eexists].
    right. right. by exists id, db1, m.
  - apply Hsame in E as ->. unfold mbind, m_bind.
    pose proof (queryMessage_state (by_key (AppID e) (IdempotencyKey e)) (gap db)) as Hq.
    destruct (queryMessage _ (gap db)) as [[m|err] db2] eqn:Eq; simpl in Hq; subst db2; intros [= <- <-];
      exists (gap db); (split; [done|]); [|left; by eexists].
    apply queryMessage_ok in Eq as (_ & id & row & Hk & Hr). right. left. by exists m, id, row.
  - intros [= <- <-]. apply after_here. left. by eexists.
Qed.

Lemma insertWithRetry_after gaps uuid e targets sch caps db r db' : (forall i db, others db (gaps i db)) ->
  insertWithRetry gaps uuid e targets sch caps db = (r, db') ->
  after (insert_outcome uuid e targets sch caps) db r db'.
Proof.
  intros Hg. unfold insertWithRetry. destruct (Z.eqb_spec (Z.of_nat (length targets)) 0) as [_|Hne].
  { intros [= <- <-]. apply after_here. constructor. }
  cbv zeta. unfold mbind at 1, m_bind at 1, m_lift, encodeDisplay. fold (json_display (Display_ e)).
  apply retry_after; [done|constructor|by inversion 1|]. clear db r db'. intros gap db r db' Hgap Hrun.
  apply insert_or_select_after in Hrun as (db1 & Ho & Hcase); [|by intros ? ?; apply insert_message_same|done].
  exists db1. split; [done|]. destruct Hcase as [(err & -> & ->)|[(m & id & row & -> & -> & Hk & Hr)|(id & db2 & [m dup] & -> & Hi & Hf)]].
  - constructor.
  - by eapply insert_duplicate.
  - apply insert_message_ok in Hi as (-> & row & Hrow & Hck & Hk & Hu & ->).
    apply fill_message_ok in Hf as (-> & Hins & Hcaps & Hread). eapply insert_new; try done. by intros ->.
Qed.

Lemma InsertHeldMessage_after gaps uuid e caps nowArg db r db' : (forall i db, others db (gaps i db)) ->
  InsertHeldMessage gaps uuid e caps nowArg db = (r, db') -> after (held_outcome uuid e caps nowArg) db r db'.
Proof.
  intros Hg. unfold InsertHeldMessage. repeat (case_match; [intros [= <- <-]; apply after_here; constructor|]).
  unfold mbind at 1, m_bind at 1, m_lift, encodeDisplay. fold (json_display (Display_ e)).
  apply retry_after; [done|constructor|by inversion 1|]. clear db r db'. intros gap db r db' Hgap Hrun.
  apply insert_or_select_after in Hrun as (db1 & Ho & Hcase); [|by intros ? ?; apply insert_message_same|done].
  exists db1. split; [done|]. destruct Hcase as [(err & -> & ->)|[(m & id & row & -> & -> & Hk & Hr)|(id & db2 & [m dup] & -> & Hi & Hf)]].
  - constructor.
  - by eapply held_duplicate.
  - apply insert_message_ok in Hi as (-> & row & Hrow & Hck & Hk & Hu & ->).
    apply fill_held_ok in Hf as (-> & -> & ? & ? & Hread). by eapply held_new.
Qed.

Lemma InsertScheduledMessage_after gaps uuid e targets caps db r db' : (forall i db, others db (gaps i db)) ->
  InsertScheduledMessage gaps uuid e targets caps db = (r, db') ->
  (exists err, r = Err err /\ db' = db) \/
  (exists t, DeliverAt e = Some t /\ after (insert_outcome uuid e targets (schedule_at t) caps) db r db').
Proof.
  intros Hg. unfold InsertScheduledMessage. destruct (DeliverAt e) as [t|]; [|intros [= <- <-]; left; by eexists].
  repeat (case_match; [intros [= <- <-]; left; by eexists|]). intros Hrun%insertWithRetry_after; [|done]. right. by exists t.
Qed.
End gaps.

(** ** The store among other transactions *)

(** What a call of the service meets: the transactions that commit before it and within
    it, the uuid a new row is given, the clock, and the answers of the registry and of
    the publishers. *)
Record turn := {
  before : DB -> DB;
  turn_gaps : nat -> DB -> DB;
  turn_uuid : string;
  turn_clock : Z;
  turn_resolve : string -> string -> string -> result (list registry.ResolvedDestination);
  turn_publisher : string -> result bool
}.

(** The tables, what each call still to come meets, and how often the worker was woken. *)
Record world := { tables : DB; turns : nat -> turn; calls : nat; wakes : nat }.

Definition next_call (w : world) : world := w {{ calls := S (calls w) }}.

Section world.
Context `{Hpg : Pg}.

Definition pg_call {A} (op : turn -> M DB A) : M world A := fun w =>
  let t := turns w (calls w) in
  let (r, db) := op t (before t (tables w)) in
  (r, next_call (w {{ tables := db }})).

#[global] Instance pg_message_store : MessageStore world := {|
  store_InsertMessage e targets := pg_call (fun t => InsertMessage (turn_gaps t) (turn_uuid t) e targets);
  store_GetMessage id := pg_call (fun _ => GetMessage id);
  store_GetMessageByKey appID key := pg_call (fun _ => GetMessageByKey appID key);
  store_ListDeliveries state limit := pg_call (fun _ => ListDeliveries state limit);
  store_ListAttempts deliveryID := pg_call (fun _ => ListAttempts deliveryID);
  store_Replay deliveryID nowArg := pg_call (fun _ => Replay deliveryID nowArg);
  store_InsertScheduledMessage e targets caps :=
    pg_call (fun t => InsertScheduledMessage (turn_gaps t) (turn_uuid t) e targets caps);
  store_InsertHeldMessage e caps nowArg :=
    pg_call (fun t => InsertHeldMessage (turn_gaps t) (turn_uuid t) e caps nowArg);
  store_ReplaceScheduledMessage e targets nowArg := pg_call (fun _ => ReplaceScheduledMessage e targets nowArg);
  store_CancelMessage id appID nowArg := pg_call (fun _ => CancelMessage id appID nowArg);
  store_AdminCancelMessage id nowArg := pg_call (fun _ => AdminCancelMessage id nowArg);
  store_CancelMessageByKey appID key nowArg := pg_call (fun _ => CancelMessageByKey appID key nowArg);
  store_ListScheduled limit := pg_call (fun _ => ListScheduled limit)
|}.

#[global] Instance world_resolver : MessageResolver world := {|
  service_Resolve appID destination channel := fun w =>
    (turn_resolve (turns w (calls w)) appID destination channel, next_call w)
|}.

(** A configuration of the service in this world, whatever its settings. *)
Definition in_world (config : ServiceConfig world) : ServiceConfig world :=
  config {{ Config_Publishers := match Config_Publishers config with
                                 | Some _ => Some (fun appID w => (turn_publisher (turns w (calls w)) appID, next_call w))
                                 | None => None
                                 end;
            Wake := Some (fun w => w {{ wakes := S (wakes w) }});
            Now := fun w => (turn_clock (turns w (calls w)), next_call w) }}.
End world.

(** ** Submit as one atomic operation *)

Section refine.
Context `{Hstd : Std} `{Hpg : Pg} (config : ServiceConfig world).

Definition service : Service world := NewService (in_world config).
Definition caps : ScheduledCaps := {| PerApp := maxScheduled service; Total := maxTotal service |}.

Definition others : DB -> DB -> Prop := rtc (step caps (heldCaps service)).

Lemma others_trans db1 db2 db3 : others db1 db2 -> others db2 db3 -> others db1 db3.
Proof. intros H1 H2. unfold others in *. exact (transitivity H1 H2). Qed.

(** Other transactions are operations of the store; new ids are canonical uuids. *)
Definition turn_ok (t : turn) : Prop :=
  (forall db, others db (before t db)) /\ (forall i db, others db (turn_gaps t i db)) /\ uuid_text (turn_uuid t) = turn_uuid t.

Definition world_ok (w : world) : Prop :=
  reachable caps (heldCaps service) (tables w) /\ forall n, turn_ok (turns w n).

(** What a submit of [e], read as of time [t], may do in one step: fail, or report a
    message already stored, and change nothing; or store a new message, at once,
    scheduled or held; or replace a scheduled one.  [woken] is whether the worker is
    woken. *)
#[local] Unset Elimination Schemes.
Inductive submitted (e : Envelope) (t : Z) (db : DB) : result (StoredMessage * SubmitOutcome) -> bool -> DB -> Prop :=
  | submitted_refused err : submitted e t db (Err err) false db
  | submitted_duplicate m id r scheduled :
      by_key (AppID e) (IdempotencyKey e) db = Some id -> reads db id r m ->
      (scheduled = true -> is_scheduled m = true) ->
      submitted e t db (Ok (m, {| Duplicate := true; Replaced := false; Scheduled := scheduled; Held := false |})) false db
  | submitted_now m uuid targets db' :
      isFuture (DeliverAt e) t = false -> insert_outcome uuid e targets pendingNow no_caps db (Ok (m, false)) db' ->
      submitted e t db (Ok (m, {| Duplicate := false; Replaced := false; Scheduled := false; Held := false |})) true db'
  | submitted_scheduled m uuid targets at_ db' :
      DeliverAt e = Some at_ -> t < at_ -> insert_outcome uuid e targets (schedule_at at_) caps db (Ok (m, false)) db' ->
      submitted e t db (Ok (m, {| Duplicate := false; Replaced := false; Scheduled := true; Held := false |})) false db'
  | submitted_held m uuid db' :
      Hold e = true -> holdUnrouted service = true ->
      held_outcome uuid e (heldCaps service) t db (Ok (m, false)) db' ->
      submitted e t db (Ok (m, {| Duplicate := false; Replaced := false; Scheduled := false; Held := true |})) false db'
  | submitted_replaced m targets db' :
      replace_outcome e targets t db (Ok (m, true)) db' ->
      submitted e t db (Ok (m, {| Duplicate := false; Replaced := true; Scheduled := isFuture (DeliverAt e) t; Held := false |}))
        (negb (isFuture (DeliverAt e) t)) db'.

#[local] Set Elimination Schemes.

(** *** Worlds other transactions lead to *)

Definition passes (w w' : world) : Prop := others (tables w) (tables w') /\ wakes w' = wakes w /\ turns w' = turns w.

Lemma passes_trans w1 w2 w3 : passes w1 w2 -> passes w2 w3 -> passes w1 w3.
Proof. intros (H1 & E1 & T1) (H2 & E2 & T2). split_and!; [by eapply others_trans|congruence..]. Qed.

Lemma reachable_others db db' : reachable caps (heldCaps service) db -> others db db' ->
  reachable caps (heldCaps service) db'.
Proof. intros Hr Ho. unfold reachable, others in *. exact (transitivity Hr Ho). Qed.

Lemma passes_ok w w' : world_ok w -> passes w w' -> world_ok w'.
Proof. intros [Hr Ht] (Ho & _ & Hturns). split; [by eapply reachable_others|]. by rewrite Hturns. Qed.

Lemma ok_wf w : world_ok w -> wf (tables w) /\ wf_log (tables w).
Proof. intros [Hr _]. by eapply reachable_wf. Qed.

Lemma others_wf w db : world_ok w -> others (tables w) db -> wf db /\ wf_log db.
Proof. intros [Hr _] Ho. eapply reachable_wf. by eapply reachable_others. Qed.

(** [w'] is where submitting in [w] may lead, in one step among other transactions. *)
Definition submits (e : Envelope) (t : Z) (w : world) (r : result (StoredMessage * SubmitOutcome)) (w' : world) : Prop :=
  exists db db' woken, others (tables w) db /\ submitted e t db r woken db' /\ others db' (tables w') /\
    wakes w' = (wakes w + if woken then 1 else 0)%nat.

Lemma submits_after e t w w1 r w' : passes w w1 -> submits e t w1 r w' -> submits e t w r w'.
Proof.
  intros (Ho & Hw & _) (db & db' & woken & H1 & H2 & H3 & H4). exists db, db', woken.
  rewrite <- Hw. split_and!; [by eapply others_trans|done..].
Qed.

Lemma submits_refused e t w err w' : passes w w' -> submits e t w (Err err) w'.
Proof.
  intros (Ho & Hw & _). exists (tables w'), (tables w'), false. split_and!; [done|constructor|constructor|lia].
Qed.

(** A call of the store: other transactions, then the operation. *)
Lemma pg_call_run {A} (op : turn -> M DB A) w r w' : world_ok w -> pg_call op w = (r, w') ->
  exists t db, turn_ok t /\ others (tables w) db /\ op t db = (r, tables w') /\ wakes w' = wakes w /\ turns w' = turns w.
Proof.
  intros [_ Ht]. unfold pg_call. destruct (op _ _) as [r1 db1] eqn:E. intros [= <- <-]. destruct w as [db ts c k]. simpl in *.
  exists (ts c), (before (ts c) db). split_and!; try done. apply Ht.
Qed.

(** A read changes nothing. *)
Lemma read_run w appID key r w' : world_ok w -> store_GetMessageByKey appID key w = (r, w') ->
  passes w w' /\ forall m, r = Ok m ->
    exists id row, by_key appID key (tables w') = Some id /\ reads (tables w') id row m.
Proof.
  intros Hok Hrun. cbn [store_GetMessageByKey pg_message_store] in Hrun.
  apply pg_call_run in Hrun as (t & db & _ & Ho & Hop & Hw & Ht); [|done].
  unfold GetMessageByKey in Hop. pose proof (queryMessage_state (by_key appID key) db) as Hs. rewrite Hop in Hs.
  simpl in Hs. subst db. split; [done|]. intros m ->. by apply queryMessage_ok in Hop as (_ & ?).
Qed.

Lemma resolve_passes w r w' e : world_ok w -> resolveTargets service e w = (r, w') -> passes w w'.
Proof.
  intros Hok. assert (Hnext : passes w (next_call w)) by (destruct w; split_and!; [constructor|done..]).
  assert (Hself : passes w w) by (split_and!; [constructor|done..]).
  unfold resolveTargets, resolveRecipientTarget, m_fail. repeat case_match; try (by intros [= _ <-]).
  - unfold mbind, m_bind. unfold service, NewService, in_world in *. simpl in *.
    destruct (Config_Publishers config); [|done]. simplify_eq/=. repeat case_match; by intros [= _ <-].
  - unfold mbind, m_bind. simpl. repeat case_match; by intros [= _ <-].
Qed.

(** *** The status of what was stored *)

Lemma is_scheduled_phase db id r m p : wf db -> reads db id r m -> phase_ok p r (has db id) ->
  is_scheduled m = bool_decide (p = PScheduled).
Proof.
  intros Hwf Hrd Hp. pose proof (proj1 Hrd) as Hr. destruct (wf_message _ Hwf _ _ Hr) as (_ & [_ Hrf] & _).
  unfold is_scheduled. rewrite (reads_state _ _ _ _ Hrd).
  pose proof (scheduled_status db id r (Deliveries m) p Hr Hp (fun d => reads_deliveries _ _ _ _ d Hrd)) as Hs.
  apply eq_bool_prop_intro. rewrite !Is_true_true, String.eqb_eq, bool_decide_eq_true, Hs. tauto.
Qed.

Lemma inserted_scheduled uuid e targets sch cs p db m db' : wf db -> wf_log db -> uuid_text uuid = uuid ->
  p = PScheduled \/ p = PActive -> schedule_phase e sch p ->
  insert_outcome uuid e targets sch cs db (Ok (m, false)) db' -> is_scheduled m = bool_decide (p = PScheduled).
Proof.
  intros Hwf Hl Hid Hp Hsch Hout. pose proof (insert_sound _ _ _ _ _ _ _ _ _ Hwf Hl Hid Hsch Hout) as [Hwf' _ _].
  destruct (insert_births _ _ _ _ _ _ _ _ _ Hwf Hp Hsch Hout) as (_ & _ & Hborn).
  inversion Hout as [| |m' row db1 db2 _ _ _ Hu _ _ _ _ (id' & r & Hw & Hrd)]; subst m' db2.
  apply by_id_Some in Hw as ->. rewrite Hid in Hrd. pose proof (proj1 Hrd) as Hr.
  destruct (Hborn uuid Hu ltac:(by eexists)) as [_ (r' & Hr' & Hph)]. replace r' with r in Hph by congruence.
  by eapply is_scheduled_phase.
Qed.

Lemma replace_schedule_state deliverAt t :
  schedule_state (replace_schedule deliverAt t).1 = if isFuture deliverAt t then StateScheduled else StatePending.
Proof. unfold replace_schedule, isFuture. by repeat case_match. Qed.

Lemma replaced_scheduled e targets t db m db' : wf db -> wf_log db ->
  replace_outcome e targets t db (Ok (m, true)) db' -> is_scheduled m = isFuture (DeliverAt e) t.
Proof.
  intros Hwf Hl Hout. pose proof (replace_sound _ _ _ _ _ _ Hwf Hl Hout) as [Hwf' _ _].
  inversion Hout as [| |m' id r content db1 db2 Hk Hr Hp Hne Hrow Hck Hdb1 Hins (id' & r' & Hw & Hrd)]; subst m' db2.
  destruct (wf_message _ Hwf _ _ Hr) as (Hid & _). apply by_id_Some in Hw as ->. rewrite Hid in Hrd.
  pose proof (proj1 Hrd) as Hr'. destruct (wf_message _ Hwf' _ _ Hr') as (_ & _ & p & Hp').
  rewrite (is_scheduled_phase _ _ _ _ _ Hwf' Hrd Hp').
  assert (Hf : fresh_ids db1).
  { subst db1. intros i d Hi. apply lookup_delete_deliveries in Hi as [Hi _]. simpl in Hi. apply (wf_delivery _ Hwf _ _ Hi). }
  apply insertDeliveries_ok in Hins as [Hins _]; [|done]. destruct targets as [|target targets]; [done|].
  assert (Hin : exists d, has db' id d /\ State d = schedule_state (replace_schedule (DeliverAt e) t).1).
  { simpl in Hins. eexists. split; [eexists; split; [apply (ins_rows _ _ _ _ Hins); right; split; [left|reflexivity]|reflexivity]|].
    reflexivity. }
  destruct Hin as (d & Hd & Hs). rewrite replace_schedule_state in Hs.
  destruct p; simpl in Hp'.
  - by destruct Hp' as (_ & _ & _ & Hn); destruct (Hn d).
  - by destruct Hp' as (_ & _ & _ & Hn); destruct (Hn d).
  - destruct Hp' as (_ & _ & t' & _ & Hall). destruct (Hall d Hd) as [Hs' _]. rewrite Hs' in Hs.
    by destruct (isFuture (DeliverAt e) t).
  - destruct Hp' as (_ & _ & _ & _ & Hall). rewrite (Hall d Hd) in Hs. by destruct (isFuture (DeliverAt e) t).
  - destruct Hp' as (_ & _ & Hall). specialize (Hall d Hd). rewrite Hs in Hall.
    destruct (isFuture (DeliverAt e) t); [|done]. by destruct Hall as [|[|]].
Qed.

(** *** The branches of a submit *)

Lemma wake_run b w :
  wake_unless service b w = (Ok tt, w {{ wakes := (wakes w + if b then 0 else 1)%nat }}).
Proof. destruct w as [db ts c k], b; simpl; rewrite ?Nat.add_0_r, ?Nat.add_1_r; done. Qed.

(** A submit that ends with a call of the store, and perhaps a wake. *)
Lemma submits_call e t w db r woken db' w' : others (tables w) db -> submitted e t db r woken db' ->
  tables w' = db' -> wakes w' = (wakes w + if woken then 1 else 0)%nat -> submits e t w r w'.
Proof. intros Ho Hs <- Hw. exists db, (tables w'), woken. split_and!; [done..|constructor|done]. Qed.

Lemma passes_self w : passes w w.
Proof. split_and!; [constructor|done..]. Qed.

Lemma others_refl db : others db db.
Proof. unfold others. constructor. Qed.

Lemma duplicate_now e t w m id r : by_key (AppID e) (IdempotencyKey e) (tables w) = Some id ->
  reads (tables w) id r m -> submits e t w (Ok (m, newSubmitOutcome m true false)) w.
Proof.
  intros Hk Hr. eapply submits_call; [apply others_refl|by eapply submitted_duplicate|done|simpl; lia].
Qed.

(** After the insert of a new message: the outcome, and the wake. *)
Definition finish_insert (inserted : StoredMessage * bool) : M world (StoredMessage * SubmitOutcome) :=
  let outcome := newSubmitOutcome inserted.1 inserted.2 false in
  _ ← (if inserted.2 then mret tt else wake_unless service (Scheduled outcome));
  mret (inserted.1, outcome).

Lemma finish_insert_submits e t w uuid targets sch cs p m dup w1 r w' : world_ok w -> uuid_text uuid = uuid ->
  p = PScheduled \/ p = PActive -> schedule_phase e sch p ->
  (forall db m db', insert_outcome uuid e targets sch cs db (Ok (m, false)) db' ->
     submitted e t db (Ok (m, {| Duplicate := false; Replaced := false; Scheduled := bool_decide (p = PScheduled);
                                 Held := false |})) (negb (bool_decide (p = PScheduled))) db') ->
  (exists db, others (tables w) db /\ insert_outcome uuid e targets sch cs db (Ok (m, dup)) (tables w1)) ->
  wakes w1 = wakes w -> finish_insert (m, dup) w1 = (r, w') -> submits e t w r w'.
Proof.
  intros Hok Hid Hp Hsch Hnew (db & Ho & Hout) Hwk. destruct (others_wf _ _ Hok Ho) as [Hwf Hl].
  unfold finish_insert, mbind, m_bind. destruct dup; cbn [fst snd].
  - intros [= <- <-]. inversion Hout as [|m' id row Hk Hr|]; subst.
    eapply submits_call; [exact Ho|by eapply submitted_duplicate|done|simpl; lia].
  - rewrite wake_run. intros [= <- <-].
    pose proof (inserted_scheduled _ _ _ _ _ _ _ _ _ Hwf Hl Hid Hp Hsch Hout) as Hs.
    specialize (Hnew _ _ _ Hout). rewrite <- Hs in Hnew.
    eapply submits_call; [exact Ho|exact Hnew|by destruct w1|].
    unfold newSubmitOutcome. simpl. rewrite <- Hwk. destruct w1, (is_scheduled m); simpl; lia.
Qed.

Lemma failed_insert uuid e targets sch cs db err db' :
  insert_outcome uuid e targets sch cs db (Err err) db' -> db' = db.
Proof. by inversion 1. Qed.

Lemma insert_resolved_submits e targets t w r w' : world_ok w -> insert_resolved service e targets t w = (r, w') ->
  submits e t w r w'.
Proof.
  intros Hok. unfold insert_resolved, mbind, m_bind. fold caps.
  destruct (isFuture (DeliverAt e) t) eqn:Hf; cbn [store_InsertScheduledMessage store_InsertMessage pg_message_store].
  - destruct (pg_call _ w) as [res w1] eqn:E. apply pg_call_run in E as (u & db & (_ & Hg & Hid) & Ho & Hop & Hw & Ht); [|done].
    apply (InsertScheduledMessage_after others) in Hop as [(err & -> & Heq)|(at_ & Hat & db1 & Ho1 & Hout)]; [| |done].
    { intros [= <- <-]. apply submits_refused. split_and!; [by rewrite Heq|done..]. }
    pose proof (others_trans _ _ _ Ho Ho1) as Ho2.
    destruct res as [[m dup]|err].
    2: { apply failed_insert in Hout. intros [= <- <-]. apply submits_refused. split_and!; [by rewrite Hout|done..]. }
    intros Hrun. eapply (finish_insert_submits e t w (turn_uuid u) targets (schedule_at at_) caps PScheduled m dup w1);
      [done|done|by left|split; [done|by exists at_]| |by exists db1|done|exact Hrun].
    intros db2 m' db' Hout'. eapply submitted_scheduled; [exact Hat| |exact Hout'].
    rewrite Hat in Hf. by apply Z.ltb_lt in Hf.
  - destruct (pg_call _ w) as [res w1] eqn:E. apply pg_call_run in E as (u & db & (_ & Hg & Hid) & Ho & Hop & Hw & Ht); [|done].
    apply (insertWithRetry_after others) in Hop as (db1 & Ho1 & Hout); [|done].
    pose proof (others_trans _ _ _ Ho Ho1) as Ho2.
    destruct res as [[m dup]|err].
    2: { apply failed_insert in Hout. intros [= <- <-]. apply submits_refused. split_and!; [by rewrite Hout|done..]. }
    intros Hrun. eapply (finish_insert_submits e t w (turn_uuid u) targets pendingNow no_caps PActive m dup w1);
      [done|done|by right|done| |by exists db1|done|exact Hrun].
    intros db2 m' db' Hout'. by eapply submitted_now.
Qed.

Lemma hold_submits e t w r w' : world_ok w -> Hold e = true -> holdUnrouted service = true ->
  holdMessage service e t w = (r, w') -> submits e t w r w'.
Proof.
  intros Hok Hh Hu. unfold holdMessage, mbind, m_bind. cbn [store_InsertHeldMessage pg_message_store].
  destruct (pg_call _ w) as [res w1] eqn:E. apply pg_call_run in E as (u & db & (_ & Hg & _) & Ho & Hop & Hw & Ht); [|done].
  apply (InsertHeldMessage_after others) in Hop as (db1 & Ho1 & Hout); [|done]. pose proof (others_trans _ _ _ Ho Ho1) as Ho2.
  destruct res as [[m dup]|err]; intros [= <- <-].
  - destruct dup.
    + inversion Hout as [|m' id row Hk Hr|]; subst. eapply submits_call; [exact Ho2|by eapply submitted_duplicate|done|simpl; lia].
    + eapply submits_call; [exact Ho2|by eapply submitted_held|done|simpl; lia].
  - apply submits_refused. split_and!; [|done..]. inversion Hout as [| |]. congruence.
Qed.

Lemma submitNew_submits e t w r w' : world_ok w -> submitNew service e t w = (r, w') -> submits e t w r w'.
Proof.
  intros Hok. unfold submitNew, mbind, m_bind, m_try.
  destruct (resolveTargets service e w) as [res w1] eqn:E. apply resolve_passes in E; [|done].
  pose proof (passes_ok _ _ Hok E) as Hok1. intros Hrun. apply (submits_after _ _ _ _ _ _ E).
  destruct res as [targets|err].
  - by apply (insert_resolved_submits e targets).
  - case_match eqn:Hc; [|injection Hrun as <- <-; apply submits_refused, passes_self]. bool_hyps. by apply hold_submits.
Qed.

(** The branch of an existing message: settled, or nothing but other transactions. *)
Lemma submitExisting_submits e existing t w res w' : world_ok w ->
  (exists id row, by_key (AppID e) (IdempotencyKey e) (tables w) = Some id /\ reads (tables w) id row existing) ->
  submitExisting service e existing t w = (res, w') ->
  match res with
  | Ok None => passes w w'
  | Ok (Some submitted) => submits e t w (Ok submitted) w'
  | Err err => submits e t w (Err err) w'
  end.
Proof.
  intros Hok (id & row & Hk & Hr). unfold submitExisting.
  case_match; [intros [= <- <-]; by eapply duplicate_now|].
  unfold mbind, m_bind. destruct (resolveTargets service e w) as [tres w1] eqn:E. apply resolve_passes in E; [|done].
  pose proof (passes_ok _ _ Hok E) as Hok1.
  destruct tres as [targets|err]; [|intros [= <- <-]; by apply submits_refused].
  unfold m_try at 1. cbn [store_ReplaceScheduledMessage pg_message_store].
  destruct (pg_call _ w1) as [rres w2] eqn:E2. apply pg_call_run in E2 as (u & db & _ & Ho & Hop & Hw & Ht); [|done].
  destruct (others_wf _ _ Hok1 Ho) as [Hwf Hl]. apply ReplaceScheduledMessage_outcome in Hop; [|done].
  destruct rres as [[m replaced]|rerr].
  - intros Hrun. destruct replaced.
    + rewrite wake_run in Hrun. injection Hrun as <- <-. apply (submits_after _ _ _ _ _ _ E).
      unfold newSubmitOutcome. rewrite (replaced_scheduled _ _ _ _ _ _ Hwf Hl Hop). simpl.
      eapply submits_call; [exact Ho|by eapply submitted_replaced|by destruct w2|].
      destruct w2, (isFuture (DeliverAt e) t); simpl in *; lia.
    + injection Hrun as <- <-. apply (submits_after _ _ _ _ _ _ E).
      inversion Hop as [|m' id' row' Hk' Hr' Hn|]; subst.
      eapply submits_call; [exact Ho|by eapply submitted_duplicate|done|simpl; lia].
  - assert (Hdb : tables w2 = db) by (by inversion Hop). assert (E2 : passes w1 w2) by (split_and!; congruence).
    pose proof (passes_trans _ _ _ E E2) as E3. pose proof (passes_ok _ _ Hok E3) as Hok2.
    case_match; [|intros [= <- <-]; by apply submits_refused].
    unfold m_try. destruct (store_GetMessageByKey _ _ w2) as [gres w3] eqn:E4. apply read_run in E4 as [E4 Hread]; [|done].
    destruct gres as [current|gerr].
    + intros [= <- <-]. destruct (Hread _ eq_refl) as (id' & row' & Hk' & Hr').
      eapply submits_after; [by eapply passes_trans|]. by eapply duplicate_now.
    + case_match; intros [= <- <-]; [by eapply passes_trans|]. apply submits_refused. by eapply passes_trans.
Qed.

(** C2: A submit to the service over Postgres is linearizable.  Whatever other
    transactions of the store commit before, between and within its statements, and
    whatever the registry answers, its result and what it leaves are those of one
    atomic step among them: it fails, or reports the message already stored under the
    key, and changes nothing; or stores one new message, due at once (the only case,
    with a replace that releases, that wakes the worker), scheduled for a future
    deliver_at, or held; or replaces a message still scheduled. *)
Theorem Submit_linearizable e w r w' : world_ok w -> Submit service e w = (r, w') ->
  exists t, submits (hash_recipient e) t w r w'.
Proof.
  intros Hok. unfold Submit. destruct (validate.ValidateEnvelope e) as [err|].
  { intros [= <- <-]. exists 0. apply submits_refused, passes_self. }
  cbn [m_check]. set (h := hash_recipient e). set (t := turn_clock (turns w (calls w))). set (w1 := next_call w).
  assert (E1 : passes w w1) by (destruct w; split_and!; [apply others_refl|done..]).
  pose proof (passes_ok _ _ Hok E1) as Hok1. intros Hrun. exists t. apply (submits_after _ _ _ _ _ _ E1).
  unfold mbind, m_bind, mret, m_ret, m_try in Hrun. change (clock service w) with (Ok (A := Z) t, w1) in Hrun.
  cbv beta iota in Hrun. fold h in Hrun.
  destruct (store_GetMessageByKey _ _ w1) as [found w2] eqn:E2.
  apply read_run in E2 as [E2 Hread]; [|done]. pose proof (passes_ok _ _ Hok1 E2) as Hok2.
  apply (submits_after _ _ _ _ _ _ E2). destruct found as [existing|findErr].
  - destruct (submitExisting service h existing t w2) as [settled w3] eqn:E3.
    apply submitExisting_submits in E3; [|done|by apply Hread].
    destruct settled as [[s|]|err]; [by injection Hrun as <- <-| |by injection Hrun as <- <-].
    apply (submits_after _ _ _ _ _ _ E3). apply submitNew_submits; [by eapply passes_ok|done].
  - destruct (errors_Is findErr ErrMessageNotFound); [by apply submitNew_submits|].
    injection Hrun as <- <-. apply submits_refused, passes_self.
Qed.
End refine.
