(* ===== verification/MessageDemo.v ===== *)
(** * MessageDemo

    A concrete Postgres and concrete runs of the store and of the message service over
    it: the theorems on messages applied where their hypotheses hold. *)

From S2P Require Import Prelude GoText Utf8 Std Idents Registry Message MessageValidate MessageStore MessageInv MessageSteps MessageReach MessageProps MessageQueueProps MessageRetention MessageService MessageServiceProps MessageRefine.
Open Scope Z_scope.
Import message message_pg.

Module message_demo.
(** Microsecond timestamps; documents are kept as they are, and a display is
    marshalled field by field. *)
#[global] Instance demo_pg : Pg := {|
  timestamptz t := time.Truncate t Microsecond;
  jsonb text := Some text;
  jsonb_object _ := true;
  json_marshal_display d := (Title d +:+ "|" +:+ Body d +:+ "|" +:+ Display_URL d +:+ "|" +:+ Priority d)%string;
  json_unmarshal_display text := Some (zero_display {{ Title := text }})
|}.

Lemma Truncate_shift t k : time.Truncate (t + k * Microsecond) Microsecond = time.Truncate t Microsecond + k * Microsecond.
Proof. unfold time.Truncate. rewrite Z.mod_add by done. lia. Qed.

#[global] Instance demo_pg_laws : PgLaws demo_pg.
Proof.
  split.
  - intros t u. by apply time.Truncate_mono.
  - intros t. by apply time.Truncate_idemp.
  - apply Truncate_shift.
  - intros d text _. by eexists.
Qed.

Definition demo_caps : ScheduledCaps := {| PerApp := 2; Total := 3 |}.
Definition demo_held : HeldCaps := {| Held_PerApp := 2; Held_Total := 3 |}.

Definition demo_uuid : string := "00000000-0000-4000-8000-00000000000a".
Definition demo_uuid2 : string := "00000000-0000-4000-8000-00000000000b".
Definition demo_uuid3 : string := "00000000-0000-4000-8000-00000000000c".

Definition demo_target : DeliveryTarget :=
  {| Target_DestinationID := None; Target_DestinationName := "phone"; Target_DestinationType := "ntfy" |}.

Definition demo_envelope : Envelope :=
  {| AppID := "chores"; Channel := "ops"; IdempotencyKey := "k1"; ToDestination := EmptyString;
     ToRecipient := EmptyString; DeliverAt := None; Critical := false; Payload := "{}";
     Display_ := Some (zero_display {{ Title := "hello" }}); Hold := false |}.
Definition demo_later : Envelope :=
  demo_envelope {{ IdempotencyKey := "k2"; DeliverAt := Some (10 * Second) }}.
Definition demo_hold : Envelope := demo_envelope {{ IdempotencyKey := "k3"; Hold := true }}.

(** Nothing stored but the clock at one second. *)
Definition db0 : DB := environment Second ∅ empty_db.
(** One message queued, one scheduled, one held. *)
Definition db1 : DB := (InsertMessage no_gap demo_uuid demo_envelope [demo_target] db0).2.
Definition db2 : DB := (InsertScheduledMessage no_gap demo_uuid2 demo_later [demo_target] demo_caps db1).2.
Definition db3 : DB := (InsertHeldMessage no_gap demo_uuid3 demo_hold demo_held Second db2).2.
(** The first message is claimed, and delivered. *)
Definition db4 : DB := (ClaimDue ∅ (2 * Second) Minute db3).2.
Definition demo_success : AttemptResult :=
  {| Result_Record := {| DeliveryID := 1; Outcome := OutcomeSuccess; StatusCode := Some 200; LatencyMS := 12;
       Attempt_Error := None; ResponseSnippet := Some "ok"; StartedAt := 2 * Second |};
     NextState := StateDelivered; Result_DeadReason := None; Result_NextAttemptAt := 0 |}.
Definition db5 : DB := (RecordAttempt demo_success db4).2.

(** Or its sink refuses it for good; a retention statement chooses it, and it is
    replayed before the statement deletes it. *)
Definition demo_refused : AttemptResult :=
  {| Result_Record := {| DeliveryID := 1; Outcome := OutcomeTerminal; StatusCode := Some 400; LatencyMS := 12;
       Attempt_Error := Some "HTTP 400"; ResponseSnippet := None; StartedAt := 2 * Second |};
     NextState := StateDead; Result_DeadReason := Some DeadReasonTerminalStatus; Result_NextAttemptAt := 0 |}.
Definition db6 : DB := (RecordAttempt demo_refused db4).2.
Definition db7 : DB := choose_expired 1 (5 * Second) 500 db6.
Definition db8 : DB := (Replay 1 (6 * Second) db7).2.

Lemma demo_step db db' : step demo_caps demo_held db db' ->
  reachable demo_caps demo_held db -> reachable demo_caps demo_held db'.
Proof. intros Hs Hr. unfold reachable in *. by eapply rtc_r. Qed.

Lemma reachable_db0 : reachable demo_caps demo_held db0.
Proof. eapply demo_step; [apply step_client, (step_environment _ _ _ Second ∅)|apply rtc_refl]. Qed.
Lemma reachable_db1 : reachable demo_caps demo_held db1.
Proof. eapply demo_step; [by apply step_client, step_InsertMessage|apply reachable_db0]. Qed.
Lemma reachable_db2 : reachable demo_caps demo_held db2.
Proof. eapply demo_step; [by apply step_client, step_InsertScheduledMessage|apply reachable_db1]. Qed.
Lemma reachable_db3 : reachable demo_caps demo_held db3.
Proof. eapply demo_step; [by apply step_client, step_InsertHeldMessage|apply reachable_db2]. Qed.
Lemma reachable_db4 : reachable demo_caps demo_held db4.
Proof. eapply demo_step; [apply step_ClaimDue|apply reachable_db3]. Qed.
Lemma reachable_db5 : reachable demo_caps demo_held db5.
Proof. eapply demo_step; [apply step_RecordAttempt|apply reachable_db4]. Qed.

Lemma reachable_db6 : reachable demo_caps demo_held db6.
Proof. eapply demo_step; [apply step_RecordAttempt|apply reachable_db4]. Qed.
Lemma reachable_db8 : reachable demo_caps demo_held db8.
Proof.
  eapply demo_step; [apply step_client, step_Replay|].
  eapply demo_step; [|apply reachable_db6]. apply step_client, step_choose_expired. reflexivity.
Qed.

(** Results projected to what evaluation decides. *)
Definition is_found (r : result CancelOutcome) : bool := match r with Ok o => Found o | Err _ => false end.
Definition is_new (r : result (StoredMessage * bool)) : bool :=
  match r with Ok (_, dup) => negb dup | Err _ => false end.
Definition is_claim (r : result (option Claim)) : bool := match r with Ok (Some _) => true | _ => false end.

(** ** The theorems at these states *)

(** A cancel takes a scheduled message along its life; and the delivery replayed
    while a statement in flight had chosen its message is forgotten pending. *)
Lemma store_refines_life_witness :
  (is_Some (messages db3 !! demo_uuid2) /\
   exists o o', phase_at db3 demo_uuid2 o /\
     phase_at (CancelMessage demo_uuid2 "chores" (3 * Second) db3).2 demo_uuid2 o' /\ life o o') /\
  (State <$> deliveries db8 !! 1) = Some StatePending /\
  (removable db8 demo_uuid \/ (chosen db8 demo_uuid /\ raced demo_caps demo_held db8 demo_uuid)).
Proof.
  split; [split; [vm_compute; by eexists|]|split; [vm_compute; reflexivity|]].
  - exact (proj1 (store_refines_life demo_caps demo_held db3 _ demo_uuid2 reachable_db3
      (step_client _ _ _ _ (step_CancelMessage _ _ _ demo_uuid2 "chores" (3 * Second))))).
  - refine (proj2 (proj2 (store_refines_life demo_caps demo_held db8 _ demo_uuid reachable_db8
      (step_client _ _ _ _ (step_delete_chosen _ _ _ 1)))) _ _); [vm_compute; by eexists|vm_compute; reflexivity].
Defined.

Lemma caps_never_exceeded_witness : within_caps demo_caps demo_held db3.
Proof.
  apply (caps_never_exceeded demo_caps demo_held db3); [by vm_compute..|apply reachable_db3].
Defined.

Lemma submit_idempotent_witness :
  (InsertMessage no_gap demo_uuid2 demo_envelope [demo_target] db1).2 = db1.
Proof.
  assert (Hnew : is_new (InsertMessage no_gap demo_uuid demo_envelope [demo_target] db0).1 = true)
    by (vm_compute; reflexivity).
  destruct (InsertMessage no_gap demo_uuid demo_envelope [demo_target] db0) as [[[m []]|e] d] eqn:E; [discriminate Hnew| |discriminate Hnew].
  pose proof (proj2 (submit_idempotent demo_caps demo_held demo_uuid demo_uuid2 demo_envelope [demo_target]
    db0 m false d reachable_db0 eq_refl E)) as H.
  assert (Hd : db1 = d) by (unfold db1; by rewrite E). rewrite Hd, H. reflexivity.
Defined.

Lemma insert_never_not_found_witness :
  errors_Is (errors_New "insert message: no delivery targets") ErrMessageNotFound = false.
Proof.
  apply (insert_never_not_found no_gap demo_uuid demo_envelope [] demo_caps demo_held Second db1 _ db1).
  left. vm_compute. reflexivity.
Defined.

Lemma cancel_exact_witness :
  exists r p o db', messages db3 !! uuid_text demo_uuid2 = Some r /\
    in_phase db3 (uuid_text demo_uuid2) p /\
    CancelMessage demo_uuid2 "chores" (3 * Second) db3 = (Ok o, db') /\
    cancel_result db3 (uuid_text demo_uuid2) p (3 * Second) o db'.
Proof.
  destruct (cancel_exact demo_caps demo_held db3 demo_uuid2 "chores" (3 * Second) reachable_db3 ltac:(done))
    as [[H _]|(r & p & o & db' & H1 & _ & H2 & H3 & H4)].
  - apply (f_equal (fun x => is_found x.1)) in H. vm_compute in H. discriminate H.
  - exists r, p, o, db'. exact (conj H1 (conj H2 (conj H3 H4))).
Defined.

Lemma attempt_log_witness : exists l, ListAttempts 1 db5 = (Ok l, db5) /\ (AttemptNumber <$> l) = [1].
Proof.
  assert (Hn : AttemptCount <$> deliveries db5 !! 1 = Some 1) by (vm_compute; reflexivity).
  destruct (deliveries db5 !! 1) as [d|] eqn:E; [|done]. injection Hn as Hn.
  destruct (attempt_log demo_caps demo_held db5 1 d reachable_db5 E) as (l & Hl & Hnum & _).
  exists l. split; [done|]. by rewrite Hnum, Hn.
Defined.

Lemma ClaimDue_exact_witness :
  exists claim, ClaimDue ∅ (2 * Second) Minute db3 = (Ok (Some claim), db4) /\
    Claim_Delivery claim ∉ due (61 * Second) ∅ db4.
Proof.
  assert (Hc : is_claim (ClaimDue ∅ (2 * Second) Minute db3).1 = true) by (vm_compute; reflexivity).
  destruct (ClaimDue ∅ (2 * Second) Minute db3) as [[[c|]|e] d] eqn:E; [|discriminate Hc..].
  destruct (ClaimDue_exact demo_caps demo_held ∅ (2 * Second) Minute db3 (Some c) d reachable_db3 E)
    as (? & _ & _ & _ & _ & _ & _ & _ & _ & _ & _ & H).
  assert (Hd : db4 = d) by (unfold db4; by rewrite E).
  exists c. rewrite Hd. split; [done|]. apply H. by vm_compute.
Defined.

Lemma DeleteExpired_exact_witness :
  exists ids, removed ids db5 (DeleteExpired 1 (fun db => db) (fun _ => None) (5 * Second) db5).2 /\ size ids = 1%nat.
Proof.
  assert (Hn1 : (DeleteExpired 1 (fun db => db) (fun _ => None) (5 * Second) db5).1.1 = 1) by (vm_compute; reflexivity).
  destruct (DeleteExpired 1 (fun db => db) (fun _ => None) (5 * Second) db5) as [[n err] d] eqn:E.
  destruct (DeleteExpired_exact demo_caps demo_held 1 (fun _ => None) (5 * Second) db5 n err d reachable_db5 E)
    as (ids & Hr & Hn & _).
  exists ids. split; [done|]. simpl in Hn1. lia.
Defined.
End message_demo.

Import message message_pg message_service message_demo.

Module service_demo.
#[local] Existing Instance toy_std.
#[local] Existing Instance toy_std_laws.

Definition demo_config : ServiceConfig world := {|
  Config_Publishers := Some (fun _ w => (Ok true, w));
  SupportedTypes := {["ntfy" := true]};
  Wake := None;
  PollInterval := 0;
  Now := fun w => (0, w);
  MaxConcurrentAwaits := 0;
  MaxScheduledPerApp := 2;
  MaxScheduledTotal := 3;
  HoldUnrouted := true;
  MaxHeldPerApp := 2;
  MaxHeldTotal := 3
|}.

(** The registry resolves every channel to one phone; another transaction moves the
    clock before each call. *)
Definition demo_phone : registry.ResolvedDestination :=
  {| registry.Resolved_ID := 1; registry.Resolved_Name := "phone"; registry.Resolved_Type := "ntfy";
     registry.Resolved_Config := ∅; registry.Resolved_Secrets := ∅ |}.
Definition demo_turn : turn := {|
  before := environment (2 * Second) {[ 1 ]};
  turn_gaps := fun _ db => db;
  turn_uuid := demo_uuid;
  turn_clock := 2 * Second;
  turn_resolve := fun _ _ _ => Ok [demo_phone];
  turn_publisher := fun _ => Ok true
|}.
Definition demo_world : world :=
  {| tables := empty_db; turns := fun _ => demo_turn; calls := 0; wakes := 0 |}.

Lemma demo_world_ok : world_ok demo_config demo_world.
Proof.
  split; [apply rtc_refl|]. intros n. split_and!; [| |done].
  - intros db. apply rtc_once, step_client, step_environment.
  - intros i db. apply rtc_refl.
Qed.

(** An email recipient, submitted twice: stored once, under its hash. *)
Definition demo_mail : Envelope := demo_envelope {{ ToRecipient := "Alice@Example.COM" }}.
Definition first_submit := Submit (service demo_config) demo_mail demo_world.
Definition second_submit := Submit (service demo_config) demo_mail first_submit.2.

Example submit_once :
  (exists m o, first_submit.1 = Ok (m, o) /\ Duplicate o = false /\ Scheduled o = false /\
     ToRecipient (Message_Envelope m) = "76gzqgp4byjl6dje") /\ wakes first_submit.2 = 1%nat /\
  (exists m o, second_submit.1 = Ok (m, o) /\ Duplicate o = true) /\ wakes second_submit.2 = 1%nat.
Proof.
  split; [|split; [vm_compute; reflexivity|split; [|vm_compute; reflexivity]]].
  - destruct (first_submit.1) as [[m o]|] eqn:E; [|by vm_compute in E].
    exists m, o. split; [done|]. vm_compute in E. injection E as <- <-. done.
  - destruct (second_submit.1) as [[m o]|] eqn:E; [|by vm_compute in E].
    exists m, o. split; [done|]. vm_compute in E. injection E as <- <-. done.
Qed.

Lemma Submit_safe_witness : rtc (safe_call (service demo_config)) demo_world first_submit.2.
Proof. exact (Submit_safe (Hlaws := toy_std_laws) (service demo_config) demo_mail demo_world). Defined.

Lemma Submit_linearizable_witness : is_Ok first_submit.1 = true /\
  exists t, submits demo_config (hash_recipient demo_mail) t demo_world first_submit.1 first_submit.2.
Proof.
  split; [vm_compute; reflexivity|].
  exact (Submit_linearizable demo_config demo_mail demo_world _ _ demo_world_ok (surjective_pairing first_submit)).
Defined.
End service_demo.
