(* ===== verification/Dispatch.v ===== *)
(** * Dispatch

    Package [dispatch]: the retry policy (policy.go), the delivery worker
    (worker.go), the releaser (release.go) and the retention sweeper (sweeper.go).

    The worker is written against what it needs of the queue, the registry, the
    recipient resolver and the sinks, each an operation on one shared state.
    Logging, waking and sleeping change nothing and are left out; a timeout of a
    context shows as an error of the operation it bounds. *)

From S2P Require Import Prelude GoText Utf8 Guard Registry Message MessageStore MessageInv MessageSteps MessageReach Float64.
Open Scope Z_scope.
Import message.

(** ** transport.IsBlocked *)

Definition IsBlocked (err : error) : bool :=
  errors_Is err transport.ErrBlockedAddress || errors_Is err transport.ErrNotHTTPS.

(** ** sink.go *)

Module sink.
Definition ErrInvalidDelivery : error := Sentinel "delivery cannot be built from this destination".

Record Request := { Request_MessageID : string; Request_CreatedAt : Z; Request_Envelope : Envelope }.

Record Outcome := {
  StatusCode : Z;
  RetryAfter : option Z;
  ResponseSnippet : string;
  Err : option error;
  Gone : bool
}.
End sink.

(** ** policy.go *)

Module policy.
Definition MaxBudgetAttempts : Z := 12.
Definition MaxBudgetAge : Z := 24 * Hour.
Definition BaseBackoff : Z := 30 * Second.
Definition MaxBackoff : Z := Hour.
Definition MaxRetryAfter : Z := Hour.

Definition Classify (outcome : sink.Outcome) : string :=
  match sink.Err outcome with
  | Some err =>
    if IsBlocked err then OutcomeBlocked
    else if errors_Is err sink.ErrInvalidDelivery then OutcomeTerminal
    else OutcomeRetryable
  | None =>
    let code := sink.StatusCode outcome in
    if (200 <=? code) && (code <=? 299) then OutcomeSuccess
    else if (code =? 410) || sink.Gone outcome then OutcomeGone
    else if (code =? 408) || (code =? 429) || ((500 <=? code) && (code <=? 599)) then OutcomeRetryable
    else OutcomeTerminal
  end.

(** The doubling loop. The ceiling reaches [MaxBackoff] in 7 rounds, so a fuel of 7
    is enough for any number of attempts ([grow_enough]). *)
Fixpoint grow (fuel : nat) (attempt budgetAttempts ceiling : Z) : Z :=
  match fuel with
  | O => ceiling
  | S fuel =>
    if (attempt <? budgetAttempts) && (ceiling <? MaxBackoff)
    then grow fuel (wrap64 (attempt + 1)) budgetAttempts (wrap64 (ceiling * 2))
    else ceiling
  end.

Definition ceiling_of (budgetAttempts : Z) : Z := Z.min (grow 7 1 budgetAttempts BaseBackoff) MaxBackoff.

(** [random] is what the source returns when called, [None] a nil source. *)
Definition jitterFraction (random : option float64.t) : float64.t :=
  match random with
  | None => S754_zero false
  | Some fraction =>
    if float64.IsNaN fraction || float64.ltb fraction (S754_zero false) then S754_zero false
    else float64.min fraction float64.one
  end.

Definition Backoff (budgetAttempts : Z) (retryAfter : option Z) (random : option float64.t) : Z :=
  let half := Z.quot (ceiling_of budgetAttempts) 2 in
  let backoff := wrap64 (half + float64.to_Z (float64.mul (jitterFraction random) (float64.of_Z half))) in
  match retryAfter with
  | Some after => if 0 <? after then Z.max backoff (Z.min after MaxRetryAfter) else backoff
  | None => backoff
  end.

Definition deadResult (result : AttemptResult) (reason : string) : AttemptResult :=
  result {{ NextState := StateDead; Result_DeadReason := Some reason }}.

Definition buildRecord (delivery : Delivery) (outcome : sink.Outcome) (class : string) (now : Z) : AttemptRecord :=
  {| DeliveryID := ID delivery; Outcome := class;
     StatusCode := if 0 <? sink.StatusCode outcome then Some (sink.StatusCode outcome) else None;
     LatencyMS := 0;
     Attempt_Error :=
       match sink.Err outcome with
       | Some err => Some (Error err)
       | None =>
         if negb (String.eqb class OutcomeSuccess)
         then Some ("HTTP " +:+ pretty (sink.StatusCode outcome))%string else None
       end;
     ResponseSnippet :=
       if String.eqb (sink.ResponseSnippet outcome) EmptyString then None else Some (sink.ResponseSnippet outcome);
     StartedAt := now |}.

Definition Decide (delivery : Delivery) (outcome : sink.Outcome) (now : Z) (random : option float64.t) :
    AttemptResult :=
  let class := Classify outcome in
  let result := {| Result_Record := buildRecord delivery outcome class now; NextState := EmptyString;
                   Result_DeadReason := None; Result_NextAttemptAt := 0 |} in
  if String.eqb class OutcomeSuccess then result {{ NextState := StateDelivered }}
  else if String.eqb class OutcomeGone then deadResult result DeadReasonGone
  else if String.eqb class OutcomeBlocked then deadResult result DeadReasonBlockedAddress
  else if String.eqb class OutcomeRetryable then
    if (MaxBudgetAttempts - 1 <=? BudgetAttempts delivery) ||
       (MaxBudgetAge <=? time.Sub now (BudgetStartedAt delivery))
    then deadResult result DeadReasonBudgetExhausted
    else result {{ NextState := StatePending;
                   Result_NextAttemptAt :=
                     time.Add now (Backoff (wrap64 (BudgetAttempts delivery + 1)) (sink.RetryAfter outcome) random) }}
  else deadResult result DeadReasonTerminalStatus.
End policy.

(** ** worker.go *)

(** The queue and the registry as the worker sees them. *)
Class Queue (S : Type) := {
  queue_ClaimDue : Z -> Z -> M S (option Claim);
  queue_RecordAttempt : AttemptResult -> M S Delivery
}.
Class Resolver (S : Type) := {
  resolver_Resolve : string -> string -> string -> M S (list registry.ResolvedDestination);
  resolver_DisableDestination : string -> Z -> string -> M S unit
}.

Module worker.
Import policy.

Definition DefaultConcurrency : Z := 4.
Definition DefaultPollInterval : Z := Second.
Definition DefaultLease : Z := 2 * Minute.
Definition DefaultAttemptTimeout : Z := 9 * Second.
Definition DefaultRecordRetryDelay : Z := 250 * Millisecond.

Definition recordAttempts : nat := 3.
Definition recordTimeout : Z := 5 * Second.
Definition disableTimeout : Z := 2 * Second.
Definition leaseMargin : Z := 30 * Second.
Definition maxClaimBackoff : Z := 30 * Second.
Definition maxClaimBackoffShift : Z := 5.

Definition MaxInFlightShutdown : Z := DefaultAttemptTimeout + recordTimeout + disableTimeout.

Definition errorTextDestinationDeleted : string := "destination no longer exists".
Definition errorTextDestinationDisabled : string := "destination is disabled".
Definition errorTextUnsupportedType : string := "no sink for destination type".
Definition errorTextUnresolvable : string := "destination could not be resolved".
Definition errorTextNoPublisher : string := "app has no ntfy publisher".
Definition errorTextSinkPanic : string := "sink panicked".

Definition disableReason : string := "destination reported gone (410 or equivalent)".

Definition errSinkPanic : error := Sentinel errorTextSinkPanic.
Definition errUnexpectedResolution : error := Sentinel "resolve returned an unexpected number of destinations".

Section worker.
Context {S : Type} `{Queue S} `{Resolver S}.

(** A sink: its outcome, or [None] when it panics. *)
Definition Sink : Type := registry.ResolvedDestination -> sink.Request -> S -> option sink.Outcome * S.

(** [Now] reads the clock, [Random] is the value the jitter source gives next. *)
Record WorkerConfig := {
  Recipients : option (string -> string -> string -> M S registry.ResolvedDestination);
  Sinks : gmap string (option Sink);
  Concurrency : Z;
  PollInterval : Z;
  Lease : Z;
  AttemptTimeout : Z;
  RecordRetryDelay : Z;
  Now : S -> Z * S;
  Random : S -> option float64.t
}.

(** [NewWorker]: every zero field takes its default ([Now] and [Random] are given),
    then the lease is raised to its floor. *)
Definition with_defaults (config : WorkerConfig) : WorkerConfig :=
  let default (field fallback : Z) := if field <=? 0 then fallback else field in
  config {{ Concurrency := if Concurrency config <? 1 then DefaultConcurrency else Concurrency config;
            PollInterval := default (PollInterval config) DefaultPollInterval;
            Lease := default (Lease config) DefaultLease;
            AttemptTimeout := default (AttemptTimeout config) DefaultAttemptTimeout;
            RecordRetryDelay := default (RecordRetryDelay config) DefaultRecordRetryDelay }}.

Definition NewWorker (config : WorkerConfig) : WorkerConfig :=
  let config := with_defaults config in
  let leaseFloor := wrap64 (AttemptTimeout config + recordTimeout + disableTimeout + leaseMargin) in
  if Lease config <? leaseFloor then config {{ Lease := leaseFloor }} else config.

Definition claimBackoff (pollInterval failures : Z) : Z :=
  let shift := Z.min (Z.max (wrap64 (failures - 1)) 0) maxClaimBackoffShift in
  let ceiling := Z.max maxClaimBackoff pollInterval in
  if Z.shiftr ceiling shift <? pollInterval then ceiling else wrap64 (Z.shiftl pollInterval shift).

Definition latencyMS (started finished : Z) : Z := Z.quot (Z.max (time.Sub finished started) 0) Millisecond.

Context (config : WorkerConfig).
(** [err.( *url.Error)]: what a top-level *url.Error wraps. *)
Context (urlError : error -> option error).
(** Whether the context of a record is done after its [n]-th failed try. *)
Context (recordCtxDone : nat -> bool).

(** What a claim's destination resolves to: a destination to send to, or the reason
    the delivery is dead. *)
Definition resolveRecipient (claim : Claim) : M S (registry.ResolvedDestination + string) := fun s =>
  match Recipients config with
  | None => (Ok (inr DeadReasonNoPublisher), s)
  | Some ResolveRecipient =>
    let envelope := Message_Envelope (Claim_Message claim) in
    match ResolveRecipient (AppID envelope) (ToRecipient envelope) (Channel envelope) s with
    | (Err e, s) => if errors_Is e registry.ErrNoPublisher then (Ok (inr DeadReasonNoPublisher), s) else (Err e, s)
    | (Ok resolved, s) => (Ok (inl resolved), s)
    end
  end.

Definition resolve (claim : Claim) : M S (registry.ResolvedDestination + string) := fun s =>
  let name := DestinationName (Claim_Delivery claim) in
  if String.eqb name registry.RecipientDestinationName then resolveRecipient claim s
  else if String.eqb name EmptyString then (Ok (inr DeadReasonDestinationDeleted), s)
  else
    let envelope := Message_Envelope (Claim_Message claim) in
    match resolver_Resolve (AppID envelope) name (Channel envelope) s with
    | (Err e, s) =>
      if errors_Is e registry.ErrUnknownDestination then (Ok (inr DeadReasonDestinationDeleted), s)
      else if errors_Is e registry.ErrDestinationDisabled then (Ok (inr DeadReasonDestinationDisabled), s)
      else (Err e, s)
    | (Ok [resolved], s) =>
      if bool_decide (DestinationID (Claim_Delivery claim) = Some (registry.Resolved_ID resolved))
      then (Ok (inl resolved), s) else (Ok (inr DeadReasonDestinationDeleted), s)
    | (Ok _, s) => (Err errUnexpectedResolution, s)
    end.

(** The retries of [record], from try [n] on. *)
Fixpoint record_loop (tries n : nat) (result : AttemptResult) (s : S) : S :=
  match tries with
  | O => s
  | Datatypes.S tries =>
    match queue_RecordAttempt result s with
    | (Ok _, s) => s
    | (Err _, s) => if recordCtxDone n then s else record_loop tries (n + 1) result s
    end
  end.

Definition record (result : AttemptResult) : S -> S := record_loop recordAttempts 1 result.

Definition never_sent_text (deadReason : string) : string :=
  if String.eqb deadReason DeadReasonDestinationDeleted then errorTextDestinationDeleted
  else if String.eqb deadReason DeadReasonDestinationDisabled then errorTextDestinationDisabled
  else if String.eqb deadReason DeadReasonUnsupportedType then errorTextUnsupportedType
  else if String.eqb deadReason DeadReasonBudgetExhausted then errorTextUnresolvable
  else if String.eqb deadReason DeadReasonNoPublisher then errorTextNoPublisher
  else EmptyString.

Definition never_sent (claim : Claim) (deadReason : string) (now : Z) : AttemptResult :=
  {| Result_Record := {| DeliveryID := ID (Claim_Delivery claim); Outcome := OutcomeTerminal; StatusCode := None;
       LatencyMS := 0; Attempt_Error := Some (never_sent_text deadReason); ResponseSnippet := None; StartedAt := now |};
     NextState := StateDead; Result_DeadReason := Some deadReason; Result_NextAttemptAt := 0 |}.

Definition recordNeverSent (claim : Claim) (deadReason : string) (s : S) : S :=
  let (now, s) := Now config s in record (never_sent claim deadReason now) s.

Definition deliver (destinationSink : Sink) (destination : registry.ResolvedDestination) (request : sink.Request) (s : S) :
    sink.Outcome * S :=
  match destinationSink destination request s with
  | (Some outcome, s) => (outcome, s)
  | (None, s) => ({| sink.StatusCode := 0; sink.RetryAfter := None; sink.ResponseSnippet := EmptyString;
                     sink.Err := Some errSinkPanic; sink.Gone := false |}, s)
  end.

Definition strip_url_error (outcome : sink.Outcome) : sink.Outcome :=
  match sink.Err outcome with
  | Some err => match urlError err with
                | Some inner => outcome {{ sink.Err := Some inner }}
                | None => outcome
                end
  | None => outcome
  end.

Definition disableDestination (claim : Claim) (destinationID : Z) (s : S) : S :=
  (resolver_DisableDestination (DestinationName (Claim_Delivery claim)) destinationID disableReason s).2.

(** What the worker records of a send. *)
Definition attempt_result (delivery : Delivery) (outcome : sink.Outcome) (started finished : Z)
    (random : option float64.t) : AttemptResult :=
  let result := Decide delivery outcome finished random in
  result {{ Result_Record :=
    (Result_Record result) {{ StartedAt := started; LatencyMS := latencyMS started finished }} }}.

(** From the send on: what the sink reported is recorded, then a gone destination
    is disabled. *)
Definition attempt (claim : Claim) (destination : registry.ResolvedDestination) (destinationSink : Sink) (s : S) : S :=
  let (started, s) := Now config s in
  let (outcome, s) := deliver destinationSink destination
    {| sink.Request_MessageID := Message_ID (Claim_Message claim);
       sink.Request_CreatedAt := Message_CreatedAt (Claim_Message claim);
       sink.Request_Envelope := Message_Envelope (Claim_Message claim) |} s in
  let (finished, s) := Now config s in
  let outcome := strip_url_error outcome in
  let result := attempt_result (Claim_Delivery claim) outcome started finished (Random config s) in
  let s := record result s in
  if String.eqb (Outcome (Result_Record result)) OutcomeGone &&
     negb (String.eqb (DestinationName (Claim_Delivery claim)) registry.RecipientDestinationName)
  then disableDestination claim (registry.Resolved_ID destination) s else s.

Definition process (claim : Claim) (s : S) : S :=
  match resolve claim s with
  | (Err _, s) =>
    let budgetStart := BudgetStartedAt (Claim_Delivery claim) in
    if time.IsZero budgetStart then recordNeverSent claim DeadReasonBudgetExhausted s
    else
      let (now, s) := Now config s in
      if MaxBudgetAge <=? time.Sub now budgetStart then recordNeverSent claim DeadReasonBudgetExhausted s else s
  | (Ok (inr deadReason), s) => recordNeverSent claim deadReason s
  | (Ok (inl destination), s) =>
    match Sinks config !! registry.Resolved_Type destination with
    | Some (Some destinationSink) => attempt claim destination destinationSink s
    | _ => recordNeverSent claim DeadReasonUnsupportedType s
    end
  end.

(** One turn of [loop], on a context that is not done: the failure streak it leaves
    and how long to idle, if at all; [None] when the loop returns because the
    context is done ([ctxDone]) after a failed claim. *)
Definition loop_turn (ctxDone : bool) (consecutiveFailures : Z) (s : S) : option (Z * option Z) * S :=
  let (now, s) := Now config s in
  match queue_ClaimDue now (Lease config) s with
  | (Err _, s) =>
    if ctxDone then (None, s)
    else let failures := wrap64 (consecutiveFailures + 1) in
         (Some (failures, Some (claimBackoff (PollInterval config) failures)), s)
  | (Ok None, s) => (Some (0, Some (PollInterval config)), s)
  | (Ok (Some claim), s) => (Some (0, None), process claim s)
  end.
End worker.
End worker.

(** ** release.go *)

Module releaser.
Definition DefaultReleaseInterval : Z := Second.
Definition DefaultReleaseBatchSize : Z := 100.
Definition DefaultMaxReleaseBatches : Z := 50.

Section releaser.
Context {S : Type} (ReleaseDue : Z -> Z -> M S Z) (Now : S -> Z * S) (ctxDone : S -> bool).

Fixpoint drain_loop (batches : nat) (batchSize total : Z) (s : S) : Z * S :=
  match batches with
  | O => (total, s)
  | Datatypes.S batches =>
    if ctxDone s then (total, s)
    else
      let (now, s) := Now s in
      match ReleaseDue now batchSize s with
      | (Err _, s) => (total, s)
      | (Ok released, s) =>
        let total := total + released in
        if released <? batchSize then (total, s) else drain_loop batches batchSize total s
      end
  end.

(** One run: what it released, which is when the worker is woken. *)
Definition drain (batchSize maxBatches : Z) (s : S) : Z * S :=
  let batchSize := if batchSize <=? 0 then DefaultReleaseBatchSize else batchSize in
  let maxBatches := if maxBatches <=? 0 then DefaultMaxReleaseBatches else maxBatches in
  drain_loop (Z.to_nat maxBatches) batchSize 0 s.
End releaser.
End releaser.

(** ** sweeper.go *)

Module sweeper.
Definition DefaultRetentionDays : Z := 30.
Definition MaxRetentionDays : Z := 3650.
Definition DefaultHeldTTLDays : Z := 7.
Definition MaxHeldTTLDays : Z := 365.
Definition DefaultSweepInterval : Z := Hour.
Definition hoursPerDay : Z := 24.

Section sweeper.
Context {S : Type} (DeleteExpired DeleteExpiredHeld : Z -> S -> (Z * option error) * S) (Now : S -> Z * S).

(** One sweep; a failure of one phase is logged and does not keep the other from
    running. *)
Definition sweep (retention heldTTL : Z) (s : S) : S :=
  let (sweepStart, s) := Now s in
  let (_, s) := DeleteExpired (time.Add sweepStart (- retention)) s in
  (DeleteExpiredHeld (time.Add sweepStart (- heldTTL)) s).2.
End sweeper.
End sweeper.

(** ** The retry policy is bounded and consistent with what the queue accepts *)
Import message policy.

(** ** Backoff *)

(** The ceilings the doubling loop goes through. *)
Definition ceiling_spec (budgetAttempts : Z) : Z :=
  Z.min (BaseBackoff * 2 ^ (Z.max budgetAttempts 1 - 1)) MaxBackoff.

Lemma in_int64_small z : -1000000000000000000 <= z <= 1000000000000000000 -> in_int64 z.
Proof. unfold in_int64, int64_min, int64_max. lia. Qed.

Lemma grow_stop fuel attempt b c : MaxBackoff <= c \/ b <= attempt -> grow fuel attempt b c = c.
Proof.
  intros Hc. destruct fuel as [|fuel]; [done|]. simpl.
  destruct (Z.ltb_spec attempt b), (Z.ltb_spec c MaxBackoff); try done. lia.
Qed.

Lemma grow_step fuel attempt b c : 0 < attempt < 100 -> attempt < b -> 0 < c < MaxBackoff ->
  grow (S fuel) attempt b c = grow fuel (attempt + 1) b (c * 2).
Proof.
  intros Ha Hb Hc. simpl. destruct (Z.ltb_spec attempt b); [|lia]. destruct (Z.ltb_spec c MaxBackoff); [|lia]. simpl.
  assert (MaxBackoff = 3600000000000) by done.
  by rewrite !wrap64_small by (apply in_int64_small; lia).
Qed.

(** From ceiling [c] before round [attempt], with room for [k] more doublings. *)
Lemma grow_spec k fuel attempt b c : (k <= fuel)%nat -> 0 < attempt -> attempt + Z.of_nat k < 100 -> 0 < c ->
  MaxBackoff <= c * 2 ^ Z.of_nat k ->
  Z.min (grow fuel attempt b c) MaxBackoff = Z.min (c * 2 ^ Z.max 0 (b - attempt)) MaxBackoff.
Proof.
  revert fuel attempt c. induction k as [|k IH]; intros fuel attempt c Hk Ha Hk' Hc Hm.
  { rewrite grow_stop by (left; simpl in Hm; lia).
    pose proof (Z.pow_pos_nonneg 2 (Z.max 0 (b - attempt)) ltac:(lia) ltac:(lia)). simpl in Hm. nia. }
  destruct (Z.le_gt_cases b attempt) as [Hb|Hb].
  { rewrite grow_stop by by right. by rewrite Z.max_l, Z.mul_1_r by lia. }
  destruct (Z.le_gt_cases MaxBackoff c) as [Hcc|Hcc].
  { rewrite grow_stop by by left. pose proof (Z.pow_pos_nonneg 2 (Z.max 0 (b - attempt)) ltac:(lia) ltac:(lia)). nia. }
  destruct fuel as [|fuel]; [lia|]. rewrite grow_step by lia.
  rewrite (IH fuel (attempt + 1) (c * 2)); [|lia..|].
  - rewrite !Z.max_r by lia. f_equal. replace (b - attempt) with (Z.succ (b - (attempt + 1))) by lia.
    rewrite Z.pow_succ_r by lia. lia.
  - rewrite Nat2Z.inj_succ, Z.pow_succ_r in Hm by lia. lia.
Qed.

Lemma ceiling_of_spec b : ceiling_of b = ceiling_spec b.
Proof.
  unfold ceiling_of, ceiling_spec. rewrite (grow_spec 7 7 1 b BaseBackoff) by (simpl; (lia || done)).
  by replace (Z.max 0 (b - 1)) with (Z.max b 1 - 1) by lia.
Qed.

(** Seven rounds are enough: more fuel changes nothing. *)
Lemma grow_enough fuel b : (7 <= fuel)%nat -> Z.min (grow fuel 1 b BaseBackoff) MaxBackoff = ceiling_of b.
Proof.
  intros Hf. rewrite ceiling_of_spec. unfold ceiling_spec. rewrite (grow_spec 7 fuel 1 b BaseBackoff) by (simpl; (lia || done)).
  by replace (Z.max 0 (b - 1)) with (Z.max b 1 - 1) by lia.
Qed.

Lemma ceiling_range b : BaseBackoff <= ceiling_of b <= MaxBackoff.
Proof.
  rewrite ceiling_of_spec. unfold ceiling_spec.
  pose proof (Z.pow_pos_nonneg 2 (Z.max b 1 - 1) ltac:(lia) ltac:(lia)).
  assert (BaseBackoff <= MaxBackoff /\ 0 < BaseBackoff) by done. nia.
Qed.

Lemma jitter_fraction random : (forall x, random = Some x -> float64.valid x) -> fraction (jitterFraction random).
Proof.
  intros Hv. assert (H0 : fraction (S754_zero false)) by by vm_compute.
  destruct random as [x|]; [|done]. specialize (Hv x eq_refl). simpl.
  destruct (float64.IsNaN x) eqn:Hn; [done|]. destruct (float64.ltb x (S754_zero false)) eqn:Hl; [done|]. simpl.
  unfold float64.min. destruct (float64.ltb x float64.one) eqn:H1; [|by vm_compute].
  split_and!; try done. unfold float64.ltb, SFltb, float64.one in *.
  change (float64.of_Z 1) with (S754_finite false 4503599627370496 (-52)) in *.
  destruct x as [s|[]| |[] m e]; try done. cbn [SFcompare] in *.
  destruct (Z.compare_spec e (-52)) as [->|Hlt|Hgt]; [|destruct (Z.compare_spec (-52) e); done || lia|done].
  rewrite Z.compare_refl. pose proof (Pos.compare_cont_antisym m 4503599627370496 Eq) as Hanti.
  cbn [CompOpp] in Hanti. rewrite <- Hanti. by destruct (Pos.compare_cont Eq m 4503599627370496).
Qed.

Lemma halves c : 2 * (c / 2) <= c < 2 * (c / 2) + 2.
Proof. pose proof (Z.div_mod c 2). pose proof (Z.mod_pos_bound c 2). lia. Qed.

(** The fraction of the half that jitter adds. *)
Lemma Backoff_cases budgetAttempts retryAfter random : (forall x, random = Some x -> float64.valid x) ->
  exists j, let c := ceiling_of budgetAttempts in 0 <= j <= c / 2 /\
    Backoff budgetAttempts retryAfter random =
      match retryAfter with
      | Some after => if 0 <? after then Z.max (c / 2 + j) (Z.min after MaxRetryAfter) else c / 2 + j
      | None => c / 2 + j
      end.
Proof.
  intros Hv. pose proof (ceiling_range budgetAttempts) as Hc. unfold Backoff. cbv zeta.
  set (c := ceiling_of budgetAttempts) in *.
  assert (BaseBackoff = 30000000000 /\ MaxBackoff = 3600000000000) as [HB HM] by done.
  rewrite Z.quot_div_nonneg by lia.
  assert (Hh : 0 < c / 2 < 3600000000000) by (pose proof (halves c); lia).
  pose proof (mul_fraction_bounds _ (c / 2) (jitter_fraction _ Hv) ltac:(lia)) as Hj.
  eexists. split; [exact Hj|]. by rewrite wrap64_small by (apply in_int64_small; lia).
Qed.

Lemma Backoff_range budgetAttempts retryAfter random : (forall x, random = Some x -> float64.valid x) ->
  15 * Second <= Backoff budgetAttempts retryAfter random <= Hour.
Proof.
  intros Hv. destruct (Backoff_cases budgetAttempts retryAfter random Hv) as (j & Hj & ->).
  pose proof (ceiling_range budgetAttempts) as Hc.
  assert (BaseBackoff = 30 * Second /\ MaxBackoff = Hour /\ MaxRetryAfter = Hour /\ 0 < Second) as (HB & HM & HR & HS) by done.
  set (c := ceiling_of budgetAttempts) in *. pose proof (halves c). repeat case_match; lia.
Qed.

(** The wait before a retry is bounded and cannot overflow.  Whatever the number
    of attempts (any 64-bit count), the jitter source (any float64, NaN and
    infinities included, or none) and the Retry-After: the ceiling is 30 s doubled
    per attempt and capped at 1 h, the wait is within the upper half of the ceiling,
    raised to a positive Retry-After of at most 1 h, and never above 1 h. *)
Theorem Backoff_bounds budgetAttempts retryAfter random :
  (forall x, random = Some x -> float64.valid x) ->
  let b := Backoff budgetAttempts retryAfter random in
  let c := ceiling_spec budgetAttempts in
  c / 2 <= b <= Hour /\ 15 * Second <= b /\
  (retryAfter = None -> b <= c) /\
  (forall after, retryAfter = Some after -> b <= Z.max c (Z.min after Hour) /\ (0 < after -> Z.min after Hour <= b)).
Proof.
  intros Hv b c. subst b c. destruct (Backoff_range budgetAttempts retryAfter random Hv) as [H15 H1h].
  destruct (Backoff_cases budgetAttempts retryAfter random Hv) as (j & Hj & HB). rewrite HB in *. rewrite <- ceiling_of_spec.
  pose proof (ceiling_range budgetAttempts) as Hc. assert (MaxRetryAfter = Hour /\ MaxBackoff = Hour) as [HR HM] by done.
  set (c := ceiling_of budgetAttempts) in *. pose proof (halves c). destruct retryAfter as [after|].
  - destruct (Z.ltb_spec 0 after); (split_and!; [lia..|done|]); intros a [= <-]; lia.
  - split_and!; [lia..|done].
Qed.

(** ** Decisions *)

Lemma Classify_cases o : Classify o = OutcomeSuccess \/ Classify o = OutcomeGone \/ Classify o = OutcomeBlocked \/
  Classify o = OutcomeRetryable \/ Classify o = OutcomeTerminal.
Proof. unfold Classify. repeat case_match; tauto. Qed.

(** The state and reason of a decision, by the class of the outcome and the budget. *)
Definition budget_left (d : Delivery) (now : Z) : bool :=
  (BudgetAttempts d <? MaxBudgetAttempts - 1) && (time.Sub now (BudgetStartedAt d) <? MaxBudgetAge).

Inductive decision (d : Delivery) (o : sink.Outcome) (now : Z) : string -> option string -> Prop :=
  | decide_success : Classify o = OutcomeSuccess -> decision d o now StateDelivered None
  | decide_gone : Classify o = OutcomeGone -> decision d o now StateDead (Some DeadReasonGone)
  | decide_blocked : Classify o = OutcomeBlocked -> decision d o now StateDead (Some DeadReasonBlockedAddress)
  | decide_terminal : Classify o = OutcomeTerminal -> decision d o now StateDead (Some DeadReasonTerminalStatus)
  | decide_retry : Classify o = OutcomeRetryable -> budget_left d now = true -> decision d o now StatePending None
  | decide_exhausted : Classify o = OutcomeRetryable -> budget_left d now = false ->
      decision d o now StateDead (Some DeadReasonBudgetExhausted).

Lemma Decide_decision d o now random :
  let r := Decide d o now random in
  decision d o now (NextState r) (Result_DeadReason r) /\
  Result_Record r = buildRecord d o (Classify o) now /\
  Result_NextAttemptAt r = if String.eqb (NextState r) StatePending
    then now + Backoff (wrap64 (BudgetAttempts d + 1)) (sink.RetryAfter o) random else 0.
Proof.
  cbv zeta. unfold Decide.
  assert (Hb : budget_left d now = negb ((MaxBudgetAttempts - 1 <=? BudgetAttempts d) ||
    (MaxBudgetAge <=? time.Sub now (BudgetStartedAt d)))).
  { unfold budget_left. by rewrite negb_orb, <- !Z.ltb_antisym. }
  destruct (Classify_cases o) as [H|[H|[H|[H|H]]]]; rewrite H; simpl.
  4: destruct (_ || _); simpl in *.
  all: split_and!; [by constructor|done..].
Qed.

Lemma decision_outcome d o now s reason : decision d o now s reason ->
  (Classify o = OutcomeSuccess <-> s = StateDelivered) /\
  ((s = StateDelivered \/ s = StatePending) /\ reason = None \/ s = StateDead /\ exists r, reason = Some r /\ r <> EmptyString).
Proof.
  intros [H|H|H|H|H _|H _]; rewrite H; (split; [done|]); try (left; split; [tauto|done]);
    right; (split; [done|]); by eexists.
Qed.

(** A result is accepted for what it pairs. *)
Lemma validate_pairs result :
  (Outcome (Result_Record result) = OutcomeSuccess <-> NextState result = StateDelivered) ->
  (NextState result = StateDelivered \/ NextState result = StatePending) /\ Result_DeadReason result = None \/
  NextState result = StateDead /\ (exists r, Result_DeadReason result = Some r /\ r <> EmptyString) ->
  (NextState result = StatePending -> Result_NextAttemptAt result <> 0) ->
  validateAttemptResult result = None.
Proof.
  intros Ho Hs Hn. unfold validateAttemptResult.
  assert (Heq : String.eqb (Outcome (Result_Record result)) OutcomeSuccess = String.eqb (NextState result) StateDelivered).
  { apply eq_bool_prop_intro. rewrite !Is_true_true, !String.eqb_eq. done. }
  rewrite Heq, eqb_reflx. simpl. clear Heq Ho.
  destruct Hs as [[[Hs|Hs] Hd]|[Hs (r & Hd & Hr)]]; rewrite Hs, Hd in *; simpl; [done| |].
  - unfold time.IsZero. by rewrite (proj2 (Z.eqb_neq _ _) (Hn eq_refl)).
  - by rewrite (proj2 (String.eqb_neq _ _) Hr).
Qed.

(** Every decision is one of six, by the outcome's class and the budget left, and
    it is one the queue accepts.  A success (2xx without an error) is delivered; 410
    or a gone destination, a blocked address and anything unrecognised are dead with
    their own reason; 408, 429, 5xx and transport errors are retried while fewer than
    12 attempts are spent and the budget is younger than 24 h, from 15 s to 1 h
    later, and dead after. *)
Theorem Decide_spec d o now random : 0 <= now -> (forall x, random = Some x -> float64.valid x) ->
  let r := Decide d o now random in
  decision d o now (NextState r) (Result_DeadReason r) /\
  validateAttemptResult r = None /\
  DeliveryID (Result_Record r) = ID d /\ Outcome (Result_Record r) = Classify o /\
  (NextState r = StatePending -> now + 15 * Second <= Result_NextAttemptAt r <= now + Hour).
Proof.
  intros Hnow Hv r. subst r. destruct (Decide_decision d o now random) as (Hd & Hr & Hn).
  destruct (Backoff_range (wrap64 (BudgetAttempts d + 1)) (sink.RetryAfter o) random Hv) as [Hb1 Hb2].
  assert (Hnext : NextState (Decide d o now random) = StatePending ->
    now + 15 * Second <= Result_NextAttemptAt (Decide d o now random) <= now + Hour).
  { intros Hs. rewrite Hn, Hs. simpl. lia. }
  destruct (decision_outcome _ _ _ _ _ Hd) as [Ho Hs]. split_and!; [done| |by rewrite Hr|by rewrite Hr|done].
  apply validate_pairs; [by rewrite Hr|naive_solver|].
  intros [H _]%Hnext. assert (0 < 15 * Second) by done. lia.
Qed.
