(* ===== verification/DispatchWorker.v ===== *)
(** * DispatchWorker

    The worker over the queue: the queue accepts whatever the worker records, the
    retries of a delivery end, a payload reaches no destination it was not addressed
    to, and a delivery in flight is not claimed again, whatever else is done. *)

From S2P Require Import Prelude GoText Utf8 Guard Registry Message MessageStore MessageInv MessageSteps MessageReach MessageProps MessageQueueProps Float64 Dispatch.
Open Scope Z_scope.
Import message_text.
Import message message_pg policy worker.

(** ** What the queue accepts *)

Definition dead_reasons : list string :=
  [DeadReasonTerminalStatus; DeadReasonGone; DeadReasonBudgetExhausted; DeadReasonDestinationDisabled;
   DeadReasonDestinationDeleted; DeadReasonBlockedAddress; DeadReasonUnsupportedType; DeadReasonNoPublisher].

(** A result whose record satisfies the constraints of the attempt log. *)
Record recordable (result : AttemptResult) : Prop := {
  rec_valid : validateAttemptResult result = None;
  rec_state : (NextState result = StateDelivered \/ NextState result = StatePending) /\ Result_DeadReason result = None \/
    NextState result = StateDead /\ exists r, Result_DeadReason result = Some r /\ r ∈ dead_reasons;
  rec_outcome : one_of [OutcomeSuccess; OutcomeRetryable; OutcomeTerminal; OutcomeGone; OutcomeBlocked]
    (Outcome (Result_Record result)) = true;
  rec_status : match StatusCode (Result_Record result) with Some c => int4 c | None => true end = true;
  rec_latency : 0 <= LatencyMS (Result_Record result) < 2 ^ 31
}.

Lemma latency_range started finished : finished - started < 2 ^ 31 * Millisecond ->
  0 <= latencyMS started finished < 2 ^ 31.
Proof.
  intros H. unfold latencyMS, time.Sub, int64_min, int64_max. assert (HM : Millisecond = 1000000) by done. rewrite HM in *.
  rewrite Z.quot_div_nonneg by lia. split; [apply Z.div_pos; lia|]. apply Z.div_lt_upper_bound; lia.
Qed.

(** What a sink reports of one send, and when. *)
Record Send := { send_outcome : sink.Outcome; send_started : Z; send_finished : Z; send_random : option float64.t }.

Record send_ok (t : Send) : Prop := {
  send_status : sink.StatusCode (send_outcome t) < 2 ^ 31;
  send_time : 0 <= send_finished t;
  send_duration : send_finished t - send_started t < 2 ^ 31 * Millisecond;
  send_valid x : send_random t = Some x -> float64.valid x
}.

Definition sent_result (d : Delivery) (t : Send) : AttemptResult :=
  attempt_result d (send_outcome t) (send_started t) (send_finished t) (send_random t).

Lemma sent_decision d t :
  decision d (send_outcome t) (send_finished t) (NextState (sent_result d t)) (Result_DeadReason (sent_result d t)).
Proof. apply Decide_decision. Qed.

Lemma decision_reason d o now s reason : decision d o now s reason ->
  (s = StateDelivered \/ s = StatePending) /\ reason = None \/ s = StateDead /\ exists r, reason = Some r /\ r ∈ dead_reasons.
Proof.
  intros [H|H|H|H|H _|H _]; (left; split; [tauto|done]) || (right; split; [done|]; eexists; split; [done|]);
    unfold dead_reasons; set_solver.
Qed.

Lemma Classify_known o :
  one_of [OutcomeSuccess; OutcomeRetryable; OutcomeTerminal; OutcomeGone; OutcomeBlocked] (Classify o) = true.
Proof. by destruct (Classify_cases o) as [-> | [-> | [-> | [-> | -> ]]]]. Qed.

Lemma sent_recordable d t : send_ok t -> recordable (sent_result d t).
Proof.
  intros Ht. pose proof (sent_decision d t) as Hd. destruct (Decide_decision d (send_outcome t) (send_finished t) (send_random t))
    as (_ & Hr & Hn).
  assert (Ho : Outcome (Result_Record (sent_result d t)) = Classify (send_outcome t)).
  { unfold sent_result, attempt_result. simpl. by rewrite Hr. }
  split.
  - apply validate_pairs.
    + rewrite Ho. by destruct (decision_outcome _ _ _ _ _ Hd).
    + destruct (decision_outcome _ _ _ _ _ Hd) as [_ Hs]. naive_solver.
    + intros Hs. change (Result_NextAttemptAt (Decide d (send_outcome t) (send_finished t) (send_random t)) <> 0).
      change (NextState (Decide d (send_outcome t) (send_finished t) (send_random t)) = StatePending) in Hs.
      rewrite Hn, Hs. cbn [String.eqb]. rewrite String.eqb_refl.
      pose proof (Backoff_range (wrap64 (BudgetAttempts d + 1)) (sink.RetryAfter (send_outcome t)) _ (send_valid _ Ht)).
      pose proof (send_time _ Ht). assert (0 < 15 * Second) by done. lia.
  - by eapply decision_reason.
  - rewrite Ho. apply Classify_known.
  - unfold sent_result, attempt_result. simpl. rewrite Hr. simpl.
    destruct (Z.ltb_spec 0 (sink.StatusCode (send_outcome t))); [|done].
    pose proof (send_status _ Ht). unfold int4. apply andb_true_iff. rewrite Z.leb_le, Z.ltb_lt. lia.
  - apply latency_range, (send_duration _ Ht).
Qed.

Lemma never_sent_recordable claim reason now : reason ∈ dead_reasons -> recordable (never_sent claim reason now).
Proof.
  intros Hr. split; try done; [|right; split; [done|]; by eexists].
  apply validate_pairs; simpl; [done| |done]. right. split; [done|]. exists reason. split; [done|].
  intros ->. apply (bool_decide_eq_true_2 (EmptyString ∈ dead_reasons)) in Hr. vm_compute in Hr. discriminate Hr.
Qed.

Lemma one_of_elem l s : s ∈ l -> one_of l s = true.
Proof.
  intros Hs. unfold one_of. apply existsb_exists. exists s. split; [by apply list_elem_of_In|apply String.eqb_refl].
Qed.

Section queue.
Context `{Hpg : Pg}.

Lemma attempt_row_check db d result : recordable result -> 0 <= AttemptCount d < 2 ^ 31 - 1 ->
  attempt_check (logged db d result) = true.
Proof.
  intros [Hv _ Ho Hs Hl] Hc. unfold attempt_check, logged, attempt_row.
  destruct result as [[did o st lat err snip started] ns dr na]. simpl in *.
  assert (Hint : forall z, 0 <= z < 2 ^ 31 -> int4 z = true)
    by (intros z ?; unfold int4; rewrite andb_true_iff, Z.leb_le, Z.ltb_lt; lia).
  rewrite !andb_true_iff. split_and!; [apply Hint; lia|done|done|apply Z.leb_le; lia|by apply Hint| |].
  - destruct err as [text|]; [|done].
    destruct (cleaned_error text) as (s & -> & H1 & H2). simpl. by rewrite H1, (proj2 (Z.leb_le _ _) H2).
  - destruct snip as [text|]; [|done].
    destruct (cleaned_snippet text) as (s & -> & H1 & H2). simpl. by rewrite H1, (proj2 (Z.leb_le _ _) H2).
Qed.

Lemma attempted_row_check db d result : recordable result -> delivery_check d = true ->
  BudgetAttempts d <= AttemptCount d -> AttemptCount d < 2 ^ 31 - 1 ->
  delivery_check (attempted_row db d result) = true.
Proof.
  intros [_ Hst _ Hs _] Hck Hb Hc. unfold delivery_check in *. bool_hyps. unfold int4 in *. bool_hyps.
  unfold attempted_row. simpl. rewrite !andb_true_iff, ?Z.leb_le, ?Z.ltb_lt. split_and!; try done; try lia.
  - by destruct Hst as [[[-> | ->] _]|[-> _]].
  - destruct Hst as [[_ ->]|(_ & r & -> & Hr)]; [done|]. by apply (one_of_elem dead_reasons).
  - by destruct Hst as [[[-> | ->] ->]|(-> & r & -> & _)].
Qed.

(** The queue stores any recordable result of a pending delivery. *)
Lemma record_accepts db i d result : wf db -> wf_log db -> deliveries db !! i = Some d -> State d = StatePending ->
  AttemptCount d < 2 ^ 31 - 1 -> DeliveryID (Result_Record result) = i -> recordable result ->
  exists db', RecordAttempt result db = (Ok (attempted_row db d result), db') /\
    deliveries db' = <[i := attempted_row db d result]> (deliveries db) /\ messages db' = messages db.
Proof.
  intros Hwf Hl Hi Hs Hc Hid Hrec.
  destruct (wf_delivery _ Hwf _ _ Hi) as (HID & _ & Hck & Hb & _). pose proof (delivery_check_counts _ Hck) as [H0 _].
  unfold RecordAttempt, mbind at 1, m_bind at 1. rewrite (rec_valid _ Hrec). simpl.
  unfold WithTx, mbind at 1, m_bind at 1, lockDelivery. rewrite Hid, Hi, Hs. simpl.
  unfold record_locked, mbind, m_bind, insert_attempt. fold (logged db d result).
  rewrite (attempt_row_check db d result Hrec) by lia. simpl. rewrite bool_decide_eq_false_2.
  - unfold update_attempted. simpl. rewrite (attempted_row_check _ d result) by done. simpl.
    eexists. split; [reflexivity|]. by rewrite HID.
  - intros (j & a & Hj & Ha & Hn). simpl in Ha, Hn.
    destruct (log_attempt _ Hl _ _ Hj) as (_ & _ & d' & Hd' & Hn' & _). rewrite Ha, HID, Hi in Hd'.
    injection Hd' as <-. lia.
Qed.

(** The queue accepts whatever the worker records, so no finished attempt is lost
    to a constraint: for a pending delivery of any reachable state (with fewer than
    2^31 - 1 attempts), the result of any send (any status a 32-bit column holds, any
    error or response bytes, a duration below 2^31 ms) and any dead letter without a
    send is stored, as the row it computes, and no message changes. *)
Theorem worker_records_accepted scheduledCaps heldCaps db i d claim result :
  reachable scheduledCaps heldCaps db -> deliveries db !! i = Some d -> State d = StatePending ->
  AttemptCount d < 2 ^ 31 - 1 -> ID (Claim_Delivery claim) = i ->
  (exists t, send_ok t /\ result = sent_result (Claim_Delivery claim) t) \/
  (exists reason now, reason ∈ dead_reasons /\ result = never_sent claim reason now) ->
  exists db', RecordAttempt result db = (Ok (attempted_row db d result), db') /\
    deliveries db' = <[i := attempted_row db d result]> (deliveries db) /\ messages db' = messages db.
Proof.
  intros [Hwf Hl]%reachable_wf Hi Hs Hc Hid [(t & Ht & ->)|(reason & now & Hr & ->)].
  - apply record_accepts; try done; [|by apply sent_recordable].
    unfold sent_result, attempt_result. simpl. destruct (Decide_decision (Claim_Delivery claim) (send_outcome t)
      (send_finished t) (send_random t)) as (_ & -> & _). done.
  - apply record_accepts; try done. by apply never_sent_recordable.
Qed.

(** ** Retries end *)

(** One attempt on the current row: what the worker does of a claim, seen from the
    queue. *)
Definition send_once (i : Z) (t : Send) (db : DB) : DB :=
  match deliveries db !! i with
  | Some d => if String.eqb (State d) StatePending then (RecordAttempt (sent_result d t) db).2 else db
  | None => db
  end.

Definition send_all (i : Z) (sends : list Send) (db : DB) : DB := foldl (fun db t => send_once i t db) db sends.

Lemma sent_pending d t : NextState (sent_result d t) = StatePending -> BudgetAttempts d < 11.
Proof.
  intros Hs. pose proof (sent_decision d t) as Hd. rewrite Hs in Hd.
  inversion Hd as [| | | |_ Hb|]. unfold budget_left in Hb. bool_hyps. done.
Qed.

Lemma sent_id d t : DeliveryID (Result_Record (sent_result d t)) = ID d.
Proof.
  unfold sent_result, attempt_result. destruct (Decide_decision d (send_outcome t) (send_finished t) (send_random t)) as (_ & Hr & _).
  by destruct (Decide _ _ _ _) as [[] ? ? ?]; simpl in *; injection Hr.
Qed.

Lemma send_once_pending scheduledCaps heldCaps db i d t :
  reachable scheduledCaps heldCaps db -> deliveries db !! i = Some d -> State d = StatePending ->
  AttemptCount d < 2 ^ 31 - 1 -> send_ok t ->
  reachable scheduledCaps heldCaps (send_once i t db) /\
  exists d', deliveries (send_once i t db) !! i = Some d' /\ AttemptCount d' = AttemptCount d + 1 /\
    BudgetAttempts d' = BudgetAttempts d + 1 /\ (State d' = StatePending -> BudgetAttempts d < 11).
Proof.
  intros Hr Hi Hs Hc Ht. destruct (reachable_wf _ _ _ Hr) as [Hwf Hl].
  destruct (wf_delivery _ Hwf _ _ Hi) as [HID _].
  destruct (record_accepts db i d (sent_result d t)) as (db' & Hrec & Hd & _); try done;
    [by rewrite sent_id|by apply sent_recordable|].
  unfold send_once. rewrite Hi, Hs. simpl. split.
  - unfold reachable in *. eapply rtc_r; [exact Hr|apply step_RecordAttempt].
  - rewrite Hrec. simpl. exists (attempted_row db d (sent_result d t)). rewrite Hd, lookup_insert_eq.
    split_and!; [done..|]. apply sent_pending.
Qed.

Lemma send_all_settled sends i d db : deliveries db !! i = Some d -> State d <> StatePending -> send_all i sends db = db.
Proof.
  intros Hi Hs. induction sends as [|t sends IH]; [done|].
  assert (Hsame : send_once i t db = db) by (unfold send_once; by rewrite Hi, (proj2 (String.eqb_neq _ _) Hs)).
  change (send_all i sends (send_once i t db) = db). by rewrite Hsame.
Qed.

Lemma send_all_budget scheduledCaps heldCaps sends db i d :
  reachable scheduledCaps heldCaps db -> deliveries db !! i = Some d -> Forall send_ok sends ->
  AttemptCount d + Z.of_nat (length sends) < 2 ^ 31 ->
  exists d', deliveries (send_all i sends db) !! i = Some d' /\
    (State d' = StatePending -> BudgetAttempts d' = BudgetAttempts d + Z.of_nat (length sends) /\
       (sends <> [] -> BudgetAttempts d' <= 11)).
Proof.
  revert db d. induction sends as [|t sends IH]; intros db d Hr Hi Hok Hc.
  { exists d. split; [done|]. intros _. simpl. split; [lia|done]. }
  inversion Hok as [|? ? Ht Hok']; subst. cbn [length] in *. rewrite Nat2Z.inj_succ in *. simpl.
  destruct (String.eqb_spec (State d) StatePending) as [Hs|Hs].
  - destruct (send_once_pending _ _ db i d t Hr Hi Hs) as (Hr' & d1 & Hd1 & Ha & Hb & Hlt); [lia|done|].
    destruct (IH _ d1 Hr' Hd1 Hok') as (d' & Hd' & Hp); [lia|]. exists d'. split; [done|].
    intros Hpend. destruct (Hp Hpend) as [Hbud H11]. split; [lia|]. intros _.
    destruct sends as [|t2 sends]; [|by apply H11]. simpl in Hd'. replace d' with d1 in * by congruence.
    specialize (Hlt Hpend). lia.
  - exists d. change (send_all i sends (send_once i t db)) with (send_all i (t :: sends) db).
    by rewrite (send_all_settled _ _ d).
Qed.

(** C5: Retries end: from any reachable state, whatever a sink answers and whenever, a
    delivery is settled (no longer pending) after at most 12 attempts, each of which
    the queue accepts. *)
Theorem retries_end scheduledCaps heldCaps sends db i d :
  reachable scheduledCaps heldCaps db -> deliveries db !! i = Some d -> Forall send_ok sends ->
  (12 <= length sends)%nat -> AttemptCount d + Z.of_nat (length sends) < 2 ^ 31 ->
  exists d', deliveries (send_all i sends db) !! i = Some d' /\ State d' <> StatePending.
Proof.
  intros Hr Hi Hok Hlen Hc. destruct (send_all_budget _ _ sends db i d Hr Hi Hok Hc) as (d' & Hd' & Hp).
  exists d'. split; [done|]. intros Hs. destruct (Hp Hs) as [Hb H11].
  destruct (reachable_wf _ _ _ Hr) as [Hwf _]. destruct (wf_delivery _ Hwf _ _ Hi) as (_ & _ & Hck & _).
  destruct (delivery_check_counts _ Hck). destruct sends; [simpl in Hlen; lia|]. specialize (H11 ltac:(done)). lia.
Qed.

End queue.

(** ** Deliveries in flight *)

(** The lease a worker runs with outlasts a worst-case attempt. *)
Lemma NewWorker_lease {S} (config : WorkerConfig (S := S)) : AttemptTimeout config <= 10 ^ 18 ->
  AttemptTimeout (NewWorker config) + recordTimeout + disableTimeout + leaseMargin <= Lease (NewWorker config).
Proof.
  intros Ha. assert (Hd : 0 < AttemptTimeout (with_defaults config) <= 10 ^ 18).
  { assert (Heq : AttemptTimeout (with_defaults config) =
      if AttemptTimeout config <=? 0 then DefaultAttemptTimeout else AttemptTimeout config) by by destruct config.
    rewrite Heq. assert (DefaultAttemptTimeout = 9000000000) by done. destruct (Z.leb_spec (AttemptTimeout config) 0); lia. }
  unfold NewWorker. cbv zeta. set (c := with_defaults config) in *.
  assert (recordTimeout + disableTimeout + leaseMargin = 37000000000) by done.
  rewrite wrap64_small by (unfold in_int64, int64_min, int64_max; lia).
  destruct (Z.ltb_spec (Lease c) (AttemptTimeout c + recordTimeout + disableTimeout + leaseMargin)); destruct c; simpl in *; lia.
Qed.

(** The store under any number of workers: the clock, the tables, and the deliveries
    being sent, each with the time by which its worker is done with it. *)
Record run := {
  run_clock : Z;
  run_tables : DB;
  run_sending : list (Z * Z)
}.

Section flight.
Context `{Hpg : Pg} {S : Type} (config : WorkerConfig (S := S)) (scheduledCaps : ScheduledCaps) (heldCaps : HeldCaps).

(** When a worker that claimed at [nowArg] is done at the latest: its attempt times
    out, then its record, then the disabling of a gone destination; the margin is
    for the claim itself and what it does in between. *)
Definition done_by (nowArg : Z) : Z :=
  nowArg + AttemptTimeout (NewWorker config) + recordTimeout + disableTimeout + leaseMargin - Microsecond.

Definition others_sending (i : Z) (l : list (Z * Z)) : list (Z * Z) := filter (fun e => e.1 <> i) l.

(** What happens: time passes, and a worker whose time is over neither sends nor
    records any more; a worker claims at a time it has read from the clock, and
    sends what it gets; the worker sending a delivery records a result of it, any,
    and is done, or is told of an error and may try again; it gives up or dies; and
    any other operation of the store runs. *)
Inductive run_step (r : run) : run -> Prop :=
  | run_tick t : run_clock r <= t ->
      run_step r {| run_clock := t; run_tables := run_tables r; run_sending := filter (fun e => t < e.2) (run_sending r) |}
  | run_claim locked nowArg claim db' : nowArg <= run_clock r < done_by nowArg ->
      ClaimDue locked nowArg (Lease (NewWorker config)) (run_tables r) = (Ok (Some claim), db') ->
      run_step r {| run_clock := run_clock r; run_tables := db';
        run_sending := (ID (Claim_Delivery claim), done_by nowArg) :: run_sending r |}
  | run_claim_nothing locked nowArg result db' : (forall claim, result <> Ok (Some claim)) ->
      ClaimDue locked nowArg (Lease (NewWorker config)) (run_tables r) = (result, db') ->
      run_step r {| run_clock := run_clock r; run_tables := db'; run_sending := run_sending r |}
  | run_record i until attempt d db' : (i, until) ∈ run_sending r -> DeliveryID (Result_Record attempt) = i ->
      RecordAttempt attempt (run_tables r) = (Ok d, db') ->
      run_step r {| run_clock := run_clock r; run_tables := db'; run_sending := others_sending i (run_sending r) |}
  | run_record_failed i until attempt e db' : (i, until) ∈ run_sending r -> DeliveryID (Result_Record attempt) = i ->
      RecordAttempt attempt (run_tables r) = (Err e, db') ->
      run_step r {| run_clock := run_clock r; run_tables := db'; run_sending := run_sending r |}
  | run_stop i :
      run_step r {| run_clock := run_clock r; run_tables := run_tables r; run_sending := others_sending i (run_sending r) |}
  | run_client db' : client_step scheduledCaps heldCaps (run_tables r) db' ->
      run_step r {| run_clock := run_clock r; run_tables := db'; run_sending := run_sending r |}.

(** Row [i] is leased past [u], if it is still there. *)
Definition leased (db : DB) (i u : Z) : Prop :=
  i < next_delivery_id db /\
  forall d, deliveries db !! i = Some d -> State d = StatePending /\
    exists until, u + Microsecond <= until /\ NextAttemptAt d = timestamptz until.

Record flights (r : run) : Prop := {
  fl_reachable : reachable scheduledCaps heldCaps (run_tables r);
  fl_once : NoDup (run_sending r).*1;
  fl_time i u : (i, u) ∈ run_sending r -> run_clock r < u;
  fl_leased i u : (i, u) ∈ run_sending r -> leased (run_tables r) i u
}.

(** Fewer deliveries in flight, on the same tables. *)
Lemma flights_fewer r t l (P : Z * Z -> Prop) `{forall e, Decision (P e)} : flights r -> l = filter P (run_sending r) ->
  (forall i u, (i, u) ∈ l -> t < u) -> flights {| run_clock := t; run_tables := run_tables r; run_sending := l |}.
Proof.
  intros [Hr Hnd Ht Hl] -> Htime. split; simpl; [done| |done|].
  - eapply sublist_NoDup; [exact Hnd|]. apply fmap_sublist, sublist_filter.
  - intros i u [_ Hin]%list_elem_of_filter. by apply Hl.
Qed.

Lemma leased_client db db' i u : wf db -> client_step scheduledCaps heldCaps db db' -> leased db i u -> leased db' i u.
Proof.
  intros Hwf Hstep [Hi Hd]. destruct (client_evolves _ _ _ _ Hwf Hstep) as [Hn Hrow]. split; [lia|].
  intros d' [(d & Hdi & _ & Hk)|[? _]]%Hrow; [|lia]. destruct (Hd _ Hdi) as [Hs Hu].
  destruct Hk as [[-> ->]|[Hk|Hk]]; [done|by rewrite Hs in Hk..].
Qed.

(** A row set at another index. *)
Lemma leased_set db db' i j d u : next_delivery_id db' = next_delivery_id db ->
  deliveries db' = <[j := d]> (deliveries db) -> i <> j -> leased db i u -> leased db' i u.
Proof. intros Hn Hd Hne [Hi Hl]. split; [lia|]. intros d'. rewrite Hd, lookup_insert_ne by done. apply Hl. Qed.

Context {Hlaws : PgLaws Hpg}.

Lemma leased_not_due db i u nowArg locked d : deliveries db !! i = Some d -> leased db i u -> nowArg < u ->
  d ∉ due nowArg locked db.
Proof.
  intros Hi [_ Hl] Hu (_ & _ & Hle & _)%due_elem. destruct (Hl _ Hi) as (_ & until & Huntil & Hn).
  rewrite Hn in Hle. apply (lease_after nowArg until); [lia|done].
Qed.

Lemma flights_claim r locked nowArg claim db' : AttemptTimeout config <= 10 ^ 18 ->
  flights r -> nowArg <= run_clock r < done_by nowArg ->
  ClaimDue locked nowArg (Lease (NewWorker config)) (run_tables r) = (Ok (Some claim), db') ->
  flights {| run_clock := run_clock r; run_tables := db'; run_sending := (ID (Claim_Delivery claim), done_by nowArg) :: run_sending r |}.
Proof.
  intros Ha [Hr Hnd Ht Hl] [Hnow Hend] Hrun. destruct (reachable_wf _ _ _ Hr) as [Hwf _].
  assert (Hr' : reachable scheduledCaps heldCaps db').
  { eapply rtc_r; [exact Hr|]. pose proof (step_ClaimDue scheduledCaps heldCaps (run_tables r) locked nowArg (Lease (NewWorker config))) as Hs.
    by rewrite Hrun in Hs. }
  pose proof (NewWorker_lease config Ha) as Hlease.
  apply (ClaimDue_outcome _ _ _ _ _ _ Hwf) in Hrun. inversion Hrun as [| |d rest row m r0 db1 Hdue _ Hi -> -> _ _]; subst. simpl.
  assert (Hd : d ∈ due nowArg locked (run_tables r)) by (rewrite Hdue; left).
  assert (Hnew : forall i u, (i, u) ∈ run_sending r -> i <> ID d).
  { intros i u Hin ->. apply (leased_not_due _ _ _ nowArg locked _ Hi (Hl _ _ Hin)); [specialize (Ht _ _ Hin); lia|done]. }
  split; simpl; [done| | |].
  - constructor; [|done]. intros ([i u] & Heq & Hin)%list_elem_of_fmap. by apply (Hnew i u).
  - intros i u [[= -> ->]|Hin]%elem_of_cons; [done|by eapply Ht].
  - intros i u [[= -> ->]|Hin]%elem_of_cons.
    + split; [apply (wf_delivery _ Hwf _ _ Hi)|]. simpl. rewrite lookup_insert_eq. intros d' [= <-].
      apply due_elem in Hd as (_ & Hs & _). split; [done|]. exists (nowArg + Lease (NewWorker config)). unfold done_by. split; [lia|done].
    + eapply (leased_set (run_tables r) _ _ (ID d)); [reflexivity|reflexivity|by eapply Hnew|by apply Hl].
Qed.

Lemma flights_record r i attempt d db' : flights r -> DeliveryID (Result_Record attempt) = i ->
  RecordAttempt attempt (run_tables r) = (Ok d, db') ->
  flights {| run_clock := run_clock r; run_tables := db'; run_sending := others_sending i (run_sending r) |}.
Proof.
  intros Hf Hid Hrun. pose proof Hf as [Hr _ _ _].
  assert (Hr' : reachable scheduledCaps heldCaps db').
  { eapply rtc_r; [exact Hr|]. pose proof (step_RecordAttempt scheduledCaps heldCaps (run_tables r) attempt) as Hs. by rewrite Hrun in Hs. }
  destruct (flights_fewer r (run_clock r) _ (fun e => e.1 <> i) Hf eq_refl) as [_ Hnd Ht Hl].
  { intros j u [_ Hin]%list_elem_of_filter. by eapply (fl_time _ Hf). }
  split; [done..|]. simpl in *. intros j u Hin. pose proof Hin as [Hne _]%list_elem_of_filter. specialize (Hl _ _ Hin).
  apply RecordAttempt_outcome in Hrun. destruct (reachable_wf _ _ _ Hr) as [Hwf _].
  inversion Hrun as [| |d0 db1 _ Hi _ _ _ Hdb]; subst; [done|]. destruct (wf_delivery _ Hwf _ _ Hi) as [HID _].
  eapply (leased_set (run_tables r) _ _ (ID d0)); [done|done| |done]. by rewrite HID.
Qed.

Lemma flights_step r r' : AttemptTimeout config <= 10 ^ 18 -> flights r -> run_step r r' -> flights r'.
Proof.
  intros Ha Hf [t Ht|locked nowArg claim db' Hnow Hrun|locked nowArg result db' Hno Hrun|i until attempt d db' _ Hid Hrun
    |i until attempt e db' _ Hid Hrun|i|db' Hstep]; pose proof Hf as [Hr Hnd Htm Hl]; destruct (reachable_wf _ _ _ Hr) as [Hwf _].
  - apply (flights_fewer r t _ (fun e => t < e.2) Hf eq_refl). by intros i u [? _]%list_elem_of_filter.
  - by eapply flights_claim.
  - apply (ClaimDue_outcome _ _ _ _ _ _ Hwf) in Hrun. destruct Hrun; [by split..|]. by destruct (Hno _ eq_refl).
  - by eapply flights_record.
  - apply RecordAttempt_outcome in Hrun. inversion Hrun; subst. by split.
  - apply (flights_fewer r (run_clock r) _ (fun e => e.1 <> i) Hf eq_refl). intros j u [_ Hin]%list_elem_of_filter. by eapply Htm.
  - split; simpl; [by eapply rtc_r, step_client|done..|]. intros i u Hin. by eapply leased_client, Hl.
Qed.
End flight.

(** C20: No double send: whatever the workers and the clients of the store do, in any
    order and at any time, from any reachable state in which nothing is being sent,
    no delivery is being sent by two claims at once, and one being sent is still
    pending (or gone with its message). A claim is being sent until its worker
    records a result, whichever it is, or gives up, or is out of time: its attempt
    timeout, whatever is configured, then the record and disable timeouts and 30 s
    less a microsecond after the time it claimed at, which the lease outlasts. *)
Theorem no_double_send `{Hpg : Pg} `{Hlaws : !PgLaws Hpg} {S} (config : WorkerConfig (S := S)) scheduledCaps heldCaps r r' :
  AttemptTimeout config <= 10 ^ 18 ->
  reachable scheduledCaps heldCaps (run_tables r) -> run_sending r = [] ->
  rtc (run_step config scheduledCaps heldCaps) r r' ->
  NoDup (run_sending r').*1 /\
  forall i until d, (i, until) ∈ run_sending r' -> deliveries (run_tables r') !! i = Some d -> State d = StatePending.
Proof.
  intros Ha Hr Hnone Hrun.
  assert (Hf : flights scheduledCaps heldCaps r).
  { split; [done|rewrite Hnone; constructor|rewrite Hnone; by intros ? ? ?%elem_of_nil..]. }
  clear Hr Hnone. induction Hrun as [|x y z Hxy _ IH]; [|by eapply IH, flights_step].
  split; [apply Hf|]. intros i until d Hin Hi. by apply (fl_leased _ _ _ Hf _ _ Hin).
Qed.

(** ** Where a payload goes *)

Section addressed.
Context {S : Type} `{Queue S} `{Resolver S} (config : WorkerConfig (S := S)).
Context (urlError : error -> option error) (recordCtxDone : nat -> bool).

(** The destinations a claim may be sent to: what the recipient resolver gives for
    the message's own app and recipient, or the very row its delivery names, by id,
    as the registry resolves it for the app. *)
Inductive addressed (claim : Claim) (dest : registry.ResolvedDestination) : Prop :=
  | addressed_recipient f s s' :
      DestinationName (Claim_Delivery claim) = registry.RecipientDestinationName ->
      Recipients config = Some f ->
      f (AppID (Message_Envelope (Claim_Message claim))) (ToRecipient (Message_Envelope (Claim_Message claim)))
        (Channel (Message_Envelope (Claim_Message claim))) s = (Ok dest, s') ->
      addressed claim dest
  | addressed_destination s s' :
      DestinationName (Claim_Delivery claim) <> EmptyString ->
      DestinationID (Claim_Delivery claim) = Some (registry.Resolved_ID dest) ->
      resolver_Resolve (AppID (Message_Envelope (Claim_Message claim))) (DestinationName (Claim_Delivery claim))
        (Channel (Message_Envelope (Claim_Message claim))) s = (Ok [dest], s') ->
      addressed claim dest.

Lemma resolve_addressed claim s dest s' : resolve config claim s = (Ok (inl dest), s') -> addressed claim dest.
Proof.
  unfold resolve. destruct (String.eqb_spec (DestinationName (Claim_Delivery claim)) registry.RecipientDestinationName) as [Hn|_].
  - unfold resolveRecipient. destruct (Recipients config) as [f|] eqn:Hf; [|done].
    destruct (f _ _ _ s) as [[d|e] s1] eqn:E; [|by case_match]. intros [= <- <-]. by eapply addressed_recipient.
  - destruct (String.eqb_spec (DestinationName (Claim_Delivery claim)) EmptyString) as [|He]; [done|]. cbv zeta.
    destruct (resolver_Resolve _ _ _ s) as [[[|d [|]]|e] s1] eqn:E; [done| |done|by repeat case_match].
    case_match eqn:Hd; [|done]. apply bool_decide_eq_true in Hd. intros [= <- <-]. by eapply addressed_destination.
Qed.

(** The request a claim is sent with. *)
Definition request_of (claim : Claim) : sink.Request :=
  {| sink.Request_MessageID := Message_ID (Claim_Message claim);
     sink.Request_CreatedAt := Message_CreatedAt (Claim_Message claim);
     sink.Request_Envelope := Message_Envelope (Claim_Message claim) |}.

(** Two sink maps that differ at most in what they do of other destinations or
    requests. *)
Definition same_sinks (claim : Claim) (sinks1 sinks2 : gmap string (option (Sink (S := S)))) : Prop :=
  forall t, match sinks1 !! t, sinks2 !! t with
  | Some (Some k1), Some (Some k2) => forall dest s, addressed claim dest -> registry.Resolved_Type dest = t ->
      k1 dest (request_of claim) s = k2 dest (request_of claim) s
  | Some (Some _), _ | _, Some (Some _) => False
  | _, _ => True
  end.

Lemma attempt_same claim dest k1 k2 sinks s : (forall s, k1 dest (request_of claim) s = k2 dest (request_of claim) s) ->
  attempt config urlError recordCtxDone claim dest k1 s =
  attempt (config {{ Sinks := sinks }}) urlError recordCtxDone claim dest k2 s.
Proof.
  intros Hk. unfold attempt, deliver. fold (request_of claim).
  change (Now (config {{ Sinks := sinks }})) with (Now config).
  change (Random (config {{ Sinks := sinks }})) with (Random config).
  destruct (Now config s) as [started s1]. by rewrite Hk.
Qed.

(** C8: A payload goes nowhere else: what processing a claim does is determined by the
    sinks' behaviour on this message at the destinations it is addressed to.
    Whatever a sink would do at any other destination (a row of another id under the
    same name, another app's, another recipient's) or with any other message, the
    run is the same, so it was never asked. *)
Theorem never_misaddressed claim sinks s : same_sinks claim (Sinks config) sinks ->
  process config urlError recordCtxDone claim s =
  process (config {{ Sinks := sinks }}) urlError recordCtxDone claim s.
Proof.
  intros Hsame. unfold process. change (resolve (config {{ Sinks := sinks }})) with (resolve config).
  change (Sinks (config {{ Sinks := sinks }})) with sinks.
  destruct (resolve config claim s) as [[[dest|reason]|e] s1] eqn:Hres; [|done..].
  pose proof (resolve_addressed _ _ _ _ Hres) as Haddr. specialize (Hsame (registry.Resolved_Type dest)).
  destruct (Sinks config !! _) as [[k1|]|], (sinks !! _) as [[k2|]|]; try done.
  apply attempt_same. intros s2. by apply Hsame.
Qed.
End addressed.

(** ** Pauses of the claim loop *)

(** While the queue fails, the pause between claims is the poll interval doubled
    per failure after the first, at most 32 times, capped at 30 s (or at the poll
    interval, if longer): computed without overflow for any positive interval and any
    streak, never shorter than the poll interval, and never shrinking as the streak
    grows. *)
Theorem claimBackoff_spec pollInterval failures :
  0 < pollInterval -> in_int64 pollInterval -> 1 <= failures -> in_int64 failures ->
  let p n := claimBackoff pollInterval n in
  p failures = Z.min (pollInterval * 2 ^ Z.min (failures - 1) 5) (Z.max (30 * Second) pollInterval) /\
  pollInterval <= p failures /\ in_int64 (p failures) /\ (forall more, failures <= more -> in_int64 more -> p failures <= p more).
Proof.
  intros Hp Hpi Hf Hfi.
  assert (Hspec : forall n, 1 <= n -> in_int64 n ->
    claimBackoff pollInterval n = Z.min (pollInterval * 2 ^ Z.min (n - 1) 5) (Z.max (30 * Second) pollInterval)).
  { intros n Hn Hni. unfold claimBackoff. cbv zeta. unfold in_int64, int64_min, int64_max in *.
    rewrite wrap64_small by (unfold in_int64, int64_min, int64_max; lia). unfold maxClaimBackoffShift.
    rewrite (Z.max_l (n - 1)) by lia. set (k := Z.min (n - 1) 5). change maxClaimBackoff with (30 * Second).
    assert (30 * Second = 30000000000) as -> by done. set (c := Z.max 30000000000 pollInterval).
    rewrite Z.shiftr_div_pow2, Z.shiftl_mul_pow2 by lia. pose proof (Z.pow_pos_nonneg 2 k ltac:(lia) ltac:(lia)) as Hk.
    pose proof (Z.div_mod c (2 ^ k) ltac:(lia)) as Hdm. pose proof (Z.mod_pos_bound c (2 ^ k) Hk) as Hmod.
    destruct (Z.ltb_spec (c / 2 ^ k) pollInterval); [nia|].
    rewrite wrap64_small by (unfold in_int64, int64_min, int64_max; nia). nia. }
  cbv zeta beta. rewrite (Hspec failures) by done.
  pose proof (Z.pow_le_mono_r 2 0 (Z.min (failures - 1) 5) ltac:(lia) ltac:(lia)) as H1. rewrite Z.pow_0_r in H1.
  split_and!; [done|nia|unfold in_int64, int64_min, int64_max in *; assert (30 * Second = 30000000000) by done; nia|].
  intros more Hm Hmi. rewrite Hspec by (done || lia).
  pose proof (Z.pow_le_mono_r 2 (Z.min (failures - 1) 5) (Z.min (more - 1) 5) ltac:(lia) ltac:(lia)). nia.
Qed.
