(* ===== verification/MessageRelease.v ===== *)
(** * MessageRelease

    Releasing scheduled messages: oldest first, whole messages only, at most the
    limit, and nothing due is left behind when there is room. *)

From S2P Require Import Prelude GoText Utf8 Message MessageStore MessageInv MessageSteps MessageReach MessageProps MessageRetention Dispatch.
Open Scope Z_scope.
Import message message_pg.

(** ** Sorted prefixes *)

Lemma sorted_take_drop {A} (R : relation A) `{!Transitive R} l n x y :
  Sorted R l -> x ∈ take n l -> y ∈ drop n l -> R x y.
Proof.
  intros Hs Hx Hy. apply Sorted_StronglySorted in Hs; [|done]. rewrite <- (take_drop n l) in Hs.
  by eapply (StronglySorted_app_1_elem_of R).
Qed.

Lemma take_or_drop {A} (l : list A) n x : x ∈ l -> x ∈ take n l \/ x ∈ drop n l /\ length (take n l) = n.
Proof.
  intros Hx. rewrite <- (take_drop n l) in Hx. apply elem_of_app in Hx as [Hx|Hx]; [by left|right].
  split; [done|]. rewrite length_take. destruct (decide (n <= length l)%nat); [lia|].
  rewrite drop_ge in Hx by lia. by apply elem_of_nil in Hx.
Qed.

#[global] Instance probe_le_total : base.Total probe_le.
Proof.
  intros a b. unfold probe_le. destruct (Z.lt_trichotomy a.2 b.2) as [|[|]]; [by left; left| |by right; left].
  destruct (str_le_total a.1 b.1); [left|right]; by right.
Qed.
#[global] Instance probe_le_trans : Transitive probe_le.
Proof.
  intros a b c. unfold probe_le. intros [?|[? Hab]] [?|[? Hbc]]; [left; lia|left; lia|left; lia|right].
  split; [lia|]. by etrans.
Qed.

Section release.
Context `{Hpg : Pg}.

(** Message [id] is scheduled for [u]. *)
Definition due_at (db : DB) (id : string) (u : Z) : Prop :=
  exists r, messages db !! id = Some r /\ phase_ok PScheduled r (has db id) /\ row_deliver_at r = Some u.

Lemma due_at_unique db id u u' : due_at db id u -> due_at db id u' -> u = u'.
Proof. intros (r & Hr & _ & Hu) (r' & Hr' & _ & Hu'). congruence. Qed.

(** ** The probe *)

Lemma groups_spec (l : list Delivery) id :
  match foldr (fun d groups => <[MessageID d := match groups !! MessageID d with
      | Some u => Z.min u (NextAttemptAt d) | None => NextAttemptAt d end]> groups) (∅ : gmap string Z) l !! id with
  | Some u => exists d, d ∈ l /\ MessageID d = id /\ NextAttemptAt d = u
  | None => forall d, d ∈ l -> MessageID d <> id
  end.
Proof.
  induction l as [|d l IH]; simpl; [by rewrite lookup_empty; intros d ?%elem_of_nil|].
  destruct (decide (MessageID d = id)) as [<-|Hne].
  - rewrite lookup_insert_eq. destruct (_ !! MessageID d) as [u|].
    + destruct IH as (d' & Hd' & Hid & <-). destruct (Z.min_spec (NextAttemptAt d') (NextAttemptAt d)) as [[_ ->]|[_ ->]].
      * exists d'. by split_and!; [right|..].
      * exists d. by split_and!; [left|..].
    + exists d. by split_and!; [left|..].
  - rewrite lookup_insert_ne by done. destruct (_ !! id) as [u|].
    + destruct IH as (d' & Hd' & Hid & <-). exists d'. by split_and!; [right|..].
    + intros d' [->|Hd']%elem_of_cons; [done|by apply IH].
Qed.

Lemma due_groups_spec t db id u : wf db -> due_groups t db !! id = Some u <-> due_at db id u /\ u <= t.
Proof.
  intros Hwf. unfold due_groups. set (l := filter _ _). pose proof (groups_spec l id) as Hg.
  assert (Hl : forall d, d ∈ l <-> scheduled_due t d = true /\ exists i, deliveries db !! i = Some d).
  { intros d. unfold l. rewrite list_elem_of_filter, list_elem_of_fmap. split.
    - intros [Hs ([i d'] & -> & Hi%elem_of_map_to_list)]. split; [done|by exists i].
    - intros [Hs [i Hi]]. split; [done|]. exists (i, d). split; [done|by apply elem_of_map_to_list]. }
  assert (Hdue : forall d, d ∈ l -> MessageID d = id -> due_at db id (NextAttemptAt d) /\ NextAttemptAt d <= t).
  { intros d [Hs [i Hi]]%Hl Hid. unfold scheduled_due in Hs. bool_hyps. split; [|done].
    assert (Hin : id ∈ scheduled_ids db).
    { apply elem_of_list_to_set, list_elem_of_fmap. exists d. split; [done|]. apply list_elem_of_filter. split; [done|].
      apply list_elem_of_fmap. exists (i, d). split; [done|by apply elem_of_map_to_list]. }
    apply elem_of_scheduled_ids in Hin as (r & Hr & Hp); [|done]. exists r. split_and!; [done..|].
    destruct Hp as (_ & _ & u0 & -> & Hall). f_equal. symmetry. apply Hall. by exists i. }
  set (groups := foldr _ _ _) in *. split.
  - intros Hu. rewrite Hu in Hg. destruct Hg as (d & Hd & Hid & <-). by apply Hdue.
  - intros [Hdu Ht]. pose proof Hdu as (r & Hr & (_ & [d Hd] & u0 & Hu0 & Hall) & Hu).
    assert (Hin : d ∈ l).
    { apply Hl. destruct (Hall _ Hd) as [Hs Hn]. unfold scheduled_due. rewrite Hs, Hn. simpl.
      split; [apply Z.leb_le; congruence|]. destruct Hd as (i & Hi & _). by exists i. }
    destruct Hd as (i & Hi & Hid). destruct (groups !! id) as [u'|]; [|by destruct (Hg d Hin)].
    destruct Hg as (d' & Hd' & Hid' & <-). f_equal. by apply (due_at_unique db id); [apply Hdue|].
Qed.

(** The candidates: the earliest due messages, up to the limit. *)
Lemma probe_spec t limit db : wf db -> 1 <= limit ->
  NoDup (releaseProbeSQL t limit db) /\ Z.of_nat (length (releaseProbeSQL t limit db)) <= limit /\
  (forall id, id ∈ releaseProbeSQL t limit db -> exists u, due_at db id u /\ u <= t) /\
  (forall id u, due_at db id u -> u <= t -> id ∉ releaseProbeSQL t limit db ->
     Z.of_nat (length (releaseProbeSQL t limit db)) = limit /\
     forall id', id' ∈ releaseProbeSQL t limit db -> exists u', due_at db id' u' /\ u' <= u).
Proof.
  intros Hwf Hlim. unfold releaseProbeSQL. set (L := merge_sort probe_le (map_to_list (due_groups t db))).
  assert (HL : forall p, p ∈ L <-> due_at db p.1 p.2 /\ p.2 <= t).
  { intros [id u]. unfold L. rewrite merge_sort_Permutation, elem_of_map_to_list. by apply due_groups_spec. }
  assert (Hnd : NoDup L.*1) by (unfold L; rewrite merge_sort_Permutation; apply NoDup_fst_map_to_list).
  split_and!.
  - rewrite fmap_take. by apply NoDup_take.
  - rewrite length_fmap, length_take. lia.
  - intros id ([id' u] & -> & Hin)%list_elem_of_fmap. exists u. apply HL. by apply take_elem in Hin.
  - intros id u Hdu Ht Hno.
    assert (Hin : (id, u) ∈ L) by by apply HL.
    destruct (take_or_drop L (Z.to_nat limit) _ Hin) as [Htake|[Hdrop Hlen]].
    { destruct Hno. apply list_elem_of_fmap. by exists (id, u). }
    rewrite length_fmap, Hlen. split; [lia|]. intros id' ([id2 u'] & -> & Hin')%list_elem_of_fmap.
    exists u'. pose proof (take_elem _ _ _ Hin') as Hin2. apply HL in Hin2 as [Hd2 _]. split; [done|].
    assert (Hle : probe_le (id2, u') (id, u)).
    { eapply (sorted_take_drop probe_le L); [apply Sorted_merge_sort, _|done..]. }
    destruct Hle as [|[? _]]; simpl in *; lia.
Qed.

(** ** One release *)

(** What the update of the taken messages does to the rows. *)
Lemma release_rows t (taken : list string) db : wf db ->
  (forall id, id ∈ taken -> exists u, due_at db id u /\ u <= t) ->
  (forall i d, deliveries db !! i = Some d ->
     release_if taken t d = if bool_decide (MessageID d ∈ taken) then release_row t d else d) /\
  forall id, id ∈ MessageID <$> filter (fun d => bool_decide (MessageID d ∈ taken) && scheduled_due t d = true)
      ((map_to_list (deliveries db)).*2) <-> id ∈ taken.
Proof.
  intros Hwf Htaken.
  assert (Hall : forall i d, deliveries db !! i = Some d -> MessageID d ∈ taken -> scheduled_due t d = true).
  { intros i d Hi Hin. destruct (Htaken _ Hin) as (u & (r & Hr & (_ & _ & u0 & Hu0 & Hall) & Hu) & Hle).
    destruct (Hall d) as [Hs Hn]; [by exists i|]. unfold scheduled_due. rewrite Hs, Hn. simpl. apply Z.leb_le. congruence. }
  split.
  - intros i d Hi. unfold release_if. destruct (bool_decide_reflect (MessageID d ∈ taken)) as [Hin|]; [|done].
    by rewrite (Hall i d).
  - intros id. rewrite list_elem_of_fmap. split.
    + intros (d & -> & [Hc _]%list_elem_of_filter). by bool_hyps.
    + intros Hin. destruct (Htaken _ Hin) as (u & (r & Hr & (_ & [d (i & Hi & Hid)] & _) & _) & _).
      exists d. split; [done|]. apply list_elem_of_filter. split.
      * rewrite bool_decide_eq_true_2 by by rewrite Hid. simpl. apply (Hall i); [done|by rewrite Hid].
      * apply list_elem_of_fmap. exists (i, d). split; [done|by apply elem_of_map_to_list].
Qed.

(** What a release of the messages [ids] at [t] does. *)
Record releases (locked ids : gset string) (t limit : Z) (db db' : DB) : Prop := {
  rel_size : Z.of_nat (size ids) <= limit;
  rel_due id : id ∈ ids -> id ∉ locked /\ in_phase db' id PActive /\ exists u, due_at db id u /\ u <= t;
  rel_messages : messages db' = messages db;
  rel_attempts : attempts db' = attempts db;
  rel_rows i : deliveries db' !! i =
    (fun d => if bool_decide (MessageID d ∈ ids) then release_row t d else d) <$> deliveries db !! i;
  rel_left id u : due_at db id u -> u <= t -> id ∉ ids -> id ∉ locked ->
    exists C : gset string, Z.of_nat (size C) = limit /\ id ∉ C /\
      forall id', id' ∈ C -> (id' ∈ ids \/ id' ∈ locked) /\ exists u', due_at db id' u' /\ u' <= u
}.

Lemma ReleaseDue_releases locked nowArg limit db r db' : wf db -> nowArg <> 0 -> 1 <= limit ->
  ReleaseDue locked nowArg limit db = (r, db') ->
  exists ids, r = Ok (Z.of_nat (size ids)) /\ releases locked ids (timestamptz nowArg) limit db db'.
Proof.
  intros Hwf Hnow Hlim. unfold ReleaseDue, time.IsZero. rewrite (proj2 (Z.eqb_neq _ _) Hnow).
  destruct (Z.ltb_spec limit 1); [lia|]. cbv zeta. set (t := timestamptz nowArg).
  destruct (probe_spec t limit db Hwf Hlim) as (Hnd & Hlen & Hdue & Hleft).
  set (cs := releaseProbeSQL t limit db) in *. set (taken := filter _ cs).
  assert (Htaken : forall id, id ∈ taken <-> id ∈ cs /\ id ∉ locked).
  { intros id. unfold taken. rewrite list_elem_of_filter. split; [tauto|]. intros [Hin Hno]. split_and!; try done.
    destruct (Hdue _ Hin) as (u & (r0 & Hr & _) & _). by eexists. }
  destruct (release_rows t taken db Hwf) as [Hrows Hids]; [intros id [? _]%Htaken; by apply Hdue|].
  set (P := fun d => bool_decide (MessageID d ∈ taken) && scheduled_due t d) in *.
  intros [= <- <-]. set (ids := list_to_set (C := gset string) (MessageID <$> filter (fun d => P d = true) ((map_to_list (deliveries db)).*2))).
  assert (Hmem : forall id, id ∈ ids <-> id ∈ taken) by (intros id; unfold ids; rewrite elem_of_list_to_set; apply Hids).
  assert (Heq : ids = list_to_set taken) by (apply set_eq; intros id; by rewrite Hmem, elem_of_list_to_set).
  exists ids. split; [done|]. split.
  - rewrite Heq, size_list_to_set by by apply NoDup_filter.
    pose proof (length_filter (fun id => id ∉ locked /\ is_Some (messages db !! id)) cs) as Hf.
    change (length taken <= length cs)%nat in Hf. lia.
  - intros id [Hin Hno]%Hmem%Htaken. destruct (Hdue _ Hin) as (u & Hdu & Hu). split_and!; [done| |by exists u].
    pose proof Hdu as (r0 & Hr & Hp & Hda). exists r0. split; [done|].
    destruct (release_phase db (update_deliveries P (release_row t) db) taken t id r0 PScheduled Hp eq_refl
      (release_identity db taken t Hwf)) as (p' & Hp' & Hmv & Hsched).
    inversion Hmv; subst; [| |done].
    2:{ destruct Hp as ((_ & Hc & _) & _), Hp' as (_ & [? Hc'] & _). congruence. }
    specialize (Hsched (proj2 (Htaken id) (conj Hin Hno)) eq_refl eq_refl u Hda). lia.
  - done.
  - done.
  - intros i. simpl. rewrite lookup_fmap. destruct (deliveries db !! i) as [d|] eqn:Hi; [|done]. simpl. f_equal.
    change (release_if taken t d = if bool_decide (MessageID d ∈ ids) then release_row t d else d).
    rewrite (Hrows i d Hi). by rewrite (bool_decide_ext _ _ (Hmem (MessageID d))).
  - intros id u Hdu Hu Hno Hlk. assert (Hnc : id ∉ cs) by (intros Hin; by apply Hno, Hmem, Htaken).
    destruct (Hleft id u Hdu Hu Hnc) as [Hl Hall]. exists (list_to_set cs).
    rewrite size_list_to_set by done. split_and!; [done|by rewrite elem_of_list_to_set|].
    intros id' Hin'%elem_of_list_to_set. split; [|by apply Hall].
    destruct (decide (id' ∈ locked)); [by right|left]. by apply Hmem, Htaken.
Qed.

(** A release is exact, whole and oldest first.  It releases at most the limit of
    messages, each scheduled, due and unlocked; each becomes queued with all its
    deliveries pending, due and with a budget from the release time, and no other
    row changes; it reports how many; and a due unlocked message is left for later
    only when as many messages as the limit, due no later, were released before it or
    were locked. *)
Theorem ReleaseDue_exact scheduledCaps heldCaps locked nowArg limit db r db' :
  reachable scheduledCaps heldCaps db -> nowArg <> 0 -> 1 <= limit ->
  ReleaseDue locked nowArg limit db = (r, db') ->
  exists ids, r = Ok (Z.of_nat (size ids)) /\ releases locked ids (timestamptz nowArg) limit db db'.
Proof. intros [Hwf _]%reachable_wf. by apply ReleaseDue_releases. Qed.

(** ** A run of the releaser *)

Section drain.
Context (scheduledCaps : ScheduledCaps) (heldCaps : HeldCaps) (t : Z) (Ht : t <> 0).

(** The store with no rows locked, on a clock that reads [t]. *)
Definition drain_store (batches : nat) (batchSize : Z) : Z -> DB -> Z * DB :=
  releaser.drain_loop (ReleaseDue ∅) (fun db => (t, db)) (fun _ => false) batches batchSize.

Definition nothing_due (db : DB) : Prop := forall id u, due_at db id u -> timestamptz t < u.

(** A short batch took all there was. *)
Lemma short_batch ids limit db db' : wf db -> releases ∅ ids (timestamptz t) limit db db' ->
  Z.of_nat (size ids) < limit -> nothing_due db'.
Proof.
  intros Hwf Hrel Hshort id u Hdu. apply Z.nle_gt. intros Hu.
  assert (Hni : id ∉ ids).
  { intros Hin. destruct (rel_due _ _ _ _ _ _ Hrel _ Hin) as (_ & (r & Hr & Hp) & _).
    destruct Hdu as (r' & Hr' & Hp' & _). replace r' with r in * by congruence. by eapply scheduled_not_active. }
  assert (Hold : due_at db id u).
  { destruct Hdu as (r & Hr & (Hun & [d Hd] & u0 & Hu0 & Hall) & Hu'). rewrite (rel_messages _ _ _ _ _ _ Hrel) in Hr.
    assert (Hhas : forall d, has db' id d <-> has db id d).
    { intros d'. unfold has. setoid_rewrite (rel_rows _ _ _ _ _ _ Hrel). split; intros (i & Hi & Hm).
      - apply fmap_Some in Hi as (d2 & Hi & ->). case_bool_decide as Hin; [|by exists i].
        change (MessageID d2 = id) in Hm. congruence.
      - exists i. split; [|done]. rewrite Hi. simpl. by rewrite bool_decide_eq_false_2 by by rewrite Hm. }
    exists r. split_and!; [done| |done]. eapply phase_ok_ext; [exact Hhas|]. split_and!; [apply Hun..|by exists d|by exists u0]. }
  destruct (rel_left _ _ _ _ _ _ Hrel id u Hold Hu Hni) as (C & HC & _ & Hall); [set_solver|].
  assert (size C <= size ids)%nat; [|lia]. apply subseteq_size. intros id' Hin.
  destruct (Hall _ Hin) as [[?|Hbad] _]; [done|]. by apply not_elem_of_empty in Hbad.
Qed.

Lemma drain_loop_spec batches batchSize total db n db' : 1 <= batchSize -> reachable scheduledCaps heldCaps db ->
  drain_store batches batchSize total db = (n, db') ->
  reachable scheduledCaps heldCaps db' /\ total <= n <= total + Z.of_nat batches * batchSize /\
  (n < total + Z.of_nat batches * batchSize -> nothing_due db').
Proof.
  unfold drain_store. revert total db. induction batches as [|k IH]; intros total db Hb Hr; cbn [releaser.drain_loop].
  { intros [= <- <-]. split_and!; [done|lia..]. }
  destruct (reachable_wf _ _ _ Hr) as [Hwf _].
  destruct (ReleaseDue ∅ t batchSize db) as [r db1] eqn:E.
  destruct (ReleaseDue_releases ∅ t batchSize db r db1 Hwf Ht Hb E) as (ids & -> & Hrel).
  assert (Hr1 : reachable scheduledCaps heldCaps db1).
  { eapply rtc_r; [exact Hr|]. pose proof (step_client _ _ _ _ (step_ReleaseDue scheduledCaps heldCaps db ∅ t batchSize)) as Hs. by rewrite E in Hs. }
  pose proof (rel_size _ _ _ _ _ _ Hrel) as Hsz. cbv zeta.
  destruct (Z.ltb_spec (Z.of_nat (size ids)) batchSize) as [Hlt|Hge].
  - intros [= <- <-]. split_and!; [done|nia|nia|]. intros _. by eapply short_batch.
  - intros (Hr' & Hn & Hdone)%IH; [|done..]. split_and!; [done|lia|lia|]. intros Hlt. apply Hdone. lia.
Qed.

(** A run of the releaser leaves nothing due: with no rows locked, it makes at most
    the configured number of calls (50 of 100 by default), and unless it released a
    full batch in every one of them, no message due at its time is still scheduled. *)
Theorem drain_releases_all batchSize maxBatches db n db' :
  reachable scheduledCaps heldCaps db ->
  releaser.drain (ReleaseDue ∅) (fun db => (t, db)) (fun _ => false) batchSize maxBatches db = (n, db') ->
  let size := if batchSize <=? 0 then 100 else batchSize in
  let batches := if maxBatches <=? 0 then 50 else maxBatches in
  reachable scheduledCaps heldCaps db' /\ 0 <= n <= batches * size /\ (n < batches * size -> nothing_due db').
Proof.
  intros Hr Hrun. unfold releaser.drain in Hrun. cbv zeta in *.
  set (bs := if batchSize <=? 0 then 100 else batchSize). set (mb := if maxBatches <=? 0 then 50 else maxBatches).
  assert (Hbs : 1 <= bs /\ 1 <= mb) by (unfold bs, mb; destruct (Z.leb_spec batchSize 0), (Z.leb_spec maxBatches 0); lia).
  change (drain_store (Z.to_nat mb) bs 0 db = (n, db')) in Hrun.
  destruct (drain_loop_spec _ _ _ _ _ _ (proj1 Hbs) Hr Hrun) as (Hr' & Hn & Hdone).
  assert (Hz : 0 + Z.of_nat (Z.to_nat mb) * bs = mb * bs) by lia. rewrite Hz in Hn, Hdone. by split_and!; destruct_and?.
Qed.
End drain.
End release.
