(* ===== verification/DispatchDemo.v ===== *)
(** * DispatchDemo

    The theorems on the retry policy and the worker at concrete inputs. *)

From S2P Require Import Prelude GoText Utf8 Guard Registry Message MessageStore MessageInv MessageSteps MessageReach MessageProps MessageQueueProps MessageRelease MessageDemo Float64 Dispatch DispatchWorker.
Open Scope Z_scope.
Import message_text.
Import message message_pg message_demo policy worker.

Module dispatch_demo.
(** A 503 with a Retry-After of two minutes; a jitter of one half. *)
Definition half : float64.t := S754_finite false 4503599627370496 (-53).
Definition unavailable : sink.Outcome :=
  {| sink.StatusCode := 503; sink.RetryAfter := Some (2 * Minute); sink.ResponseSnippet := "busy";
     sink.Err := None; sink.Gone := false |}.
Definition demo_send (n : Z) : Send :=
  {| send_outcome := unavailable; send_started := n * Hour; send_finished := n * Hour + Second; send_random := Some half |}.

Lemma half_valid x : Some half = Some x -> float64.valid x.
Proof. intros [= <-]. reflexivity. Qed.

Lemma demo_send_ok n : 0 <= n -> send_ok (demo_send n).
Proof.
  intros Hn. assert (Hour = 3600000000000 /\ Second = 1000000000 /\ Millisecond = 1000000) as (HH & HS & HM) by done.
  split; simpl; [lia|lia|lia|apply half_valid].
Qed.

Lemma Backoff_bounds_witness :
  Backoff 3 (Some (2 * Minute)) (Some half) = 2 * Minute /\ 15 * Second <= Backoff 3 (Some (2 * Minute)) (Some half).
Proof.
  split; [vm_compute; reflexivity|].
  exact (proj1 (proj2 (Backoff_bounds 3 (Some (2 * Minute)) (Some half) half_valid))).
Defined.

Definition demo_delivery : Delivery := default
  {| ID := 0; MessageID := EmptyString; DestinationID := None; DestinationName := EmptyString;
     DestinationType := EmptyString; State := EmptyString; DeadReason := None; AttemptCount := 0; BudgetAttempts := 0;
     BudgetStartedAt := 0; NextAttemptAt := 0; LastStatusCode := None; DeliveredAt := None; CreatedAt := 0;
     UpdatedAt := 0 |} (deliveries db3 !! 1).

Lemma Decide_spec_witness :
  decision demo_delivery unavailable Hour StatePending None /\
  validateAttemptResult (Decide demo_delivery unavailable Hour (Some half)) = None.
Proof.
  destruct (Decide_spec demo_delivery unavailable Hour (Some half) ltac:(done) half_valid) as (Hd & Hv & _).
  split; [|exact Hv]. exact Hd.
Defined.

Lemma demo_pending : deliveries db3 !! 1 = Some demo_delivery.
Proof. vm_compute. reflexivity. Qed.

Lemma worker_records_accepted_witness :
  exists db', RecordAttempt (sent_result demo_delivery (demo_send 1)) db3 =
    (Ok (attempted_row db3 demo_delivery (sent_result demo_delivery (demo_send 1))), db').
Proof.
  destruct (worker_records_accepted demo_caps demo_held db3 1 demo_delivery
    {| Claim_Delivery := demo_delivery; Claim_Message := {| Message_ID := demo_uuid; Message_Envelope := demo_envelope;
         Message_CreatedAt := 0; CancelledAt := None; HeldAt := None; ReleasedAt := None; HeldCancelledAt := None;
         ReleaseFailedAt := None; ReleaseFailedReason := EmptyString; Deliveries := [] |} |}
    (sent_result demo_delivery (demo_send 1)) reachable_db3 demo_pending) as (db' & H & _).
  - vm_compute. reflexivity.
  - vm_compute. reflexivity.
  - vm_compute. reflexivity.
  - left. exists (demo_send 1). split; [by apply demo_send_ok|done].
  - exists db'. exact H.
Defined.

Lemma retries_end_witness :
  exists d', deliveries (send_all 1 (demo_send <$> seqZ 1 12) db3) !! 1 = Some d' /\ State d' <> StatePending.
Proof.
  apply (retries_end demo_caps demo_held (demo_send <$> seqZ 1 12) db3 1 demo_delivery reachable_db3 demo_pending).
  - apply Forall_fmap, Forall_seqZ. intros n Hn. apply demo_send_ok. lia.
  - vm_compute. lia.
  - vm_compute. reflexivity.
Defined.

(** A worker over a log of what sinks were asked; the registry resolves every name to
    row 7. *)
#[local] Instance demo_queue : Queue (list string) := {|
  queue_ClaimDue _ _ := mret None;
  queue_RecordAttempt _ := m_fail (errors_New "down") |}.
Definition demo_destination : registry.ResolvedDestination :=
  {| registry.Resolved_ID := 7; registry.Resolved_Name := "phone"; registry.Resolved_Type := "ntfy";
     registry.Resolved_Config := ∅; registry.Resolved_Secrets := ∅ |}.
#[local] Instance demo_resolver : Resolver (list string) := {|
  resolver_Resolve _ _ _ := mret [demo_destination];
  resolver_DisableDestination _ _ _ := mret tt |}.

Definition logging_sink : Sink (S := list string) := fun dest _ log => (Some unavailable, registry.Resolved_Name dest :: log).
Definition silent_sink : Sink (S := list string) := fun _ _ log => (None, log).

Definition demo_config : WorkerConfig (S := list string) :=
  {| Recipients := None; Sinks := {["ntfy" := Some logging_sink]}; Concurrency := 0; PollInterval := 0; Lease := 0;
     AttemptTimeout := 0; RecordRetryDelay := 0; Now := fun s => (Hour, s); Random := fun _ => None |}.

(** A claim whose delivery was addressed to a row that has been replaced. *)
Definition demo_claim : Claim :=
  {| Claim_Delivery := demo_delivery {{ DestinationID := Some 8 }};
     Claim_Message := {| Message_ID := demo_uuid; Message_Envelope := demo_envelope;
       Message_CreatedAt := 0; CancelledAt := None; HeldAt := None; ReleasedAt := None; HeldCancelledAt := None;
       ReleaseFailedAt := None; ReleaseFailedReason := EmptyString; Deliveries := [] |} |}.

Lemma never_misaddressed_witness :
  process demo_config (fun _ => None) (fun _ => false) demo_claim [] =
  process (demo_config {{ Sinks := {["ntfy" := Some silent_sink]} }}) (fun _ => None) (fun _ => false) demo_claim [].
Proof.
  apply (never_misaddressed demo_config (fun _ => None) (fun _ => false) demo_claim {["ntfy" := Some silent_sink]} []).
  intros t. unfold demo_config. cbn [Sinks]. destruct (decide ("ntfy" = t)) as [<-|Hne];
    [rewrite !lookup_singleton_eq|by rewrite !lookup_singleton_ne].
  intros dest s Ha _. exfalso. destruct Ha as [f s1 s2 Hn _ _|s1 s2 _ Hid Hr].
  - vm_compute in Hn. discriminate Hn.
  - simpl in Hr. injection Hr as <- _. vm_compute in Hid. discriminate Hid.
Defined.

(** A worker claims the queued delivery at 2 s and records that it may be retried at
    3 s; at 4 s another worker claims it. *)
Definition demo_retry : AttemptResult :=
  {| Result_Record := {| DeliveryID := 1; Outcome := OutcomeRetryable; StatusCode := Some 503; LatencyMS := 12;
       Attempt_Error := Some "HTTP 503"; ResponseSnippet := None; StartedAt := 2 * Second |};
     NextState := StatePending; Result_DeadReason := None; Result_NextAttemptAt := 3 * Second |}.
Definition demo_lease : Z := Lease (NewWorker demo_config).
Definition run_db1 : DB := (ClaimDue ∅ (2 * Second) demo_lease db3).2.
Definition run_db2 : DB := (RecordAttempt demo_retry run_db1).2.
Definition run_db3 : DB := (ClaimDue ∅ (4 * Second) demo_lease run_db2).2.
Definition demo_run (clock : Z) (db : DB) (sending : list (Z * Z)) : run :=
  {| run_clock := clock; run_tables := db; run_sending := sending |}.

(** A claim of delivery 1 is one step of a run. *)
Definition claims_one (x : result (option Claim) * DB) : bool :=
  match x.1 with Ok (Some c) => ID (Claim_Delivery c) =? 1 | _ => false end.
Lemma demo_claim_step now db : now < done_by demo_config now -> claims_one (ClaimDue ∅ now demo_lease db) = true ->
  run_step demo_config demo_caps demo_held (demo_run now db [])
    (demo_run now (ClaimDue ∅ now demo_lease db).2 [(1, done_by demo_config now)]).
Proof.
  intros Hnow Hc. destruct (ClaimDue ∅ now demo_lease db) as [[[c|]|e] db'] eqn:E; [|discriminate Hc..].
  apply Z.eqb_eq in Hc. unfold demo_run. rewrite <- Hc.
  by apply (run_claim demo_config demo_caps demo_held (demo_run now db []) ∅ now c db').
Qed.

Definition is_ok {A} (r : result A) : bool := match r with Ok _ => true | Err _ => false end.
Lemma demo_record_step now until db : is_ok (RecordAttempt demo_retry db).1 = true ->
  run_step demo_config demo_caps demo_held (demo_run now db [(1, until)]) (demo_run now (RecordAttempt demo_retry db).2 []).
Proof.
  intros Hok. destruct (RecordAttempt demo_retry db) as [[d|e] db'] eqn:E; [|discriminate Hok].
  apply (run_record demo_config demo_caps demo_held (demo_run now db [(1, until)]) 1 until demo_retry d db'); [left|done|done].
Qed.

Lemma demo_run_steps : rtc (run_step demo_config demo_caps demo_held) (demo_run (2 * Second) db3 [])
  (demo_run (4 * Second) run_db3 [(1, done_by demo_config (4 * Second))]).
Proof.
  eapply rtc_l; [apply demo_claim_step; vm_compute; reflexivity|].
  eapply rtc_l; [apply demo_record_step; vm_compute; reflexivity|].
  eapply rtc_l; [apply (run_tick _ _ _ _ (4 * Second)); vm_compute; discriminate|].
  apply rtc_once, demo_claim_step; vm_compute; reflexivity.
Qed.

Lemma no_double_send_witness :
  NoDup (run_sending (demo_run (4 * Second) run_db3 [(1, done_by demo_config (4 * Second))])).*1.
Proof.
  exact (proj1 (no_double_send demo_config demo_caps demo_held (demo_run (2 * Second) db3 []) _ ltac:(done)
    reachable_db3 eq_refl demo_run_steps)).
Defined.

Lemma claimBackoff_spec_witness : claimBackoff Second 4 = 8 * Second.
Proof.
  refine (eq_trans (proj1 (claimBackoff_spec Second 4 _ _ _ _)) _);
    [done|apply in_int64_small; by vm_compute|lia|apply in_int64_small; lia|reflexivity].
Defined.

(** ** Releases *)

Lemma ReleaseDue_exact_witness :
  exists ids, size ids = 1%nat /\
    releases ∅ ids (timestamptz (20 * Second)) 10 db3 (ReleaseDue ∅ (20 * Second) 10 db3).2.
Proof.
  destruct (ReleaseDue ∅ (20 * Second) 10 db3) as [r d] eqn:E.
  destruct (ReleaseDue_exact demo_caps demo_held ∅ (20 * Second) 10 db3 r d reachable_db3 ltac:(done) ltac:(done) E)
    as (ids & Hr & Hrel).
  exists ids. split; [|exact Hrel].
  assert (Hn : (ReleaseDue ∅ (20 * Second) 10 db3).1 = Ok 1) by (vm_compute; reflexivity).
  rewrite E in Hn. simpl in Hn. rewrite Hr in Hn. injection Hn as Hn. lia.
Defined.

Lemma drain_releases_all_witness :
  nothing_due (20 * Second)
    (releaser.drain (ReleaseDue ∅) (fun db => (20 * Second, db)) (fun _ => false) 0 0 db3).2.
Proof.
  assert (Hn : (releaser.drain (ReleaseDue ∅) (fun db => (20 * Second, db)) (fun _ => false) 0 0 db3).1 = 1)
    by (vm_compute; reflexivity).
  destruct (releaser.drain (ReleaseDue ∅) (fun db => (20 * Second, db)) (fun _ => false) 0 0 db3) as [n d] eqn:E.
  destruct (drain_releases_all demo_caps demo_held (20 * Second) ltac:(done) 0 0 db3 n d reachable_db3 E) as (_ & _ & H).
  apply H. simpl in Hn. rewrite Hn. reflexivity.
Defined.
End dispatch_demo.
