(* ===== verification/KeyRotation.v ===== *)
(** * KeyRotation

    Package keyrotation: every stored secret is sealed again under the new key, row by
    row, while other transactions go on (rotation.go), and the registry of the sealed
    columns (registry.go).  A rotation is a program over the database: it reads a table,
    draws nonces and swaps one value at a time if it still is the one it read.  However
    it ends, and whatever else commits meanwhile, no secret is lost
    ([rotation_keeps_secrets]); when it completes every value opens under the new key
    alone ([rotation_complete]), and [Verify] tells exactly that ([Verify_exact]). *)

From S2P Require Import Prelude Prog GoText Utf8 GoFormat Std Idents Sha256 Seal Guard Registry RegistryStore RegistryService PersonService Publisher Json Heartbeat HeartbeatSeal MessageValidate.
Open Scope Z_scope.

Module keyrotation.

(** ** rotation.go: the report *)

Inductive Reason := ReasonDecryptFailed | ReasonMalformed | ReasonUnsupportedVersion | ReasonChangedConcurrently.

Record RowIssue := { Issue_Table : string; RowKey : string; Issue_Reason : Reason }.

Record TableCounts := { Scanned : Z; Rotated : Z; AlreadyCurrent : Z; SkippedNull : Z; Failed : Z }.
Definition no_counts : TableCounts := {| Scanned := 0; Rotated := 0; AlreadyCurrent := 0; SkippedNull := 0; Failed := 0 |}.

Record Report := { Tables : gmap string TableCounts; Issues : list RowIssue }.

Definition ErrIncomplete : error := Sentinel "key rotation incomplete: rows need attention".

Definition reasonFor (openErr : error) : Reason :=
  if errors_Is openErr seal.ErrUnsupportedVersion then ReasonUnsupportedVersion
  else if errors_Is openErr seal.ErrMalformed then ReasonMalformed
  else ReasonDecryptFailed.

Definition totals (report : Report) : TableCounts :=
  map_fold (fun _ counts sum =>
    {| Scanned := Scanned sum + Scanned counts; Rotated := Rotated sum + Rotated counts;
       AlreadyCurrent := AlreadyCurrent sum + AlreadyCurrent counts;
       SkippedNull := SkippedNull sum + SkippedNull counts; Failed := Failed sum + Failed counts |}) no_counts (Tables report).

(** ** registry.go *)

Record SealedTable := {
  Table : string; KeyColumn : string; SealedColumn : string; Nullable : bool;
  AAD : string -> result (list Z)
}.

(** [strconv.ParseInt(rowKey, 10, 64)] is [strconv.Atoi] of a 64-bit int. *)
Definition Registry : list SealedTable :=
  [{| Table := "destinations"; KeyColumn := "name"; SealedColumn := "sealed_secrets"; Nullable := false;
      AAD rowKey := Ok (registry_service.DestinationSecretsAAD rowKey) |};
   {| Table := "app_publishers"; KeyColumn := "app_id"; SealedColumn := "sealed_token"; Nullable := false;
      AAD rowKey := Ok (publisher.TokenAAD rowKey) |};
   {| Table := "heartbeat_check_probes"; KeyColumn := "check_id"; SealedColumn := "sealed_access_headers"; Nullable := true;
      AAD rowKey :=
        match envint.Atoi rowKey with
        | None => Err (errors_New "heartbeat_check_probes row key is not an integer check id")
        | Some checkID => Ok (heartbeat_seal.ProbeAccessAAD checkID)
        end |}].

(** A sealed column of the database: its table and its name. *)
Definition column : Type := string * string.
Definition column_of (table : SealedTable) : column := (Table table, SealedColumn table).

Definition CoverageGaps (found : list column) (tables : list SealedTable) : list column * list column :=
  let registered := column_of <$> tables in
  (filter (fun c => c ∉ registered) found, filter (fun c => c ∉ found) registered).

(** ** rotation.go: a rotation

    A row as read, and what a rotation asks of its surroundings. *)

Record sealedRow := { key : string; sealed : option (list Z) }.

Inductive rotation_op :=
  | loadRows (table : SealedTable)
  | rand_Read
  | BeforeUpdate (table : SealedTable) (rowKey : string)
  | updateSealed (table : SealedTable) (row : sealedRow) (resealed : list Z).

Definition rotation_reply (c : rotation_op) : Type :=
  match c with
  | loadRows _ => result (list sealedRow)
  | rand_Read => option (list Z)
  | BeforeUpdate _ _ => option error
  | updateSealed _ _ _ => result bool
  end.

Definition rotation : interface := {| op := rotation_op; reply := rotation_reply |}.
Abbreviation program A := (prog rotation A).
Definition ask (c : rotation_op) : program (rotation_reply c) := @call rotation c.

(** [Options]: the sealer, the tables ([Registry] by default), and whether the seam
    before an update is set. *)
Record Options := { Sealer : option seal.Sealer; OptTables : option (list SealedTable); hooked : bool }.

(** What a table's rows have come to: its counts and the issues of the run. *)
Definition progress : Type := TableCounts * list RowIssue.

Definition recordIssue (table : SealedTable) (rowKey : string) (reason : Reason) (p : progress) : progress :=
  (p.1 {{ Failed := Failed p.1 + 1 }},
   p.2 ++ [{| Issue_Table := Table table; RowKey := rowKey; Issue_Reason := reason |}]).

(** Progress, and the error that aborts the run. *)
Definition step_result : Type := progress * option error.
Definition going (p : progress) : program step_result := Ret (p, None).

(** The seam, then the swap of one value. *)
Definition swap_row (hooked : bool) (table : SealedTable) (row : sealedRow) (resealed : list Z) (p : progress) : program step_result :=
  hook ← (if hooked then (ask (BeforeUpdate table (key row)) : program (option error)) else Ret None);
  match hook with
  | Some hookErr =>
    Ret (p, Some (Wrap ("before update " +:+ Table table +:+ " row " +:+ key row +:+ ": " +:+ Error hookErr) [hookErr]))
  | None =>
    updated ← (ask (updateSealed table row resealed) : program (result bool));
    match updated with
    | Err updateErr => Ret (p, Some updateErr)
    | Ok false => going (recordIssue table (key row) ReasonChangedConcurrently p)
    | Ok true => going (p.1 {{ Rotated := Rotated p.1 + 1 }}, p.2)
    end
  end.

Definition rotate_row (sealer : seal.Sealer) (hooked : bool) (table : SealedTable) (row : sealedRow) (p : progress) :
    program step_result :=
  let p := (p.1 {{ Scanned := Scanned p.1 + 1 }}, p.2) in
  match sealed row with
  | None => going (p.1 {{ SkippedNull := SkippedNull p.1 + 1 }}, p.2)
  | Some blob =>
    match AAD table (key row) with
    | Err _ => going (recordIssue table (key row) ReasonMalformed p)
    | Ok aad =>
      match seal.OpenReportingKey sealer blob aad with
      | (Err openErr, _) => going (recordIssue table (key row) (reasonFor openErr) p)
      | (Ok _, seal.KeyPrimary) => going (p.1 {{ AlreadyCurrent := AlreadyCurrent p.1 + 1 }}, p.2)
      | (Ok plaintext, _) =>
        nonce ← (ask rand_Read : program (option (list Z)));
        match seal.Seal sealer nonce plaintext aad with
        | Err sealErr =>
          Ret (p, Some (Wrap ("reseal " +:+ Table table +:+ " row " +:+ key row +:+ ": " +:+ Error sealErr) [sealErr]))
        | Ok resealed => swap_row hooked table row resealed p
        end
      end
    end
  end.

Fixpoint rotate_rows (sealer : seal.Sealer) (hooked : bool) (table : SealedTable) (rows : list sealedRow) (p : progress) :
    program step_result :=
  match rows with
  | [] => going p
  | row :: rows =>
    r ← rotate_row sealer hooked table row p;
    match r with (_, Some _) => Ret r | (p, None) => rotate_rows sealer hooked table rows p end
  end.

(** A table's counts go into the report however its rows end. *)
Definition rotate_table (sealer : seal.Sealer) (hooked : bool) (table : SealedTable) (report : Report) :
    program (Report * option error) :=
  loaded ← (ask (loadRows table) : program (result (list sealedRow)));
  match loaded with
  | Err loadErr => Ret ({| Tables := <[Table table := no_counts]> (Tables report); Issues := Issues report |}, Some loadErr)
  | Ok rows =>
    r ← rotate_rows sealer hooked table rows (no_counts, Issues report);
    Ret ({| Tables := <[Table table := r.1.1]> (Tables report); Issues := r.1.2 |}, r.2)
  end.

Fixpoint rotate_tables (sealer : seal.Sealer) (hooked : bool) (tables : list SealedTable) (report : Report) :
    program (Report * option error) :=
  match tables with
  | [] => Ret (report, if bool_decide (Issues report = []) then None else Some ErrIncomplete)
  | table :: tables =>
    r ← rotate_table sealer hooked table report;
    match r with (_, Some _) => Ret r | (report, None) => rotate_tables sealer hooked tables report end
  end.

Definition no_report : Report := {| Tables := ∅; Issues := [] |}.

Definition Rotate (options : Options) : program (Report * option error) :=
  match Sealer options with
  | Some sealer =>
    if negb (seal.HasPrevious sealer)
    then Ret (no_report, Some (errors_New "key rotation needs a sealer with both a primary and a previous key"))
    else rotate_tables sealer (hooked options) (default Registry (OptTables options)) no_report
  | None => Ret (no_report, Some (errors_New "key rotation needs a sealer with both a primary and a previous key"))
  end.

(** ** rotation.go: a verification *)

Definition verify_row (primaryOnly : seal.Sealer) (table : SealedTable) (p : progress) (row : sealedRow) : progress :=
  let p := (p.1 {{ Scanned := Scanned p.1 + 1 }}, p.2) in
  match sealed row with
  | None => (p.1 {{ SkippedNull := SkippedNull p.1 + 1 }}, p.2)
  | Some blob =>
    match AAD table (key row) with
    | Err _ => recordIssue table (key row) ReasonMalformed p
    | Ok aad =>
      match (seal.OpenReportingKey primaryOnly blob aad).1 with
      | Err openErr => recordIssue table (key row) (reasonFor openErr) p
      | Ok _ => (p.1 {{ AlreadyCurrent := AlreadyCurrent p.1 + 1 }}, p.2)
      end
    end
  end.

Fixpoint verify_tables (primaryOnly : seal.Sealer) (tables : list SealedTable) (report : Report) : program (Report * option error) :=
  match tables with
  | [] => Ret (report, if bool_decide (Issues report = []) then None else Some ErrIncomplete)
  | table :: tables =>
    loaded ← (ask (loadRows table) : program (result (list sealedRow)));
    match loaded with
    | Err loadErr => Ret ({| Tables := <[Table table := no_counts]> (Tables report); Issues := Issues report |}, Some loadErr)
    | Ok rows =>
      let p := fold_left (verify_row primaryOnly table) rows (no_counts, Issues report) in
      verify_tables primaryOnly tables {| Tables := <[Table table := p.1]> (Tables report); Issues := p.2 |}
    end
  end.

Definition verifyTables (sealer : option seal.Sealer) (tables : list SealedTable) : program (Report * option error) :=
  match sealer with
  | Some sealer => verify_tables (seal.PrimaryOnly sealer) tables no_report
  | None => Ret (no_report, Some (errors_New "key verification needs a sealer"))
  end.

Definition Verify (sealer : option seal.Sealer) : program (Report * option error) := verifyTables sealer Registry.

(** ** rotation.go: the statements

    The sealed columns of the database, a map from row key to value each. *)

Definition database : Type := column -> gmap string (option (list Z)).

(** [updateSealed]: the value is swapped if it still is the one read; NULL equals nothing. *)
Definition swap (table : SealedTable) (row : sealedRow) (resealed : list Z) (db : database) : bool * database :=
  if bool_decide (is_Some (sealed row) /\ db (column_of table) !! key row = Some (sealed row))
  then (true, fun c => if decide (c = column_of table) then <[key row := Some resealed]> (db c) else db c)
  else (false, db).
End keyrotation.

Module rotation_props.
Import keyrotation.

(** ** A rotation among other transactions

    Before each statement other transactions may have committed ([others]).  A load
    returns every row there is, the random source gives nonces of the size asked for,
    and an update that reports an error may have been committed. *)

Section serving.
Variable others : database -> database -> Prop.

Definition served (c : rotation_op) (db : database) : rotation_reply c -> database -> Prop :=
  match c return rotation_reply c -> database -> Prop with
  | loadRows table => fun r db' =>
    db' = db /\
    match r with
    | Ok rows => NoDup (key <$> rows) /\ forall k v, {| key := k; sealed := v |} ∈ rows <-> db (column_of table) !! k = Some v
    | Err _ => True
    end
  | rand_Read => fun r db' => db' = db /\ match r with Some nonce => length nonce = seal.nonceSize | None => True end
  | BeforeUpdate _ _ => fun _ db' => db' = db
  | updateSealed table row resealed => fun r db' =>
    match r with
    | Ok matched => (matched, db') = swap table row resealed db
    | Err _ => db' = db \/ db' = (swap table row resealed db).2
    end
  end.

Definition serving : answering rotation database := fun db c r db' => exists db1, others db db1 /\ served c db1 r db'.
End serving.

(** What the swap of a value comes to. *)
Definition swapped (table : SealedTable) (row : sealedRow) (p : progress) (r : result bool) : step_result :=
  match r with
  | Err updateErr => (p, Some updateErr)
  | Ok false => (recordIssue table (key row) ReasonChangedConcurrently p, None)
  | Ok true => ((p.1 {{ Rotated := Rotated p.1 + 1 }}, p.2), None)
  end.

(** The rule of a swap: a condition other transactions keep holds up to the statement. *)
Lemma wp_swap_row pre others (R : database -> Prop) hooked table row resealed p db (Q : step_result -> database -> Prop) :
  (forall db db', R db -> others db db' -> R db') ->
  (forall db c, R db -> pre db c) ->
  (forall db e, R db -> Q (p, Some e) db) ->
  (forall db r db', R db -> served (updateSealed table row resealed) db r db' -> Q (swapped table row p r) db') ->
  R db -> wp pre (serving others) (swap_row hooked table row resealed p) db Q.
Proof.
  intros Hothers Hpre Hhook Hupdate. unfold swap_row.
  assert (Hlast : forall db, R db -> wp pre (serving others)
    (updated ← (ask (updateSealed table row resealed) : program (result bool));
     match updated with
     | Err updateErr => Ret (p, Some updateErr)
     | Ok false => going (recordIssue table (key row) ReasonChangedConcurrently p)
     | Ok true => going (p.1 {{ Rotated := Rotated p.1 + 1 }}, p.2)
     end) db Q).
  { intros db0 H. split; [by apply Hpre|]. intros r db' (db1 & Ho & Hs). apply (Hupdate db1) in Hs; [|by eapply Hothers].
    by destruct r as [[]|]. }
  intros H. destruct hooked; [|by apply Hlast]. split; [by apply Hpre|].
  intros [e|] db' (db1 & Ho & ->); [apply Hhook; by eapply Hothers|]. apply Hlast. by eapply Hothers.
Qed.

(** The database is at rest but for the rotation. *)
Definition quiet : database -> database -> Prop := eq.

Section rotation.
Variable sealer : seal.Sealer.
Hypothesis Haead : seal.AEAD_laws (seal.aead sealer).

(** One value is replaced by another that opens to the same secret, under the new key
    alone where the first needed the old one. *)
Definition reseals (tables : list SealedTable) (db db' : database) : Prop :=
  exists table k blob blob' aad plaintext,
    table ∈ tables /\ AAD table k = Ok aad /\ db (column_of table) !! k = Some (Some blob) /\
    seal.OpenReportingKey sealer blob aad = (Ok plaintext, seal.KeyPrevious) /\
    seal.OpenReportingKey (seal.PrimaryOnly sealer) blob' aad = (Ok plaintext, seal.KeyPrimary) /\
    db' = fun c => if decide (c = column_of table) then <[k := Some blob']> (db c) else db c.

(** A value that needs no rotation. *)
Definition current (table : SealedTable) (k : string) (v : option (list Z)) : bool :=
  match v with
  | None => true
  | Some blob =>
    match AAD table k with
    | Ok aad => is_Ok (seal.OpenReportingKey (seal.PrimaryOnly sealer) blob aad).1
    | Err _ => false
    end
  end.
Definition all_current (tables : list SealedTable) (db : database) : Prop :=
  forall table k v, table ∈ tables -> db (column_of table) !! k = Some v -> current table k v = true.

(** A value that opens under neither key. *)
Definition unreadable (table : SealedTable) (k : string) (v : option (list Z)) : Prop :=
  match v with
  | None => False
  | Some blob => forall aad, AAD table k = Ok aad -> is_Ok (seal.OpenReportingKey sealer blob aad).1 = false
  end.

Lemma primary_only blob aad plaintext :
  seal.OpenReportingKey sealer blob aad = (Ok plaintext, seal.KeyPrimary) ->
  seal.OpenReportingKey (seal.PrimaryOnly sealer) blob aad = (Ok plaintext, seal.KeyPrimary).
Proof. unfold seal.OpenReportingKey. simpl. by repeat case_match; intros; simplify_eq. Qed.

Lemma resealed_primary nonce plaintext aad resealed : length nonce = seal.nonceSize ->
  seal.Seal sealer (Some nonce) plaintext aad = Ok resealed ->
  seal.OpenReportingKey (seal.PrimaryOnly sealer) resealed aad = (Ok plaintext, seal.KeyPrimary).
Proof. intros Hn Hs. by apply (seal.Seal_opens (seal.PrimaryOnly sealer) nonce). Qed.

Lemma seal_key_none blob aad plaintext : seal.OpenReportingKey sealer blob aad <> (Ok plaintext, seal.KeyNone).
Proof. intros H. pose proof (proj1 (seal.OpenReportingKey_key sealer blob aad)) as Hn. rewrite H in Hn. by specialize (Hn eq_refl). Qed.

Lemma swap_true table row resealed db db' : (true, db') = swap table row resealed db ->
  is_Some (sealed row) /\ db (column_of table) !! key row = Some (sealed row) /\
  db' = fun c => if decide (c = column_of table) then <[key row := Some resealed]> (db c) else db c.
Proof. unfold swap. destruct (bool_decide _) eqn:E; [|done]. apply bool_decide_eq_true in E as [? ?]. by intros [= ->]. Qed.

Lemma swap_false table row resealed db db' : (false, db') = swap table row resealed db -> db' = db.
Proof. unfold swap. destruct (bool_decide _); by intros [= ->]. Qed.

(** *** Only reseals *)

Section reseals.
Context (others : database -> database -> Prop) (tables : list SealedTable) (db0 : database).

(** The database moves by other transactions and by reseals. *)
Definition moves : database -> database -> Prop := rtc (fun db db' => others db db' \/ reseals tables db db').
Definition moved {A} (p : program A) (db : database) : Prop :=
  wp (fun db _ => moves db0 db) (serving others) p db (fun _ db => moves db0 db).

Lemma moves_other db db' : moves db0 db -> others db db' -> moves db0 db'.
Proof. intros H Ho. eapply rtc_r; [exact H|by left]. Qed.

Lemma moved_swap hooked table k blob aad plaintext resealed p db : table ∈ tables -> AAD table k = Ok aad ->
  seal.OpenReportingKey sealer blob aad = (Ok plaintext, seal.KeyPrevious) ->
  seal.OpenReportingKey (seal.PrimaryOnly sealer) resealed aad = (Ok plaintext, seal.KeyPrimary) ->
  moves db0 db -> moved (swap_row hooked table {| key := k; sealed := Some blob |} resealed p) db.
Proof.
  intros Ht Haad Hopen Hre.
  assert (Hupdate : forall matched db db', (matched, db') = swap table {| key := k; sealed := Some blob |} resealed db ->
                      moves db0 db -> moves db0 db').
  { intros [] db1 db' Hs Hdb; [|by apply swap_false in Hs as ->]. apply swap_true in Hs as (_ & Hrow & ->).
    eapply rtc_r; [exact Hdb|]. right. by exists table, k, blob, resealed, aad, plaintext. }
  apply wp_swap_row; [apply moves_other|done|done|]. intros db1 [matched|e] db' Hdb Hs; simpl in Hs; [by eapply Hupdate|].
  destruct Hs as [->| ->]; [done|]. destruct (swap _ _ _ db1) as [m d] eqn:E. by eapply Hupdate.
Qed.

Lemma moved_row hooked table row p db : table ∈ tables -> moves db0 db -> moved (rotate_row sealer hooked table row p) db.
Proof.
  intros Ht Hdb. unfold rotate_row, moved. destruct row as [k [blob|]]; cbn [key sealed]; [|done].
  destruct (AAD table k) as [aad|] eqn:Haad; [|done].
  destruct (seal.OpenReportingKey sealer blob aad) as [[plaintext|openErr] used] eqn:Hopen; [|by destruct used].
  destruct used; [by apply seal_key_none in Hopen|done|]. split; [done|].
  intros r db' (db1 & Ho & -> & Hn). destruct r as [nonce|]; simpl; [|by eapply moves_other].
  eapply moved_swap; [done|done|done| |by eapply moves_other]. by apply (resealed_primary nonce).
Qed.

Lemma moved_rows hooked table rows p db : table ∈ tables -> moves db0 db -> moved (rotate_rows sealer hooked table rows p) db.
Proof.
  intros Ht. revert p db. induction rows as [|row rows IH]; intros p db Hdb; [done|].
  apply wp_bind. eapply wp_mono; [|by apply moved_row]. intros [p' [e|]] db' Hdb'; [done|]. by apply IH.
Qed.

Lemma moved_tables hooked todo report db : todo ⊆ tables -> moves db0 db -> moved (rotate_tables sealer hooked todo report) db.
Proof.
  revert report db. induction todo as [|table todo IH]; intros report db Hsub Hdb; [done|].
  apply wp_bind. unfold rotate_table. split; [done|]. intros r db' (db1 & Ho & Hs).
  assert (Hdb' : moves db0 db') by (destruct Hs as [-> _]; by eapply moves_other).
  destruct r as [rows|e]; [|done]. apply wp_bind. eapply wp_mono; [|apply moved_rows; [set_solver|done]].
  intros [p' [e|]] db2 Hdb2; [done|]. apply IH; [set_solver|done].
Qed.
End reseals.

(** C35: whatever other transactions commit meanwhile and however far it gets, a rotation
    changes the database only by replacing a value that opens under the old key by one
    that opens to the same secret under the new key alone, and only while the value
    still is the one it read. *)
Theorem rotation_reseals options others w tr p' w' :
  Sealer options = Some sealer ->
  exec (serving others) (Rotate options) w tr p' w' ->
  rtc (fun db db' => others db db' \/ reseals (default Registry (OptTables options)) db db') w w'.
Proof.
  intros Hsealer He. assert (Hwp : moved others (default Registry (OptTables options)) w (Rotate options) w).
  { unfold Rotate. rewrite Hsealer. destruct (negb _); [apply rtc_refl|]. apply moved_tables; [done|apply rtc_refl]. }
  apply (wp_exec _ _ _ _ _ _ _ _ He) in Hwp. destruct p' as [a|c k]; [exact Hwp|exact (proj1 Hwp)].
Qed.

(** *** A complete rotation *)

Section complete.
Context (others : database -> database -> Prop) (tables : list SealedTable).
Hypothesis Hcolumns : NoDup (column_of <$> tables).
(** The other transactions seal under the new key. *)
Hypothesis Hothers : forall db db' table k v, others db db' -> table ∈ tables ->
  db' (column_of table) !! k = Some v -> db (column_of table) !! k = Some v \/ current table k v = true.

(** With no issue so far, what is not current in the table is among the rows to come. *)
Definition pending (table : SealedTable) (rows : list sealedRow) (p : progress) (db : database) : Prop :=
  p.2 = [] -> forall k v, db (column_of table) !! k = Some v -> current table k v = true \/ {| key := k; sealed := v |} ∈ rows.

Lemma pending_other table rows p db db' : table ∈ tables -> others db db' -> pending table rows p db -> pending table rows p db'.
Proof. intros Ht Ho H Hp k v Hv. destruct (Hothers _ _ _ _ _ Ho Ht Hv) as [Hv'|]; [by apply H|by left]. Qed.

Lemma all_current_other done_tables db db' : done_tables ⊆ tables -> others db db' ->
  all_current done_tables db -> all_current done_tables db'.
Proof. intros Hsub Ho H table k v Ht Hv. destruct (Hothers _ _ table _ _ Ho (Hsub _ Ht) Hv) as [Hv'|]; [by eapply H|done]. Qed.

(** What a statement of the rotation keeps: the tables done, and what is pending. *)
Definition kept (done_tables : list SealedTable) (table : SealedTable) (rows : list sealedRow) (p : progress) (db : database) : Prop :=
  (p.2 = [] -> all_current done_tables db) /\ pending table rows p db.

Definition apart (done_tables : list SealedTable) (table : SealedTable) : Prop :=
  table ∈ tables /\ done_tables ⊆ tables /\ column_of table ∉ column_of <$> done_tables.

Lemma kept_other done_tables table rows p db db' : apart done_tables table -> others db db' ->
  kept done_tables table rows p db -> kept done_tables table rows p db'.
Proof. intros (Ht & Hsub & _) Ho [Hd Hp]. split; [intros; eapply all_current_other; eauto|by eapply pending_other]. Qed.

(** A row that is current or has become an issue is no longer pending. *)
Lemma kept_next done_tables table row rows p p' db : kept done_tables table (row :: rows) p db ->
  (p'.2 = [] -> p.2 = [] /\ current table (key row) (sealed row) = true) -> kept done_tables table rows p' db.
Proof.
  intros [Hd Hp] Hnext. split; [intros H; by apply Hd, Hnext|]. intros H k v Hv. destruct (Hnext H) as [Hp0 Hc].
  destruct (Hp Hp0 k v Hv) as [?|Hin]; [by left|]. apply elem_of_cons in Hin as [<-|]; [by left|by right].
Qed.

Lemma kept_swap done_tables table row rows p p' resealed db db' : apart done_tables table ->
  kept done_tables table (row :: rows) p db -> p'.2 = p.2 ->
  (true, db') = swap table row resealed db -> current table (key row) (Some resealed) = true ->
  kept done_tables table rows p' db'.
Proof.
  intros (Ht & Hsub & Hcol) [Hd Hp] Heq Hs Hc. apply swap_true in Hs as (_ & Hrow & ->).
  split; intros Hnone; rewrite Heq in Hnone.
  - intros t k v Hin Hv. rewrite decide_False in Hv; [by eapply (Hd Hnone)|].
    intros Hsame. apply Hcol. rewrite <- Hsame. apply list_elem_of_fmap. eauto.
  - intros k v Hv. rewrite decide_True in Hv by done. destruct (decide (k = key row)) as [->|Hne].
    + rewrite lookup_insert in Hv. case_decide; [|done]. injection Hv as <-. by left.
    + rewrite lookup_insert_ne in Hv by done. destruct (Hp Hnone k v Hv) as [?|Hin]; [by left|].
      apply elem_of_cons in Hin as [<-|]; [done|by right].
Qed.

Definition row_left (done_tables : list SealedTable) (table : SealedTable) (rows : list sealedRow) (r : step_result) (db : database) : Prop :=
  r.2 = None -> kept done_tables table rows r.1 db.

Lemma issue_nonempty table k reason p : (recordIssue table k reason p).2 <> [].
Proof. unfold recordIssue. simpl. by destruct p.2. Qed.

Lemma kept_issue done_tables table row rows p reason db : kept done_tables table (row :: rows) p db ->
  kept done_tables table rows (recordIssue table (key row) reason p) db.
Proof. intros H. eapply kept_next; [exact H|]. intros Hn. by apply issue_nonempty in Hn. Qed.

Lemma left_swap hooked done_tables table row rows p resealed db : apart done_tables table ->
  current table (key row) (Some resealed) = true -> kept done_tables table (row :: rows) p db ->
  wp free (serving others) (swap_row hooked table row resealed p) db (row_left done_tables table rows).
Proof.
  intros Ha Hc. apply wp_swap_row; [intros ? ? H Ho; by eapply kept_other|done|done|].
  intros db1 [[]|e] db' H Hs; simpl in Hs; [| |done]; intros _; [by eapply kept_swap|].
  apply swap_false in Hs as ->. by apply kept_issue.
Qed.

Lemma left_row hooked done_tables table row rows p db : apart done_tables table -> kept done_tables table (row :: rows) p db ->
  wp free (serving others) (rotate_row sealer hooked table row p) db (row_left done_tables table rows).
Proof.
  intros Ha H. unfold rotate_row. destruct row as [k [blob|]]; cbn [key sealed];
    [|intros _; eapply kept_next; [exact H|done]].
  destruct (AAD table k) as [aad|] eqn:Haad; [|intros _; by apply (kept_issue _ _ {| key := k; sealed := Some blob |})].
  destruct (seal.OpenReportingKey sealer blob aad) as [[plaintext|openErr] used] eqn:Hopen;
    [|destruct used; intros _; by apply (kept_issue _ _ {| key := k; sealed := Some blob |})].
  destruct used; [by apply seal_key_none in Hopen| |].
  - intros _. eapply kept_next; [exact H|]. intros Hn. split; [done|]. simpl. rewrite Haad. by erewrite primary_only.
  - split; [done|]. intros [nonce|] db' (db1 & Ho & -> & Hn); simpl; [|done].
    eapply left_swap; [done| |by eapply kept_other]. cbn [current key]. rewrite Haad. by erewrite (resealed_primary nonce).
Qed.

Lemma left_rows hooked done_tables table rows p db : apart done_tables table -> kept done_tables table rows p db ->
  wp free (serving others) (rotate_rows sealer hooked table rows p) db (row_left done_tables table []).
Proof.
  intros Ha. revert p db. induction rows as [|row rows IH]; intros p db H; [by intros _|].
  apply wp_bind. eapply wp_mono; [|by apply left_row]. intros [p' [e|]] db' H'; [done|]. by apply IH, H'.
Qed.

Lemma left_tables hooked done_tables todo report db : tables = done_tables ++ todo ->
  (Issues report = [] -> all_current done_tables db) ->
  wp free (serving others) (rotate_tables sealer hooked todo report) db (fun r db => r.2 = None -> all_current tables db).
Proof.
  revert done_tables report db. induction todo as [|table todo IH]; intros done_tables report db Htables H.
  { intros Hnone. rewrite app_nil_r in Htables. subst done_tables. apply H. simpl in Hnone. by case_bool_decide. }
  assert (Ha : apart done_tables table).
  { rewrite Htables, fmap_app in Hcolumns. apply NoDup_app in Hcolumns as (_ & Hapart & _).
    split; [set_solver|]. split; [set_solver|]. intros Hin. apply (Hapart _ Hin). by left. }
  apply wp_bind. unfold rotate_table. split; [done|]. intros [rows|e] db' (db1 & Ho & -> & Hs); [|done].
  apply wp_bind. eapply wp_mono; [|apply left_rows; [exact Ha|]].
  - intros [p [e|]] db2 H2; [done|]. apply (IH (done_tables ++ [table])); [by rewrite <- app_assoc|].
    intros Hnone t k v Ht Hv. destruct (H2 eq_refl) as [Hd Hp]. apply elem_of_app in Ht as [Ht|Ht%list_elem_of_singleton].
    + by apply (Hd Hnone) in Hv.
    + subst t. by destruct (Hp Hnone k v Hv) as [?|?%not_elem_of_nil].
  - split.
    + intros Hnone. destruct Ha as (_ & Hsub & _). eapply all_current_other; [exact Hsub|exact Ho|by apply H].
    + intros _ k v Hv. right. by apply Hs.
Qed.
End complete.

(** C36: while the other transactions seal under the new key, a rotation that completes
    leaves every value of every table to rotate NULL or opening under the new key alone,
    whatever was in the tables before, so the old key can be retired. *)
Theorem rotation_complete options others w tr report w' :
  NoDup (column_of <$> default Registry (OptTables options)) ->
  (forall db db' table k v, others db db' -> table ∈ default Registry (OptTables options) ->
    db' (column_of table) !! k = Some v -> db (column_of table) !! k = Some v \/ current table k v = true) ->
  Sealer options = Some sealer ->
  exec (serving others) (Rotate options) w tr (Ret (report, None)) w' ->
  all_current (default Registry (OptTables options)) w'.
Proof.
  intros Hcolumns Hothers Hsealer He. unfold Rotate in He. rewrite Hsealer in He. destruct (negb _).
  { by inversion He. }
  assert (Hwp : wp free (serving others) (rotate_tables sealer (hooked options) (default Registry (OptTables options)) no_report) w
    (fun r db => r.2 = None -> all_current (default Registry (OptTables options)) db)).
  { apply (left_tables _ _ Hcolumns Hothers _ []); [done|]. by intros _ ? ? ? ?%not_elem_of_nil. }
  exact (wp_result _ _ _ _ _ _ _ _ He Hwp eq_refl).
Qed.

(** *** A database at rest *)

Section quiet.
Context (tables : list SealedTable) (w : database).
Hypothesis Hcolumns : NoDup (column_of <$> tables).

Definition has_unreadable : Prop := exists table k v, table ∈ tables /\ w (column_of table) !! k = Some v /\ unreadable table k v.

(** No value became unreadable, issues come from unreadable values, and the rows to come
    are as they were read. *)
Definition at_rest (p : progress) (db : database) : Prop :=
  (forall table k v, table ∈ tables -> db (column_of table) !! k = Some v -> unreadable table k v -> has_unreadable) /\
  (p.2 <> [] -> has_unreadable).
Definition as_read (table : SealedTable) (rows : list sealedRow) (db : database) : Prop :=
  NoDup (key <$> rows) /\ forall row, row ∈ rows -> db (column_of table) !! key row = Some (sealed row).

Definition rest_left (table : SealedTable) (rows : list sealedRow) (r : step_result) (db : database) : Prop :=
  (r.1.2 <> [] -> has_unreadable) /\ (r.2 = None -> at_rest r.1 db /\ as_read table rows db).

Lemma rest_going table rows p db : at_rest p db -> as_read table rows db -> rest_left table rows (p, None) db.
Proof. intros [H1 H2] Hr. by split. Qed.
Lemma rest_abort table rows p e db : (p.2 <> [] -> has_unreadable) -> rest_left table rows (p, Some e) db.
Proof. by split. Qed.

Lemma at_rest_issue table row rows p reason db : table ∈ tables -> as_read table (row :: rows) db ->
  unreadable table (key row) (sealed row) -> at_rest p db -> at_rest (recordIssue table (key row) reason p) db.
Proof. intros Ht [_ Hr] Hu [H1 H2]. split; [done|]. intros _. eapply H1; [exact Ht|apply Hr; by left|done]. Qed.

Lemma as_read_next table row rows db : as_read table (row :: rows) db -> as_read table rows db.
Proof. intros [Hnd Hr]. split; [by apply NoDup_cons in Hnd as [_ ?]|]. intros row' Hin. apply Hr. by right. Qed.

Lemma same_column table table' : table ∈ tables -> table' ∈ tables -> column_of table = column_of table' -> table = table'.
Proof.
  intros [i Hi]%list_elem_of_lookup [j Hj]%list_elem_of_lookup Heq.
  assert (Hij : i = j) by (eapply NoDup_lookup; [exact Hcolumns| |]; rewrite list_lookup_fmap; [by rewrite Hi|by rewrite Hj; simpl; rewrite Heq]).
  subst j. congruence.
Qed.

Lemma rest_swap table row rows p p' resealed db db' : table ∈ tables -> p'.2 = p.2 ->
  at_rest p db -> as_read table (row :: rows) db -> (true, db') = swap table row resealed db ->
  ~ unreadable table (key row) (Some resealed) -> at_rest p' db' /\ as_read table rows db'.
Proof.
  intros Ht Heq [H1 H2] [Hnd Hr] Hs Hreadable. apply swap_true in Hs as (_ & Hrow & ->).
  split; [split; [|by rewrite Heq]|split].
  - intros t k v Hin Hv Hu. case_decide as Hc; [|by eapply H1]. apply same_column in Hc; [|done..]. subst t.
    rewrite lookup_insert_Some in Hv. destruct Hv as [[<- <-]|[_ Hv]]; [done|by eapply H1].
  - by apply NoDup_cons in Hnd as [_ ?].
  - intros row' Hin. rewrite decide_True by done. rewrite lookup_insert_ne; [apply Hr; by right|].
    intros Heqk. simpl in Hnd. apply NoDup_cons in Hnd as [Hnd _]. apply Hnd. rewrite Heqk. by apply list_elem_of_fmap_2.
Qed.

Lemma rest_row hooked table row rows p db : table ∈ tables -> at_rest p db -> as_read table (row :: rows) db ->
  wp free (serving quiet) (rotate_row sealer hooked table row p) db (rest_left table rows).
Proof.
  intros Ht Hp Hr. assert (Hnext := as_read_next _ _ _ _ Hr). unfold rotate_row.
  destruct row as [k [blob|]]; cbn [key sealed]; [|by apply rest_going].
  assert (Hissue : forall reason, (forall aad, AAD table k = Ok aad -> is_Ok (seal.OpenReportingKey sealer blob aad).1 = false) ->
    rest_left table rows (recordIssue table k reason p, None) db).
  { intros reason Hu. apply rest_going; [|done]. by apply (at_rest_issue table {| key := k; sealed := Some blob |} rows). }
  destruct (AAD table k) as [aad|] eqn:Haad; [|by apply Hissue].
  destruct (seal.OpenReportingKey sealer blob aad) as [[plaintext|openErr] used] eqn:Hopen.
  2: { assert (Hu := fun aad' (H : Ok aad = Ok aad') => ltac:(injection H as <-; by rewrite Hopen) : is_Ok (seal.OpenReportingKey sealer blob aad').1 = false).
       destruct used; by apply Hissue. }
  destruct used; [by apply seal_key_none in Hopen|by apply rest_going|]. split; [done|].
  intros [nonce|] db' (db1 & <- & -> & Hn); simpl; [|apply rest_abort; apply Hp].
  apply (wp_swap_row _ _ (fun db => at_rest p db /\ as_read table ({| key := k; sealed := Some blob |} :: rows) db));
    [by intros ? ? ? <-|done|intros ? ? _; apply rest_abort; apply Hp| |done].
  intros db1 [[]|e] db' [Hp1 Hr1] Hs; simpl in Hs; [| |apply rest_abort; apply Hp].
  - edestruct (rest_swap table {| key := k; sealed := Some blob |} rows p p) as [H1 H2]; [done..|exact Hs| |by apply rest_going].
    cbn [unreadable key]. intros Hu. specialize (Hu aad Haad).
    by rewrite (seal.Seal_opens sealer nonce plaintext aad _ Haead Hn eq_refl) in Hu.
  - exfalso. unfold swap in Hs. rewrite bool_decide_eq_true_2 in Hs; [done|]. split; [by eexists|]. apply Hr1. by left.
Qed.

Lemma rest_rows hooked table rows p db : table ∈ tables -> at_rest p db -> as_read table rows db ->
  wp free (serving quiet) (rotate_rows sealer hooked table rows p) db (rest_left table []).
Proof.
  intros Ht. revert p db. induction rows as [|row rows IH]; intros p db Hp Hr; [by apply rest_going|].
  apply wp_bind. eapply wp_mono; [|by apply rest_row]. intros [p' [e|]] db' [Hi H']; [by apply rest_abort|].
  destruct (H' eq_refl) as [Hp' Hr']. by apply IH.
Qed.

Lemma rest_tables hooked todo report db : todo ⊆ tables -> at_rest (no_counts, Issues report) db ->
  wp free (serving quiet) (rotate_tables sealer hooked todo report) db (fun r _ => Issues r.1 <> [] -> has_unreadable).
Proof.
  revert report db. induction todo as [|table todo IH]; intros report db Hsub Hp; [exact (proj2 Hp)|].
  apply wp_bind. unfold rotate_table. split; [done|]. intros [rows|e] db' (db1 & <- & -> & Hs); [|exact (proj2 Hp)].
  destruct Hs as [Hnd Hs]. apply wp_bind. eapply wp_mono; [|apply rest_rows; [set_solver|exact Hp|]].
  - intros [p [e|]] db2 [Hi H2]; [exact Hi|]. destruct (H2 eq_refl) as [[Hu _] _]. apply IH; [set_solver|]. by split.
  - split; [done|]. intros [k v] Hin. by apply Hs.
Qed.
End quiet.

(** On a database no other transaction writes, an issue of a rotation is a value that
    opened under neither key before it began: what can be read is rotated, and the
    rotation reports the rest. *)
Theorem rotation_issues options w tr report err w' :
  NoDup (column_of <$> default Registry (OptTables options)) ->
  Sealer options = Some sealer ->
  exec (serving quiet) (Rotate options) w tr (Ret (report, err)) w' ->
  Issues report <> [] -> has_unreadable (default Registry (OptTables options)) w.
Proof.
  intros Hcolumns Hsealer He. unfold Rotate in He. rewrite Hsealer in He. destruct (negb _); [by inversion He|].
  assert (Hwp : wp free (serving quiet) (rotate_tables sealer (hooked options) (default Registry (OptTables options)) no_report) w
    (fun r _ => Issues r.1 <> [] -> has_unreadable (default Registry (OptTables options)) w)).
  { apply rest_tables; [done..|]. split; [|done]. intros table k v Ht Hv Hu. by exists table, k, v. }
  exact (wp_result _ _ _ _ _ _ _ _ He Hwp).
Qed.

(** *** A verification *)

Lemma verify_rows table rows p : exists fresh, (fold_left (verify_row (seal.PrimaryOnly sealer) table) rows p).2 = p.2 ++ fresh /\
  (fresh = [] <-> forall row, row ∈ rows -> current table (key row) (sealed row) = true).
Proof.
  revert p. induction rows as [|row rows IH]; intros p; simpl.
  { exists []. rewrite app_nil_r. split; [done|]. split; [intros _ row H; by apply not_elem_of_nil in H|done]. }
  destruct (IH (verify_row (seal.PrimaryOnly sealer) table p row)) as (fresh & -> & Hfresh).
  assert (Hrow : exists one, (verify_row (seal.PrimaryOnly sealer) table p row).2 = p.2 ++ one /\
                   (one = [] <-> current table (key row) (sealed row) = true)).
  { unfold verify_row, current. destruct (sealed row) as [blob|]; [|exists []; by rewrite app_nil_r].
    destruct (AAD table (key row)) as [aad|]; [|by eexists [_]].
    destruct (seal.OpenReportingKey (seal.PrimaryOnly sealer) blob aad).1; simpl; [exists []; by rewrite app_nil_r|by eexists [_]]. }
  destruct Hrow as (one & -> & Hone). exists (one ++ fresh). rewrite app_assoc. split; [done|].
  rewrite app_nil, Hone, Hfresh. split; [intros [? ?] ? [-> |]%elem_of_cons; eauto|].
  intros H. split; [apply H; by left|intros; apply H; by right].
Qed.

(** Every load of the trace succeeded. *)
Definition loaded (e : event rotation) : bool := match e with Event (loadRows _) (Err _) => false | _ => true end.
Definition load_step (g : bool) (e : event rotation) : bool := g && loaded e.

Lemma loads_of tr g : fold_left load_step tr g = g && forallb loaded tr.
Proof. revert g. induction tr as [|e tr IH]; intros g; simpl; [by rewrite andb_true_r|]. by rewrite IH, andb_assoc. Qed.

Lemma wp_verify tables report db g :
  wp free (alongside (serving quiet) load_step) (verify_tables (seal.PrimaryOnly sealer) tables report) (db, g)
    (fun r s => s.1 = db /\ (s.2 = true -> r.2 = None <-> Issues report = [] /\ all_current tables db)).
Proof.
  revert report g. induction tables as [|table tables IH]; intros report g; simpl.
  { split; [done|]. intros _. case_bool_decide as Hi; [split; [intros _; split; [done|]|done]|split; [done|by intros [? _]]].
    by intros ? ? ? ?%not_elem_of_nil. }
  split; [done|]. intros [rows|e] [db' g'] [(db1 & Ho & Hs) Hg]; destruct Hs as [Hdb Hs];
    cbn [fst snd load_step loaded] in *; unfold quiet in Ho; subst.
  2: { split; [done|]. unfold load_step. simpl. by rewrite andb_false_r. }
  destruct Hs as [_ Hs]. unfold load_step. simpl. rewrite andb_true_r. destruct (verify_rows table rows (no_counts, Issues report)) as (fresh & Hp & Hfresh).
  eapply wp_mono; [|apply IH]. intros r s [-> H]. split; [done|]. intros Hg. rewrite (H Hg). cbn [Issues]. rewrite Hp. cbn [snd].
  rewrite app_nil, Hfresh. split.
  - intros [[Hi Hrows] Hrest]. split; [done|]. intros t k v [->|Ht]%elem_of_cons Hv; [|by eapply Hrest].
    apply (Hrows {| key := k; sealed := v |}). by apply Hs.
  - intros [Hi Hall]. split; [split; [done|]|intros t k v Ht; apply Hall; by right].
    intros [k v] Hin. apply (Hall table k v); [by left|by apply Hs].
Qed.

(** A verification writes nothing, and on a database no other transaction writes, when
    every table could be read, it succeeds exactly when every value of every table is
    NULL or opens under the new key alone. *)
Theorem Verify_exact tables w tr report err w' :
  exec (serving quiet) (verifyTables (Some sealer) tables) w tr (Ret (report, err)) w' ->
  w' = w /\ (forallb loaded tr = true -> err = None <-> all_current tables w).
Proof.
  intros He. apply (exec_alongside _ load_step _ _ _ _ _ true) in He. rewrite loads_of in He.
  destruct (wp_result _ _ _ _ _ _ _ _ He (wp_verify tables no_report w true)) as [Hw H]. split; [exact Hw|].
  intros Hl. rewrite (H Hl). simpl. tauto.
Qed.
End rotation.

(** ** The registry *)

Lemma registry_columns : NoDup (column_of <$> Registry).
Proof. apply (bool_decide_unpack (NoDup (column_of <$> Registry))). by vm_compute. Qed.

Lemma filter_none {A} (P : A -> Prop) {Hdec : forall x, Decision (P x)} l : filter P l = [] <-> forall x, x ∈ l -> ~ P x.
Proof.
  split.
  - intros H x Hx HP. assert (Hin : x ∈ filter P l) by by apply list_elem_of_filter. rewrite H in Hin. by apply not_elem_of_nil in Hin.
  - intros H. destruct (filter P l) as [|x k] eqn:E; [done|].
    assert (Hin : x ∈ filter P l) by (rewrite E; by left). apply list_elem_of_filter in Hin as [HP Hx]. by apply H in Hx.
Qed.

(** There is no gap exactly when the database and the registry have the same columns. *)
Lemma CoverageGaps_exact found tables :
  CoverageGaps found tables = ([], []) <-> forall c, c ∈ found <-> c ∈ column_of <$> tables.
Proof.
  assert (Hpair : forall a b : list column, (a, b) = ([], []) <-> a = [] /\ b = []) by (intros; split; [by intros [= -> ->]|by intros [-> ->]]).
  unfold CoverageGaps. cbv zeta. rewrite Hpair, !filter_none. split.
  - intros [Hm Hs] c. split; intros Hc; apply dec_stable; intros Hn; [by apply (Hm c)|by apply (Hs c)].
  - intros H. split; intros c Hc Hn; by apply Hn, H.
Qed.

(** ** A database to rotate *)

Definition demo_sealer : seal.Sealer := {| seal.aead := seal.toy_aead 7; seal.previousAEAD := Some (seal.toy_aead 1) |}.
Definition demo_options : Options := {| Sealer := Some demo_sealer; OptTables := None; hooked := false |}.
Definition demo_sealed (k : Z) (secret : string) (aad : list Z) : list Z :=
  seal.formatVersion :: replicate seal.nonceSize 5 ++ seal.aead_seal (seal.toy_aead k) (replicate seal.nonceSize 5) (bytes secret) aad.

(** A destination under the old key, a publisher under the new one, a check without a
    token, and [extra] in the row of another destination. *)
Definition demo_db (extra : option (list Z)) : database := fun c =>
  if decide (c = ("destinations", "sealed_secrets")) then
    {["ops" := Some (demo_sealed 1 "s3" (registry_service.DestinationSecretsAAD "ops")); "old" := extra]}
  else if decide (c = ("app_publishers", "sealed_token")) then {["billing" := Some (demo_sealed 7 "tk" (publisher.TokenAAD "billing"))]}
  else if decide (c = ("heartbeat_check_probes", "sealed_access_headers")) then {["4" := None]}
  else ∅.

Definition demo_rows (m : gmap string (option (list Z))) : list sealedRow :=
  (fun kv => {| key := kv.1; sealed := kv.2 |}) <$> map_to_list m.

Definition demo_handler (db : database) (c : rotation_op) : rotation_reply c * database :=
  match c return rotation_reply c * database with
  | loadRows table => (Ok (demo_rows (db (column_of table))), db)
  | rand_Read => (Some (replicate seal.nonceSize 6), db)
  | BeforeUpdate _ _ => (None, db)
  | updateSealed table row resealed => (Ok (swap table row resealed db).1, (swap table row resealed db).2)
  end.

Lemma demo_serving db c : serving quiet db c (demo_handler db c).1 (demo_handler db c).2.
Proof.
  exists db. split; [done|]. destruct c as [table| | |table row resealed]; simpl; [|done|done|by destruct (swap _ _ _ _)].
  split; [done|]. unfold demo_rows. split.
  - rewrite <- list_fmap_compose. apply NoDup_fst_map_to_list.
  - intros k v. rewrite <- elem_of_map_to_list, list_elem_of_fmap. split; [by intros ([] & [= -> ->] & H)|].
    intros H. by exists (k, v).
Qed.

Definition demo_rotate (extra : option (list Z)) := run (I := rotation) demo_handler (Rotate demo_options) (demo_db extra).
Definition demo_verify (extra : option (list Z)) := run (I := rotation) demo_handler (Verify (Some demo_sealer)) (demo_db extra).

(** One value is rotated, and the database moved by reseals. *)
Lemma rotation_reseals_witness :
  Rotated (totals (demo_rotate None).1.2.1) = 1 /\
  rtc (fun db db' => quiet db db' \/ reseals demo_sealer Registry db db') (demo_db None) (demo_rotate None).2.
Proof.
  split; [vm_compute; reflexivity|].
  exact (rotation_reseals demo_sealer (seal.toy_aead_laws 7) demo_options quiet (demo_db None) _ _ _ eq_refl
    (run_exec (serving quiet) demo_handler (Rotate demo_options) (demo_db None) demo_serving)).
Defined.

(** The rotation completes, and every value is under the new key. *)
Lemma rotation_complete_witness :
  all_current demo_sealer Registry (demo_rotate None).2.
Proof.
  assert (He := run_exec (serving quiet) demo_handler (Rotate demo_options) (demo_db None) demo_serving).
  change (run (I := rotation) demo_handler (Rotate demo_options) (demo_db None)) with (demo_rotate None) in He.
  assert (Hr : (demo_rotate None).1.2 = ((demo_rotate None).1.2.1, None)) by by vm_compute.
  rewrite Hr in He.
  refine (rotation_complete demo_sealer (seal.toy_aead_laws 7) demo_options quiet (demo_db None) _ _ _ registry_columns _ eq_refl He).
  intros db db' table k v <- _ Hv. by left.
Defined.

(** A value of neither key is an issue. *)
Lemma rotation_issues_witness :
  Issues (demo_rotate (Some [0])).1.2.1 <> [] /\ has_unreadable demo_sealer Registry (demo_db (Some [0])).
Proof.
  assert (Hi : Issues (demo_rotate (Some [0])).1.2.1 <> []) by by vm_compute.
  split; [exact Hi|].
  assert (He := run_exec (serving quiet) demo_handler (Rotate demo_options) (demo_db (Some [0])) demo_serving).
  change (run (I := rotation) demo_handler (Rotate demo_options) (demo_db (Some [0]))) with (demo_rotate (Some [0])) in He.
  rewrite (surjective_pairing (demo_rotate (Some [0])).1.2) in He.
  exact (rotation_issues demo_sealer (seal.toy_aead_laws 7) demo_options (demo_db (Some [0])) _ _ _ _ registry_columns eq_refl He Hi).
Defined.

(** Before the rotation the verification fails. *)
Lemma Verify_exact_witness :
  (demo_verify None).1.2.2 <> None /\ ~ all_current demo_sealer Registry (demo_db None).
Proof.
  assert (Hv : (demo_verify None).1.2.2 <> None) by by vm_compute.
  split; [exact Hv|]. intros Hall. apply Hv.
  assert (He := run_exec (serving quiet) demo_handler (Verify (Some demo_sealer)) (demo_db None) demo_serving).
  change (run (I := rotation) demo_handler (Verify (Some demo_sealer)) (demo_db None)) with (demo_verify None) in He.
  rewrite (surjective_pairing (demo_verify None).1.2) in He.
  apply (proj2 (Verify_exact demo_sealer Registry (demo_db None) _ _ _ _ He)); [by vm_compute|exact Hall].
Defined.
End rotation_props.
