(* ===== verification/Sinks.v ===== *)
(** * Sinks

    Package sink and what it uses of package transport: the webhook, Discord and ntfy
    sinks (webhook.go, discord.go, ntfy.go) and client.go's reading of responses and
    errors.  A sink is a program: it reads the clock and performs requests; what the
    network answers is the environment's.  [Net] is what the sinks use of net/url,
    net/http, regexp, mime and strconv beyond [Std]. *)

From S2P Require Import Prelude Prog GoText Utf8 GoFormat Std Sha256 Guard Registry Message MessageStore Json JsonEncode Float64 MessageValidate HeartbeatSeal Dispatch.
Open Scope Z_scope.

(** ** The standard library

    A parsed URL: its parts, its [Userinfo] as name and password, and the URL it becomes
    with the query parameter wait=true ([Query], [Set], [Encode], [String]), with its
    request URI. *)
Record SinkURL := {
  url_RequestURI : string; url_RawQuery : string; url_Path : string; url_Host : string; url_Hostname : string;
  url_User : option (string * string); url_wait : string; url_wait_RequestURI : string
}.

Class Net := {
  net_Parse : string -> option SinkURL;
  (** a (?i) pattern of the quoted host name, replaced by a literal *)
  mask_host : string -> string -> string -> string;
  (** [http.ParseTime] *)
  http_ParseTime : string -> option Z;
  (** [mime.QEncoding.Encode("utf-8", value)] *)
  QEncoding_Encode : string -> string;
  (** [strconv.ParseFloat] of a JSON number, as [json.Unmarshal] reads a float64 *)
  ParseFloat : list Z -> option float64.t
}.

(** ** transport/client.go *)

Module client.

Definition MaxResponseSnippetBytes : nat := 1024.

(** What a request fails with: the errors of net and net/url the sinks look for. *)
Inductive failure :=
  | URLError (text : string) (inner : failure)
  | OpError (Op Net : string) (inner : option failure) (text : string)
  | DNSError (Err : string) (text : string)
  | Wrapped (text : string) (inner : failure)
  | Plain (err : error).

(** The error value: its text, and what it wraps. *)
Fixpoint failure_error (f : failure) : error :=
  match f with
  | URLError text inner | Wrapped text inner => Wrap text [failure_error inner]
  | OpError _ _ inner text => Wrap text (match inner with Some inner => [failure_error inner] | None => [] end)
  | DNSError _ text => errors_New text
  | Plain err => err
  end.

(** [errors.As(err, &urlErr)] down the chain *)
Fixpoint url_error (f : failure) : option failure :=
  match f with
  | URLError _ inner => Some inner
  | OpError _ _ (Some inner) _ | Wrapped _ inner => url_error inner
  | _ => None
  end.
Definition Cause (f : failure) : failure := default f (url_error f).

Definition ReadSnippet (body : list Z) : string :=
  of_bytes (filter (fun b => b <> 0) (encode (filter (fun r => rune_valid r = true) (decode (take MaxResponseSnippetBytes body))))).
End client.

(** ** Requests *)

Record HTTPRequest := { http_URL : string; http_Body : list Z; http_Header : list (string * string) }.
Record HTTPResponse := { http_StatusCode : Z; http_RetryAfter : string; http_ResponseBody : list Z }.

Inductive sink_op := Now | Do (request : HTTPRequest).
Definition sink_reply (c : sink_op) : Type := match c with Now => Z | Do _ => HTTPResponse + client.failure end.
Definition sink_io : interface := {| op := sink_op; reply := sink_reply |}.

Module sinks.
Import message.
Abbreviation program A := (prog sink_io A).
Definition ask (c : sink_op) : program (sink_reply c) := @call sink_io c.

Section sinks.
Context `{!Std} `{!Net}.

(** ** webhook.go: errors and snippets *)

Definition userAgent : string := "4irl-delivery/1".
Definition headerMessageID : string := "X-Delivery-Message-Id".
Definition headerIdempotencyKey : string := "X-Delivery-Idempotency-Key".
Definition headerTimestamp : string := "X-Delivery-Timestamp".
Definition headerSignature : string := "X-Delivery-Signature".
Definition signatureScheme : string := "v1=".
Definition maxRetryAfter : Z := 24 * Hour.
Definition redactedMarker : string := "[redacted]".
Definition hostMarker : string := "[host]".

(** Whether the chain holds a [*net.OpError] or a [*net.DNSError]. *)
Fixpoint has_address (f : client.failure) : bool :=
  match f with
  | client.OpError _ _ _ _ | client.DNSError _ _ => true
  | client.URLError _ inner | client.Wrapped _ inner => has_address inner
  | client.Plain _ => false
  end.

Fixpoint addressFreeText (f : client.failure) : string :=
  match f with
  | client.OpError operation net inner _ =>
    (if String.eqb net EmptyString then operation else operation +:+ " " +:+ net) +:+
    match inner with None => EmptyString | Some inner => ": " +:+ addressFreeText inner end
  | client.DNSError err _ => "lookup failed: " +:+ err
  | client.URLError text inner | client.Wrapped text inner => if has_address inner then addressFreeText inner else text
  | client.Plain err => Error err
  end.

Definition newRequestError (sinkName : string) (cause : client.failure) (hostname : string) : error :=
  let text := addressFreeText cause in
  let text := if String.eqb hostname EmptyString then text else mask_host text hostname hostMarker in
  Wrap (sinkName +:+ " request failed: " +:+ text) [client.failure_error cause].

(** [strings.ReplaceAll(s, old, new)] of a non-empty [old]: [skip] bytes of an occurrence
    are still to be passed over. *)
Fixpoint replace_all (old new : list Z) (skip : nat) (s : list Z) : list Z :=
  match s with
  | [] => []
  | b :: rest =>
    match skip with
    | S skip => replace_all old new skip rest
    | O =>
      if bool_decide (old `prefix_of` s) then new ++ replace_all old new (length old - 1) rest
      else b :: replace_all old new 0 rest
    end
  end.

Definition redactSnippet (snippet : string) (needles : list string) : string :=
  fold_left (fun snippet needle => of_bytes (replace_all (bytes needle) (bytes redactedMarker) 0 (bytes snippet))) needles snippet.

(** A stable sort, longest first. *)
Definition longer (a b : string) : Prop := len b <= len a.
#[local] Instance longer_dec a b : Decision (longer a b) := Z_le_dec _ _.
Definition longest_first (l : list string) : list string := merge_sort longer l.

Definition redactionNeedles (destination : registry.ResolvedDestination) (parsed : SinkURL) : list string :=
  let secret name := default EmptyString (registry.Resolved_Secrets destination !! name) in
  let candidates :=
    [secret "url"; url_RequestURI parsed; url_RawQuery parsed; secret "signing_secret"; secret "signing_secret_previous"]%string ++
    (if 1 <? len (url_Path parsed) then [url_Path parsed] else []) ++
    match url_User parsed with None => [] | Some (username, password) => [username; password] end in
  longest_first (filter (fun c => c <> EmptyString /\ c <> "/"%string) candidates).

(** ** webhook.go: signatures *)

(** [Time.Unix]: seconds since 1970, package time counting from the year 1
    ([unixToInternal]). *)
Definition unixToInternal : Z := (1969 * 365 + 1969 / 4 - 1969 / 100 + 1969 / 400) * 86400.
Definition Unix (t : Z) : Z := t / Second - unixToInternal.

Definition sign (secret timestamp : string) (body : list Z) : string :=
  signatureScheme +:+ hex.EncodeToString (hmac.Sum (bytes secret) (bytes timestamp ++ bytes "." ++ body)).

Definition previousSecretActive (destination : registry.ResolvedDestination) (now : Z) : bool :=
  if String.eqb (default EmptyString (registry.Resolved_Secrets destination !! "signing_secret_previous")) EmptyString then false
  else match rfc3339_Parse (default EmptyString (registry.Resolved_Config destination !! "previous_secret_expires_at")) with
  | None => false
  | Some expiresAt => now <? expiresAt
  end.

(** ** webhook.go: Retry-After *)

Definition clampedSeconds (seconds : Z) : Z :=
  if seconds <=? 0 then 0
  else if maxRetryAfter / Second <? seconds then maxRetryAfter
  else seconds * Second.

(** A numeral out of range is [strconv.ErrRange]. *)
Definition parseRetryAfter (header : string) (now : Z) : option Z :=
  let header := of_bytes (TrimSpace (bytes header)) in
  if String.eqb header EmptyString then None
  else match envint.int_value header with
  | Some seconds =>
    if (int64_min <=? seconds) && (seconds <=? int64_max) then Some (clampedSeconds seconds)
    else if HasPrefix header "-" then Some 0 else Some maxRetryAfter
  | None =>
    match http_ParseTime header with
    | None => None
    | Some when => Some (Z.min (Z.max (time.Sub when now) 0) maxRetryAfter)
    end
  end.

(** ** webhook.go: the body

    A raw message is written compacted, with the characters HTML could misread escaped. *)

Fixpoint escape_items (items : list json.item) : list json.item :=
  match items with
  | json.Raw 226 :: json.Raw 128 :: json.Raw 168 :: rest => json_encode.uni 8232 :: escape_items rest
  | json.Raw 226 :: json.Raw 128 :: json.Raw 169 :: rest => json_encode.uni 8233 :: escape_items rest
  | json.Raw b :: rest =>
    (if (b =? json.ch "<") || (b =? json.ch ">") || (b =? json.ch "&") then json_encode.uni b else json.Raw b) :: escape_items rest
  | item :: rest => item :: escape_items rest
  | [] => []
  end.

Fixpoint compact (t : json.tree) : json.tree :=
  match t with
  | json.JString items => json.JString (escape_items items)
  | json.JArray elements => json.JArray (map compact elements)
  | json.JObject members => json.JObject (map (fun '(k, v) => (escape_items k, compact v)) members)
  | _ => t
  end.

Definition raw_message (payload : string) : option json.tree :=
  match json.parse (bytes payload) with
  | Some (t, rest) => if bool_decide (json.skip_space rest = []) then Some (compact t) else None
  | None => None
  end.

(** A string field with omitempty. *)
Definition omitempty (name value : string) : list (string * json.tree) :=
  if String.eqb value EmptyString then [] else [(name, json_encode.of_string value)].

(** The fraction of a second in RFC 3339: nine digits without the zeros at the end. *)
Definition fraction (nanos : Z) : string :=
  if nanos =? 0 then EmptyString
  else "." +:+ of_bytes (rev (drop_while (fun b => b =? 48) (rev (bytes (pad 9 nanos))))).
Definition FormatRFC3339Nano (t : Z) : string :=
  TrimSuffix (FormatRFC3339 t) "Z" +:+ fraction (t mod Second) +:+ "Z".

(** [json.Marshal(webhookBody{...})] *)
Definition webhookBody (request : sink.Request) : option (list Z) :=
  let envelope := sink.Request_Envelope request in
  payload ← raw_message (Payload envelope);
  Some (json_encode.Marshal (json_encode.of_struct (
    [("message_id", json_encode.of_string (sink.Request_MessageID request));
     ("app_id", json_encode.of_string (AppID envelope));
     ("channel", json_encode.of_string (Channel envelope));
     ("idempotency_key", json_encode.of_string (IdempotencyKey envelope));
     ("critical", json.JBool (Critical envelope));
     ("created_at", json_encode.of_string (FormatRFC3339Nano (sink.Request_CreatedAt request)));
     ("payload", payload)]%string ++
    match Display_ envelope with
    | None => []
    | Some d =>
      [("display"%string, json_encode.of_struct
         (omitempty "title" (Title d) ++ omitempty "body" (Body d) ++ omitempty "url" (Display_URL d) ++
          omitempty "priority" (Priority d)))]
    end))).

(** ** Outcomes *)

Definition invalid (what : string) : sink.Outcome :=
  {| sink.StatusCode := 0; sink.RetryAfter := None; sink.ResponseSnippet := EmptyString;
     sink.Err := Some (Wrap (Error sink.ErrInvalidDelivery +:+ ": " +:+ what) [sink.ErrInvalidDelivery]); sink.Gone := false |}.
Definition failed (err : error) : sink.Outcome :=
  {| sink.StatusCode := 0; sink.RetryAfter := None; sink.ResponseSnippet := EmptyString; sink.Err := Some err; sink.Gone := false |}.

Definition secret_of (destination : registry.ResolvedDestination) (name : string) : string :=
  default EmptyString (registry.Resolved_Secrets destination !! name).

(** ** webhook.go: Deliver *)

Definition webhook_Deliver (destination : registry.ResolvedDestination) (request : sink.Request) : program sink.Outcome :=
  currentTime ← (ask Now : program Z);
  let signingSecret := secret_of destination "signing_secret" in
  if String.eqb signingSecret EmptyString || String.eqb (secret_of destination "url") EmptyString
  then Ret (invalid "missing url or signing secret")
  else if bool_decide (is_Some (validate.ValidateIdempotencyKey (sink.Request_MessageID request))) ||
          bool_decide (is_Some (validate.ValidateIdempotencyKey (IdempotencyKey (sink.Request_Envelope request))))
  then Ret (invalid "invalid message identifier")
  else match webhookBody request with
  | None => Ret (invalid "encode body")
  | Some body =>
    let timestamp := pretty (Unix currentTime) in
    let signatures :=
      sign signingSecret timestamp body ::
      (if previousSecretActive destination currentTime
       then [sign (secret_of destination "signing_secret_previous") timestamp body] else []) in
    match net_Parse (secret_of destination "url") with
    | None => Ret (invalid "invalid request URL")
    | Some parsed =>
      answer ← (ask (Do {| http_URL := secret_of destination "url"; http_Body := body;
                           http_Header := [("Content-Type", "application/json"); ("User-Agent", userAgent);
                             (headerMessageID, sink.Request_MessageID request);
                             (headerIdempotencyKey, IdempotencyKey (sink.Request_Envelope request));
                             (headerTimestamp, timestamp);
                             (headerSignature, String.concat "," signatures)]%string |}) : program (HTTPResponse + client.failure));
      Ret (match answer with
           | inr doErr => failed (newRequestError "webhook" (client.Cause doErr) (url_Hostname parsed))
           | inl response =>
             {| sink.StatusCode := http_StatusCode response;
                sink.RetryAfter := parseRetryAfter (http_RetryAfter response) currentTime;
                sink.ResponseSnippet :=
                  redactSnippet (client.ReadSnippet (http_ResponseBody response)) (redactionNeedles destination parsed);
                sink.Err := None; sink.Gone := false |}
           end)
    end
  end.

(** ** discord.go *)

Definition discordMaxContentRunes : nat := 2000.
(** U+2026 *)
Definition discordTruncationMarker : list Z := [226; 128; 166].
Definition discordUnknownWebhookCode : Z := 10015.

Definition discordContent (display : option Display) : string :=
  match display with
  | Some d =>
    if negb (HasRenderableText display) then EmptyString
    else
      String.concat (of_bytes [10]) (
        (if blank (Title d) then [] else ["**" +:+ Title d +:+ "**"]) ++
        (if blank (Body d) then [] else [Body d]) ++
        (if String.eqb (Display_URL d) EmptyString then [] else [Display_URL d]))
  | None => EmptyString
  end.

(** The runes of a text, an invalid byte read as U+FFFD. *)
Definition runes (text : string) : list rune :=
  (fun r => match r with Invalid _ => replacement | _ => r end) <$> decode (bytes text).
Definition truncateRunes (text : string) (limit : nat) : string :=
  if (length (runes text) <=? limit)%nat then text
  else of_bytes (encode (take (limit - 1) (runes text)) ++ discordTruncationMarker).

Definition discordBody (content : string) : list Z :=
  json_encode.Marshal (json_encode.of_struct [
    ("content", json_encode.of_string (truncateRunes content discordMaxContentRunes));
    ("allowed_mentions", json_encode.of_struct [("parse", json.JArray [])])]%string).

(** [json.Unmarshal] into a struct of one pointer field: the last member of that name
    that is not null sets it; a value of another type fails the whole document.  [None]
    is an error, [Some None] a field left nil. *)
Definition unmarshal_field {A} (name : string) (read : json.tree -> option A) (document : list Z) : option (option A) :=
  match json.parse document with
  | Some (t, rest) =>
    if negb (bool_decide (json.skip_space rest = [])) then None
    else match t with
    | json.JNull => Some None
    | json.JObject members =>
      let decoded := fold_left (fun (decoded : option A * bool) member =>
        if bool_decide (heartbeat_seal.foldName (json.unquote member.1) = heartbeat_seal.foldName (bytes name)) then
          match member.2 with
          | json.JNull => (None, decoded.2)
          | v => match read v with Some a => (Some a, decoded.2) | None => (decoded.1, false) end
          end
        else decoded) members (None, true) in
      if decoded.2 then Some decoded.1 else None
    | _ => None
    end
  | None => None
  end.

(** A number read as an int: an integer literal in range. *)
Definition read_int (v : json.tree) : option Z :=
  match v with json.JNumber literal => envint.Atoi (of_bytes literal) | _ => None end.
Definition read_float (v : json.tree) : option float64.t :=
  match v with json.JNumber literal => ParseFloat literal | _ => None end.

Definition discordWebhookIsGone (statusCode : Z) (responseBody : string) : bool :=
  if statusCode =? 401 then true
  else if statusCode =? 404 then
    match unmarshal_field "code" read_int (bytes responseBody) with
    | Some (Some code) => code =? discordUnknownWebhookCode
    | _ => false
    end
  else false.

(** A wait of [seconds]: not above zero is 0, a day or more is [maxRetryAfter]. *)
Definition discord_wait (seconds : float64.t) : Z :=
  if float64.IsNaN seconds || negb (float64.ltb (float64.of_Z 0) seconds) then 0
  else if negb (float64.ltb seconds (float64.of_Z (maxRetryAfter / Second))) then maxRetryAfter
  else float64.to_Z (float64.mul seconds (float64.of_Z Second)).

Definition discordRetryAfter (responseBody retryAfterHeader : string) : program (option Z) :=
  match unmarshal_field "retry_after" read_float (bytes responseBody) with
  | Some (Some seconds) => Ret (Some (discord_wait seconds))
  | _ => now ← (ask Now : program Z); Ret (parseRetryAfter retryAfterHeader now)
  end.

(** [path.Base]: the last element, without the slashes at the end. *)
Definition drop_slashes (path : list Z) : list Z := rev (drop_while (fun b => b =? json.ch "/") (rev path)).
Definition path_Base (path : string) : string :=
  if String.eqb path EmptyString then "."
  else
    let trimmed := drop_slashes (bytes path) in
    if bool_decide (trimmed = []) then "/"
    else of_bytes (rev (json.span (fun b => negb (b =? json.ch "/")) (rev trimmed)).1).

Definition discordRedactionNeedles (webhookURL : string) (target : SinkURL) : list string :=
  longest_first (filter (fun c => c <> EmptyString /\ c <> "/"%string /\ c <> "."%string)
    [webhookURL; url_wait target; url_wait_RequestURI target; url_Path target; path_Base (url_Path target);
     url_Host target; url_Hostname target]).

Definition discord_Deliver (destination : registry.ResolvedDestination) (request : sink.Request) : program sink.Outcome :=
  let webhookURL := secret_of destination "webhook_url" in
  match net_Parse webhookURL with
  | None => Ret (invalid "missing or invalid webhook url")
  | Some target =>
    if String.eqb webhookURL EmptyString || String.eqb (url_Host target) EmptyString
    then Ret (invalid "missing or invalid webhook url")
    else
      let content := discordContent (Display_ (sink.Request_Envelope request)) in
      if String.eqb content EmptyString then Ret (invalid "display has neither title nor body")
      else match net_Parse (url_wait target) with
      | None => Ret (invalid "invalid request URL")
      | Some _ =>
        answer ← (ask (Do {| http_URL := url_wait target; http_Body := discordBody content;
                             http_Header := [("Content-Type", "application/json"); ("User-Agent", userAgent)]%string |})
                  : program (HTTPResponse + client.failure));
        match answer with
        | inr doErr => Ret (failed (newRequestError "discord" (client.Cause doErr) (url_Hostname target)))
        | inl response =>
          let snippet := client.ReadSnippet (http_ResponseBody response) in
          wait ← (if http_StatusCode response =? 429 then discordRetryAfter snippet (http_RetryAfter response) else Ret None);
          Ret {| sink.StatusCode := http_StatusCode response; sink.RetryAfter := wait;
                 sink.ResponseSnippet := redactSnippet snippet (discordRedactionNeedles webhookURL target);
                 sink.Err := None; sink.Gone := discordWebhookIsGone (http_StatusCode response) snippet |}
        end
      end
  end.

(** ** ntfy.go *)

Definition containsLineBreak (values : list string) : bool :=
  existsb (fun value => existsb (fun b => (b =? 13) || (b =? 10)) (bytes value)) values.

Definition encodeHeaderValue (value : string) : string :=
  if existsb (fun b => 128 <=? b) (bytes value) then QEncoding_Encode value else value.

Definition setNtfyHeaders (display : Display) (accessToken : string) : list (string * string) :=
  (if negb (blank (Title display)) && negb (blank (Body display)) then [("Title"%string, encodeHeaderValue (Title display))] else []) ++
  (if String.eqb (Priority display) EmptyString then [] else [("Priority"%string, Priority display)]) ++
  (if String.eqb (Display_URL display) EmptyString then [] else [("Click"%string, Display_URL display)]) ++
  (if String.eqb accessToken EmptyString then [] else [("Authorization"%string, "Bearer " +:+ accessToken)]).

(** [NewNtfySink]: a slash at the end of the base URL is dropped. *)
Definition ntfy_baseURL (BaseURL : string) : string := TrimSuffix BaseURL "/".

Definition ntfy_Deliver (baseURL : string) (destination : registry.ResolvedDestination) (request : sink.Request) : program sink.Outcome :=
  let topic := default EmptyString (registry.Resolved_Config destination !! "topic") in
  if negb (registry.ntfyTopic topic) then Ret (invalid "missing or invalid topic")
  else match Display_ (sink.Request_Envelope request) with
  | None => Ret (invalid "display has neither title nor body")
  | Some display =>
    if negb (HasRenderableText (Some display)) then Ret (invalid "display has neither title nor body")
    else
      let accessToken := secret_of destination "access_token" in
      if containsLineBreak [Title display; Priority display; Display_URL display; accessToken]
      then Ret (invalid "header value contains a line break")
      else
        let body := if blank (Body display) then Title display else Body display in
        let target := baseURL +:+ "/" +:+ topic in
        match net_Parse target with
        | None => Ret (invalid "invalid request URL")
        | Some _ =>
          answer ← (ask (Do {| http_URL := target; http_Body := bytes body;
                               http_Header := ("User-Agent"%string, userAgent) :: setNtfyHeaders display accessToken |})
                    : program (HTTPResponse + client.failure));
          match answer with
          | inr doErr => Ret (failed (newRequestError "ntfy" (client.Cause doErr) EmptyString))
          | inl response =>
            let snippet := client.ReadSnippet (http_ResponseBody response) in
            let snippet := if String.eqb accessToken EmptyString then snippet else redactSnippet snippet [accessToken] in
            wait ← (if http_StatusCode response =? 429
                    then now ← (ask Now : program Z); Ret (parseRetryAfter (http_RetryAfter response) now) else Ret None);
            Ret {| sink.StatusCode := http_StatusCode response; sink.RetryAfter := wait; sink.ResponseSnippet := snippet;
                   sink.Err := None; sink.Gone := false |}
          end
        end
  end.
End sinks.
End sinks.
