(* ===== verification/SinkProps.v ===== *)
(** * SinkProps

    What the sinks promise, whatever a destination answers: a webhook's receiver can
    verify what it gets, no request carries a line break in a header, no secret of the
    destination survives in the stored snippet or error text, and no destination parks a
    delivery for more than a day. *)

From S2P Require Import Prelude Prog GoText Utf8 GoFormat Std Sha256 Guard Registry Message MessageStore Json JsonEncode Float64 MessageValidate HeartbeatSeal Dispatch Sinks.

Open Scope Z_scope.

Module sink_props.
Import message sinks.

(** ** Redaction *)

Definition occurs (n s : list Z) : Prop := exists a b, s = a ++ n ++ b.
#[local] Notation "n `occurs_in` s" := (occurs n s) (at level 70).

(** A needle that cannot be found across a marker. *)
Definition unmarked (n : list Z) : Prop := n <> [] /\ 91 ∉ n /\ 93 ∉ n.

Definition inside : list Z := bytes "redacted".
Lemma marker_bytes : bytes redactedMarker = 91 :: inside ++ [93].
Proof. by vm_compute. Qed.

Lemma app_straddle (x y a n b : list Z) : x ++ y = a ++ n ++ b ->
  (exists b', x = a ++ n ++ b') \/ (exists a', y = a' ++ n ++ b) \/
  (exists n1 n2, n = n1 ++ n2 /\ n1 <> [] /\ n2 <> [] /\ x = a ++ n1 /\ y = n2 ++ b).
Proof.
  intros H. apply app_eq_app in H as (m & [[-> H]|[-> ->]]); [|right; left; by exists m].
  apply app_eq_app in H as (m' & [[-> ->]|[-> ->]]); [|left; by exists m'].
  destruct (decide (m = [])) as [->|Hm]; [right; left; by exists []|].
  destruct (decide (m' = [])) as [->|Hm']; [left; exists []; by rewrite !app_nil_r|].
  right; right. by exists m, m'.
Qed.

Lemma occurs_app_r n x s : n `occurs_in` s -> n `occurs_in` (x ++ s).
Proof. intros (a & b & ->). exists (x ++ a), b. by rewrite <- app_assoc. Qed.
Lemma occurs_cons n c s : n `occurs_in` s -> n `occurs_in` (c :: s).
Proof. apply (occurs_app_r n [c]). Qed.

(** What a needle without brackets meets in a text begun by a marker. *)
Lemma occurs_marker n s : unmarked n -> n `occurs_in` (bytes redactedMarker ++ s) -> n `occurs_in` inside \/ n `occurs_in` s.
Proof.
  intros (Hn & Ho & Hc) (a & b & H). rewrite marker_bytes in H.
  apply (app_straddle (91 :: inside ++ [93])) in H as [(b' & H)|[(a' & ->)|(n1 & n2 & -> & Hn1 & Hn2 & H & ->)]].
  - left. apply (app_straddle (91 :: inside) [93]) in H as [(b2 & H)|[(a2 & H)|(n1 & n2 & -> & _ & Hn2 & _ & H)]].
    + destruct a as [|x a]; [|exists a, b2; by injection H].
      destruct n as [|y n]; [done|]. injection H as <- _. exfalso. apply Ho. by left.
    + exfalso. apply Hc. assert (Hin : 93 ∈ [93]) by by left. destruct n as [|y n]; [done|].
      destruct a2 as [|? a2]; [injection H as <- _; by left|]. injection H as _ H. by destruct a2.
    + destruct n2 as [|y n2]; [done|]. injection H as <- _. exfalso. apply Hc. apply elem_of_app. right. by left.
  - right. by exists a', b.
  - exfalso. destruct (exists_last Hn1) as (n0 & c & ->). rewrite app_assoc in H. rewrite app_comm_cons in H.
    apply app_inj_tail in H as [_ <-]. apply Hc. apply elem_of_app. left. apply elem_of_app. right. by left.
Qed.

Lemma replace_cons old new b rest : replace_all old new 0 (b :: rest) =
  if bool_decide (old `prefix_of` b :: rest) then new ++ replace_all old new (length old - 1) rest
  else b :: replace_all old new 0 rest.
Proof. done. Qed.

Lemma prefix_replaced old n s : unmarked n -> n `prefix_of` replace_all old (bytes redactedMarker) 0 s -> n `prefix_of` s.
Proof.
  intros (_ & Ho & _). revert n Ho. induction s as [|b s IH]; intros n Ho H; [done|]. rewrite replace_cons in H.
  destruct n as [|c n]; [apply prefix_nil|]. case_bool_decide as Hold.
  - rewrite marker_bytes in H. destruct H as [k H]. injection H as <- _. exfalso. apply Ho. by left.
  - destruct H as [k H]. injection H as -> H. apply prefix_cons, IH; [|by exists k]. intros Hin. apply Ho. by right.
Qed.

Lemma occurs_replaced old n s : unmarked n -> forall skip,
  n `occurs_in` replace_all old (bytes redactedMarker) skip s -> n `occurs_in` inside \/ n `occurs_in` s.
Proof.
  intros Hn. induction s as [|b s IH]; intros skip H; [by right|]. destruct skip as [|skip].
  2: { destruct (IH skip H) as [?|?]; [by left|right]. by apply occurs_cons. }
  rewrite replace_cons in H. case_bool_decide as Hold.
  - apply occurs_marker in H as [?|H]; [by left| |done]. destruct (IH _ H) as [?|?]; [by left|right]. by apply occurs_cons.
  - destruct H as ([|c a] & k & H); simpl in H.
    + right. exists []. assert (Hp : n `prefix_of` b :: s); [|by destruct Hp as [k' ->]; exists k'].
      destruct n as [|c n]; [apply prefix_nil|]. injection H as -> H. apply prefix_cons.
      destruct n as [|d n]; [apply prefix_nil|]. destruct Hn as (_ & Ho & Hc). eapply prefix_replaced; [|by exists k].
      split; [done|]. split; intros Hin; [apply Ho|apply Hc]; by right.
    + injection H as -> H. destruct (IH 0%nat) as [?|?]; [by exists a, k|by left|right]. by apply occurs_cons.
Qed.

Lemma replaced_gone n s : unmarked n -> ~ n `occurs_in` inside -> forall skip,
  ~ n `occurs_in` replace_all n (bytes redactedMarker) skip s.
Proof.
  intros Hn Hi. induction s as [|b s IH]; intros skip H.
  { destruct H as (a & k & H). destruct Hn as [Hn _]. by destruct a, n. }
  destruct skip as [|skip]; [|by apply (IH skip)]. rewrite replace_cons in H. case_bool_decide as Hold.
  - apply occurs_marker in H as [?|H]; [done| |done]. by eapply IH.
  - destruct H as ([|c a] & k & H); simpl in H.
    + apply Hold. apply (prefix_replaced n); [done|]. rewrite replace_cons, bool_decide_eq_false_2 by done. by exists k.
    + injection H as -> H. apply (IH 0%nat). by exists a, k.
Qed.

Lemma replaced_range old new s : Forall (fun b => 0 <= b < 256) new -> Forall (fun b => 0 <= b < 256) s -> forall skip,
  Forall (fun b => 0 <= b < 256) (replace_all old new skip s).
Proof.
  intros Hnew. induction 1 as [|b s Hb Hs IH]; intros skip; [constructor|]. destruct skip; [|apply IH].
  rewrite replace_cons. case_bool_decide; [by apply Forall_app|by constructor].
Qed.

Lemma Contains_occurs s n : Contains s n = true -> bytes n `occurs_in` bytes s.
Proof.
  induction s as [|c s IH]; simpl; intros H; apply orb_true_iff in H as [H|H]; try done.
  1, 2: unfold HasPrefix in H; destruct (cut_prefix n _) as [r|] eqn:E; [|done]; apply cut_prefix_spec in E; rewrite E, bytes_app;
    by exists [], (bytes r).
  apply occurs_cons. by apply IH.
Qed.

(** What redaction hides: a text without brackets that the marker does not spell. *)
Definition hideable (needle : string) : Prop := unmarked (bytes needle) /\ ~ bytes needle `occurs_in` inside.

Lemma redacted needles snippet needle : needle ∈ needles -> hideable needle ->
  ~ bytes needle `occurs_in` bytes (redactSnippet snippet needles).
Proof.
  intros Hin [Hn Hi]. unfold redactSnippet.
  assert (Hstep : forall other text, bytes (of_bytes (replace_all (bytes other) (bytes redactedMarker) 0 (bytes text))) =
            replace_all (bytes other) (bytes redactedMarker) 0 (bytes text)).
  { intros. apply bytes_of_bytes, replaced_range; apply bytes_range. }
  assert (Hgone : forall rest text, ~ bytes needle `occurs_in` bytes text ->
    ~ bytes needle `occurs_in` bytes (fold_left (fun text other => of_bytes (replace_all (bytes other) (bytes redactedMarker) 0 (bytes text))) rest text)).
  { induction rest as [|other rest IH]; intros text Ht; [done|]. simpl. apply IH. rewrite Hstep. intros Ho.
    by apply occurs_replaced in Ho as [?|?]. }
  revert snippet. induction needles as [|other needles IH]; intros snippet; [by apply not_elem_of_nil in Hin|].
  simpl. apply elem_of_cons in Hin as [<-|Hin]; [|by apply IH]. apply Hgone. rewrite Hstep. by apply replaced_gone.
Qed.

(** ** Retry-After *)

Definition within_day (wait : option Z) : Prop := match wait with Some d => 0 <= d <= maxRetryAfter | None => True end.

Lemma clamped_bounds seconds : 0 <= clampedSeconds seconds <= maxRetryAfter.
Proof.
  unfold clampedSeconds. destruct (Z.leb_spec seconds 0); [by vm_compute|].
  change (maxRetryAfter / Second) with 86400. destruct (Z.ltb_spec 86400 seconds); [by vm_compute|].
  change maxRetryAfter with (86400 * Second). unfold Second, Millisecond, Microsecond. lia.
Qed.

Lemma parseRetryAfter_bounds `{!Net} header now : within_day (parseRetryAfter header now).
Proof.
  assert (H0 : 0 <= maxRetryAfter) by by vm_compute.
  unfold parseRetryAfter. cbv zeta. destruct (String.eqb _ _); [done|]. destruct (envint.int_value _) as [seconds|].
  - destruct (_ && _); [apply clamped_bounds|]. destruct (HasPrefix _ _); simpl; lia.
  - destruct (http_ParseTime _) as [when|]; [|done]. cbn [within_day]. lia.
Qed.

(** A float64 above zero and below a day, as an exact number. *)
Lemma below_day x : float64.valid x -> float64.ltb (float64.of_Z 0) x = true -> float64.ltb x (float64.of_Z 86400) = true ->
  exists m e, x = S754_finite false m e /\ e <= 0 /\ Z.pos m <= 86400 * 2 ^ (- e).
Proof.
  change (float64.of_Z 86400) with (S754_finite false 5937362789990400 (-36)). change (float64.of_Z 0) with (S754_zero false).
  intros Hv H0 H1. destruct x as [s|s| |s m e]; [by destruct s|by destruct s|done|]. destruct s; [done|].
  exists m, e. split; [done|].
  unfold float64.valid, valid_binary, bounded, canonical_mantissa in Hv. bool_hyps.
  assert (Hd : Z.pos (digits2_pos m) <= 53) by (unfold fexp, emin, float64.prec, float64.emax in *; lia).
  pose proof (digits2_pos_bounds m) as [_ Hm].
  assert (Hm53 : Z.pos m < 2 ^ 53) by (pose proof (Z.pow_le_mono_r 2 (Z.pos (digits2_pos m)) 53); lia).
  assert (Hc : 86400 * 2 ^ 36 = Z.pos 5937362789990400) by reflexivity. revert H1 Hc.
  generalize 5937362789990400%positive. intros day H1 Hday.
  unfold float64.ltb, SFltb in H1. cbn [SFcompare] in H1. destruct (Z.compare_spec e (-36)) as [->|Hlt|Hgt]; [| |done].
  - split; [lia|]. change (- -36) with 36. rewrite Hday. apply Z.nlt_ge. intros Hlt.
    assert (Hgt : (m ?= day)%positive = Gt) by (apply Pos.compare_gt_iff; lia).
    unfold Pos.compare, PosDef.Pos.compare in Hgt. by rewrite Hgt in H1.
  - split; [lia|]. pose proof (Z.pow_le_mono_r 2 37 (- e)). lia.
Qed.

Lemma discord_wait_bounds seconds : float64.valid seconds -> 0 <= discord_wait seconds <= maxRetryAfter.
Proof.
  intros Hv. assert (H0 : 0 <= maxRetryAfter) by by vm_compute. unfold discord_wait.
  destruct (_ || _) eqn:E; [lia|]. apply orb_false_iff in E as [_ Hpos]. apply negb_false_iff in Hpos.
  change (maxRetryAfter / Second) with 86400. destruct (negb _) eqn:Hbelow; [lia|]. apply negb_false_iff in Hbelow.
  destruct (below_day _ Hv Hpos Hbelow) as (m & e & -> & He & Hm).
  change maxRetryAfter with (86400 * Second). apply mul_finite_bounds; [done|done|by vm_compute|by vm_compute].
Qed.

(** ** Header values *)

Definition breaks (value : string) : bool := existsb (fun b => (b =? 13) || (b =? 10)) (bytes value).
Definition printable (c : ascii) : bool := in_range " "%char "~"%char c.
(** A character of a signature or a number. *)
Definition token_char (c : ascii) : bool := in_range "-"%char "~"%char c.

Lemma breaks_app a b : breaks (a +:+ b) = breaks a || breaks b.
Proof. unfold breaks. by rewrite bytes_app, existsb_app. Qed.

Lemma all_chars_weaken (p q : ascii -> bool) s : (forall c, p c = true -> q c = true) -> all_chars p s = true -> all_chars q s = true.
Proof. intros H. induction s as [|c s IH]; [done|]. simpl. intros Hp. bool_hyps. apply andb_true_iff. split; [by apply H|by apply IH]. Qed.

Lemma printable_breaks s : all_chars printable s = true -> breaks s = false.
Proof.
  induction s as [|c s IH]; [done|]. cbn [all_chars]. intros H. bool_hyps. unfold breaks in *.
  change (bytes (String c s)) with (byte_val c :: bytes s). cbn [existsb]. rewrite IH by done. unfold printable, in_range in *. bool_hyps. change (byte_val " ") with 32 in *. lia.
Qed.

Lemma in_range_weaken lo hi lo' hi' c : byte_val lo' <= byte_val lo -> byte_val hi <= byte_val hi' ->
  in_range lo hi c = true -> in_range lo' hi' c = true.
Proof. unfold in_range. intros. bool_hyps. apply andb_true_iff. split; apply Z.leb_le; lia. Qed.

Lemma key_breaks s : validate.ValidateIdempotencyKey s = None -> breaks s = false.
Proof.
  unfold validate.ValidateIdempotencyKey, validate.idempotencyKeyPattern, match_repeat. intros H.
  destruct (_ && _ && _) eqn:E; [|done]. bool_hyps. apply printable_breaks. eapply all_chars_weaken; [|eassumption].
  intros c. by apply in_range_weaken.
Qed.

Lemma pretty_token (z : Z) : all_chars token_char (pretty z) = true.
Proof.
  assert (Hpos : forall z : Z, 0 <= z -> all_chars token_char (pretty z) = true).
  { intros n Hn. destruct (pretty_nonneg (S (Z.to_nat n)) n) as [[Hd _] _]; [lia| |].
    - pose proof (Z.pow_gt_lin_r 10 (Z.of_nat (S (Z.to_nat n)))). lia.
    - eapply all_chars_weaken; [|exact Hd]. intros c. by apply in_range_weaken. }
  destruct z as [|p|p]; [by apply Hpos|by apply Hpos|].
  change (pretty (Z.neg p)) with ("-" +:+ pretty (Z.pos p)). simpl. by apply Hpos.
Qed.

Lemma hex_token bs : Forall (fun b => 0 <= b < 256) bs -> all_chars token_char (hex.EncodeToString bs) = true.
Proof.
  intros H. unfold hex.EncodeToString. rewrite all_chars_of_bytes. induction H as [|b bs Hb Hbs IH]; [done|].
  assert (Hdigit : forall n, 0 <= n < 16 -> token_char (byte_of (hex.digit n)) = true).
  { intros n Hn. unfold token_char, in_range. rewrite byte_val_of; unfold hex.digit; destruct (Z.ltb_spec n 10); try lia;
      change (byte_val "-") with 45; change (byte_val "~") with 126; lia. }
  rewrite bind_cons, forallb_app, IH. cbn [forallb]. rewrite !Hdigit; [done|by apply Z.mod_pos_bound|].
  split; [apply Z.div_pos; lia|apply Z.div_lt_upper_bound; lia].
Qed.

Lemma sign_token secret timestamp body : all_chars token_char (sign secret timestamp body) = true.
Proof. unfold sign. rewrite all_chars_app, hex_token by apply Sum256_bytes. done. Qed.

(** The parts of a header between commas. *)
Fixpoint split_commas (s : string) : list string :=
  match s with
  | EmptyString => [EmptyString]
  | String c s =>
    if Ascii.eqb c ","%char then EmptyString :: split_commas s
    else match split_commas s with p :: ps => String c p :: ps | [] => [String c EmptyString] end
  end.

Lemma split_token p rest : all_chars token_char p = true ->
  split_commas (p +:+ "," +:+ rest) = p :: split_commas rest.
Proof.
  induction p as [|c p IH]; [done|]. simpl. intros H. bool_hyps. rewrite IH by done.
  destruct (Ascii.eqb_spec c ","%char) as [->|_]; [done|done].
Qed.

Lemma split_last p : all_chars token_char p = true -> split_commas p = [p].
Proof.
  induction p as [|c p IH]; [done|]. simpl. intros H. bool_hyps. rewrite IH by done.
  destruct (Ascii.eqb_spec c ","%char) as [->|_]; done.
Qed.

Lemma split_concat parts : parts <> [] -> Forall (fun p => all_chars token_char p = true) parts ->
  split_commas (String.concat "," parts) = parts.
Proof.
  intros Hne H. induction H as [|p parts Hp Hps IH]; [done|]. destruct parts as [|q parts]; [by apply split_last|].
  change (String.concat "," (p :: q :: parts)) with (p +:+ "," +:+ String.concat "," (q :: parts)).
  rewrite split_token by done. by rewrite IH.
Qed.

Lemma concat_breaks parts : Forall (fun p => all_chars token_char p = true) parts -> breaks (String.concat "," parts) = false.
Proof.
  assert (Hone : forall p, all_chars token_char p = true -> breaks p = false).
  { intros p Hp. apply printable_breaks. eapply all_chars_weaken; [|exact Hp]. intros c. by apply in_range_weaken. }
  induction 1 as [|p parts Hp Hps IH]; [done|]. destruct parts as [|q parts]; [by apply Hone|].
  change (String.concat "," (p :: q :: parts)) with (p +:+ "," +:+ String.concat "," (q :: parts)).
  by rewrite !breaks_app, Hone, IH.
Qed.

(** ** The sinks *)

Inductive kind := Webhook | Discord | Ntfy (baseURL : string).

Section deliver.
Context {HStd : Std} {HNet : Net}.

Definition Deliver (k : kind) : registry.ResolvedDestination -> sink.Request -> program sink.Outcome :=
  match k with Webhook => webhook_Deliver | Discord => discord_Deliver | Ntfy baseURL => ntfy_Deliver baseURL end.

(** Q-encoding adds no line break, a parsed float64 is one, and masking a host name writes
    nothing but the marker's word. *)
Class NetLaws : Prop := {
  mask_host_adds text hostname n : unmarked n -> ~ n `occurs_in` bytes "host" ->
    n `occurs_in` bytes (mask_host text hostname hostMarker) -> n `occurs_in` bytes text;
  QEncoding_breaks value : breaks value = false -> breaks (QEncoding_Encode value) = false;
  ParseFloat_valid literal x : ParseFloat literal = Some x -> float64.valid x
}.

(** Where a sink of the kind may send, and what. *)
Definition addressed (k : kind) (destination : registry.ResolvedDestination) (request : sink.Request) (r : HTTPRequest) : Prop :=
  match k with
  | Webhook => http_URL r = secret_of destination "url" /\ webhookBody request = Some (http_Body r)
  | Discord =>
    (exists target, net_Parse (secret_of destination "webhook_url") = Some target /\ http_URL r = url_wait target) /\
    exists content, http_Body r = discordBody content /\ content <> EmptyString /\
      (length (runes (truncateRunes content discordMaxContentRunes)) <= discordMaxContentRunes)%nat
  | Ntfy baseURL =>
    exists topic, registry.ntfyTopic topic = true /\ registry.Resolved_Config destination !! "topic"%string = Some topic /\
      http_URL r = baseURL +:+ "/" +:+ topic
  end.

Definition request_clean (k : kind) (destination : registry.ResolvedDestination) (request : sink.Request) (c : sink_op) : Prop :=
  match c with
  | Now => True
  | Do r => Forall (fun h => breaks h.2 = false) (http_Header r) /\ addressed k destination request r
  end.

(** *** Discord's limit *)

Lemma runes_wf text : Forall rune_wf (runes text) /\ forallb rune_valid (runes text) = true /\
  Forall (fun r => Forall (fun b => 0 <= b < 256) (rune_enc r)) (runes text).
Proof.
  pose proof (decode_wf (bytes text)) as Hwf. pose proof (bytes_range text) as Hrange.
  rewrite <- (encode_decode (bytes text)) in Hrange. unfold encode in Hrange. apply Forall_bind in Hrange. unfold runes.
  induction (decode (bytes text)) as [|r rs IH]; [by split_and!|]. inversion Hwf; subst. inversion Hrange; subst.
  destruct IH as (IH1 & IH2 & IH3); [done..|]. split_and!; csimpl.
  - constructor; [|done]. destruct r; [done|apply replacement_wf].
  - by destruct r.
  - constructor; [|done]. destruct r; [done|by repeat constructor].
Qed.

Lemma runes_encoded rs : Forall rune_wf rs -> forallb rune_valid rs = true ->
  Forall (fun r => Forall (fun b => 0 <= b < 256) (rune_enc r)) rs -> runes (of_bytes (encode rs)) = rs.
Proof.
  intros Hwf Hv Hr. unfold runes. rewrite bytes_of_bytes by (unfold encode; by apply Forall_bind).
  rewrite decode_encode by done. clear Hwf Hr. induction rs as [|r rs IH]; [done|]. csimpl in *. bool_hyps.
  rewrite IH by done. by destruct r.
Qed.

Lemma truncateRunes_length text limit : (0 < limit)%nat -> (length (runes (truncateRunes text limit)) <= limit)%nat.
Proof.
  intros Hl. unfold truncateRunes. destruct (Nat.leb_spec (length (runes text)) limit) as [|Hlong]; [done|].
  destruct (runes_wf text) as (Hwf & Hv & Hr). set (ellipsis := Rune 8230 discordTruncationMarker).
  change discordTruncationMarker with (encode [ellipsis]). unfold encode. rewrite <- bind_app. fold (encode (take (limit - 1) (runes text) ++ [ellipsis])).
  rewrite runes_encoded; [rewrite length_app, length_take; simpl; lia|..].
  - apply Forall_app. split; [by apply Forall_take|]. constructor; [|done]. split; [done|]. intros _. by repeat constructor.
  - rewrite forallb_app. apply andb_true_iff. split; [|done]. apply forallb_Forall. by apply Forall_take, forallb_Forall.
  - apply Forall_app. split; [by apply Forall_take|]. by repeat constructor.
Qed.

(** *** What the sinks send *)

Lemma existsb_cons_false {A} (p : A -> bool) a l : existsb p (a :: l) = false -> p a = false /\ existsb p l = false.
Proof. simpl. by intros [? ?]%orb_false_iff. Qed.

Lemma containsLineBreak_cons v vs : containsLineBreak (v :: vs) = false -> breaks v = false /\ containsLineBreak vs = false.
Proof. apply existsb_cons_false. Qed.

Context {Hlaws : NetLaws}.

Lemma ntfy_headers_clean display token : breaks (Title display) = false -> breaks (Priority display) = false ->
  breaks (Display_URL display) = false -> breaks token = false ->
  Forall (fun h => breaks h.2 = false) (setNtfyHeaders display token).
Proof.
  intros Ht Hp Hu Hk. unfold setNtfyHeaders.
  repeat (apply Forall_app; split); case_match; repeat constructor; simpl; [|done|done|by rewrite breaks_app, Hk].
  unfold encodeHeaderValue. case_match; [by apply QEncoding_breaks|done].
Qed.

(** *** What comes back *)

(** The secrets of a destination its sink uses. *)
Definition secret_names (k : kind) : list string :=
  match k with
  | Webhook => ["url"; "signing_secret"; "signing_secret_previous"]
  | Discord => ["webhook_url"]
  | Ntfy _ => ["access_token"]
  end%string.

(** A secret the redaction hides: longer than the marker's word, without brackets. *)
Definition plain_secret (secret : string) : Prop := 8 < len secret /\ 91 ∉ bytes secret /\ 93 ∉ bytes secret.

(** No such secret is in the snippet, no wait is longer than a day, and an error comes
    with no response. *)
Definition outcome_safe (k : kind) (destination : registry.ResolvedDestination) (o : sink.Outcome) : Prop :=
  (forall name, name ∈ secret_names k -> plain_secret (secret_of destination name) ->
    Contains (sink.ResponseSnippet o) (secret_of destination name) = false) /\
  within_day (sink.RetryAfter o) /\
  (is_Some (sink.Err o) -> sink.StatusCode o = 0 /\ sink.Gone o = false).

Lemma plain_hideable secret : plain_secret secret -> hideable secret.
Proof.
  intros (Hl & Ho & Hc). rewrite len_bytes in Hl. split; [split; [intros H; rewrite H in Hl; simpl in Hl; lia|done]|].
  intros (a & b & H). apply (f_equal length) in H. rewrite !length_app in H. change (length inside) with 8%nat in H. lia.
Qed.

Lemma hidden needles snippet secret : secret ∈ needles -> plain_secret secret -> Contains (redactSnippet snippet needles) secret = false.
Proof.
  intros Hin Hs. destruct (Contains _ _) eqn:E; [|done]. apply Contains_occurs in E.
  exfalso. by apply (redacted needles snippet secret Hin (plain_hideable _ Hs)).
Qed.

Lemma outcome_without_snippet k destination o : sink.ResponseSnippet o = EmptyString -> sink.RetryAfter o = None ->
  sink.StatusCode o = 0 -> sink.Gone o = false -> outcome_safe k destination o.
Proof.
  intros Hs Hr Hc Hg. split; [|rewrite Hr; done]. intros name _ (Hl & _). rewrite Hs. simpl.
  destruct (secret_of destination name); [by vm_compute in Hl|done].
Qed.

Lemma elem_longest c l : c ∈ longest_first l <-> c ∈ l.
Proof. unfold longest_first. by rewrite merge_sort_Permutation. Qed.

Lemma plain_needle secret candidates : plain_secret secret -> secret ∈ candidates ->
  secret ∈ longest_first (filter (fun c => c <> EmptyString /\ c <> "/"%string) candidates) /\
  secret ∈ longest_first (filter (fun c => c <> EmptyString /\ c <> "/"%string /\ c <> "."%string) candidates).
Proof.
  intros (Hl & _) Hin. rewrite !elem_longest, !list_elem_of_filter. split; (split; [|done]); split_and?; intros ->; by vm_compute in Hl.
Qed.

(** The last value read for a field was read. *)
Lemma unmarshal_read {A} name (read : json.tree -> option A) document a :
  unmarshal_field name read document = Some (Some a) -> exists v, read v = Some a.
Proof.
  unfold unmarshal_field. destruct (json.parse document) as [[t rest]|]; [|done]. destruct (negb _); [done|].
  destruct t as [| | | | |members]; try done. cbv zeta.
  match goal with |- context [fold_left ?f _ _] => set (step := f) end.
  assert (H : forall decoded, (forall a, decoded.1 = Some a -> exists v, read v = Some a) ->
    forall a, (fold_left step members decoded).1 = Some a -> exists v, read v = Some a).
  { induction members as [|m members IH]; [done|]. intros decoded Hd. apply IH. intros a'. unfold step.
    case_bool_decide; [|apply Hd]. destruct m.2 eqn:Ev; simpl; try done;
      match goal with |- context [read ?v] => destruct (read v) eqn:Er end; simpl; try (intros [= <-]; by eexists); apply Hd. }
  destruct (fold_left step members (None, true)).2; [|done]. intros [= Ha]. by eapply (H (None, true)).
Qed.

(** *** What an error says *)

(** The texts of an error that are neither a URL's nor an address's: the operation and
    network of a [*net.OpError], the failure of a lookup, and the texts of errors that
    hold neither. *)
Fixpoint spoken (f : client.failure) : list string :=
  match f with
  | client.OpError operation net inner _ =>
    operation :: net :: match inner with Some inner => spoken inner | None => [] end
  | client.DNSError err _ => [err]
  | client.URLError text inner | client.Wrapped text inner => if has_address inner then spoken inner else [text]
  | client.Plain err => [Error err]
  end.

Definition invalid_texts : list string :=
  (fun what => "delivery cannot be built from this destination: " +:+ what) <$>
    ["missing url or signing secret"; "invalid message identifier"; "encode body"; "invalid request URL";
     "missing or invalid webhook url"; "display has neither title nor body"; "missing or invalid topic";
     "header value contains a line break"]%string.

(** A secret that is one word, as URLs and tokens are. *)
Definition word_secret (secret : string) : Prop :=
  plain_secret secret /\ 32 ∉ bytes secret /\ last (bytes secret) <> Some 58.

(** The error of a delivery, given what its requests failed with: a fixed text, or one
    that holds no such secret of the destination unless the failure itself, less the URL
    and the addresses it carries, spoke it. *)
Definition error_safe (k : kind) (destination : registry.ResolvedDestination) (fs : list client.failure) (o : sink.Outcome) : Prop :=
  match sink.Err o with
  | None => True
  | Some err =>
    Error err ∈ invalid_texts \/
    forall name, name ∈ secret_names k -> word_secret (secret_of destination name) ->
      (forall f piece, f ∈ fs -> piece ∈ spoken (client.Cause f) ->
         ~ bytes (secret_of destination name) `occurs_in` bytes piece) ->
      Contains (Error err) (secret_of destination name) = false
  end.

Lemma occurs_space n a b : 32 ∉ n -> n <> [] -> n `occurs_in` (a ++ 32 :: b) -> n `occurs_in` a \/ n `occurs_in` b.
Proof.
  intros Hsp Hne (x & y & H). apply app_straddle in H as [(b' & ->)|[(a' & H)|(n1 & n2 & -> & _ & Hn2 & _ & H)]].
  - left. by exists x, b'.
  - destruct a' as [|c a']; simpl in H.
    + destruct n as [|c n]; [done|]. injection H as <- _. exfalso. apply Hsp. by left.
    + injection H as _ ->. right. by exists a', y.
  - destruct n2 as [|c n2]; [done|]. injection H as <- _. exfalso. apply Hsp. apply elem_of_app. right. by left.
Qed.

Lemma occurs_colon n a : last n <> Some 58 -> n <> [] -> n `occurs_in` (a ++ [58]) -> n `occurs_in` a.
Proof.
  intros Hl Hne (x & y & H). destruct (exists_last Hne) as (n0 & c & ->).
  destruct y as [|d y] using rev_ind.
  - rewrite app_nil_r, app_assoc in H. apply app_inj_tail in H as [_ <-]. by rewrite last_snoc in Hl.
  - clear IHy. rewrite !app_assoc in H. apply app_inj_tail in H as [-> _]. exists x, y. by rewrite !app_assoc.
Qed.

Lemma occurs_length n s : n `occurs_in` s -> (length n <= length s)%nat.
Proof. intros (a & b & ->). rewrite !length_app. lia. Qed.

Lemma addressFree_spoken n f : 32 ∉ n -> last n <> Some 58 -> (8 < length n)%nat ->
  n `occurs_in` bytes (addressFreeText f) -> exists piece, piece ∈ spoken f /\ n `occurs_in` bytes piece.
Proof.
  intros Hsp Hcolon Hlen. assert (Hne : n <> []) by (intros ->; simpl in Hlen; lia).
  assert (Hshort : forall s, (length s <= 8)%nat -> ~ n `occurs_in` s) by (intros s Hs Ho%occurs_length; lia).
  revert f. fix IH 1. intros [text inner|operation net inner text|err text|text inner|err] Ho; cbn [addressFreeText spoken] in *.
  - destruct (has_address inner); [by apply IH|]. exists text. split; [by left|done].
  - assert (Hhead : n `occurs_in` bytes (if String.eqb net EmptyString then operation else operation +:+ " " +:+ net) ->
      exists piece, piece ∈ [operation; net] /\ n `occurs_in` bytes piece).
    { destruct (String.eqb net EmptyString); [intros H; exists operation; split; [by left|done]|].
      rewrite !bytes_app. change (bytes " ") with [32]. intros H. apply occurs_space in H as [H|H]; [| |done..].
      - exists operation. split; [by left|done].
      - exists net. split; [right; by left|done]. }
    destruct inner as [inner|].
    + rewrite !bytes_app in Ho. change (bytes ": ") with ([58] ++ [32]) in Ho. rewrite app_assoc, app_assoc, <- (app_assoc _ [32]) in Ho.
      apply occurs_space in Ho as [Ho|Ho]; [| |done..].
      * apply occurs_colon in Ho; [|done..]. destruct (Hhead Ho) as (piece & Hp & ?). exists piece. split; [|done].
        rewrite !elem_of_cons in Hp |- *. rewrite elem_of_nil in Hp. tauto.
      * destruct (IH _ Ho) as (piece & Hp & ?). exists piece. split; [|done]. do 2 right. done.
    + rewrite bytes_app, app_nil_r in Ho. by apply Hhead.
  - rewrite bytes_app in Ho. change (bytes "lookup failed: ") with (bytes "lookup" ++ 32 :: bytes "failed:" ++ [32]) in Ho.
    rewrite <- app_assoc, <- app_comm_cons, <- app_assoc in Ho.
    apply occurs_space in Ho as [Ho|Ho]; [by apply Hshort in Ho; [|vm_compute; lia]| |done..].
    apply occurs_space in Ho as [Ho|Ho]; [by apply Hshort in Ho; [|vm_compute; lia]| |done..].
    exists err. split; [by left|done].
  - destruct (has_address inner); [by apply IH|]. exists text. split; [by left|done].
  - exists (Error err). split; [by left|done].
Qed.

Lemma request_error_safe n sinkName f hostname : sinkName ∈ ["webhook"; "discord"; "ntfy"]%string ->
  word_secret n -> (forall piece, piece ∈ spoken f -> ~ bytes n `occurs_in` bytes piece) ->
  Contains (Error (newRequestError sinkName f hostname)) n = false.
Proof.
  intros Hname (Hplain & Hsp & Hcolon) Hfree. destruct (Contains _ _) eqn:E; [exfalso|done]. apply Contains_occurs in E.
  pose proof (plain_hideable _ Hplain) as [Hun _]. destruct Hplain as (Hlen & _ & _). rewrite len_bytes in Hlen.
  assert (Hne : bytes n <> []) by (destruct Hun; done).
  assert (Hshort : forall s, (length s <= 8)%nat -> ~ bytes n `occurs_in` s) by (intros s Hs Ho%occurs_length; lia).
  unfold newRequestError in E. cbv zeta in E. cbn [Error] in E. rewrite !bytes_app in E.
  change (bytes " request failed: ") with (32 :: bytes "request" ++ 32 :: bytes "failed:" ++ [32]) in E.
  rewrite <- app_comm_cons, <- app_assoc, <- app_comm_cons, <- app_assoc in E.
  apply occurs_space in E as [E|E]; [| |done..].
  { apply Hshort in E; [done|]. rewrite !elem_of_cons, elem_of_nil in Hname. destruct Hname as [->|[->|[->|[]]]]; vm_compute; lia. }
  apply occurs_space in E as [E|E]; [by apply Hshort in E; [|vm_compute; lia]| |done..].
  apply occurs_space in E as [E|E]; [by apply Hshort in E; [|vm_compute; lia]| |done..].
  assert (Ho : bytes n `occurs_in` bytes (addressFreeText f)).
  { destruct (String.eqb hostname EmptyString); [done|]. eapply mask_host_adds; [done| |done]. apply Hshort. vm_compute. lia. }
  destruct (addressFree_spoken (bytes n) f) as (piece & Hp & Hin); [done|done|lia|done|]. by apply (Hfree piece).
Qed.

Definition failed_step (fs : list client.failure) (e : event sink_io) : list client.failure :=
  match e with Event (Do _) (inr f) => fs ++ [f] | _ => fs end.
Definition failures_of (tr : list (event sink_io)) : list client.failure := fold_left failed_step tr [].

Ltac error_walk := repeat first
  [ match goal with
    | |- wp _ _ (ask _) _ _ =>
      apply wp_call; [done|let r := fresh "r" in let g := fresh "g" in intros r g ->;
        let t := type of r in lazymatch eval hnf in t with sum _ _ => destruct r | _ => idtac end; cbn [failed_step app]]
    end
  | wp_step ].

Lemma invalid_safe k destination fs what : Error (Wrap (Error sink.ErrInvalidDelivery +:+ ": " +:+ what) []) ∈ invalid_texts ->
  error_safe k destination fs (invalid what).
Proof. by left. Qed.

Lemma failed_safe k destination f sinkName hostname : sinkName ∈ ["webhook"; "discord"; "ntfy"]%string ->
  error_safe k destination [f] (failed (newRequestError sinkName (client.Cause f) hostname)).
Proof.
  intros Hname. right. intros name Hin Hword Hfree. apply request_error_safe; [done..|].
  intros piece Hp. by apply (Hfree f); [by left|].
Qed.

Lemma wp_errors k destination request :
  wp free (follow failed_step) (Deliver k destination request) [] (fun o fs => error_safe k destination fs o).
Proof.
  destruct k; unfold Deliver, webhook_Deliver, discord_Deliver, discordRetryAfter, ntfy_Deliver; cbv zeta; error_walk; try done.
  all: first [apply invalid_safe|apply failed_safe]; by vm_compute; repeat first [by left|right].
Qed.

(** *** One delivery *)

Definition clean (k : kind) (destination : registry.ResolvedDestination) (request : sink.Request) (_ : unit) (c : op sink_io) : Prop :=
  request_clean k destination request c.

Ltac sink_walk := repeat first
  [ match goal with
    | |- wp _ _ (ask _) _ _ => apply wp_call; [|let r := fresh "r" in intros r [] _; let t := type of r in lazymatch eval hnf in t with sum _ _ => destruct r | _ => idtac end]
    | |- clean _ _ _ _ Now => done
    end
  | wp_step ].

Lemma wp_discordRetryAfter (pre : unit -> op sink_io -> Prop) responseBody header : (forall u, pre u Now) ->
  wp pre anything (discordRetryAfter responseBody header) tt (fun wait _ => within_day wait).
Proof.
  intros Hpre. unfold discordRetryAfter. destruct (unmarshal_field _ _ _) as [[seconds|]|] eqn:E.
  - apply unmarshal_read in E as (v & Hv). unfold read_float in Hv. destruct v; try done. apply ParseFloat_valid in Hv.
    by apply discord_wait_bounds.
  - split; [done|]. intros now w _. apply parseRetryAfter_bounds.
  - split; [done|]. intros now w _. apply parseRetryAfter_bounds.
Qed.

Lemma wp_webhook destination request :
  wp (clean Webhook destination request) anything (webhook_Deliver destination request) tt (fun o _ => outcome_safe Webhook destination o).
Proof.
  unfold webhook_Deliver. cbv zeta. sink_walk; try by apply outcome_without_snippet.
  - apply orb_false_iff in Heqb0 as [Hid Hkey]. apply bool_decide_eq_false in Hid, Hkey.
    assert (Hplain : forall s : string, ~ is_Some (validate.ValidateIdempotencyKey s) -> breaks s = false).
    { intros s' Hs. apply key_breaks. destruct (validate.ValidateIdempotencyKey s'); [by destruct Hs|done]. }
    split; [|by split]. repeat constructor; cbn [snd]; try done; try by apply Hplain.
    + apply printable_breaks. eapply all_chars_weaken; [|apply pretty_token]. intros c. by apply in_range_weaken.
    + apply concat_breaks. constructor; [apply sign_token|]. case_match; [|done]. constructor; [apply sign_token|done].
  - split; [|split; [apply parseRetryAfter_bounds|by intros [? ?]]]. intros name Hname Hs. apply hidden; [|done].
    apply plain_needle; [done|]. simpl in Hname. rewrite !elem_of_cons in Hname. cbn [app]. rewrite !elem_of_cons.
    destruct Hname as [->|[->|[->|Hn]]]; [tauto..|by apply not_elem_of_nil in Hn].
Qed.

Lemma wp_discord destination request :
  wp (clean Discord destination request) anything (discord_Deliver destination request) tt (fun o _ => outcome_safe Discord destination o).
Proof.
  assert (Hout : forall target h wait, within_day wait -> outcome_safe Discord destination
    {| sink.StatusCode := http_StatusCode h; sink.RetryAfter := wait;
       sink.ResponseSnippet := redactSnippet (client.ReadSnippet (http_ResponseBody h))
         (discordRedactionNeedles (secret_of destination "webhook_url") target);
       sink.Err := None; sink.Gone := discordWebhookIsGone (http_StatusCode h) (client.ReadSnippet (http_ResponseBody h)) |}).
  { intros target h wait Hw. split; [|split; [done|by intros [? ?]]]. intros name Hname Hs.
    apply list_elem_of_singleton in Hname as ->. apply hidden; [|done]. apply plain_needle; [done|]. by left. }
  unfold discord_Deliver. cbv zeta. sink_walk; try by apply outcome_without_snippet.
  - split; [by repeat constructor|]. split; [by eexists|]. eexists. split; [done|]. split.
    + intros He. by rewrite He in Heqb0.
    + apply truncateRunes_length. unfold discordMaxContentRunes. lia.
  - eapply wp_mono; [|by apply wp_discordRetryAfter]. intros wait [] Hw. by apply Hout.
  - by apply Hout.
Qed.

Lemma wp_ntfy baseURL destination request :
  wp (clean (Ntfy baseURL) destination request) anything (ntfy_Deliver baseURL destination request) tt
    (fun o _ => outcome_safe (Ntfy baseURL) destination o).
Proof.
  assert (Hout : forall h wait, within_day wait -> outcome_safe (Ntfy baseURL) destination
    {| sink.StatusCode := http_StatusCode h; sink.RetryAfter := wait;
       sink.ResponseSnippet := if String.eqb (secret_of destination "access_token") EmptyString then client.ReadSnippet (http_ResponseBody h)
                               else redactSnippet (client.ReadSnippet (http_ResponseBody h)) [secret_of destination "access_token"];
       sink.Err := None; sink.Gone := false |}).
  { intros h wait Hw. split; [|split; [done|by intros [? ?]]]. intros name Hname Hs.
    apply list_elem_of_singleton in Hname as ->. destruct (String.eqb_spec (secret_of destination "access_token") EmptyString) as [He|_].
    - destruct Hs as [Hl _]. rewrite He in Hl. by vm_compute in Hl.
    - apply hidden; [by left|done]. }
  unfold ntfy_Deliver. cbv zeta. sink_walk; try by apply outcome_without_snippet.
  - apply containsLineBreak_cons in Heqb1 as [Ht H1]. apply containsLineBreak_cons in H1 as [Hp H2].
    apply containsLineBreak_cons in H2 as [Hu H3]. apply containsLineBreak_cons in H3 as [Hk _].
    split; [constructor; [done|by apply ntfy_headers_clean]|]. apply negb_false_iff in Heqb.
    destruct (registry.Resolved_Config destination !! "topic"%string) as [topic|] eqn:Etopic; [|done].
    exists topic. simpl. by rewrite Etopic.
  - apply Hout, parseRetryAfter_bounds.
  - by apply Hout.
Qed.

Lemma wp_Deliver k destination request :
  wp (clean k destination request) anything (Deliver k destination request) tt (fun o _ => outcome_safe k destination o).
Proof. destruct k; [apply wp_webhook|apply wp_discord|apply wp_ntfy]. Qed.

(** Whatever the network answers, a request of a sink goes where its destination says
    and carries no line break in a header; a Discord message is within 2000 runes, and a
    webhook posts the body of its message. *)
Theorem requests_clean {W} (answers : answering sink_io W) k destination request w tr p' w' :
  exec answers (Deliver k destination request) w tr p' w' ->
  Forall (fun e : event sink_io => request_clean k destination request (called e)) tr.
Proof.
  intros He. apply Forall_forall. intros e (before & after & ->)%list_elem_of_split.
  apply exec_app in He as (p1 & w1 & He & Hnext).
  destruct (exec_follow answers (anything (W := unit)) _ _ _ _ _ tt He) as [[] He']; [by intros; exists tt|].
  pose proof (wp_exec _ _ _ _ _ _ _ _ He' (wp_Deliver k destination request)) as Hwp.
  inversion Hnext; subst. exact (proj1 Hwp).
Qed.

(** C38: whatever the network answers, the snippet stored of a delivery holds no secret of
    its destination whole (of the secrets longer than eight bytes and free of the marker's
    brackets; one the size cap cuts is not found, [cut_secret_survives]); its error is one
    of eight fixed texts, or holds no secret (of those that are also one word not ending
    in a colon) that the transport's failure did not speak outside the URL and the
    addresses it carries; it asks for no wait longer than a day, and reports an error
    only when there was no response. *)
Theorem outcomes_safe {W} (answers : answering sink_io W) k destination request w tr o w' :
  exec answers (Deliver k destination request) w tr (Ret o) w' ->
  outcome_safe k destination o /\ error_safe k destination (failures_of tr) o.
Proof.
  intros He. split.
  - destruct (exec_follow answers (anything (W := unit)) _ _ _ _ _ tt He) as [[] He']; [by intros; exists tt|].
    exact (wp_result _ _ _ _ _ _ _ _ He' (wp_Deliver k destination request)).
  - apply (exec_ghost _ failed_step _ _ _ _ _ []) in He.
    exact (wp_result _ _ _ _ _ _ _ _ He (wp_errors k destination request)).
Qed.
End deliver.

(** *** Webhook signatures *)

Section signatures.
Context {HStd : Std} {HNet : Net}.

Definition header (r : HTTPRequest) (name : string) : string :=
  match List.find (fun h => String.eqb h.1 name) (http_Header r) with Some h => h.2 | None => EmptyString end.

(** What a receiver that holds [secret] checks: one of the signatures is the HMAC of the
    timestamp, a dot and the raw body it received. *)
Definition expected (secret timestamp : string) (body : list Z) : string :=
  "v1=" +:+ hex.EncodeToString (hmac.Sum (bytes secret) (bytes timestamp ++ bytes "." ++ body)).
Definition verify (secret : string) (r : HTTPRequest) : bool :=
  existsb (String.eqb (expected secret (header r headerTimestamp) (http_Body r))) (split_commas (header r headerSignature)).

Definition clock_step (now : Z) (e : event sink_io) : Z := match e with Event Now t => t | _ => now end.
Definition clock_of (tr : list (event sink_io)) : Z := fold_left clock_step tr 0.

(** Midnight of 1970-01-01, 719162 days after 0001-01-01. *)
Definition unix_epoch : Z := 719162 * 24 * Hour.
Example unix_epoch_reads : FormatRFC3339 unix_epoch = "1970-01-01T00:00:00Z"%string.
Proof. by vm_compute. Qed.

(** The rotation overlap at an instant: the destination still has a previous secret, and
    the expiry in its configuration is a time after the instant. *)
Definition overlap_open (destination : registry.ResolvedDestination) (now : Z) : Prop :=
  secret_of destination "signing_secret_previous" <> EmptyString /\
  exists expiry, rfc3339_Parse (default EmptyString (registry.Resolved_Config destination !! "previous_secret_expires_at"%string)) =
    Some expiry /\ now < expiry.

Definition posted (destination : registry.ResolvedDestination) (request : sink.Request) (now : Z) (c : op sink_io) : Prop :=
  match c with
  | Now => True
  | Do r =>
    let stamp := header r headerTimestamp in
    let signed name := expected (secret_of destination name) stamp (http_Body r) in
    http_URL r = secret_of destination "url" /\ webhookBody request = Some (http_Body r) /\
    stamp = pretty ((now - unix_epoch) / Second) /\
    header r headerMessageID = sink.Request_MessageID request /\
    verify (secret_of destination "signing_secret") r = true /\
    (overlap_open destination now -> verify (secret_of destination "signing_secret_previous") r = true) /\
    (overlap_open destination now /\
       split_commas (header r headerSignature) = [signed "signing_secret"; signed "signing_secret_previous"]%string \/
     ~ overlap_open destination now /\ split_commas (header r headerSignature) = [signed "signing_secret"%string])
  end.

Lemma previousSecretActive_open destination now : previousSecretActive destination now = true <-> overlap_open destination now.
Proof.
  unfold previousSecretActive, overlap_open. change (default EmptyString (registry.Resolved_Secrets destination !! _))
    with (secret_of destination "signing_secret_previous").
  destruct (String.eqb_spec (secret_of destination "signing_secret_previous") EmptyString) as [He|Hne].
  { split; [done|]. by intros [Hne _]. }
  destruct (rfc3339_Parse _) as [expiry|]; [rewrite Z.ltb_lt|]; split; try done.
  - intros Hlt. split; [done|]. by exists expiry.
  - by intros (_ & e & [= ->] & Hlt).
  - by intros (_ & e & He & _).
Qed.

Lemma Unix_epoch now : Unix now = (now - unix_epoch) / Second.
Proof.
  unfold Unix. assert (unix_epoch = unixToInternal * Second) as -> by by vm_compute.
  replace (now - unixToInternal * Second) with (now + (- unixToInternal) * Second) by ring.
  rewrite Z.div_add by done. lia.
Qed.

Lemma wp_posted destination request :
  wp (posted destination request) (follow clock_step) (webhook_Deliver destination request) 0 (fun _ _ => True).
Proof.
  unfold webhook_Deliver. cbv zeta. apply wp_bind, wp_call; [done|]. intros now g ->. cbn [clock_step].
  destruct (_ || _); [done|]. destruct (_ || _); [done|]. destruct (webhookBody request) as [body|] eqn:Ebody; [|done].
  destruct (net_Parse _); [|done]. apply wp_bind, wp_call; [|done]. rewrite Unix_epoch.
  set (current := sign (secret_of destination "signing_secret") (pretty ((now - unix_epoch) / Second)) body).
  set (others := if previousSecretActive destination now then _ else _).
  assert (Hsplit : split_commas (String.concat "," (current :: others)) = current :: others).
  { apply split_concat; [done|]. constructor; [apply sign_token|]. unfold others. case_match; [|done].
    constructor; [apply sign_token|done]. }
  unfold posted, verify. cbv zeta. cbn [http_URL http_Body].
  change (header _ headerSignature) with (String.concat "," (current :: others)).
  rewrite Hsplit. change expected with sign. rewrite <- previousSecretActive_open. split_and!; [done..| | |].
  - cbn [existsb]. apply orb_true_iff. left. apply String.eqb_refl.
  - intros Hactive. unfold others. rewrite Hactive. cbn [existsb]. rewrite !orb_true_iff. right; left. apply String.eqb_refl.
  - unfold others. destruct (previousSecretActive destination now); [by left|by right].
Qed.

(** C37: whatever the network answers, a webhook posts the body of its message to the
    configured URL, stamped with the Unix time in seconds, and a receiver that holds the
    signing secret verifies it, as does one that still holds the previous secret while
    the rotation overlap is open at the time read (a previous secret is configured and
    its expiry lies ahead); no other signature is sent. *)
Theorem webhook_verifies {W} (answers : answering sink_io W) destination request w tr p' w' :
  exec answers (webhook_Deliver destination request) w tr p' w' ->
  forall before e after, tr = before ++ e :: after -> posted destination request (clock_of before) (called e).
Proof.
  intros He before e after ->. apply exec_app in He as (p1 & w1 & He & Hnext).
  apply (exec_ghost _ clock_step _ _ _ _ _ 0) in He.
  pose proof (wp_exec _ _ _ _ _ _ _ _ He (wp_posted destination request)) as Hwp. inversion Hnext; subst. exact (proj1 Hwp).
Qed.
End signatures.

(** A secret the size cap cuts is not found: all of it but its last byte is stored. *)
Example cut_secret_survives :
  let body := replicate 1012 120 ++ bytes "whsec_current" in
  Contains (redactSnippet (client.ReadSnippet body) ["whsec_current"%string]) "whsec_curren" = true.
Proof. by vm_compute. Qed.

(** ** A receiver that echoes the URL it was sent *)

Definition demo_net : Net := {|
  net_Parse s := if HasPrefix s "https://" then
    Some {| url_RequestURI := "/hook"; url_RawQuery := EmptyString; url_Path := "/hook"; url_Host := "example.org";
            url_Hostname := "example.org"; url_User := None; url_wait := s +:+ "?wait=true"; url_wait_RequestURI := "/hook?wait=true" |}%string
    else None;
  mask_host text _ _ := text;
  http_ParseTime _ := None;
  QEncoding_Encode value := if breaks value then value else "=?utf-8?q??="%string;
  ParseFloat _ := Some float64.one
|}.

Lemma demo_net_laws : @NetLaws demo_net.
Proof.
  split.
  - by intros text hostname n _ _ H.
  - intros value H. unfold QEncoding_Encode, demo_net. rewrite H. by vm_compute.
  - intros literal x [= <-]. by vm_compute.
Qed.

(** Reads one time more than [toy_std]. *)
Definition demo_std : Std := {|
  url_Parse := @url_Parse toy_std; strings_ToLower := @strings_ToLower toy_std;
  netip_ParseAddr_ok := @netip_ParseAddr_ok toy_std; rfc3339_Format := FormatRFC3339;
  rfc3339_Parse text := if String.eqb text "2026-03-02T00:00:00Z" then Some (unix_epoch + 1772409600 * Second) else None;
  json_marshal_map := @json_marshal_map toy_std; json_unmarshal_map := @json_unmarshal_map toy_std
|}.

(** 2026-03-01, as [date -u -d 2026-03-01 +%s] reads it. *)
Definition demo_now : Z := unix_epoch + 1772323200 * Second + 7.
Example demo_now_reads : FormatRFC3339 demo_now = "2026-03-01T00:00:00Z"%string.
Proof. by vm_compute. Qed.

Definition demo_handler (u : unit) (c : sink_op) : sink_reply c * unit :=
  match c return sink_reply c * unit with
  | Now => (demo_now, tt)
  | Do r => (inl {| http_StatusCode := 503; http_RetryAfter := "99999999999999999999"%string; http_ResponseBody := bytes ("no " +:+ http_URL r) |}, tt)
  end.

Definition demo_destination : registry.ResolvedDestination :=
  {| registry.Resolved_ID := 1; registry.Resolved_Name := "ops"; registry.Resolved_Type := "webhook";
     registry.Resolved_Config := {["previous_secret_expires_at" := "2026-03-02T00:00:00Z"]};
     registry.Resolved_Secrets := {["url" := "https://example.org/hook"; "signing_secret" := "whsec_current"; "signing_secret_previous" := "whsec_before"]}
  |}%string.

Definition demo_request : sink.Request :=
  {| sink.Request_MessageID := "m-1"; sink.Request_CreatedAt := 63902822400 * Second + 5000;
     sink.Request_Envelope :=
       {| AppID := "billing"; Channel := "due"; IdempotencyKey := "k-1"; ToDestination := EmptyString; ToRecipient := EmptyString;
          DeliverAt := None; Critical := false; Payload := "[ 1 ]"; Display_ := None; Hold := false |} |}%string.
#[local] Existing Instance demo_net.
#[local] Existing Instance demo_std.

Definition demo_deliver := run (I := sink_io) demo_handler (Deliver Webhook demo_destination demo_request) tt.

Lemma demo_exec : exec (anything (W := unit)) (Deliver Webhook demo_destination demo_request) tt
  demo_deliver.1.1 (Ret demo_deliver.1.2) demo_deliver.2.
Proof. by apply run_exec. Qed.

(** Two calls are made: the clock and one post. *)
Lemma requests_clean_witness :
  length demo_deliver.1.1 = 2%nat /\
  Forall (fun e : event sink_io => request_clean Webhook demo_destination demo_request (called e)) demo_deliver.1.1.
Proof.
  split; [by vm_compute|].
  exact (requests_clean (Hlaws := demo_net_laws) anything Webhook demo_destination demo_request tt _ _ _ demo_exec).
Defined.

(** A network that refuses the connection, with the URL and the address in its error. *)
Definition demo_failure : client.failure :=
  client.URLError "Post https://example.org/hook: dial tcp 10.0.0.7:443: connection refused"
    (client.OpError "dial" "tcp" (Some (client.Plain (errors_New "connection refused"))) "dial tcp 10.0.0.7:443: connection refused").
Definition demo_refused (u : unit) (c : sink_op) : sink_reply c * unit :=
  match c return sink_reply c * unit with Now => (demo_now, tt) | Do r => (inr demo_failure, tt) end.
Definition demo_fail := run (I := sink_io) demo_refused (Deliver Webhook demo_destination demo_request) tt.

Lemma demo_fail_exec : exec (anything (W := unit)) (Deliver Webhook demo_destination demo_request) tt
  demo_fail.1.1 (Ret demo_fail.1.2) demo_fail.2.
Proof. by apply run_exec. Qed.

(** The URL echoed is gone from the snippet and the wait asked for is cut to a day; the
    error of a refused connection names neither the URL nor the address. *)
Lemma outcomes_safe_witness :
  sink.ResponseSnippet demo_deliver.1.2 = "no [redacted]"%string /\ sink.RetryAfter demo_deliver.1.2 = Some maxRetryAfter /\
  outcome_safe Webhook demo_destination demo_deliver.1.2 /\
  Error <$> sink.Err demo_fail.1.2 = Some "webhook request failed: dial tcp: connection refused"%string /\
  error_safe Webhook demo_destination (failures_of demo_fail.1.1) demo_fail.1.2.
Proof.
  split; [by vm_compute|]. split; [by vm_compute|]. split.
  - exact (proj1 (outcomes_safe (Hlaws := demo_net_laws) anything Webhook demo_destination demo_request tt _ _ _ demo_exec)).
  - split; [by vm_compute|].
    exact (proj2 (outcomes_safe (Hlaws := demo_net_laws) anything Webhook demo_destination demo_request tt _ _ _ demo_fail_exec)).
Defined.

(** The overlap is open at the clock's answer: the post is stamped with the Unix time and
    verifies under both secrets. *)
Lemma webhook_verifies_witness :
  length demo_deliver.1.1 = 2%nat /\ overlap_open demo_destination demo_now /\
  (exists r, called <$> demo_deliver.1.1 !! 1%nat = Some (Do r : op sink_io) /\ header r headerTimestamp = "1772323200"%string) /\
  forall before e after, demo_deliver.1.1 = before ++ e :: after ->
    posted demo_destination demo_request (clock_of before) (called e).
Proof.
  split; [by vm_compute|]. split; [by apply previousSecretActive_open; vm_compute|].
  split; [vm_compute; by eexists|].
  exact (webhook_verifies anything demo_destination demo_request tt _ _ _ demo_exec).
Defined.
End sink_props.
