(* ===== verification/Migrate.v ===== *)
(** * Migrate

    Package migrate: loading numbered migrations (load.go), applying the pending ones
    (run.go, a program over the store), the Postgres store's lock and statements
    (pgstore.go) and the schema state readiness reports (status.go).  Whatever the store
    answers, a run changes nothing without the lock and never keeps it ([run_guarded]);
    over the tables it applies a prefix of the pending migrations, each once, all of
    them when it succeeds ([run_exact]). *)

From S2P Require Import Prelude Prog GoText Utf8 GoFormat Std Sha256 Guard Registry Message MessageStore Json JsonEncode Float64 MessageValidate HeartbeatSeal Dispatch Sinks.
Open Scope Z_scope.

Module migrate.

(** ** load.go *)

Record Migration := { Version : Z; Name : string; SQL : string }.

(** [^(\d{4})_([a-z0-9_]+)\.sql$]: the version digits and the name *)
Definition migrationFileName (fileName : string) : option (list ascii * string) :=
  match fileName with
  | String a (String b (String c (String d (String "_" rest)))) =>
    match cut_suffix rest ".sql" with
    | Some name =>
      if forallb is_digit [a; b; c; d] && (1 <=? len name) && all_chars is_slug_char name then Some ([a; b; c; d], name) else None
    | None => None
    end
  | _ => None
  end.

(** [strconv.Atoi] of digits *)
Definition digits_value (ds : list ascii) : Z := fold_left (fun n d => 10 * n + (byte_val d - 48)) ds 0.

Definition sqlSuffix : string := ".sql".

(** An entry of the directory, and what reading it gives. *)
Record DirEntry := { entry_Name : string; IsDir : bool; contents : result string }.

Section load.
(** [strconv.Quote], what %q prints *)
Variable Quote : string -> string.

Fixpoint load_entries (entries : list DirEntry) (seenVersions : gmap Z string) : result (list Migration) :=
  match entries with
  | [] => Ok []
  | entry :: entries =>
    let fileName := entry_Name entry in
    if IsDir entry || negb (HasSuffix fileName sqlSuffix) then load_entries entries seenVersions
    else match migrationFileName fileName with
    | None => Err (errors_New ("migration " +:+ Quote fileName +:+ ": name must match ^(\d{4})_([a-z0-9_]+)\.sql$"))
    | Some (digits, name) =>
      let version := digits_value digits in
      match seenVersions !! version with
      | Some previous =>
        Err (errors_New ("migration " +:+ Quote fileName +:+ ": version " +:+ pretty version +:+ " already used by " +:+ Quote previous))
      | None =>
        match contents entry with
        | Err fileErr => Err (Wrap ("read migration " +:+ Quote fileName +:+ ": " +:+ Error fileErr) [fileErr])
        | Ok sql =>
          migrations ← load_entries entries (<[version := fileName]> seenVersions);
          Ok ({| Version := version; Name := name; SQL := sql |} :: migrations)
        end
      end
    end
  end.

(** [fs.ReadDir] returns the entries sorted by file name. *)
Definition Load (readDir : result (list DirEntry)) : result (list Migration) :=
  match readDir with
  | Err readErr => Err (Wrap ("read migrations: " +:+ Error readErr) [readErr])
  | Ok entries => load_entries entries ∅
  end.
End load.

Definition ExpectedVersion (migrations : list Migration) : Z :=
  fold_left (fun highest migration => if highest <? Version migration then Version migration else highest) migrations 0.

(** ** run.go *)

Inductive store_op :=
  | Lock
  | Unlock
  | EnsureTables
  | AppliedVersions
  | Apply (migration : Migration)
  | ctx_Err
  | RecordFailure (version : Z) (message : string).
Definition store_reply (c : store_op) : Type :=
  match c with
  | Lock | Unlock | EnsureTables | Apply _ | ctx_Err | RecordFailure _ _ => option error
  | AppliedVersions => result (gset Z)
  end.
Definition store_io : interface := {| op := store_op; reply := store_reply |}.
Abbreviation program A := (prog store_io A).
Definition ask (c : store_op) : program (store_reply c) := @call store_io c.

(** The migrations in order, from the number applied so far. *)
Fixpoint apply_pending (migrations : list Migration) (applied : gset Z) (appliedCount : Z) : program (Z * option error) :=
  match migrations with
  | [] => Ret (appliedCount, None)
  | migration :: migrations =>
    if bool_decide (Version migration ∈ applied) then apply_pending migrations applied appliedCount
    else
      failed ← (ask (Apply migration) : program (option error));
      match failed with
      | None => apply_pending migrations applied (appliedCount + 1)
      | Some applyErr =>
        cancelled ← (ask ctx_Err : program (option error));
        _ ← match cancelled with
            | None => ask (RecordFailure (Version migration) (Error applyErr))
            | Some _ => Ret None
            end;
        Ret (appliedCount, Some (Wrap ("apply migration " +:+ pad 4 (Version migration) +:+ "_" +:+ Name migration +:+ ": " +:+ Error applyErr) [applyErr]))
      end
  end.

Definition run_locked (migrations : list Migration) : program (Z * option error) :=
  ensured ← (ask EnsureTables : program (option error));
  match ensured with
  | Some ensureErr => Ret (0, Some (Wrap ("ensure migration tables: " +:+ Error ensureErr) [ensureErr]))
  | None =>
    applied ← (ask AppliedVersions : program (result (gset Z)));
    match applied with
    | Err appliedErr => Ret (0, Some (Wrap ("read applied migrations: " +:+ Error appliedErr) [appliedErr]))
    | Ok applied => apply_pending migrations applied 0
    end
  end.

Definition Run (migrations : list Migration) : program (Z * option error) :=
  locked ← (ask Lock : program (option error));
  match locked with
  | Some lockErr => Ret (0, Some (Wrap ("acquire migration lock: " +:+ Error lockErr) [lockErr]))
  | None => r ← run_locked migrations; _ ← ask Unlock; Ret r
  end.

(** ** pgstore.go: the lock

    A session-level advisory lock on one connection, polled for. *)

Definition defaultLockTimeout : Z := 60 * Second.
Definition lockPollInterval : Z := 250 * Millisecond.
Definition maxRecordedFailureRunes : nat := 500.
Definition errLockTimeout : error := Sentinel "timed out waiting for the migration advisory lock".

Inductive conn_op := Acquire | Release | Close | Now | pg_try_advisory_lock | pg_advisory_unlock | Wait.
(** [Wait] answers the context's error, or [None] once the poll interval has passed. *)
Definition conn_reply (c : conn_op) : Type :=
  match c with
  | Acquire | pg_advisory_unlock | Wait => option error
  | Release | Close => unit
  | Now => Z
  | pg_try_advisory_lock => result bool
  end.
Definition connection : interface := {| op := conn_op; reply := conn_reply |}.
Definition on_conn (c : conn_op) : prog connection (conn_reply c) := @call connection c.

(** The polling loop; [None] is out of fuel. *)
Fixpoint poll (fuel : nat) (lockTimeout deadline : Z) : prog connection (option (option error)) :=
  match fuel with
  | O => Ret None
  | S fuel =>
    locked ← (on_conn pg_try_advisory_lock : prog connection (result bool));
    match locked with
    | Err lockErr => _ ← on_conn Release; Ret (Some (Some (Wrap ("pg_try_advisory_lock: " +:+ Error lockErr) [lockErr])))
    | Ok true => Ret (Some None)
    | Ok false =>
      now ← (on_conn Now : prog connection Z);
      if negb (now <? deadline)
      then _ ← on_conn Release; Ret (Some (Some (Wrap (Error errLockTimeout +:+ " after " +:+ duration_seconds (lockTimeout / Second)) [errLockTimeout])))
      else
        done ← (on_conn Wait : prog connection (option error));
        match done with
        | Some ctxErr => _ ← on_conn Release; Ret (Some (Some (Wrap ("wait for migration advisory lock: " +:+ Error ctxErr) [ctxErr])))
        | None => poll fuel lockTimeout deadline
        end
    end
  end.

(** [lockTimeout] is a field of the store, [defaultLockTimeout] outside tests: a whole
    number of seconds, as its printing here supposes. *)

(** Polls for as long as the timeout allows, and one more. *)
Definition poll_fuel (lockTimeout : Z) : nat := (Z.to_nat (lockTimeout / lockPollInterval) + 2)%nat.

Definition PGStore_Lock (lockTimeout : Z) : prog connection (option (option error)) :=
  acquired ← (on_conn Acquire : prog connection (option error));
  match acquired with
  | Some acquireErr => Ret (Some (Some (Wrap ("acquire connection: " +:+ Error acquireErr) [acquireErr])))
  | None => now ← (on_conn Now : prog connection Z); poll (poll_fuel lockTimeout) lockTimeout (time.Add now lockTimeout)
  end.

Definition PGStore_unlock : prog connection (option error) :=
  unlocked ← (on_conn pg_advisory_unlock : prog connection (option error));
  match unlocked with
  | Some unlockErr => _ ← on_conn Close; Ret (Some (Wrap ("pg_advisory_unlock: " +:+ Error unlockErr) [unlockErr]))
  | None => _ ← on_conn Release; Ret None
  end.

(** ** pgstore.go: the statements

    The database: what the migrations change, and the two bookkeeping tables, which may
    not exist. *)

Record database (D : Type) := {
  data : D; schema_migrations : option (gmap Z string); schema_migration_failures : option (list (Z * string))
}.
#[global] Arguments data {D} _.
#[global] Arguments schema_migrations {D} _.
#[global] Arguments schema_migration_failures {D} _.

Section statements.
Context {D : Type}.

(** What a migration's SQL does to the database, or [None] when it fails. *)
Variable execute : string -> D -> option D.

Definition create_tables (db : database D) : database D :=
  {| data := data db; schema_migrations := Some (default ∅ (schema_migrations db));
     schema_migration_failures := Some (default [] (schema_migration_failures db)) |}.

Definition select_versions (db : database D) : option (gset Z) := dom <$> schema_migrations db.

(** The transaction: the SQL, then the row, whose version is a primary key. *)
Definition apply_tx (migration : Migration) (db : database D) : option (database D) :=
  d ← execute (SQL migration) (data db);
  versions ← schema_migrations db;
  if bool_decide (is_Some (versions !! Version migration)) then None
  else Some {| data := d; schema_migrations := Some (<[Version migration := Name migration]> versions);
               schema_migration_failures := schema_migration_failures db |}.

(** Cut to the limit, without a marker. *)
Definition truncateRunes (text : string) (limit : nat) : string :=
  if (length (sinks.runes text) <=? limit)%nat then text else of_bytes (encode (take limit (sinks.runes text))).

Definition insert_failure (version : Z) (message : string) (db : database D) : option (database D) :=
  failures ← schema_migration_failures db;
  Some {| data := data db; schema_migrations := schema_migrations db;
          schema_migration_failures := Some (failures ++ [(version, truncateRunes message maxRecordedFailureRunes)]) |}.

(** ** status.go: the highest version, and the newest failure above it *)

Definition Status (db : database D) : Z * option (Z * string) :=
  match schema_migrations db with
  | None => (0, None)
  | Some versions =>
    let SchemaVersion := map_fold (fun v _ highest => Z.max v highest) 0 versions in
    (SchemaVersion, last (filter (fun failure => SchemaVersion < failure.1) (default [] (schema_migration_failures db))))
  end.
End statements.
End migrate.

Module migrate_props.
Import migrate.

(** ** Under the lock, and up to the first failure *)

(** Whether the lock is held, and whether a migration has failed. *)
Record guard := { held : bool; broken : bool }.
Definition unguarded : guard := {| held := false; broken := false |}.
Definition guard_step (g : guard) (e : event store_io) : guard :=
  match e with
  | Event Lock None => {| held := true; broken := broken g |}
  | Event Unlock _ => {| held := false; broken := broken g |}
  | Event (Apply _) (Some _) => {| held := held g; broken := true |}
  | _ => g
  end.
Definition guard_of (tr : list (event store_io)) : guard := fold_left guard_step tr unguarded.

(** When a run may make each call. *)
Definition allowed (migrations : list Migration) (g : guard) (c : op store_io) : Prop :=
  match c with
  | Lock => held g = false
  | Apply migration => held g = true /\ broken g = false /\ migration ∈ migrations
  | ctx_Err | RecordFailure _ _ => held g = true /\ broken g = true
  | Unlock | EnsureTables | AppliedVersions => held g = true
  end.

Lemma wp_apply_pending all migrations applied n : migrations ⊆ all ->
  wp (allowed all) (follow guard_step) (apply_pending migrations applied n) {| held := true; broken := false |} (fun _ g => held g = true).
Proof.
  revert n. induction migrations as [|migration migrations IH]; intros n Hsub; [done|].
  simpl. case_bool_decide; [apply IH; set_solver|]. split; [split_and!; [done|done|set_solver]|].
  intros [e|] g ->; [|apply IH; set_solver]. split; [done|]. intros [e'|] g ->; [done|]. split; [done|]. by intros r g ->.
Qed.

Lemma wp_Run migrations : wp (allowed migrations) (follow guard_step) (Run migrations) unguarded (fun _ g => held g = false).
Proof.
  unfold Run, run_locked. split; [done|]. intros [e|] g ->; [done|]. apply wp_bind. split; [done|].
  intros [e|] g ->; [split; [done|]; by intros r g ->|]. split; [done|].
  intros [applied|e] g ->; [|split; [done|]; by intros r g ->].
  eapply wp_mono; [|by apply wp_apply_pending]. intros r g Hg. split; [done|]. by intros u g' ->.
Qed.

(** Whatever the store answers, a run, complete or cut short, touches the database only
    under the migration lock, applies nothing after a migration has failed, and once it
    returns no longer holds the lock. *)
Theorem run_guarded {W} (answers : answering store_io W) migrations w tr p' w' :
  exec answers (Run migrations) w tr p' w' ->
  (forall before e after, tr = before ++ e :: after -> allowed migrations (guard_of before) (called e)) /\
  (forall r, p' = Ret r -> held (guard_of tr) = false).
Proof.
  intros He. split.
  - intros before e after ->. apply exec_app in He as (p1 & w1 & He & Hnext).
    apply (exec_ghost _ guard_step _ _ _ _ _ unguarded) in He.
    pose proof (wp_exec _ _ _ _ _ _ _ _ He (wp_Run migrations)) as Hwp. inversion Hnext; subst. exact (proj1 Hwp).
  - intros r ->. apply (exec_ghost _ guard_step _ _ _ _ _ unguarded) in He.
    exact (wp_result _ _ _ _ _ _ _ _ He (wp_Run migrations)).
Qed.

(** ** What a run leaves in the tables

    The lock keeps other migrators away, so only the run writes.  A statement that
    reports an error may have been committed. *)

Section tables.
Context {D : Type} (execute : string -> D -> option D).

Definition storing : answering store_io (database D) := fun db c =>
  match c return store_reply c -> database D -> Prop with
  | EnsureTables => fun r db' =>
    match r with
    | None => db' = create_tables db
    | Some _ => db' = db \/ data db' = data db /\ schema_migrations db' = Some (default ∅ (schema_migrations db))
    end
  | AppliedVersions => fun r db' => db' = db /\ match r with Ok versions => select_versions db = Some versions | Err _ => True end
  | Apply migration => fun r db' =>
    match r with
    | None => apply_tx execute migration db = Some db'
    | Some _ => db' = db \/ apply_tx execute migration db = Some db'
    end
  | RecordFailure version message => fun r db' =>
    match r with
    | None => insert_failure version message db = Some db'
    | Some _ => db' = db \/ insert_failure version message db = Some db'
    end
  | _ => fun _ db' => db' = db
  end.

(** What the migrations have made of the database, and which are recorded. *)
Definition core (db : database D) : D * gmap Z string := (data db, default ∅ (schema_migrations db)).

(** Applying migrations one after another. *)
Definition apply_one (migration : Migration) (c : D * gmap Z string) : option (D * gmap Z string) :=
  d ← execute (SQL migration) c.1;
  if bool_decide (is_Some (c.2 !! Version migration)) then None else Some (d, <[Version migration := Name migration]> c.2).
Fixpoint apply_all (migrations : list Migration) (c : D * gmap Z string) : option (D * gmap Z string) :=
  match migrations with
  | [] => Some c
  | migration :: migrations => c ← apply_one migration c; apply_all migrations c
  end.

Definition pending (migrations : list Migration) (db : database D) : list Migration :=
  filter (fun migration => Version migration ∉ dom (core db).2) migrations.

(** What a run of the migrations [todo] comes to from [c0]: it counts the prefix it
    applied; an error may hide the commit of one more. *)
Definition ran (todo : list Migration) (c0 : D * gmap Z string) (r : Z * option error) (db : database D) : Prop :=
  exists k c, r.1 = Z.of_nat k /\ (k <= length todo)%nat /\ apply_all (take k todo) c0 = Some c /\
    match r.2 with
    | None => k = length todo /\ core db = c
    | Some _ => core db = c \/ apply_all (take (S k) todo) c0 = Some (core db)
    end.

Lemma apply_all_app l k c : apply_all (l ++ k) c = apply_all l c ≫= apply_all k.
Proof. revert c. induction l as [|m l IH]; intros c; [done|]. simpl. destruct (apply_one m c); [apply IH|done]. Qed.

Lemma apply_tx_core migration db db' : apply_tx execute migration db = Some db' -> apply_one migration (core db) = Some (core db').
Proof.
  unfold apply_tx, apply_one, core. simpl. destruct (execute _ _) as [d|]; [|done]. simpl.
  destruct (schema_migrations db) as [versions|]; [|done]. simpl. case_bool_decide; [done|]. by intros [= <-].
Qed.

Lemma insert_failure_core version message db db' : insert_failure version message db = Some db' -> core db' = core db.
Proof. unfold insert_failure. destruct (schema_migration_failures db); [|done]. by intros [= <-]. Qed.

Lemma ran_stopped done_ todo c0 db e : apply_all done_ c0 = Some (core db) -> ran (done_ ++ todo) c0 (Z.of_nat (length done_), Some e) db.
Proof. intros H. exists (length done_), (core db). rewrite take_app_length, length_app. split_and!; [done|simpl; lia|done|by left]. Qed.

Lemma ran_pending migrations applied done_ c0 db : apply_all done_ c0 = Some (core db) ->
  wp free (storing) (apply_pending migrations applied (Z.of_nat (length done_))) db
    (ran (done_ ++ filter (fun migration => Version migration ∉ applied) migrations) c0).
Proof.
  revert done_ db. induction migrations as [|migration migrations IH]; intros done_ db H.
  { exists (length done_), (core db). rewrite filter_nil, app_nil_r, firstn_all. by split_and!. }
  rewrite filter_cons. simpl. case_bool_decide as Happlied.
  { rewrite decide_False by tauto. by apply IH. }
  rewrite decide_True by done. split; [done|]. intros [e|] db' Ha; simpl in Ha.
  - assert (Hstop : forall db2, core db2 = core db' ->
      ran (done_ ++ migration :: filter (fun m => Version m ∉ applied) migrations) c0
        (Z.of_nat (length done_), Some (Wrap ("apply migration " +:+ pad 4 (Version migration) +:+ "_" +:+ Name migration +:+ ": " +:+ Error e) [e])) db2).
    { intros db2 Hcore. exists (length done_), (core db). rewrite take_app_length, length_app. split_and!; [done|simpl; lia|done|].
      cbn [snd]. rewrite Hcore. destruct Ha as [->|Ha]; [by left|right].
      rewrite take_app_ge by lia. replace (S (length done_) - length done_)%nat with 1%nat by lia.
      rewrite apply_all_app, H. simpl. by rewrite (apply_tx_core _ _ _ Ha). }
    split; [done|]. intros [cancelled|] db2 ->; [by apply Hstop|]. split; [done|]. intros r db3 Hr. apply Hstop.
    destruct r; simpl in Hr; [destruct Hr as [->|Hr]; [done|]|]; by apply insert_failure_core in Hr.
  - replace (Z.of_nat (length done_) + 1) with (Z.of_nat (length (done_ ++ [migration]))) by (rewrite length_app; simpl; lia).
    match goal with |- context [ran (done_ ++ migration :: ?rest)] => change (migration :: rest) with ([migration] ++ rest) end.
    rewrite (app_assoc done_). apply IH. rewrite apply_all_app, H. simpl. by rewrite (apply_tx_core _ _ _ Ha).
Qed.

(** C40: a run applies a prefix of the pending migrations in order, each once, and returns
    how many; all of them when it succeeds.  When it fails the database is what that
    prefix made of it, or the prefix and the one migration whose commit was in doubt. *)
Theorem run_exact migrations db tr r db' :
  exec storing (Run migrations) db tr (Ret r) db' -> ran (pending migrations db) (core db) r db'.
Proof.
  intros He. refine (wp_result free _ _ _ _ _ _ (fun r db' => ran (pending migrations db) (core db) r db') He _).
  assert (Hfail : forall e db', core db' = core db -> ran (pending migrations db) (core db) (0, Some e) db').
  { intros e db1 Hcore. apply (ran_stopped [] _ _ _ e). by rewrite Hcore. }
  unfold Run, run_locked. split; [done|]. intros [e|] db1 ->; [by apply Hfail|]. apply wp_bind. split; [done|].
  intros [e|] db2 Hdb2; simpl in Hdb2.
  { split; [done|]. intros u db3 ->. apply Hfail. destruct Hdb2 as [->|[Hd Hs]]; [done|]. unfold core. by rewrite Hd, Hs. }
  subst db2. split; [done|]. intros [applied|e] db3 [-> Hv]; [|split; [done|]; intros u db4 ->; by apply Hfail].
  injection Hv as <-. eapply wp_mono; [|by apply (ran_pending _ _ [] (core db))].
  intros r0 db4 Hran. split; [done|]. by intros u db5 ->.
Qed.
End tables.

(** ** Waiting for the lock

    The clock does not go back, and a wait that is not cut short lasts the interval. *)

Definition ticking : answering connection (Z * bool) := fun s c =>
  match c return conn_reply c -> Z * bool -> Prop with
  | Now => fun now s' => now = s.1 /\ s.1 <= s'.1 /\ s'.2 = s.2
  | Wait => fun done s' => s'.2 = s.2 /\ match done with None => s.1 + lockPollInterval <= s'.1 | Some _ => s.1 <= s'.1 end
  | Acquire => fun r s' => s.1 <= s'.1 /\ s'.2 = match r with None => true | Some _ => s.2 end
  | Release | Close => fun _ s' => s.1 <= s'.1 /\ s'.2 = false
  | _ => fun _ s' => s.1 <= s'.1 /\ s'.2 = s.2
  end.

(** The loop ends, and keeps the connection exactly when it has the lock. *)
Definition waited (r : option (option error)) (s : Z * bool) : Prop :=
  match r with None => False | Some None => s.2 = true | Some (Some _) => s.2 = false end.

Lemma wp_poll fuel lockTimeout deadline s : s.2 = true -> (0 < fuel)%nat ->
  deadline - s.1 <= (Z.of_nat fuel - 1) * lockPollInterval ->
  wp free ticking (poll fuel lockTimeout deadline) s waited.
Proof.
  revert s. induction fuel as [|fuel IH]; intros s Hs Hf Hd; [lia|]. simpl.
  split; [done|]. intros [[]|e] s1 [Ht Hs1]; simpl in *; [by rewrite Hs1| |split; [done|]; by intros u s2 [_ Hs2]].
  split; [done|]. intros now s2 (-> & Ht2 & Hs2). destruct (Z.ltb_spec s1.1 deadline) as [Hlt|_]; simpl.
  2: { split; [done|]. by intros u s3 [_ Hs3]. }
  split; [done|]. intros [e|] s3 [Hs3 Ht3]; [split; [done|]; by intros u s4 [_ Hs4]|].
  assert (Hp : 0 < lockPollInterval) by by vm_compute. apply IH; [congruence| |]; [|nia].
  destruct fuel; [exfalso; nia|lia].
Qed.

(** Waiting for the lock ends within the timeout's polls whatever the database
    answers, with the lock on its connection, or an error and the connection given back. *)
Theorem Lock_ends lockTimeout s tr r s' : 0 <= lockTimeout -> s.2 = false ->
  exec ticking (PGStore_Lock lockTimeout) s tr (Ret r) s' -> waited r s'.
Proof.
  intros Hl Hs He. refine (wp_result free _ _ _ _ _ _ waited He _). unfold PGStore_Lock. split; [done|].
  intros [e|] s1 [Ht1 Hs1]; [simpl; congruence|]. split; [done|]. intros now s2 (-> & Ht2 & Hs2).
  apply wp_poll; [simpl in *; congruence|unfold poll_fuel; lia|]. unfold time.Add, poll_fuel.
  assert (Hp : 0 < lockPollInterval) by by vm_compute.
  pose proof (Z.mul_succ_div_gt lockTimeout lockPollInterval Hp).
  rewrite Nat2Z.inj_add, Z2Nat.id by (apply Z.div_pos; lia). simpl in *. nia.
Qed.

(** ** Loading *)

(** The version a file name gives. *)
Definition file_version (fileName : string) : option Z :=
  match migrationFileName fileName with Some (digits, _) => Some (digits_value digits) | None => None end.

Lemma file_name_shape fileName digits name : migrationFileName fileName = Some (digits, name) ->
  exists a b c d rest, fileName = String a (String b (String c (String d rest))) /\ digits = [a; b; c; d] /\
    Forall (fun x => 48 <= byte_val x <= 57) digits.
Proof.
  unfold migrationFileName. intros H. repeat case_match; simplify_eq.
  do 5 eexists. split; [done|]. split; [done|]. bool_hyps.
  match goal with H : forallb is_digit _ = true |- _ => apply forallb_Forall in H; eapply Forall_impl; [exact H|] end.
  intros x Hx. unfold is_digit, in_range in Hx. bool_hyps. change (byte_val "0") with 48 in *. by change (byte_val "9") with 57 in *.
Qed.

Lemma name_order a b va vb : str_le a b -> file_version a = Some va -> file_version b = Some vb -> va <= vb.
Proof.
  unfold file_version, str_le. intros Hle Ha Hb.
  destruct (migrationFileName a) as [[da na]|] eqn:Ea; [|done]. destruct (migrationFileName b) as [[db nb]|] eqn:Eb; [|done].
  injection Ha as <-. injection Hb as <-.
  apply file_name_shape in Ea as (a1 & a2 & a3 & a4 & ra & -> & -> & Ha). apply file_name_shape in Eb as (b1 & b2 & b3 & b4 & rb & -> & -> & Hb).
  rewrite !Forall_cons in Ha, Hb. destruct_and?. unfold digits_value. simpl in *. repeat case_match; bool_hyps; lia.
Qed.

Section loading.
Context {Quote : string -> string}.

Lemma load_spec entries seenVersions migrations : load_entries Quote entries seenVersions = Ok migrations ->
  Forall (fun m => Version m ∉ dom seenVersions /\ exists e, e ∈ entries /\ file_version (entry_Name e) = Some (Version m) /\ contents e = Ok (SQL m)) migrations /\
  NoDup (Version <$> migrations).
Proof.
  revert seenVersions migrations. induction entries as [|e entries IH]; intros seenVersions migrations H.
  { injection H as <-. split; constructor. }
  simpl in H. assert (Hskip : load_entries Quote entries seenVersions = Ok migrations ->
    Forall (fun m => Version m ∉ dom seenVersions /\ exists e', e' ∈ e :: entries /\ file_version (entry_Name e') = Some (Version m) /\ contents e' = Ok (SQL m)) migrations /\
    NoDup (Version <$> migrations)).
  { intros Hl. apply IH in Hl as [Hm Hnd]. split; [|done]. eapply Forall_impl; [exact Hm|].
    intros m (? & e' & ? & ?). split; [done|]. exists e'. split; [by right|done]. }
  destruct (_ || _); [by apply Hskip|]. destruct (migrationFileName (entry_Name e)) as [[digits name]|] eqn:En; [|done].
  destruct (seenVersions !! digits_value digits) as [previous|] eqn:Eseen; [done|].
  destruct (contents e) as [sql|] eqn:Ec; [|done].
  destruct (load_entries Quote entries _) as [rest|] eqn:El; [|done]. injection H as <-. apply IH in El as [Hm Hnd]. split.
  - constructor.
    + split; [by apply not_elem_of_dom|]. exists e. split; [by left|]. unfold file_version. by rewrite En.
    + eapply Forall_impl; [exact Hm|]. intros m (Hv & e' & ? & ?). rewrite dom_insert in Hv. split; [set_solver|].
      exists e'. split; [by right|done].
  - csimpl. constructor; [|done]. intros (m & Heq & Hin)%list_elem_of_fmap. rewrite Forall_forall in Hm.
    destruct (Hm m Hin) as [Hv _]. rewrite dom_insert in Hv. apply Hv. rewrite <- Heq. set_solver.
Qed.

Lemma load_sorted entries : forall seenVersions migrations, StronglySorted str_le (entry_Name <$> entries) ->
  load_entries Quote entries seenVersions = Ok migrations -> StronglySorted Z.le (Version <$> migrations).
Proof.
  induction entries as [|e entries IH]; intros seenVersions migrations Hs H; [injection H as <-; constructor|].
  csimpl in Hs. inversion Hs as [|? ? Hs' Hall]; subst. simpl in H. destruct (_ || _); [by eapply IH|].
  destruct (migrationFileName (entry_Name e)) as [[digits name]|] eqn:En; [|done].
  destruct (seenVersions !! digits_value digits) as [previous|]; [done|]. destruct (contents e) as [sql|]; [|done].
  destruct (load_entries Quote entries _) as [rest|] eqn:El; [|done]. injection H as <-. csimpl. constructor; [by eapply IH|].
  apply load_spec in El as [Hm _]. apply Forall_fmap. eapply Forall_impl; [exact Hm|].
  intros m (_ & e' & Hin & Hv & _). simpl. eapply (name_order (entry_Name e) (entry_Name e')); [| |exact Hv].
  - rewrite Forall_forall in Hall. apply Hall. by apply list_elem_of_fmap_2.
  - unfold file_version. by rewrite En.
Qed.

(** What a directory loads to is in the order of strictly increasing versions, each
    migration holding the text of a file that names its version; two files of one
    version, or a name of another shape, fail the load. *)
Theorem Load_ordered entries migrations :
  StronglySorted str_le (entry_Name <$> entries) -> Load Quote (Ok entries) = Ok migrations ->
  StronglySorted Z.lt (Version <$> migrations) /\
  Forall (fun m => exists e, e ∈ entries /\ file_version (entry_Name e) = Some (Version m) /\ contents e = Ok (SQL m)) migrations.
Proof.
  intros Hs H. pose proof (load_sorted _ _ _ Hs H) as Hle. destruct (load_spec _ _ _ H) as [Hm Hnd]. split.
  - clear -Hle Hnd. induction (Version <$> migrations) as [|v vs IH]; [constructor|].
    inversion Hle as [|? ? Hle' Hall]; subst. inversion Hnd as [|? ? Hnotin Hnd']; subst. constructor; [by apply IH|].
    apply Forall_forall. intros v' Hv'. rewrite Forall_forall in Hall. specialize (Hall v' Hv').
    assert (v <> v') by (by intros ->). lia.
  - eapply Forall_impl; [exact Hm|]. by intros m [_ ?].
Qed.

End loading.

(** ** A directory of three migrations, the first applied before, the last broken *)

Definition demo_directory : list DirEntry :=
  [{| entry_Name := "0001_init.sql"; IsDir := false; contents := Ok "a" |};
   {| entry_Name := "0002_add.sql"; IsDir := false; contents := Ok "b" |};
   {| entry_Name := "0003_broken.sql"; IsDir := false; contents := Ok "!" |};
   {| entry_Name := "README.md"; IsDir := false; contents := Ok EmptyString |}]%string.
Definition demo_migrations : list Migration := match Load id (Ok demo_directory) with Ok migrations => migrations | Err _ => [] end.

(** The SQL appends its text, unless it is broken. *)
Definition demo_execute (sql : string) (d : string) : option string := if String.eqb sql "!" then None else Some (d +:+ sql).

Definition demo_db : database string :=
  {| data := "a"; schema_migrations := Some {[1 := "init"]}; schema_migration_failures := None |}%string.

Definition demo_handler (db : database string) (c : store_op) : store_reply c * database string :=
  match c return store_reply c * database string with
  | Lock | Unlock | ctx_Err => (None, db)
  | EnsureTables => (None, create_tables db)
  | AppliedVersions =>
    match select_versions db with Some versions => (Ok versions, db) | None => (Err (errors_New "no table"), db) end
  | Apply migration => match apply_tx demo_execute migration db with Some db' => (None, db') | None => (Some (errors_New "syntax error"), db) end
  | RecordFailure version message => match insert_failure version message db with Some db' => (None, db') | None => (Some (errors_New "no table"), db) end
  end.

Lemma demo_store_storing db c : storing demo_execute db c (demo_handler db c).1 (demo_handler db c).2.
Proof.
  destruct c; try done; simpl.
  - destruct (select_versions db) eqn:E; simpl; by rewrite ?E.
  - destruct (apply_tx _ _ _) eqn:E; simpl; [done|by left].
  - destruct (insert_failure _ _ _) eqn:E; simpl; [done|by left].
Qed.

Definition demo_run := run (I := store_io) demo_handler (Run demo_migrations) demo_db.

(** The second migration is applied, the third fails and is reported. *)
Lemma run_exact_witness :
  demo_run.1.2.1 = 1 /\ data demo_run.2 = "ab"%string /\ Status demo_run.2 = (2, Some (3, "syntax error"%string)) /\
  ran demo_execute (pending demo_migrations demo_db) (core demo_db) demo_run.1.2 demo_run.2.
Proof.
  split; [by vm_compute|]. split; [by vm_compute|]. split; [by vm_compute|].
  exact (run_exact demo_execute demo_migrations demo_db demo_run.1.1 demo_run.1.2 demo_run.2
    (run_exec (storing demo_execute) demo_handler (Run demo_migrations) demo_db demo_store_storing)).
Defined.
End migrate_props.
