(* ===== verification/Http.v ===== *)
(** * Http

    What every endpoint of internal/httpapi is built from: requests and responses, the
    reading of JSON bodies, path ids and the app key's header, the services an endpoint
    calls, the views it answers with, and the mapping of each service's errors to
    responses.  A handler is a program over the services' calls.  Responses hold the
    value that encoding/json encodes; logging is left out. *)

From S2P Require Import Prelude Prog GoText Utf8 GoFormat Std Sha256 Idents Registry Publisher RegistryService Heartbeat Json JsonProps Message MessageValidate HeartbeatSeal Unmarshal HeartbeatService Identity IdentityStore IdentityService MessageStore MessageService.
Open Scope Z_scope.
Import unmarshal.

(** ** provisionclient, appteardown: the data their callers see *)

Module provisionclient.
Definition ErrNotConfigured : error := Sentinel "provisioning-api origin is not configured".
Record Passthrough := { Status : Z; Body : list Z; ContentType : string; RetryAfter : string }.
(** Exactly one of the two is not empty. *)
Record DeprovisionTarget := { Email : string; UserID : string }.
Record TestNotifyRequest := { AppID : string; Recipients : list string; Channel : string; Message : string; Title : string }.
End provisionclient.

Module appteardown.
Definition ErrInvalidAppID : error := Sentinel "invalid app_id".
Definition ErrUpstream : error := Sentinel "provisioning-api teardown failed".
Definition ErrBusy : error := Sentinel "publisher mint already in progress".
Definition ErrUnavailable : error := Sentinel "app teardown unavailable".
Record Deleted := {
  Checks : Z; Routes : Z; Destinations : Z; OrphanedRoutes : Z; OrphanedChecks : Z; HeldMessages : Z
}.
Record Result := { Result_AppID : string; Removed : bool; Unbound : bool; Result_Deleted : Deleted }.
End appteardown.

(** ** Documented behaviour of the standard library

    Whether more bytes could complete the value these begin, and the strict RFC 3339 of
    [time.Time.UnmarshalText]. *)
Class Wire := { Incomplete : list Z -> bool; ParseStrictRFC3339 : list Z -> option Z }.

Module http.

Definition context_Canceled : error := identity_service.ErrCanceled.
Definition context_DeadlineExceeded : error := Sentinel "context deadline exceeded".

(** [errors.As] with a [*ValidationError] target *)
Fixpoint as_validation (err : error) : option string :=
  match err with
  | Sentinel _ => None
  | ValidationError message => Some message
  | Wrap _ inner =>
    (fix first (l : list error) := match l with [] => None | e :: l => match as_validation e with Some m => Some m | None => first l end end) inner
  end.

(** ** Requests

    The body as the client sends it, to its end or to a broken connection; the app id
    the key check leaves in the context, empty without one. *)

Record Body := { sent : list Z; broken : bool }.
Record Request := {
  Authorization : string; PathValue : string -> string; Query : string -> string; body : Body; callerAppID : string
}.

(** ** The views of responses *)

Record deliveryView := {
  dv_ID : Z; dv_Destination : string; dv_State : string; dv_DeadReason : option string; dv_AttemptCount : Z;
  dv_LastStatusCode : option Z; dv_NextAttemptAt : option Z; dv_DeliveredAt : option Z
}.
Record messageView := {
  mv_MessageID : string; mv_AppID : string; mv_Channel : string; mv_IdempotencyKey : string; mv_Critical : bool;
  mv_Status : string; mv_DeliverAt : option Z; mv_CreatedAt : Z; mv_CancelledAt : option Z; mv_Deliveries : list deliveryView
}.
Record adminDeliveryView := {
  av_delivery : deliveryView; av_MessageID : string; av_AppID : string; av_Channel : string; av_DestinationType : string;
  av_CreatedAt : Z; av_UpdatedAt : Z
}.
Record attemptView := {
  at_AttemptNumber : Z; at_Outcome : string; at_StatusCode : option Z; at_LatencyMS : Z; at_Error : option string;
  at_ResponseSnippet : option string; at_StartedAt : Z
}.
Record scheduledMessageView := {
  sv_MessageID : string; sv_AppID : string; sv_Channel : string; sv_IdempotencyKey : string; sv_DeliverAt : Z;
  sv_CreatedAt : Z; sv_Recipient : bool; sv_Destinations : list (string * string)
}.
Record checkProbeView := {
  pv_URL : string; pv_ExpectedStatuses : list Z; pv_BodyMatch : option string; pv_TimeoutSeconds : Z;
  pv_IntervalSeconds : Z; pv_ConsecutiveFailures : Z; pv_FailureThreshold : Z; pv_HasAccessToken : bool;
  pv_LastResult : option (string * option Z * option string)
}.
Record checkView := {
  cv_ID : Z; cv_AppID : string; cv_Name : string; cv_PeriodSeconds : Z; cv_GraceSeconds : Z; cv_Paused : bool;
  cv_State : string; cv_LastPingAt : option string; cv_LastPingKind : option string; cv_DownSince : option string;
  cv_DownReason : option string; cv_DeadlineAt : string; cv_Destinations : list (string * string * bool);
  cv_OwnerKind : string; cv_OwnerAppID : option string; cv_CreatedAt : string; cv_UpdatedAt : string;
  cv_Probe : option checkProbeView
}.
Record identityRequestBody := {
  ir_ID : Z; ir_AppID : string; ir_GitHubRepository : string; ir_GitHubRepositoryID : Z; ir_WorkflowPath : string;
  ir_GitRef : string; ir_Environment : option string; ir_GitHubRunID : string; ir_Status : string;
  ir_CreatedAt : string; ir_UpdatedAt : string
}.
Record identityKeyBody := {
  ik_ID : Z; ik_AppID : string; ik_KeyHint : string; ik_State : string; ik_CreatedAt : string;
  ik_SupersededAt : option string; ik_RevokedAt : option string; ik_RevokedReason : option string; ik_LastUsedAt : option string
}.
Record identityBindingBody := {
  ib_AppID : string; ib_GitHubRepository : string; ib_GitHubRepositoryID : Z; ib_GitHubOwnerID : Z; ib_WorkflowPath : string;
  ib_GitRef : string; ib_Environment : option string; ib_ApprovedAt : string; ib_Keys : list identityKeyBody
}.
Record readinessBody := {
  rb_Status : string; rb_SchemaVersion : Z; rb_ExpectedSchemaVersion : Z;
  rb_LastMigrationFailure : option (Z * string * string); rb_HeartbeatChecker : option string * bool;
  rb_HeartbeatProber : option string * bool
}.

(** ** Responses *)

Inductive response_body :=
  | errorResponseBody (message : string)
  | destinationResponseBody (view : registry.DestinationView)
  | destinationsResponseBody (views : list registry.DestinationView)
  | routeResponseBody (view : registry.RouteView)
  | routesResponseBody (views : list registry.RouteView)
  | deleteDestinationResponseBody (name : string) (deleted : bool)
  | deleteRouteResponseBody (id : Z) (deleted : bool)
  | rotateSecretResponseBody (view : registry.DestinationView) (signingSecret : string)
  | submitResponseBody (message : messageView) (duplicate replaced : bool)
  | messageResponseBody (message : messageView)
  | cancelMessageResponseBody (messageID : string) (cancelled : bool) (status : string)
  | scheduledMessagesResponseBody (messages : list scheduledMessageView) (total : Z)
  | deliveriesResponseBody (deliveries : list adminDeliveryView)
  | deliveryResponseBody (delivery : adminDeliveryView)
  | attemptsResponseBody (attempts : list attemptView)
  | pingResponseBody (appID name state : string)
  | checkResponseBody (check : checkView)
  | checksResponseBody (checks : list checkView)
  | deleteCheckResponseBody (id : Z) (deleted : bool)
  | publisherResponseBody (view : publisher.PublisherView)
  | exchangePendingResponseBody (status : string) (requestID : Z)
  | exchangeIssuedResponseBody (status appID key : string) (keyID : Z)
  | identityRequestsResponseBody (requests : list identityRequestBody)
  | identityRequestResponseBody (request : identityRequestBody)
  | identityBindingResponseBody (binding : identityBindingBody)
  | identityBindingsResponseBody (bindings : list identityBindingBody)
  | identityKeyResponseBody (key : identityKeyBody)
  | unbindResponseBody (appID : string) (deleted : bool)
  | teardownResponseBody (result : appteardown.Result)
  | readinessResponseBody (readiness : readinessBody)
  | unavailableResponseBody (status : string)
  | written (bytes : list Z).

Record Response := { StatusCode : Z; Headers : gmap string string; Content : response_body }.

Definition json_headers : gmap string string := {["Content-Type" := "application/json"]}%string.

Definition writeJSON (statusCode : Z) (content : response_body) : Response :=
  {| StatusCode := statusCode; Headers := json_headers; Content := content |}.
Definition writeError (statusCode : Z) (message : string) : Response := writeJSON statusCode (errorResponseBody message).

(** Headers set before the response is written, which then sets its own. *)
Definition with_headers (headers : gmap string string) (response : Response) : Response :=
  response {{ Headers := Headers response ∪ headers }}.
Definition setSensitiveHeaders : gmap string string :=
  {["Cache-Control" := "no-store"; "X-Content-Type-Options" := "nosniff"]}%string.

(** [math.Ceil(wait.Seconds())], at least 1, exact for a wait of whole seconds *)
Definition setRetryAfter (wait : Z) : gmap string string :=
  {["Retry-After"%string := pretty (Z.max ((wait + Second - 1) / Second) 1)]}.

(** ** Reading the request *)

Definition maxAdminBodyBytes : nat := 64 * 1024.
Definition maxMessageBodyBytes : nat := 256 * 1024.
Definition maxExchangeBodyBytes : nat := 32 * 1024.

Definition errMsgInvalidJSONBody : string := "invalid JSON body".
Definition errMsgBodyTooLarge : string := "request body too large".

Section wire.
Context `{Wire}.

(** An object or array ends by itself; any other value is known to have ended by the byte
    after it, or the end of the body. *)
Definition closed (t : json.tree) : bool := match t with json.JObject _ | json.JArray _ => true | _ => false end.

(** One value, into a struct whose unknown fields are rejected, then the end of the
    body. *)
Definition decodeJSON {S} (fields : list (field S)) (zero : S) (body : Body) (maxBytes : nat) : S + Response :=
  let available := take maxBytes (sent body) in
  let over := bool_decide (maxBytes < length (sent body))%nat in
  let cut := if over then writeError 413 errMsgBodyTooLarge else writeError 400 errMsgInvalidJSONBody in
  match json.parse available with
  | Some (t, rest) =>
    if bool_decide (rest = []) && negb (closed t) && (over || broken body) then inr cut
    else match decode_value true fields available t zero with
    | None => inr (writeError 400 errMsgInvalidJSONBody)
    | Some s =>
      if bool_decide (json.skip_space rest = []) && negb over && negb (broken body) then inl s
      else inr (writeError 400 errMsgInvalidJSONBody)
    end
  | None => inr (if over && Incomplete available then cut else writeError 400 errMsgInvalidJSONBody)
  end.

(** [time.Time.UnmarshalJSON]: a string, its bytes as they are spelled *)
Definition into_time (n : node) (current : Z) : option Z :=
  match value n with
  | json.JNull => Some current
  | json.JString _ => ParseStrictRFC3339 (removelast (tail (raw n)))
  | _ => None
  end.
End wire.

Definition parsePositiveID (request : Request) (errorMessage : string) : Z + Response :=
  let rawID := PathValue request "id" in
  match envint.Atoi rawID with
  | Some id =>
    if (id <? 1) || negb (String.eqb (pretty id) rawID) then inr (writeError 400 errorMessage) else inl id
  | None => inr (writeError 400 errorMessage)
  end.

(** ** The services behind the endpoints *)

Inductive api_op :=
  (* AppIdentity *)
  | ResolveKey (key : string)
  | Identity_Exchange (appID token : string)
  | Identity_ListRequests
  | Identity_ApproveRequest (requestID : Z)
  | Identity_RejectRequest (requestID : Z)
  | Identity_ListBindings
  | Identity_RevokeKey (keyID : Z)
  | Identity_Unbind (appID : string)
  (* Registry *)
  | Registry_CreateDestination (input : registry_service.DestinationInput)
  | Registry_ListDestinations
  | Registry_GetDestination (name : string)
  | Registry_UpdateDestination (name : string) (patch : registry_service.DestinationPatch)
  | Registry_DeleteDestination (name : string)
  | Registry_RotateWebhookSecret (name : string) (overlapHours : Z)
  | Registry_CreateRoute (input : registry_service.RouteInput)
  | Registry_ListRoutes
  | Registry_GetRoute (id : Z)
  | Registry_UpdateRoute (id : Z) (patch : registry_service.RoutePatch)
  | Registry_DeleteRoute (id : Z)
  (* AppRegistry *)
  | App_CreateDestination (appID : string) (input : registry_service.DestinationInput)
  | App_ListDestinations (appID : string)
  | App_GetDestination (appID name : string)
  | App_UpdateDestination (appID name : string) (patch : registry_service.DestinationPatch)
  | App_DeleteDestination (appID name : string)
  | App_RotateWebhookSecret (appID name : string) (overlapHours : Z)
  | App_CreateRoute (appID : string) (input : registry_service.RouteInput)
  | App_ListRoutes (appID : string)
  | App_GetRoute (appID : string) (id : Z)
  | App_UpdateRoute (appID : string) (id : Z) (patch : registry_service.RoutePatch)
  | App_DeleteRoute (appID : string) (id : Z)
  (* AppHeartbeats *)
  | App_CreateCheck (appID : string) (input : heartbeat_service.AppCheckInput)
  | App_ListChecks (appID : string)
  | App_GetCheck (appID : string) (id : Z)
  | App_PatchCheck (appID : string) (id : Z) (patch : heartbeat.CheckPatch)
  | App_DeleteCheck (appID : string) (id : Z)
  | App_PauseCheck (appID : string) (id : Z)
  | App_ResumeCheck (appID : string) (id : Z)
  (* Heartbeats *)
  | Check_Create (check : heartbeat.NewCheck)
  | Check_Get (id : Z)
  | Check_List
  | Check_Patch (id : Z) (patch : heartbeat.CheckPatch)
  | Check_Delete (id : Z)
  | Check_Pause (id : Z)
  | Check_Resume (id : Z)
  | Check_Ping (appID name : string)
  | Check_Fail (appID name : string)
  (* Messages *)
  | Message_Submit (envelope : message.Envelope)
  | Message_Get (appID id : string)
  | Message_GetByKey (appID idempotencyKey : string)
  | Message_Await (appID id : string) (timeout : Z)
  | Message_ListDeliveries (state : string) (limit : Z)
  | Message_ListAttempts (deliveryID : Z)
  | Message_Replay (deliveryID : Z)
  | Message_Cancel (appID id : string)
  | Message_CancelByKey (appID idempotencyKey : string)
  | Message_AdminCancel (id : string)
  | Message_ListScheduled (limit : Z)
  (* Publishers *)
  | Publisher_Mint (appID : string) (rotate : bool)
  | Publisher_MintAsOperator (appID : string) (rotate : bool)
  | Publisher_Get (appID : string)
  | Publisher_Remove (appID : string)
  (* AppProvisioning, ResetLimiter *)
  | Relay_Provision (appID email : string)
  | Relay_Deprovision (appID : string) (target : provisionclient.DeprovisionTarget)
  | Relay_SetPassword (appID email password : string)
  | Relay_ResetPassword (appID email : string)
  | Limiter_Reserve (appID personHash : string)
  (* AdminProvisioning, BindingChecker, AppTeardown *)
  | Admin_Provision (appID email : string)
  | Admin_Deprovision (appID : string) (target : provisionclient.DeprovisionTarget)
  | Admin_ResetPassword (appID email : string)
  | Admin_ListUsers
  | Admin_DeleteUser (userID : string)
  | Admin_TestNotify (request : provisionclient.TestNotifyRequest)
  | Binding_Has (appID : string)
  | Teardown_Deprovision (appID : string)
  (* the clock and the health checks *)
  | Now
  | Health_Readiness
  | Health_Checker
  | Health_Prober
  | Health_Provisioning.

(** [Readiness]: the schema's version, the one expected, and a failed migration's version, error and time *)
Record Readiness := { SchemaVersion : Z; ExpectedSchemaVersion : Z; LastMigrationFailure : option (Z * string * Z) }.

Definition api_reply (c : api_op) : Type :=
  match c with
  | ResolveKey _ => result appidentity.ResolvedKey
  | Identity_Exchange _ _ => result identity_service.ExchangeResult
  | Identity_ListRequests => result (list appidentity.Request)
  | Identity_ApproveRequest _ => result appidentity.Binding
  | Identity_RejectRequest _ => result appidentity.Request
  | Identity_ListBindings => result (list appidentity.BindingWithKeys)
  | Identity_RevokeKey _ => result appidentity.Key
  | Identity_Unbind _ | Binding_Has _ => result bool
  | Registry_CreateDestination _ | Registry_GetDestination _ | Registry_UpdateDestination _ _
  | App_CreateDestination _ _ | App_GetDestination _ _ | App_UpdateDestination _ _ _ => result registry.DestinationView
  | Registry_ListDestinations | App_ListDestinations _ => result (list registry.DestinationView)
  | Registry_DeleteDestination _ | Registry_DeleteRoute _ | Check_Delete _ => result bool
  | Registry_RotateWebhookSecret _ _ | App_RotateWebhookSecret _ _ _ => result (registry.DestinationView * string)
  | Registry_CreateRoute _ | Registry_GetRoute _ | Registry_UpdateRoute _ _
  | App_CreateRoute _ _ | App_GetRoute _ _ | App_UpdateRoute _ _ _ => result registry.RouteView
  | Registry_ListRoutes | App_ListRoutes _ => result (list registry.RouteView)
  | App_DeleteDestination _ _ | App_DeleteRoute _ _ | App_DeleteCheck _ _ => result unit
  | App_CreateCheck _ _ | App_GetCheck _ _ | App_PatchCheck _ _ _ | App_PauseCheck _ _ | App_ResumeCheck _ _
  | Check_Create _ | Check_Get _ | Check_Patch _ _ | Check_Pause _ | Check_Resume _
  | Check_Ping _ _ | Check_Fail _ _ => result heartbeat.StoredCheck
  | App_ListChecks _ | Check_List => result (list heartbeat.StoredCheck)
  | Message_Submit _ => result (message.StoredMessage * message.SubmitOutcome)
  | Message_Get _ _ | Message_GetByKey _ _ => result message.StoredMessage
  (* the last read, whose ID is empty when there is none, and the error if any *)
  | Message_Await _ _ _ => message.StoredMessage * option error
  | Message_ListDeliveries _ _ => result (list message.AdminDelivery)
  | Message_ListAttempts _ => result (list message.Attempt)
  | Message_Replay _ => result message.AdminDelivery
  | Message_Cancel _ _ | Message_CancelByKey _ _ | Message_AdminCancel _ => result message.CancelOutcome
  | Message_ListScheduled _ => result (list message.ScheduledMessage * Z)
  | Publisher_Mint _ _ | Publisher_MintAsOperator _ _ => publisher.PublisherView + publisher.fault
  | Publisher_Get _ => result publisher.PublisherView
  | Publisher_Remove _ => option error
  | Relay_Provision _ _ | Relay_Deprovision _ _ | Relay_SetPassword _ _ _ | Relay_ResetPassword _ _
  | Admin_Provision _ _ | Admin_Deprovision _ _ | Admin_ResetPassword _ _ | Admin_ListUsers | Admin_DeleteUser _
  | Admin_TestNotify _ => result provisionclient.Passthrough
  | Limiter_Reserve _ _ => option (resetlimit.refusal + error)
  | Teardown_Deprovision _ => result appteardown.Result
  | Now => Z
  | Health_Readiness => result Readiness
  | Health_Checker | Health_Prober => option Z * bool
  | Health_Provisioning => option error
  end.
Definition api : interface := {| op := api_op; reply := api_reply |}.
Abbreviation program A := (prog api A).
Definition ask (c : api_op) : program (api_reply c) := @call api c.
Abbreviation handler := (Request -> program Response).

(** Which services the server is configured with. *)
Record Server := {
  has_registry : bool; has_appRegistry : bool; has_appHeartbeats : bool; has_appProvisioning : bool;
  has_resetLimiter : bool; has_adminProvisioning : bool; has_bindingChecker : bool; has_appTeardown : bool;
  has_messages : bool; has_publishers : bool; has_heartbeats : bool; has_appIdentity : bool;
  has_readiness : bool; has_checker : bool; has_prober : bool; has_provisioningHealth : bool
}.

(** ** Error messages *)

Definition errMsgInvalidRouteID : string := "invalid route id".
Definition errMsgRegistryUnavailable : string := "registry unavailable".
Definition errMsgDestinationNotFound : string := "destination does not exist".
Definition errMsgRouteNotFound : string := "route does not exist".
Definition errMsgDestinationExists : string := "destination already exists".
Definition errMsgRouteExists : string := "route already exists".
Definition errMsgDestinationInUse : string := "destination is in use".
Definition errMsgUnknownDestination : string := "unknown destination".
Definition errMsgInternalError : string := "internal error".
Definition errMsgInvalidOverlapHours : string := "invalid overlap_hours".
Definition errMsgRotationUnsupported : string := "destination type does not support rotation".
Definition errMsgConstraintViolation : string := "request violates a data constraint".
Definition errMsgURLCheckUnavailable : string := "destination url check unavailable".

Definition errMsgMessagesUnavailable : string := "messages unavailable".
Definition errMsgInvalidWait : string := "invalid wait".
Definition errMsgInvalidDeliveryID : string := "invalid delivery id".
Definition errMsgAppIDRequired : string := "app_id is required".
Definition errMsgKeyLookupRequired : string := "app_id and idempotency_key are required".
Definition errMsgDestinationDisabled : string := "destination disabled".
Definition errMsgNoDestinationMatched : string := "no destination matched".
Definition errMsgDestinationTypeUnsupported : string := "destination type not yet supported".
Definition errMsgNoPublisher : string := "app has no ntfy publisher".
Definition errMsgMessageNotFound : string := "message not found".
Definition errMsgDeliveryNotFound : string := "delivery not found".
Definition errMsgDeliveryNotDead : string := "delivery not dead".
Definition errMsgTooManyScheduled : string := "too many scheduled messages".
Definition errMsgScheduledCapacityReached : string := "scheduled message capacity reached".
Definition errMsgTooManyHeld : string := "too many held messages".
Definition errMsgHeldCapacityReached : string := "held message capacity reached".

Definition errMsgHeartbeatsUnavailable : string := "heartbeats unavailable".
Definition errMsgInvalidCheckID : string := "invalid check id".
Definition errMsgCheckNotFound : string := "check not found".
Definition errMsgCheckExists : string := "check already exists".
Definition errMsgCheckIdentityImmutable : string := "app_id and name are immutable".
Definition errMsgProbeCheckPing : string := "check is a probe check".
Definition errMsgCheckKindImmutable : string := "check kind is immutable".
Definition errMsgCheckAppIDNotOwn : string := "app_id must be the app's own id".

Definition errMsgPublisherNotFound : string := "publisher not found".
Definition errMsgPublisherMintUnavailable : string := "publisher minting unavailable".
Definition errMsgPublisherMintFailed : string := "provisioning-api mint failed".
Definition errMsgPublisherRateLimited : string := "publisher mint rate limit exceeded".
Definition errMsgPublisherMintBusy : string := "publisher mint already in progress".

Definition errMsgInvalidIdentityToken : string := "invalid identity token".
Definition errMsgBindingMismatch : string := "identity does not match the approved binding".
Definition errMsgTooManyPendingRequests : string := "too many pending identity requests".
Definition errMsgIdentityUnavailable : string := "identity unavailable".
Definition errMsgInvalidRequestID : string := "invalid request id".
Definition errMsgInvalidKeyID : string := "invalid key id".
Definition errMsgRequestNotFound : string := "request does not exist".
Definition errMsgRequestNotPending : string := "request is not pending".
Definition errMsgKeyNotFound : string := "key does not exist".
Definition errMsgAppAlreadyBound : string := "app already bound".
Definition errMsgWorkflowAlreadyBound : string := "workflow identity already bound".
Definition errMsgAppIDOverlap : string := "app id overlaps an approved app id".
Definition errMsgRequestChanged : string := "registration request changed during approval".
Definition errMsgAppRegistryUnavailable : string := "app registry unavailable".
Definition errMsgAppIDReserved : string := "app id is reserved".

Definition errMsgAppKeyRequired : string := "app key required".
Definition errMsgInvalidAppKey : string := "invalid app key".
Definition errMsgAppIDMismatch : string := "app_id does not match app key".

Definition errMsgProvisioningUnavailable : string := "provisioning unavailable".
Definition errMsgProvisioningFailed : string := "provisioning request failed".
Definition errMsgEmailRequired : string := "email required".
Definition errMsgPasswordRequired : string := "password required".
Definition errMsgEmailOrHashRequired : string := "exactly one of email or person_hash required".
Definition errMsgInvalidPersonHash : string := "invalid person_hash".
Definition errMsgResetRateLimited : string := "reset rate limit exceeded".
Definition errMsgResetLimitUnavailable : string := "reset limit unavailable".
Definition errMsgAdminAppNotBound : string := "app has no approved binding".
Definition errMsgAdminBindingCheck : string := "binding check unavailable".
Definition errMsgInvalidAppID : string := "invalid app_id".
Definition errMsgUserIDRequired : string := "user_id required".
Definition errMsgTeardownBusy : string := "publisher mint already in progress, retry".
Definition errMsgTeardownUpstream : string := "provisioning-api teardown failed".
Definition errMsgTeardownUnavailable : string := "app teardown unavailable".
Definition errMsgTeardownConfirm : string := "body app_id must repeat the path app_id".

(** ** What each service's errors are answered with

    The cases of a [switch], in order: a validation error shows its message, a sentinel
    the response beside it, and anything else the last. *)

Definition map_error (cases : list (error * (Z * string))) (otherwise : Z * string) (err : error) : Response :=
  match as_validation err with
  | Some message => writeError 400 message
  | None =>
    match List.find (fun c => errors_Is err c.1) cases with
    | Some (_, (status, message)) => writeError status message
    | None => writeError otherwise.1 otherwise.2
    end
  end.

Definition writeServiceError : error -> Response :=
  map_error
    [(registry.ErrDestinationNotFound, (404, errMsgDestinationNotFound));
     (registry.ErrRotationUnsupported, (422, errMsgRotationUnsupported));
     (registry.ErrRouteNotFound, (404, errMsgRouteNotFound));
     (registry.ErrDestinationExists, (409, errMsgDestinationExists));
     (registry.ErrRouteExists, (409, errMsgRouteExists));
     (registry.ErrDestinationInUse, (409, errMsgDestinationInUse));
     (registry.ErrUnknownDestination, (400, errMsgUnknownDestination));
     (registry.ErrCheckViolation, (400, errMsgConstraintViolation));
     (registry.ErrURLCheckUnavailable, (503, errMsgURLCheckUnavailable))]
    (500, errMsgInternalError).

Definition writeMessageError : error -> Response :=
  map_error
    [(registry.ErrUnknownDestination, (400, errMsgUnknownDestination));
     (registry.ErrDestinationDisabled, (409, errMsgDestinationDisabled));
     (message.ErrNoDestinationMatched, (422, errMsgNoDestinationMatched));
     (message.ErrUnsupportedDestinationType, (422, errMsgDestinationTypeUnsupported));
     (registry.ErrNoPublisher, (422, errMsgNoPublisher));
     (message.ErrMessageNotFound, (404, errMsgMessageNotFound));
     (message.ErrDeliveryNotFound, (404, errMsgDeliveryNotFound));
     (message.ErrDeliveryNotDead, (409, errMsgDeliveryNotDead));
     (message.ErrTooManyScheduled, (429, errMsgTooManyScheduled));
     (message.ErrScheduledCapacityReached, (429, errMsgScheduledCapacityReached));
     (message.ErrTooManyHeld, (429, errMsgTooManyHeld));
     (message.ErrHeldCapacityReached, (429, errMsgHeldCapacityReached));
     (context_Canceled, (500, errMsgInternalError));
     (context_DeadlineExceeded, (500, errMsgInternalError))]
    (500, errMsgInternalError).

Definition writeHeartbeatError : error -> Response :=
  map_error
    [(heartbeat.ErrCheckNotFound, (404, errMsgCheckNotFound));
     (heartbeat.ErrCheckExists, (409, errMsgCheckExists));
     (heartbeat.ErrProbeCheckPing, (409, errMsgProbeCheckPing));
     (registry.ErrUnknownDestination, (400, errMsgUnknownDestination));
     (registry.ErrCheckViolation, (400, errMsgConstraintViolation));
     (context_Canceled, (500, errMsgInternalError));
     (context_DeadlineExceeded, (500, errMsgInternalError))]
    (500, errMsgInternalError).

Definition writePublisherError (err : publisher.fault) : Response :=
  match err with
  | publisher.RateLimitedError retryAfter => with_headers (setRetryAfter retryAfter) (writeError 429 errMsgPublisherRateLimited)
  | publisher.Plain err =>
    map_error
      [(publisher.ErrMintBusy, (409, errMsgPublisherMintBusy));
       (publisher.ErrAppNotBound, (404, errMsgAdminAppNotBound));
       (registry.ErrNoPublisher, (404, errMsgPublisherNotFound));
       (publisher.ErrMintUnavailable, (503, errMsgPublisherMintUnavailable));
       (provisionclient.ErrNotConfigured, (503, errMsgPublisherMintUnavailable))]
      (502, errMsgPublisherMintFailed) err
  end.

Definition writeIdentityError : error -> Response :=
  map_error
    [(appidentity.ErrInvalidToken, (401, errMsgInvalidIdentityToken));
     (appidentity.ErrKeysUnavailable, (503, errMsgIdentityUnavailable));
     (identity_service.ErrBindingMismatch, (403, errMsgBindingMismatch));
     (appidentity.ErrPendingCap, (429, errMsgTooManyPendingRequests));
     (appidentity.ErrRequestNotFound, (404, errMsgRequestNotFound));
     (appidentity.ErrKeyNotFound, (404, errMsgKeyNotFound));
     (appidentity.ErrRequestNotPending, (409, errMsgRequestNotPending));
     (appidentity.ErrAppAlreadyBound, (409, errMsgAppAlreadyBound));
     (appidentity.ErrWorkflowIdentityBound, (409, errMsgWorkflowAlreadyBound));
     (appidentity.ErrAppIDOverlap, (409, errMsgAppIDOverlap));
     (appidentity.ErrRequestChanged, (409, errMsgRequestChanged));
     (appidentity.ErrAppIDReserved, (409, errMsgAppIDReserved));
     (appidentity.ErrAppRegistryUnavailable, (502, errMsgAppRegistryUnavailable));
     (appidentity.ErrAppRegistryNotConfigured, (503, errMsgAppRegistryUnavailable));
     (context_Canceled, (500, errMsgInternalError));
     (context_DeadlineExceeded, (500, errMsgInternalError))]
    (500, errMsgInternalError).

(** ** The app key *)

Definition writeUnauthorized (message : string) : Response :=
  with_headers {["WWW-Authenticate" := "Bearer"]}%string (writeError 401 message).

Definition writeAppKeyError (err : error) : Response :=
  if errors_Is err appidentity.ErrInvalidKey then writeUnauthorized errMsgInvalidAppKey
  else writeError 503 errMsgIdentityUnavailable.

(** [strings.Cut(s, " ")] *)
Fixpoint cut_space (s : string) : option (string * string) :=
  match s with
  | EmptyString => None
  | String c rest =>
    if Ascii.eqb c " "%char then Some (EmptyString, rest)
    else '(before, after) ← cut_space rest; Some (String c before, after)
  end.

(** [strings.EqualFold(scheme, "Bearer")]: nothing beyond ASCII folds to its letters. *)
Definition is_bearer (scheme : string) : bool := bool_decide (lower_byte <$> bytes scheme = bytes "bearer").

(** The key, or [None] where the code gives a reason for the log. *)
Definition bearerAppKey (request : Request) : option string :=
  let header := Authorization request in
  if String.eqb header EmptyString then None
  else match cut_space header with
  | Some (scheme, token) => if is_bearer scheme && appidentity.WellFormedKey token then Some token else None
  | None => None
  end.

(** What a request asserts about its app and the request to go on with, or the response
    that ends it. *)
Abbreviation assertedAppIDReader := (Request -> (string * Request) + Response).
Definition assertedAppIDFromQuery : assertedAppIDReader := fun request => inl (Query request "app_id", request).
Definition assertedAppIDFromPath : assertedAppIDReader := fun request => inl (PathValue request "app_id", request).

Definition asserted_fields : list (field string) := [{| field_name := "app_id"; assign := into_string |}].
Definition assertedAppIDFromBody : assertedAppIDReader := fun request =>
  let b := body request in
  if bool_decide (maxMessageBodyBytes < length (sent b))%nat then inr (writeError 413 errMsgBodyTooLarge)
  else if broken b then inr (writeError 400 errMsgInvalidJSONBody)
  else inl (default EmptyString (Unmarshal asserted_fields (sent b) EmptyString), request).

Definition requireAppKey (server : Server) (readAsserted : assertedAppIDReader) (handle : handler) : handler := fun request =>
  if negb (has_appIdentity server) then Ret (writeError 503 errMsgIdentityUnavailable)
  else match bearerAppKey request with
  | None => Ret (writeUnauthorized errMsgAppKeyRequired)
  | Some key =>
    resolved ← (ask (ResolveKey key) : program (result appidentity.ResolvedKey));
    match resolved with
    | Err resolveErr => Ret (writeAppKeyError resolveErr)
    | Ok resolved =>
      let appID := appidentity.Resolved_AppID resolved in
      if String.eqb appID EmptyString then Ret (writeError 503 errMsgIdentityUnavailable)
      else match readAsserted request with
      | inr response => Ret response
      | inl (asserted, request) =>
        if negb (String.eqb asserted EmptyString) && negb (String.eqb asserted appID) then Ret (writeError 403 errMsgAppIDMismatch)
        else handle (request {{ callerAppID := appID }})
      end
    end
  end.

(** A handler behind a service that may not be configured. *)
Definition guarded (configured : bool) (unavailable : string) (handle : handler) : handler := fun request =>
  if negb configured then Ret (writeError 503 unavailable) else handle request.

(** Marks the response as never to be cached or sniffed. *)
Definition sensitive (handle : handler) : handler := fun request =>
  response ← handle request; Ret (with_headers setSensitiveHeaders response).

(** With no app in the context a handler answers 503. *)
Definition authenticatedAppID (request : Request) (k : string -> program Response) : program Response :=
  if String.eqb (callerAppID request) EmptyString then Ret (writeError 503 errMsgIdentityUnavailable)
  else k (callerAppID request).
End http.
