(* ===== verification/HttpApi.v ===== *)
(** * HttpApi

    The endpoints of internal/httpapi: the request bodies, every handler with the
    wrappers it is registered behind, and the table of routes. *)

From S2P Require Import Prelude Prog GoText Utf8 GoFormat Std Sha256 Idents Registry Publisher RegistryService Heartbeat Json JsonProps Message MessageValidate HeartbeatSeal Unmarshal HeartbeatService Identity IdentityStore IdentityService MessageStore MessageService Http.
Open Scope Z_scope.
Import unmarshal http.

Module http_api.

(** ** Views *)

Definition formatUTC (t : option Z) : option string := FormatRFC3339 <$> t.

Definition newDeliveryView (delivery : message.Delivery) : deliveryView :=
  {| dv_ID := message.ID delivery; dv_Destination := message.DestinationName delivery; dv_State := message.State delivery;
     dv_DeadReason := message.DeadReason delivery; dv_AttemptCount := message.AttemptCount delivery;
     dv_LastStatusCode := message.LastStatusCode delivery;
     dv_NextAttemptAt := if String.eqb (message.State delivery) message.StatePending then Some (message.NextAttemptAt delivery) else None;
     dv_DeliveredAt := message.DeliveredAt delivery |}.

Definition newMessageView (stored : message.StoredMessage) : messageView :=
  let envelope := message.Message_Envelope stored in
  {| mv_MessageID := message.Message_ID stored; mv_AppID := message.AppID envelope; mv_Channel := message.Channel envelope;
     mv_IdempotencyKey := message.IdempotencyKey envelope; mv_Critical := message.Critical envelope;
     mv_Status := message.DeriveStatus (message.Deliveries stored) (message.StoredMessage_State stored);
     mv_DeliverAt := message.DeliverAt envelope; mv_CreatedAt := message.Message_CreatedAt stored;
     mv_CancelledAt := message.CancelledAt stored; mv_Deliveries := newDeliveryView <$> message.Deliveries stored |}.

Definition newScheduledMessageView (m : message.ScheduledMessage) : scheduledMessageView :=
  {| sv_MessageID := message.Scheduled_MessageID m; sv_AppID := message.Scheduled_AppID m; sv_Channel := message.Scheduled_Channel m;
     sv_IdempotencyKey := message.Scheduled_IdempotencyKey m; sv_DeliverAt := message.Scheduled_DeliverAt m;
     sv_CreatedAt := message.Scheduled_CreatedAt m; sv_Recipient := message.Recipient m;
     sv_Destinations := (fun d => (message.Scheduled_Name d, message.Scheduled_Type d)) <$> message.Destinations m |}.

Definition newAdminDeliveryView (delivery : message.AdminDelivery) : adminDeliveryView :=
  let d := message.Admin_Delivery delivery in
  {| av_delivery := newDeliveryView d; av_MessageID := message.MessageID d; av_AppID := message.Admin_AppID delivery;
     av_Channel := message.Admin_Channel delivery; av_DestinationType := message.DestinationType d;
     av_CreatedAt := message.CreatedAt d; av_UpdatedAt := message.UpdatedAt d |}.

Definition newAttemptView (attempt : message.Attempt) : attemptView :=
  let r := message.Attempt_Record attempt in
  {| at_AttemptNumber := message.AttemptNumber attempt; at_Outcome := message.Outcome r; at_StatusCode := message.StatusCode r;
     at_LatencyMS := message.LatencyMS r; at_Error := message.Attempt_Error r; at_ResponseSnippet := message.ResponseSnippet r;
     at_StartedAt := message.StartedAt r |}.

Definition newCheckProbeView (probe : heartbeat.ProbeState) : checkProbeView :=
  let config := heartbeat.Probe_Config probe in
  {| pv_URL := heartbeat.URL config; pv_ExpectedStatuses := heartbeat.ExpectedStatuses config; pv_BodyMatch := heartbeat.BodyMatch config;
     pv_TimeoutSeconds := heartbeat.TimeoutSeconds config; pv_IntervalSeconds := heartbeat.IntervalSeconds config;
     pv_ConsecutiveFailures := heartbeat.ConsecutiveFailures probe; pv_FailureThreshold := heartbeat.ProbeFailureThreshold;
     pv_HasAccessToken := heartbeat.HasAccessToken probe;
     pv_LastResult := (fun r => (FormatRFC3339 (heartbeat.At r), heartbeat.Record_Status r, heartbeat.Record_Reason r)) <$> heartbeat.LastResult probe |}.

Definition newCheckView (check : heartbeat.StoredCheck) (now : Z) : checkView :=
  {| cv_ID := heartbeat.ID check; cv_AppID := heartbeat.AppID check; cv_Name := heartbeat.Name check;
     cv_PeriodSeconds := heartbeat.PeriodSeconds check; cv_GraceSeconds := heartbeat.GraceSeconds check; cv_Paused := heartbeat.Paused check;
     cv_State := heartbeat.DerivedState check now; cv_LastPingAt := formatUTC (heartbeat.LastPingAt check);
     cv_LastPingKind := heartbeat.LastPingKind check; cv_DownSince := formatUTC (heartbeat.ActiveDownSince check);
     cv_DownReason := if String.eqb (heartbeat.State check) heartbeat.StateDown then heartbeat.DownReason check else None;
     cv_DeadlineAt := FormatRFC3339 (heartbeat.Deadline check);
     cv_Destinations := (fun d => (heartbeat.Ref_Name d, heartbeat.Ref_Type d, heartbeat.Ref_Enabled d)) <$> heartbeat.Destinations check;
     cv_OwnerKind := heartbeat.OwnerKind check; cv_OwnerAppID := heartbeat.OwnerAppID check;
     cv_CreatedAt := FormatRFC3339 (heartbeat.CreatedAt check); cv_UpdatedAt := FormatRFC3339 (heartbeat.UpdatedAt check);
     cv_Probe := newCheckProbeView <$> heartbeat.Probe check |}.

Definition optionalText (value : string) : option string := if String.eqb value EmptyString then None else Some value.

(** [string(key.State)] *)
Definition state_text (state : appidentity.KeyState) : string :=
  match state with appidentity.KeyActive => "active" | appidentity.KeySuperseded => "superseded" | appidentity.KeyRevoked => "revoked" end.

Definition newIdentityRequestBody (r : appidentity.Request) : identityRequestBody :=
  {| ir_ID := appidentity.Request_ID r; ir_AppID := appidentity.Request_AppID r; ir_GitHubRepository := appidentity.Request_Repository r;
     ir_GitHubRepositoryID := appidentity.Request_RepositoryID r; ir_WorkflowPath := appidentity.Request_WorkflowPath r;
     ir_GitRef := appidentity.Request_Ref r; ir_Environment := optionalText (appidentity.Request_Environment r);
     ir_GitHubRunID := appidentity.GitHubRunID r; ir_Status := appidentity.Status r;
     ir_CreatedAt := FormatRFC3339 (appidentity.Request_CreatedAt r); ir_UpdatedAt := FormatRFC3339 (appidentity.Request_UpdatedAt r) |}.

Definition newIdentityKeyBody (key : appidentity.Key) : identityKeyBody :=
  {| ik_ID := appidentity.Key_ID key; ik_AppID := appidentity.Key_AppID key; ik_KeyHint := appidentity.Key_Hint key;
     ik_State := state_text (appidentity.Key_State key); ik_CreatedAt := FormatRFC3339 (appidentity.Key_CreatedAt key);
     ik_SupersededAt := formatUTC (appidentity.Key_SupersededAt key); ik_RevokedAt := formatUTC (appidentity.Key_RevokedAt key);
     ik_RevokedReason := optionalText (appidentity.RevokedReason key); ik_LastUsedAt := formatUTC (appidentity.Key_LastUsedAt key) |}.

Definition newIdentityBindingBody (binding : appidentity.Binding) (keys : list appidentity.Key) : identityBindingBody :=
  {| ib_AppID := appidentity.AppID binding; ib_GitHubRepository := appidentity.Repository binding;
     ib_GitHubRepositoryID := appidentity.RepositoryID binding; ib_GitHubOwnerID := appidentity.RepositoryOwnerID binding;
     ib_WorkflowPath := appidentity.WorkflowPath binding; ib_GitRef := appidentity.Ref binding;
     ib_Environment := optionalText (appidentity.Environment binding); ib_ApprovedAt := FormatRFC3339 (appidentity.ApprovedAt binding);
     ib_Keys := newIdentityKeyBody <$> keys |}.

(** ** Common steps of a handler *)

(** What follows a step that may have answered already. *)
Definition or_respond {A} (r : A + Response) (k : A -> program Response) : program Response :=
  match r with inl a => k a | inr response => Ret response end.

(** [if err != nil { write(err); return }] *)
Definition answer {A} (write : error -> Response) (r : result A) (k : A -> program Response) : program Response :=
  match r with Ok a => k a | Err err => Ret (write err) end.

Definition pathDestinationName (request : Request) : string + Response :=
  let name := PathValue request "name" in
  match registry.ValidateDestinationName name with Some err => inr (writeServiceError err) | None => inl name end.
Definition parseRouteID (request : Request) : Z + Response := parsePositiveID request errMsgInvalidRouteID.
Definition parseCheckID (request : Request) : Z + Response := parsePositiveID request errMsgInvalidCheckID.
Definition parseDeliveryID (request : Request) : Z + Response := parsePositiveID request errMsgInvalidDeliveryID.

Definition appAndDestinationName (request : Request) (k : string -> string -> program Response) : program Response :=
  authenticatedAppID request (fun appID => or_respond (pathDestinationName request) (k appID)).
Definition appAndRouteID (request : Request) (k : string -> Z -> program Response) : program Response :=
  authenticatedAppID request (fun appID => or_respond (parseRouteID request) (k appID)).
Definition appAndCheckID (request : Request) (k : string -> Z -> program Response) : program Response :=
  authenticatedAppID request (fun appID => or_respond (parseCheckID request) (k appID)).

(** ** Request bodies

    The body of each request, its fields as encoding/json sees them and its zero value.
    A slice keeps what its array holds beyond it ([slice]). *)

Section bodies.
Context {HStd : Std} {HWire : Wire}.

Record createDestinationRequestBody := {
  cd_Name : string;
  cd_Type : string;
  cd_Enabled : option bool;
  cd_Config : option (gmap string string);
  cd_Secrets : option (gmap string string)
}.
Definition createDestinationRequestBody_zero : createDestinationRequestBody :=
  {| cd_Name := EmptyString; cd_Type := EmptyString; cd_Enabled := None; cd_Config := None; cd_Secrets := None |}.
Definition createDestinationRequestBody_fields : list (field createDestinationRequestBody) :=
  [{| field_name := "name"; assign := fun n s => v ← into_string n (cd_Name s); Some (s {{ cd_Name := v }}) |};
   {| field_name := "type"; assign := fun n s => v ← into_string n (cd_Type s); Some (s {{ cd_Type := v }}) |};
   {| field_name := "enabled"; assign := fun n s => v ← into_pointer into_bool false n (cd_Enabled s); Some (s {{ cd_Enabled := v }}) |};
   {| field_name := "config"; assign := fun n s => v ← into_map n (cd_Config s); Some (s {{ cd_Config := v }}) |};
   {| field_name := "secrets"; assign := fun n s => v ← into_map n (cd_Secrets s); Some (s {{ cd_Secrets := v }}) |}].

Record patchDestinationRequestBody := {
  pd_Enabled : option bool;
  pd_Config : option (gmap string string);
  pd_Secrets : option (gmap string string)
}.
Definition patchDestinationRequestBody_zero : patchDestinationRequestBody :=
  {| pd_Enabled := None; pd_Config := None; pd_Secrets := None |}.
Definition patchDestinationRequestBody_fields : list (field patchDestinationRequestBody) :=
  [{| field_name := "enabled"; assign := fun n s => v ← into_pointer into_bool false n (pd_Enabled s); Some (s {{ pd_Enabled := v }}) |};
   {| field_name := "config"; assign := fun n s => v ← into_map n (pd_Config s); Some (s {{ pd_Config := v }}) |};
   {| field_name := "secrets"; assign := fun n s => v ← into_map n (pd_Secrets s); Some (s {{ pd_Secrets := v }}) |}].

Record rotateSecretRequestBody := {
  rs_OverlapHours : option Z
}.
Definition rotateSecretRequestBody_zero : rotateSecretRequestBody :=
  {| rs_OverlapHours := None |}.
Definition rotateSecretRequestBody_fields : list (field rotateSecretRequestBody) :=
  [{| field_name := "overlap_hours"; assign := fun n s => v ← into_pointer into_int 0 n (rs_OverlapHours s); Some (s {{ rs_OverlapHours := v }}) |}].

Record createRouteRequestBody := {
  cr_AppPattern : string;
  cr_ChannelPattern : string;
  cr_Destinations : option (slice string);
  cr_Enabled : option bool
}.
Definition createRouteRequestBody_zero : createRouteRequestBody :=
  {| cr_AppPattern := EmptyString; cr_ChannelPattern := EmptyString; cr_Destinations := None; cr_Enabled := None |}.
Definition createRouteRequestBody_fields : list (field createRouteRequestBody) :=
  [{| field_name := "app_pattern"; assign := fun n s => v ← into_string n (cr_AppPattern s); Some (s {{ cr_AppPattern := v }}) |};
   {| field_name := "channel_pattern"; assign := fun n s => v ← into_string n (cr_ChannelPattern s); Some (s {{ cr_ChannelPattern := v }}) |};
   {| field_name := "destinations"; assign := fun n s => v ← into_slice into_string EmptyString n (cr_Destinations s); Some (s {{ cr_Destinations := v }}) |};
   {| field_name := "enabled"; assign := fun n s => v ← into_pointer into_bool false n (cr_Enabled s); Some (s {{ cr_Enabled := v }}) |}].

Record patchRouteRequestBody := {
  pr_AppPattern : option string;
  pr_ChannelPattern : option string;
  pr_Destinations : option (slice string);
  pr_Enabled : option bool
}.
Definition patchRouteRequestBody_zero : patchRouteRequestBody :=
  {| pr_AppPattern := None; pr_ChannelPattern := None; pr_Destinations := None; pr_Enabled := None |}.
Definition patchRouteRequestBody_fields : list (field patchRouteRequestBody) :=
  [{| field_name := "app_pattern"; assign := fun n s => v ← into_pointer into_string EmptyString n (pr_AppPattern s); Some (s {{ pr_AppPattern := v }}) |};
   {| field_name := "channel_pattern"; assign := fun n s => v ← into_pointer into_string EmptyString n (pr_ChannelPattern s); Some (s {{ pr_ChannelPattern := v }}) |};
   {| field_name := "destinations"; assign := fun n s => v ← into_slice into_string EmptyString n (pr_Destinations s); Some (s {{ pr_Destinations := v }}) |};
   {| field_name := "enabled"; assign := fun n s => v ← into_pointer into_bool false n (pr_Enabled s); Some (s {{ pr_Enabled := v }}) |}].

Record createCheckRequestBody := {
  cc_AppID : string;
  cc_Name : string;
  cc_PeriodSeconds : list Z;
  cc_GraceSeconds : list Z;
  cc_Destinations : option (slice string);
  cc_Probe : list Z
}.
Definition createCheckRequestBody_zero : createCheckRequestBody :=
  {| cc_AppID := EmptyString; cc_Name := EmptyString; cc_PeriodSeconds := []; cc_GraceSeconds := []; cc_Destinations := None; cc_Probe := [] |}.
Definition createCheckRequestBody_fields : list (field createCheckRequestBody) :=
  [{| field_name := "app_id"; assign := fun n s => v ← into_string n (cc_AppID s); Some (s {{ cc_AppID := v }}) |};
   {| field_name := "name"; assign := fun n s => v ← into_string n (cc_Name s); Some (s {{ cc_Name := v }}) |};
   {| field_name := "period_seconds"; assign := fun n s => v ← into_raw n (cc_PeriodSeconds s); Some (s {{ cc_PeriodSeconds := v }}) |};
   {| field_name := "grace_seconds"; assign := fun n s => v ← into_raw n (cc_GraceSeconds s); Some (s {{ cc_GraceSeconds := v }}) |};
   {| field_name := "destinations"; assign := fun n s => v ← into_slice into_string EmptyString n (cc_Destinations s); Some (s {{ cc_Destinations := v }}) |};
   {| field_name := "probe"; assign := fun n s => v ← into_raw n (cc_Probe s); Some (s {{ cc_Probe := v }}) |}].

Record patchCheckRequestBody := {
  pc_AppID : list Z;
  pc_Name : list Z;
  pc_PeriodSeconds : option Z;
  pc_GraceSeconds : option Z;
  pc_Destinations : option (slice string);
  pc_Probe : list Z
}.
Definition patchCheckRequestBody_zero : patchCheckRequestBody :=
  {| pc_AppID := []; pc_Name := []; pc_PeriodSeconds := None; pc_GraceSeconds := None; pc_Destinations := None; pc_Probe := [] |}.
Definition patchCheckRequestBody_fields : list (field patchCheckRequestBody) :=
  [{| field_name := "app_id"; assign := fun n s => v ← into_raw n (pc_AppID s); Some (s {{ pc_AppID := v }}) |};
   {| field_name := "name"; assign := fun n s => v ← into_raw n (pc_Name s); Some (s {{ pc_Name := v }}) |};
   {| field_name := "period_seconds"; assign := fun n s => v ← into_pointer into_int 0 n (pc_PeriodSeconds s); Some (s {{ pc_PeriodSeconds := v }}) |};
   {| field_name := "grace_seconds"; assign := fun n s => v ← into_pointer into_int 0 n (pc_GraceSeconds s); Some (s {{ pc_GraceSeconds := v }}) |};
   {| field_name := "destinations"; assign := fun n s => v ← into_slice into_string EmptyString n (pc_Destinations s); Some (s {{ pc_Destinations := v }}) |};
   {| field_name := "probe"; assign := fun n s => v ← into_raw n (pc_Probe s); Some (s {{ pc_Probe := v }}) |}].

Record createAccessTokenBody := {
  ct_ClientID : string;
  ct_ClientSecret : string
}.
Definition createAccessTokenBody_zero : createAccessTokenBody :=
  {| ct_ClientID := EmptyString; ct_ClientSecret := EmptyString |}.
Definition createAccessTokenBody_fields : list (field createAccessTokenBody) :=
  [{| field_name := "client_id"; assign := fun n s => v ← into_string n (ct_ClientID s); Some (s {{ ct_ClientID := v }}) |};
   {| field_name := "client_secret"; assign := fun n s => v ← into_string n (ct_ClientSecret s); Some (s {{ ct_ClientSecret := v }}) |}].

Record createProbeBody := {
  cp_URL : string;
  cp_ExpectedStatuses : option (slice Z);
  cp_BodyMatch : option string;
  cp_TimeoutSeconds : Z;
  cp_IntervalSeconds : Z;
  cp_AccessToken : option createAccessTokenBody
}.
Definition createProbeBody_zero : createProbeBody :=
  {| cp_URL := EmptyString; cp_ExpectedStatuses := None; cp_BodyMatch := None; cp_TimeoutSeconds := 0; cp_IntervalSeconds := 0; cp_AccessToken := None |}.
Definition createProbeBody_fields : list (field createProbeBody) :=
  [{| field_name := "url"; assign := fun n s => v ← into_string n (cp_URL s); Some (s {{ cp_URL := v }}) |};
   {| field_name := "expected_statuses"; assign := fun n s => v ← into_slice into_int 0 n (cp_ExpectedStatuses s); Some (s {{ cp_ExpectedStatuses := v }}) |};
   {| field_name := "body_match"; assign := fun n s => v ← into_pointer into_string EmptyString n (cp_BodyMatch s); Some (s {{ cp_BodyMatch := v }}) |};
   {| field_name := "timeout_seconds"; assign := fun n s => v ← into_int n (cp_TimeoutSeconds s); Some (s {{ cp_TimeoutSeconds := v }}) |};
   {| field_name := "interval_seconds"; assign := fun n s => v ← into_int n (cp_IntervalSeconds s); Some (s {{ cp_IntervalSeconds := v }}) |};
   {| field_name := "access_token"; assign := fun n s => v ← into_pointer (into_nested true createAccessTokenBody_fields) createAccessTokenBody_zero n (cp_AccessToken s); Some (s {{ cp_AccessToken := v }}) |}].

Record patchProbeBody := {
  pp_URL : option string;
  pp_ExpectedStatuses : option (slice Z);
  pp_BodyMatch : list Z;
  pp_TimeoutSeconds : option Z;
  pp_IntervalSeconds : option Z;
  pp_AccessToken : list Z
}.
Definition patchProbeBody_zero : patchProbeBody :=
  {| pp_URL := None; pp_ExpectedStatuses := None; pp_BodyMatch := []; pp_TimeoutSeconds := None; pp_IntervalSeconds := None; pp_AccessToken := [] |}.
Definition patchProbeBody_fields : list (field patchProbeBody) :=
  [{| field_name := "url"; assign := fun n s => v ← into_pointer into_string EmptyString n (pp_URL s); Some (s {{ pp_URL := v }}) |};
   {| field_name := "expected_statuses"; assign := fun n s => v ← into_slice into_int 0 n (pp_ExpectedStatuses s); Some (s {{ pp_ExpectedStatuses := v }}) |};
   {| field_name := "body_match"; assign := fun n s => v ← into_raw n (pp_BodyMatch s); Some (s {{ pp_BodyMatch := v }}) |};
   {| field_name := "timeout_seconds"; assign := fun n s => v ← into_pointer into_int 0 n (pp_TimeoutSeconds s); Some (s {{ pp_TimeoutSeconds := v }}) |};
   {| field_name := "interval_seconds"; assign := fun n s => v ← into_pointer into_int 0 n (pp_IntervalSeconds s); Some (s {{ pp_IntervalSeconds := v }}) |};
   {| field_name := "access_token"; assign := fun n s => v ← into_raw n (pp_AccessToken s); Some (s {{ pp_AccessToken := v }}) |}].

Record messageToRequestBody := {
  to_Destination : string;
  to_Recipient : string
}.
Definition messageToRequestBody_zero : messageToRequestBody :=
  {| to_Destination := EmptyString; to_Recipient := EmptyString |}.
Definition messageToRequestBody_fields : list (field messageToRequestBody) :=
  [{| field_name := "destination"; assign := fun n s => v ← into_string n (to_Destination s); Some (s {{ to_Destination := v }}) |};
   {| field_name := "recipient"; assign := fun n s => v ← into_string n (to_Recipient s); Some (s {{ to_Recipient := v }}) |}].

Definition display_fields : list (field message.Display) :=
  [{| field_name := "title"; assign := fun n s => v ← into_string n (message.Title s); Some (s {{ message.Title := v }}) |};
   {| field_name := "body"; assign := fun n s => v ← into_string n (message.Body s); Some (s {{ message.Body := v }}) |};
   {| field_name := "url"; assign := fun n s => v ← into_string n (message.Display_URL s); Some (s {{ message.Display_URL := v }}) |};
   {| field_name := "priority"; assign := fun n s => v ← into_string n (message.Priority s); Some (s {{ message.Priority := v }}) |}].

Record createMessageRequestBody := {
  cm_AppID : string;
  cm_To : option messageToRequestBody;
  cm_Channel : string;
  cm_IdempotencyKey : string;
  cm_DeliverAt : option Z;
  cm_Critical : bool;
  cm_Payload : list Z;
  cm_Display : option message.Display
}.
Definition createMessageRequestBody_zero : createMessageRequestBody :=
  {| cm_AppID := EmptyString; cm_To := None; cm_Channel := EmptyString; cm_IdempotencyKey := EmptyString; cm_DeliverAt := None; cm_Critical := false; cm_Payload := []; cm_Display := None |}.
Definition createMessageRequestBody_fields : list (field createMessageRequestBody) :=
  [{| field_name := "app_id"; assign := fun n s => v ← into_string n (cm_AppID s); Some (s {{ cm_AppID := v }}) |};
   {| field_name := "to"; assign := fun n s => v ← into_pointer (into_nested true messageToRequestBody_fields) messageToRequestBody_zero n (cm_To s); Some (s {{ cm_To := v }}) |};
   {| field_name := "channel"; assign := fun n s => v ← into_string n (cm_Channel s); Some (s {{ cm_Channel := v }}) |};
   {| field_name := "idempotency_key"; assign := fun n s => v ← into_string n (cm_IdempotencyKey s); Some (s {{ cm_IdempotencyKey := v }}) |};
   {| field_name := "deliver_at"; assign := fun n s => v ← into_pointer into_time 0 n (cm_DeliverAt s); Some (s {{ cm_DeliverAt := v }}) |};
   {| field_name := "critical"; assign := fun n s => v ← into_bool n (cm_Critical s); Some (s {{ cm_Critical := v }}) |};
   {| field_name := "payload"; assign := fun n s => v ← into_raw n (cm_Payload s); Some (s {{ cm_Payload := v }}) |};
   {| field_name := "display"; assign := fun n s => v ← into_pointer (into_nested true display_fields) message.zero_display n (cm_Display s); Some (s {{ cm_Display := v }}) |}].

Record exchangeRequestBody := {
  ex_AppID : string;
  ex_Token : string
}.
Definition exchangeRequestBody_zero : exchangeRequestBody :=
  {| ex_AppID := EmptyString; ex_Token := EmptyString |}.
Definition exchangeRequestBody_fields : list (field exchangeRequestBody) :=
  [{| field_name := "app_id"; assign := fun n s => v ← into_string n (ex_AppID s); Some (s {{ ex_AppID := v }}) |};
   {| field_name := "token"; assign := fun n s => v ← into_string n (ex_Token s); Some (s {{ ex_Token := v }}) |}].

Record mintPublisherRequestBody := {
  mp_Rotate : bool
}.
Definition mintPublisherRequestBody_zero : mintPublisherRequestBody :=
  {| mp_Rotate := false |}.
Definition mintPublisherRequestBody_fields : list (field mintPublisherRequestBody) :=
  [{| field_name := "rotate"; assign := fun n s => v ← into_bool n (mp_Rotate s); Some (s {{ mp_Rotate := v }}) |}].

Record appDeprovisionRequestBody := {
  dp_Email : string;
  dp_PersonHash : string
}.
Definition appDeprovisionRequestBody_zero : appDeprovisionRequestBody :=
  {| dp_Email := EmptyString; dp_PersonHash := EmptyString |}.
Definition appDeprovisionRequestBody_fields : list (field appDeprovisionRequestBody) :=
  [{| field_name := "email"; assign := fun n s => v ← into_string n (dp_Email s); Some (s {{ dp_Email := v }}) |};
   {| field_name := "person_hash"; assign := fun n s => v ← into_string n (dp_PersonHash s); Some (s {{ dp_PersonHash := v }}) |}].

Record appSetPasswordRequestBody := {
  sp_Email : string;
  sp_Password : string
}.
Definition appSetPasswordRequestBody_zero : appSetPasswordRequestBody :=
  {| sp_Email := EmptyString; sp_Password := EmptyString |}.
Definition appSetPasswordRequestBody_fields : list (field appSetPasswordRequestBody) :=
  [{| field_name := "email"; assign := fun n s => v ← into_string n (sp_Email s); Some (s {{ sp_Email := v }}) |};
   {| field_name := "password"; assign := fun n s => v ← into_string n (sp_Password s); Some (s {{ sp_Password := v }}) |}].

Record adminAppEmailRequestBody := {
  ae_AppID : string;
  ae_Email : string
}.
Definition adminAppEmailRequestBody_zero : adminAppEmailRequestBody :=
  {| ae_AppID := EmptyString; ae_Email := EmptyString |}.
Definition adminAppEmailRequestBody_fields : list (field adminAppEmailRequestBody) :=
  [{| field_name := "app_id"; assign := fun n s => v ← into_string n (ae_AppID s); Some (s {{ ae_AppID := v }}) |};
   {| field_name := "email"; assign := fun n s => v ← into_string n (ae_Email s); Some (s {{ ae_Email := v }}) |}].

Record adminDeprovisionRequestBody := {
  ad_AppID : string;
  ad_UserID : string
}.
Definition adminDeprovisionRequestBody_zero : adminDeprovisionRequestBody :=
  {| ad_AppID := EmptyString; ad_UserID := EmptyString |}.
Definition adminDeprovisionRequestBody_fields : list (field adminDeprovisionRequestBody) :=
  [{| field_name := "app_id"; assign := fun n s => v ← into_string n (ad_AppID s); Some (s {{ ad_AppID := v }}) |};
   {| field_name := "user_id"; assign := fun n s => v ← into_string n (ad_UserID s); Some (s {{ ad_UserID := v }}) |}].

Record adminTestNotifyRequestBody := {
  tn_AppID : string;
  tn_Recipients : option (slice string);
  tn_Channel : string;
  tn_Message : string;
  tn_Title : string
}.
Definition adminTestNotifyRequestBody_zero : adminTestNotifyRequestBody :=
  {| tn_AppID := EmptyString; tn_Recipients := None; tn_Channel := EmptyString; tn_Message := EmptyString; tn_Title := EmptyString |}.
Definition adminTestNotifyRequestBody_fields : list (field adminTestNotifyRequestBody) :=
  [{| field_name := "app_id"; assign := fun n s => v ← into_string n (tn_AppID s); Some (s {{ tn_AppID := v }}) |};
   {| field_name := "recipients"; assign := fun n s => v ← into_slice into_string EmptyString n (tn_Recipients s); Some (s {{ tn_Recipients := v }}) |};
   {| field_name := "channel"; assign := fun n s => v ← into_string n (tn_Channel s); Some (s {{ tn_Channel := v }}) |};
   {| field_name := "message"; assign := fun n s => v ← into_string n (tn_Message s); Some (s {{ tn_Message := v }}) |};
   {| field_name := "title"; assign := fun n s => v ← into_string n (tn_Title s); Some (s {{ tn_Title := v }}) |}].

(** [appProvisionRequestBody], [appResetPasswordRequestBody]: the email alone *)
Definition email_fields : list (field string) := [{| field_name := "email"; assign := into_string |}].
(** [adminDeprovisionAppRequestBody] *)
Definition app_id_fields : list (field string) := [{| field_name := "app_id"; assign := into_string |}].
End bodies.

(** ** Handlers *)

Section handlers.
Context {HStd : Std} {HWire : Wire} (server : Server).

Definition decoded {S} (fields : list (field S)) (zero : S) (maxBytes : nat) (request : Request) (k : S -> program Response) : program Response :=
  or_respond (decodeJSON fields zero (body request) maxBytes) k.

(** admin.go *)

Definition destination_input (b : createDestinationRequestBody) : registry_service.DestinationInput :=
  {| registry_service.Input_Name := cd_Name b; registry_service.Input_Type := cd_Type b; registry_service.Input_Enabled := cd_Enabled b;
     registry_service.Input_Config := cd_Config b; registry_service.Input_Secrets := cd_Secrets b |}.
Definition destination_patch (b : patchDestinationRequestBody) : registry_service.DestinationPatch :=
  {| registry_service.Patch_Enabled := pd_Enabled b; registry_service.Patch_Config := pd_Config b; registry_service.Patch_Secrets := pd_Secrets b |}.
Definition route_input (b : createRouteRequestBody) : registry_service.RouteInput :=
  {| registry_service.RouteInput_AppPattern := cr_AppPattern b; registry_service.RouteInput_ChannelPattern := cr_ChannelPattern b;
     registry_service.RouteInput_Destinations := default [] (slice_of (cr_Destinations b)); registry_service.RouteInput_Enabled := cr_Enabled b |}.
Definition route_patch (b : patchRouteRequestBody) : registry_service.RoutePatch :=
  {| registry_service.RoutePatch_AppPattern := pr_AppPattern b; registry_service.RoutePatch_ChannelPattern := pr_ChannelPattern b;
     registry_service.RoutePatch_Destinations := slice_of (pr_Destinations b); registry_service.RoutePatch_Enabled := pr_Enabled b |}.

Definition minOverlapHours : Z := 1.
Definition maxOverlapHours : Z := 168.
Definition overlap_hours (b : rotateSecretRequestBody) : Z + Response :=
  match rs_OverlapHours b with
  | Some hours => if (hours <? minOverlapHours) || (maxOverlapHours <? hours) then inr (writeError 400 errMsgInvalidOverlapHours) else inl hours
  | None => inr (writeError 400 errMsgInvalidOverlapHours)
  end.

Definition handleCreateDestination : handler := fun request =>
  decoded createDestinationRequestBody_fields createDestinationRequestBody_zero maxAdminBodyBytes request (fun b =>
  r ← (ask (Registry_CreateDestination (destination_input b)) : program (result _));
  answer writeServiceError r (fun view => Ret (writeJSON 201 (destinationResponseBody view)))).

Definition handleListDestinations : handler := fun request =>
  r ← (ask Registry_ListDestinations : program (result _));
  answer writeServiceError r (fun views => Ret (writeJSON 200 (destinationsResponseBody views))).

Definition handleGetDestination : handler := fun request =>
  or_respond (pathDestinationName request) (fun name =>
  r ← (ask (Registry_GetDestination name) : program (result _));
  answer writeServiceError r (fun view => Ret (writeJSON 200 (destinationResponseBody view)))).

Definition handleUpdateDestination : handler := fun request =>
  or_respond (pathDestinationName request) (fun name =>
  decoded patchDestinationRequestBody_fields patchDestinationRequestBody_zero maxAdminBodyBytes request (fun b =>
  r ← (ask (Registry_UpdateDestination name (destination_patch b)) : program (result _));
  answer writeServiceError r (fun view => Ret (writeJSON 200 (destinationResponseBody view))))).

Definition handleDeleteDestination : handler := fun request =>
  or_respond (pathDestinationName request) (fun name =>
  r ← (ask (Registry_DeleteDestination name) : program (result _));
  answer writeServiceError r (fun _ => Ret (writeJSON 200 (deleteDestinationResponseBody name true)))).

Definition handleRotateSecret : handler := fun request =>
  or_respond (pathDestinationName request) (fun name =>
  decoded rotateSecretRequestBody_fields rotateSecretRequestBody_zero maxAdminBodyBytes request (fun b =>
  or_respond (overlap_hours b) (fun hours =>
  r ← (ask (Registry_RotateWebhookSecret name hours) : program (result _));
  answer writeServiceError r (fun rotated => Ret (writeJSON 200 (rotateSecretResponseBody rotated.1 rotated.2)))))).

Definition handleCreateRoute : handler := fun request =>
  decoded createRouteRequestBody_fields createRouteRequestBody_zero maxAdminBodyBytes request (fun b =>
  r ← (ask (Registry_CreateRoute (route_input b)) : program (result _));
  answer writeServiceError r (fun view => Ret (writeJSON 201 (routeResponseBody view)))).

Definition handleListRoutes : handler := fun request =>
  r ← (ask Registry_ListRoutes : program (result _));
  answer writeServiceError r (fun views => Ret (writeJSON 200 (routesResponseBody views))).

Definition handleGetRoute : handler := fun request =>
  or_respond (parseRouteID request) (fun id =>
  r ← (ask (Registry_GetRoute id) : program (result _));
  answer writeServiceError r (fun view => Ret (writeJSON 200 (routeResponseBody view)))).

Definition handleUpdateRoute : handler := fun request =>
  or_respond (parseRouteID request) (fun id =>
  decoded patchRouteRequestBody_fields patchRouteRequestBody_zero maxAdminBodyBytes request (fun b =>
  r ← (ask (Registry_UpdateRoute id (route_patch b)) : program (result _));
  answer writeServiceError r (fun view => Ret (writeJSON 200 (routeResponseBody view))))).

Definition handleDeleteRoute : handler := fun request =>
  or_respond (parseRouteID request) (fun id =>
  r ← (ask (Registry_DeleteRoute id) : program (result _));
  answer writeServiceError r (fun _ => Ret (writeJSON 200 (deleteRouteResponseBody id true)))).

(** apps.go, apps_routes.go *)

Definition handleAppCreateDestination : handler := fun request =>
  authenticatedAppID request (fun appID =>
  decoded createDestinationRequestBody_fields createDestinationRequestBody_zero maxAdminBodyBytes request (fun b =>
  r ← (ask (App_CreateDestination appID (destination_input b)) : program (result _));
  answer writeServiceError r (fun view => Ret (writeJSON 201 (destinationResponseBody view))))).

Definition handleAppListDestinations : handler := fun request =>
  authenticatedAppID request (fun appID =>
  r ← (ask (App_ListDestinations appID) : program (result _));
  answer writeServiceError r (fun views => Ret (writeJSON 200 (destinationsResponseBody views)))).

Definition handleAppGetDestination : handler := fun request =>
  appAndDestinationName request (fun appID name =>
  r ← (ask (App_GetDestination appID name) : program (result _));
  answer writeServiceError r (fun view => Ret (writeJSON 200 (destinationResponseBody view)))).

Definition handleAppUpdateDestination : handler := fun request =>
  appAndDestinationName request (fun appID name =>
  decoded patchDestinationRequestBody_fields patchDestinationRequestBody_zero maxAdminBodyBytes request (fun b =>
  r ← (ask (App_UpdateDestination appID name (destination_patch b)) : program (result _));
  answer writeServiceError r (fun view => Ret (writeJSON 200 (destinationResponseBody view))))).

Definition handleAppDeleteDestination : handler := fun request =>
  appAndDestinationName request (fun appID name =>
  r ← (ask (App_DeleteDestination appID name) : program (result _));
  answer writeServiceError r (fun _ => Ret (writeJSON 200 (deleteDestinationResponseBody name true)))).

Definition handleAppRotateSecret : handler := fun request =>
  appAndDestinationName request (fun appID name =>
  decoded rotateSecretRequestBody_fields rotateSecretRequestBody_zero maxAdminBodyBytes request (fun b =>
  or_respond (overlap_hours b) (fun hours =>
  r ← (ask (App_RotateWebhookSecret appID name hours) : program (result _));
  answer writeServiceError r (fun rotated => Ret (writeJSON 200 (rotateSecretResponseBody rotated.1 rotated.2)))))).

Definition handleAppCreateRoute : handler := fun request =>
  authenticatedAppID request (fun appID =>
  decoded createRouteRequestBody_fields createRouteRequestBody_zero maxAdminBodyBytes request (fun b =>
  r ← (ask (App_CreateRoute appID (route_input b)) : program (result _));
  answer writeServiceError r (fun view => Ret (writeJSON 201 (routeResponseBody view))))).

Definition handleAppListRoutes : handler := fun request =>
  authenticatedAppID request (fun appID =>
  r ← (ask (App_ListRoutes appID) : program (result _));
  answer writeServiceError r (fun views => Ret (writeJSON 200 (routesResponseBody views)))).

Definition handleAppGetRoute : handler := fun request =>
  appAndRouteID request (fun appID id =>
  r ← (ask (App_GetRoute appID id) : program (result _));
  answer writeServiceError r (fun view => Ret (writeJSON 200 (routeResponseBody view)))).

Definition handleAppUpdateRoute : handler := fun request =>
  appAndRouteID request (fun appID id =>
  decoded patchRouteRequestBody_fields patchRouteRequestBody_zero maxAdminBodyBytes request (fun b =>
  r ← (ask (App_UpdateRoute appID id (route_patch b)) : program (result _));
  answer writeServiceError r (fun view => Ret (writeJSON 200 (routeResponseBody view))))).

Definition handleAppDeleteRoute : handler := fun request =>
  appAndRouteID request (fun appID id =>
  r ← (ask (App_DeleteRoute appID id) : program (result _));
  answer writeServiceError r (fun _ => Ret (writeJSON 200 (deleteRouteResponseBody id true)))).

(** heartbeats.go: the fields of a check that are decoded after the body *)

Definition jsonNull : list Z := bytes "null".

Definition parseScheduleField (raw : list Z) : option Z :=
  if bool_decide (raw = []) then Some 0 else default 0 <$> Unmarshal_value (into_pointer into_int 0) raw None.

(** One value and nothing after it, into a struct or into another kind of value *)
Definition decodeStrictRaw {S} (fields : list (field S)) (raw : list Z) (zero : S) : option S :=
  '(t, rest) ← json.parse raw;
  s ← decode_value true fields raw t zero;
  if bool_decide (json.skip_space rest = []) then Some s else None.

Definition decodeCreateProbe (raw : list Z) : option (option heartbeat.ProbeConfig * option heartbeat.AccessToken) :=
  if bool_decide (raw = []) || bool_decide (raw = jsonNull) then Some (None, None)
  else
    b ← decodeStrictRaw createProbeBody_fields raw createProbeBody_zero;
    Some (Some {| heartbeat.URL := cp_URL b; heartbeat.ExpectedStatuses := default [] (slice_of (cp_ExpectedStatuses b));
                  heartbeat.BodyMatch := cp_BodyMatch b; heartbeat.TimeoutSeconds := cp_TimeoutSeconds b;
                  heartbeat.IntervalSeconds := cp_IntervalSeconds b |},
          (fun token => {| heartbeat.ClientID := ct_ClientID token; heartbeat.ClientSecret := ct_ClientSecret token |}) <$> cp_AccessToken b).

Definition no_token_patch : heartbeat.AccessTokenPatch :=
  {| heartbeat.Action := heartbeat.AccessTokenUnchanged; heartbeat.Token := heartbeat_seal.no_token |}.

(** The body match of a patch: its value, and whether it is cleared *)
Definition patched_body_match (raw : list Z) : option (option string * bool) :=
  if bool_decide (raw = []) then Some (None, false)
  else if bool_decide (raw = jsonNull) then Some (None, true)
  else bodyMatch ← Unmarshal_value into_string raw EmptyString; Some (Some bodyMatch, false).

Definition patched_token (raw : list Z) : option heartbeat.AccessTokenPatch :=
  if bool_decide (raw = []) then Some no_token_patch
  else if bool_decide (raw = jsonNull) then Some (no_token_patch {{ heartbeat.Action := heartbeat.AccessTokenClear }})
  else
    token ← decodeStrictRaw createAccessTokenBody_fields raw createAccessTokenBody_zero;
    Some {| heartbeat.Action := heartbeat.AccessTokenReplace;
            heartbeat.Token := {| heartbeat.ClientID := ct_ClientID token; heartbeat.ClientSecret := ct_ClientSecret token |} |}.

Definition decodePatchProbe (raw : list Z) : option (heartbeat.ProbePatch * heartbeat.AccessTokenPatch) :=
  b ← decodeStrictRaw patchProbeBody_fields raw patchProbeBody_zero;
  '(bodyMatch, clear) ← patched_body_match (pp_BodyMatch b);
  tokenPatch ← patched_token (pp_AccessToken b);
  Some ({| heartbeat.PP_URL := pp_URL b; heartbeat.PP_ExpectedStatuses := slice_of (pp_ExpectedStatuses b);
           heartbeat.PP_BodyMatch := bodyMatch; heartbeat.ClearBodyMatch := clear;
           heartbeat.PP_TimeoutSeconds := pp_TimeoutSeconds b; heartbeat.PP_IntervalSeconds := pp_IntervalSeconds b |}, tokenPatch).

(** A field that does not decode is answered as the body is. *)
Definition or_invalid {A} (r : option A) (k : A -> program Response) : program Response :=
  match r with Some a => k a | None => Ret (writeError 400 errMsgInvalidJSONBody) end.
Definition refuse (refused : bool) (message : string) (k : program Response) : program Response :=
  if refused then Ret (writeError 400 message) else k.

(** heartbeats.go *)

Definition writeCheckOutcome (check : result heartbeat.StoredCheck) : program Response :=
  answer writeHeartbeatError check (fun check => now ← (ask Now : program Z); Ret (writeJSON 200 (checkResponseBody (newCheckView check now)))).

Definition writePingOutcome (check : result heartbeat.StoredCheck) : program Response :=
  answer writeHeartbeatError check (fun check =>
    now ← (ask Now : program Z);
    Ret (writeJSON 200 (pingResponseBody (heartbeat.AppID check) (heartbeat.Name check) (heartbeat.DerivedState check now)))).

Definition handlePingCheck : handler := fun request =>
  check ← (ask (Check_Ping (PathValue request "app_id") (PathValue request "name")) : program (result _)); writePingOutcome check.
Definition handleFailCheck : handler := fun request =>
  check ← (ask (Check_Fail (PathValue request "app_id") (PathValue request "name")) : program (result _)); writePingOutcome check.

Definition list_checks (checks : result (list heartbeat.StoredCheck)) : program Response :=
  answer writeHeartbeatError checks (fun checks =>
    now ← (ask Now : program Z);
    Ret (writeJSON 200 (checksResponseBody ((fun check => newCheckView check now) <$> checks)))).

Definition created_check (check : result heartbeat.StoredCheck) : program Response :=
  answer writeHeartbeatError check (fun check => now ← (ask Now : program Z); Ret (writeJSON 201 (checkResponseBody (newCheckView check now)))).

Definition handleListChecks : handler := fun request =>
  checks ← (ask Check_List : program (result _)); list_checks checks.

Definition handleCreateCheck : handler := fun request =>
  decoded createCheckRequestBody_fields createCheckRequestBody_zero maxAdminBodyBytes request (fun b =>
  or_invalid (parseScheduleField (cc_PeriodSeconds b)) (fun periodSeconds =>
  or_invalid (parseScheduleField (cc_GraceSeconds b)) (fun graceSeconds =>
  or_invalid (decodeCreateProbe (cc_Probe b)) (fun probe =>
  check ← (ask (Check_Create
    {| heartbeat.New_AppID := cc_AppID b; heartbeat.New_Name := cc_Name b; heartbeat.New_PeriodSeconds := periodSeconds;
       heartbeat.New_GraceSeconds := graceSeconds; heartbeat.New_DestinationNames := default [] (slice_of (cc_Destinations b));
       heartbeat.New_OwnerKind := registry.OwnerOperator; heartbeat.New_OwnerAppID := None; heartbeat.New_Probe := probe.1;
       heartbeat.New_AccessToken := probe.2;
       heartbeat.ScheduleSupplied := negb (bool_decide (cc_PeriodSeconds b = [])) || negb (bool_decide (cc_GraceSeconds b = [])) |})
    : program (result _));
  created_check check)))).

Definition handleGetCheck : handler := fun request =>
  or_respond (parseCheckID request) (fun id => check ← (ask (Check_Get id) : program (result _)); writeCheckOutcome check).

Definition handleUpdateCheck : handler := fun request =>
  or_respond (parseCheckID request) (fun id =>
  decoded patchCheckRequestBody_fields patchCheckRequestBody_zero maxAdminBodyBytes request (fun b =>
  refuse (negb (bool_decide (pc_AppID b = [])) || negb (bool_decide (pc_Name b = []))) errMsgCheckIdentityImmutable (
  refuse (bool_decide (pc_Probe b = jsonNull)) errMsgCheckKindImmutable (
  or_invalid (if bool_decide (pc_Probe b = []) then Some (None, no_token_patch)
              else '(patch, token) ← decodePatchProbe (pc_Probe b); Some (Some patch, token)) (fun probe =>
  check ← (ask (Check_Patch id
    {| heartbeat.CP_PeriodSeconds := pc_PeriodSeconds b; heartbeat.CP_GraceSeconds := pc_GraceSeconds b;
       heartbeat.CP_DestinationNames := slice_of (pc_Destinations b); heartbeat.CP_Probe := probe.1; heartbeat.CP_AccessToken := probe.2 |})
    : program (result _));
  writeCheckOutcome check))))).

Definition handleDeleteCheck : handler := fun request =>
  or_respond (parseCheckID request) (fun id =>
  r ← (ask (Check_Delete id) : program (result _));
  answer writeHeartbeatError r (fun deleted => Ret (writeJSON 200 (deleteCheckResponseBody id deleted)))).

Definition handlePauseCheck : handler := fun request =>
  or_respond (parseCheckID request) (fun id => check ← (ask (Check_Pause id) : program (result _)); writeCheckOutcome check).
Definition handleResumeCheck : handler := fun request =>
  or_respond (parseCheckID request) (fun id => check ← (ask (Check_Resume id) : program (result _)); writeCheckOutcome check).

(** apps_heartbeats.go *)

Definition handleAppCreateCheck : handler := fun request =>
  authenticatedAppID request (fun appID =>
  decoded createCheckRequestBody_fields createCheckRequestBody_zero maxAdminBodyBytes request (fun b =>
  refuse (negb (bool_decide (cc_Probe b = []))) heartbeat.MessageProbeOnAppOwned (
  or_invalid (parseScheduleField (cc_PeriodSeconds b)) (fun periodSeconds =>
  or_invalid (parseScheduleField (cc_GraceSeconds b)) (fun graceSeconds =>
  refuse (negb (String.eqb (cc_AppID b) EmptyString) && negb (String.eqb (cc_AppID b) appID)) errMsgCheckAppIDNotOwn (
  check ← (ask (App_CreateCheck appID
    {| heartbeat_service.Input_Name := cc_Name b; heartbeat_service.Input_PeriodSeconds := periodSeconds;
       heartbeat_service.Input_GraceSeconds := graceSeconds;
       heartbeat_service.Input_DestinationNames := default [] (slice_of (cc_Destinations b)) |}) : program (result _));
  created_check check)))))).

Definition handleAppListChecks : handler := fun request =>
  authenticatedAppID request (fun appID => checks ← (ask (App_ListChecks appID) : program (result _)); list_checks checks).

Definition handleAppGetCheck : handler := fun request =>
  appAndCheckID request (fun appID id => check ← (ask (App_GetCheck appID id) : program (result _)); writeCheckOutcome check).

Definition assertedCheckAppIDIsOwn (raw : list Z) (appID : string) : bool :=
  if bool_decide (raw = []) then true
  else match Unmarshal_value into_string raw EmptyString with
  | Some asserted => String.eqb asserted EmptyString || String.eqb asserted appID
  | None => false
  end.

Definition handleAppUpdateCheck : handler := fun request =>
  appAndCheckID request (fun appID id =>
  decoded patchCheckRequestBody_fields patchCheckRequestBody_zero maxAdminBodyBytes request (fun b =>
  refuse (negb (bool_decide (pc_Name b = []))) errMsgCheckIdentityImmutable (
  refuse (negb (assertedCheckAppIDIsOwn (pc_AppID b) appID)) errMsgCheckAppIDNotOwn (
  refuse (negb (bool_decide (pc_Probe b = []))) heartbeat.MessageProbeOnAppOwned (
  check ← (ask (App_PatchCheck appID id
    {| heartbeat.CP_PeriodSeconds := pc_PeriodSeconds b; heartbeat.CP_GraceSeconds := pc_GraceSeconds b;
       heartbeat.CP_DestinationNames := slice_of (pc_Destinations b); heartbeat.CP_Probe := None;
       heartbeat.CP_AccessToken := no_token_patch |}) : program (result _));
  writeCheckOutcome check))))).

Definition handleAppDeleteCheck : handler := fun request =>
  appAndCheckID request (fun appID id =>
  r ← (ask (App_DeleteCheck appID id) : program (result _));
  answer writeHeartbeatError r (fun _ => Ret (writeJSON 200 (deleteCheckResponseBody id true)))).

Definition handleAppPauseCheck : handler := fun request =>
  appAndCheckID request (fun appID id => check ← (ask (App_PauseCheck appID id) : program (result _)); writeCheckOutcome check).
Definition handleAppResumeCheck : handler := fun request =>
  appAndCheckID request (fun appID id => check ← (ask (App_ResumeCheck appID id) : program (result _)); writeCheckOutcome check).

(** messages.go *)

Definition maxWaitSeconds : Z := 10.
Definition invalidListLimit : Z := -1.
Definition defaultListState : string := message.StateDead.

Definition parseListLimit (request : Request) : Z :=
  let rawLimit := Query request "limit" in
  if String.eqb rawLimit EmptyString then message_service.DefaultListLimit else default invalidListLimit (envint.Atoi rawLimit).

Definition parseAppID (request : Request) : string + Response :=
  let appID := Query request "app_id" in
  if String.eqb appID EmptyString then inr (writeError 400 errMsgAppIDRequired) else inl appID.

Definition parseKeyLookup (request : Request) : (string * string) + Response :=
  let appID := Query request "app_id" in
  let idempotencyKey := Query request "idempotency_key" in
  if String.eqb appID EmptyString || String.eqb idempotencyKey EmptyString then inr (writeError 400 errMsgKeyLookupRequired)
  else inl (appID, idempotencyKey).

Definition parseWait (request : Request) : Z + Response :=
  let rawWait := Query request "wait" in
  if String.eqb rawWait EmptyString then inl 0
  else match envint.Atoi rawWait with
  | Some seconds => if seconds <? 0 then inr (writeError 400 errMsgInvalidWait) else inl (Z.min seconds maxWaitSeconds * Second)
  | None => inr (writeError 400 errMsgInvalidWait)
  end.

Definition body_envelope (hold : bool) (b : createMessageRequestBody) : message.Envelope :=
  {| message.AppID := cm_AppID b; message.Channel := cm_Channel b; message.IdempotencyKey := cm_IdempotencyKey b;
     message.ToDestination := match cm_To b with Some to => to_Destination to | None => EmptyString end;
     message.ToRecipient := match cm_To b with Some to => to_Recipient to | None => EmptyString end;
     message.DeliverAt := cm_DeliverAt b; message.Critical := cm_Critical b; message.Payload := of_bytes (cm_Payload b);
     message.Display_ := cm_Display b; message.Hold := hold |}.

(** Waits for the first attempts; a failed wait is not a failed submit. *)
Definition await_attempts (wait : Z) (stored : message.StoredMessage) : program message.StoredMessage :=
  awaited ← (ask (Message_Await (message.AppID (message.Message_Envelope stored)) (message.Message_ID stored) wait) : program (_ * option error));
  Ret (if String.eqb (message.Message_ID awaited.1) EmptyString then stored else awaited.1).

Definition createMessage (request : Request) (hold : bool) : program Response :=
  or_respond (parseWait request) (fun wait =>
  decoded createMessageRequestBody_fields createMessageRequestBody_zero maxMessageBodyBytes request (fun b =>
  r ← (ask (Message_Submit (body_envelope hold b)) : program (result _));
  answer writeMessageError r (fun submitted =>
  let stored := submitted.1 in let outcome := submitted.2 in
  stored ← (if (0 <? wait) && negb (message.Duplicate outcome) && negb (message.Scheduled outcome) && negb (message.Held outcome)
            then await_attempts wait stored else Ret stored);
  Ret (writeJSON 202 (submitResponseBody (newMessageView stored) (message.Duplicate outcome) (message.Replaced outcome)))))).

Definition handleCreateMessage (hold : bool) : handler := fun request => createMessage request hold.

Definition handleGetMessage : handler := fun request =>
  or_respond (parseAppID request) (fun appID =>
  r ← (ask (Message_Get appID (PathValue request "id")) : program (result _));
  answer writeMessageError r (fun stored => Ret (writeJSON 200 (messageResponseBody (newMessageView stored))))).

Definition handleGetMessageByKey : handler := fun request =>
  or_respond (parseKeyLookup request) (fun lookup =>
  r ← (ask (Message_GetByKey lookup.1 lookup.2) : program (result _));
  answer writeMessageError r (fun stored => Ret (writeJSON 200 (messageResponseBody (newMessageView stored))))).

Definition writeCancelOutcome (outcome : result message.CancelOutcome) : program Response :=
  answer writeMessageError outcome (fun outcome =>
    Ret (writeJSON 200 (cancelMessageResponseBody (message.Cancel_MessageID outcome) (message.Cancelled outcome) (message.Status outcome)))).

Definition handleCancelMessage : handler := fun request =>
  or_respond (parseAppID request) (fun appID =>
  outcome ← (ask (Message_Cancel appID (PathValue request "id")) : program (result _)); writeCancelOutcome outcome).
Definition handleCancelMessageByKey : handler := fun request =>
  or_respond (parseKeyLookup request) (fun lookup =>
  outcome ← (ask (Message_CancelByKey lookup.1 lookup.2) : program (result _)); writeCancelOutcome outcome).
Definition handleAdminCancelMessage : handler := fun request =>
  outcome ← (ask (Message_AdminCancel (PathValue request "id")) : program (result _)); writeCancelOutcome outcome.

Definition handleListScheduledMessages : handler := fun request =>
  r ← (ask (Message_ListScheduled (parseListLimit request)) : program (result _));
  answer writeMessageError r (fun listed => Ret (writeJSON 200 (scheduledMessagesResponseBody (newScheduledMessageView <$> listed.1) listed.2))).

Definition handleListDeliveries : handler := fun request =>
  let state := Query request "state" in
  let state := if String.eqb state EmptyString then defaultListState else state in
  r ← (ask (Message_ListDeliveries state (parseListLimit request)) : program (result _));
  answer writeMessageError r (fun deliveries => Ret (writeJSON 200 (deliveriesResponseBody (newAdminDeliveryView <$> deliveries)))).

Definition handleListAttempts : handler := fun request =>
  or_respond (parseDeliveryID request) (fun deliveryID =>
  r ← (ask (Message_ListAttempts deliveryID) : program (result _));
  answer writeMessageError r (fun attempts => Ret (writeJSON 200 (attemptsResponseBody (newAttemptView <$> attempts))))).

Definition handleReplayDelivery : handler := fun request =>
  or_respond (parseDeliveryID request) (fun deliveryID =>
  r ← (ask (Message_Replay deliveryID) : program (result _));
  answer writeMessageError r (fun replayed => Ret (writeJSON 200 (deliveryResponseBody (newAdminDeliveryView replayed))))).

(** publishers.go, apps_publishers.go *)

Definition published (r : publisher.PublisherView + publisher.fault) : program Response :=
  match r with
  | inl view => Ret (writeJSON 200 (publisherResponseBody view))
  | inr err => Ret (writePublisherError err)
  end.

Definition handleAppMintPublisher : handler := fun request =>
  authenticatedAppID request (fun appID =>
  decoded mintPublisherRequestBody_fields mintPublisherRequestBody_zero maxAdminBodyBytes request (fun b =>
  r ← (ask (Publisher_Mint appID (mp_Rotate b)) : program (_ + publisher.fault)); published r)).

Definition requestBodyEmpty (request : Request) : bool := bool_decide (sent (body request) = []) && negb (broken (body request)).

Definition handleMintPublisher : handler := fun request =>
  or_respond (if requestBodyEmpty request then inl mintPublisherRequestBody_zero
              else decodeJSON mintPublisherRequestBody_fields mintPublisherRequestBody_zero (body request) maxAdminBodyBytes) (fun b =>
  r ← (ask (Publisher_MintAsOperator (PathValue request "app_id") (mp_Rotate b)) : program (_ + publisher.fault)); published r).

Definition handleGetPublisher : handler := fun request =>
  r ← (ask (Publisher_Get (PathValue request "app_id")) : program (result _));
  answer (fun err => writePublisherError (publisher.Plain err)) r (fun view => Ret (writeJSON 200 (publisherResponseBody view))).

Definition handleDeletePublisher : handler := fun request =>
  r ← (ask (Publisher_Remove (PathValue request "app_id")) : program (option error));
  match r with
  | Some err => Ret (writePublisherError (publisher.Plain err))
  | None => Ret {| StatusCode := 204; Headers := ∅; Content := written [] |}
  end.

(** apps_provisioning.go *)

Definition retryAfterPattern : string -> bool := match_repeat is_digit 1 9.

Definition relayableProvisioningStatus (status : Z) : bool :=
  let isAnswerRange := ((200 <=? status) && (status <? 300)) || ((400 <=? status) && (status <? 600)) in
  isAnswerRange && negb (status =? 401) && negb (status =? 403).

Definition writeAppProvisioningError (err : error) : Response :=
  if errors_Is err provisionclient.ErrNotConfigured then writeError 503 errMsgProvisioningUnavailable
  else writeError 502 errMsgProvisioningFailed.

Definition relayProvisioning (answer : result provisionclient.Passthrough) : program Response :=
  match answer with
  | Err err => Ret (writeAppProvisioningError err)
  | Ok answer =>
    let status := provisionclient.Status answer in
    let retryAfter := provisionclient.RetryAfter answer in
    if negb (relayableProvisioningStatus status) then Ret (writeError 502 errMsgProvisioningFailed)
    else Ret {| StatusCode := status;
                Headers := if retryAfterPattern retryAfter then <["Retry-After"%string := retryAfter]> json_headers else json_headers;
                Content := written (provisionclient.Body answer) |}
  end.

Definition handleAppProvision : handler := fun request =>
  authenticatedAppID request (fun appID =>
  decoded email_fields EmptyString maxAdminBodyBytes request (fun email =>
  refuse (String.eqb email EmptyString) errMsgEmailRequired (
  r ← (ask (Relay_Provision appID email) : program (result _)); relayProvisioning r))).

(** The person to remove, by one of the two names *)
Definition deprovision_target (b : appDeprovisionRequestBody) : provisionclient.DeprovisionTarget + Response :=
  if Bool.eqb (String.eqb (dp_Email b) EmptyString) (String.eqb (dp_PersonHash b) EmptyString) then inr (writeError 400 errMsgEmailOrHashRequired)
  else if negb (String.eqb (dp_Email b) EmptyString) then inl {| provisionclient.Email := dp_Email b; provisionclient.UserID := EmptyString |}
  else if negb (personhash.IsHash (dp_PersonHash b)) then inr (writeError 400 errMsgInvalidPersonHash)
  else inl {| provisionclient.Email := EmptyString; provisionclient.UserID := personhash.NtfyUserFromHash (dp_PersonHash b) |}.

Definition handleAppDeprovision : handler := fun request =>
  authenticatedAppID request (fun appID =>
  decoded appDeprovisionRequestBody_fields appDeprovisionRequestBody_zero maxAdminBodyBytes request (fun b =>
  or_respond (deprovision_target b) (fun target =>
  r ← (ask (Relay_Deprovision appID target) : program (result _)); relayProvisioning r))).

Definition handleAppSetPassword : handler := fun request =>
  authenticatedAppID request (fun appID =>
  decoded appSetPasswordRequestBody_fields appSetPasswordRequestBody_zero maxAdminBodyBytes request (fun b =>
  refuse (String.eqb (sp_Email b) EmptyString) errMsgEmailRequired (
  refuse (String.eqb (sp_Password b) EmptyString) errMsgPasswordRequired (
  r ← (ask (Relay_SetPassword appID (sp_Email b) (sp_Password b)) : program (result _)); relayProvisioning r)))).

Definition writeResetLimitError (err : resetlimit.refusal + error) : Response :=
  match err with
  | inl (resetlimit.RateLimitedError retryAfter _) => with_headers (setRetryAfter retryAfter) (writeError 429 errMsgResetRateLimited)
  | inr _ => writeError 503 errMsgResetLimitUnavailable
  end.

Definition handleAppResetPassword : handler := fun request =>
  authenticatedAppID request (fun appID =>
  decoded email_fields EmptyString maxAdminBodyBytes request (fun email =>
  refuse (String.eqb (personhash.Normalize email) EmptyString) errMsgEmailRequired (
  reserved ← (ask (Limiter_Reserve appID (personhash.Hash email)) : program (option (resetlimit.refusal + error)));
  match reserved with
  | Some err => Ret (writeResetLimitError err)
  | None => r ← (ask (Relay_ResetPassword appID email) : program (result _)); relayProvisioning r
  end))).

(** admin_provisioning.go, admin_app_teardown.go *)

Definition validAdminAppID (appID : string) (k : program Response) : program Response :=
  match appid.ValidateAppID appID with Some _ => Ret (writeError 400 errMsgInvalidAppID) | None => k end.

Definition requireBoundApp (appID : string) (k : program Response) : program Response :=
  if negb (has_bindingChecker server) then Ret (writeError 503 errMsgAdminBindingCheck)
  else
    bound ← (ask (Binding_Has appID) : program (result bool));
    match bound with
    | Err _ => Ret (writeError 503 errMsgAdminBindingCheck)
    | Ok false => Ret (writeError 404 errMsgAdminAppNotBound)
    | Ok true => k
    end.

Definition handleAdminProvision : handler := fun request =>
  decoded adminAppEmailRequestBody_fields adminAppEmailRequestBody_zero maxAdminBodyBytes request (fun b =>
  validAdminAppID (ae_AppID b) (
  refuse (String.eqb (ae_Email b) EmptyString) errMsgEmailRequired (
  requireBoundApp (ae_AppID b) (
  r ← (ask (Admin_Provision (ae_AppID b) (ae_Email b)) : program (result _)); relayProvisioning r)))).

Definition usableUserID (id : string) : bool :=
  negb (String.eqb id EmptyString) && negb (String.eqb id ".") && negb (String.eqb id "..").

Definition handleAdminDeprovision : handler := fun request =>
  decoded adminDeprovisionRequestBody_fields adminDeprovisionRequestBody_zero maxAdminBodyBytes request (fun b =>
  validAdminAppID (ad_AppID b) (
  refuse (negb (usableUserID (ad_UserID b))) errMsgUserIDRequired (
  r ← (ask (Admin_Deprovision (ad_AppID b) {| provisionclient.Email := EmptyString; provisionclient.UserID := ad_UserID b |}) : program (result _));
  relayProvisioning r))).

Definition handleAdminResetPassword : handler := fun request =>
  decoded adminAppEmailRequestBody_fields adminAppEmailRequestBody_zero maxAdminBodyBytes request (fun b =>
  validAdminAppID (ae_AppID b) (
  refuse (String.eqb (ae_Email b) EmptyString) errMsgEmailRequired (
  r ← (ask (Admin_ResetPassword (ae_AppID b) (ae_Email b)) : program (result _)); relayProvisioning r))).

Definition handleAdminListUsers : handler := fun request =>
  r ← (ask Admin_ListUsers : program (result _)); relayProvisioning r.

Definition handleAdminDeleteUser : handler := fun request =>
  let userID := PathValue request "user_id" in
  refuse (negb (usableUserID userID)) errMsgUserIDRequired (
  r ← (ask (Admin_DeleteUser userID) : program (result _)); relayProvisioning r).

Definition handleAdminTestNotify : handler := fun request =>
  decoded adminTestNotifyRequestBody_fields adminTestNotifyRequestBody_zero maxAdminBodyBytes request (fun b =>
  validAdminAppID (tn_AppID b) (
  requireBoundApp (tn_AppID b) (
  r ← (ask (Admin_TestNotify
    {| provisionclient.AppID := tn_AppID b; provisionclient.Recipients := default [] (slice_of (tn_Recipients b));
       provisionclient.Channel := tn_Channel b; provisionclient.Message := tn_Message b; provisionclient.Title := tn_Title b |})
    : program (result _));
  relayProvisioning r))).

Definition writeTeardownError (err : error) : Response :=
  if errors_Is err appteardown.ErrInvalidAppID then writeError 400 errMsgInvalidAppID
  else if errors_Is err appteardown.ErrBusy then writeError 409 errMsgTeardownBusy
  else if errors_Is err appteardown.ErrUpstream then writeError 502 errMsgTeardownUpstream
  else writeError 503 errMsgTeardownUnavailable.

Definition handleAdminDeprovisionApp : handler := fun request =>
  let appID := PathValue request "app_id" in
  validAdminAppID appID (
  decoded app_id_fields EmptyString maxAdminBodyBytes request (fun bodyAppID =>
  refuse (negb (String.eqb bodyAppID appID)) errMsgTeardownConfirm (
  r ← (ask (Teardown_Deprovision appID) : program (result _));
  answer writeTeardownError r (fun torn => Ret (writeJSON 200 (teardownResponseBody torn)))))).

(** appidentity.go *)

Definition handleExchange : handler := fun request =>
  decoded exchangeRequestBody_fields exchangeRequestBody_zero maxExchangeBodyBytes request (fun b =>
  r ← (ask (Identity_Exchange (ex_AppID b) (ex_Token b)) : program (result _));
  answer writeIdentityError r (fun exchanged =>
    let status := identity_service.Result_Status exchanged in
    if String.eqb status identity_service.ExchangeIssued then
      Ret (writeJSON 200 (exchangeIssuedResponseBody status (identity_service.Result_AppID exchanged)
        (identity_service.Result_Key exchanged) (identity_service.KeyID exchanged)))
    else if String.eqb status identity_service.ExchangePending then
      Ret (writeJSON 202 (exchangePendingResponseBody status (identity_service.RequestID exchanged)))
    else Ret (writeError 500 errMsgInternalError))).

Definition handleListIdentityRequests : handler := fun request =>
  r ← (ask Identity_ListRequests : program (result _));
  answer writeIdentityError r (fun requests => Ret (writeJSON 200 (identityRequestsResponseBody (newIdentityRequestBody <$> requests)))).

Definition handleApproveIdentityRequest : handler := fun request =>
  or_respond (parsePositiveID request errMsgInvalidRequestID) (fun requestID =>
  r ← (ask (Identity_ApproveRequest requestID) : program (result _));
  answer writeIdentityError r (fun binding => Ret (writeJSON 201 (identityBindingResponseBody (newIdentityBindingBody binding []))))).

Definition handleRejectIdentityRequest : handler := fun request =>
  or_respond (parsePositiveID request errMsgInvalidRequestID) (fun requestID =>
  r ← (ask (Identity_RejectRequest requestID) : program (result _));
  answer writeIdentityError r (fun rejected => Ret (writeJSON 200 (identityRequestResponseBody (newIdentityRequestBody rejected))))).

Definition handleListIdentityBindings : handler := fun request =>
  r ← (ask Identity_ListBindings : program (result _));
  answer writeIdentityError r (fun bindings => Ret (writeJSON 200 (identityBindingsResponseBody
    ((fun listed => newIdentityBindingBody (appidentity.Listed_Binding listed) (appidentity.Keys listed)) <$> bindings)))).

Definition handleRevokeIdentityKey : handler := fun request =>
  or_respond (parsePositiveID request errMsgInvalidKeyID) (fun keyID =>
  r ← (ask (Identity_RevokeKey keyID) : program (result _));
  answer writeIdentityError r (fun key => Ret (writeJSON 200 (identityKeyResponseBody (newIdentityKeyBody key))))).

Definition handleUnbindApp : handler := fun request =>
  let appID := PathValue request "app_id" in
  r ← (ask (Identity_Unbind appID) : program (result _));
  answer writeIdentityError r (fun deleted => Ret (writeJSON 200 (unbindResponseBody appID deleted))).

(** server.go: the health checks *)

Definition handleHealthz : handler := fun request =>
  Ret {| StatusCode := 200; Headers := {["Content-Type" := "text/plain"]}%string; Content := written (bytes "ok") |}.

(** The one-field object of a status *)
Definition status_text (status : string) : list Z := [123; 34] ++ bytes "status" ++ [34; 58; 34] ++ bytes status ++ [34; 125].

Definition handleProvisioningHealth : handler := fun request =>
  let respond statusCode status :=
    {| StatusCode := statusCode; Headers := <["Cache-Control" := "no-store"]> json_headers; Content := written (status_text status) |}%string in
  if negb (has_provisioningHealth server) then Ret (respond 503 "unavailable"%string)
  else
    healthErr ← (ask Health_Provisioning : program (option error));
    Ret (match healthErr with Some _ => respond 503 "unavailable"%string | None => respond 200 "ok"%string end).

(** [checkerStatus], [proberStatus]: without a tracker, never ticked and stale *)
Definition freshness (configured : bool) (status : program (option Z * bool)) : program (option string * bool) :=
  if negb configured then Ret (None, true) else s ← status; Ret (formatUTC s.1, s.2).
Definition checkerStatus : program (option string * bool) := freshness (has_checker server) (ask Health_Checker).
Definition proberStatus : program (option string * bool) := freshness (has_prober server) (ask Health_Prober).

Definition handleReadyz : handler := fun request =>
  let unavailable := writeJSON 503 (unavailableResponseBody "unavailable") in
  if negb (has_readiness server) then Ret unavailable
  else
    readiness ← (ask Health_Readiness : program (result Readiness));
    match readiness with
    | Err _ => Ret unavailable
    | Ok readiness =>
      let matching := SchemaVersion readiness =? ExpectedSchemaVersion readiness in
      checker ← checkerStatus;
      prober ← proberStatus;
      Ret (writeJSON (if matching then 200 else 503) (readinessResponseBody
        {| rb_Status := if matching then "ok" else "schema_mismatch"; rb_SchemaVersion := SchemaVersion readiness;
           rb_ExpectedSchemaVersion := ExpectedSchemaVersion readiness;
           rb_LastMigrationFailure := (fun f => (f.1.1, f.1.2, FormatRFC3339 f.2)) <$> LastMigrationFailure readiness;
           rb_HeartbeatChecker := checker; rb_HeartbeatProber := prober |}%string))
    end.

(** ** Routes

    What each wrapper requires, and the handlers by the patterns they are registered
    under; matching a request to its pattern is net/http's. *)

Definition requireRegistry (h : handler) : handler := sensitive (guarded (has_registry server) errMsgRegistryUnavailable h).
Definition requireMessages (h : handler) : handler := sensitive (guarded (has_messages server) errMsgMessagesUnavailable h).
Definition requireHeartbeats (h : handler) : handler := sensitive (guarded (has_heartbeats server) errMsgHeartbeatsUnavailable h).
Definition requirePublishers (h : handler) : handler := sensitive (guarded (has_publishers server) errMsgPublisherMintUnavailable h).
Definition requireAppIdentity (h : handler) : handler := sensitive (guarded (has_appIdentity server) errMsgIdentityUnavailable h).
Definition requireAdminProvisioning (h : handler) : handler := sensitive (guarded (has_adminProvisioning server) errMsgProvisioningUnavailable h).
Definition requireAppTeardown (h : handler) : handler := sensitive (guarded (has_appTeardown server) errMsgProvisioningUnavailable h).
Definition requireAppRegistry (h : handler) : handler := sensitive (guarded (has_appRegistry server) errMsgRegistryUnavailable h).
Definition requireAppHeartbeats (h : handler) : handler := sensitive (guarded (has_appHeartbeats server) errMsgHeartbeatsUnavailable h).
Definition requireAppProvisioning (h : handler) : handler := sensitive (guarded (has_appProvisioning server) errMsgProvisioningUnavailable h).
Definition requireResetLimiter (h : handler) : handler := guarded (has_resetLimiter server) errMsgResetLimitUnavailable h.

Abbreviation keyed := (requireAppKey server).
Definition appScoped (h : handler) : handler := requireAppRegistry (keyed assertedAppIDFromPath h).
Definition appHeartbeatScoped (h : handler) : handler := requireAppHeartbeats (keyed assertedAppIDFromPath h).
Definition appPublisherScoped (h : handler) : handler := requirePublishers (keyed assertedAppIDFromPath h).
Definition appProvisioningScoped (h : handler) : handler := requireAppProvisioning (keyed assertedAppIDFromPath h).
Definition appResetScoped (h : handler) : handler := requireAppProvisioning (requireResetLimiter (keyed assertedAppIDFromPath h)).

Definition routes : list (string * handler) :=
  [("GET /healthz", handleHealthz);
   ("GET /readyz", handleReadyz);
   ("GET /healthz/provisioning", handleProvisioningHealth);
   ("POST /v1/admin/destinations", requireRegistry handleCreateDestination);
   ("GET /v1/admin/destinations", requireRegistry handleListDestinations);
   ("GET /v1/admin/destinations/{name}", requireRegistry handleGetDestination);
   ("PATCH /v1/admin/destinations/{name}", requireRegistry handleUpdateDestination);
   ("DELETE /v1/admin/destinations/{name}", requireRegistry handleDeleteDestination);
   ("POST /v1/admin/destinations/{name}/rotate-secret", requireRegistry handleRotateSecret);
   ("POST /v1/admin/routes", requireRegistry handleCreateRoute);
   ("GET /v1/admin/routes", requireRegistry handleListRoutes);
   ("GET /v1/admin/routes/{id}", requireRegistry handleGetRoute);
   ("PATCH /v1/admin/routes/{id}", requireRegistry handleUpdateRoute);
   ("DELETE /v1/admin/routes/{id}", requireRegistry handleDeleteRoute);
   ("POST /v1/apps/{app_id}/destinations", appScoped handleAppCreateDestination);
   ("GET /v1/apps/{app_id}/destinations", appScoped handleAppListDestinations);
   ("GET /v1/apps/{app_id}/destinations/{name}", appScoped handleAppGetDestination);
   ("PATCH /v1/apps/{app_id}/destinations/{name}", appScoped handleAppUpdateDestination);
   ("DELETE /v1/apps/{app_id}/destinations/{name}", appScoped handleAppDeleteDestination);
   ("POST /v1/apps/{app_id}/destinations/{name}/rotate-secret", appScoped handleAppRotateSecret);
   ("POST /v1/apps/{app_id}/routes", appScoped handleAppCreateRoute);
   ("GET /v1/apps/{app_id}/routes", appScoped handleAppListRoutes);
   ("GET /v1/apps/{app_id}/routes/{id}", appScoped handleAppGetRoute);
   ("PATCH /v1/apps/{app_id}/routes/{id}", appScoped handleAppUpdateRoute);
   ("DELETE /v1/apps/{app_id}/routes/{id}", appScoped handleAppDeleteRoute);
   ("POST /v1/apps/{app_id}/heartbeats", appHeartbeatScoped handleAppCreateCheck);
   ("GET /v1/apps/{app_id}/heartbeats", appHeartbeatScoped handleAppListChecks);
   ("GET /v1/apps/{app_id}/heartbeats/{id}", appHeartbeatScoped handleAppGetCheck);
   ("PATCH /v1/apps/{app_id}/heartbeats/{id}", appHeartbeatScoped handleAppUpdateCheck);
   ("DELETE /v1/apps/{app_id}/heartbeats/{id}", appHeartbeatScoped handleAppDeleteCheck);
   ("POST /v1/apps/{app_id}/heartbeats/{id}/pause", appHeartbeatScoped handleAppPauseCheck);
   ("POST /v1/apps/{app_id}/heartbeats/{id}/resume", appHeartbeatScoped handleAppResumeCheck);
   ("POST /v1/apps/{app_id}/provision", appProvisioningScoped handleAppProvision);
   ("POST /v1/apps/{app_id}/deprovision", appProvisioningScoped handleAppDeprovision);
   ("POST /v1/apps/{app_id}/set-password", appProvisioningScoped handleAppSetPassword);
   ("POST /v1/apps/{app_id}/reset-password", appResetScoped handleAppResetPassword);
   ("POST /v1/apps/{app_id}/ntfy-publisher", appPublisherScoped handleAppMintPublisher);
   ("POST /v1/admin/provision", requireAdminProvisioning handleAdminProvision);
   ("POST /v1/admin/deprovision", requireAdminProvisioning handleAdminDeprovision);
   ("POST /v1/admin/reset-password", requireAdminProvisioning handleAdminResetPassword);
   ("GET /v1/admin/users", requireAdminProvisioning handleAdminListUsers);
   ("DELETE /v1/admin/users/{user_id}", requireAdminProvisioning handleAdminDeleteUser);
   ("POST /v1/admin/test-notify", requireAdminProvisioning handleAdminTestNotify);
   ("POST /v1/admin/apps/{app_id}/deprovision", requireAppTeardown handleAdminDeprovisionApp);
   ("POST /v1/admin/apps/{app_id}/ntfy-publisher", requirePublishers handleMintPublisher);
   ("GET /v1/admin/apps/{app_id}/ntfy-publisher", requirePublishers handleGetPublisher);
   ("DELETE /v1/admin/apps/{app_id}/ntfy-publisher", requirePublishers handleDeletePublisher);
   ("POST /v1/heartbeats/{app_id}/{name}", requireHeartbeats (keyed assertedAppIDFromPath handlePingCheck));
   ("POST /v1/heartbeats/{app_id}/{name}/fail", requireHeartbeats (keyed assertedAppIDFromPath handleFailCheck));
   ("GET /v1/admin/heartbeats", requireHeartbeats handleListChecks);
   ("POST /v1/admin/heartbeats", requireHeartbeats handleCreateCheck);
   ("GET /v1/admin/heartbeats/{id}", requireHeartbeats handleGetCheck);
   ("PATCH /v1/admin/heartbeats/{id}", requireHeartbeats handleUpdateCheck);
   ("DELETE /v1/admin/heartbeats/{id}", requireHeartbeats handleDeleteCheck);
   ("POST /v1/admin/heartbeats/{id}/pause", requireHeartbeats handlePauseCheck);
   ("POST /v1/admin/heartbeats/{id}/resume", requireHeartbeats handleResumeCheck);
   ("POST /v1/app-identity/exchange", requireAppIdentity handleExchange);
   ("GET /v1/admin/app-identity/requests", requireAppIdentity handleListIdentityRequests);
   ("POST /v1/admin/app-identity/requests/{id}/approve", requireAppIdentity handleApproveIdentityRequest);
   ("POST /v1/admin/app-identity/requests/{id}/reject", requireAppIdentity handleRejectIdentityRequest);
   ("GET /v1/admin/app-identity/bindings", requireAppIdentity handleListIdentityBindings);
   ("POST /v1/admin/app-identity/keys/{id}/revoke", requireAppIdentity handleRevokeIdentityKey);
   ("DELETE /v1/admin/app-identity/bindings/{app_id}", requireAppIdentity handleUnbindApp);
   ("POST /v1/messages", requireMessages (keyed assertedAppIDFromBody (handleCreateMessage true)));
   ("GET /v1/messages/{id}", requireMessages (keyed assertedAppIDFromQuery handleGetMessage));
   ("GET /v1/messages", requireMessages (keyed assertedAppIDFromQuery handleGetMessageByKey));
   ("DELETE /v1/messages/{id}", requireMessages (keyed assertedAppIDFromQuery handleCancelMessage));
   ("DELETE /v1/messages", requireMessages (keyed assertedAppIDFromQuery handleCancelMessageByKey));
   ("POST /v1/admin/messages", requireMessages (handleCreateMessage false));
   ("GET /v1/admin/scheduled-messages", requireMessages handleListScheduledMessages);
   ("DELETE /v1/admin/scheduled-messages/{id}", requireMessages handleAdminCancelMessage);
   ("GET /v1/admin/deliveries", requireMessages handleListDeliveries);
   ("GET /v1/admin/deliveries/{id}/attempts", requireMessages handleListAttempts);
   ("POST /v1/admin/deliveries/{id}/replay", requireMessages handleReplayDelivery)]%string.
End handlers.
End http_api.
